(* ===== verification/_CoqProject ===== *)
-Q . S2P
Prelude.v
Proto.v
Interface.v
Db.v
DbSpec.v
DbFacts.v
Models.v
DbTheorems.v
Runtime.v
Resolver.v
ResolverLogic.v
ResolverFacts.v
ResolverModels.v
ResolverTheorems.v
Idmap.v
IdmapTheorems.v
UserMap.v
Caches.v
Config.v
ConfigTheorems.v
Daemon.v
DaemonTheorems.v
Hello.v
HelloTheorems.v
HelloPin.v
Client.v
Loopback.v
Pam.v
PamAuth.v
PamFacts.v
PamModels.v
PamTheorems.v
PamModule.v
PamModuleTheorems.v
PamDaemon.v
Nss.v
NssTheorems.v
Entra.v
EntraUser.v
EntraInit.v
EntraDevice.v
EntraStep.v
EntraTheorems.v
EntraStepTheorems.v
EntraLocks.v
EntraFrame.v
EntraPanics.v
EntraModels.v
EntraStepModels.v
EntraMulti.v
EntraMultiTheorems.v
Oidc.v
OidcProvider.v
OidcTheorems.v
OidcStepTheorems.v
OidcSession.v
OidcMulti.v
OidcModels.v
OrchTypes.v
OrchPodman.v
OrchFlow.v
OrchServer.v
OrchFacts.v
OrchTheorems.v
OrchServerTheorems.v
OrchPool.v
OrchDialogue.v
OrchModels.v
TaskHost.v
Policies.v
Tasks.v
TasksFacts.v
TasksTheorems.v
PoliciesTheorems.v
TasksModels.v
PolicyPin.v
