(* ===== verification/Prelude.v ===== *)
(** * Himmelblau: a verification of the login path, from PAM and NSS to the directory

    Himmelblau lets Linux hosts authenticate users of Entra ID or of an OpenID Connect
    provider. PAM and NSS modules
    ([src/pam], [src/nss]) talk over a socket to a daemon ([src/daemon]); the daemon
    hands every request to the resolver ([src/common/src/resolver.rs]), which answers
    from an SQLite cache ([src/common/src/db.rs]), refreshes the cache through an
    identity provider (the trait of [src/common/src/idprovider/interface.rs]) and
    checks credentials with the provider or, offline, with the cached password and the
    keys sealed in a TPM. [HimmelblauMultiProvider] ([idprovider/himmelblau.rs]) routes
    an account by its domain to one of the configured providers; the macros of
    [idprovider/common.rs] hold what the providers share (Linux Hello). The crate
    [src/idmap] turns object ids and names into uid and gid numbers. Paths here are
    relative to the repository's [src] directory.

    ** Files and what they model

    - [Prelude]: this file. Rust's [Result], machine integers, the parts of Rust's
      [str] and integer parsing the code uses, notations ([rust_scope]), shared
      tactics, hint databases and list lemmas.
    - [Proto]: [unix_proto.rs] and [unix_config.rs], the messages and their log
      renderings. [Interface]: the data types of [idprovider/interface.rs].
    - [Db]: the tables of [db.rs] and one definition per method of [CacheTxn] and
      [KeyStoreTxn]; the connection and its transaction. [DbSpec]: the abstract table
      functions, the invariant [db_wf] and the refinement relation; [DbFacts]: the
      lemmas per method; [Models]: executable instances of the external crates;
      [DbTheorems]: the properties.
    - [Runtime]: the world a request sees (locks, clock, connection, TPM, provider,
      exclusion set, negative cache), the monad of the resolver with the outcomes
      returned, panicked and deadlocked, and the class [IdProvider] (the trait of
      [interface.rs]). [Resolver]: one definition per method of [Resolver], the long
      PAM methods cut along their branches. [ResolverLogic]: a weakest-precondition
      calculus; [ResolverFacts]: the specification of each method; [ResolverModels]:
      executable providers and environments; [ResolverTheorems]: the properties.
    - [Idmap], [IdmapTheorems]: [idmap/src/lib.rs] with the C code it calls in
      [murmurhash3.c] and [sss_idmap.c]. [UserMap]: [user_map.rs]. [Caches]:
      [mapping.rs], [idmap_cache.rs], [nss_cache.rs] and [policy_cache.rs].
    - [Config], [ConfigTheorems]: [config.rs], its lookups and fallbacks, the mapping
      of names, the aliases of a domain and the server configuration.
    - [Daemon], [DaemonTheorems]: [daemon.rs], a client connection with every request,
      the queue of the tasks daemon and the reading of the local accounts
      ([unix_passwd.rs]).
    - [Hello], [HelloTheorems]: [idprovider/common.rs], the refresh cache, the counter
      of bad PINs, Hello keys, offline authentication and TOTP. [HelloPin]:
      [hello_pin_complexity.rs].
    - [Client]: [client_sync.rs] and [client.rs], both clients of the socket.
    - [Pam], [PamAuth]: [pam.rs] and [auth.rs], the login loop of the PAM client with
      every response, security keys and phones. [PamFacts]: reasoning about it;
      [PamModels]: a scripted user; [PamTheorems]: the abstract protocol and the
      properties. [Loopback], [PamModule], [PamModuleTheorems]: the hooks of
      [pam/src/pam/mod.rs]. [PamDaemon]: the client on the modelled daemon.
    - [Nss], [NssTheorems]: [nss/src/implementation.rs], lookups, cache fallback and
      [initgroups].
    - [Entra], [EntraUser], [EntraInit], [EntraDevice], [EntraStep]:
      [HimmelblauProvider] of [idprovider/himmelblau.rs]: initialisation and tokens;
      refreshing a user, access tokens, tickets and cookies; the beginning of a login;
      the join and the enrolment of the device; the steps of an online login, one
      definition per macro and per arm of [unix_user_online_auth_step].
      [EntraTheorems]: a calculus for it and the properties of tokens and first
      requests; [EntraStepTheorems]: what a user must show to get in; [EntraLocks]: the
      lock of the client; [EntraFrame]: what a step may touch; [EntraPanics]: that a step
      does not panic and answers; [EntraModels],
      [EntraStepModels]: a directory, and logins with it. [EntraMulti],
      [EntraMultiTheorems]: [HimmelblauMultiProvider], its start, routing and methods.
    - [Oidc], [OidcProvider]: [idprovider/openidconnect.rs]: the messages, the codec and
      the prompts of the browser orchestrator, the device flow, [OidcApplication] with its
      discovery and its token requests; the methods of [OidcProvider] and the arms of its
      [unix_user_online_auth_step]. [OidcMulti]: the provider as a part of the routing,
      and what holds of resolver, routing and both providers together.
      [OidcTheorems], [OidcStepTheorems], [OidcSession]: what is shown of its data and
      initialisation, of a step, and of a whole login; [OidcModels]: a provider on which
      these are evaluated.
    - The browser orchestrator ([src/orchestrator]), a process of its own that the OIDC
      provider asks to drive a login in a browser inside a container. [OrchTypes]:
      [types.rs] and [provider_definitions.rs], the messages, the definition of a flow, its
      validation, the built-in flow for Keycloak and the choice of a provider. [OrchPodman]:
      [podman.rs]. [OrchFlow]: the sessions of [session.rs] and the executor of [flow.rs].
      [OrchServer]: [container_pool.rs], [SessionManager] and [communication.rs].
      [OrchFacts]: a calculus for calls on a session; [OrchTheorems],
      [OrchServerTheorems]: flows, secrets and owners; [OrchPool]: the containers, with podman's
      names and sockets, as a step relation over all interleavings of the tasks; [OrchDialogue]: the daemon's side of
      the conversation and the orchestrator's together; [OrchModels]: a browser.
    - The tasks daemon ([daemon/src/tasks_daemon.rs]), which does as root what the daemon
      asks it to, and the Intune policies it applies ([src/policies]). [TaskHost]: the host,
      whose calls are recorded, paths, and the monad of a task. [Policies]:
      [apply_intune_policy] and its extensions [scripts_ext.rs], [compliance_ext.rs] and
      [custom_compliance_ext.rs]. [Tasks]: every task and the loop. [TasksFacts]: a calculus
      for what a task may call; [TasksTheorems], [PoliciesTheorems]: the properties;
      [TasksModels]: a host. [PolicyPin]: the policies and the PAM client together.

    ** How the code is modelled

    A method of the cache is a function of type [DbM]: it takes a fault oracle, the
    number of statements run so far and the tables, and returns a [result]. SQL
    statements are functions on lists of rows in row-id order, with the [UNIQUE]
    constraints checked where the statement can violate them, [COLLATE NOCASE] and
    [LIKE] written out. A statement that is prepared and then executed is one event
    of the oracle. Foreign keys are not enforced, the default of the SQLite library
    the program links.

    A method of the resolver is a function of type [M] on [World]. A mutex that the
    request already holds makes it [Deadlocked]; a failing [expect] and a clock
    overflow make it [Panicked]. [draw] reads an oracle at a counter that advances,
    so theorems quantify over all clocks and all failures. A transaction works on a
    copy of the tables; [db_commit] writes it back, [db_drop] discards it unless it
    was committed, as [Drop for DbTxn] does; a failing [COMMIT] either leaves the
    transaction open or rolls it back ([CommitFault]).

    The other components have a state monad of their own over what they share with the
    rest: [DM] (a connection of the daemon over the resolver's world), [HM] and [EM]
    (a provider over its caches, keys and TPM, with the exits [?], [return], panic and a
    wait for a lock the call holds itself; the credential handler of a login, which the
    code changes in place, and the lock of the client are part of the state of [EM]),
    [PM] (the PAM client over the user, the daemon and the exchanges so far), [NM] (the
    NSS module), [OrcM] (the orchestrator, with the lock of a session: a second lock is
    [Hung]), [TM] (a task of root, with the user it acts as, the umask and the calls so
    far). A macro of the source is a definition; its [return] from the calling
    function is an exit of the monad.

    Code outside the repository is a class, with its documented behaviour as laws where
    a proof needs them: [Ext] (uuid and opaque token types), [Serde], [Json], [Csv]
    and [BlobCodec] (serialisation), [Crypto] and [HelloOps] (TPM, keys, password
    hashing), [LruCache], [Unistring], [IniFile] (configparser), [GeneratedConfig],
    [PamConfig] and [EntraConfig] (the getters the build generates), [Federation] (the
    tenant lookup), [Host], [HelloEnv], [DaemonEnv], [NssEnv] (files, clocks, names of
    the host), [TextOps], [TokenOps], [PamEnv], [FidoEnv], [DaemonLink], [MsalEnv],
    [EntraEnv], [EntraFlow], [EntraLogin], [EntraStart], [RemoteOps] (the user, the devices, the
    socket, and libhimmelblau with the network behind it), [OidcConfig] and [OidcEnv] (the
    crates openidconnect and reqwest, and the orchestrator's socket), [OrchEnv],
    [DefinitionOps] and [FlowCodecOps] (podman, the bridge to the browser and the host of
    the orchestrator, its JSON and urls), [TaskEnv], [TaskConfig], [TaskCodecOps] and
    [PolicyEnv] (the host of the tasks daemon with its files and programs, and Intune).
    [IdProvider] and [PartOps]
    are interfaces of the program itself: the resolver is proved against the first and
    the multi provider against the second; [hello_provider], [multi_provider],
    [entra_part] and [oidc_part] implement them. The files [...Models] and the ends of the theorem files
    give instances that satisfy the laws, on which every property is evaluated.

    ** What the theorems show

    - From end to end: a login that PAM reports as successful ended with a step for which
      the resolver, in the state the exchanges before it lead to, finds the evidence for
      exactly that account, service and flags ([login_success_accounted],
      [connection_success_accounted], [step_success_evidence]): the provider accepts the step
      online or, only where the session or the provider is not online and re-authentication
      is not demanded, the cached password or the provider accepts it offline. A cached
      account survives every refresh through resolver, routing and either provider
      ([refresh_keeps_known]).
    - Cache: every reachable database is well formed, whatever failed on the way;
      [update_account] refines one abstract upsert and never trips a constraint;
      what is written is read back; passwords survive profile refreshes.
    - Resolver and daemon: every request sequence, and every connection, is free of
      deadlock and keeps the invariant, as long as the provider does not fail to start an
      online authentication, and with a well-behaved SQLite it ends without
      panic ([serve_total], [connection_total]); local accounts never reach provider
      or cache; authorisation looks at object ids only; writes are atomic; sessions
      succeed only on evidence, and with forced re-authentication only online; tasks
      are answered in order; privileged requests are for root.
    - Linux Hello: offline success needs a PIN the TPM accepts, and the TOTP code
      where TOTP is on and the look-up of the account's record does not fail
      ([offline_success_needs_pin], [resolver_hello_success]; a failing look-up counts as no
      record, [totp_fails_open]); wrong PINs run into the lock-out exactly at the configured
      count; the refresh cache forgets after a day, also across a restart.
    - PAM: [authenticate] implements an abstract login protocol
      ([authenticate_refines]) and returns when its user and devices do
      ([authenticate_total]); the hooks succeed exactly when the daemon says so; remote
      logins are marked; a changed PIN passes the rules.
    - NSS: no group is answered by its directory name; [initgroups] stays inside the
      array and below the limit; users stay resolvable without the daemon for 48 hours.
    - Entra ID: a token is accepted only for the user it was asked for; a group cannot
      be made to look like another user's; a refresh never loses a user; a PIN is asked
      for only on a bound device; the tenants are fixed when the daemon starts and an
      account reaches only the provider of its domain. An online login step lets a user
      in, or asks for a new PIN, only after he has shown a secret
      ([online_success_needs_proof]); it touches nothing of another account but tokens older
      than a day ([login_step_isolated]); and it answers, without panic, while dates and
      ranges fit their width, unless the directory answers in one of three ways
      ([step_returns]).
    - OpenID Connect: the same for a step ([oidc_success_needs_proof],
      [oidc_step_isolated]), and for a whole login, from its first request to its success
      ([oidc_login_shows_secret]); through the routing, whatever the directory,
      [any_login_needs_proof]. A device flow is polled as long as its code lives
      ([device_poll_bounded]); what the orchestrator asks for is what the user is asked,
      and his answer goes there ([orchestrator_prompt_answered]); its responses are read
      as sent ([orchestrator_response_read]).
    - Browser orchestrator: a flow that leads forward always answers and gives its lock back
      ([flow_returns]); a password or code is forgotten once it has been entered and
      the rest of the flow does not name it ([secret_forgotten]); only its owner touches a
      session ([session_owner_only]); two sessions never share a container, nor a socket
      unless their sanitised identifiers collide, however the tasks interleave
      ([container_single_owner], [names_collide]); every valid answer the daemon passes on is
      taken and brings the step closer to its end ([dialogue_progress]).
    - Tasks daemon and policies: whatever it is asked and whatever fails, the process makes
      only the calls its task permits, on the home, aliases, groups, tickets and photo of the
      account it was asked about, touches credential caches as the user only and is
      root again with its umask afterwards ([tasks_confined]); a password rule reported
      without error binds every PIN that is enrolled at a login through PAM
      ([pin_policy_enforced]; changing a PIN is not checked, [pin_change_skips_policy]); settings about the
      distribution are judged as a reference definition does, in any order
      ([distribution_exact]).
    - Numbers: uid, gid and subordinate-id numbers stay in their ranges, nothing
      overflows; PIN rules, configuration and the smaller caches behave as specified.
    - Where the code does not do what it means to, the behaviour is proved as it is:
      [auth_init_self_deadlock], [failed_commit_wedges], [case_variant_lockout],
      [refused_domain_registered], [offline_totp_dead_end],
      [capital_local_user_resolved], [denied_login_provisioned], [second_poll_aborts],
      [pin_change_skips_policy], [sync_client_full_buffer_lost],
      [second_domain_never_starts], [pin_retry_hangs], [new_device_dropped],
      [oidc_init_never_recovers], [oidc_outage_unenrols], [oidc_static_ids_swapped],
      [token_key_wedges], [endless_flow], [last_sudoer_kept],
      [script_without_frequency].

    ** Bounds

    Recursion is structural everywhere but in the PAM client, whose loops go on as long
    as the user or a device does: [PM] has fuel there and returns [None] without it, and
    [authenticate_total] shows that fuel in the number of answers the user and the
    daemon give is enough, and in the executor of the orchestrator, whose flow may run in
    circles: one unit per step of the flow and one more are enough for a flow that leads
    forward ([flow_returns]), and no number is enough for one that does not
    ([endless_flow]). Integers are [Z] with their width as hypotheses or as
    explicit wrap-around ([wrap32]), conversions ([try_from]) and checked operations.
    The theorems hold for every length of request sequence and every cache size.

    ** What is not modelled

    - Interleaving of concurrent requests, but for the containers of the orchestrator
      ([OrchPool]): a request is run to its end; the locks
      are modelled so that self-deadlock and leaks show, while lock-order inversions
      between requests do not. The order in which a [HashMap] is iterated is taken as
      that of the map, but for [distribution_exact], which is shown for every order.
    - Automatic rollback of a transaction by SQLite after a failing statement other
      than [COMMIT], and the shutdown channel of a session.
    - Case folding outside ASCII: [to_lowercase] acts on ASCII letters, as [NOCASE]
      and [strcasecmp] do; lengths of strings above 2^31 bytes in the hash.
    - Of the locks of the Entra ID provider only that of the client, which is the one
      kept across calls; a call that does not return stands as an error in
      [entra_part].
    - The start-up of the processes, their sockets and timers, and the erasure of secrets
      when a value is dropped.
    - D-Bus, TPM set-up, the command-line tools and other glue, which are mostly I/O; the
      code for SELinux in the tasks daemon, a feature the crate does not have. *)
From stdpp Require Import base gmap strings list fin_maps.
From Stdlib Require Import ZArith Lia DecimalString DecimalN DecimalFacts Ascii.

Open Scope Z_scope.

(** ** Rust's [Result] *)

Inductive result (A E : Type) : Type :=
| Ok (a : A)
| Err (e : E).
Arguments Ok {A E} a.
Arguments Err {A E} e.

Definition result_bind {A B E} (m : result A E) (k : A → result B E) : result B E :=
  match m with Ok a => k a | Err e => Err e end.

Definition result_map {A B E} (f : A → B) (m : result A E) : result B E :=
  match m with Ok a => Ok (f a) | Err e => Err e end.

Definition result_map_err {A E F} (f : E → F) (m : result A E) : result A F :=
  match m with Ok a => Ok a | Err e => Err (f e) end.

Definition result_ok {A E} (m : result A E) : option A :=
  match m with Ok a => Some a | Err _ => None end.

Definition ok_or {A E} (o : option A) (e : E) : result A E :=
  match o with Some a => Ok a | None => Err e end.

Definition is_ok {A E} (m : result A E) : bool :=
  match m with Ok _ => true | Err _ => false end.

Declare Scope rust_scope.
Delimit Scope rust_scope with rust.
Notation "'let?' x := m 'in' k" := (result_bind m (λ x, k))
  (at level 200, x pattern, m at level 100, k at level 200, right associativity) : rust_scope.

(** ** Machine integers, kept as [Z] with their width written out *)

Definition u8_max : Z := 255.
Definition u32_max : Z := 4294967295.
Definition u64_max : Z := 18446744073709551615.
Definition i64_min : Z := -9223372036854775808.
Definition i64_max : Z := 9223372036854775807.

Definition in_u8 (z : Z) : Prop := 0 ≤ z ≤ u8_max.
Definition in_u32 (z : Z) : Prop := 0 ≤ z ≤ u32_max.
Definition in_u64 (z : Z) : Prop := 0 ≤ z ≤ u64_max.
Definition in_i64 (z : Z) : Prop := i64_min ≤ z ≤ i64_max.

Definition wrap32 (z : Z) : Z := z mod 2 ^ 32.

(** [a.saturating_sub(b)] on an unsigned type. *)
Definition saturating_sub (a b : Z) : Z := Z.max 0 (a - b).

(** [i64::try_from(u)] and [u64::try_from(i)]. *)
Definition i64_try_from_u64 (u : Z) : option Z := if u <=? i64_max then Some u else None.
Definition u64_try_from_i64 (i : Z) : option Z := if 0 <=? i then Some i else None.

(** ** Strings: UTF-8 byte strings; the case and whitespace functions act on ASCII *)

Definition ascii_lower (c : ascii) : ascii :=
  let n := nat_of_ascii c in
  if (Nat.leb 65 n && Nat.leb n 90)%bool then ascii_of_nat (n + 32) else c.

Definition is_ws (c : ascii) : bool :=
  let n := nat_of_ascii c in (Nat.eqb n 32 || (Nat.leb 9 n && Nat.leb n 13))%bool.

Fixpoint string_map (f : ascii → ascii) (s : string) : string :=
  match s with
  | EmptyString => EmptyString
  | String c s' => String (f c) (string_map f s')
  end.

Definition to_lowercase (s : string) : string := string_map ascii_lower s.

Fixpoint contains_char (c : ascii) (s : string) : bool :=
  match s with
  | EmptyString => false
  | String d s' => (Ascii.eqb d c || contains_char c s')%bool
  end.

Fixpoint trim_start (s : string) : string :=
  match s with
  | String c s' => if is_ws c then trim_start s' else s
  | EmptyString => EmptyString
  end.

Fixpoint trim_end (s : string) : string :=
  match s with
  | EmptyString => EmptyString
  | String c s' =>
      match trim_end s' with
      | EmptyString => if is_ws c then EmptyString else String c EmptyString
      | t => String c t
      end
  end.

Definition trim (s : string) : string := trim_end (trim_start s).

(** [s.split(c)]: always at least one part. *)
Fixpoint split_char (c : ascii) (s : string) : list string :=
  match s with
  | EmptyString => [EmptyString]
  | String d s' =>
      if Ascii.eqb d c then EmptyString :: split_char c s'
      else match split_char c s' with
           | p :: ps => String d p :: ps
           | [] => [String d EmptyString]
           end
  end.

(** [s.splitn(2, c)]: the part before the first [c], and the rest if there is one. *)
Fixpoint split_once (c : ascii) (s : string) : string * option string :=
  match s with
  | EmptyString => (EmptyString, None)
  | String d s' =>
      if Ascii.eqb d c then (EmptyString, Some s')
      else let '(a, b) := split_once c s' in (String d a, b)
  end.

Definition LF : ascii := "010"%char.
Definition CR : ascii := "013"%char.

Fixpoint strip_cr (s : string) : string :=
  match s with
  | EmptyString => EmptyString
  | String c EmptyString => if Ascii.eqb c CR then EmptyString else s
  | String c s' => String c (strip_cr s')
  end.

Fixpoint drop_last_empty (l : list string) : list string :=
  match l with
  | [] => []
  | [EmptyString] => []
  | x :: l' => x :: drop_last_empty l'
  end.

(** [s.lines()]: split at line feeds, a final empty line dropped, a carriage
    return before the line feed removed. *)
Fixpoint strip_cr_lines (l : list string) : list string :=
  match l with
  | [] => []
  | [last] => [last]
  | x :: l' => strip_cr x :: strip_cr_lines l'
  end.

Definition lines (s : string) : list string :=
  drop_last_empty (strip_cr_lines (split_char LF s)).

(** [n.to_string()] for an unsigned integer, and [str::parse] for one of
    maximum [max]: an optional plus sign, then at least one decimal digit. *)
Definition uint_to_string (z : Z) : string :=
  NilZero.string_of_uint (N.to_uint (Z.to_N z)).

Definition strip_plus (s : string) : string :=
  match s with
  | String c s' => if Ascii.eqb c "+"%char then s' else s
  | EmptyString => s
  end.

Definition parse_uint (max : Z) (s : string) : option Z :=
  match NilZero.uint_of_string (strip_plus s) with
  | Some d => let z := Z.of_N (N.of_uint d) in if z <=? max then Some z else None
  | None => None
  end.

(** ** Tactics *)

(** Split the first [match] or [if] of the goal or of a hypothesis, keeping its
    equation. *)
Ltac case_goal :=
  match goal with
  | |- context [match ?x with _ => _ end] => destruct x eqn:?
  end.

Ltac case_hyp H :=
  match type of H with
  | context [match ?x with _ => _ end] => destruct x eqn:?
  end.

Ltac split_all :=
  repeat match goal with
  | H : _ ∧ _ |- _ => destruct H
  | H : ∃ _, _ |- _ => destruct H
  | |- _ ∧ _ => split
  end.

Create HintDb himmel discriminated.

(** ** Lemmas on strings *)

Lemma ascii_lower_idemp c : ascii_lower (ascii_lower c) = ascii_lower c.
Proof. destruct c as [[] [] [] [] [] [] [] []]; reflexivity. Qed.

Lemma string_map_idemp f s :
  (∀ c, f (f c) = f c) → string_map f (string_map f s) = string_map f s.
Proof. intros Hf. induction s as [|c s IH]; simpl; [done|]. by rewrite Hf, IH. Qed.

Lemma to_lowercase_idemp s : to_lowercase (to_lowercase s) = to_lowercase s.
Proof. apply string_map_idemp, ascii_lower_idemp. Qed.

Lemma split_char_nonempty c s : split_char c s ≠ [].
Proof. destruct s as [|d s]; simpl; [done|]. repeat case_goal; done. Qed.

Lemma length_string_map f s : String.length (string_map f s) = String.length s.
Proof. induction s; simpl; congruence. Qed.

Lemma strip_plus_uint d : strip_plus (NilZero.string_of_uint d) = NilZero.string_of_uint d.
Proof. destruct d; reflexivity. Qed.

(** Printing an unsigned integer and parsing it back is the identity. *)
Lemma length_append a b : String.length (a +:+ b) = (String.length a + String.length b)%nat.
Proof. induction a as [|c a IH]; [done|]. simpl. by rewrite IH. Qed.

Lemma parse_uint_to_string max z : 0 ≤ z ≤ max → parse_uint max (uint_to_string z) = Some z.
Proof.
  intros Hz. unfold parse_uint, uint_to_string. rewrite strip_plus_uint.
  rewrite NilZero.usu.
  - rewrite DecimalN.Unsigned.of_to, Z2N.id by lia.
    destruct (Z.leb_spec z max); [done|lia].
  - intros Hn. pose proof (DecimalN.Unsigned.of_to (Z.to_N z)) as H1. rewrite Hn in H1.
    destruct (Z.to_N z) as [|p]; simpl in *; [done|].
    apply (f_equal N.of_uint) in Hn. simpl in Hn.
    pose proof (DecimalN.Unsigned.of_to (Npos p)) as H2. simpl in H2. congruence.
Qed.

Lemma parse_uint_bounds max s z : parse_uint max s = Some z → 0 ≤ z ≤ max.
Proof.
  unfold parse_uint. case_match; [|done]. case_match; [|done].
  intros [= <-]. split; [lia|]. by apply Z.leb_le.
Qed.

(** ** Lemmas on options and machine integers *)

Lemma i64_try_from_u64_Some u i : i64_try_from_u64 u = Some i ↔ u ≤ i64_max ∧ i = u.
Proof. unfold i64_try_from_u64. destruct (Z.leb_spec u i64_max); naive_solver lia. Qed.

Lemma u64_try_from_i64_Some i u : u64_try_from_i64 i = Some u ↔ 0 ≤ i ∧ u = i.
Proof. unfold u64_try_from_i64. destruct (Z.leb_spec 0 i); naive_solver lia. Qed.

Lemma wrap32_range z : in_u32 (wrap32 z).
Proof. unfold in_u32, wrap32, u32_max. pose proof (Z.mod_pos_bound z (2^32)). lia. Qed.

Lemma wrap32_small z : in_u32 z → wrap32 z = z.
Proof. unfold in_u32, wrap32, u32_max. intros. apply Z.mod_small. lia. Qed.

(** ** Lemmas on filtered lists *)

Section filters.
Context {A : Type}.
Implicit Types (l : list A) (f g : A → bool).

Lemma NoDup_map_filter {B} (h : A → B) f l :
  NoDup (h <$> l) → NoDup (h <$> List.filter f l).
Proof.
  induction l as [|x l IH]; [done|]. csimpl. rewrite NoDup_cons. intros [Hx Hl].
  destruct (f x); csimpl; [|auto]. apply NoDup_cons. split; [|auto].
  contradict Hx. apply list_elem_of_fmap in Hx as (y & E & Hy). apply list_elem_of_fmap.
  exists y. split; [done|]. apply list_elem_of_In in Hy. apply filter_In in Hy as [Hy _].
  by apply list_elem_of_In.
Qed.

Lemma elem_of_bfilter f l x : x ∈ List.filter f l ↔ x ∈ l ∧ f x = true.
Proof. rewrite !list_elem_of_In. apply filter_In. Qed.

Lemma NoDup_map_inj {B} (h : A → B) l x y :
  NoDup (h <$> l) → x ∈ l → y ∈ l → h x = h y → x = y.
Proof.
  induction l as [|z l IH]; [by rewrite elem_of_nil|]. csimpl. rewrite NoDup_cons, !elem_of_cons.
  intros [Hz Hl] [->|Hx] [->|Hy] E; auto.
  - destruct Hz. apply list_elem_of_fmap. eauto.
  - destruct Hz. apply list_elem_of_fmap. eauto.
Qed.

(** A list with no duplicates under [h], filtered by a test that pins [h], has
    at most one element. *)
Lemma filter_unique {B} (h : A → B) f l b :
  NoDup (h <$> l) → (∀ x, x ∈ l → f x = true → h x = b) → (length (List.filter f l) ≤ 1)%nat.
Proof.
  intros Hnd Hf. pose proof (NoDup_map_filter h f l Hnd) as Hn.
  assert (∀ x, x ∈ List.filter f l → h x = b) as Hb.
  { intros x [Hx Hfx]%elem_of_bfilter. auto. }
  revert Hn Hb. generalize (List.filter f l). intros [|x [|y l']] Hn Hb; simpl; try lia.
  exfalso. csimpl in *. apply NoDup_cons in Hn as [Hn _]. apply Hn.
  rewrite (Hb x), (Hb y) by set_solver. set_solver.
Qed.

Lemma filter_nil_iff f l : List.filter f l = [] ↔ ∀ x, x ∈ l → f x = false.
Proof.
  induction l as [|x l IH]; simpl; [set_solver|].
  destruct (f x) eqn:E.
  - split; [done|]. intros H. rewrite (H x) in E by set_solver. done.
  - rewrite IH. set_solver.
Qed.

Lemma filter_singleton {B} (h : A → B) f l x :
  NoDup (h <$> l) → x ∈ l → f x = true → (∀ y, y ∈ l → f y = true → h y = h x) →
  List.filter f l = [x].
Proof.
  intros Hnd Hx Hf Hu. pose proof (filter_unique h f l (h x) Hnd Hu) as Hlen.
  assert (x ∈ List.filter f l) as Hin by (by apply elem_of_bfilter).
  revert Hlen Hin. generalize (List.filter f l). intros [|y [|z k]]; simpl; try lia; set_solver.
Qed.

Lemma filter_all f l : (∀ x, x ∈ l → f x = true) → List.filter f l = l.
Proof.
  induction l as [|x l IH]; simpl; intros H; [done|].
  rewrite H by set_solver. f_equal. apply IH. set_solver.
Qed.

Lemma fmap_ext_elem {B} (g h : A → B) l : (∀ x, x ∈ l → g x = h x) → g <$> l = h <$> l.
Proof.
  induction l as [|x l IH]; intros E; csimpl; [done|]. rewrite E by set_solver.
  f_equal. apply IH. set_solver.
Qed.

Lemma NoDup_map_same {B} (p : A → B) (h : A → A) l :
  (∀ x, p (h x) = p x) → NoDup (p <$> l) → NoDup (p <$> (h <$> l)).
Proof.
  intros E Hl. rewrite <- list_fmap_compose. rewrite (fmap_ext_elem _ p); [done|]. intros x _. apply E.
Qed.

Lemma filter_filter f g l : List.filter f (List.filter g l) = List.filter (λ x, g x && f x) l.
Proof.
  induction l as [|x l IH]; simpl; [done|]. destruct (g x); simpl; [|done].
  destruct (f x); by rewrite IH.
Qed.

End filters.

#[export] Hint Resolve wrap32_range parse_uint_bounds : himmel.
