(* ===== verification/Proto.v ===== *)
(** * Wire types: [src/common/src/unix_proto.rs] and [src/common/src/unix_config.rs]

    The requests and responses exchanged by the PAM and NSS modules, the daemon
    and the task daemon, with the credential-free renderings written to the logs.
    Types that come from crates outside the repository ([uuid], [himmelblau],
    [libkrimes], [kanidm-hsm-crypto]) are fields of the class [Ext]. *)
From stdpp Require Import base strings list.
From Stdlib Require Import ZArith.
From S2P Require Import Prelude.

(** Types of other crates, with the two accessors of [uuid::Uuid] the code calls:
    [hyphenated().to_string()] and [as_bytes()]. *)
Class Ext : Type := {
  Uuid : Type;
  hyphenated : Uuid → string;
  as_bytes : Uuid → list Z;
  NoncompliantRule : Type;
  KerberosCredentials : Type;
  MFAAuthContinue : Type;
  UnixUserToken : Type;
  SealedData : Type;
  AuthOption : Type
}.

(** The documented facts on [Uuid] the development uses: the hyphenated form
    determines the identifier, and an identifier has 16 bytes. *)
Class ExtLaws (X : Ext) : Prop := {
  hyphenated_inj :: Inj (=) (=) (@hyphenated X);
  as_bytes_length : ∀ u : @Uuid X, length (as_bytes u) = 16%nat;
  as_bytes_u8 : ∀ u : @Uuid X, Forall in_u8 (as_bytes u)
}.

(** ** [unix_config.rs] *)

Inductive HomeAttr := HomeAttr_Uuid | HomeAttr_Spn | HomeAttr_Cn | HomeAttr_Name.
Inductive UidAttr := UidAttr_Name | UidAttr_Spn.
Inductive HsmType := HsmType_Soft | HsmType_TpmIfPossible | HsmType_Tpm.

Definition home_attr_to_string (a : HomeAttr) : string :=
  match a with
  | HomeAttr_Uuid => "UUID" | HomeAttr_Spn => "SPN" | HomeAttr_Cn => "CN" | HomeAttr_Name => "Name"
  end.

Definition uid_attr_to_string (a : UidAttr) : string :=
  match a with UidAttr_Name => "Name" | UidAttr_Spn => "SPN" end.

Definition hsm_type_to_string (h : HsmType) : string :=
  match h with
  | HsmType_Soft => "Soft with Tpm bound AuthValue, if possible"
  | HsmType_TpmIfPossible => "Tpm if possible"
  | HsmType_Tpm => "Tpm"
  end.

#[export] Instance HomeAttr_eq_dec : EqDecision HomeAttr.
Proof. solve_decision. Defined.
#[export] Instance UidAttr_eq_dec : EqDecision UidAttr.
Proof. solve_decision. Defined.

(** ** [unix_proto.rs] *)

Record NssUser := {
  nu_name : string; nu_uid : Z; nu_gid : Z;
  nu_gecos : string; nu_homedir : string; nu_shell : string
}.

Record NssGroup := { ng_name : string; ng_gid : Z; ng_members : list string }.

Inductive PamAuthResponse :=
| PamAuthResponse_Unknown
| PamAuthResponse_Success
| PamAuthResponse_Denied (msg : string)
| PamAuthResponse_Password
| PamAuthResponse_MFACode (msg : string)
| PamAuthResponse_HelloTOTP (msg : string)
| PamAuthResponse_MFAPoll (msg : string) (polling_interval : Z)
| PamAuthResponse_MFAPollWait
| PamAuthResponse_SetupPin (msg : string)
| PamAuthResponse_Pin
| PamAuthResponse_Fido (fido_challenge : string) (fido_allow_list : list string)
    (has_physical_security_key has_cross_device : bool)
| PamAuthResponse_ChangePassword (msg : string)
| PamAuthResponse_InitDenied (msg : string).

Inductive PamAuthRequest :=
| PamAuthRequest_Password (cred : string)
| PamAuthRequest_MFACode (cred : string)
| PamAuthRequest_HelloTOTP (cred : string)
| PamAuthRequest_MFAPoll (poll_attempt : Z)
| PamAuthRequest_SetupPin (pin : string)
| PamAuthRequest_Pin (cred : string)
| PamAuthRequest_Fido (assertion : string)
| PamAuthRequest_FidoUnavailable.

Inductive ClientRequest :=
| ClientRequest_NssAccounts
| ClientRequest_NssAccountByUid (id : Z)
| ClientRequest_NssAccountByName (id : string)
| ClientRequest_NssGroups
| ClientRequest_NssGroupByGid (id : Z)
| ClientRequest_NssGroupByName (id : string)
| ClientRequest_NssInitgroups (id : string)
| ClientRequest_PamAuthenticateInit (id service : string) (no_hello_pin force_reauth : bool)
| ClientRequest_PamAuthenticateStep (req : PamAuthRequest)
| ClientRequest_PamAccountAllowed (id : string)
| ClientRequest_PamAccountBeginSession (id : string)
| ClientRequest_PamChangeAuthToken (id access_token refresh_token new_pin : string)
| ClientRequest_PamTryUnseal (id cred : string)
| ClientRequest_InvalidateCache
| ClientRequest_ClearCache
| ClientRequest_OfflineBreakGlass (ttl : option Z)
| ClientRequest_Status
| ClientRequest_ComplianceCheck.

Definition bool_to_string (b : bool) : string := if b then "true" else "false".

(** [{:?}] of an [Option<u64>]. *)
Definition debug_option_u64 (o : option Z) : string :=
  match o with
  | Some n => "Some(" +:+ uint_to_string n +:+ ")"
  | None => "None"
  end.

(** [ClientRequest::as_safe_string] *)
Definition client_as_safe_string (r : ClientRequest) : string :=
  match r with
  | ClientRequest_NssAccounts => "NssAccounts"
  | ClientRequest_NssAccountByUid id => "NssAccountByUid(" +:+ uint_to_string id +:+ ")"
  | ClientRequest_NssAccountByName id => "NssAccountByName(" +:+ id +:+ ")"
  | ClientRequest_NssGroups => "NssGroups"
  | ClientRequest_NssGroupByGid id => "NssGroupByGid(" +:+ uint_to_string id +:+ ")"
  | ClientRequest_NssGroupByName id => "NssGroupByName(" +:+ id +:+ ")"
  | ClientRequest_NssInitgroups id => "NssInitgroups(" +:+ id +:+ ")"
  | ClientRequest_PamAuthenticateInit id service no_hello_pin force_reauth =>
      "PamAuthenticateInit(" +:+ id +:+ ", " +:+ service +:+ ", no_hello_pin: "
        +:+ bool_to_string no_hello_pin +:+ ", force_reauth: "
        +:+ bool_to_string force_reauth +:+ ")"
  | ClientRequest_PamAuthenticateStep _ => "PamAuthenticateStep"
  | ClientRequest_PamAccountAllowed id => "PamAccountAllowed(" +:+ id +:+ ")"
  | ClientRequest_PamAccountBeginSession _ => "PamAccountBeginSession"
  | ClientRequest_PamChangeAuthToken id _ _ _ => "PamChangeAuthToken(" +:+ id +:+ ", ...)"
  | ClientRequest_PamTryUnseal id _ => "PamTryUnseal(" +:+ id +:+ ")"
  | ClientRequest_InvalidateCache => "InvalidateCache"
  | ClientRequest_ClearCache => "ClearCache"
  | ClientRequest_OfflineBreakGlass ttl => "OfflineBreakGlass(" +:+ debug_option_u64 ttl +:+ ")"
  | ClientRequest_Status => "Status"
  | ClientRequest_ComplianceCheck => "ComplianceCheck"
  end.

Record HomeDirectoryInfo := {
  hd_uid : Z; hd_gid : Z; hd_name : string; hd_aliases : list string
}.

Section with_ext.
Context {X : Ext}.

Inductive ClientResponse :=
| ClientResponse_NssAccounts (l : list NssUser)
| ClientResponse_NssAccount (u : option NssUser)
| ClientResponse_NssGroups (l : list NssGroup)
| ClientResponse_NssGroup (g : option NssGroup)
| ClientResponse_NssInitgroups (l : option (list Z))
| ClientResponse_PamStatus (b : option bool)
| ClientResponse_PamAuthenticateStepResponse (r : PamAuthResponse)
| ClientResponse_Ok
| ClientResponse_Error
| ClientResponse_NotAuthenticated
| ClientResponse_NonCompliant (rules : list NoncompliantRule).

Definition client_response_from (par : PamAuthResponse) : ClientResponse :=
  ClientResponse_PamAuthenticateStepResponse par.

Inductive TaskRequest :=
| TaskRequest_HomeDirectory (info : HomeDirectoryInfo)
| TaskRequest_LocalGroups (account : string) (is_sudoer : bool)
| TaskRequest_LogonScript (script access_token : string)
| TaskRequest_KerberosConfig (top_level_names tenant_id : option string)
| TaskRequest_KerberosTGTs (uid gid : Z) (cloud ad : option KerberosCredentials)
| TaskRequest_LoadProfilePhoto (account access_token : string)
| TaskRequest_ApplyPolicy (intune_device_id : option string)
    (account graph_token intune_token iwservice_token : string)
| TaskRequest_SubordinateIds (username : string) (subid_start subid_count : Z).

Inductive TaskResponse :=
| TaskResponse_Success (status : Z)
| TaskResponse_Error (msg : string)
| TaskResponse_NonCompliant (rules : list NoncompliantRule).

(** [{:?}] of an [Option<String>], for strings whose [Debug] form is [debug_str]. *)
Definition debug_option_str (debug_str : string → string) (o : option string) : string :=
  match o with
  | Some s => "Some(" +:+ debug_str s +:+ ")"
  | None => "None"
  end.

(** [TaskRequest::as_safe_string] *)
Definition task_as_safe_string (debug_str : string → string) (r : TaskRequest) : string :=
  match r with
  | TaskRequest_HomeDirectory _ => "HomeDirectory(...)"
  | TaskRequest_LocalGroups _ _ => "LocalGroups(...)"
  | TaskRequest_LogonScript _ _ => "LogonScript(...)"
  | TaskRequest_KerberosConfig _ _ => "KerberosConfig(...)"
  | TaskRequest_KerberosTGTs uid gid _ _ =>
      "KerberosTGTs(" +:+ uint_to_string uid +:+ ", " +:+ uint_to_string gid +:+ ", ...)"
  | TaskRequest_LoadProfilePhoto _ _ => "LoadProfilePhoto(...)"
  | TaskRequest_ApplyPolicy intune_device_id _ _ _ _ =>
      "ApplyPolicy(" +:+ debug_option_str debug_str intune_device_id +:+ ", ...)"
  | TaskRequest_SubordinateIds username start count =>
      "SubordinateIds(" +:+ username +:+ ", " +:+ uint_to_string start +:+ ", "
        +:+ uint_to_string count +:+ ")"
  end.

End with_ext.

(** ** What a request carries in secret *)

(** The request with every credential, PIN, token and assertion replaced by [s]. *)
Definition redact_auth (s : string) (r : PamAuthRequest) : PamAuthRequest :=
  match r with
  | PamAuthRequest_Password _ => PamAuthRequest_Password s
  | PamAuthRequest_MFACode _ => PamAuthRequest_MFACode s
  | PamAuthRequest_HelloTOTP _ => PamAuthRequest_HelloTOTP s
  | PamAuthRequest_SetupPin _ => PamAuthRequest_SetupPin s
  | PamAuthRequest_Pin _ => PamAuthRequest_Pin s
  | PamAuthRequest_Fido _ => PamAuthRequest_Fido s
  | PamAuthRequest_MFAPoll n => PamAuthRequest_MFAPoll n
  | PamAuthRequest_FidoUnavailable => PamAuthRequest_FidoUnavailable
  end.

Definition redact_client (s : string) (r : ClientRequest) : ClientRequest :=
  match r with
  | ClientRequest_PamAuthenticateStep q => ClientRequest_PamAuthenticateStep (redact_auth s q)
  | ClientRequest_PamChangeAuthToken id _ _ _ => ClientRequest_PamChangeAuthToken id s s s
  | ClientRequest_PamTryUnseal id _ => ClientRequest_PamTryUnseal id s
  | r => r
  end.

Definition redact_task {X : Ext} (s : string) (r : TaskRequest) : TaskRequest :=
  match r with
  | TaskRequest_LogonScript script _ => TaskRequest_LogonScript script s
  | TaskRequest_KerberosTGTs uid gid _ _ => TaskRequest_KerberosTGTs uid gid None None
  | TaskRequest_LoadProfilePhoto a _ => TaskRequest_LoadProfilePhoto a s
  | TaskRequest_ApplyPolicy d a _ _ _ => TaskRequest_ApplyPolicy d a s s s
  | r => r
  end.

Lemma client_safe_redact s r : client_as_safe_string (redact_client s r) = client_as_safe_string r.
Proof. by destruct r. Qed.

Lemma task_safe_redact {X : Ext} d s r :
  task_as_safe_string d (redact_task s r) = task_as_safe_string d r.
Proof. by destruct r. Qed.
