(* ===== verification/Interface.v ===== *)
(** * Provider interface: [src/common/src/idprovider/interface.rs]

    The tokens held in the cache, the errors and states a provider reports, and
    the messages that drive an authentication session. *)
From stdpp Require Import base gmap strings list countable.
From Stdlib Require Import ZArith.
From S2P Require Import Prelude Proto.

Inductive IdpError :=
| IdpError_Transport
| IdpError_ProviderUnauthorised
| IdpError_BadRequest
| IdpError_NotFound (what where_ : string)
| IdpError_KeyStore
| IdpError_Tpm.

(** [SystemTime] is a signed number of nanoseconds since the Unix epoch. *)
Definition SystemTime : Type := Z.

Inductive CacheState :=
| CacheState_Online
| CacheState_Offline
| CacheState_OfflineNextCheck (time : SystemTime).

Inductive Id :=
| Id_Name (name : string)
| Id_Gid (gid : Z).

#[export] Instance Id_eq_dec : EqDecision Id.
Proof. solve_decision. Defined.

#[export] Program Instance Id_countable : Countable Id :=
  inj_countable'
    (λ i, match i with Id_Name s => inl s | Id_Gid g => inr g end)
    (λ s, match s with inl s => Id_Name s | inr g => Id_Gid g end) _.
Next Obligation. by intros []. Qed.

(** [impl Display for Id] ([resolver.rs]). *)
Definition id_to_string (i : Id) : string :=
  match i with Id_Name s => s | Id_Gid g => uint_to_string g end.

Section with_ext.
Context {X : Ext}.

Record GroupToken := {
  g_name : string; g_spn : string; g_uuid : Uuid; g_gidnumber : Z
}.

Record UserToken := {
  t_name : string; t_spn : string; t_uuid : Uuid;
  t_real_gidnumber : option Z;
  t_gidnumber : Z;
  t_displayname : string;
  t_shell : option string;
  t_groups : list GroupToken;
  t_tenant_id : option Uuid;
  t_valid : bool
}.

Inductive UserTokenState :=
| UserTokenState_UseCached
| UserTokenState_NotFound
| UserTokenState_Update (t : UserToken).

Inductive AuthCredHandler :=
| AuthCredHandler_MFA (flow : MFAAuthContinue) (password extra_data reauth_hello_pin : option string)
| AuthCredHandler_ReauthPassword (reauth_hello_pin : string)
| AuthCredHandler_SetupPin (token : option UnixUserToken)
| AuthCredHandler_HelloTOTP (cred : string) (pending_sealed_totp : option SealedData)
| AuthCredHandler_ChangePassword (old_cred : string)
| AuthCredHandler_PasswordFirst (auth_options : list AuthOption) (is_domain_joined : bool)
| AuthCredHandler_None.

(** [impl fmt::Debug for AuthCredHandler]: the variant's name and nothing it holds. *)
Definition cred_handler_debug (h : AuthCredHandler) : string :=
  match h with
  | AuthCredHandler_MFA _ _ _ _ => "MFA { .. }"
  | AuthCredHandler_ReauthPassword _ => "ReauthPassword { .. }"
  | AuthCredHandler_SetupPin _ => "SetupPin { .. }"
  | AuthCredHandler_HelloTOTP _ _ => "HelloTOTP { .. }"
  | AuthCredHandler_ChangePassword _ => "ChangePassword { .. }"
  | AuthCredHandler_PasswordFirst _ _ => "PasswordFirst { .. }"
  | AuthCredHandler_None => "None"
  end.

Inductive AuthRequest :=
| AuthRequest_Password
| AuthRequest_MFACode (msg : string)
| AuthRequest_HelloTOTP (msg : string)
| AuthRequest_MFAPoll (msg : string) (polling_interval : Z)
| AuthRequest_MFAPollWait
| AuthRequest_SetupPin (msg : string)
| AuthRequest_Pin
| AuthRequest_Fido (fido_challenge : string) (fido_allow_list : list string)
    (has_physical_security_key has_cross_device : bool)
| AuthRequest_ChangePassword (msg : string)
| AuthRequest_InitDenied (msg : string).

(** [impl Into<PamAuthResponse> for AuthRequest] *)
Definition auth_request_into (r : AuthRequest) : PamAuthResponse :=
  match r with
  | AuthRequest_Password => PamAuthResponse_Password
  | AuthRequest_MFACode msg => PamAuthResponse_MFACode msg
  | AuthRequest_HelloTOTP msg => PamAuthResponse_HelloTOTP msg
  | AuthRequest_MFAPoll msg i => PamAuthResponse_MFAPoll msg i
  | AuthRequest_MFAPollWait => PamAuthResponse_MFAPollWait
  | AuthRequest_SetupPin msg => PamAuthResponse_SetupPin msg
  | AuthRequest_Pin => PamAuthResponse_Pin
  | AuthRequest_Fido c l k x => PamAuthResponse_Fido c l k x
  | AuthRequest_ChangePassword msg => PamAuthResponse_ChangePassword msg
  | AuthRequest_InitDenied msg => PamAuthResponse_InitDenied msg
  end.

Inductive AuthResult :=
| AuthResult_Success (token : UserToken)
| AuthResult_Denied (msg : string)
| AuthResult_Next (req : AuthRequest).

Inductive AuthCacheAction :=
| AuthCacheAction_None
| AuthCacheAction_PasswordHashUpdate (cred : string).

End with_ext.

(** A provider's request never reads as an authentication verdict. *)
Lemma auth_request_into_no_verdict r :
  auth_request_into r ≠ PamAuthResponse_Success ∧
  auth_request_into r ≠ PamAuthResponse_Unknown ∧
  (∀ msg, auth_request_into r ≠ PamAuthResponse_Denied msg).
Proof. by destruct r. Qed.

(** Distinct requests stay distinct on the wire. *)
#[export] Instance auth_request_into_inj : Inj (=) (=) auth_request_into.
Proof. intros [] []; simpl; congruence. Qed.

#[export] Hint Resolve auth_request_into_no_verdict : himmel.
