(* ===== verification/Db.v ===== *)
(** * The offline cache: [src/common/src/db.rs]

    The SQLite tables behind the cache, and one definition per method of the
    traits [CacheTxn] and [KeyStoreTxn]. A method is a computation [DbM] over the
    tables of the open transaction: it reads a fault oracle, so that any statement
    may fail, and returns Rust's [Result]. The SQL text of each statement is
    translated to a function on the rows of its table; foreign-key clauses are
    parsed but not enforced, which is SQLite's default and the code never changes
    it. *)
From stdpp Require Import base gmap strings list fin_maps.
From Stdlib Require Import ZArith Lia Ascii.
From S2P Require Import Prelude Proto Interface.

Notation bytes := (list Byte.byte).

Inductive CacheError :=
| CacheError_Cryptography
| CacheError_SerdeJson
| CacheError_Parse
| CacheError_Sqlite
| CacheError_TooManyResults
| CacheError_TransactionInvalidState
| CacheError_Tpm.

(** ** Interfaces of the crates the cache calls *)

(** [serde_json::to_vec] and [from_slice] at the two token types. *)
Class Serde {X : Ext} : Type := {
  user_to_vec : UserToken → option bytes;
  user_from_slice : bytes → option UserToken;
  group_to_vec : GroupToken → option bytes;
  group_from_slice : bytes → option GroupToken
}.

(** A token that was serialised is read back unchanged. *)
Class SerdeLaws {X : Ext} (SD : Serde) : Prop := {
  user_roundtrip : ∀ t b, user_to_vec t = Some b → user_from_slice b = Some t;
  group_roundtrip : ∀ g b, group_to_vec g = Some b → group_from_slice b = Some g
}.

(** [kanidm_hsm_crypto] and [kanidm_lib_crypto]: the state of the TPM, the keys,
    and the password hashing the cache asks for. *)
Class Crypto : Type := {
  Hsm : Type;
  MachineKey : Type;
  HmacKey : Type;
  LoadableMachineKey : Type;
  LoadableHmacKey : Type;
  machine_key_to_vec : LoadableMachineKey → option bytes;
  machine_key_from_slice : bytes → option LoadableMachineKey;
  hmac_key_to_vec : LoadableHmacKey → option bytes;
  hmac_key_from_slice : bytes → option LoadableHmacKey;
  hmac_s256_create : MachineKey → Hsm → option LoadableHmacKey * Hsm;
  hmac_s256_load : MachineKey → LoadableHmacKey → Hsm → option HmacKey * Hsm;
  Password : Type;
  new_argon2id_hsm : string → HmacKey → Hsm → option Password * Hsm;
  password_to_vec : Password → option bytes;
  dbpassword_from_slice : bytes → option Password;
  verify_ctx : Password → string → HmacKey → Hsm → option bool * Hsm
}.

(** A hash that was stored never rejects the password it was made from. *)
Class CryptoLaws (C : Crypto) : Prop := {
  password_complete : ∀ cred k h p h' b,
    new_argon2id_hsm cred k h = (Some p, h') → password_to_vec p = Some b →
    ∃ p', dbpassword_from_slice b = Some p' ∧
          ∀ h'', (verify_ctx p' cred k h'').1 ≠ Some false
}.

(** ** Rows and tables *)

Record AccountRow := {
  a_uuid : string; a_name : string; a_spn : string; a_gidnumber : Z;
  a_password : option bytes; a_token : bytes; a_expiry : Z
}.

Record GroupRow := {
  gr_uuid : string; gr_name : string; gr_spn : string; gr_gidnumber : Z;
  gr_token : bytes; gr_expiry : Z
}.

Record MemberRow := { m_g_uuid : string; m_a_uuid : string }.

(** [db_version_t] is [None] before its [CREATE TABLE]; [created] says that the
    tables of migration 1 exist. *)
Record Tables := {
  db_version_t : option (gmap string Z);
  created : bool;
  account_t : list AccountRow;
  group_t : list GroupRow;
  memberof_t : list MemberRow;
  hsm_int_t : gmap string bytes;
  hsm_data_t : gmap string bytes
}.

Definition set_version_t v t := Build_Tables v (created t) (account_t t) (group_t t) (memberof_t t) (hsm_int_t t) (hsm_data_t t).
Definition set_created t := Build_Tables (db_version_t t) true (account_t t) (group_t t) (memberof_t t) (hsm_int_t t) (hsm_data_t t).
Definition set_account_t l t := Build_Tables (db_version_t t) (created t) l (group_t t) (memberof_t t) (hsm_int_t t) (hsm_data_t t).
Definition set_group_t l t := Build_Tables (db_version_t t) (created t) (account_t t) l (memberof_t t) (hsm_int_t t) (hsm_data_t t).
Definition set_memberof_t l t := Build_Tables (db_version_t t) (created t) (account_t t) (group_t t) l (hsm_int_t t) (hsm_data_t t).
Definition set_hsm_int_t m t := Build_Tables (db_version_t t) (created t) (account_t t) (group_t t) (memberof_t t) m (hsm_data_t t).
Definition set_hsm_data_t m t := Build_Tables (db_version_t t) (created t) (account_t t) (group_t t) (memberof_t t) (hsm_int_t t) m.

Definition empty_db : Tables := Build_Tables None false [] [] [] ∅ ∅.

(** ** The statement monad *)

(** A fault oracle says which of the statements, numbered in order, fail. *)
Definition Faults := nat → bool.
Definition DbM (A : Type) : Type := Faults → nat * Tables → result A CacheError * (nat * Tables).

#[export] Instance DbM_ret : MRet DbM := λ _ a _ s, (Ok a, s).
#[export] Instance DbM_bind : MBind DbM := λ _ _ k m f s,
  match m f s with
  | (Ok a, s') => k a f s'
  | (Err e, s') => (Err e, s')
  end.

Definition db_fail {A} (e : CacheError) : DbM A := λ _ s, (Err e, s).

Definition db_lift {A} (e : CacheError) (o : option A) : DbM A :=
  match o with Some a => mret a | None => db_fail e end.

(** Execute one statement: it fails on a fault, when a constraint refuses it
    ([None]), and, if it names a table of migration 1, when the tables are missing. *)
Definition exec_raw {A} (needs_tables : bool) (stmt : Tables → option (A * Tables)) : DbM A :=
  λ f '(n, t),
    if f n || (needs_tables && negb (created t)) then (Err CacheError_Sqlite, (S n, t))
    else match stmt t with
         | Some (a, t') => (Ok a, (S n, t'))
         | None => (Err CacheError_Sqlite, (S n, t))
         end.

Definition exec (stmt : Tables → Tables) : DbM unit :=
  exec_raw true (λ t, Some (tt, stmt t)).
Definition query {A} (sel : Tables → A) : DbM A := exec_raw true (λ t, Some (sel t, t)).

(** [iter.try_for_each(f)] *)
Fixpoint try_for_each {A} (f : A → DbM unit) (l : list A) : DbM unit :=
  match l with
  | [] => mret tt
  | x :: l' => f x ≫= λ _, try_for_each f l'
  end.

(** ** SQL expressions *)

(** [COLLATE NOCASE]: equality up to the case of ASCII letters. *)
Definition nocase_eqb (a b : string) : bool := String.eqb (to_lowercase a) (to_lowercase b).

(** The [LIKE] operator: a percent sign is any sequence, an underscore any one
    character, other characters match up to ASCII case. *)
Fixpoint sql_like (p : string) : string → bool :=
  match p with
  | EmptyString => λ s, String.eqb s EmptyString
  | String c p' =>
      if Ascii.eqb c "%"%char then
        fix any s := (sql_like p' s ||
          match s with EmptyString => false | String _ s' => any s' end)%bool
      else if Ascii.eqb c "_"%char then
        λ s, match s with EmptyString => false | String _ s' => sql_like p' s' end
      else
        λ s, match s with
             | EmptyString => false
             | String d s' => (Ascii.eqb (ascii_lower c) (ascii_lower d) && sql_like p' s')%bool
             end
  end.

Definition nodupb {B} `{EqDecision B} (l : list B) : bool := bool_decide (NoDup l).

(** The [UNIQUE] and [PRIMARY KEY] constraints of [account_t]. *)
Definition accounts_unique (l : list AccountRow) : bool :=
  (nodupb (a_uuid <$> l) && nodupb (a_name <$> l) && nodupb (a_spn <$> l)
    && nodupb (a_gidnumber <$> l))%bool.

Definition DBV_MAIN : string := "main".

(** ** Methods of [DbTxn] *)

Definition get_db_version (key : string) : DbM Z := λ f s,
  match exec_raw false
          (λ t, v ← db_version_t t; x ← v !! key; Some (x, t)) f s with
  | (Ok v, s') => (Ok v, s')
  | (Err _, s') => (Ok 0%Z, s')
  end.

Definition set_db_version (key : string) (v : Z) : DbM unit :=
  exec_raw false (λ t, m ← db_version_t t; Some (tt, set_version_t (Some (<[key:=v]> m)) t)).

Definition account_matches_name (id : string) (r : AccountRow) : bool :=
  (String.eqb (a_uuid r) id || nocase_eqb (a_name r) id || nocase_eqb (a_spn r) id)%bool.

Definition get_account_data_name (account_id : string) : DbM (list (bytes * Z)) :=
  query (λ t, (λ r, (a_token r, a_expiry r)) <$>
                List.filter (account_matches_name account_id) (account_t t)).

Definition get_account_data_gid (gid : Z) : DbM (list (bytes * Z)) :=
  query (λ t, (λ r, (a_token r, a_expiry r)) <$>
                List.filter (λ r, Z.eqb (a_gidnumber r) gid) (account_t t)).

Definition group_matches_name (id : string) (r : GroupRow) : bool :=
  (String.eqb (gr_uuid r) id || String.eqb (gr_name r) id || String.eqb (gr_spn r) id)%bool.

Definition get_group_data_name (grp_id : string) : DbM (list (bytes * Z)) :=
  query (λ t, (λ r, (gr_token r, gr_expiry r)) <$>
                List.filter (group_matches_name grp_id) (group_t t)).

Definition get_group_data_gid (gid : Z) : DbM (list (bytes * Z)) :=
  query (λ t, (λ r, (gr_token r, gr_expiry r)) <$>
                List.filter (λ r, Z.eqb (gr_gidnumber r) gid) (group_t t)).

(** ** [impl KeyStoreTxn for DbTxn] *)

Definition get_tagged_hsm_key {K} (from_slice : bytes → option K) (tag : string)
  : DbM (option K) :=
  data ← query (λ t, hsm_data_t t !! tag);
  match data with
  | Some d => mret (from_slice d)
  | None => mret None
  end.

Definition insert_tagged_hsm_key {K} (to_vec : K → option bytes) (tag : string) (key : K)
  : DbM unit :=
  data ← db_lift CacheError_SerdeJson (to_vec key);
  exec (λ t, set_hsm_data_t (<[tag:=data]> (hsm_data_t t)) t).

Definition delete_tagged_hsm_key (tag : string) : DbM unit :=
  exec (λ t, set_hsm_data_t (delete tag (hsm_data_t t)) t).

(** ** [impl CacheTxn for DbTxn] *)

Definition invalidate : DbM unit :=
  _ ← exec (λ t, set_group_t
        ((λ r, Build_GroupRow (gr_uuid r) (gr_name r) (gr_spn r) (gr_gidnumber r) (gr_token r) 0)
           <$> group_t t) t);
  exec (λ t, set_account_t
        ((λ r, Build_AccountRow (a_uuid r) (a_name r) (a_spn r) (a_gidnumber r) (a_password r)
                 (a_token r) 0) <$> account_t t) t).

Definition clear : DbM unit :=
  _ ← exec (set_memberof_t []);
  _ ← exec (set_group_t []);
  exec (set_account_t []).

Definition is_hello_key (key : string) : bool :=
  (sql_like "%/hello" key || sql_like "%/hello_decoupled" key || sql_like "%/hello_prt" key)%bool.

Definition clear_hello_keys : DbM unit :=
  exec (λ t, set_hsm_data_t
               (filter (λ kv, is_hello_key kv.1 = false) (hsm_data_t t)) t).

Definition clear_hsm : DbM unit :=
  _ ← clear;
  _ ← exec (set_hsm_int_t ∅);
  exec (set_hsm_data_t ∅).

Definition migrate : DbM unit :=
  (* PRAGMA journal_mode=WAL *)
  _ ← exec_raw false (λ t, Some (tt, t));
  _ ← exec_raw false (λ t, Some (tt,
        match db_version_t t with Some _ => t | None => set_version_t (Some ∅) t end));
  db_version ← get_db_version DBV_MAIN;
  _ ← (if Z.ltb db_version 1 then
         (* account_t, group_t, memberof_t, hsm_int_t, hsm_data_t: IF NOT EXISTS *)
         _ ← exec_raw false (λ t, Some (tt, t));
         _ ← exec_raw false (λ t, Some (tt, t));
         _ ← exec_raw false (λ t, Some (tt, t));
         _ ← exec_raw false (λ t, Some (tt, t));
         _ ← exec_raw false (λ t, Some (tt, set_created t));
         clear_hsm
       else mret tt);
  set_db_version DBV_MAIN 1.

Section with_deps.
Context {X : Ext} {SD : Serde} {C : Crypto}.

Definition get_hsm_machine_key : DbM (option LoadableMachineKey) :=
  data ← query (λ t, hsm_int_t t !! "mk");
  match data with
  | Some d => mret (machine_key_from_slice d)
  | None => mret None
  end.

Definition insert_hsm_machine_key (machine_key : LoadableMachineKey) : DbM unit :=
  data ← db_lift CacheError_SerdeJson (machine_key_to_vec machine_key);
  exec (λ t, set_hsm_int_t (<["mk":=data]> (hsm_int_t t)) t).

Definition get_hsm_hmac_key : DbM (option LoadableHmacKey) :=
  data ← query (λ t, hsm_int_t t !! "hmac");
  match data with
  | Some d => mret (hmac_key_from_slice d)
  | None => mret None
  end.

Definition insert_hsm_hmac_key (hmac_key : LoadableHmacKey) : DbM unit :=
  data ← db_lift CacheError_SerdeJson (hmac_key_to_vec hmac_key);
  exec (λ t, set_hsm_int_t (<["hmac":=data]> (hsm_int_t t)) t).

(** The tail of [get_account] and [get_group]: at most one row, its token read
    back, its expiry converted. *)
Definition one_token {A} (from_slice : bytes → option A) (data : list (bytes * Z))
  : DbM (option (A * Z)) :=
  if Nat.leb 2 (length data) then db_fail CacheError_TooManyResults
  else match data with
       | (token, expiry) :: _ =>
           match from_slice token with
           | Some t => e ← db_lift CacheError_Parse (u64_try_from_i64 expiry); mret (Some (t, e))
           | None => mret None
           end
       | [] => mret None
       end.

Definition get_account (account_id : Id) : DbM (option (UserToken * Z)) :=
  data ← match account_id with
         | Id_Name n => get_account_data_name n
         | Id_Gid g => get_account_data_gid g
         end;
  one_token user_from_slice data.

Definition get_accounts : DbM (list UserToken) :=
  data ← query (λ t, a_token <$> account_t t);
  mret (omap user_from_slice data).

(** The rows that [DELETE FROM account_t WHERE NOT uuid = :uuid AND (...)] keeps. *)
Definition purge_keeps (account_uuid : string) (account : UserToken) (r : AccountRow) : bool :=
  negb (negb (String.eqb (a_uuid r) account_uuid) &&
        (String.eqb (a_name r) (t_name account) || String.eqb (a_spn r) (t_spn account)
         || Z.eqb (a_gidnumber r) (t_gidnumber account))).

(** [UPDATE account_t SET ... WHERE uuid = :uuid]: the number of rows it changed. *)
Definition update_row (account_uuid spn : string) (account : UserToken) (data : bytes) (expire : Z)
  (r : AccountRow) : AccountRow :=
  if String.eqb (a_uuid r) account_uuid then
    Build_AccountRow (a_uuid r) (t_name account) spn (t_gidnumber account) (a_password r)
      data expire
  else r.

Definition count_uuid (account_uuid : string) (l : list AccountRow) : nat :=
  length (List.filter (λ r, String.eqb (a_uuid r) account_uuid) l).

Definition update_account_stmt (account_uuid : string) (account : UserToken) (data : bytes)
  (expire : Z) (t : Tables) : option (nat * Tables) :=
  let l := update_row account_uuid (t_spn account) account data expire <$> account_t t in
  if accounts_unique l then Some (count_uuid account_uuid (account_t t), set_account_t l t)
  else None.

(** [INSERT INTO account_t ... ON CONFLICT(uuid) DO UPDATE SET name=excluded.name,
    spn=excluded.name, ...] *)
Definition insert_account_stmt (account_uuid : string) (account : UserToken) (data : bytes)
  (expire : Z) (t : Tables) : option (unit * Tables) :=
  let l :=
    if Nat.eqb (count_uuid account_uuid (account_t t)) 0 then
      account_t t ++ [Build_AccountRow account_uuid (t_name account) (t_spn account)
                        (t_gidnumber account) None data expire]
    else update_row account_uuid (t_name account) account data expire <$> account_t t in
  if accounts_unique l then Some (tt, set_account_t l t) else None.

Definition update_account (account : UserToken) (expire : Z) : DbM unit :=
  data ← db_lift CacheError_SerdeJson (user_to_vec account);
  expire ← db_lift CacheError_Parse (i64_try_from_u64 expire);
  let account_uuid := hyphenated (t_uuid account) in
  _ ← exec (λ t, set_account_t (List.filter (purge_keeps account_uuid account) (account_t t)) t);
  updated ← exec_raw true (update_account_stmt account_uuid account data expire);
  _ ← (if Nat.eqb updated 0 then
         exec_raw true (insert_account_stmt account_uuid account data expire)
       else mret tt);
  _ ← exec (λ t, set_memberof_t
        (List.filter (λ m, negb (String.eqb (m_a_uuid m) account_uuid)) (memberof_t t)) t);
  try_for_each (λ g, exec (λ t, set_memberof_t
        (memberof_t t ++ [Build_MemberRow (hyphenated (g_uuid g)) account_uuid]) t))
    (t_groups account).

Definition delete_account (a_uuid_ : Uuid) : DbM unit :=
  let account_uuid := hyphenated a_uuid_ in
  _ ← exec (λ t, set_memberof_t
        (List.filter (λ m, negb (String.eqb (m_a_uuid m) account_uuid)) (memberof_t t)) t);
  exec (λ t, set_account_t
        (List.filter (λ r, negb (String.eqb (a_uuid r) account_uuid)) (account_t t)) t).

(** The TPM state is threaded through the two password methods. *)
Definition set_password (account_uuid : string) (data : bytes) (r : AccountRow) : AccountRow :=
  if String.eqb (a_uuid r) account_uuid then
    Build_AccountRow (a_uuid r) (a_name r) (a_spn r) (a_gidnumber r) (Some data)
      (a_token r) (a_expiry r)
  else r.

Definition DbHsmM (A : Type) : Type :=
  Hsm → Faults → nat * Tables → (result A CacheError * (nat * Tables)) * Hsm.

Definition update_account_password (a_uuid_ : Uuid) (cred : string) (hmac_key : HmacKey)
  : DbHsmM unit := λ tpm f s,
  let '(pw, tpm) := new_argon2id_hsm cred hmac_key tpm in
  ((pw ← db_lift CacheError_Cryptography pw;
    data ← db_lift CacheError_SerdeJson (password_to_vec pw);
    exec (λ t, set_account_t (set_password (hyphenated a_uuid_) data <$> account_t t) t)) f s,
   tpm).

(** [SELECT password FROM account_t WHERE uuid = :a_uuid AND password IS NOT NULL] *)
Definition select_passwords (account_uuid : string) (t : Tables) : list bytes :=
  omap a_password (List.filter (λ r, String.eqb (a_uuid r) account_uuid) (account_t t)).

Definition check_account_password (a_uuid_ : Uuid) (cred : string) (hmac_key : HmacKey)
  : DbHsmM bool := λ tpm f s,
  match query (select_passwords (hyphenated a_uuid_)) f s with
  | (Err e, s) => ((Err e, s), tpm)
  | (Ok data, s) =>
      if Nat.eqb (length data) 0 then ((Ok false, s), tpm)
      else if Nat.leb 2 (length data) then ((Err CacheError_TooManyResults, s), tpm)
      else
        match raw ← head data; dbpassword_from_slice raw with
        | None => ((Ok false, s), tpm)
        | Some pw =>
            let '(v, tpm) := verify_ctx pw cred hmac_key tpm in
            ((ok_or v CacheError_Cryptography, s), tpm)
        end
  end.

Definition get_group (grp_id : Id) : DbM (option (GroupToken * Z)) :=
  data ← match grp_id with
         | Id_Name n => get_group_data_name n
         | Id_Gid g => get_group_data_gid g
         end;
  one_token group_from_slice data.

(** [SELECT account_t.token FROM (account_t, memberof_t) WHERE account_t.uuid =
    memberof_t.a_uuid AND memberof_t.g_uuid = :g_uuid] *)
Definition select_members (group_uuid : string) (t : Tables) : list bytes :=
  r ← account_t t;
  m ← List.filter (λ m, String.eqb (a_uuid r) (m_a_uuid m) && String.eqb (m_g_uuid m) group_uuid)
        (memberof_t t);
  [a_token r].

Definition get_group_members (g_uuid_ : Uuid) : DbM (list UserToken) :=
  data ← query (select_members (hyphenated g_uuid_));
  db_lift CacheError_SerdeJson (mapM user_from_slice data).

Definition get_groups : DbM (list GroupToken) :=
  data ← query (λ t, gr_token <$> group_t t);
  mret (omap group_from_slice data).

(** The rows that [INSERT OR REPLACE INTO group_t] keeps: those that share no
    unique column with the new row. *)
Definition group_no_conflict (group_uuid : string) (grp : GroupToken) (r : GroupRow) : bool :=
  negb (String.eqb (gr_uuid r) group_uuid || String.eqb (gr_name r) (g_name grp)
        || String.eqb (gr_spn r) (g_spn grp) || Z.eqb (gr_gidnumber r) (g_gidnumber grp)).

Definition update_group (grp : GroupToken) (expire : Z) : DbM unit :=
  data ← db_lift CacheError_SerdeJson (group_to_vec grp);
  expire ← db_lift CacheError_Parse (i64_try_from_u64 expire);
  let group_uuid := hyphenated (g_uuid grp) in
  exec (λ t, set_group_t
        (List.filter (group_no_conflict group_uuid grp) (group_t t)
           ++ [Build_GroupRow group_uuid (g_name grp) (g_spn grp) (g_gidnumber grp) data expire]) t).

Definition delete_group (g_uuid_ : Uuid) : DbM unit :=
  let group_uuid := hyphenated g_uuid_ in
  _ ← exec (λ t, set_memberof_t
        (List.filter (λ m, negb (String.eqb (m_g_uuid m) group_uuid)) (memberof_t t)) t);
  exec (λ t, set_group_t
        (List.filter (λ r, negb (String.eqb (gr_uuid r) group_uuid)) (group_t t)) t).

End with_deps.

(** ** The connection and its transaction *)

(** [disk] is what is committed; [txn] is the working copy while a transaction
    is open. *)
Record Conn := { disk : Tables; txn : option Tables }.

(** The tables a statement acts on: outside a transaction it commits at once. *)
Definition conn_tables (c : Conn) : Tables := default (disk c) (txn c).
Definition conn_set (t : Tables) (c : Conn) : Conn :=
  match txn c with
  | Some _ => {| disk := disk c; txn := Some t |}
  | None => {| disk := t; txn := None |}
  end.

(** [BEGIN TRANSACTION] is refused while a transaction is open. *)
Definition conn_begin (c : Conn) : option Conn :=
  match txn c with
  | Some _ => None
  | None => Some {| disk := disk c; txn := Some (disk c) |}
  end.
Definition conn_commit (c : Conn) : Conn := {| disk := conn_tables c; txn := None |}.
Definition conn_rollback (c : Conn) : Conn := {| disk := disk c; txn := None |}.
