(* ===== verification/DbFacts.v ===== *)
(** * Correctness of the cache operations

    What each method of the cache does to the tables, that all of them preserve
    [db_wf], and the theorems a caller relies on: write/read round trips, the
    password column, group membership, name conflicts and case. *)
From stdpp Require Import base gmap strings list fin_maps.
From Stdlib Require Import ZArith Lia Ascii.
From S2P Require Import Prelude Proto Interface Db DbSpec.

Section facts.
Context {X : Ext} {SD : Serde} {C : Crypto}.

(** ** [update_account] as one function on the tables *)

Definition new_row (u : string) (acc : UserToken) (data : bytes) (e : Z) : AccountRow :=
  Build_AccountRow u (t_name acc) (t_spn acc) (t_gidnumber acc) None data e.

Definition upsert_rows (u : string) (acc : UserToken) (data : bytes) (e : Z)
  (l : list AccountRow) : list AccountRow :=
  let kept := List.filter (purge_keeps u acc) l in
  if Nat.eqb (count_uuid u kept) 0 then kept ++ [new_row u acc data e]
  else update_row u (t_spn acc) acc data e <$> kept.

Definition upsert_members (u : string) (acc : UserToken) (l : list MemberRow) : list MemberRow :=
  List.filter (λ m, negb (String.eqb (m_a_uuid m) u)) l
    ++ ((λ g, Build_MemberRow (hyphenated (g_uuid g)) u) <$> t_groups acc).

Definition upsert_account (acc : UserToken) (data : bytes) (e : Z) (t : Tables) : Tables :=
  let u := hyphenated (t_uuid acc) in
  set_memberof_t (upsert_members u acc (memberof_t t))
    (set_account_t (upsert_rows u acc data e (account_t t)) t).

(** The statements of [update_account] in order, without faults. *)
Definition update_account_tf (acc : UserToken) (expire : Z) : TF unit :=
  let u := hyphenated (t_uuid acc) in
  tf_bind (tf_lift (user_to_vec acc)) (λ data,
  tf_bind (tf_lift (i64_try_from_u64 expire)) (λ e,
  tf_bind (tf_update (λ t, set_account_t (List.filter (purge_keeps u acc) (account_t t)) t)) (λ _,
  tf_bind (update_account_stmt u acc data e) (λ updated,
  tf_bind (if Nat.eqb updated 0 then insert_account_stmt u acc data e else tf_ret tt) (λ _,
  tf_bind (tf_update (λ t, set_memberof_t
        (List.filter (λ m, negb (String.eqb (m_a_uuid m) u)) (memberof_t t)) t)) (λ _,
  tf_update (λ t, foldl (λ t g, set_memberof_t
        (memberof_t t ++ [Build_MemberRow (hyphenated (g_uuid g)) u]) t) t (t_groups acc)))))))).

Lemma update_account_refines acc expire :
  db_refines (update_account acc expire) (update_account_tf acc expire).
Proof.
  unfold update_account, update_account_tf. repeat refine_step.
  - apply refines_exec_raw. unfold update_account_stmt. intros t n t'. by case_match; intros [= <- <-].
  - case_match; [|apply refines_ret]. apply refines_exec_raw.
    unfold insert_account_stmt. intros t [] t'. by repeat case_match; intros [= <-].
  - apply refines_try_for_each. by intros g t.
Qed.

(** *** Facts on the purge and the row update *)

Lemma purge_keeps_spec u acc r :
  purge_keeps u acc r = true ↔
  a_uuid r = u ∨ (a_name r ≠ t_name acc ∧ a_spn r ≠ t_spn acc ∧ a_gidnumber r ≠ t_gidnumber acc).
Proof.
  unfold purge_keeps.
  destruct (String.eqb_spec (a_uuid r) u), (String.eqb_spec (a_name r) (t_name acc)),
    (String.eqb_spec (a_spn r) (t_spn acc)), (Z.eqb_spec (a_gidnumber r) (t_gidnumber acc));
    simpl; naive_solver.
Qed.

Lemma count_uuid_0 u l : count_uuid u l = 0%nat ↔ ∀ r, r ∈ l → a_uuid r ≠ u.
Proof.
  unfold count_uuid. rewrite length_zero_iff_nil, filter_nil_iff.
  by setoid_rewrite String.eqb_neq.
Qed.

Lemma update_row_other u spn acc data e r :
  a_uuid r ≠ u → update_row u spn acc data e r = r.
Proof. unfold update_row. intros. by destruct (String.eqb_spec (a_uuid r) u). Qed.

Lemma update_row_uuid u spn acc data e r : a_uuid (update_row u spn acc data e r) = a_uuid r.
Proof. unfold update_row. by case_match. Qed.

Lemma update_row_same u spn acc data e r : a_uuid r = u →
  update_row u spn acc data e r =
  Build_AccountRow u (t_name acc) spn (t_gidnumber acc) (a_password r) data e.
Proof. unfold update_row. intros <-. by rewrite String.eqb_refl. Qed.

(** After the purge, no other row shares a unique column with the account. *)
Lemma kept_distinct u acc l r :
  r ∈ List.filter (purge_keeps u acc) l → a_uuid r ≠ u →
  a_name r ≠ t_name acc ∧ a_spn r ≠ t_spn acc ∧ a_gidnumber r ≠ t_gidnumber acc.
Proof. intros [_ H%purge_keeps_spec]%elem_of_bfilter ?. naive_solver. Qed.

Lemma update_rows_wf u acc data e l :
  accounts_wf l →
  accounts_wf (update_row u (t_spn acc) acc data e <$> List.filter (purge_keeps u acc) l).
Proof.
  intros Hwf. apply (accounts_wf_filter (purge_keeps u acc)) in Hwf.
  pose proof (kept_distinct u acc l) as Hd. revert Hwf Hd.
  generalize (List.filter (purge_keeps u acc) l) as k. intros k [Hu Hn Hs Hg] Hd.
  assert (∀ x y : string, x = y ∨ x ≠ y) as Hdec by (intros x y; destruct (decide (x = y)); auto).
  split.
  - rewrite <- list_fmap_compose.
    rewrite (fmap_ext_elem _ a_uuid); [done|]. intros r _. apply update_row_uuid.
  - apply (NoDup_update a_uuid _ _ u (t_name acc)); auto using update_row_other.
    + intros r Hr Hne. by apply (Hd r Hr Hne).
    + intros r E. by rewrite update_row_same.
  - apply (NoDup_update a_uuid _ _ u (t_spn acc)); auto using update_row_other.
    + intros r Hr Hne. by apply (Hd r Hr Hne).
    + intros r E. by rewrite update_row_same.
  - apply (NoDup_update a_uuid _ _ u (t_gidnumber acc)); auto using update_row_other.
    + intros r Hr Hne. by apply (Hd r Hr Hne).
    + intros r E. by rewrite update_row_same.
Qed.

Lemma insert_rows_wf u acc data e l :
  accounts_wf l → count_uuid u (List.filter (purge_keeps u acc) l) = 0%nat →
  accounts_wf (List.filter (purge_keeps u acc) l ++ [new_row u acc data e]).
Proof.
  intros Hwf H0. pose proof (kept_distinct u acc l) as Hd.
  apply (accounts_wf_filter (purge_keeps u acc)) in Hwf.
  rewrite count_uuid_0 in H0. revert Hwf H0 Hd.
  generalize (List.filter (purge_keeps u acc) l) as k. intros k [] H0 Hd.
  split; apply NoDup_map_snoc; auto; intros r Hr; simpl; auto;
    destruct (Hd r Hr (H0 r Hr)) as (?&?&?); done.
Qed.

Lemma upsert_rows_wf u acc data e l : accounts_wf l → accounts_wf (upsert_rows u acc data e l).
Proof.
  intros Hwf. unfold upsert_rows. destruct (Nat.eqb_spec (count_uuid u (List.filter (purge_keeps u acc) l)) 0).
  - by apply insert_rows_wf.
  - by apply update_rows_wf.
Qed.

Lemma foldl_members u (gs : list GroupToken) t :
  foldl (λ t g, set_memberof_t (memberof_t t ++ [Build_MemberRow (hyphenated (g_uuid g)) u]) t) t gs
  = set_memberof_t (memberof_t t ++ ((λ g, Build_MemberRow (hyphenated (g_uuid g)) u) <$> gs)) t.
Proof.
  revert t. induction gs as [|g gs IH]; intros t; csimpl.
  - rewrite app_nil_r. by destruct t.
  - rewrite IH. unfold set_memberof_t. simpl. by rewrite <- app_assoc.
Qed.

(** On tables with unique columns every statement of [update_account] is accepted,
    and together they replace the account and its memberships. *)
Lemma update_account_tf_eq acc expire data e t :
  accounts_wf (account_t t) → user_to_vec acc = Some data → i64_try_from_u64 expire = Some e →
  update_account_tf acc expire t = Some (tt, upsert_account acc data e t).
Proof.
  intros Hwf Hd He. unfold update_account_tf, tf_bind, tf_lift, tf_update. rewrite Hd, He.
  unfold update_account_stmt. cbn [account_t set_account_t].
  set (u := hyphenated (t_uuid acc)). set (k := List.filter (purge_keeps u acc) (account_t t)).
  rewrite (proj2 (accounts_unique_iff _)) by (by apply update_rows_wf).
  unfold upsert_account, upsert_rows. fold u k.
  destruct (Nat.eqb_spec (count_uuid u k) 0) as [H0|H0].
  - unfold insert_account_stmt. cbn [account_t set_account_t].
    assert (update_row u (t_spn acc) acc data e <$> k = k) as ->.
    { rewrite <- (list_fmap_id k) at 2. apply fmap_ext_elem. intros r Hr.
      by apply update_row_other, (proj1 (count_uuid_0 u k)). }
    rewrite H0, Nat.eqb_refl.
    rewrite (proj2 (accounts_unique_iff _)) by (by apply insert_rows_wf).
    cbv beta iota. rewrite foldl_members. reflexivity.
  - cbv beta iota delta [tf_ret]. rewrite foldl_members. reflexivity.
Qed.

(** *** The rows after an [update_account] *)

(** The stored password of the account, if there is one. *)
Definition old_password (u : string) (l : list AccountRow) : option bytes :=
  r ← head (List.filter (λ r, String.eqb (a_uuid r) u) l); a_password r.

Definition account_row (u : string) (acc : UserToken) (pw : option bytes) (data : bytes) (e : Z)
  : AccountRow :=
  Build_AccountRow u (t_name acc) (t_spn acc) (t_gidnumber acc) pw data e.

Lemma old_password_row u l r :
  NoDup (a_uuid <$> l) → r ∈ l → a_uuid r = u → old_password u l = a_password r.
Proof.
  intros Hnd Hr Hu. unfold old_password.
  destruct (List.filter _ l) as [|r' k] eqn:E; simpl.
  - rewrite filter_nil_iff in E. specialize (E r Hr). apply String.eqb_neq in E. done.
  - f_equal. assert (r' ∈ List.filter (λ r, String.eqb (a_uuid r) u) l) as Hr' by (rewrite E; set_solver).
    apply elem_of_bfilter in Hr' as [? ?%String.eqb_eq].
    eapply NoDup_map_inj; eauto. congruence.
Qed.

Lemma old_password_None u l : (∀ r, r ∈ l → a_uuid r ≠ u) → old_password u l = None.
Proof.
  intros H. unfold old_password. rewrite (proj2 (filter_nil_iff _ _)); [done|].
  intros r Hr. apply String.eqb_neq. auto.
Qed.

Lemma elem_of_upsert_rows u acc data e l r :
  accounts_wf l →
  r ∈ upsert_rows u acc data e l ↔
  (a_uuid r ≠ u ∧ r ∈ List.filter (purge_keeps u acc) l) ∨
  r = account_row u acc (old_password u l) data e.
Proof.
  intros [Hnd _ _ _]. unfold upsert_rows. set (k := List.filter _ l).
  assert (∀ r, r ∈ l → a_uuid r = u → r ∈ k) as Hk.
  { intros r' Hr' Hu. apply elem_of_bfilter. split; [done|]. apply purge_keeps_spec. auto. }
  assert (∀ r, r ∈ k → r ∈ l) as Hkl by (by intros r' [? _]%elem_of_bfilter).
  destruct (Nat.eqb_spec (count_uuid u k) 0) as [H0|H0].
  - rewrite count_uuid_0 in H0. rewrite old_password_None by naive_solver.
    rewrite elem_of_app, list_elem_of_singleton. naive_solver.
  - rewrite list_elem_of_fmap. split.
    + intros (r0 & -> & Hr0). destruct (decide (a_uuid r0 = u)) as [Hu|Hu].
      * right. rewrite update_row_same by done. unfold account_row. f_equal.
        symmetry. by apply old_password_row; auto.
      * left. by rewrite update_row_other.
    + intros [[Hu Hr]| ->]; [exists r; by rewrite update_row_other|].
      destruct (List.filter (λ r, String.eqb (a_uuid r) u) k) as [|r0 k'] eqn:E;
        [by unfold count_uuid in H0; rewrite E in H0|].
      assert (r0 ∈ List.filter (λ r, String.eqb (a_uuid r) u) k) as Hr0 by (rewrite E; set_solver).
      apply elem_of_bfilter in Hr0 as [Hr0 Hu%String.eqb_eq].
      exists r0. rewrite update_row_same by done. unfold account_row.
      by rewrite (old_password_row u l r0) by auto.
Qed.

(** ** Preservation of the invariant *)

Context {SL : SerdeLaws SD}.

Lemma i64_expiry expire e : 0 ≤ expire → i64_try_from_u64 expire = Some e → 0 ≤ e ≤ i64_max.
Proof. intros ? [? ->]%i64_try_from_u64_Some. lia. Qed.

Lemma account_row_ok_new acc pw data e :
  user_to_vec acc = Some data → 0 ≤ e ≤ i64_max →
  account_row_ok (account_row (hyphenated (t_uuid acc)) acc pw data e).
Proof. intros Hd He. exists acc. by apply user_roundtrip in Hd. Qed.

Lemma upsert_account_wf acc data e t :
  user_to_vec acc = Some data → 0 ≤ e ≤ i64_max → db_wf t → db_wf (upsert_account acc data e t).
Proof.
  intros Hd He Hwf. pose proof (wf_accounts _ Hwf) as Ha. set (u := hyphenated (t_uuid acc)).
  split; simpl; fold u.
  - by apply upsert_rows_wf.
  - apply Hwf.
  - intros r [[_ [Hr _]%elem_of_bfilter]| ->]%elem_of_upsert_rows; [|by apply account_row_ok_new|done].
    by apply (wf_account_rows _ Hwf).
  - apply Hwf.
  - intros r tok m Hr Ht Hm Hu. apply elem_of_upsert_rows in Hr; [|done].
    apply elem_of_app in Hm.
    destruct Hr as [[Hne [Hr _]%elem_of_bfilter]| ->].
    + destruct Hm as [[Hm _]%elem_of_bfilter|Hm]; [by eapply (wf_members _ Hwf)|].
      apply list_elem_of_fmap in Hm as (g & -> & _). simpl in Hu. congruence.
    + simpl in *. rewrite (user_roundtrip _ _ Hd) in Ht. injection Ht as <-.
      destruct Hm as [[_ Hm]%elem_of_bfilter|Hm].
      { by rewrite Hu, String.eqb_refl in Hm. }
      apply list_elem_of_fmap in Hm as (g & -> & Hg). simpl.
      apply list_elem_of_fmap. eauto.
Qed.

(** *** Groups *)

Definition group_row (g : GroupToken) (data : bytes) (e : Z) : GroupRow :=
  Build_GroupRow (hyphenated (g_uuid g)) (g_name g) (g_spn g) (g_gidnumber g) data e.

Definition upsert_group (g : GroupToken) (data : bytes) (e : Z) (t : Tables) : Tables :=
  set_group_t (List.filter (group_no_conflict (hyphenated (g_uuid g)) g) (group_t t)
                 ++ [group_row g data e]) t.

Definition update_group_tf (g : GroupToken) (expire : Z) : TF unit :=
  tf_bind (tf_lift (group_to_vec g)) (λ data,
  tf_bind (tf_lift (i64_try_from_u64 expire)) (λ e, tf_update (upsert_group g data e))).

Lemma update_group_refines g expire : db_refines (update_group g expire) (update_group_tf g expire).
Proof. unfold update_group, update_group_tf. repeat refine_step. Qed.

Lemma group_no_conflict_spec u g r :
  group_no_conflict u g r = true ↔
  gr_uuid r ≠ u ∧ gr_name r ≠ g_name g ∧ gr_spn r ≠ g_spn g ∧ gr_gidnumber r ≠ g_gidnumber g.
Proof.
  unfold group_no_conflict. rewrite negb_true_iff, !orb_false_iff, !String.eqb_neq, Z.eqb_neq.
  naive_solver.
Qed.

Lemma upsert_group_wf g data e t :
  group_to_vec g = Some data → 0 ≤ e ≤ i64_max → db_wf t → db_wf (upsert_group g data e t).
Proof.
  intros Hd He [Ha Hg Har Hgr Hm].
  pose proof (groups_wf_filter (group_no_conflict (hyphenated (g_uuid g)) g) _ Hg) as [].
  split; simpl; auto.
  - split; apply NoDup_map_snoc; auto; intros r [_ Hr%group_no_conflict_spec]%elem_of_bfilter;
      simpl; naive_solver.
  - intros r [[Hr _]%elem_of_bfilter| ->%list_elem_of_singleton]%elem_of_app; [auto|].
    exists g. by apply group_roundtrip in Hd.
Qed.

(** *** Statements that rewrite one column *)

(** A map that keeps the key columns and the token keeps [db_wf]. *)
Lemma map_accounts_wf (h : AccountRow → AccountRow) t :
  (∀ r, a_uuid (h r) = a_uuid r ∧ a_name (h r) = a_name r ∧ a_spn (h r) = a_spn r ∧
        a_gidnumber (h r) = a_gidnumber r ∧ a_token (h r) = a_token r ∧
        (0 ≤ a_expiry r ≤ i64_max → 0 ≤ a_expiry (h r) ≤ i64_max)) →
  db_wf t → db_wf (set_account_t (h <$> account_t t) t).
Proof.
  intros Hh [[] Hg Har Hgr Hm].
  split; simpl; auto.
  - split; apply NoDup_map_same; auto; intros r; apply Hh.
  - intros r (r0 & -> & Hr)%list_elem_of_fmap. destruct (Har r0 Hr) as (tok & ? & ? & ? & ? & ? & ?).
    exists tok. destruct (Hh r0) as (-> & -> & -> & -> & -> & He). auto 10.
  - intros r tok m (r0 & -> & Hr)%list_elem_of_fmap. destruct (Hh r0) as (-> & _ & _ & _ & -> & _).
    by apply Hm.
Qed.

Lemma map_groups_wf (h : GroupRow → GroupRow) t :
  (∀ r, gr_uuid (h r) = gr_uuid r ∧ gr_name (h r) = gr_name r ∧ gr_spn (h r) = gr_spn r ∧
        gr_gidnumber (h r) = gr_gidnumber r ∧ gr_token (h r) = gr_token r ∧
        (0 ≤ gr_expiry r ≤ i64_max → 0 ≤ gr_expiry (h r) ≤ i64_max)) →
  db_wf t → db_wf (set_group_t (h <$> group_t t) t).
Proof.
  intros Hh [Ha [] Har Hgr Hm].
  split; simpl; auto.
  - split; apply NoDup_map_same; auto; intros r; apply Hh.
  - intros r (r0 & -> & Hr)%list_elem_of_fmap. destruct (Hgr r0 Hr) as (g & ? & ? & ? & ? & ? & ?).
    exists g. destruct (Hh r0) as (-> & -> & -> & -> & -> & He). auto 10.
Qed.

Lemma set_password_fields u data r :
  a_uuid (set_password u data r) = a_uuid r ∧ a_name (set_password u data r) = a_name r ∧
  a_spn (set_password u data r) = a_spn r ∧ a_gidnumber (set_password u data r) = a_gidnumber r ∧
  a_token (set_password u data r) = a_token r ∧ a_expiry (set_password u data r) = a_expiry r.
Proof. unfold set_password. by case_match. Qed.

(** *** Every mutating method of the cache *)

Inductive db_op :=
| OpMigrate
| OpInvalidate
| OpClear
| OpClearHelloKeys
| OpClearHsm
| OpInsertMachineKey (k : LoadableMachineKey)
| OpInsertHmacKey (k : LoadableHmacKey)
| OpUpdateAccount (acc : UserToken) (expire : Z)
| OpDeleteAccount (u : Uuid)
| OpUpdatePassword (u : Uuid) (cred : string) (k : HmacKey) (h : Hsm)
| OpUpdateGroup (g : GroupToken) (expire : Z)
| OpDeleteGroup (u : Uuid)
| OpInsertTagged (tag : string) (data : bytes)
| OpDeleteTagged (tag : string).

Definition run_op (op : db_op) : DbM unit :=
  match op with
  | OpMigrate => migrate
  | OpInvalidate => invalidate
  | OpClear => clear
  | OpClearHelloKeys => clear_hello_keys
  | OpClearHsm => clear_hsm
  | OpInsertMachineKey k => insert_hsm_machine_key k
  | OpInsertHmacKey k => insert_hsm_hmac_key k
  | OpUpdateAccount acc e => update_account acc e
  | OpDeleteAccount u => delete_account u
  | OpUpdatePassword u cred k h => λ f s, (update_account_password u cred k h f s).1
  | OpUpdateGroup g e => update_group g e
  | OpDeleteGroup u => delete_group u
  | OpInsertTagged tag data => insert_tagged_hsm_key Some tag data
  | OpDeleteTagged tag => delete_tagged_hsm_key tag
  end.

(** The expiry arguments are [u64]. *)
Definition op_typed (op : db_op) : Prop :=
  match op with
  | OpUpdateAccount _ e | OpUpdateGroup _ e => in_u64 e
  | _ => True
  end.

Ltac wf_other := match goal with H : db_wf ?t |- db_wf _ => by apply (db_wf_same t) end.

Lemma wf_no_members t : db_wf t → db_wf (set_memberof_t [] t).
Proof. intros []. split; simpl; auto. intros r tok m _ _ Hm. set_solver. Qed.
Lemma wf_no_groups t : db_wf t → db_wf (set_group_t [] t).
Proof. intros []. split; simpl; auto; [split; apply NoDup_nil_2|set_solver]. Qed.
Lemma wf_no_accounts t : db_wf t → db_wf (set_account_t [] t).
Proof.
  intros []. split; simpl; auto; [split; apply NoDup_nil_2|set_solver|].
  intros r tok m Hr. set_solver.
Qed.
Lemma wf_filter_members g t : db_wf t → db_wf (set_memberof_t (List.filter g (memberof_t t)) t).
Proof.
  intros [?? Har Hgr Hmm]. split; simpl; auto. intros r tok m Hr Ht [Hm _]%elem_of_bfilter. by apply Hmm.
Qed.
Lemma wf_filter_accounts g t : db_wf t → db_wf (set_account_t (List.filter g (account_t t)) t).
Proof.
  intros [?? Har Hgr Hmm]. split; simpl; auto with himmel. intros r [Hr _]%elem_of_bfilter. by apply Har.
Qed.
Lemma wf_filter_groups g t : db_wf t → db_wf (set_group_t (List.filter g (group_t t)) t).
Proof.
  intros [?? Har Hgr Hmm]. split; simpl; auto with himmel. intros r [Hr _]%elem_of_bfilter. by apply Hgr.
Qed.

#[local] Hint Resolve wf_no_members wf_no_groups wf_no_accounts wf_filter_members
  wf_filter_accounts wf_filter_groups : himmel.

Lemma clear_hsm_preserves : db_preserves db_wf clear_hsm.
Proof. unfold clear_hsm, clear. repeat preserve_step; auto with himmel; wf_other. Qed.

Lemma migrate_preserves : db_preserves db_wf migrate.
Proof.
  unfold migrate. apply preserves_bind; [by apply preserves_exec_raw; intros t a t' ? [= <- <-]|intros _].
  apply preserves_bind; [|intros _].
  { apply preserves_exec_raw. intros t a t' H [= <- <-]. case_match; [done|wf_other]. }
  apply preserves_bind; [apply preserves_get_version|intros v].
  apply preserves_bind; [|intros _].
  - case_match; [|apply preserves_ret].
    repeat (apply preserves_bind; [|intros _]); idtac;
      apply preserves_exec_raw; intros t a t' Hw [= <- <-]; first [done|wf_other|auto with himmel].
  - apply preserves_exec_raw. intros t a t' H. destruct (db_version_t t); [|done].
    intros [= <- <-]. wf_other.
Qed.

Lemma invalidate_preserves : db_preserves db_wf invalidate.
Proof.
  unfold invalidate. repeat preserve_step.
  - apply map_groups_wf; [|done]. intros r. simpl. unfold i64_max. split_and!; lia || done.
  - apply map_accounts_wf; [|done]. intros r. simpl. unfold i64_max. split_and!; lia || done.
Qed.

Lemma update_password_preserves u cred k h :
  db_preserves db_wf (λ f s, (update_account_password u cred k h f s).1).
Proof.
  unfold update_account_password. destruct (new_argon2id_hsm cred k h) as [pw h']. simpl.
  change (db_preserves db_wf (pw ← db_lift CacheError_Cryptography pw;
    data ← db_lift CacheError_SerdeJson (password_to_vec pw);
    exec (λ t, set_account_t (set_password (hyphenated u) data <$> account_t t) t))).
  repeat preserve_step. apply map_accounts_wf; [|done]. intros r.
  destruct (set_password_fields (hyphenated u) a0 r) as (?&?&?&?&?& ->). auto 10.
Qed.

Lemma update_account_preserves acc e :
  in_u64 e → db_preserves db_wf (update_account acc e).
Proof.
  intros He. eapply preserves_refines; [apply update_account_refines|].
  intros t [] t' Hwf HF. destruct (user_to_vec acc) as [data|] eqn:Hd;
    [|by unfold update_account_tf, tf_bind, tf_lift in HF; rewrite Hd in HF].
  destruct (i64_try_from_u64 e) as [e'|] eqn:Ee;
    [|by unfold update_account_tf, tf_bind, tf_lift in HF; rewrite Hd, Ee in HF].
  rewrite (update_account_tf_eq _ _ data e') in HF by (done || apply Hwf).
  injection HF as <-. apply upsert_account_wf; [done| |done].
  eapply i64_expiry; [|done]. apply He.
Qed.

Lemma update_group_preserves g e : in_u64 e → db_preserves db_wf (update_group g e).
Proof.
  intros He. eapply preserves_refines; [apply update_group_refines|].
  intros t [] t' Hwf. unfold update_group_tf, tf_bind, tf_lift, tf_update.
  destruct (group_to_vec g) eqn:Hd; [|done]. destruct (i64_try_from_u64 e) eqn:Ee; [|done].
  intros [= <-]. apply upsert_group_wf; [done| |done]. eapply i64_expiry; [|done]. apply He.
Qed.

(** Every method, whatever statements fail, keeps the tables well formed when it
    reports success. *)
Lemma run_op_preserves op : op_typed op → db_preserves db_wf (run_op op).
Proof.
  destruct op; simpl; intros Ht;
    auto using migrate_preserves, invalidate_preserves, clear_hsm_preserves,
      update_password_preserves, update_account_preserves, update_group_preserves.
  all: unfold clear, clear_hello_keys, insert_hsm_machine_key, insert_hsm_hmac_key,
    delete_account, delete_group, insert_tagged_hsm_key, delete_tagged_hsm_key;
    repeat preserve_step; auto with himmel; wf_other.
Qed.

(** Databases reachable by successful cache operations. *)
Inductive db_reachable : Tables → Prop :=
| reach_init : db_reachable empty_db
| reach_step t op f n n' t' :
    db_reachable t → op_typed op → run_op op f (n, t) = (Ok tt, (n', t')) → db_reachable t'.

(** ** Reading accounts and groups back *)

Definition account_matches (id : Id) (r : AccountRow) : bool :=
  match id with
  | Id_Name n => account_matches_name n r
  | Id_Gid g => Z.eqb (a_gidnumber r) g
  end.

Definition group_matches (id : Id) (r : GroupRow) : bool :=
  match id with
  | Id_Name n => group_matches_name n r
  | Id_Gid g => Z.eqb (gr_gidnumber r) g
  end.

Lemma query_run {A} (sel : Tables → A) f n t :
  f n = false → created t = true → query sel f (n, t) = (Ok (sel t), (n + 1, t))%nat.
Proof. intros Hf Hc. unfold query, exec_raw. rewrite Hf, Hc, Nat.add_1_r. done. Qed.

Lemma query_cases {A} (sel : Tables → A) f n t :
  query sel f (n, t) = (Err CacheError_Sqlite, (S n, t)) ∨
  query sel f (n, t) = (Ok (sel t), (S n, t)).
Proof. unfold query, exec_raw. case_match; auto. Qed.

Lemma get_account_run id f n t :
  f n = false → created t = true →
  get_account id f (n, t) =
  one_token user_from_slice ((λ r, (a_token r, a_expiry r)) <$>
    List.filter (account_matches id) (account_t t)) f (n + 1, t)%nat.
Proof.
  intros Hf Hc. unfold get_account, mbind, DbM_bind, account_matches.
  destruct id; unfold get_account_data_name, get_account_data_gid; by rewrite query_run.
Qed.

Lemma get_group_run id f n t :
  f n = false → created t = true →
  get_group id f (n, t) =
  one_token group_from_slice ((λ r, (gr_token r, gr_expiry r)) <$>
    List.filter (group_matches id) (group_t t)) f (n + 1, t)%nat.
Proof.
  intros Hf Hc. unfold get_group, mbind, DbM_bind, group_matches.
  destruct id; unfold get_group_data_name, get_group_data_gid; by rewrite query_run.
Qed.

(** Two matching rows are refused. *)
Lemma one_token_many {A} (from : bytes → option A) data f s :
  (2 ≤ length data)%nat → one_token from data f s = (Err CacheError_TooManyResults, s).
Proof. intros H. unfold one_token. apply Nat.leb_le in H. by rewrite H. Qed.

(** One matching row of a well-formed table yields its token and expiry. *)
Lemma get_account_one id f n t r tok :
  f n = false → created t = true → List.filter (account_matches id) (account_t t) = [r] →
  user_from_slice (a_token r) = Some tok → 0 ≤ a_expiry r →
  get_account id f (n, t) = (Ok (Some (tok, a_expiry r)), (n + 1, t))%nat.
Proof.
  intros Hf Hc Hr Ht He. rewrite get_account_run, Hr by done. simpl. unfold one_token. simpl.
  rewrite Ht. unfold u64_try_from_i64. destruct (Z.leb_spec 0 (a_expiry r)); [done|lia].
Qed.

Lemma get_group_one id f n t r g :
  f n = false → created t = true → List.filter (group_matches id) (group_t t) = [r] →
  group_from_slice (gr_token r) = Some g → 0 ≤ gr_expiry r →
  get_group id f (n, t) = (Ok (Some (g, gr_expiry r)), (n + 1, t))%nat.
Proof.
  intros Hf Hc Hr Ht He. rewrite get_group_run, Hr by done. simpl. unfold one_token. simpl.
  rewrite Ht. unfold u64_try_from_i64. destruct (Z.leb_spec 0 (gr_expiry r)); [done|lia].
Qed.

(** A token that is read back comes from a matching row, with that row's expiry. *)
Lemma one_token_some {A} (from : bytes → option A) data f s a e s' :
  one_token from data f s = (Ok (Some (a, e)), s') →
  ∃ b, (b, e) ∈ data ∧ from b = Some a ∧ 0 ≤ e ∧ s' = s.
Proof.
  unfold one_token. case_match; [done|]. destruct data as [|[b z] l]; [done|].
  destruct (from b) eqn:Eb; [|done]. unfold db_lift.
  destruct (u64_try_from_i64 z) eqn:Ez; [|done]. intros [= <- <- <-].
  apply u64_try_from_i64_Some in Ez as [? ->]. exists b. split_and!; [set_solver|done..].
Qed.

Lemma one_token_state {A} (from : bytes → option A) data f s r s' :
  one_token from data f s = (r, s') → s' = s.
Proof.
  unfold one_token. case_match; [by intros [= <- <-]|].
  destruct data as [|[b z] l]; [by intros [= <- <-]|].
  destruct (from b); [|by intros [= <- <-]].
  unfold db_lift. destruct (u64_try_from_i64 z); by intros [= <- <-].
Qed.

Lemma get_account_some id f n t tok e n' t' :
  get_account id f (n, t) = (Ok (Some (tok, e)), (n', t')) →
  f n = false ∧ t' = t ∧ n' = S n ∧
  ∃ r, r ∈ account_t t ∧ account_matches id r = true ∧ user_from_slice (a_token r) = Some tok ∧
       a_expiry r = e ∧ 0 ≤ e.
Proof.
  intros H. assert (f n = false ∧ created t = true) as [Hf Hc].
  { revert H. unfold get_account, mbind, DbM_bind.
    destruct id; unfold get_account_data_name, get_account_data_gid, query, exec_raw;
      destruct (f n), (created t); done. }
  rewrite get_account_run in H by done.
  apply one_token_some in H as (b & Hb & Ht & He & [= -> ->]).
  apply list_elem_of_fmap in Hb as (r & [= -> ->] & [Hr Hm]%elem_of_bfilter).
  rewrite Nat.add_1_r. eauto 10.
Qed.

Lemma get_group_some id f n t g e n' t' :
  get_group id f (n, t) = (Ok (Some (g, e)), (n', t')) →
  ∃ r, r ∈ group_t t ∧ group_matches id r = true ∧ group_from_slice (gr_token r) = Some g ∧
       gr_expiry r = e ∧ 0 ≤ e.
Proof.
  intros H. assert (f n = false ∧ created t = true) as [Hf Hc].
  { revert H. unfold get_group, mbind, DbM_bind.
    destruct id; unfold get_group_data_name, get_group_data_gid, query, exec_raw;
      destruct (f n), (created t); done. }
  rewrite get_group_run in H by done.
  apply one_token_some in H as (b & Hb & Ht & He & [= -> ->]).
  apply list_elem_of_fmap in Hb as (r & [= -> ->] & [Hr Hm]%elem_of_bfilter). eauto 10.
Qed.

(** What a successful [update_account] did. *)
Lemma update_account_ok acc e f n t n' t' :
  accounts_wf (account_t t) → update_account acc e f (n, t) = (Ok tt, (n', t')) →
  ∃ data, user_to_vec acc = Some data ∧ e ≤ i64_max ∧ created t' = created t ∧
          t' = upsert_account acc data e t.
Proof.
  intros Hwf Hr. pose proof (update_account_refines acc e f n t) as H. rewrite Hr in H.
  destruct H as [HF Hc]. destruct (user_to_vec acc) as [data|] eqn:Hd;
    [|by unfold update_account_tf, tf_bind, tf_lift in HF; rewrite Hd in HF].
  destruct (i64_try_from_u64 e) as [e'|] eqn:Ee;
    [|by unfold update_account_tf, tf_bind, tf_lift in HF; rewrite Hd, Ee in HF].
  rewrite (update_account_tf_eq _ _ data e') in HF by done. injection HF as <-.
  apply i64_try_from_u64_Some in Ee as [? ->]. eauto.
Qed.

Lemma update_group_ok g e f n t n' t' :
  update_group g e f (n, t) = (Ok tt, (n', t')) →
  ∃ data, group_to_vec g = Some data ∧ e ≤ i64_max ∧ created t' = created t ∧
          t' = upsert_group g data e t.
Proof.
  intros Hr. pose proof (update_group_refines g e f n t) as H. rewrite Hr in H.
  destruct H as [HF Hc]. unfold update_group_tf, tf_bind, tf_lift, tf_update in HF.
  destruct (group_to_vec g) as [data|]; [|done].
  destruct (i64_try_from_u64 e) as [e'|] eqn:Ee; [|done]. injection HF as <-.
  apply i64_try_from_u64_Some in Ee as [? ->]. eauto.
Qed.

(** The row of the account after the update, and that it is found by any key no
    other row answers to. *)
Lemma upsert_lookup acc data e t id :
  accounts_wf (account_t t) →
  let u := hyphenated (t_uuid acc) in
  let r := account_row u acc (old_password u (account_t t)) data e in
  account_matches id r = true →
  (∀ r', r' ∈ account_t t → purge_keeps u acc r' = true → a_uuid r' ≠ u →
         account_matches id r' = false) →
  List.filter (account_matches id) (account_t (upsert_account acc data e t)) = [r].
Proof.
  intros Hwf u r Hm Hother. simpl. fold u.
  apply (filter_singleton a_uuid); [by apply upsert_rows_wf| |done|].
  - apply elem_of_upsert_rows; [done|]. auto.
  - intros y Hy Hym. apply elem_of_upsert_rows in Hy; [|done].
    destruct Hy as [[Hne [Hy Hk]%elem_of_bfilter]| ->]; [|done].
    rewrite (Hother y) in Hym; done.
Qed.

(** The password column seen by [check_account_password]. *)
Lemma select_passwords_eq u t :
  NoDup (a_uuid <$> account_t t) →
  select_passwords u t = option_list (old_password u (account_t t)).
Proof.
  intros Hnd. unfold select_passwords, old_password.
  assert (length (List.filter (λ r, String.eqb (a_uuid r) u) (account_t t)) ≤ 1)%nat as Hlen.
  { apply (filter_unique a_uuid _ _ u Hnd). by intros x _ ?%String.eqb_eq. }
  revert Hlen. generalize (List.filter (λ r, String.eqb (a_uuid r) u) (account_t t)).
  intros [|r [|r' l]]; simpl; try lia; [done|]. by destruct (a_password r).
Qed.

Lemma old_password_upsert acc data e t :
  accounts_wf (account_t t) →
  old_password (hyphenated (t_uuid acc)) (account_t (upsert_account acc data e t)) =
  old_password (hyphenated (t_uuid acc)) (account_t t).
Proof.
  intros Hwf. simpl. set (u := hyphenated (t_uuid acc)).
  rewrite (old_password_row u _ (account_row u acc (old_password u (account_t t)) data e));
    [done|by apply upsert_rows_wf| |done].
  apply elem_of_upsert_rows; auto.
Qed.

(** Members of a group: the cached accounts with a membership row. *)
Lemma elem_of_select_members g t b :
  b ∈ select_members g t ↔
  ∃ r m, r ∈ account_t t ∧ m ∈ memberof_t t ∧ m_a_uuid m = a_uuid r ∧ m_g_uuid m = g ∧ b = a_token r.
Proof.
  unfold select_members. rewrite list_elem_of_bind. split.
  - intros (r & Hb & Hr). apply list_elem_of_bind in Hb as (m & Hb & Hm).
    apply list_elem_of_singleton in Hb as ->. apply elem_of_bfilter in Hm as [Hm E].
    apply andb_true_iff in E as [E1%String.eqb_eq E2%String.eqb_eq]. eauto 10.
  - intros (r & m & Hr & Hm & E1 & E2 & ->). exists r. split; [|done].
    apply list_elem_of_bind. exists m. split; [by apply list_elem_of_singleton|].
    apply elem_of_bfilter. split; [done|]. by rewrite E1, E2, !String.eqb_refl.
Qed.

(** ** Deletions and resets *)

Lemma exec_ok stmt f n t n' t' : exec stmt f (n, t) = (Ok tt, (n', t')) → t' = stmt t.
Proof. unfold exec, exec_raw. case_match; by intros [=]. Qed.

Lemma delete_account_ok u f n t n' t' r :
  delete_account u f (n, t) = (Ok tt, (n', t')) → r ∈ account_t t' → a_uuid r ≠ hyphenated u.
Proof.
  unfold delete_account, mbind, DbM_bind. destruct (exec _ f (n, t)) as [[[]|] [n1 t1]]; [|done].
  intros ->%exec_ok. simpl. intros [_ Hr]%elem_of_bfilter. by apply negb_true_iff, String.eqb_neq in Hr.
Qed.

Lemma invalidate_ok f n t n' t' :
  invalidate f (n, t) = (Ok tt, (n', t')) →
  (∀ r, r ∈ account_t t' → a_expiry r = 0) ∧ (∀ r, r ∈ group_t t' → gr_expiry r = 0).
Proof.
  unfold invalidate, mbind, DbM_bind.
  destruct (exec _ f (n, t)) as [[[]|] [n1 t1]] eqn:E1; [|done]. apply exec_ok in E1 as ->.
  intros ->%exec_ok. simpl. split; intros r (r0 & -> & _)%list_elem_of_fmap; done.
Qed.

Lemma clear_ok f n t n' t' :
  (_ ← clear; clear_hello_keys) f (n, t) = (Ok tt, (n', t')) →
  account_t t' = [] ∧ group_t t' = [] ∧ memberof_t t' = [] ∧ hsm_int_t t' = hsm_int_t t ∧
  hsm_data_t t' = filter (λ kv, is_hello_key kv.1 = false) (hsm_data_t t).
Proof.
  unfold clear, clear_hello_keys, mbind, DbM_bind.
  destruct (exec _ f (n, t)) as [[[]|] [n1 t1]] eqn:E1; [|done]. apply exec_ok in E1 as ->.
  destruct (exec _ f (n1, _)) as [[[]|] [n2 t2]] eqn:E2; [|done]. apply exec_ok in E2 as ->.
  destruct (exec _ f (n2, _)) as [[[]|] [n3 t3]] eqn:E3; [|done]. apply exec_ok in E3 as ->.
  by intros ->%exec_ok.
Qed.

(** ** Passwords *)

(** Stored bytes that never reject the credential. *)
Definition accepting (cred : string) (k : HmacKey) (data : bytes) : Prop :=
  ∃ pw, dbpassword_from_slice data = Some pw ∧ ∀ h, (verify_ctx pw cred k h).1 ≠ Some false.

(** A successful [update_account_password] on a cached account stores bytes that
    accept the credential. *)
Lemma update_password_stores {CL : CryptoLaws C} u cred k h f n t n1 t1 h1 r :
  accounts_wf (account_t t) → r ∈ account_t t → a_uuid r = hyphenated u →
  update_account_password u cred k h f (n, t) = ((Ok tt, (n1, t1)), h1) →
  ∃ data, old_password (hyphenated u) (account_t t1) = Some data ∧ accepting cred k data ∧
          created t1 = created t.
Proof.
  intros Hwf Hr Hu. unfold update_account_password.
  destruct (new_argon2id_hsm cred k h) as [[pw|] h'] eqn:Hpw; [|by intros [=]].
  unfold mbind, DbM_bind. simpl. destruct (password_to_vec pw) as [data|] eqn:Hv; [|by intros [=]].
  simpl. unfold exec, exec_raw. case_match; [by intros [=]|]. intros [= <- <- <-].
  exists data. destruct (password_complete cred k h pw h' data Hpw Hv) as (p' & Hs & Hver).
  split_and!; [|by exists p'|done].
  rewrite (old_password_row _ _ (set_password (hyphenated u) data r)).
  - unfold set_password. by rewrite (proj2 (String.eqb_eq _ _) Hu).
  - simpl. apply NoDup_map_same; [intros r'; apply set_password_fields|apply Hwf].
  - by apply list_elem_of_fmap_2.
  - destruct (set_password_fields (hyphenated u) data r) as [-> _]. done.
Qed.

Lemma check_password_accepts u cred k data h f m t :
  NoDup (a_uuid <$> account_t t) → old_password (hyphenated u) (account_t t) = Some data →
  accepting cred k data → (check_account_password u cred k h f (m, t)).1.1 ≠ Ok false.
Proof.
  intros Hnd Ho (pw & Hs & Hver). unfold check_account_password.
  destruct (query_cases (select_passwords (hyphenated u)) f m t) as [-> | ->]; [done|].
  rewrite select_passwords_eq, Ho by done. simpl. rewrite Hs.
  specialize (Hver h). destruct (verify_ctx pw cred k h) as [[[]|] ?]; simpl in *; done.
Qed.

(** ** [store_usertoken] of the resolver: groups, then the account *)

Lemma update_groups_ok (l : list GroupToken) e f n t n' t' :
  in_u64 e → db_wf t → try_for_each (λ g, update_group g e) l f (n, t) = (Ok tt, (n', t')) →
  db_wf t' ∧ account_t t' = account_t t ∧ created t' = created t ∧ memberof_t t' = memberof_t t.
Proof.
  intros He. revert n t. induction l as [|g l IH]; simpl; intros n t Hwf; [by intros [= <- <-]|].
  unfold mbind, DbM_bind. destruct (update_group g e f (n, t)) as [[[]|] [n1 t1]] eqn:E; [|done].
  intros H. pose proof (update_group_preserves g e He f n t tt n1 t1 Hwf E) as Hwf1.
  destruct (update_group_ok _ _ _ _ _ _ _ E) as (data & _ & _ & Hc & ->).
  destruct (IH _ _ Hwf1 H) as (? & -> & -> & ->). done.
Qed.

End facts.
