(* ===== verification/Models.v ===== *)
(** * Executable instances of the external interfaces

    Small concrete implementations of [Ext], [Serde] and [Crypto] that satisfy
    their laws. They stand in for the crates [uuid], [serde_json],
    [kanidm-hsm-crypto] and [kanidm-lib-crypto] wherever a theorem is evaluated on
    a concrete input, and show that the hypotheses on those crates can hold. *)
From stdpp Require Import base gmap strings list countable.
From Stdlib Require Import ZArith Lia NArith Ascii.
From S2P Require Import Prelude Proto Interface Db.

(** ** Identifiers: a 128-bit number, rendered in decimal *)

Fixpoint be_bytes (k : nat) (z : Z) : list Z :=
  match k with
  | O => []
  | S k' => (Z.shiftr z (8 * Z.of_nat k')) mod 256 :: be_bytes k' z
  end.

#[export] Instance model_ext : Ext := {|
  Uuid := N;
  hyphenated u := uint_to_string (Z.of_N u);
  as_bytes u := be_bytes 16 (Z.of_N u);
  NoncompliantRule := unit;
  KerberosCredentials := unit;
  MFAAuthContinue := option Z * option Z;
  UnixUserToken := string;
  SealedData := unit;
  AuthOption := unit
|}.

Lemma length_be_bytes k z : length (be_bytes k z) = k.
Proof. induction k; simpl; auto. Qed.

Lemma be_bytes_u8 k z : Forall in_u8 (be_bytes k z).
Proof.
  induction k; simpl; constructor; [|done]. unfold in_u8, u8_max.
  pose proof (Z.mod_pos_bound (Z.shiftr z (8 * Z.of_nat k)) 256). lia.
Qed.

#[export] Instance model_ext_laws : ExtLaws model_ext.
Proof.
  split.
  - intros u v E. simpl in *.
    pose proof (parse_uint_to_string (Z.of_N (N.max u v)) (Z.of_N u)) as Hu.
    pose proof (parse_uint_to_string (Z.of_N (N.max u v)) (Z.of_N v)) as Hv.
    rewrite E, Hv in Hu by lia. assert (Z.of_N v = Z.of_N u) by (apply Some_inj, Hu; lia). lia.
  - intros u. apply length_be_bytes.
  - intros u. apply be_bytes_u8.
Qed.

(** ** Serialisation: self-delimiting codecs *)

Class Codec (A : Type) : Type := {
  put : A → bytes;
  parse : bytes → option (A * bytes);
  parse_put : ∀ a rest, parse (put a ++ rest) = Some (a, rest)
}.

Definition parse_bool (l : bytes) : option (bool * bytes) :=
  match l with
  | Byte.x01 :: r => Some (true, r)
  | Byte.x00 :: r => Some (false, r)
  | _ => None
  end.

Lemma parse_put_bool (b : bool) rest :
  parse_bool ([if b then Byte.x01 else Byte.x00] ++ rest) = Some (b, rest).
Proof. by destruct b. Qed.

#[export] Instance codec_bool : Codec bool :=
  {| put (b : bool) := [if b then Byte.x01 else Byte.x00]; parse := parse_bool; parse_put := parse_put_bool |}.

Fixpoint put_pos (p : positive) : bytes :=
  match p with
  | xH => [Byte.x02]
  | xO p => Byte.x00 :: put_pos p
  | xI p => Byte.x01 :: put_pos p
  end.

Fixpoint parse_pos (l : bytes) : option (positive * bytes) :=
  match l with
  | Byte.x02 :: r => Some (xH, r)
  | Byte.x00 :: r => match parse_pos r with Some (p, r) => Some (xO p, r) | None => None end
  | Byte.x01 :: r => match parse_pos r with Some (p, r) => Some (xI p, r) | None => None end
  | _ => None
  end.

Lemma parse_put_pos p rest : parse_pos (put_pos p ++ rest) = Some (p, rest).
Proof. induction p as [p IH|p IH|]; simpl; [by rewrite IH..|done]. Qed.

#[export] Instance codec_pos : Codec positive :=
  {| put := put_pos; parse := parse_pos; parse_put := parse_put_pos |}.

(** A codec through an injection into another type. *)
Section via.
Context {A B : Type} {CB : Codec B} (f : A → B) (g : B → A) (Hg : ∀ a, g (f a) = a).

Definition parse_via (l : bytes) : option (A * bytes) :=
  match parse l with Some (b, r) => Some (g b, r) | None => None end.

Lemma parse_put_via a rest : parse_via (put (f a) ++ rest) = Some (a, rest).
Proof. unfold parse_via. by rewrite parse_put, Hg. Qed.

Definition codec_via : Codec A :=
  {| put (a : A) := put (f a); parse := parse_via; parse_put := parse_put_via |}.
End via.

Definition Z_pos (z : Z) : positive := match z with Z0 => xH | Zpos p => xO p | Zneg p => xI p end.
Definition pos_Z (p : positive) : Z := match p with xH => Z0 | xO p => Zpos p | xI p => Zneg p end.

Lemma pos_Z_pos z : pos_Z (Z_pos z) = z.
Proof. by destruct z. Qed.

#[export] Instance codec_Z : Codec Z := codec_via Z_pos pos_Z pos_Z_pos.
#[export] Instance codec_N : Codec N := codec_via Z.of_N Z.to_N N2Z.id.

Section prod.
Context {A B : Type} {CA : Codec A} {CB : Codec B}.

Definition parse_prod (l : bytes) : option ((A * B) * bytes) :=
  match parse l with
  | Some (a, r) => match parse r with Some (b, r) => Some ((a, b), r) | None => None end
  | None => None
  end.

Lemma parse_put_prod (p : A * B) rest : parse_prod ((put p.1 ++ put p.2) ++ rest) = Some (p, rest).
Proof. destruct p. unfold parse_prod. by rewrite <- app_assoc, !parse_put. Qed.

#[export] Instance codec_prod : Codec (A * B) :=
  {| put (p : A * B) := put p.1 ++ put p.2; parse := parse_prod; parse_put := parse_put_prod |}.

Definition put_option (o : option A) : bytes :=
  match o with Some a => Byte.x01 :: put a | None => [Byte.x00] end.

Definition parse_option (l : bytes) : option (option A * bytes) :=
  match l with
  | Byte.x00 :: r => Some (None, r)
  | Byte.x01 :: r => match parse r with Some (a, r) => Some (Some a, r) | None => None end
  | _ => None
  end.

Lemma parse_put_option o rest : parse_option (put_option o ++ rest) = Some (o, rest).
Proof. destruct o; simpl; [by rewrite parse_put|done]. Qed.

#[export] Instance codec_option : Codec (option A) :=
  {| put := put_option; parse := parse_option; parse_put := parse_put_option |}.
End prod.

(** A list, element by element; the fuel is the number of elements, which is put
    first. *)
Fixpoint put_list {A} `{Codec A} (l : list A) : bytes :=
  match l with [] => [] | a :: l => put a ++ put_list l end.

Fixpoint parse_list {A} `{Codec A} (n : nat) (b : bytes) : option (list A * bytes) :=
  match n with
  | O => Some ([], b)
  | S n => match parse b with
           | Some (a, r) => match parse_list n r with Some (l, r) => Some (a :: l, r) | None => None end
           | None => None
           end
  end.

Lemma parse_put_list {A} `{Codec A} (l : list A) rest :
  parse_list (length l) (put_list l ++ rest) = Some (l, rest).
Proof. induction l as [|a l IH]; simpl; [done|]. by rewrite <- app_assoc, parse_put, IH. Qed.

Definition put_counted {A} `{Codec A} (l : list A) : bytes := put (N.of_nat (length l)) ++ put_list l.
Definition parse_counted {A} `{Codec A} (b : bytes) : option (list A * bytes) :=
  match parse b with Some (n, r) => parse_list (N.to_nat n) r | None => None end.

Lemma parse_put_counted {A} `{Codec A} (l : list A) rest :
  parse_counted (put_counted l ++ rest) = Some (l, rest).
Proof.
  unfold parse_counted, put_counted. by rewrite <- app_assoc, parse_put, Nat2N.id, parse_put_list.
Qed.

#[export] Instance codec_list {A} `{Codec A} : Codec (list A) :=
  {| put := put_counted; parse := parse_counted; parse_put := parse_put_counted |}.

Definition parse_ascii (l : bytes) : option (ascii * bytes) :=
  match l with b :: r => Some (ascii_of_byte b, r) | [] => None end.

Lemma parse_put_ascii (a : ascii) rest : parse_ascii ([byte_of_ascii a] ++ rest) = Some (a, rest).
Proof. simpl. by rewrite ascii_of_byte_of_ascii. Qed.

#[export] Instance codec_ascii : Codec ascii :=
  {| put (a : ascii) := [byte_of_ascii a]; parse := parse_ascii; parse_put := parse_put_ascii |}.

#[export] Instance codec_string : Codec string :=
  codec_via String.list_ascii_of_string String.string_of_list_ascii
    String.string_of_list_ascii_of_string.

Definition group_tuple (g : GroupToken) : string * string * N * Z :=
  (g_name g, g_spn g, g_uuid g : N, g_gidnumber g).
Definition tuple_group (p : string * string * N * Z) : GroupToken :=
  let '(n, s, u, g) := p in Build_GroupToken n s u g.

Definition user_tuple (t : UserToken) :=
  ((t_name t, t_spn t, t_uuid t : N, t_real_gidnumber t, t_gidnumber t),
   (t_displayname t, t_shell t, group_tuple <$> t_groups t, t_tenant_id t : option N, t_valid t)).
Definition tuple_user (p : (string * string * N * option Z * Z) *
  (string * option string * list (string * string * N * Z) * option N * bool)) : UserToken :=
  let '((n, s, u, rg, g), (d, sh, gs, te, v)) := p in
  Build_UserToken n s u rg g d sh (tuple_group <$> gs) te v.

Lemma tuple_group_tuple g : tuple_group (group_tuple g) = g.
Proof. by destruct g. Qed.

Lemma tuple_user_tuple t : tuple_user (user_tuple t) = t.
Proof.
  destruct t. unfold user_tuple, tuple_user. simpl. f_equal.
  rewrite <- list_fmap_compose. rewrite <- (list_fmap_id t_groups) at 2.
  apply fmap_ext_elem. intros g _. apply tuple_group_tuple.
Qed.

Definition enc {A} `{Codec A} (a : A) : bytes := put a.
Definition dec {A} `{Codec A} (b : bytes) : option A := fst <$> parse b.

Lemma dec_enc {A} `{Codec A} (a : A) : dec (enc a) = Some a.
Proof. unfold dec, enc. pose proof (parse_put a []) as Hp. rewrite app_nil_r in Hp. by rewrite Hp. Qed.

#[export] Instance model_serde : Serde := {|
  user_to_vec t := Some (enc (user_tuple t));
  user_from_slice b := tuple_user <$> dec b;
  group_to_vec g := Some (enc (group_tuple g));
  group_from_slice b := tuple_group <$> dec b
|}.

#[export] Instance model_serde_laws : SerdeLaws model_serde.
Proof.
  split.
  - intros t b E. assert (enc (user_tuple t) = b) as <- by exact (Some_inj _ _ E).
    unfold user_from_slice, model_serde. rewrite (dec_enc (user_tuple t)). by apply (f_equal Some), tuple_user_tuple.
  - intros g b E. assert (enc (group_tuple g) = b) as <- by exact (Some_inj _ _ E).
    unfold group_from_slice, model_serde. rewrite (dec_enc (group_tuple g)). by apply (f_equal Some), tuple_group_tuple.
Qed.

(** ** A TPM that counts its operations and stores passwords in the clear *)

#[export] Instance model_crypto : Crypto := {|
  Hsm := nat;
  MachineKey := string;
  HmacKey := string;
  LoadableMachineKey := string;
  LoadableHmacKey := string;
  machine_key_to_vec k := Some (enc k);
  machine_key_from_slice := dec;
  hmac_key_to_vec k := Some (enc k);
  hmac_key_from_slice := dec;
  hmac_s256_create _ h := (Some "hmac", S h);
  hmac_s256_load _ k h := (Some k, S h);
  Password := string;
  new_argon2id_hsm cred k h := (Some (k +:+ cred), S h);
  password_to_vec p := Some (enc p);
  dbpassword_from_slice := dec;
  verify_ctx p cred k h := (Some (String.eqb p (k +:+ cred)), S h)
|}.

#[export] Instance model_crypto_laws : CryptoLaws model_crypto.
Proof.
  split. intros cred k h p h' b E1 E2.
  assert (p = k +:+ cred) as -> by (by simpl in E1; simplify_eq).
  assert (enc (k +:+ cred : string) = b) as <- by exact (Some_inj _ _ E2).
  exists (k +:+ cred). split; [exact (dec_enc (k +:+ cred : string))|].
  intros h''. simpl. by rewrite String.eqb_refl.
Qed.

(** ** Sample data *)

Definition sample_group : GroupToken :=
  Build_GroupToken "staff" "staff@example.com" (77%N : @Uuid model_ext) 5000.

Definition sample_user : UserToken :=
  Build_UserToken "alice" "alice@example.com" (41%N : @Uuid model_ext) (Some 1000) 1000
    "Alice" None [sample_group] None true.

Definition sample_hmac : @HmacKey model_crypto := "hmac".
Definition sample_tpm : @Hsm model_crypto := 0%nat.
Definition sample_tpm' : @Hsm model_crypto := 1%nat.

Definition sample_user2 : UserToken :=
  Build_UserToken "Alice" "alice2@example.com" (42%N : @Uuid model_ext) (Some 1001) 1001
    "Alice Two" None [] None true.

Definition sample_member : UserToken :=
  Build_UserToken "bob" "bob@example.com" (43%N : @Uuid model_ext) None 1002
    "Bob" (Some "/bin/zsh") [sample_group] None true.

(** The database after a successful migration. *)
Definition migrated_db : Tables :=
  Build_Tables (Some {[ "main" := 1 ]}) true [] [] [] ∅ ∅.
