(* ===== verification/DbTheorems.v ===== *)
(** * Theorems on the offline cache

    The properties of [db.rs] a caller depends on, each with a closed instance on
    the sample data of [Models]. *)
From stdpp Require Import base gmap strings list fin_maps.
From Stdlib Require Import ZArith Lia Ascii.
From S2P Require Import Prelude Proto Interface Db DbSpec DbFacts Models.

(** The fault oracle of a run in which every statement succeeds. *)
Definition no_faults : Faults := λ _, false.

Section theorems.
Context {X : Ext} {SD : Serde} {SL : SerdeLaws SD} {C : Crypto}.

(** C29. Every database reachable by successful cache operations, whatever
    statements failed in between, is well formed: identifiers, names, SPNs and uid
    numbers are unique in each table, the indexed columns agree with the stored
    token, expiries fit the column, and each membership row of a cached account is
    one its token lists. *)
Theorem db_reachable_wf t : db_reachable t → db_wf t.
Proof.
  induction 1 as [|t op f n n' t' _ IH Ht Hr]; [apply db_wf_empty|].
  by eapply run_op_preserves.
Qed.

(** C30. [update_account] on a well-formed database never trips a [UNIQUE]
    constraint: without statement faults it succeeds, and its six statements amount
    to evicting conflicting accounts, rewriting or inserting the account's row with
    its password kept, and replacing its memberships. *)
Theorem update_account_total acc expire data n t :
  db_wf t → created t = true → user_to_vec acc = Some data → 0 ≤ expire ≤ i64_max →
  ∃ n', update_account acc expire no_faults (n, t) =
        (Ok tt, (n', upsert_account acc data expire t)).
Proof.
  intros Hwf Hc Hd He. eapply refines_runs; [apply update_account_refines|done|done|].
  apply update_account_tf_eq; [apply Hwf|done|]. apply i64_try_from_u64_Some. lia.
Qed.

(** Write/read round trip: after a successful [update_account], looking the
    account up by its uid number, or by its uuid, name or SPN in any ASCII case, as
    long as no other cached account answers to that key, returns the stored token
    and its expiry unchanged. *)
Theorem update_get_account acc e f n t n' t' id f' m :
  db_wf t → created t = true → 0 ≤ e →
  update_account acc e f (n, t) = (Ok tt, (n', t')) →
  account_matches id (account_row (hyphenated (t_uuid acc)) acc None [] 0) = true →
  (∀ r, r ∈ account_t t → a_uuid r ≠ hyphenated (t_uuid acc) → account_matches id r = true →
        purge_keeps (hyphenated (t_uuid acc)) acc r = false) →
  f' m = false →
  get_account id f' (m, t') = (Ok (Some (acc, e)), (m + 1, t'))%nat.
Proof.
  intros Hwf Hc He Hr Hm Hother Hf'.
  destruct (update_account_ok _ _ _ _ _ _ _ (wf_accounts _ Hwf) Hr) as (data & Hd & Hle & Hc' & ->).
  set (r := account_row (hyphenated (t_uuid acc)) acc
              (old_password (hyphenated (t_uuid acc)) (account_t t)) data e).
  rewrite (get_account_one id f' m _ r acc); [done|done|congruence| |by apply user_roundtrip|done].
  apply upsert_lookup; [apply Hwf|done|]. intros r' Hr' Hk Hne.
  destruct (account_matches id r') eqn:E; [|done]. by rewrite Hother in Hk.
Qed.

(** After a successful [update_account] no other cached account shares the
    account's name, SPN or uid number. *)
Theorem update_account_evicts acc e f n t n' t' r :
  db_wf t → update_account acc e f (n, t) = (Ok tt, (n', t')) → r ∈ account_t t' →
  a_name r = t_name acc ∨ a_spn r = t_spn acc ∨ a_gidnumber r = t_gidnumber acc →
  a_uuid r = hyphenated (t_uuid acc).
Proof.
  intros Hwf Hr Hin Hconf.
  destruct (update_account_ok _ _ _ _ _ _ _ (wf_accounts _ Hwf) Hr) as (data & _ & _ & _ & ->).
  apply elem_of_upsert_rows in Hin; [|apply Hwf]. destruct Hin as [[Hne Hk]| ->]; [|done].
  apply kept_distinct in Hk; [|done]. naive_solver.
Qed.

(** The cached password survives a profile refresh: storing a password for an
    account and then updating the account, both successfully, leaves a record that
    never rejects that password. *)
Theorem password_survives_refresh {CL : CryptoLaws C} acc e cred k h f n t n1 t1 h1 f2 n2 t2 f3 m h3 :
  db_wf t → (∃ r, r ∈ account_t t ∧ a_uuid r = hyphenated (t_uuid acc)) →
  update_account_password (t_uuid acc) cred k h f (n, t) = ((Ok tt, (n1, t1)), h1) →
  update_account acc e f2 (n1, t1) = (Ok tt, (n2, t2)) →
  (check_account_password (t_uuid acc) cred k h3 f3 (m, t2)).1.1 ≠ Ok false.
Proof.
  intros Hwf (r & Hr & Hu) Hp Hup.
  assert (db_wf t1) as Hwf1.
  { eapply (update_password_preserves (t_uuid acc) cred k h f n t); [done|]. by rewrite Hp. }
  destruct (update_password_stores _ _ _ _ _ _ _ _ _ _ r (wf_accounts _ Hwf) Hr Hu Hp)
    as (data & Ho & Ha & _).
  destruct (update_account_ok _ _ _ _ _ _ _ (wf_accounts _ Hwf1) Hup) as (dat & _ & _ & _ & ->).
  eapply check_password_accepts; [apply upsert_rows_wf, Hwf1| |exact Ha].
  by rewrite old_password_upsert by apply Hwf1.
Qed.

(** Without a stored password the offline check refuses every credential. *)
Theorem no_password_denies u cred k h f n t :
  (∀ r, r ∈ account_t t → a_uuid r = hyphenated u → a_password r = None) →
  (check_account_password u cred k h f (n, t)).1.1 ≠ Ok true.
Proof.
  intros Hno. unfold check_account_password.
  destruct (query_cases (select_passwords (hyphenated u)) f n t) as [-> | ->]; [done|].
  assert (select_passwords (hyphenated u) t = []) as ->.
  { unfold select_passwords. revert Hno. generalize (account_t t) as l.
    induction l as [|r l IH]; simpl; intros Hno; [done|].
    destruct (String.eqb_spec (a_uuid r) (hyphenated u)); simpl;
      [rewrite Hno by set_solver|]; apply IH; set_solver. }
  done.
Qed.

(** Membership is sound: every member [get_group_members] reports is a cached
    account whose own token lists the group. *)
Theorem group_members_sound g f n t toks s' tok :
  db_wf t → get_group_members g f (n, t) = (Ok toks, s') → tok ∈ toks →
  hyphenated g ∈ group_uuids tok ∧
  ∃ r, r ∈ account_t t ∧ user_from_slice (a_token r) = Some tok.
Proof.
  intros Hwf Hr Ht. unfold get_group_members, mbind, DbM_bind in Hr.
  destruct (query_cases (select_members (hyphenated g)) f n t) as [Eq|Eq]; rewrite Eq in Hr; [done|].
  destruct (mapM user_from_slice (select_members (hyphenated g) t)) eqn:E; [|done].
  injection Hr as <- <-. apply mapM_Some in E. apply list_elem_of_lookup in Ht as [i Hi].
  destruct (Forall2_lookup_r _ _ _ _ _ E Hi) as (b & Hb & Hbt).
  apply list_elem_of_lookup_2 in Hb.
  apply elem_of_select_members in Hb as (r & m & Hra & Hm & E1 & E2 & ->).
  split; [|eauto]. rewrite <- E2. by apply (wf_members _ Hwf r).
Qed.

(** Membership is complete for the account just written: it is a member of
    every group its token lists, and of no other. *)
Theorem update_account_members acc e f n t n' t' g f' m toks s' :
  db_wf t → created t = true → update_account acc e f (n, t) = (Ok tt, (n', t')) →
  get_group_members g f' (m, t') = (Ok toks, s') →
  hyphenated g ∈ group_uuids acc ↔ acc ∈ toks.
Proof.
  intros Hwf Hc Hr Hg.
  destruct (update_account_ok _ _ _ _ _ _ _ (wf_accounts _ Hwf) Hr) as (data & Hd & Hle & Hc' & ->).
  unfold get_group_members, mbind, DbM_bind in Hg.
  destruct (query_cases (select_members (hyphenated g)) f' m (upsert_account acc data e t))
    as [Eq|Eq]; rewrite Eq in Hg; [done|].
  destruct (mapM user_from_slice _) as [l|] eqn:E; [|done].
  injection Hg as <- <-. apply mapM_Some in E. set (u := hyphenated (t_uuid acc)) in *.
  set (r := account_row u acc (old_password u (account_t t)) data e).
  assert (r ∈ upsert_rows u acc data e (account_t t)) as Hin
    by (apply elem_of_upsert_rows; [apply Hwf|auto]).
  split.
  - intros (x & Ex & Hx)%list_elem_of_fmap.
    assert (a_token r ∈ select_members (hyphenated g) (upsert_account acc data e t)) as Hs.
    { apply elem_of_select_members. exists r, (Build_MemberRow (hyphenated g) u).
      split_and!; try done. apply elem_of_app. right. apply list_elem_of_fmap. exists x.
      by rewrite Ex. }
    apply list_elem_of_lookup in Hs as [i Hi].
    destruct (Forall2_lookup_l _ _ _ _ _ E Hi) as (tok & Hl & Ht). simpl in Ht.
    rewrite (user_roundtrip _ _ Hd) in Ht. simplify_eq. by eapply list_elem_of_lookup_2.
  - intros [i Hi]%list_elem_of_lookup. destruct (Forall2_lookup_r _ _ _ _ _ E Hi) as (b & Hb & Hbt).
    apply list_elem_of_lookup_2, elem_of_select_members in Hb as (r0 & m0 & Hr0 & Hm0 & E1 & E2 & ->).
    simpl in *. rewrite <- E2. apply elem_of_app in Hm0.
    apply elem_of_upsert_rows in Hr0 as [[Hne [Hr0 _]%elem_of_bfilter]| ->]; [| |apply Hwf].
    + destruct Hm0 as [[Hm0 _]%elem_of_bfilter|Hm0].
      * by apply (wf_members _ Hwf r0).
      * apply list_elem_of_fmap in Hm0 as (x & -> & _). by simpl in E1.
    + destruct Hm0 as [[_ Hm0]%elem_of_bfilter|Hm0].
      * simpl in E1. by rewrite E1, String.eqb_refl in Hm0.
      * apply list_elem_of_fmap in Hm0 as (x & -> & Hx). apply list_elem_of_fmap. eauto.
Qed.

(** Group round trip: after a successful [update_group], the group is found
    by its gid number, and by its name, SPN or uuid when no surviving group answers
    to that string; groups that shared one of its unique columns are gone. *)
Theorem update_get_group g e f n t n' t' id f' m :
  db_wf t → created t = true → 0 ≤ e →
  update_group g e f (n, t) = (Ok tt, (n', t')) →
  group_matches id (group_row g [] 0) = true →
  (∀ r, r ∈ group_t t → group_matches id r = true →
        group_no_conflict (hyphenated (g_uuid g)) g r = false) →
  f' m = false →
  get_group id f' (m, t') = (Ok (Some (g, e)), (m + 1, t'))%nat.
Proof.
  intros Hwf Hc He Hr Hm Hother Hf'.
  destruct (update_group_ok _ _ _ _ _ _ _ Hr) as (data & Hd & Hle & Hc' & ->).
  rewrite (get_group_one id f' m _ (group_row g data e) g);
    [done|done|congruence| |by apply group_roundtrip|done].
  simpl. rewrite List.filter_app, filter_filter.
  rewrite (proj2 (filter_nil_iff _ _)); [|].
  - simpl. by replace (group_matches id (group_row g data e)) with true.
  - intros r Hin. destruct (group_matches id r) eqn:E; [|by rewrite andb_false_r].
    by rewrite Hother.
Qed.

(** After [invalidate] every cached account that was found before is found
    with expiry zero, so that the next lookup refreshes it. *)
Theorem invalidate_expires f n t n' t' id tok e f1 m1 s1 f2 m2 :
  db_wf t → created t = true →
  get_account id f1 (m1, t) = (Ok (Some (tok, e)), s1) →
  invalidate f (n, t) = (Ok tt, (n', t')) → f2 m2 = false →
  get_account id f2 (m2, t') = (Ok (Some (tok, 0%Z)), (m2 + 1, t'))%nat.
Proof.
  intros Hwf Hc Hg Hi Hf2.
  assert (f1 m1 = false) as Hf1.
  { destruct (f1 m1) eqn:E; [|done]. unfold get_account, mbind, DbM_bind in Hg.
    destruct id; unfold get_account_data_name, get_account_data_gid, query, exec_raw in Hg;
      by rewrite E in Hg. }
  rewrite get_account_run in Hg by done.
  unfold invalidate, mbind, DbM_bind, exec, exec_raw in Hi. simpl in Hi. rewrite Hc in Hi.
  destruct (f n); [done|]. simpl in Hi. rewrite Hc in Hi. destruct (f (S n)); [done|].
  injection Hi as <- <-. rewrite get_account_run by done. simpl.
  set (z := λ r, Build_AccountRow (a_uuid r) (a_name r) (a_spn r) (a_gidnumber r) (a_password r)
                   (a_token r) 0).
  assert (∀ l, List.filter (account_matches id) (z <$> l) = z <$> List.filter (account_matches id) l)
    as Hz.
  { induction l as [|r l IH]; csimpl; [done|].
    replace (account_matches id (z r)) with (account_matches id r) by (by destruct id).
    destruct (account_matches id r); csimpl; by rewrite IH. }
  rewrite Hz. revert Hg. generalize (List.filter (account_matches id) (account_t t)).
  intros l. unfold one_token. rewrite <- list_fmap_compose, !length_fmap. case_match; [done|].
  destruct l as [|r l]; [done|]. csimpl. destruct (user_from_slice (a_token r)); [|done].
  unfold db_lift, u64_try_from_i64. case_match; [|done]. intros [= -> _ _]. done.
Qed.

(** Names that differ only in case lock both accounts out of lookups by name:
    the uniqueness constraints and the conflict purge compare bytes while the
    lookup ignores case, so two accounts whose names agree up to case are both kept
    and a lookup by that name fails with [TooManyResults]. *)
Theorem case_variant_lockout a1 a2 e1 e2 d1 d2 :
  ExtLaws X → t_uuid a1 ≠ t_uuid a2 → to_lowercase (t_name a1) = to_lowercase (t_name a2) →
  t_name a1 ≠ t_name a2 → t_spn a1 ≠ t_spn a2 → t_gidnumber a1 ≠ t_gidnumber a2 →
  user_to_vec a1 = Some d1 → user_to_vec a2 = Some d2 →
  0 ≤ e1 ≤ i64_max → 0 ≤ e2 ≤ i64_max →
  ∃ n t, (_ ← update_account a1 e1; update_account a2 e2) no_faults (0%nat, migrated_db)
           = (Ok tt, (n, t)) ∧
         get_account (Id_Name (t_name a1)) no_faults (n, t)
           = (Err CacheError_TooManyResults, (n + 1, t))%nat.
Proof.
  intros HX Hu Hlow Hn Hs Hg Hd1 Hd2 He1 He2.
  assert (hyphenated (t_uuid a1) ≠ hyphenated (t_uuid a2)) as Hh by (by intros ?%hyphenated_inj).
  assert (db_wf migrated_db) as Hwf0 by (by apply (db_wf_same empty_db); [..|apply db_wf_empty]).
  set (t1 := upsert_account a1 d1 e1 migrated_db). set (t2 := upsert_account a2 d2 e2 t1).
  assert (db_wf t1) as Hwf1 by (by apply upsert_account_wf).
  destruct (refines_runs _ _ no_faults 0 migrated_db tt t1 (update_account_refines a1 e1))
    as [n1 R1]; [done|done| |].
  { apply update_account_tf_eq; [apply Hwf0|done|]. apply i64_try_from_u64_Some. lia. }
  destruct (refines_runs _ _ no_faults n1 t1 tt t2 (update_account_refines a2 e2))
    as [n2 R2]; [done|done| |].
  { apply update_account_tf_eq; [apply Hwf1|done|]. apply i64_try_from_u64_Some. lia. }
  exists n2, t2. unfold mbind, DbM_bind. rewrite R1. split; [done|].
  rewrite get_account_run by done. apply one_token_many. rewrite length_fmap.
  set (k := List.filter _ _).
  assert (NoDup (a_uuid <$> k)) as Hnd.
  { apply NoDup_map_filter, upsert_account_wf; done. }
  set (r1 := account_row (hyphenated (t_uuid a1)) a1 None d1 e1).
  set (r2 := account_row (hyphenated (t_uuid a2)) a2 None d2 e2).
  assert (r1 ∈ account_t t1) as H11 by (by left).
  assert (r1 ∈ k) as H1.
  { apply elem_of_bfilter. split.
    - simpl. apply elem_of_upsert_rows; [apply Hwf1|]. left. split; [done|].
      apply elem_of_bfilter. split; [done|]. apply purge_keeps_spec. right. done.
    - simpl. unfold account_matches_name, nocase_eqb. simpl. rewrite !String.eqb_refl.
      by rewrite orb_true_r. }
  assert (∃ r, r ∈ k ∧ a_uuid r = hyphenated (t_uuid a2)) as (r & H2 & E2).
  { exists (account_row (hyphenated (t_uuid a2)) a2
              (old_password (hyphenated (t_uuid a2)) (account_t t1)) d2 e2). split; [|done].
    apply elem_of_bfilter. split.
    - simpl. apply elem_of_upsert_rows; [apply Hwf1|]. by right.
    - simpl. unfold account_matches_name, nocase_eqb. simpl. rewrite Hlow, !String.eqb_refl.
      by rewrite orb_true_r. }
  destruct k as [|x [|y k']]; simpl; [set_solver| |lia].
  apply list_elem_of_singleton in H1, H2. subst. by subst r1.
Qed.

End theorems.

(** Clearing the Hello keys removes from the key store exactly the keys whose
    lower-case form ends in [/hello], or in [/hello] followed by any one character
    and [decoupled] or [prt]; every other key keeps its value. *)
Theorem clear_hello_keys_exact f n t n' t' key :
  clear_hello_keys f (n, t) = (Ok tt, (n', t')) →
  hsm_data_t t' !! key = if is_hello_key key then None else hsm_data_t t !! key.
Proof.
  unfold clear_hello_keys, exec, exec_raw. case_match; [done|]. intros [= <- <-]. simpl.
  destruct (is_hello_key key) eqn:E.
  - apply map_lookup_filter_None. right. intros v _. simpl. by rewrite E.
  - destruct (hsm_data_t t !! key) as [v|] eqn:Hk.
    + by apply map_lookup_filter_Some.
    + apply map_lookup_filter_None. by left.
Qed.

(** ** Instances on the sample data *)

(** The database after caching [sample_user]. *)
Definition db1 : Tables := upsert_account sample_user (enc (user_tuple sample_user)) 100 migrated_db.

Lemma migrated_db_wf : db_wf migrated_db.
Proof. by apply (db_wf_same empty_db); [..|apply db_wf_empty]. Qed.

Lemma db1_wf : db_wf db1.
Proof. apply upsert_account_wf; [done|done|apply migrated_db_wf]. Qed.

Lemma db1_run : update_account sample_user 100 no_faults (0%nat, migrated_db) = (Ok tt, (5%nat, db1)).
Proof. vm_compute. reflexivity. Qed.

Lemma migrate_reachable : db_reachable (migrate no_faults (0%nat, empty_db)).2.2.
Proof.
  eapply (reach_step empty_db OpMigrate no_faults 0); [constructor|done|vm_compute; reflexivity].
Qed.

Lemma db_reachable_wf_witness : db_wf (migrate no_faults (0%nat, empty_db)).2.2.
Proof. exact (db_reachable_wf _ migrate_reachable). Defined.

Lemma update_account_total_witness :
  ∃ n', update_account sample_user 100 no_faults (0%nat, migrated_db) = (Ok tt, (n', db1)).
Proof.
  apply (update_account_total sample_user 100 (enc (user_tuple sample_user)) 0 migrated_db);
    [apply migrated_db_wf|reflexivity|reflexivity|unfold i64_max; lia].
Defined.

Lemma update_get_account_witness :
  get_account (Id_Name "ALICE") no_faults (9%nat, db1) = (Ok (Some (sample_user, 100)), (10%nat, db1)).
Proof.
  apply (update_get_account sample_user 100 no_faults 0 migrated_db 5 db1 (Id_Name "ALICE") no_faults 9);
    [apply migrated_db_wf|reflexivity|lia|apply db1_run|reflexivity| |reflexivity].
  intros r Hr. by apply not_elem_of_nil in Hr.
Defined.

Definition db1_pw : Tables := (update_account_password (t_uuid sample_user) "secret" sample_hmac sample_tpm no_faults (0%nat, db1)).1.2.2.
Definition db1_pw' : Tables := (update_account sample_user 200 no_faults (0%nat, db1_pw)).2.2.

Lemma password_survives_refresh_witness :
  (check_account_password (t_uuid sample_user) "secret" sample_hmac sample_tpm no_faults (0%nat, db1_pw')).1.1 ≠ Ok false.
Proof.
  apply (password_survives_refresh sample_user 200 "secret" sample_hmac sample_tpm no_faults 0 db1 1 db1_pw
           sample_tpm' no_faults 5 db1_pw' no_faults 0 sample_tpm).
  - apply db1_wf.
  - eexists. split; [left|reflexivity].
  - vm_compute. reflexivity.
  - vm_compute. reflexivity.
Defined.

Lemma no_password_denies_witness :
  (check_account_password (t_uuid sample_user) "secret" sample_hmac sample_tpm no_faults (0%nat, db1)).1.1 ≠ Ok true.
Proof.
  apply (no_password_denies (t_uuid sample_user) "secret" sample_hmac sample_tpm no_faults 0 db1).
  intros r [->|Hr]%elem_of_cons _; [reflexivity|]. by apply not_elem_of_nil in Hr.
Defined.

Lemma db1_members :
  get_group_members (g_uuid sample_group) no_faults (0%nat, db1) = (Ok [sample_user], (1%nat, db1)).
Proof. reflexivity. Qed.

Lemma group_members_sound_witness :
  hyphenated (g_uuid sample_group) ∈ group_uuids sample_user ∧
  ∃ r, r ∈ account_t db1 ∧ user_from_slice (a_token r) = Some sample_user.
Proof.
  exact (group_members_sound (g_uuid sample_group) no_faults 0 db1 [sample_user] (1%nat, db1)
           sample_user db1_wf db1_members (list_elem_of_here _ _)).
Defined.

Lemma update_account_members_witness :
  hyphenated (g_uuid sample_group) ∈ group_uuids sample_user ↔ sample_user ∈ [sample_user].
Proof.
  exact (update_account_members sample_user 100 no_faults 0 migrated_db 5 db1 (g_uuid sample_group)
           no_faults 0 [sample_user] (1%nat, db1) migrated_db_wf eq_refl db1_run db1_members).
Defined.

Lemma case_variant_lockout_witness :
  ∃ n t, (_ ← update_account sample_user 100; update_account sample_user2 100) no_faults
           (0%nat, migrated_db) = (Ok tt, (n, t)) ∧
         get_account (Id_Name "alice") no_faults (n, t)
           = (Err CacheError_TooManyResults, (n + 1, t))%nat.
Proof.
  apply (case_variant_lockout sample_user sample_user2 100 100 (enc (user_tuple sample_user))
           (enc (user_tuple sample_user2)));
    first [apply model_ext_laws | reflexivity | discriminate | unfold i64_max; lia].
Defined.
