(* ===== verification/Runtime.v ===== *)
(** * Runtime of the resolver: locks, clock, transactions, provider calls

    The state one request sees while the resolver serves it, and the monad its
    operations run in. The four mutexes of the daemon ([Db.conn], [hsm], [nxset],
    [nxcache]) are not reentrant: acquiring one the request already holds is the
    outcome [Deadlocked]. An [expect] that fails and an overflowing [SystemTime]
    addition are the outcome [Panicked]. Clock readings, failing statements and the
    file system are oracles indexed by the steps taken so far, so every theorem
    holds for all of their behaviours. *)
From stdpp Require Import base gmap strings list fin_maps.
From Stdlib Require Import ZArith Lia.
From S2P Require Import Prelude Proto Interface Db.

(** ** Interfaces *)

(** [lru::LruCache<Id, SystemTime>]: [get] may reorder the entries. *)
Class LruCache : Type := {
  Lru : Type;
  lru_new : nat → Lru;
  lru_put : Id → SystemTime → Lru → Lru;
  lru_get : Id → Lru → option SystemTime * Lru;
  lru_clear : Lru → Lru
}.

(** What the crate documents: an entry just put is found; a lookup changes no
    entry; a put changes other entries only by evicting them; a cleared or new
    cache is empty. *)
Class LruLaws (L : LruCache) : Prop := {
  lru_get_put : ∀ k v c, (lru_get k (lru_put k v c)).1 = Some v;
  lru_get_get : ∀ k k' c, (lru_get k (lru_get k' c).2).1 = (lru_get k c).1;
  lru_get_put_other : ∀ k k' v v' c, k ≠ k' →
    (lru_get k (lru_put k' v' c)).1 = Some v → (lru_get k c).1 = Some v;
  lru_get_clear : ∀ k c, (lru_get k (lru_clear c)).1 = None;
  lru_get_new : ∀ k n, (lru_get k (lru_new n)).1 = None
}.

(** What a provider call may read and change: its own state, the keys of
    [hsm_data_t] (all a [KeyStoreTxn] reaches) and the TPM. The number is the step
    at which the call happens. *)
Notation Keys := (gmap string bytes).
Definition PCall (St A : Type) := nat → St → A * St.
Definition KsCall (St A : Type) := nat → St → Keys → A * St * Keys.
Definition TpmCall `{Crypto} (St A : Type) := nat → St → Hsm → A * St * Hsm.
Definition FullCall `{Crypto} (St A : Type) := nat → St → Keys → Hsm → A * St * Keys * Hsm.

(** [trait IdProvider]. The receiver of the shutdown channel carries no data and is
    left out. *)
Class IdProvider `{X : Ext} `{C : Crypto} : Type := {
  Client : Type;
  configure_hsm_keys : MachineKey → FullCall Client (result unit IdpError);
  check_online : SystemTime → TpmCall Client bool;
  unix_user_get : Id → option UserToken → MachineKey →
    FullCall Client (result UserTokenState IdpError);
  unix_user_access : Id → list string → option UserToken → option string → option string →
    option string → MachineKey → FullCall Client (result UnixUserToken IdpError);
  unix_user_tgts : Id → option UserToken → MachineKey →
    FullCall Client (option KerberosCredentials * option KerberosCredentials *
                     option string * option string);
  unix_user_prt_cookie : Id → option UserToken → option string → MachineKey →
    FullCall Client (result string IdpError);
  prov_change_auth_token : string → UnixUserToken → string → MachineKey →
    FullCall Client (result bool IdpError);
  unix_user_online_auth_init : string → option UserToken → string → bool → bool → MachineKey →
    FullCall Client (result (AuthRequest * AuthCredHandler) IdpError);
  unix_user_online_auth_step : string → UserToken → string → bool → AuthCredHandler →
    PamAuthRequest → MachineKey →
    FullCall Client (AuthCredHandler * result (AuthResult * AuthCacheAction) IdpError);
  unix_user_offline_auth_init : string → option UserToken → bool →
    KsCall Client (result (AuthRequest * AuthCredHandler) IdpError);
  unix_user_offline_auth_step : string → UserToken → AuthCredHandler → PamAuthRequest →
    MachineKey → bool → FullCall Client (AuthCredHandler * result AuthResult IdpError);
  unix_group_get : Id → TpmCall Client (result GroupToken IdpError);
  prov_get_cachestate : option string → KsCall Client CacheState;
  prov_offline_break_glass : option Z → PCall Client (result unit IdpError);
  prov_export_broker_prts : PCall Client (option bytes);
  prov_import_broker_prts : bytes → PCall Client (option unit)
}.

(** What the operating system decides: the clock, statements that fail, [BEGIN],
    [COMMIT] and [ROLLBACK] that fail (a failed [COMMIT] leaves the transaction open
    or rolls it back), which paths exist, and whether a file can be removed. *)
Inductive CommitFault := CommitLeavesOpen | CommitRollsBack.

Class Env : Type := {
  clock : nat → SystemTime;
  sql_fault : Faults;
  begin_fault : nat → bool;
  commit_fault : nat → option CommitFault;
  rollback_fault : nat → bool;
  path_exists : string → bool;
  remove_fault : nat → bool
}.

(** ** State *)

Inductive Lock := LHsm | LDb | LNxset | LNxcache.

#[export] Instance Lock_eq_dec : EqDecision Lock.
Proof. solve_decision. Defined.

Section runtime.
Context {X : Ext} {SD : Serde} {C : Crypto} {P : IdProvider} {L : LruCache} {E : Env}.

Record World := {
  w_tick : nat;
  w_held : list Lock;
  w_conn : Conn;
  w_tpm : Hsm;
  w_client : Client;
  w_nxset : gset Id;
  w_nxcache : Lru;
  w_server_conf : bool
}.

Definition set_tick v w := Build_World v (w_held w) (w_conn w) (w_tpm w) (w_client w) (w_nxset w) (w_nxcache w) (w_server_conf w).
Definition set_held v w := Build_World (w_tick w) v (w_conn w) (w_tpm w) (w_client w) (w_nxset w) (w_nxcache w) (w_server_conf w).
Definition set_conn v w := Build_World (w_tick w) (w_held w) v (w_tpm w) (w_client w) (w_nxset w) (w_nxcache w) (w_server_conf w).
Definition set_tpm v w := Build_World (w_tick w) (w_held w) (w_conn w) v (w_client w) (w_nxset w) (w_nxcache w) (w_server_conf w).
Definition set_client v w := Build_World (w_tick w) (w_held w) (w_conn w) (w_tpm w) v (w_nxset w) (w_nxcache w) (w_server_conf w).
Definition set_nxset v w := Build_World (w_tick w) (w_held w) (w_conn w) (w_tpm w) (w_client w) v (w_nxcache w) (w_server_conf w).
Definition set_lru v w := Build_World (w_tick w) (w_held w) (w_conn w) (w_tpm w) (w_client w) (w_nxset w) v (w_server_conf w).
Definition set_server_conf v w := Build_World (w_tick w) (w_held w) (w_conn w) (w_tpm w) (w_client w) (w_nxset w) (w_nxcache w) v.

(** ** The request monad *)

Inductive outcome (A : Type) :=
| Ret (a : A) (w : World)
| Panicked
| Deadlocked.
Arguments Ret {A} a w.
Arguments Panicked {A}.
Arguments Deadlocked {A}.

Definition M (A : Type) : Type := World → outcome A.

#[export] Instance M_ret : MRet M := λ _ a w, Ret a w.
#[export] Instance M_bind : MBind M := λ _ _ k m w,
  match m w with
  | Ret a w' => k a w'
  | Panicked => Panicked
  | Deadlocked => Deadlocked
  end.

(** [m?] : an error leaves the function. *)
Definition try {A B F} (m : M (result A F)) (k : A → M (result B F)) : M (result B F) :=
  r ← m; match r with Ok a => k a | Err e => mret (Err e) end.

Definition get : M World := λ w, Ret w w.
Definition modify (f : World → World) : M unit := λ w, Ret tt (f w).
Definition panic {A} : M A := λ _, Panicked.

(** The value of an oracle at this step. *)
Definition draw {A} (o : nat → A) : M A := λ w, Ret (o (w_tick w)) (set_tick (S (w_tick w)) w).

(** ** Locks *)

Definition acquire (l : Lock) : M unit := λ w,
  if decide (l ∈ w_held w) then Deadlocked else Ret tt (set_held (l :: w_held w) w).

Definition release (l : Lock) : M unit :=
  modify (λ w, set_held (List.filter (λ x, negb (bool_decide (x = l))) (w_held w)) w).

(** ** Clock *)

Definition NS : Z := 1000000000.

(** [SystemTime::now()] *)
Definition now : M SystemTime := draw clock.

(** [t + Duration::from_secs(d)] panics when the seconds leave the range of an i64. *)
Definition add_secs (t : SystemTime) (d : Z) : M SystemTime :=
  let t' := t + d * NS in
  if t' / NS <=? i64_max then mret t' else panic.

(** [t.duration_since(UNIX_EPOCH)], then [as_secs]. *)
Definition secs_since_epoch (t : SystemTime) : option Z :=
  if 0 <=? t then Some (t / NS) else None.

(** ** Transactions *)

(** [db.write()]: take the connection's mutex, [BEGIN TRANSACTION]. *)
Definition db_write : M unit :=
  _ ← acquire LDb;
  fault ← draw begin_fault;
  w ← get;
  match conn_begin (w_conn w) with
  | Some c => if fault : bool then panic else modify (set_conn c)
  | None => panic
  end.

(** A method of the open [DbTxn]. *)
Definition db_run {A} (m : DbM A) : M (result A CacheError) := λ w,
  let '(r, (n, t)) := m sql_fault (w_tick w, conn_tables (w_conn w)) in
  Ret r (set_tick n (set_conn (conn_set t (w_conn w)) w)).

Definition db_run_hsm {A} (m : DbHsmM A) : M (result A CacheError) := λ w,
  let '((r, (n, t)), h) := m (w_tpm w) sql_fault (w_tick w, conn_tables (w_conn w)) in
  Ret r (set_tick n (set_tpm h (set_conn (conn_set t (w_conn w)) w))).

(** [dbtxn.commit()]: the transaction counts as committed whatever [COMMIT] does,
    so that dropping it does not roll back; the mutex is released. *)
Definition db_commit : M (result unit CacheError) :=
  fault ← draw commit_fault;
  w ← get;
  r ← match txn (w_conn w), fault with
      | Some _, None => _ ← modify (set_conn (conn_commit (w_conn w))); mret (Ok tt)
      | Some _, Some CommitRollsBack =>
          _ ← modify (set_conn (conn_rollback (w_conn w))); mret (Err CacheError_Sqlite)
      | _, _ => mret (Err CacheError_Sqlite)
      end;
  _ ← release LDb;
  mret r.

(** Dropping a transaction that was not committed: [ROLLBACK], which must succeed. *)
Definition db_drop : M unit :=
  fault ← draw rollback_fault;
  w ← get;
  match txn (w_conn w) with
  | Some _ =>
      if fault : bool then panic
      else _ ← modify (set_conn (conn_rollback (w_conn w))); release LDb
  | None => panic
  end.

(** [dbtxn.op().and_then(|x| dbtxn.commit().map(|_| x)).map_err(|_| ())]: an error
    of [op] drops the transaction. *)
Definition and_commit {A} (r : result A CacheError) : M (result A unit) :=
  match r with
  | Ok a => c ← db_commit; mret (match c with Ok _ => Ok a | Err _ => Err tt end)
  | Err _ => _ ← db_drop; mret (Err tt)
  end.

(** ** Provider calls *)

Definition keys (w : World) : Keys := hsm_data_t (conn_tables (w_conn w)).
Definition set_keys (k : Keys) (w : World) : World :=
  set_conn (conn_set (set_hsm_data_t k (conn_tables (w_conn w))) (w_conn w)) w.

Definition call {A} (f : PCall Client A) : M A := λ w,
  let '(a, c) := f (w_tick w) (w_client w) in
  Ret a (set_tick (S (w_tick w)) (set_client c w)).

Definition call_ks {A} (f : KsCall Client A) : M A := λ w,
  let '(a, c, k) := f (w_tick w) (w_client w) (keys w) in
  Ret a (set_tick (S (w_tick w)) (set_client c (set_keys k w))).

Definition call_tpm {A} (f : TpmCall Client A) : M A := λ w,
  let '(a, c, h) := f (w_tick w) (w_client w) (w_tpm w) in
  Ret a (set_tick (S (w_tick w)) (set_client c (set_tpm h w))).

Definition call_full {A} (f : FullCall Client A) : M A := λ w,
  let '(a, c, k, h) := f (w_tick w) (w_client w) (keys w) (w_tpm w) in
  Ret a (set_tick (S (w_tick w)) (set_client c (set_tpm h (set_keys k w)))).

End runtime.

Arguments Ret {X C P L A} a w.
Arguments Panicked {X C P L A}.
Arguments Deadlocked {X C P L A}.

Notation "x ←? m ; k" := (try m (λ x, k))
  (at level 20, m at level 100, k at level 200, only parsing) : rust_scope.
