(* ===== verification/Resolver.v ===== *)
(** * The resolver: [src/common/src/resolver.rs]

    One definition per method of [Resolver], in the monad of [Runtime]: the lock and
    transaction discipline, the provider calls, the early returns and the cache
    updates happen in the order of the code. The immutable fields of the struct are
    the record [Resolver]; its mutable ones ([db], [hsm], [client], [nxset],
    [nxcache]) are fields of [World]. *)
From stdpp Require Import base gmap strings list fin_maps fin_sets.
From Stdlib Require Import ZArith Lia Ascii.
From S2P Require Import Prelude Proto Interface Db Runtime.

Open Scope rust_scope.

Definition NXCACHE_SIZE : nat := 128.

Section resolver.
Context {X : Ext} {SD : Serde} {C : Crypto} {P : IdProvider} {L : LruCache} {E : Env}.

Inductive AuthSession :=
| AuthSession_InProgress (account_id service : string) (id : Id) (token : option UserToken)
    (online_at_init : bool) (cred_handler : AuthCredHandler) (no_hello_pin force_reauth : bool)
| AuthSession_Success (spn : string)
| AuthSession_Denied.

Record Resolver := {
  machine_key : MachineKey;
  hmac_key : HmacKey;
  pam_allow_groups : gset string;
  timeout_seconds : Z;
  default_shell : string;
  home_prefix : string;
  home_attr : HomeAttr;
  home_alias : option HomeAttr;
  uid_attr_map : UidAttr;
  gid_attr_map : UidAttr;
  allow_id_overrides : gset Id
}.

(** [Resolver::new]: the stored HMAC key, or a new one. *)
Definition load_or_create_hmac_key (mk : MachineKey) : M (result LoadableHmacKey unit) :=
  r ← db_run get_hsm_hmac_key;
  match r with
  | Ok (Some hmk) => mret (Ok hmk)
  | Ok None =>
      w ← get;
      let '(k, h) := hmac_s256_create mk (w_tpm w) in
      _ ← modify (set_tpm h);
      match k with
      | None => mret (Err tt)
      | Some k =>
          i ← db_run (insert_hsm_hmac_key k);
          mret (match i with Ok _ => Ok k | Err _ => Err tt end)
      end
  | Err _ => mret (Err tt)
  end.

(** Leaving [new] on an error while both guards are alive. *)
Definition new_abort {A} : M (result A unit) :=
  _ ← db_drop; _ ← release LHsm; mret (Err tt).

Definition new (mk : MachineKey) (timeout : Z) (allow_groups : list string)
  (shell prefix : string) (attr : HomeAttr) (alias : option HomeAttr) (uid_map gid_map : UidAttr)
  (overrides : list string) : M (result Resolver unit) :=
  _ ← acquire LHsm;
  _ ← db_write;
  loadable ← load_or_create_hmac_key mk;
  match loadable with
  | Err _ => new_abort
  | Ok loadable =>
      w ← get;
      let '(k, h) := hmac_s256_load mk loadable (w_tpm w) in
      _ ← modify (set_tpm h);
      match k with
      | None => new_abort
      | Some k =>
          res ← call_full (configure_hsm_keys mk);
          _ ← release LHsm;
          match res with
          | Err _ => _ ← db_drop; mret (Err tt)
          | Ok _ =>
              c ← db_commit;
              match c with
              | Err _ => mret (Err tt)
              | Ok _ =>
                  _ ← modify (λ w, set_nxset ∅ (set_lru (lru_new NXCACHE_SIZE) w));
                  mret (Ok {| machine_key := mk; hmac_key := k;
                              pam_allow_groups := list_to_set allow_groups;
                              timeout_seconds := timeout; default_shell := shell;
                              home_prefix := prefix; home_attr := attr; home_alias := alias;
                              uid_attr_map := uid_map; gid_attr_map := gid_map;
                              allow_id_overrides := list_to_set (Id_Name <$> overrides) |})
              end
          end
      end
  end.

Variable self : Resolver.

(** ** Cache state, cache-wide operations *)

Definition export_broker_prts : M (option bytes) := call prov_export_broker_prts.

Definition import_broker_prts (data : bytes) : M (option unit) :=
  call (prov_import_broker_prts data).

Definition get_cachestate (account_id : option string) : M CacheState :=
  _ ← db_write;
  res ← call_ks (prov_get_cachestate account_id);
  _ ← db_commit;
  mret res.

Definition clear_cache : M (result unit unit) :=
  _ ← acquire LNxcache;
  _ ← modify (λ w, set_lru (lru_clear (w_nxcache w)) w);
  _ ← db_write;
  r ← db_run (_ ← clear; clear_hello_keys);
  c ← and_commit r;
  match c with
  | Err _ => _ ← release LNxcache; mret (Err tt)
  | Ok _ =>
      w ← get;
      r ← (if w_server_conf w then
             fault ← draw remove_fault;
             if fault : bool then mret (Err tt)
             else _ ← modify (set_server_conf false); mret (Ok tt)
           else mret (Ok tt));
      _ ← release LNxcache;
      mret r
  end.

Definition invalidate_cache : M (result unit unit) :=
  _ ← acquire LNxcache;
  _ ← modify (λ w, set_lru (lru_clear (w_nxcache w)) w);
  _ ← db_write;
  r ← db_run invalidate;
  c ← and_commit r;
  _ ← release LNxcache;
  mret c.

(** A read-only transaction: it is dropped, not committed. *)
Definition db_read {A} (m : DbM A) : M (result A CacheError) :=
  _ ← db_write; r ← db_run m; _ ← db_drop; mret r.

Definition get_cached_usertokens : M (result (list UserToken) unit) :=
  r ← db_read get_accounts; mret (result_map_err (λ _, tt) r).

Definition get_cached_grouptokens : M (result (list GroupToken) unit) :=
  r ← db_read get_groups; mret (result_map_err (λ _, tt) r).

(** ** The negative cache and the exclusion set *)

Definition set_nxcache (id : Id) : M unit :=
  _ ← acquire LNxcache;
  t ← now;
  ex_time ← add_secs t (timeout_seconds self);
  _ ← modify (λ w, set_lru (lru_put id ex_time (w_nxcache w)) w);
  release LNxcache.

Definition check_nxcache (id : Id) : M (option SystemTime) :=
  _ ← acquire LNxcache;
  w ← get;
  let '(r, c) := lru_get id (w_nxcache w) in
  _ ← modify (set_lru c);
  _ ← release LNxcache;
  mret r.

Definition nxset_add (s : gset Id) (entry : string * Z) : gset Id :=
  let name := Id_Name entry.1 in
  let gid := Id_Gid entry.2 in
  if bool_decide (gid ∈ allow_id_overrides self) || bool_decide (name ∈ allow_id_overrides self)
  then s else {[gid]} ∪ ({[name]} ∪ s).

Definition reload_nxset (iter : list (string * Z)) : M unit :=
  _ ← acquire LNxset;
  _ ← modify (set_nxset (foldl nxset_add ∅ iter));
  release LNxset.

Definition in_nxset (s : gset Id) (name : option string) (idnumber : option Z) : bool :=
  match name with Some n => bool_decide (Id_Name n ∈ s) | None => false end ||
  match idnumber with Some g => bool_decide (Id_Gid g ∈ s) | None => false end.

Definition check_nxset (name : option string) (idnumber : option Z) : M bool :=
  _ ← acquire LNxset;
  w ← get;
  _ ← release LNxset;
  mret (in_nxset (w_nxset w) name idnumber).

(** The guard at the head of the methods that take an [Id]. *)
Definition check_nxset_id (account_id : Id) : M bool :=
  match account_id with
  | Id_Name name => check_nxset (Some name) None
  | Id_Gid idnumber => check_nxset None (Some idnumber)
  end.

(** ** Reading the cache *)

(** The tail of [get_cached_usertoken] and [get_cached_grouptoken]: whether the
    row, or else the negative entry, has expired. *)
Definition cached_result {A} (id : Id) (r : option (A * Z)) : M (bool * option A) :=
  match r with
  | Some (ut, ex) =>
      ex_time ← add_secs 0 ex;
      t ← now;
      mret (ex_time <=? t, Some ut)
  | None =>
      e ← check_nxcache id;
      match e with
      | Some ex_time => t ← now; mret (ex_time <=? t, None)
      | None => mret (true, None)
      end
  end.

Definition get_cached_usertoken (account_id : Id) : M (result (bool * option UserToken) unit) :=
  _ ← db_write;
  r ← db_run (get_account account_id);
  match r with
  | Err _ => _ ← db_drop; mret (Err tt)
  | Ok r => x ← cached_result account_id r; _ ← db_drop; mret (Ok x)
  end.

Definition get_cached_grouptoken (grp_id : Id) : M (result (bool * option GroupToken) unit) :=
  _ ← db_write;
  r ← db_run (get_group grp_id);
  match r with
  | Err _ => _ ← db_drop; mret (Err tt)
  | Ok r => x ← cached_result grp_id r; _ ← db_drop; mret (Ok x)
  end.

(** ** Writing the cache *)

(** [now + timeout], as seconds since the epoch. *)
Definition expiry_offset : M (option Z) :=
  t ← now;
  ex_time ← add_secs t (timeout_seconds self);
  mret (secs_since_epoch ex_time).

Definition with_shell (token : UserToken) : UserToken :=
  let exists_ := match t_shell token with Some s => path_exists s | None => false end in
  if exists_ then token
  else Build_UserToken (t_name token) (t_spn token) (t_uuid token) (t_real_gidnumber token)
         (t_gidnumber token) (t_displayname token) (Some (default_shell self)) (t_groups token)
         (t_tenant_id token) (t_valid token).

Definition retain_groups (s : gset Id) (token : UserToken) : UserToken :=
  Build_UserToken (t_name token) (t_spn token) (t_uuid token) (t_real_gidnumber token)
    (t_gidnumber token) (t_displayname token) (t_shell token)
    (List.filter (λ g, negb (bool_decide (Id_Gid (g_gidnumber g) ∈ s)
                             || bool_decide (Id_Name (g_name g) ∈ s))) (t_groups token))
    (t_tenant_id token) (t_valid token).

(** The groups first, so that the account can make the relationships. *)
Definition store_usertoken (token : UserToken) (offset : Z) : DbM unit :=
  _ ← try_for_each (λ g, update_group g offset) (t_groups token);
  update_account token offset.

(** [set_cache_usertoken(&mut token)]: on success, the token as it was changed. *)
Definition set_cache_usertoken (token : UserToken) : M (result UserToken unit) :=
  offset ← expiry_offset;
  match offset with
  | None => mret (Err tt)
  | Some offset =>
      let token := with_shell token in
      _ ← acquire LNxset;
      w ← get;
      let token := retain_groups (w_nxset w) token in
      _ ← release LNxset;
      _ ← db_write;
      r ← db_run (store_usertoken token offset);
      c ← and_commit r;
      mret (match c with Ok _ => Ok token | Err _ => Err tt end)
  end.

Definition set_cache_grouptoken (token : GroupToken) : M (result unit unit) :=
  offset ← expiry_offset;
  match offset with
  | None => mret (Err tt)
  | Some offset =>
      _ ← db_write;
      r ← db_run (update_group token offset);
      and_commit r
  end.

Definition delete_cache_usertoken (a_uuid_ : Uuid) : M (result unit unit) :=
  _ ← db_write; r ← db_run (delete_account a_uuid_); and_commit r.

Definition delete_cache_grouptoken (g_uuid_ : Uuid) : M (result unit unit) :=
  _ ← db_write; r ← db_run (delete_group g_uuid_); and_commit r.

(** The two password methods take the connection, then the TPM; the guards are
    dropped in the opposite order. *)
Definition set_cache_userpassword (a_uuid_ : Uuid) (cred : string) : M (result unit unit) :=
  _ ← db_write;
  _ ← acquire LHsm;
  r ← db_run_hsm (update_account_password a_uuid_ cred (hmac_key self));
  c ← match r with
      | Ok x => d ← db_commit; _ ← release LHsm; mret (match d with Ok _ => Ok x | Err _ => Err tt end)
      | Err _ => _ ← release LHsm; _ ← db_drop; mret (Err tt)
      end;
  mret c.

Definition check_cache_userpassword (a_uuid_ : Uuid) (cred : string) : M (result bool unit) :=
  _ ← db_write;
  _ ← acquire LHsm;
  r ← db_run_hsm (check_account_password a_uuid_ cred (hmac_key self));
  c ← match r with
      | Ok x => d ← db_commit; _ ← release LHsm; mret (match d with Ok _ => Ok x | Err _ => Err tt end)
      | Err _ => _ ← release LHsm; _ ← db_drop; mret (Err tt)
      end;
  mret c.

(** A provider call made with the TPM and a transaction, in that order; the
    transaction is committed after the TPM is released. *)
Definition provider_txn {A} (f : FullCall Client A) : M (A * result unit CacheError) :=
  _ ← acquire LHsm;
  _ ← db_write;
  a ← call_full f;
  _ ← release LHsm;
  c ← db_commit;
  mret (a, c).

Definition refresh_usertoken (account_id : Id) (token : option UserToken)
  : M (result (option UserToken) unit) :=
  rc ← provider_txn (unix_user_get account_id token (machine_key self));
  match rc with
  | (_, Err _) => mret (Err tt)
  | (Ok (UserTokenState_Update n_tok), Ok _) =>
      n_tok ←? set_cache_usertoken n_tok;
      mret (Ok (Some n_tok))
  | (Ok UserTokenState_NotFound, Ok _) =>
      _ ←? match token with Some tok => delete_cache_usertoken (t_uuid tok) | None => mret (Ok tt) end;
      _ ← set_nxcache account_id;
      mret (Ok None)
  | (Ok UserTokenState_UseCached, Ok _) => mret (Ok token)
  | (Err _, Ok _) => mret (Ok token)
  end.

Definition refresh_grouptoken (grp_id : Id) (token : option GroupToken)
  : M (result (option GroupToken) unit) :=
  _ ← acquire LHsm;
  r ← call_tpm (unix_group_get grp_id);
  _ ← release LHsm;
  match r with
  | Ok n_tok =>
      denied ← check_nxset (Some (g_name n_tok)) (Some (g_gidnumber n_tok));
      if denied : bool then
        _ ←? delete_cache_grouptoken (g_uuid n_tok); mret (Ok None)
      else
        _ ←? set_cache_grouptoken n_tok; mret (Ok (Some n_tok))
  | Err _ => mret (Ok token)
  end.

Definition test_connection : M bool :=
  state ← get_cachestate None;
  match state with
  | CacheState_Offline => mret false
  | CacheState_OfflineNextCheck _ =>
      _ ← acquire LHsm;
      t ← now;
      res ← call_tpm (check_online t);
      _ ← release LHsm;
      mret res
  | CacheState_Online => mret true
  end.

(** ** Tokens *)

(** [match (expired, state)], for a lookup whose refresh is [refresh]. *)
Definition refresh_policy {A} (expired : bool) (state : CacheState) (item : A)
  (refresh : M (result A unit)) : M (result A unit) :=
  match expired, state with
  | _, CacheState_Offline => mret (Ok item)
  | false, CacheState_OfflineNextCheck _ => mret (Ok item)
  | false, CacheState_Online => mret (Ok item)
  | true, CacheState_OfflineNextCheck time =>
      t ← now;
      if time <=? t then
        online ← test_connection;
        if online : bool then refresh else mret (Ok item)
      else mret (Ok item)
  | true, CacheState_Online => refresh
  end.

(** The account whose state decides whether a lookup may go to the provider. *)
Definition state_account (account_id : Id) (item : option UserToken) : option string :=
  match account_id with
  | Id_Name name => Some name
  | Id_Gid _ => match item with Some token => Some (t_spn token) | None => None end
  end.

Definition get_usertoken (account_id : Id) : M (result (option UserToken) unit) :=
  denied ← check_nxset_id account_id;
  if denied : bool then mret (Ok None)
  else
    x ←? get_cached_usertoken account_id;
    let '(expired, item) := x in
    state ← get_cachestate (state_account account_id item);
    refresh_policy expired state item (refresh_usertoken account_id item).

Definition get_grouptoken (grp_id : Id) : M (result (option GroupToken) unit) :=
  x ←? get_cached_grouptoken grp_id;
  let '(expired, item) := x in
  let state := CacheState_Offline in
  refresh_policy expired state item (refresh_grouptoken grp_id item).

(** ** Provider services that need a known, non-local account *)

(** The guard and token lookup that open the three methods below. *)
Definition user_service {A} (account_id : Id) (k : UserToken → M (option A)) : M (option A) :=
  denied ← check_nxset_id account_id;
  if denied : bool then mret None
  else
    r ← get_usertoken account_id;
    match r with
    | Ok (Some token) => k token
    | _ => mret None
    end.

Definition get_user_accesstoken (account_id : Id) (scopes : list string)
  (client_id redirect_uri req_cnf : option string) : M (option UnixUserToken) :=
  user_service account_id (λ token,
    rc ← provider_txn (unix_user_access account_id scopes (Some token) client_id redirect_uri
                         req_cnf (machine_key self));
    mret (match rc with
          | (_, Err _) => None
          | (Ok token, Ok _) => Some token
          | (Err _, Ok _) => None
          end)).

Definition get_user_tgts (account_id : Id)
  : M (option (Z * Z * (option KerberosCredentials * option KerberosCredentials *
                        option string * option string))) :=
  user_service account_id (λ token,
    rc ← provider_txn (unix_user_tgts account_id (Some token) (machine_key self));
    mret (match rc with
          | (_, Err _) => None
          | (tgts, Ok _) =>
              Some (t_gidnumber token, default (t_gidnumber token) (t_real_gidnumber token), tgts)
          end)).

Definition get_user_prt_cookie (account_id : Id) (sso_nonce : option string) : M (option string) :=
  user_service account_id (λ token,
    rc ← provider_txn (unix_user_prt_cookie account_id (Some token) sso_nonce (machine_key self));
    mret (match rc with
          | (_, Err _) => None
          | (Ok cookie, Ok _) => Some cookie
          | (Err _, Ok _) => None
          end)).

Definition change_auth_token (account_id : string) (token : UnixUserToken) (new_tok : string)
  : M (result bool unit) :=
  denied ← check_nxset (Some account_id) None;
  if denied : bool then mret (Ok false)
  else
    rc ← provider_txn (prov_change_auth_token account_id token new_tok (machine_key self));
    mret (match rc with
          | (_, Err _) => Err tt
          | (res, Ok _) => result_map_err (λ _, tt) res
          end).

Definition offline_break_glass (ttl : option Z) : M (result unit unit) :=
  res ← call (prov_offline_break_glass ttl);
  mret (result_map_err (λ _, tt) res).

(** ** NSS *)

Definition home_of_attr (a : HomeAttr) (token : UserToken) : string :=
  match a with
  | HomeAttr_Uuid => hyphenated (t_uuid token)
  | HomeAttr_Spn => t_spn token
  | HomeAttr_Name => t_name token
  | HomeAttr_Cn => hd "" (split_char "@"%char (t_spn token))
  end.

Definition token_homedirectory_alias (token : UserToken) : option string :=
  (λ a, home_of_attr a token) <$> home_alias self.

Definition token_homedirectory_attr (token : UserToken) : string :=
  home_of_attr (home_attr self) token.

Definition token_homedirectory (token : UserToken) : string :=
  default (token_homedirectory_attr token) (token_homedirectory_alias token).

Definition token_abs_homedirectory (token : UserToken) : string :=
  home_prefix self +:+ token_homedirectory token.

Definition token_uidattr (token : UserToken) : string :=
  match uid_attr_map self with
  | UidAttr_Spn => t_spn token
  | UidAttr_Name => t_name token
  end.

Definition token_gidattr (token : GroupToken) : string :=
  match gid_attr_map self with
  | UidAttr_Spn => g_spn token
  | UidAttr_Name => g_name token
  end.

Definition get_groupmembers (g_uuid_ : Uuid) : M (list string) :=
  r ← db_read (get_group_members g_uuid_);
  mret (token_uidattr <$> default [] (result_ok r)).

Definition nss_user (tok : UserToken) : NssUser := {|
  nu_name := token_uidattr tok;
  nu_uid := t_gidnumber tok;
  nu_gid := default (t_gidnumber tok) (t_real_gidnumber tok);
  nu_gecos := t_displayname tok;
  nu_homedir := token_abs_homedirectory tok;
  nu_shell := default (default_shell self) (t_shell tok)
|}.

Definition get_nssaccounts : M (result (list NssUser) unit) :=
  l ←? get_cached_usertokens;
  mret (Ok (nss_user <$> l)).

Definition get_nssaccount (account_id : Id) : M (result (option NssUser) unit) :=
  token ←? get_usertoken account_id;
  mret (Ok (nss_user <$> token)).

Definition get_nssaccount_name (account_id : string) := get_nssaccount (Id_Name account_id).
Definition get_nssaccount_gid (gid : Z) := get_nssaccount (Id_Gid gid).

Definition nss_group (tok : GroupToken) : M NssGroup :=
  members ← get_groupmembers (g_uuid tok);
  mret {| ng_name := token_gidattr tok; ng_gid := g_gidnumber tok; ng_members := members |}.

Definition get_nssgroups : M (result (list NssGroup) unit) :=
  l ←? get_cached_grouptokens;
  r ← mapM nss_group l;
  mret (Ok r).

Definition get_nssgroup (grp_id : Id) : M (result (option NssGroup) unit) :=
  token ←? get_grouptoken grp_id;
  match token with
  | Some tok => g ← nss_group tok; mret (Ok (Some g))
  | None => mret (Ok None)
  end.

Definition get_nssgroup_name (grp_id : string) := get_nssgroup (Id_Name grp_id).
Definition get_nssgroup_gid (gid : Z) := get_nssgroup (Id_Gid gid).

Definition get_initgroups (account_id : string) : M (result (option (list Z)) unit) :=
  token ←? get_usertoken (Id_Name account_id);
  mret (Ok ((λ tok, g_gidnumber <$> t_groups tok) <$> token)).

(** ** PAM *)

Definition user_set (account_id : string) (tok : UserToken) : gset string :=
  list_to_set (((λ g, hyphenated (g_uuid g)) <$> t_groups tok) ++ [account_id]).

Definition token_allowed (account_id : string) (tok : UserToken) : bool :=
  let intersection_count := size (user_set account_id tok ∩ pam_allow_groups self) in
  Nat.ltb 0 intersection_count && t_valid tok.

Definition pam_account_allowed (account_id : string) : M (result (option bool) unit) :=
  token ←? get_usertoken (Id_Name account_id);
  if bool_decide (pam_allow_groups self = ∅) then mret (Ok (Some true))
  else mret (Ok (token_allowed account_id <$> token)).

Definition OFFLINE_REAUTH_MSG : string := "Re-authentication requires network connectivity.".

Definition not_found_msg (what where_ : string) : string :=
  "NotFound: " +:+ what +:+ " in " +:+ where_.

(** [pam_account_authenticate_init], the online branch: the guards of the TPM and of
    the transaction are alive until its end, and nothing commits. *)
Definition online_init (account_id service : string) (token : option UserToken)
  (no_hello_pin force_reauth : bool) : M (result (AuthRequest * AuthCredHandler) IdpError) :=
  _ ← acquire LHsm;
  _ ← db_write;
  r ← call_full (unix_user_online_auth_init account_id token service no_hello_pin force_reauth
                   (machine_key self));
  res ← match r with
        | Ok res => mret (Ok res)
        | Err e =>
            if force_reauth then mret (Err e)
            else
              state ← get_cachestate (Some account_id);
              match state with
              | CacheState_Offline | CacheState_OfflineNextCheck _ =>
                  call_ks (unix_user_offline_auth_init account_id token no_hello_pin)
              | CacheState_Online => mret (Err e)
              end
        end;
  _ ← db_drop;
  _ ← release LHsm;
  mret res.

Definition offline_init (account_id : string) (token : option UserToken) (no_hello_pin : bool)
  : M (result (AuthRequest * AuthCredHandler) IdpError) :=
  _ ← db_write;
  r ← call_ks (unix_user_offline_auth_init account_id token no_hello_pin);
  _ ← db_drop;
  mret r.

Definition init_finish (account_id service : string) (token : option UserToken)
  (online_at_init no_hello_pin force_reauth : bool)
  (maybe_err : result (AuthRequest * AuthCredHandler) IdpError)
  : result (AuthSession * PamAuthResponse) unit :=
  match maybe_err with
  | Ok (next_req, cred_handler) =>
      Ok (AuthSession_InProgress account_id service (Id_Name account_id) token online_at_init
            cred_handler no_hello_pin force_reauth,
          auth_request_into next_req)
  | Err (IdpError_NotFound what where_) =>
      Ok (AuthSession_Denied, PamAuthResponse_Denied (not_found_msg what where_))
  | Err _ => Err tt
  end.

(** The cached token, or a refresh when NSS has not been called yet. *)
Definition init_token (account_id : string) : M (result (option UserToken) unit) :=
  x ←? get_cached_usertoken (Id_Name account_id);
  match x.2 with
  | Some token => mret (Ok (Some token))
  | None => refresh_usertoken (Id_Name account_id) None
  end.

Definition init_online (account_id : string) : M bool :=
  state ← get_cachestate (Some account_id);
  match state with
  | CacheState_Online => mret true
  | _ => test_connection
  end.

Definition pam_account_authenticate_init (account_id service : string)
  (no_hello_pin force_reauth : bool) : M (result (AuthSession * PamAuthResponse) unit) :=
  denied ← check_nxset (Some account_id) None;
  if denied : bool then mret (Ok (AuthSession_Denied, PamAuthResponse_Unknown))
  else
    token ←? init_token account_id;
    online_at_init ← init_online account_id;
    if online_at_init : bool then
      r ← online_init account_id service token no_hello_pin force_reauth;
      mret (init_finish account_id service token online_at_init no_hello_pin force_reauth r)
    else if force_reauth then
      mret (Ok (AuthSession_Denied, PamAuthResponse_InitDenied OFFLINE_REAUTH_MSG))
    else
      r ← offline_init account_id token no_hello_pin;
      mret (init_finish account_id service token online_at_init no_hello_pin force_reauth r).

(** In [pam_account_authenticate_step] a branch either yields [maybe_err] or returns
    from the method. *)
Inductive step_flow :=
| Yield (maybe_err : result AuthResult IdpError)
| Return (r : result PamAuthResponse unit).

(** What the provider's cache action asks of the password cache. *)
Definition apply_cache_action (token : UserToken)
  (r : result (AuthResult * AuthCacheAction) IdpError) : M step_flow :=
  match r with
  | Ok (res, AuthCacheAction_None) => mret (Yield (Ok res))
  | Ok (AuthResult_Success token, AuthCacheAction_PasswordHashUpdate cred) =>
      s ← set_cache_userpassword (t_uuid token) cred;
      mret (match s with Ok _ => Yield (Ok (AuthResult_Success token)) | Err _ => Return (Err tt) end)
  | Ok (AuthResult_Next next, AuthCacheAction_PasswordHashUpdate cred) =>
      s ← set_cache_userpassword (t_uuid token) cred;
      mret (match s with Ok _ => Yield (Ok (AuthResult_Next next)) | Err _ => Return (Err tt) end)
  | Ok (_, AuthCacheAction_PasswordHashUpdate _) => mret (Yield (Err IdpError_BadRequest))
  | Err e => mret (Yield (Err e))
  end.

Definition online_step (account_id service : string) (token : UserToken) (no_hello_pin : bool)
  (cred_handler : AuthCredHandler) (req : PamAuthRequest) : M (AuthCredHandler * step_flow) :=
  rc ← provider_txn (unix_user_online_auth_step account_id token service no_hello_pin cred_handler
                       req (machine_key self));
  let '((cred_handler, r), c) := rc in
  match c with
  | Err _ => mret (cred_handler, Return (Err tt))
  | Ok _ => f ← apply_cache_action token r; mret (cred_handler, f)
  end.

Definition offline_password (token : UserToken) (cred : string) : M step_flow :=
  r ← check_cache_userpassword (t_uuid token) cred;
  mret (match r with
        | Ok true => Yield (Ok (AuthResult_Success token))
        | Ok false => Yield (Ok (AuthResult_Denied "Offline auth failed"))
        | Err _ => Return (Err tt)
        end).

Definition offline_provider_step (account_id : string) (token : UserToken) (online_at_init : bool)
  (cred_handler : AuthCredHandler) (req : PamAuthRequest) : M (AuthCredHandler * step_flow) :=
  rc ← provider_txn (unix_user_offline_auth_step account_id token cred_handler req
                       (machine_key self) online_at_init);
  let '((cred_handler, r), c) := rc in
  mret (cred_handler, match c with Err _ => Return (Err tt) | Ok _ => Yield r end).

Definition offline_step (account_id : string) (token : UserToken) (online_at_init : bool)
  (cred_handler : AuthCredHandler) (force_reauth : bool) (req : PamAuthRequest)
  : M (AuthCredHandler * step_flow) :=
  if force_reauth then
    mret (cred_handler, Return (Ok (PamAuthResponse_Denied OFFLINE_REAUTH_MSG)))
  else
    match cred_handler, req with
    | _, PamAuthRequest_Password cred => f ← offline_password token cred; mret (cred_handler, f)
    | AuthCredHandler_MFA _ _ _ _, _ => mret (cred_handler, Return (Err tt))
    | AuthCredHandler_SetupPin _, _ => mret (cred_handler, Return (Err tt))
    | AuthCredHandler_ChangePassword _, _ => mret (cred_handler, Return (Err tt))
    | _, PamAuthRequest_Pin _ | _, PamAuthRequest_HelloTOTP _ =>
        offline_provider_step account_id token online_at_init cred_handler req
    | AuthCredHandler_HelloTOTP _ _, _ => mret (cred_handler, Return (Err tt))
    | AuthCredHandler_None, PamAuthRequest_MFACode _ => mret (cred_handler, Return (Err tt))
    | AuthCredHandler_None, PamAuthRequest_MFAPoll _ => mret (cred_handler, Return (Err tt))
    | AuthCredHandler_None, PamAuthRequest_SetupPin _ => mret (cred_handler, Return (Err tt))
    | AuthCredHandler_None, PamAuthRequest_Fido _ => mret (cred_handler, Return (Err tt))
    | AuthCredHandler_None, PamAuthRequest_FidoUnavailable => mret (cred_handler, Return (Err tt))
    | AuthCredHandler_PasswordFirst _ _, _ => mret (cred_handler, Return (Err tt))
    | AuthCredHandler_ReauthPassword _, _ => mret (cred_handler, Return (Err tt))
    end.

Definition step_state (auth_session : AuthSession) : M CacheState :=
  match auth_session with
  | AuthSession_InProgress account_id _ _ _ _ _ _ _ => get_cachestate (Some account_id)
  | _ => get_cachestate None
  end.

(** [match (&mut *auth_session, state)]: the session with the credential handler the
    provider left in it, and the flow. *)
Definition step_dispatch (auth_session : AuthSession) (state : CacheState) (req : PamAuthRequest)
  : M (AuthSession * step_flow) :=
  match auth_session, state with
  | AuthSession_InProgress account_id service id (Some token) true cred_handler no_hello_pin
      force_reauth, CacheState_Online =>
      hf ← online_step account_id service token no_hello_pin cred_handler req;
      mret (AuthSession_InProgress account_id service id (Some token) true hf.1 no_hello_pin
              force_reauth, hf.2)
  | AuthSession_InProgress account_id service id (Some token) online_at_init cred_handler
      no_hello_pin force_reauth, _ =>
      hf ← offline_step account_id token online_at_init cred_handler force_reauth req;
      mret (AuthSession_InProgress account_id service id (Some token) online_at_init hf.1
              no_hello_pin force_reauth, hf.2)
  | AuthSession_InProgress _ _ _ None _ _ _ _, _ =>
      mret (auth_session, Yield (Err (IdpError_NotFound "token" "AuthSession")))
  | AuthSession_Success _, _ | AuthSession_Denied, _ =>
      mret (auth_session, Yield (Err IdpError_BadRequest))
  end.

(** [match maybe_err]: release the token, deny, ask for more, or fail. *)
Definition step_finish (auth_session : AuthSession) (maybe_err : result AuthResult IdpError)
  : M (AuthSession * result PamAuthResponse unit) :=
  match maybe_err with
  | Ok (AuthResult_Success token) =>
      denied ← check_nxset (Some (t_name token)) (Some (t_gidnumber token));
      if denied : bool then
        d ← delete_cache_usertoken (t_uuid token);
        mret (match d with
              | Ok _ => (AuthSession_Denied, Ok PamAuthResponse_Unknown)
              | Err _ => (auth_session, Err tt)
              end)
      else
        s ← set_cache_usertoken token;
        mret (match s with
              | Ok token => (AuthSession_Success (t_spn token), Ok PamAuthResponse_Success)
              | Err _ => (auth_session, Err tt)
              end)
  | Ok (AuthResult_Denied msg) => mret (AuthSession_Denied, Ok (PamAuthResponse_Denied msg))
  | Ok (AuthResult_Next req) => mret (auth_session, Ok (auth_request_into req))
  | Err (IdpError_NotFound what where_) =>
      mret (auth_session, Ok (PamAuthResponse_Denied (not_found_msg what where_)))
  | Err _ => mret (auth_session, Err tt)
  end.

Definition pam_account_authenticate_step (auth_session : AuthSession)
  (pam_next_req : PamAuthRequest) : M (AuthSession * result PamAuthResponse unit) :=
  state ← step_state auth_session;
  sf ← step_dispatch auth_session state pam_next_req;
  match sf with
  | (auth_session, Yield maybe_err) => step_finish auth_session maybe_err
  | (auth_session, Return r) => mret (auth_session, r)
  end.

Definition pam_try_unseal (account_id cred : string) : M (result bool unit) :=
  x ←? pam_account_authenticate_init account_id "try_unseal" false false;
  let '(auth_session, init_resp) := x in
  match init_resp with
  | PamAuthResponse_Pin =>
      sr ← pam_account_authenticate_step auth_session (PamAuthRequest_Pin cred);
      mret (match sr.2 with
            | Err _ => Err tt
            | Ok PamAuthResponse_Success => Ok true
            | Ok _ => Ok false
            end)
  | PamAuthResponse_Success => mret (Ok true)
  | _ => mret (Ok false)
  end.

Definition pam_account_beginsession (account_id : string)
  : M (result (option HomeDirectoryInfo) unit) :=
  token ←? get_usertoken (Id_Name account_id);
  mret (Ok ((λ tok, {|
    hd_uid := t_gidnumber tok;
    hd_gid := default (t_gidnumber tok) (t_real_gidnumber tok);
    hd_name := token_homedirectory_attr tok;
    hd_aliases := match token_homedirectory_alias tok with Some s => [s] | None => [] end
  |}) <$> token)).

End resolver.
