(* ===== verification/ResolverLogic.v ===== *)
(** * A program logic for the resolver's operations

    Weakest preconditions over the monad of [Runtime], with two parameters: [p] says
    whether the run may panic and [d] whether it may deadlock. With [p] and [d] set
    to [False] a proof is one of total correctness. [evolves] summarises what an
    operation may do to the state of a request. *)
From stdpp Require Import base gmap strings list fin_maps.
From Stdlib Require Import ZArith Lia.
From S2P Require Import Prelude Proto Interface Db DbSpec DbFacts Runtime Resolver.

Open Scope rust_scope.

Section logic.
Context {X : Ext} {SD : Serde} {C : Crypto} {P : IdProvider} {L : LruCache} {E : Env}.

Definition wp (p d : Prop) {A} (m : M A) (Q : A → World → Prop) (w : World) : Prop :=
  match m w with
  | Ret a w' => Q a w'
  | Panicked => p
  | Deadlocked => d
  end.

(** An environment in which the database engine does its part and adding the cache
    timeout to the clock stays in range. *)
Record calm (timeout : Z) : Prop := {
  calm_begin : ∀ n, begin_fault n = false;
  calm_commit : ∀ n, commit_fault n = None;
  calm_rollback : ∀ n, rollback_fault n = false;
  calm_clock : ∀ n, clock n / NS + timeout ≤ i64_max
}.

(** Tables that agree but for the keys of the providers. *)
Definition rows_eq (t t' : Tables) : Prop := t' = set_hsm_data_t (hsm_data_t t') t.

(** What holds between requests: no lock is held, the disk is well formed, and, where
    panics are excluded, no transaction was left open. *)
Record inv (p : Prop) (w : World) : Prop := {
  inv_txn : p ∨ txn (w_conn w) = None;
  inv_wf : db_wf (disk (w_conn w))
}.

(** An operation gave back the locks it took, kept the exclusion set and the
    invariant, and changed the disk within [R]. *)
Record evolves (p : Prop) (R : Tables → Tables → Prop) (w w' : World) : Prop := {
  ev_held : w_held w' = w_held w;
  ev_nxset : w_nxset w' = w_nxset w;
  ev_inv : inv p w → inv p w';
  ev_disk : R (disk (w_conn w)) (disk (w_conn w'))
}.

Definition any_rows (_ _ : Tables) : Prop := True.

(** ** Structural rules *)

Section rules.
Context {p d : Prop}.

Lemma wp_ret {A} (a : A) Q w : Q a w → wp p d (mret a) Q w.
Proof. done. Qed.

Lemma wp_bind {A B} (m : M A) (k : A → M B) Q w :
  wp p d m (λ a w', wp p d (k a) Q w') w → wp p d (m ≫= k) Q w.
Proof. unfold wp, mbind, M_bind. destruct (m w); auto. Qed.

Lemma wp_mono {A} (m : M A) (Q Q' : A → World → Prop) w :
  wp p d m Q w → (∀ a w', Q a w' → Q' a w') → wp p d m Q' w.
Proof. unfold wp. destruct (m w); auto. Qed.

Lemma wp_conseq {A} (m : M A) (Q Q' : A → World → Prop) w :
  wp p d m Q w → (∀ a w', m w = Ret a w' → Q a w' → Q' a w') → wp p d m Q' w.
Proof. unfold wp. destruct (m w); auto. Qed.

Lemma wp_try {A B F} (m : M (result A F)) (k : A → M (result B F)) Q w :
  wp p d m (λ r w', match r with Ok a => wp p d (k a) Q w' | Err e => Q (Err e) w' end) w →
  wp p d (try m k) Q w.
Proof. intros H. apply wp_bind. eapply wp_mono; [exact H|]. by intros [a|e] w'. Qed.

Lemma wp_result {A} (m : M A) Q w a w' : wp p d m Q w → m w = Ret a w' → Q a w'.
Proof. unfold wp. intros H Hm. by rewrite Hm in H. Qed.

Lemma wp_get Q w : Q w w → wp p d get Q w.
Proof. done. Qed.

Lemma wp_modify f Q w : Q tt (f w) → wp p d (modify f) Q w.
Proof. done. Qed.

Lemma wp_draw {A} (o : nat → A) Q w :
  Q (o (w_tick w)) (set_tick (S (w_tick w)) w) → wp p d (draw o) Q w.
Proof. done. Qed.

(** ** Locks, clock *)

Lemma wp_acquire l Q w :
  l ∉ w_held w → Q tt (set_held (l :: w_held w) w) → wp p d (acquire l) Q w.
Proof. intros H HQ. unfold wp, acquire. by rewrite decide_False. Qed.

Lemma wp_release l Q w :
  Q tt (set_held (List.filter (λ x, negb (bool_decide (x = l))) (w_held w)) w) →
  wp p d (release l) Q w.
Proof. done. Qed.

Lemma wp_now Q w : Q (clock (w_tick w)) (set_tick (S (w_tick w)) w) → wp p d now Q w.
Proof. done. Qed.

Lemma secs_add t s : (t + s * NS) / NS = t / NS + s.
Proof. unfold NS. by rewrite Z.div_add. Qed.

Lemma wp_add_secs t s Q w :
  p ∨ t / NS + s ≤ i64_max → (t / NS + s ≤ i64_max → Q (t + s * NS) w) →
  wp p d (add_secs t s) Q w.
Proof.
  intros Hp HQ. unfold wp, add_secs. rewrite secs_add.
  destruct (Z.leb_spec (t / NS + s) i64_max) as [Hle|Hgt]; [by apply HQ|].
  simpl. destruct Hp as [H|H]; [exact H|lia].
Qed.

(** Taking a lock and giving it back leaves the list of held locks as it was. *)
Lemma release_acquired l (H : list Lock) :
  l ∉ H → List.filter (λ x, negb (bool_decide (x = l))) (l :: H) = H.
Proof.
  intros Hl. simpl. rewrite bool_decide_true by done. simpl. apply filter_all.
  intros x Hx. rewrite bool_decide_false; [done|]. by intros ->.
Qed.

Lemma release_under l l' (H : list Lock) :
  l ≠ l' → l ∉ H → List.filter (λ x, negb (bool_decide (x = l))) (l' :: l :: H) = l' :: H.
Proof.
  intros Hne Hl. simpl List.filter at 1. rewrite bool_decide_false by done. simpl.
  f_equal. by apply release_acquired.
Qed.

(** ** Transactions *)

Lemma wp_db_run {A} (m : DbM A) Q w :
  (∀ r n t, m sql_fault (w_tick w, conn_tables (w_conn w)) = (r, (n, t)) →
     Q r (set_tick n (set_conn (conn_set t (w_conn w)) w))) →
  wp p d (db_run m) Q w.
Proof.
  intros H. unfold wp, db_run. destruct (m sql_fault _) as [r [n t]] eqn:Em. by apply H.
Qed.

Lemma wp_db_run_hsm {A} (m : DbHsmM A) Q w :
  (∀ r n t h, m (w_tpm w) sql_fault (w_tick w, conn_tables (w_conn w)) = ((r, (n, t)), h) →
     Q r (set_tick n (set_tpm h (set_conn (conn_set t (w_conn w)) w)))) →
  wp p d (db_run_hsm m) Q w.
Proof.
  intros H. unfold wp, db_run_hsm. destruct (m (w_tpm w) sql_fault _) as [[r [n t]] h] eqn:Em.
  by apply H.
Qed.

Lemma wp_call {A} (f : PCall Client A) Q w :
  (∀ a c, f (w_tick w) (w_client w) = (a, c) → Q a (set_tick (S (w_tick w)) (set_client c w))) →
  wp p d (call f) Q w.
Proof. intros H. unfold wp, call. destruct (f _ _) as [a c] eqn:Ef. by apply H. Qed.

Lemma wp_call_ks {A} (f : KsCall Client A) Q w :
  (∀ a c k, f (w_tick w) (w_client w) (keys w) = (a, c, k) →
     Q a (set_tick (S (w_tick w)) (set_client c (set_keys k w)))) →
  wp p d (call_ks f) Q w.
Proof. intros H. unfold wp, call_ks. destruct (f _ _ _) as [[a c] k] eqn:Ef. by apply H. Qed.

Lemma wp_call_tpm {A} (f : TpmCall Client A) Q w :
  (∀ a c h, f (w_tick w) (w_client w) (w_tpm w) = (a, c, h) →
     Q a (set_tick (S (w_tick w)) (set_client c (set_tpm h w)))) →
  wp p d (call_tpm f) Q w.
Proof. intros H. unfold wp, call_tpm. destruct (f _ _ _) as [[a c] h] eqn:Ef. by apply H. Qed.

Lemma wp_call_full {A} (f : FullCall Client A) Q w :
  (∀ a c k h, f (w_tick w) (w_client w) (keys w) (w_tpm w) = (a, c, k, h) →
     Q a (set_tick (S (w_tick w)) (set_client c (set_tpm h (set_keys k w))))) →
  wp p d (call_full f) Q w.
Proof.
  intros H. unfold wp, call_full. destruct (f _ _ _ _) as [[[a c] k] h] eqn:Ef. by apply H.
Qed.

Context {timeout : Z} (Hp : p ∨ calm timeout).

Lemma wp_db_write Q w :
  LDb ∉ w_held w → p ∨ txn (w_conn w) = None →
  (txn (w_conn w) = None →
   Q tt (set_conn (Build_Conn (disk (w_conn w)) (Some (disk (w_conn w))))
           (set_tick (S (w_tick w)) (set_held (LDb :: w_held w) w)))) →
  wp p d db_write Q w.
Proof.
  intros Hl Htx HQ. unfold db_write. apply wp_bind, wp_acquire; [done|].
  apply wp_bind, wp_draw, wp_bind, wp_get. simpl. unfold conn_begin.
  destruct (txn (w_conn w)) eqn:Et; [by destruct Htx|].
  destruct (begin_fault (w_tick w)) eqn:Ef; [|by apply wp_modify, HQ].
  destruct Hp as [?|Hc]; [done|]. by rewrite (calm_begin _ Hc) in Ef.
Qed.

Lemma wp_db_commit Q w t :
  txn (w_conn w) = Some t →
  let w1 := set_tick (S (w_tick w)) w in
  let rel w := set_held (List.filter (λ x, negb (bool_decide (x = LDb))) (w_held w)) w in
  Q (Ok tt) (rel (set_conn (Build_Conn t None) w1)) →
  (p → ∀ x, Q (Err CacheError_Sqlite) (rel (set_conn (Build_Conn (disk (w_conn w)) x) w1))) →
  wp p d db_commit Q w.
Proof.
  intros Ht w1 rel HO HE. unfold db_commit. apply wp_bind, wp_draw, wp_bind, wp_get.
  fold w1. simpl. rewrite Ht. destruct (commit_fault (w_tick w)) eqn:Ef.
  - destruct Hp as [Hp'|Hc]; [|by rewrite (calm_commit _ Hc) in Ef].
    destruct c; apply wp_bind.
    + apply wp_ret, wp_bind, wp_release, wp_ret. fold (rel w1).
      replace w1 with (set_conn (Build_Conn (disk (w_conn w)) (Some t)) w1); [by apply HE|].
      clear -Ht. subst w1. destruct w as [? ? [] ? ? ? ? ?]. simpl in *. by subst.
    + by apply wp_bind, wp_modify, wp_ret, wp_bind, wp_release, wp_ret, HE.
  - apply wp_bind, wp_bind, wp_modify, wp_ret, wp_bind, wp_release, wp_ret.
    unfold conn_commit, conn_tables. rewrite Ht. apply HO.
Qed.

Lemma wp_db_drop Q w t :
  txn (w_conn w) = Some t →
  Q tt (set_held (List.filter (λ x, negb (bool_decide (x = LDb))) (w_held w))
          (set_conn (Build_Conn (disk (w_conn w)) None) (set_tick (S (w_tick w)) w))) →
  wp p d db_drop Q w.
Proof.
  intros Ht HQ. unfold db_drop. apply wp_bind, wp_draw, wp_bind, wp_get. simpl. rewrite Ht.
  destruct (rollback_fault (w_tick w)) eqn:Ef.
  - destruct Hp as [?|Hc]; [done|]. by rewrite (calm_rollback _ Hc) in Ef.
  - by apply wp_bind, wp_modify, wp_release.
Qed.

End rules.

(** ** [evolves] and [rows_eq] *)

#[export] Instance rows_eq_preorder : PreOrder rows_eq.
Proof.
  split.
  - intros []. done.
  - intros t1 t2 t3 E1 E2. unfold rows_eq in *. rewrite E2, E1. done.
Qed.

#[export] Instance any_rows_preorder : PreOrder any_rows.
Proof. split; done. Qed.

Lemma rows_eq_sym t t' : rows_eq t t' → rows_eq t' t.
Proof. unfold rows_eq. intros ->. by destruct t. Qed.

Lemma rows_eq_keys k t : rows_eq t (set_hsm_data_t k t).
Proof. done. Qed.

Lemma rows_eq_wf t t' : rows_eq t t' → db_wf t → db_wf t'.
Proof. intros -> H. by apply (db_wf_same t). Qed.

Lemma wf_set_keys k t : db_wf t → db_wf (set_hsm_data_t k t).
Proof. apply rows_eq_wf, rows_eq_keys. Qed.

#[export] Instance evolves_preorder p R `{!PreOrder R} : PreOrder (evolves p R).
Proof.
  split.
  - intros w. by split.
  - intros w1 w2 w3 [H1 N1 I1 D1] [H2 N2 I2 D2]. split; [congruence|congruence|auto|].
    by etrans.
Qed.

Lemma evolves_any p R w w' : evolves p R w w' → evolves p any_rows w w'.
Proof. by intros []. Qed.

End logic.

#[export] Hint Resolve rows_eq_keys : himmel.
