(* ===== verification/ResolverFacts.v ===== *)
(** * Specifications of the resolver's operations

    For each method of the resolver, what it does to the locks, the exclusion set,
    the disk and the invariant, as a weakest-precondition rule; the rules of the
    larger methods are proved from those of the methods they call. *)
From stdpp Require Import base gmap strings list fin_maps.
From Stdlib Require Import ZArith Lia.
From S2P Require Import Prelude Proto Interface Db DbSpec DbFacts Runtime Resolver ResolverLogic.

Open Scope rust_scope.

(** One step of symbolic execution; the side conditions on locks are left to
    [lock_solve]. *)
Ltac lock_solve := simpl; first [done | assumption | set_solver].

Ltac held_simpl :=
  cbn [w_held set_held set_conn set_tick set_client set_tpm set_keys set_lru set_nxset
       set_server_conf];
  repeat first [rewrite release_acquired by lock_solve | rewrite release_under by lock_solve].

Section facts.
Context {X : Ext} {SD : Serde} {SL : SerdeLaws SD} {C : Crypto} {P : IdProvider} {L : LruCache}
  {E : Env}.
Context {p d : Prop} (self : Resolver) (Hp : p ∨ calm (timeout_seconds self)).

(** ** The end of a transaction *)

(** [evolves] for a transaction that ran on the disk of [w]: committed with tables
    [t], refused by [COMMIT], or dropped. *)
Lemma evolves_commit R w w' t :
  w_held w' = w_held w → w_nxset w' = w_nxset w → w_conn w' = Build_Conn t None →
  (db_wf (disk (w_conn w)) → db_wf t) → R (disk (w_conn w)) t → evolves p R w w'.
Proof.
  intros H1 H2 H3 H4 H5. split; rewrite ?H3; auto.
  intros [_ Hwf]. split; rewrite H3; auto.
Qed.

Lemma evolves_abort R `{!PreOrder R} w w' x :
  p → w_held w' = w_held w → w_nxset w' = w_nxset w →
  w_conn w' = Build_Conn (disk (w_conn w)) x → evolves p R w w'.
Proof.
  intros Hp' H1 H2 H3. split; [done|done| |rewrite H3; simpl; reflexivity].
  intros [_ Hwf]. split; rewrite ?H3; auto.
Qed.

Lemma evolves_drop R `{!PreOrder R} w w' :
  w_held w' = w_held w → w_nxset w' = w_nxset w →
  w_conn w' = Build_Conn (disk (w_conn w)) None → evolves p R w w'.
Proof.
  intros H1 H2 H3. split; [done|done| |rewrite H3; simpl; reflexivity].
  intros [_ Hwf]. split; rewrite ?H3; auto.
Qed.

(** An operation that leaves the connection alone. *)
Lemma evolves_conn R `{!PreOrder R} w w' :
  w_held w' = w_held w → w_nxset w' = w_nxset w → w_conn w' = w_conn w → evolves p R w w'.
Proof.
  intros H1 H2 H3. split; [done|done| |rewrite H3; reflexivity].
  intros []. split; by rewrite H3.
Qed.

Lemma evolves_inv R w w' : evolves p R w w' → inv p w → inv p w'.
Proof. by intros []. Qed.

(** ** Small operations *)

Lemma wp_check_nxset name idn Q w :
  LNxset ∉ w_held w → Q (in_nxset (w_nxset w) name idn) w → wp p d (check_nxset name idn) Q w.
Proof.
  intros Hl HQ. unfold check_nxset. apply wp_bind, wp_acquire; [done|].
  apply wp_bind, wp_get, wp_bind, wp_release, wp_ret. held_simpl. by destruct w.
Qed.

Definition id_in_nxset (s : gset Id) (id : Id) : bool := bool_decide (id ∈ s).

Lemma wp_check_nxset_id id Q w :
  LNxset ∉ w_held w → Q (id_in_nxset (w_nxset w) id) w → wp p d (check_nxset_id id) Q w.
Proof.
  intros Hl HQ. destruct id; apply wp_check_nxset; try done; unfold in_nxset; simpl.
  by rewrite orb_false_r.
Qed.

Lemma wp_check_nxcache id Q w :
  LNxcache ∉ w_held w →
  Q (lru_get id (w_nxcache w)).1 (set_lru (lru_get id (w_nxcache w)).2 w) →
  wp p d (check_nxcache id) Q w.
Proof.
  intros Hl HQ. unfold check_nxcache. apply wp_bind, wp_acquire; [done|].
  apply wp_bind, wp_get. simpl. destruct (lru_get id (w_nxcache w)) as [r c] eqn:Er.
  apply wp_bind, wp_modify, wp_bind, wp_release, wp_ret. held_simpl. exact HQ.
Qed.

Lemma wp_set_nxcache id Q w :
  LNxcache ∉ w_held w →
  Q tt (set_lru (lru_put id (clock (w_tick w) + timeout_seconds self * NS) (w_nxcache w))
          (set_tick (S (w_tick w)) w)) →
  wp p d (set_nxcache self id) Q w.
Proof.
  intros Hl HQ. unfold set_nxcache. apply wp_bind, wp_acquire; [done|].
  apply wp_bind, wp_now, wp_bind, wp_add_secs.
  { destruct Hp as [?|Hc]; [by left|right; apply (calm_clock _ Hc)]. }
  intros _. apply wp_bind, wp_modify, wp_release. held_simpl. exact HQ.
Qed.

Lemma wp_expiry_offset Q w :
  (clock (w_tick w) / NS + timeout_seconds self ≤ i64_max →
   Q (secs_since_epoch (clock (w_tick w) + timeout_seconds self * NS))
     (set_tick (S (w_tick w)) w)) →
  wp p d (expiry_offset self) Q w.
Proof.
  intros HQ. unfold expiry_offset. apply wp_bind, wp_now, wp_bind, wp_add_secs.
  { destruct Hp as [?|Hc]; [by left|right; apply (calm_clock _ Hc)]. }
  intros Hb. by apply wp_ret, HQ.
Qed.

(** ** Transactions *)

(** A write transaction that ends in [and_commit]: on success the disk is the
    working copy; on failure it is what it was. *)
Lemma wp_write_txn {A} (m : DbM A) R `{!PreOrder R} Q w :
  LDb ∉ w_held w → inv p w →
  (∀ r n t, m sql_fault (S (w_tick w), disk (w_conn w)) = (Ok r, (n, t)) →
     (db_wf (disk (w_conn w)) → db_wf t) ∧ R (disk (w_conn w)) t) →
  (∀ r n t w', m sql_fault (S (w_tick w), disk (w_conn w)) = (Ok r, (n, t)) →
     evolves p R w w' → disk (w_conn w') = t → w_nxcache w' = w_nxcache w → Q (Ok r) w') →
  (∀ w', evolves p R w w' → disk (w_conn w') = disk (w_conn w) → Q (Err tt) w') →
  wp p d (_ ← db_write; r ← db_run m; and_commit r) Q w.
Proof.
  intros Hl [Ht Hwf] Hm HO HE. apply wp_bind, (wp_db_write Hp); [done|done|intros Et].
  apply wp_bind, wp_db_run. simpl. unfold conn_tables, conn_set. simpl.
  intros [a|e] n t Er; simpl; apply wp_bind.
  - destruct (Hm _ _ _ Er) as [Hw HR].
    apply (wp_db_commit Hp _ _ t); [done|..|intros Hp' x]; apply wp_ret; held_simpl.
    + eapply HO; [exact Er|by apply (evolves_commit _ _ _ t)|done|done].
    + apply HE; [by apply (evolves_abort _ _ _ x)|done].
  - apply (wp_db_drop Hp _ _ t); [done|]. apply wp_ret. held_simpl.
    apply HE; [by apply evolves_drop|done].
Qed.

(** The same, followed by [k]. *)
Lemma wp_txn_bind {A B} (m : DbM A) (k : result A unit → M B) Q w :
  wp p d (_ ← db_write; r ← db_run m; and_commit r) (λ c w', wp p d (k c) Q w') w →
  wp p d (_ ← db_write; r ← db_run m; c ← and_commit r; k c) Q w.
Proof.
  unfold wp, mbind, M_bind. destruct (db_write w) as [a w1| |]; [|done..].
  destruct (db_run m w1) as [r w2| |]; [|done..]. by destruct (and_commit r w2).
Qed.

(** A read transaction leaves the disk alone. *)
Lemma wp_db_read {A} (m : DbM A) R `{!PreOrder R} Q w :
  LDb ∉ w_held w → inv p w →
  (∀ r n t w', m sql_fault (S (w_tick w), disk (w_conn w)) = (r, (n, t)) →
     evolves p R w w' → disk (w_conn w') = disk (w_conn w) →
     w_client w' = w_client w → w_tpm w' = w_tpm w → Q r w') →
  wp p d (db_read m) Q w.
Proof.
  intros Hl [Ht Hwf] HQ. apply wp_bind, (wp_db_write Hp); [done|done|intros Et].
  apply wp_bind, wp_db_run. simpl. unfold conn_tables, conn_set. simpl. intros r n t Er.
  apply wp_bind, (wp_db_drop Hp _ _ t); [done|]. apply wp_ret. held_simpl.
  eapply HQ; [exact Er|by apply evolves_drop|done..].
Qed.

(** A provider call with the TPM and a transaction changes only keys on disk. *)
Lemma wp_provider_txn_absent {A} (f : FullCall Client A) Q w :
  LHsm ∉ w_held w → LDb ∉ w_held w → inv p w →
  (∀ a c k h r w', f (S (w_tick w)) (w_client w) (hsm_data_t (disk (w_conn w))) (w_tpm w) = (a, c, k, h) →
     evolves p rows_eq w w' → (p ∨ r = Ok tt) → w_nxcache w' = w_nxcache w → Q (a, r) w') →
  wp p d (provider_txn f) Q w.
Proof.
  intros Hh Hl [Ht Hwf] HQ. apply wp_bind, wp_acquire; [done|].
  apply wp_bind, (wp_db_write Hp); [lock_solve|done|intros Et].
  apply wp_bind, wp_call_full. simpl. unfold keys, conn_tables, conn_set. simpl.
  intros a c k h Ef. apply wp_bind, wp_release, wp_bind.
  apply (wp_db_commit Hp _ _ (set_hsm_data_t k (disk (w_conn w)))); [done|..|intros Hp' x];
    apply wp_ret; held_simpl; (eapply HQ; [exact Ef| |auto|done]).
  - apply (evolves_commit _ _ _ (set_hsm_data_t k (disk (w_conn w))));
      [by held_simpl|done|done| |done].
    apply wf_set_keys.
  - apply (evolves_abort _ _ _ x); [done|by held_simpl|done..].
Qed.

Lemma wp_provider_txn {A} (f : FullCall Client A) Q w :
  LHsm ∉ w_held w → LDb ∉ w_held w → inv p w →
  (∀ a c k h r w', f (S (w_tick w)) (w_client w) (hsm_data_t (disk (w_conn w))) (w_tpm w) = (a, c, k, h) →
     evolves p rows_eq w w' → (p ∨ r = Ok tt) → Q (a, r) w') →
  wp p d (provider_txn f) Q w.
Proof. intros Hh Hl Hi HQ. apply wp_provider_txn_absent; eauto. Qed.

Lemma wp_get_cachestate a Q w :
  LDb ∉ w_held w → inv p w →
  (∀ n s k w', evolves p rows_eq w w' → Q (prov_get_cachestate a n s k).1.1 w') →
  wp p d (get_cachestate a) Q w.
Proof.
  intros Hl [Ht Hwf] HQ. apply wp_bind, (wp_db_write Hp); [done|done|intros Et].
  apply wp_bind, wp_call_ks. simpl. unfold keys, conn_tables, conn_set. simpl.
  intros r c k Ef.
  assert (r = (prov_get_cachestate a (S (w_tick w)) (w_client w) (hsm_data_t (disk (w_conn w)))).1.1)
    as -> by (by rewrite Ef).
  apply wp_bind, (wp_db_commit Hp _ _ (set_hsm_data_t k (disk (w_conn w)))); [done|..|intros Hp' x];
    apply wp_ret; held_simpl; apply HQ.
  - apply (evolves_commit _ _ _ (set_hsm_data_t k (disk (w_conn w)))); try done.
    apply wf_set_keys.
  - by apply (evolves_abort _ _ _ x).
Qed.

(** ** Reading the cache *)

(** What a lookup answers, given what the database method returned at step [n]. *)
Definition cached_answer {A} (lru : Lru) (id : Id) (q : result (option (A * Z)) CacheError) (n : nat)
  : result (bool * option A) unit :=
  match q with
  | Err _ => Err tt
  | Ok (Some (ut, ex)) => Ok (ex * NS <=? clock n, Some ut)
  | Ok None =>
      Ok (match (lru_get id lru).1 with Some t => t <=? clock n | None => true end, None)
  end.

(** The common body of [get_cached_usertoken] and [get_cached_grouptoken]. *)
Definition get_cached {A} (id : Id) (m : DbM (option (A * Z))) : M (result (bool * option A) unit) :=
  _ ← db_write;
  r ← db_run m;
  match r with
  | Err _ => _ ← db_drop; mret (Err tt)
  | Ok r => x ← cached_result id r; _ ← db_drop; mret (Ok x)
  end.

Definition expiry_bounded {A} (m : DbM (option (A * Z))) : Prop :=
  ∀ f n t a e s, db_wf t → m f (n, t) = (Ok (Some (a, e)), s) → e ≤ i64_max.

Lemma get_account_bounded id : expiry_bounded (get_account id).
Proof.
  intros f n t a e [n' t'] Hwf H. apply get_account_some in H as (_ & _ & _ & r & Hr & _ & _ & <- & _).
  destruct (wf_account_rows _ Hwf r Hr) as (tok & ?). naive_solver.
Qed.

Lemma get_group_bounded id : expiry_bounded (get_group id).
Proof.
  intros f n t a e [n' t'] Hwf H. apply get_group_some in H as (r & Hr & _ & _ & <- & _).
  destruct (wf_group_rows _ Hwf r Hr) as (tok & ?). naive_solver.
Qed.

Lemma wp_get_cached {A} id (m : DbM (option (A * Z))) Q w :
  expiry_bounded m → LDb ∉ w_held w → LNxcache ∉ w_held w → inv p w →
  (∀ q n t w', m sql_fault (S (w_tick w), disk (w_conn w)) = (q, (n, t)) →
     evolves p eq w w' → w_client w' = w_client w → w_tpm w' = w_tpm w →
     w_nxcache w' = w_nxcache w ∨ w_nxcache w' = (lru_get id (w_nxcache w)).2 →
     Q (cached_answer (w_nxcache w) id q n) w') →
  wp p d (get_cached id m) Q w.
Proof.
  intros Hb Hl Hn Hinv HQ. pose proof Hinv as [Ht Hwf].
  apply wp_bind, (wp_db_write Hp); [done|done|intros Et].
  apply wp_bind, wp_db_run. simpl. unfold conn_tables, conn_set. simpl.
  intros [[[ut ex]|]|e] n t Er;
    pose proof (λ w', HQ _ n t w' Er) as HQ'; clear HQ; simpl in HQ'.
  - apply wp_bind, wp_bind, wp_add_secs.
    { right. change (0 / NS) with 0. rewrite Z.add_0_l. by eapply Hb. }
    intros _. apply wp_bind, wp_now, wp_ret, wp_bind, (wp_db_drop Hp _ _ t); [done|].
    apply wp_ret. held_simpl. apply HQ'; [by apply (evolves_drop _)|by auto..].
  - apply wp_bind, wp_bind, wp_check_nxcache; [lock_solve|]. simpl in *.
    destruct (lru_get id (w_nxcache w)) as [[t0|] c] eqn:El; simpl in *.
    + apply wp_bind, wp_now, wp_ret, wp_bind, (wp_db_drop Hp _ _ t); [done|].
      apply wp_ret. held_simpl. apply HQ'; [by apply (evolves_drop _)|by auto..].
    + apply wp_ret, wp_bind, (wp_db_drop Hp _ _ t); [done|].
      apply wp_ret. held_simpl. apply HQ'; [by apply (evolves_drop _)|by auto..].
  - apply wp_bind, (wp_db_drop Hp _ _ t); [done|].
    apply wp_ret. held_simpl. apply HQ'; [by apply (evolves_drop _)|by auto..].
Qed.

(** ** Operations safe to run between requests *)

Definition idle (w : World) : Prop := w_held w = [] ∧ inv p w.

Definition safe (R : Tables → Tables → Prop) {A} (m : M A) : Prop :=
  ∀ w, idle w → wp p d m (λ _ w', evolves p R w w') w.

Lemma evolves_idle R w w' : evolves p R w w' → idle w → idle w'.
Proof. intros [Hh _ Hi _] [H1 H2]. split; [congruence|auto]. Qed.

Section safe_rules.
Context {R : Tables → Tables → Prop} {HR : PreOrder R}.

Lemma safe_ret {A} (a : A) : safe R (mret a).
Proof. intros w _. apply wp_ret. reflexivity. Qed.

Lemma safe_bind {A B} (m : M A) (k : A → M B) :
  safe R m → (∀ a, safe R (k a)) → safe R (m ≫= k).
Proof.
  intros Hm Hk w Hw. apply wp_bind. eapply wp_mono; [by apply Hm|]. intros a w' Hev.
  eapply wp_mono; [apply Hk, (evolves_idle _ _ _ Hev Hw)|]. intros b w'' Hev'. etrans; [exact Hev|exact Hev'].
Qed.

Lemma safe_try {A B F} (m : M (result A F)) (k : A → M (result B F)) :
  safe R m → (∀ a, safe R (k a)) → safe R (try m k).
Proof. intros Hm Hk. apply safe_bind; [done|]. intros [a|e]; [apply Hk|apply safe_ret]. Qed.

Lemma safe_mapM {A B} (f : A → M B) l : (∀ a, safe R (f a)) → safe R (mapM f l).
Proof.
  intros Hf. induction l as [|a l IH]; simpl; [apply safe_ret|].
  apply safe_bind; [apply Hf|]. intros b. apply safe_bind; [apply IH|]. intros ?. apply safe_ret.
Qed.

End safe_rules.

Lemma safe_weaken {A} R (m : M A) : safe R m → safe any_rows m.
Proof. intros Hm w Hw. eapply wp_mono; [by apply Hm|]. intros a w'. apply evolves_any. Qed.

Lemma idle_held w l : idle w → l ∉ w_held w.
Proof. intros [-> _]. apply not_elem_of_nil. Qed.

(** ** Every method is safe *)

Lemma safe_get_cachestate a : safe rows_eq (get_cachestate a).
Proof. intros w Hw. apply wp_get_cachestate; [by apply idle_held|apply Hw|auto]. Qed.

Lemma safe_db_read {A} (m : DbM A) : safe rows_eq (db_read m).
Proof. intros w Hw. apply (wp_db_read m rows_eq); [by apply idle_held|apply Hw|auto]. Qed.

Lemma safe_provider_txn {A} (f : FullCall Client A) : safe rows_eq (provider_txn f).
Proof. intros w Hw. apply wp_provider_txn; [by apply idle_held..|apply Hw|auto]. Qed.

Lemma safe_write_txn {A} (m : DbM A) :
  db_preserves db_wf m → safe any_rows (_ ← db_write; r ← db_run m; and_commit r).
Proof.
  intros Hm w Hw. apply (wp_write_txn m any_rows); [by apply idle_held|apply Hw| |auto..].
  intros r n t Er. split; [|done]. intros Hwf. by eapply Hm.
Qed.

Lemma safe_call {A} R `{!PreOrder R} (f : PCall Client A) : safe R (call f).
Proof. intros w Hw. apply wp_call. intros a c _. by apply evolves_conn. Qed.

Lemma safe_check_nxset R `{!PreOrder R} name idn : safe R (check_nxset name idn).
Proof. intros w Hw. apply wp_check_nxset; [by apply idle_held|reflexivity]. Qed.

Lemma safe_check_nxset_id R `{!PreOrder R} id : safe R (check_nxset_id id).
Proof. destruct id; by apply safe_check_nxset. Qed.

Lemma safe_set_nxcache R `{!PreOrder R} id : safe R (set_nxcache self id).
Proof. intros w Hw. apply wp_set_nxcache; [by apply idle_held|by apply evolves_conn]. Qed.

Lemma safe_get_cached_usertoken id : safe rows_eq (get_cached_usertoken id).
Proof.
  intros w Hw. apply (wp_get_cached id (get_account id));
    [apply get_account_bounded|by apply idle_held..|apply Hw|].
  intros q n t w' _ [] _ _ _. split; auto. by rewrite ev_disk.
Qed.

Lemma safe_get_cached_grouptoken id : safe rows_eq (get_cached_grouptoken id).
Proof.
  intros w Hw. apply (wp_get_cached id (get_group id));
    [apply get_group_bounded|by apply idle_held..|apply Hw|].
  intros q n t w' _ [] _ _ _. split; auto. by rewrite ev_disk.
Qed.

(** A TPM call with the TPM's lock alone. *)
Lemma safe_tpm_call {A} R `{!PreOrder R} (f : TpmCall Client A) :
  safe R (_ ← acquire LHsm; r ← call_tpm f; _ ← release LHsm; mret r).
Proof.
  intros w Hw. pose proof (idle_held _ LHsm Hw). apply wp_bind, wp_acquire; [done|].
  apply wp_bind, wp_call_tpm. intros a c h _. apply wp_bind, wp_release, wp_ret.
  apply evolves_conn; first [done|by held_simpl|apply _].
Qed.

Lemma safe_test_connection : safe rows_eq test_connection.
Proof.
  apply safe_bind; [apply safe_get_cachestate|]. intros [| |t]; [apply safe_ret..|].
  intros w Hw. pose proof (idle_held _ LHsm Hw). apply wp_bind, wp_acquire; [done|].
  apply wp_bind, wp_now, wp_bind, wp_call_tpm. intros a c h _. apply wp_bind, wp_release, wp_ret.
  apply evolves_conn; first [done|by held_simpl|apply _].
Qed.

(** *** Writes *)

Lemma store_usertoken_preserves tok off :
  in_u64 off → db_preserves db_wf (store_usertoken tok off).
Proof.
  intros Ho. apply preserves_bind; [|intros _; by apply update_account_preserves].
  apply preserves_try_for_each. intros g. by apply update_group_preserves.
Qed.

(** The token as [set_cache_usertoken] stores it. *)
Definition stored_token (s : gset Id) (tok : UserToken) : UserToken :=
  retain_groups s (with_shell self tok).

Lemma secs_in_u64 t off :
  t / NS ≤ i64_max → secs_since_epoch t = Some off → in_u64 off ∧ off = t / NS.
Proof.
  unfold secs_since_epoch. destruct (Z.leb_spec 0 t); [|done]. intros Hb [= <-].
  split; [|done]. unfold in_u64, u64_max, NS, i64_max in *.
  pose proof (Z.div_pos t 1000000000). lia.
Qed.

(** [set_cache_usertoken]: on success the disk is the result of storing the filtered
    token with the new expiry; on failure it is unchanged. *)
Lemma wp_set_cache_usertoken tok Q w :
  idle w →
  (∀ off n t w', let t0 := clock (w_tick w) + timeout_seconds self * NS in
     secs_since_epoch t0 = Some off → in_u64 off → off = t0 / NS →
     store_usertoken (stored_token (w_nxset w) tok) off sql_fault
       (S (S (w_tick w)), disk (w_conn w)) = (Ok tt, (n, t)) →
     evolves p any_rows w w' → disk (w_conn w') = t → w_nxcache w' = w_nxcache w →
     Q (Ok (stored_token (w_nxset w) tok)) w') →
  (∀ w', evolves p any_rows w w' → disk (w_conn w') = disk (w_conn w) → Q (Err tt) w') →
  wp p d (set_cache_usertoken self tok) Q w.
Proof.
  intros Hw HO HE. pose proof (idle_held _ LNxset Hw). pose proof (idle_held _ LDb Hw).
  unfold set_cache_usertoken. apply wp_bind, wp_expiry_offset. intros Hb.
  destruct (secs_since_epoch _) as [off|] eqn:Eo; [|apply wp_ret, HE; [by apply evolves_conn|done]].
  destruct (secs_in_u64 _ _ ltac:(by rewrite secs_add) Eo) as [Hu Hoff].
  apply wp_bind, wp_acquire; [done|]. apply wp_bind, wp_get, wp_bind, wp_release. held_simpl.
  fold (stored_token (w_nxset w) tok).
  match goal with |- wp _ _ _ _ ?w1 => assert (evolves p any_rows w w1) as Hev
    by (by apply evolves_conn) end.
  apply wp_txn_bind, (wp_write_txn _ any_rows); [done|by eapply evolves_inv, Hw| |..].
  - intros r n t Er. split; [|done]. intros Hwf. by eapply store_usertoken_preserves.
  - intros [] n t w' Er Hev' Hd Hn. eapply wp_ret, HO; [done..|exact Er| |done|done].
    etrans; [exact Hev|exact Hev'].
  - intros w' Hev' Hd. apply wp_ret, HE; [|done]. etrans; [exact Hev|exact Hev'].
Qed.

Lemma safe_set_cache_usertoken tok : safe any_rows (set_cache_usertoken self tok).
Proof. intros w Hw. apply wp_set_cache_usertoken; auto. Qed.

Lemma safe_set_cache_grouptoken g : safe any_rows (set_cache_grouptoken self g).
Proof.
  intros w Hw. unfold set_cache_grouptoken. apply wp_bind, wp_expiry_offset. intros Hb.
  match goal with |- wp _ _ _ _ ?w1 => assert (evolves p any_rows w w1) as Hev
    by (by apply evolves_conn) end.
  destruct (secs_since_epoch _) as [off|] eqn:Eo; [|by apply wp_ret].
  destruct (secs_in_u64 _ _ ltac:(by rewrite secs_add) Eo) as [Hu _].
  eapply wp_mono; [apply safe_write_txn|].
  - by apply update_group_preserves.
  - by eapply evolves_idle.
  - intros a w' Hev'. etrans; [exact Hev|exact Hev'].
Qed.

Lemma safe_delete_cache_usertoken u : safe any_rows (delete_cache_usertoken u).
Proof. apply safe_write_txn, (run_op_preserves (OpDeleteAccount u) I). Qed.

Lemma safe_delete_cache_grouptoken u : safe any_rows (delete_cache_grouptoken u).
Proof. apply safe_write_txn, (run_op_preserves (OpDeleteGroup u) I). Qed.

(** The shape of the two password methods. *)
Definition hsm_txn {A} (m : DbHsmM A) : M (result A unit) :=
  _ ← db_write;
  _ ← acquire LHsm;
  r ← db_run_hsm m;
  c ← match r with
      | Ok x => d ← db_commit; _ ← release LHsm; mret (match d with Ok _ => Ok x | Err _ => Err tt end)
      | Err _ => _ ← release LHsm; _ ← db_drop; mret (Err tt)
      end;
  mret c.

Lemma wp_hsm_txn {A} (m : DbHsmM A) R `{!PreOrder R} Q w :
  idle w →
  (∀ r n t h, m (w_tpm w) sql_fault (S (w_tick w), disk (w_conn w)) = ((Ok r, (n, t)), h) →
     (db_wf (disk (w_conn w)) → db_wf t) ∧ R (disk (w_conn w)) t) →
  (∀ r n t h w', m (w_tpm w) sql_fault (S (w_tick w), disk (w_conn w)) = ((Ok r, (n, t)), h) →
     evolves p R w w' → disk (w_conn w') = t → Q (Ok r) w') →
  (∀ w', evolves p R w w' → disk (w_conn w') = disk (w_conn w) → Q (Err tt) w') →
  wp p d (hsm_txn m) Q w.
Proof.
  intros Hw Hm HO HE. pose proof (idle_held _ LHsm Hw) as Hh. pose proof (idle_held _ LDb Hw) as Hl.
  destruct Hw as [_ [Ht Hwf]]. apply wp_bind, (wp_db_write Hp); [done|done|intros Et].
  apply wp_bind, wp_acquire; [lock_solve|].
  apply wp_bind, wp_db_run_hsm. simpl. unfold conn_tables, conn_set. simpl.
  intros [a|e] n t h Er; simpl; apply wp_bind, wp_bind.
  - destruct (Hm _ _ _ _ Er) as [Hw' HR].
    apply (wp_db_commit Hp _ _ t); [done|..|intros Hp' x];
      apply wp_bind, wp_release, wp_ret, wp_ret; held_simpl.
    + eapply HO; [exact Er|by apply (evolves_commit _ _ _ t)|done].
    + apply HE; [by apply (evolves_abort _ _ _ x)|done].
  - apply wp_release, wp_bind. apply (wp_db_drop Hp _ _ t); [done|]. apply wp_ret, wp_ret. held_simpl.
    apply HE; [by apply evolves_drop|done].
Qed.

Lemma safe_set_cache_userpassword u cred : safe any_rows (set_cache_userpassword self u cred).
Proof.
  intros w Hw. apply (wp_hsm_txn (update_account_password u cred (hmac_key self)) any_rows); auto.
  intros r n t h Er. split; [|done]. intros Hwf.
  eapply (update_password_preserves u cred); [exact Hwf|]. by rewrite Er.
Qed.

Lemma check_password_state u cred k h f n t r n' t' h' :
  check_account_password u cred k h f (n, t) = ((r, (n', t')), h') → t' = t.
Proof.
  unfold check_account_password.
  destruct (query_cases (select_passwords (hyphenated u)) f n t) as [-> | ->]; [by intros [=]|].
  repeat case_match; by intros [=].
Qed.

Lemma safe_check_cache_userpassword u cred : safe rows_eq (check_cache_userpassword self u cred).
Proof.
  intros w Hw. apply (wp_hsm_txn (check_account_password u cred (hmac_key self)) rows_eq); auto.
  intros r n t h ->%check_password_state. done.
Qed.

(** What a successful [store_usertoken] did. *)
Lemma store_usertoken_ok tok off f n t n' t' :
  in_u64 off → db_wf t → store_usertoken tok off f (n, t) = (Ok tt, (n', t')) →
  ∃ data t1, user_to_vec tok = Some data ∧ off ≤ i64_max ∧ db_wf t1 ∧
    account_t t1 = account_t t ∧ created t1 = created t ∧ t' = upsert_account tok data off t1.
Proof.
  intros Ho Hwf. unfold store_usertoken, mbind, DbM_bind.
  destruct (try_for_each _ _ f (n, t)) as [[[]|] [n1 t1]] eqn:Eg; [|done]. intros Hu.
  destruct (update_groups_ok _ _ _ _ _ _ _ Ho Hwf Eg) as (Hwf1 & Ha & Hc & _).
  destruct (update_account_ok _ _ _ _ _ _ _ (wf_accounts _ Hwf1) Hu) as (data & Hd & Hle & _ & ->).
  eauto 10.
Qed.

(** *** Composite methods *)

Lemma safe_refresh_usertoken id tok : safe any_rows (refresh_usertoken self id tok).
Proof.
  apply safe_bind; [apply (safe_weaken rows_eq), safe_provider_txn|].
  intros [[[| |n_tok]|e] [?|?]]; try apply safe_ret.
  - apply safe_try; [destruct tok; [apply safe_delete_cache_usertoken|apply safe_ret]|].
    intros _. apply safe_bind; [by apply safe_set_nxcache, _|]. intros _. apply safe_ret.
  - apply safe_try; [apply safe_set_cache_usertoken|]. intros ?. apply safe_ret.
Qed.

Lemma safe_refresh_grouptoken id tok : safe any_rows (refresh_grouptoken self id tok).
Proof.
  intros w Hw. pose proof (idle_held _ LHsm Hw). apply wp_bind, wp_acquire; [done|].
  apply wp_bind, wp_call_tpm. intros r c h _. apply wp_bind, wp_release.
  match goal with |- wp _ _ _ _ ?w1 => assert (evolves p any_rows w w1) as Hev
    by (apply evolves_conn; first [done|by held_simpl|apply _]) end.
  eapply wp_mono; [|intros a w' Hev'; etrans; [exact Hev|exact Hev']].
  match goal with |- wp _ _ ?m _ _ => assert (safe any_rows m) as Hs end;
    [|by eapply Hs, evolves_idle].
  destruct r as [g|e]; [|apply safe_ret].
  apply safe_bind; [apply safe_check_nxset, _|]. intros [].
  - apply safe_try; [apply safe_delete_cache_grouptoken|]. intros ?. apply safe_ret.
  - apply safe_try; [apply safe_set_cache_grouptoken|]. intros ?. apply safe_ret.
Qed.

Lemma safe_refresh_policy {A} b st (item : A) refresh :
  safe any_rows refresh → safe any_rows (refresh_policy b st item refresh).
Proof.
  intros Hr. destruct b, st as [| |t]; simpl; try apply safe_ret; [done|].
  apply safe_bind; [intros w Hw; by apply wp_now, evolves_conn|]. intros t'.
  destruct (t <=? t'); [|apply safe_ret].
  apply safe_bind; [apply (safe_weaken rows_eq), safe_test_connection|].
  intros []; [done|apply safe_ret].
Qed.

Lemma safe_get_usertoken id : safe any_rows (get_usertoken self id).
Proof.
  apply safe_bind; [apply safe_check_nxset_id, _|]. intros []; [apply safe_ret|].
  apply safe_try; [apply (safe_weaken rows_eq), safe_get_cached_usertoken|]. intros [b item].
  apply safe_bind; [apply (safe_weaken rows_eq), safe_get_cachestate|]. intros st.
  apply safe_refresh_policy, safe_refresh_usertoken.
Qed.

Lemma safe_get_grouptoken id : safe rows_eq (get_grouptoken self id).
Proof.
  apply safe_try; [apply safe_get_cached_grouptoken|]. intros [[] item]; apply safe_ret.
Qed.

Lemma safe_user_service {A} id (k : UserToken → M (option A)) :
  (∀ t, safe any_rows (k t)) → safe any_rows (user_service self id k).
Proof.
  intros Hk. apply safe_bind; [apply safe_check_nxset_id, _|]. intros []; [apply safe_ret|].
  apply safe_bind; [apply safe_get_usertoken|]. intros [[t|]|]; [apply Hk|apply safe_ret..].
Qed.

Lemma safe_provider_then {A B} (f : FullCall Client A) (g : A * result unit CacheError → B) :
  safe any_rows (rc ← provider_txn f; mret (g rc)).
Proof.
  apply safe_bind; [apply (safe_weaken rows_eq), safe_provider_txn|]. intros ?. apply safe_ret.
Qed.

Lemma safe_nss_group g : safe rows_eq (nss_group self g).
Proof.
  apply safe_bind; [|intros ?; apply safe_ret].
  apply safe_bind; [apply safe_db_read|intros ?; apply safe_ret].
Qed.

Lemma safe_usertoken_then {A} id (k : option UserToken → result A unit) :
  safe any_rows (token ←? get_usertoken self id; mret (k token)).
Proof. apply safe_try; [apply safe_get_usertoken|]. intros ?. apply safe_ret. Qed.

(** *** Authentication *)

(** The cache state cannot be asked for while a transaction is open. *)
Lemma get_cachestate_deadlock a w : LDb ∈ w_held w → get_cachestate a w = Deadlocked.
Proof.
  intros Hl. unfold get_cachestate, db_write, mbind, M_bind, acquire. by rewrite decide_True.
Qed.

(** The provider does not fail to start an online authentication that may fall back
    to an offline one. *)
Definition online_init_total : Prop :=
  ∀ account token service nhp n c k h,
    is_ok (unix_user_online_auth_init account token service nhp false (machine_key self)
             n c k h).1.1.1 = true.

Lemma wp_online_init account service token nhp force Q w :
  d ∨ force = true ∨ online_init_total → idle w →
  (∀ r w', evolves p eq w w' → Q r w') →
  wp p d (online_init self account service token nhp force) Q w.
Proof.
  intros Hd Hw HQ. pose proof (idle_held _ LHsm Hw) as Hh. pose proof (idle_held _ LDb Hw) as Hl.
  destruct Hw as [_ [Ht Hwf]]. apply wp_bind, wp_acquire; [done|].
  apply wp_bind, (wp_db_write Hp); [lock_solve|done|intros Et].
  apply wp_bind, wp_call_full. simpl. intros r c k h Er. apply wp_bind.
  assert (∀ r w', w_held w' = LDb :: LHsm :: w_held w → w_nxset w' = w_nxset w →
            (∃ t, w_conn w' = Build_Conn (disk (w_conn w)) (Some t)) →
            wp p d (_ ← db_drop; _ ← release LHsm; mret r) Q w') as Hend.
  { intros r' w' E1 E2 [t E3]. apply wp_bind, (wp_db_drop Hp _ _ t); [by rewrite E3|].
    apply wp_bind, wp_release, wp_ret. simpl. rewrite E1. held_simpl. apply HQ.
    apply evolves_drop; [apply _|done|done|]. simpl. by rewrite E3. }
  destruct r as [res|e].
  - apply wp_ret, Hend; [done|done|]. eexists. reflexivity.
  - destruct force; [apply wp_ret, Hend; [done|done|]; eexists; reflexivity|].
    apply wp_bind. unfold wp. rewrite get_cachestate_deadlock by set_solver.
    destruct Hd as [?|[?|Hd]]; [done|done|].
    specialize (Hd account token service nhp (S (w_tick w)) (w_client w)
                  (keys (set_conn (Build_Conn (disk (w_conn w)) (Some (disk (w_conn w)))) w)) (w_tpm w)).
    unfold keys, conn_tables in *. simpl in *. by rewrite Er in Hd.
Qed.

Lemma wp_offline_init account token nhp Q w :
  idle w → (∀ r w', evolves p eq w w' → Q r w') →
  wp p d (offline_init account token nhp) Q w.
Proof.
  intros Hw HQ. pose proof (idle_held _ LDb Hw) as Hl. destruct Hw as [_ [Ht Hwf]].
  apply wp_bind, (wp_db_write Hp); [done|done|intros Et].
  apply wp_bind, wp_call_ks. simpl. intros r c k Er.
  apply wp_bind. eapply (wp_db_drop Hp); [reflexivity|]. apply wp_ret. held_simpl.
  apply HQ. by apply (evolves_drop _).
Qed.

Lemma safe_init_token account : safe any_rows (init_token self account).
Proof.
  apply safe_try; [apply (safe_weaken rows_eq), safe_get_cached_usertoken|].
  intros [b [t|]]; [apply safe_ret|apply safe_refresh_usertoken].
Qed.

Lemma safe_init_online account : safe rows_eq (init_online account).
Proof.
  apply safe_bind; [apply safe_get_cachestate|].
  intros []; [apply safe_ret|apply safe_test_connection..].
Qed.

Lemma safe_authenticate_init account service nhp force :
  d ∨ force = true ∨ online_init_total →
  safe any_rows (pam_account_authenticate_init self account service nhp force).
Proof.
  intros Hd. apply safe_bind; [apply safe_check_nxset, _|]. intros []; [apply safe_ret|].
  apply safe_try; [apply safe_init_token|]. intros token.
  apply safe_bind; [apply (safe_weaken rows_eq), safe_init_online|]. intros [].
  - apply safe_bind; [|intros ?; apply safe_ret].
    intros w Hw. apply wp_online_init; [done|done|]. intros r w'. apply evolves_any.
  - destruct force; [apply safe_ret|]. apply safe_bind; [|intros ?; apply safe_ret].
    intros w Hw. apply wp_offline_init; [done|]. intros r w'. apply evolves_any.
Qed.

Lemma safe_apply_cache_action tok r : safe any_rows (apply_cache_action self tok r).
Proof.
  destruct r as [[[] []]|e]; try apply safe_ret;
    (apply safe_bind; [apply safe_set_cache_userpassword|intros ?; apply safe_ret]).
Qed.

Lemma safe_online_step account service tok nhp h req :
  safe any_rows (online_step self account service tok nhp h req).
Proof.
  apply safe_bind; [apply (safe_weaken rows_eq), safe_provider_txn|]. intros [[h' r] [|]].
  - apply safe_bind; [apply safe_apply_cache_action|intros ?; apply safe_ret].
  - apply safe_ret.
Qed.

Lemma safe_offline_step account tok online h force req :
  safe any_rows (offline_step self account tok online h force req).
Proof.
  assert (safe any_rows (offline_provider_step self account tok online h req)) as Hprov.
  { apply safe_bind; [apply (safe_weaken rows_eq), safe_provider_txn|].
    intros [[h' r] c]. apply safe_ret. }
  assert (∀ cred, safe any_rows (f ← offline_password self tok cred; mret (h, f))) as Hpw.
  { intros cred. apply safe_bind; [|intros ?; apply safe_ret].
    apply safe_bind; [apply (safe_weaken rows_eq), safe_check_cache_userpassword|].
    intros ?; apply safe_ret. }
  unfold offline_step. destruct force; [apply safe_ret|].
  destruct h, req; first [apply Hpw|apply Hprov|apply safe_ret].
Qed.

Lemma safe_step_finish s r : safe any_rows (step_finish self s r).
Proof.
  destruct r as [[tok|msg|req]|[]]; try apply safe_ret.
  apply safe_bind; [apply safe_check_nxset, _|].
  intros []; (apply safe_bind; [|intros ?; apply safe_ret]).
  - apply safe_delete_cache_usertoken.
  - apply safe_set_cache_usertoken.
Qed.

Lemma safe_step_dispatch s st req : safe any_rows (step_dispatch self s st req).
Proof.
  destruct s as [account service id [tok|] online h nhp force|spn|]; simpl; try apply safe_ret.
  destruct online, st;
    (apply safe_bind; [|intros ?; apply safe_ret]);
    first [apply safe_online_step|apply safe_offline_step].
Qed.

Lemma safe_authenticate_step s req : safe any_rows (pam_account_authenticate_step self s req).
Proof.
  apply safe_bind; [apply (safe_weaken rows_eq); destruct s; apply safe_get_cachestate|].
  intros st. apply safe_bind; [apply safe_step_dispatch|].
  intros [s' [r|r]]; [apply safe_step_finish|apply safe_ret].
Qed.

Lemma safe_try_unseal account cred :
  d ∨ online_init_total → safe any_rows (pam_try_unseal self account cred).
Proof.
  intros Hd. apply safe_try; [apply safe_authenticate_init; tauto|].
  intros [s []]; try apply safe_ret.
  apply safe_bind; [apply safe_authenticate_step|intros ?; apply safe_ret].
Qed.

(** *** Cache-wide operations *)

(** With the negative cache locked and emptied, a write transaction. *)
Lemma wp_nxcache_txn {A} (m : DbM unit) (k : result unit unit → M A) Q w :
  idle w → db_preserves db_wf m →
  (∀ n t w', m sql_fault (S (w_tick w), disk (w_conn w)) = (Ok tt, (n, t)) →
     w_held w' = [LNxcache] → w_nxset w' = w_nxset w → inv p w' → disk (w_conn w') = t →
     w_nxcache w' = lru_clear (w_nxcache w) → wp p d (k (Ok tt)) Q w') →
  (∀ w', w_held w' = [LNxcache] → w_nxset w' = w_nxset w → inv p w' →
     disk (w_conn w') = disk (w_conn w) → wp p d (k (Err tt)) Q w') →
  wp p d (_ ← acquire LNxcache; _ ← modify (λ w, set_lru (lru_clear (w_nxcache w)) w);
          _ ← db_write; r ← db_run m; c ← and_commit r; k c) Q w.
Proof.
  intros [Hh Hi] Hm HO HE. apply wp_bind, wp_acquire; [rewrite Hh; set_solver|].
  apply wp_bind, wp_modify, wp_txn_bind.
  apply (wp_write_txn _ any_rows); [rewrite Hh; set_solver|by destruct Hi| |..].
  - intros r n t Er. split; [|done]. intros Hwf. by eapply Hm.
  - intros [] n t w' Er [E1 E2 E3 _] Hd Hn. simpl in *. rewrite Hh in E1.
    eapply HO; [exact Er|done|done|apply E3; by destruct Hi|done|done].
  - intros w' [E1 E2 E3 _] Hd. simpl in *. rewrite Hh in E1.
    apply HE; [done|done|apply E3; by destruct Hi|done].
Qed.

Lemma evolves_idle_from w w' :
  idle w → w_held w' = [] → w_nxset w' = w_nxset w → inv p w' → evolves p any_rows w w'.
Proof. intros [Hh Hi] H1 H2 H3. split; [congruence|done|done|done]. Qed.

Lemma clear_preserves : db_preserves db_wf (_ ← clear; clear_hello_keys).
Proof.
  apply preserves_bind; [apply (run_op_preserves OpClear I)|intros _].
  apply (run_op_preserves OpClearHelloKeys I).
Qed.

Lemma safe_invalidate_cache : safe any_rows invalidate_cache.
Proof.
  intros w Hw. apply wp_nxcache_txn; [done|apply invalidate_preserves|..].
  all: intros; apply wp_bind, wp_release, wp_ret; apply evolves_idle_from; simpl; auto.
  1,3: match goal with H : w_held _ = _ |- _ => by rewrite H end.
  all: match goal with H : inv _ _ |- _ => by destruct H end.
Qed.

Lemma safe_clear_cache : safe any_rows clear_cache.
Proof.
  intros w Hw. apply wp_nxcache_txn; [done|apply clear_preserves|..].
  - intros n t w' Er Hh Hn Hi Hd Hl. apply wp_bind, wp_get, wp_bind.
    assert (∀ r w2, w_held w2 = [LNxcache] → w_nxset w2 = w_nxset w → inv p w2 →
              wp p d (_ ← release LNxcache; mret (r : result unit unit))
                 (λ _ w', evolves p any_rows w w') w2) as Hend.
    { intros r w2 E1 E2 E3. apply wp_bind, wp_release, wp_ret. apply evolves_idle_from; simpl; auto.
      - by rewrite E1.
      - by destruct E3. }
    destruct (w_server_conf w'); [|by apply wp_ret, Hend].
    apply wp_bind, wp_draw. destruct (remove_fault _).
    + apply wp_ret, Hend; simpl; [done|done|by destruct Hi].
    + apply wp_bind, wp_modify, wp_ret, Hend; simpl; [done|done|by destruct Hi].
  - intros w' E1 E2 E3 E4. apply wp_bind, wp_release, wp_ret. apply evolves_idle_from; simpl; auto.
    + by rewrite E1.
    + by destruct E3.
Qed.

Lemma wp_reload_nxset l Q w :
  LNxset ∉ w_held w → Q tt (set_nxset (foldl (nxset_add self) ∅ l) w) →
  wp p d (reload_nxset self l) Q w.
Proof.
  intros Hl HQ. apply wp_bind, wp_acquire; [done|]. apply wp_bind, wp_modify, wp_release.
  held_simpl. exact HQ.
Qed.

End facts.

(** ** Requests *)

Create HintDb safe.

Section requests.
Context {X : Ext} {SD : Serde} {C : Crypto} {P : IdProvider} {L : LruCache} {E : Env}.

(** The public methods of the resolver, as the daemon calls them. *)
Inductive request :=
| ReqInvalidate
| ReqClear
| ReqReloadNxset (iter : list (string * Z))
| ReqNssAccounts
| ReqNssAccount (id : Id)
| ReqNssGroups
| ReqNssGroup (id : Id)
| ReqInitgroups (account_id : string)
| ReqAccountAllowed (account_id : string)
| ReqAuthInit (account_id service : string) (no_hello_pin force_reauth : bool)
| ReqAuthStep (session : AuthSession) (req : PamAuthRequest)
| ReqTryUnseal (account_id cred : string)
| ReqBeginSession (account_id : string)
| ReqAccessToken (id : Id) (scopes : list string) (client_id redirect_uri req_cnf : option string)
| ReqTgts (id : Id)
| ReqPrtCookie (id : Id) (sso_nonce : option string)
| ReqChangeAuthToken (account_id : string) (token : UnixUserToken) (new_tok : string)
| ReqBreakGlass (ttl : option Z)
| ReqTestConnection
| ReqExportPrts
| ReqImportPrts (data : bytes).

Definition run_request (self : Resolver) (r : request) : M unit :=
  match r with
  | ReqInvalidate => _ ← invalidate_cache; mret tt
  | ReqClear => _ ← clear_cache; mret tt
  | ReqReloadNxset l => reload_nxset self l
  | ReqNssAccounts => _ ← get_nssaccounts self; mret tt
  | ReqNssAccount id => _ ← get_nssaccount self id; mret tt
  | ReqNssGroups => _ ← get_nssgroups self; mret tt
  | ReqNssGroup id => _ ← get_nssgroup self id; mret tt
  | ReqInitgroups a => _ ← get_initgroups self a; mret tt
  | ReqAccountAllowed a => _ ← pam_account_allowed self a; mret tt
  | ReqAuthInit a s n f => _ ← pam_account_authenticate_init self a s n f; mret tt
  | ReqAuthStep s q => _ ← pam_account_authenticate_step self s q; mret tt
  | ReqTryUnseal a c => _ ← pam_try_unseal self a c; mret tt
  | ReqBeginSession a => _ ← pam_account_beginsession self a; mret tt
  | ReqAccessToken i s c r q => _ ← get_user_accesstoken self i s c r q; mret tt
  | ReqTgts i => _ ← get_user_tgts self i; mret tt
  | ReqPrtCookie i n => _ ← get_user_prt_cookie self i n; mret tt
  | ReqChangeAuthToken a t n => _ ← change_auth_token self a t n; mret tt
  | ReqBreakGlass t => _ ← offline_break_glass t; mret tt
  | ReqTestConnection => _ ← test_connection; mret tt
  | ReqExportPrts => _ ← export_broker_prts; mret tt
  | ReqImportPrts b => _ ← import_broker_prts b; mret tt
  end.

(** Requests served one after the other. *)
Fixpoint serve (self : Resolver) (l : list request) : M unit :=
  match l with
  | [] => mret tt
  | r :: l => _ ← run_request self r; serve self l
  end.

Context {SL : SerdeLaws SD} {p d : Prop} (self : Resolver) (Hp : p ∨ calm (timeout_seconds self)).

Lemma wp_safe {A} (m : M A) w :
  safe (p := p) (d := d) any_rows m → idle (p := p) w →
  wp p d (_ ← m; mret tt) (λ _ w', idle (p := p) w') w.
Proof.
  intros Hs Hw. apply wp_bind. eapply wp_mono; [by apply Hs|]. intros a w' Hev.
  apply wp_ret. exact (evolves_idle _ _ _ Hev Hw).
Qed.

(** ** Every public method is safe *)

Lemma safe_nssaccounts : safe (p := p) (d := d) any_rows (get_nssaccounts self).
Proof.
  apply safe_try; [|intros ?; apply safe_ret].
  apply safe_bind; [by apply (safe_weaken rows_eq), (safe_db_read self)|intros ?; apply safe_ret].
Qed.

Lemma safe_nssaccount id : safe (p := p) (d := d) any_rows (get_nssaccount self id).
Proof. by apply safe_usertoken_then. Qed.

Lemma safe_nssgroups : safe (p := p) (d := d) any_rows (get_nssgroups self).
Proof.
  apply safe_try.
  - apply safe_bind; [by apply (safe_weaken rows_eq), (safe_db_read self)|intros ?; apply safe_ret].
  - intros l. apply safe_bind; [|intros ?; apply safe_ret].
    apply safe_mapM. intros g. by apply (safe_weaken rows_eq), safe_nss_group.
Qed.

Lemma safe_nssgroup id : safe (p := p) (d := d) any_rows (get_nssgroup self id).
Proof.
  apply safe_try; [by apply (safe_weaken rows_eq), safe_get_grouptoken|].
  intros [g|]; [|apply safe_ret]. apply safe_bind; [|intros ?; apply safe_ret].
  by apply (safe_weaken rows_eq), safe_nss_group.
Qed.

Lemma safe_groupmembers u : safe (p := p) (d := d) any_rows (get_groupmembers self u).
Proof.
  apply safe_bind; [by apply (safe_weaken rows_eq), (safe_db_read self)|intros ?; apply safe_ret].
Qed.

Lemma safe_initgroups a : safe (p := p) (d := d) any_rows (get_initgroups self a).
Proof. by apply safe_usertoken_then. Qed.

Lemma safe_account_allowed a : safe (p := p) (d := d) any_rows (pam_account_allowed self a).
Proof.
  apply safe_try; [by apply safe_get_usertoken|]. intros t. case_match; apply safe_ret.
Qed.

Lemma safe_beginsession a : safe (p := p) (d := d) any_rows (pam_account_beginsession self a).
Proof. by apply safe_usertoken_then. Qed.

Lemma safe_accesstoken i l c r q :
  safe (p := p) (d := d) any_rows (get_user_accesstoken self i l c r q).
Proof. apply safe_user_service; [done|]. intros t. by apply (safe_provider_then self). Qed.

Lemma safe_tgts i : safe (p := p) (d := d) any_rows (get_user_tgts self i).
Proof. apply safe_user_service; [done|]. intros t. by apply (safe_provider_then self). Qed.

Lemma safe_prt_cookie i n : safe (p := p) (d := d) any_rows (get_user_prt_cookie self i n).
Proof. apply safe_user_service; [done|]. intros t. by apply (safe_provider_then self). Qed.

Lemma safe_change_auth_token a t n :
  safe (p := p) (d := d) any_rows (change_auth_token self a t n).
Proof.
  apply safe_bind; [apply safe_check_nxset, _|]. intros []; [apply safe_ret|].
  by apply (safe_provider_then self).
Qed.

Lemma safe_break_glass ttl : safe (p := p) (d := d) any_rows (offline_break_glass ttl).
Proof. apply safe_bind; [apply safe_call, _|intros ?; apply safe_ret]. Qed.

Lemma safe_connection : safe (p := p) (d := d) any_rows test_connection.
Proof. by apply (safe_weaken rows_eq), (safe_test_connection self). Qed.

Lemma safe_auth_init a s n f :
  d ∨ online_init_total self →
  safe (p := p) (d := d) any_rows (pam_account_authenticate_init self a s n f).
Proof. intros Hd. apply safe_authenticate_init; [done|tauto]. Qed.

#[local] Hint Resolve safe_nssaccounts safe_nssaccount safe_nssgroups safe_nssgroup safe_initgroups
  safe_account_allowed safe_beginsession safe_accesstoken safe_tgts safe_prt_cookie
  safe_change_auth_token safe_break_glass safe_connection safe_auth_init : safe.
#[local] Hint Resolve safe_invalidate_cache safe_clear_cache safe_authenticate_step
  safe_try_unseal : safe.

Lemma wp_run_request r w :
  d ∨ online_init_total self → idle (p := p) w →
  wp p d (run_request self r) (λ _ w', idle (p := p) w') w.
Proof.
  intros Hd Hw. destruct r; simpl.
  3: { apply wp_reload_nxset; [by eapply idle_held|]. destruct Hw as [Hh []]. by split; [|split]. }
  all: apply wp_safe; [|done]; eauto with safe.
  all: apply safe_call, _.
Qed.

Lemma wp_serve l w :
  d ∨ online_init_total self → idle (p := p) w →
  wp p d (serve self l) (λ _ w', idle (p := p) w') w.
Proof.
  intros Hd. revert w. induction l as [|r l IH]; intros w Hw; simpl; [by apply wp_ret|].
  apply wp_bind. eapply wp_mono; [by apply wp_run_request|]. intros [] w' Hw'. by apply IH.
Qed.

End requests.

#[export] Hint Resolve safe_nssaccounts safe_nssaccount safe_nssgroups safe_nssgroup
  safe_groupmembers safe_initgroups safe_account_allowed safe_beginsession safe_accesstoken safe_tgts
  safe_prt_cookie safe_change_auth_token safe_break_glass safe_connection safe_auth_init : safe.
#[export] Hint Resolve safe_invalidate_cache safe_clear_cache safe_authenticate_step
  safe_try_unseal : safe.
