(* ===== verification/ResolverModels.v ===== *)
(** * Executable instances for the resolver

    A small provider, a bounded LRU cache and environments that satisfy the
    interfaces of [Runtime], on which the theorems of the resolver are evaluated. *)
From stdpp Require Import base gmap strings list fin_maps.
From Stdlib Require Import ZArith Lia.
From S2P Require Import Prelude Proto Interface Db DbSpec DbFacts Models Runtime Resolver ResolverLogic.

(** ** An LRU cache: most recent entry first, cut at its capacity *)

Record ModelLru := { lru_cap : nat; lru_entries : list (Id * SystemTime) }.

Definition drop_key (k : Id) (l : list (Id * SystemTime)) : list (Id * SystemTime) :=
  List.filter (λ e, negb (bool_decide (e.1 = k))) l.

Fixpoint lookup_key (k : Id) (l : list (Id * SystemTime)) : option SystemTime :=
  match l with
  | [] => None
  | (k', v) :: l' => if bool_decide (k' = k) then Some v else lookup_key k l'
  end.

#[export] Instance model_lru : LruCache := {|
  Lru := ModelLru;
  lru_new n := Build_ModelLru (pred n) [];
  lru_put k v c :=
    Build_ModelLru (lru_cap c) (take (S (lru_cap c)) ((k, v) :: drop_key k (lru_entries c)));
  lru_get k c :=
    match lookup_key k (lru_entries c) with
    | Some v => (Some v, Build_ModelLru (lru_cap c) ((k, v) :: drop_key k (lru_entries c)))
    | None => (None, c)
    end;
  lru_clear c := Build_ModelLru (lru_cap c) []
|}.

Lemma lookup_drop_ne k k' l : k ≠ k' → lookup_key k (drop_key k' l) = lookup_key k l.
Proof.
  intros Hk. induction l as [|[x v] l IH]; simpl; [done|].
  destruct (bool_decide_reflect (x = k')) as [->|]; simpl.
  - by rewrite bool_decide_false by congruence.
  - by rewrite IH.
Qed.

Lemma lookup_take k v n l : lookup_key k (take n l) = Some v → lookup_key k l = Some v.
Proof.
  revert n. induction l as [|[x u] l IH]; intros [|n]; simpl; try done.
  case_bool_decide; [done|]. apply IH.
Qed.

#[export] Instance model_lru_laws : LruLaws model_lru.
Proof.
  assert (∀ k c, (lru_get k c).1 = lookup_key k (lru_entries c)) as Hget.
  { intros k c. simpl. by destruct (lookup_key k (lru_entries c)). }
  split.
  - intros k v c. rewrite Hget. simpl. by rewrite bool_decide_true.
  - intros k k' c. rewrite !Hget. simpl. destruct (lookup_key k' _) as [v|] eqn:E; [|done]. simpl.
    case_bool_decide; [by subst|]. by apply lookup_drop_ne.
  - intros k k' v v' c Hk. rewrite !Hget. simpl. rewrite bool_decide_false by done.
    intros H%lookup_take. by rewrite lookup_drop_ne in H.
  - intros k c. by rewrite Hget.
  - intros k n. by rewrite Hget.
Qed.

(** ** A provider with one directory entry and one PIN *)

Definition ModelClient : Type := CacheState * option UserToken.

Definition model_pin : string := "271828".

(** [init] is what starting an online authentication answers. *)
Definition model_provider (init : result (AuthRequest * AuthCredHandler) IdpError) : IdProvider := {|
  Client := ModelClient;
  configure_hsm_keys _ := λ _ c k h, (Ok tt, c, k, h);
  check_online _ := λ _ c h, (match c.1 with CacheState_Online => true | _ => false end, c, h);
  unix_user_get _ _ _ := λ _ c k h,
    (Ok (match c.2 with Some t => UserTokenState_Update t | None => UserTokenState_NotFound end), c, k, h);
  unix_user_access _ _ _ _ _ _ _ := λ _ c k h, (Ok "access token", c, k, h);
  unix_user_tgts _ _ _ := λ _ c k h, ((None, None, None, None), c, k, h);
  unix_user_prt_cookie _ _ _ _ := λ _ c k h, (Ok "cookie", c, k, h);
  prov_change_auth_token _ _ _ _ := λ _ c k h, (Ok true, c, k, h);
  unix_user_online_auth_init _ _ _ _ _ _ := λ _ c k h, (init, c, k, h);
  unix_user_online_auth_step _ token _ _ ch req _ := λ _ c k h,
    ((ch, match req with
          | PamAuthRequest_Pin cred =>
              if String.eqb cred model_pin then Ok (AuthResult_Success token, AuthCacheAction_None)
              else Ok (AuthResult_Denied "wrong pin", AuthCacheAction_None)
          | PamAuthRequest_Password cred =>
              Ok (AuthResult_Success token, AuthCacheAction_PasswordHashUpdate cred)
          | _ => Err IdpError_BadRequest
          end), c, k, h);
  unix_user_offline_auth_init _ _ _ := λ _ c k, (Ok (AuthRequest_Password, AuthCredHandler_None), c, k);
  unix_user_offline_auth_step _ token ch req _ _ := λ _ c k h,
    ((ch, match req with
          | PamAuthRequest_Pin cred =>
              if String.eqb cred model_pin then Ok (AuthResult_Success token)
              else Ok (AuthResult_Denied "wrong pin")
          | _ => Err IdpError_BadRequest
          end), c, k, h);
  unix_group_get _ := λ _ c h, (Err IdpError_BadRequest, c, h);
  prov_get_cachestate _ := λ _ c k, (c.1, c, k);
  prov_offline_break_glass _ := λ _ c, (Ok tt, c);
  prov_export_broker_prts := λ _ c, (Some [], c);
  prov_import_broker_prts _ := λ _ c, (Some tt, c)
|}.

(** The usual provider asks for the PIN. *)
#[export] Instance pin_provider : IdProvider :=
  model_provider (Ok (AuthRequest_Pin, AuthCredHandler_None)).

(** A provider that loses its connection when an authentication starts. *)
Definition failing_provider : IdProvider := model_provider (Err IdpError_Transport).

(** A provider whose connection is always down. *)
Definition down_provider : IdProvider := {|
  Client := unit;
  configure_hsm_keys _ := λ _ c k h, (Ok tt, c, k, h);
  check_online _ := λ _ c h, (false, c, h);
  unix_user_get _ _ _ := λ _ c k h, (Err IdpError_Transport, c, k, h);
  unix_user_access _ _ _ _ _ _ _ := λ _ c k h, (Err IdpError_Transport, c, k, h);
  unix_user_tgts _ _ _ := λ _ c k h, ((None, None, None, None), c, k, h);
  unix_user_prt_cookie _ _ _ _ := λ _ c k h, (Err IdpError_Transport, c, k, h);
  prov_change_auth_token _ _ _ _ := λ _ c k h, (Err IdpError_Transport, c, k, h);
  unix_user_online_auth_init _ _ _ _ _ _ := λ _ c k h, (Err IdpError_Transport, c, k, h);
  unix_user_online_auth_step _ _ _ _ ch _ _ := λ _ c k h, ((ch, Err IdpError_Transport), c, k, h);
  unix_user_offline_auth_init _ _ _ := λ _ c k, (Ok (AuthRequest_Password, AuthCredHandler_None), c, k);
  unix_user_offline_auth_step _ _ ch _ _ _ := λ _ c k h, ((ch, Err IdpError_BadRequest), c, k, h);
  unix_group_get _ := λ _ c h, (Err IdpError_Transport, c, h);
  prov_get_cachestate _ := λ _ c k, (CacheState_Offline, c, k);
  prov_offline_break_glass _ := λ _ c, (Ok tt, c);
  prov_export_broker_prts := λ _ c, (Some [], c);
  prov_import_broker_prts _ := λ _ c, (Some tt, c)
|}.

(** ** Environments *)

Definition model_clock (_ : nat) : SystemTime := 1700000000 * NS.

(** Everything works. *)
#[export] Instance calm_env : Env := {|
  clock := model_clock;
  sql_fault _ := false;
  begin_fault _ := false;
  commit_fault _ := None;
  rollback_fault _ := false;
  path_exists s := String.eqb s "/bin/bash";
  remove_fault _ := false
|}.

(** Every commit fails and leaves its transaction open. *)
Definition busy_env : Env := {|
  clock := model_clock;
  sql_fault _ := false;
  begin_fault _ := false;
  commit_fault _ := Some CommitLeavesOpen;
  rollback_fault _ := false;
  path_exists _ := false;
  remove_fault _ := false
|}.

(** ** A resolver and worlds *)

Definition model_resolver : Resolver := {|
  machine_key := "machine"; hmac_key := "hmac"; pam_allow_groups := {[ "77" ]};
  timeout_seconds := 300; default_shell := "/bin/bash"; home_prefix := "/home/";
  home_attr := HomeAttr_Uuid; home_alias := None; uid_attr_map := UidAttr_Name;
  gid_attr_map := UidAttr_Spn; allow_id_overrides := {[ Id_Name "svc" ]}
|}.

Lemma model_calm : calm (timeout_seconds model_resolver).
Proof. by split. Qed.

(** A database that caches [sample_user] until [expire]. *)
Definition cached_db (expire : Z) : Tables :=
  upsert_account sample_user (enc (user_tuple sample_user)) expire migrated_db.

Lemma migrated_wf : db_wf migrated_db.
Proof. by apply (db_wf_same empty_db); [..|apply db_wf_empty]. Qed.

Lemma cached_wf expire : 0 ≤ expire ≤ i64_max → db_wf (cached_db expire).
Proof. intros He. apply upsert_account_wf; [done|done|apply migrated_wf]. Qed.

Definition model_world (state : CacheState) (dir : option UserToken) (t : Tables) (nx : gset Id)
  : World :=
  Build_World 0 [] (Build_Conn t None) 0%nat (state, dir) nx (lru_new NXCACHE_SIZE) true.

(** The world a run ends in, and its value. *)
Definition world_of {X : Ext} {C : Crypto} {P : IdProvider} {L : LruCache} {A}
  (o : outcome A) (w : World) : World :=
  match o with Ret _ w' => w' | _ => w end.

Definition value_of {X : Ext} {C : Crypto} {P : IdProvider} {L : LruCache} {A}
  (o : outcome A) (a : A) : A :=
  match o with Ret a' _ => a' | _ => a end.

Definition is_ret {X : Ext} {C : Crypto} {P : IdProvider} {L : LruCache} {A} (o : outcome A) : bool :=
  match o with Ret _ _ => true | _ => false end.

(** Only the value of a run has to be evaluated, its world stays a run. *)
Lemma run_to {X : Ext} {C : Crypto} {P : IdProvider} {L : LruCache} {A} (o : outcome A) w a :
  is_ret o = true → value_of o a = a → o = Ret a (world_of o w).
Proof. destruct o; [|done..]. simpl. by intros _ ->. Qed.

(** A run ends in its own value and world. *)
Lemma run_self {X : Ext} {C : Crypto} {P : IdProvider} {L : LruCache} {A} (o : outcome A) w a :
  is_ret o = true → o = Ret (value_of o a) (world_of o w).
Proof. by destruct o. Qed.

Lemma run_pair {X : Ext} {C : Crypto} {P : IdProvider} {L : LruCache} {A B} (o : outcome (A * B)) w a x :
  is_ret o = true → (value_of o a).1 = x → o = Ret (x, (value_of o a).2) (world_of o w).
Proof. destruct o as [[]| |]; [|done..]. by intros _ <-. Qed.

Ltac run_refl :=
  lazymatch goal with
  | |- ?o = Ret ?a (world_of _ ?w) => exact (run_to o w a eq_refl eq_refl)
  | |- _ = Ret _ ?w => unfold w; run_refl
  | |- _ => reflexivity
  end.
