(* ===== verification/ResolverTheorems.v ===== *)
(** * Theorems on the resolver

    What the daemon's clients rely on: requests do not wedge, local accounts are
    left alone, authorisation looks at object ids only, a session succeeds only on
    evidence, and the cache is updated atomically and read back faithfully. *)
From stdpp Require Import base gmap strings list fin_maps fin_sets.
From Stdlib Require Import ZArith Lia.
From S2P Require Import Prelude Proto Interface Db DbSpec DbFacts Models.
From S2P Require Import Runtime Resolver ResolverLogic ResolverFacts ResolverModels.

Open Scope rust_scope.

(** Prove a fact on the result of a run by the program logic. *)
Ltac by_wp Hr :=
  match type of Hr with
  | ?m ?w = Ret ?r ?w' =>
      pattern r, w'; refine (wp_result (p := True) (d := True) m _ w r w' _ Hr); clear Hr
  end.

(** The same when the result is a known value: it becomes a hypothesis. *)
Ltac by_wp_eq Hr :=
  match type of Hr with
  | ?m ?w = Ret ?r ?w' =>
      let rr := fresh "rr" in let Err := fresh "Hrr" in
      remember r as rr eqn:Err; revert Err; by_wp Hr
  end.

Section theorems.
Context {X : Ext} {SD : Serde} {SL : SerdeLaws SD} {C : Crypto} {P : IdProvider} {L : LruCache}
  {E : Env}.
Implicit Types (self : Resolver) (w : World).

(** The state between two requests. *)
Definition settled (w : World) : Prop :=
  w_held w = [] ∧ txn (w_conn w) = None ∧ db_wf (disk (w_conn w)).

Lemma settled_idle p w : settled w → idle (p := p) w.
Proof. intros (H1 & H2 & H3). split; [done|]. split; auto. Qed.

Lemma settled_result {A} (m : M A) R w a w' :
  settled w → safe (p := True) (d := True) R m → m w = Ret a w' → evolves True R w w'.
Proof.
  intros Hw Hs Hr. pose proof (Hs w (settled_idle _ _ Hw)) as H.
  exact (wp_result _ _ _ _ _ H Hr).
Qed.

Lemma check_nxset_run name idn w :
  w_held w = [] → check_nxset name idn w = Ret (in_nxset (w_nxset w) name idn) w.
Proof.
  intros Hh. destruct w. simpl in Hh. by subst.
Qed.

(** ** Requests do not wedge *)

(** Whatever statements, commits or provider calls fail, a sequence of requests
    served one after the other never deadlocks on the daemon's own locks, and where
    it ends without a panic every lock has been released and the cache is well
    formed, as long as the provider does not fail to start an online authentication. *)
Theorem serve_safe self l w :
  online_init_total self → settled w →
  serve self l w ≠ Deadlocked ∧
  ∀ w', serve self l w = Ret tt w' → w_held w' = [] ∧ db_wf (disk (w_conn w')).
Proof.
  intros Hd Hw. pose proof (wp_serve (p := True) (d := False) self (or_introl I) l w
    (or_intror Hd) (settled_idle _ _ Hw)) as H. unfold wp in H.
  destruct (serve self l w) as [[] w1| |]; [|done..]. split; [done|]. intros w' [= <-].
  destruct H as [? []]. auto.
Qed.

(** C28. When SQLite begins, commits and rolls back transactions as asked, the clock plus
    the cache timeout stays in range, and the provider does not fail to start an online
    authentication that may fall back to an offline one, every sequence of requests runs to
    completion: no panic, no deadlock, no lock and no transaction left behind. The last
    condition is needed: where it does not hold a request blocks for ever
    ([auth_init_self_deadlock]). *)
Theorem serve_total self l w :
  calm (timeout_seconds self) → online_init_total self → settled w →
  ∃ w', serve self l w = Ret tt w' ∧ settled w'.
Proof.
  intros Hc Hd Hw. pose proof (wp_serve (p := False) (d := False) self (or_intror Hc) l w
    (or_intror Hd) (settled_idle _ _ Hw)) as H. unfold wp in H.
  destruct (serve self l w) as [[] w'| |]; [|done..]. exists w'. split; [done|].
  destruct H as [? [[|]]]; done.
Qed.

(** A provider that fails to start an online authentication blocks the request
    for ever: without [force_reauth] the resolver then asks for the cache state,
    which needs the database lock it still holds. *)
Theorem auth_init_self_deadlock self account service nhp token e w w1 w2 :
  w_held w = [] → in_nxset (w_nxset w) (Some account) None = false →
  init_token self account w = Ret (Ok token) w1 →
  init_online account w1 = Ret true w2 →
  w_held w2 = [] → txn (w_conn w2) = None → begin_fault (w_tick w2) = false →
  (unix_user_online_auth_init account token service nhp false (machine_key self)
     (S (w_tick w2)) (w_client w2) (hsm_data_t (disk (w_conn w2))) (w_tpm w2)).1.1.1 = Err e →
  pam_account_authenticate_init self account service nhp false w = Deadlocked.
Proof.
  intros Hh Hn Ht Ho Hh2 Htx Hb He. unfold pam_account_authenticate_init.
  unfold mbind at 1, M_bind at 1.
  rewrite check_nxset_run, Hn by done.
  unfold try. unfold mbind at 1, M_bind at 1. rewrite Ht. unfold mbind at 1, M_bind at 1. rewrite Ho.
  unfold mbind at 1, M_bind at 1.
  enough (online_init self account service token nhp false w2 = Deadlocked) as -> by done.
  unfold online_init, mbind, M_bind, acquire. rewrite Hh2. simpl.
  unfold db_write, mbind, M_bind, acquire, draw, get, modify, conn_begin. simpl. rewrite Htx, Hb.
  simpl. unfold call_full, keys, conn_tables. simpl.
  destruct (unix_user_online_auth_init _ _ _ _ _ _ _ _ _ _) as [[[r c] k] h]. simpl in He. subst r.
  by rewrite get_cachestate_deadlock by (simpl; set_solver).
Qed.

(** ** Local accounts *)

(** C18. An account whose name or number is in the exclusion set never reaches the
    provider or the cache: every entry point that takes it answers at once that it
    is unknown, and nothing changes. *)
Theorem local_account_untouched self w id scopes a b c n :
  w_held w = [] → id ∈ w_nxset w →
  get_usertoken self id w = Ret (Ok None) w ∧
  get_user_accesstoken self id scopes a b c w = Ret None w ∧
  get_user_tgts self id w = Ret None w ∧
  get_user_prt_cookie self id n w = Ret None w ∧
  ∀ account, id = Id_Name account →
    (∀ tok new_tok, change_auth_token self account tok new_tok w = Ret (Ok false) w) ∧
    (∀ service nhp force, pam_account_authenticate_init self account service nhp force w =
       Ret (Ok (AuthSession_Denied, PamAuthResponse_Unknown)) w).
Proof.
  intros Hh Hin.
  assert (check_nxset_id id w = Ret true w) as Hc.
  { destruct id; simpl; rewrite check_nxset_run by done; unfold in_nxset; rewrite bool_decide_true by done.
    - done.
    - by rewrite orb_true_r. }
  split_and!.
  1-4: unfold get_usertoken, get_user_accesstoken, get_user_tgts, get_user_prt_cookie, user_service,
    mbind, M_bind; by rewrite Hc.
  intros account ->. unfold check_nxset_id in Hc.
  split; intros; unfold change_auth_token, pam_account_authenticate_init, mbind, M_bind; by rewrite Hc.
Qed.

(** [reload_nxset] excludes exactly the names and numbers of the local entries for
    which no override is configured. *)
Lemma reload_nxset_iff self iter w w' id :
  reload_nxset self iter w = Ret tt w' →
  id ∈ w_nxset w' ↔
  ∃ name gid, (name, gid) ∈ iter ∧ (id = Id_Name name ∨ id = Id_Gid gid) ∧
    Id_Name name ∉ allow_id_overrides self ∧ Id_Gid gid ∉ allow_id_overrides self.
Proof.
  intros Hr. assert (w_nxset w' = foldl (nxset_add self) ∅ iter) as ->.
  { unfold reload_nxset, mbind, M_bind, acquire in Hr. destruct (decide _); [done|].
    by injection Hr as <-. }
  assert (∀ l s, id ∈ foldl (nxset_add self) s l ↔ id ∈ s ∨
    ∃ name gid, (name, gid) ∈ l ∧ (id = Id_Name name ∨ id = Id_Gid gid) ∧
    Id_Name name ∉ allow_id_overrides self ∧ Id_Gid gid ∉ allow_id_overrides self) as H;
    [|rewrite H; set_solver].
  clear. induction l as [|[name gid] l IH]; intros s; simpl; [set_solver|].
  rewrite IH. unfold nxset_add. simpl. do 2 case_bool_decide; simpl; set_solver.
Qed.

(** ** Authorisation *)

(** C17. [pam_account_allowed] follows the account lookup and then decides by object
    id alone: with an empty allow list everyone is allowed; otherwise a known account
    is allowed exactly when its token is valid and the requested name or the object
    id of one of its groups is listed. Group names play no part. *)
Theorem pam_account_allowed_exact self account w r w' :
  get_usertoken self (Id_Name account) w = Ret r w' →
  pam_account_allowed self account w =
  Ret (match r with
       | Err _ => Err tt
       | Ok tok =>
           if bool_decide (pam_allow_groups self = ∅) then Ok (Some true)
           else Ok ((λ tok, t_valid tok &&
                       bool_decide (account ∈ pam_allow_groups self ∨
                         Exists (λ g, hyphenated (g_uuid g) ∈ pam_allow_groups self) (t_groups tok)))
                    <$> tok)
       end) w'.
Proof.
  intros Hr. unfold pam_account_allowed, try, mbind, M_bind. rewrite Hr.
  destruct r as [tok|[]]; [|done]. case_bool_decide; [done|]. unfold mret, M_ret.
  do 2 f_equal. destruct tok as [tok|]; [|done]. simpl. f_equal.
  unfold token_allowed. rewrite andb_comm. f_equal. apply eq_bool_prop_intro.
  rewrite bool_decide_spec. rewrite Is_true_true, Nat.ltb_lt.
  unfold user_set. rewrite Exists_exists. split.
  - intros Hs. destruct (size_pos_elem_of _ Hs) as [x Hx].
    apply elem_of_intersection in Hx as [Hx Ha]. apply elem_of_list_to_set in Hx.
    apply elem_of_app in Hx as [Hx|Hx].
    + apply list_elem_of_fmap in Hx as (g & -> & Hg). right. eauto.
    + apply list_elem_of_singleton in Hx as ->. by left.
  - intros Hx. apply Nat.neq_0_lt_0. intros Hs%size_empty_inv.
    assert (∀ x, x ∈ ((λ g, hyphenated (g_uuid g)) <$> t_groups tok) ++ [account] →
              x ∉ pam_allow_groups self) as Hno.
    { intros x Hx1 Hx2. apply (not_elem_of_empty (C := gset string) x). rewrite <- Hs. set_solver. }
    destruct Hx as [Hx|(g & Hg & Hx)].
    + apply (Hno account); [|done]. apply elem_of_app. right. by apply list_elem_of_singleton.
    + apply (Hno (hyphenated (g_uuid g))); [|done]. apply elem_of_app. left.
      apply list_elem_of_fmap. eauto.
Qed.

(** ** The cache *)

Lemma set_cache_usertoken_ok self tok tok' w w1 :
  settled w → set_cache_usertoken self tok w = Ret (Ok tok') w1 →
  tok' = stored_token self (w_nxset w) tok ∧ ∃ off n,
    in_u64 off ∧ off = (clock (w_tick w) + timeout_seconds self * NS) / NS ∧
    store_usertoken tok' off sql_fault (S (S (w_tick w)), disk (w_conn w))
      = (Ok tt, (n, disk (w_conn w1))).
Proof.
  intros Hw Hs. set (Q := λ (r : result UserToken unit) (w1 : World), r = Ok tok' →
    tok' = stored_token self (w_nxset w) tok ∧ ∃ off n,
    in_u64 off ∧ off = (clock (w_tick w) + timeout_seconds self * NS) / NS ∧
    store_usertoken tok' off sql_fault (S (S (w_tick w)), disk (w_conn w))
      = (Ok tt, (n, disk (w_conn w1)))).
  assert (wp True True (set_cache_usertoken self tok) Q w) as H.
  { apply wp_set_cache_usertoken; [by left|by apply settled_idle| |done].
    intros off n t w' t0 _ Hu Ho Hr _ Hd _ [= <-]. split; [done|]. exists off, n. by rewrite Hd. }
  exact (wp_result _ _ _ _ _ H Hs eq_refl).
Qed.

(** In a calm environment a cache lookup returns, with the answer of [cached_answer]. *)
Lemma get_cached_run {A} self id (m : DbM (option (A * Z))) w q n t :
  calm (timeout_seconds self) → settled w → expiry_bounded m →
  m sql_fault (S (w_tick w), disk (w_conn w)) = (q, (n, t)) →
  ∃ w', get_cached id m w = Ret (cached_answer (w_nxcache w) id q n) w' ∧ evolves False eq w w'.
Proof.
  intros Hc Hw Hb Hm.
  assert (wp False False (get_cached id m)
    (λ r w', r = cached_answer (w_nxcache w) id q n ∧ evolves False eq w w') w) as H.
  { pose proof (settled_idle False _ Hw) as Hi.
    apply (wp_get_cached self (or_intror Hc)); [done|exact (idle_held _ _ Hi)..|apply Hi|].
    intros q' n' t' w' Hm' Hev _ _ _. rewrite Hm in Hm'. injection Hm' as <- <- <-. done. }
  unfold wp in H. destruct (get_cached id m w) as [r w'| |]; [|done..].
  destruct H as [-> ?]. eauto.
Qed.

(** A token that was stored is found again: after a successful
    [set_cache_usertoken], any later lookup by uid on the same disk returns the token
    as stored, with the shell replaced when it does not exist here and the local
    groups removed, and reports it expired exactly when the timeout has passed. *)
Theorem stored_token_found self tok tok' w w1 w2 :
  settled w → created (disk (w_conn w)) = true →
  set_cache_usertoken self tok w = Ret (Ok tok') w1 →
  calm (timeout_seconds self) → settled w2 → disk (w_conn w2) = disk (w_conn w1) →
  sql_fault (S (w_tick w2)) = false →
  tok' = retain_groups (w_nxset w) (with_shell self tok) ∧
  ∃ w3, get_cached_usertoken (Id_Gid (t_gidnumber tok)) w2 =
    Ret (Ok ((clock (w_tick w) + timeout_seconds self * NS) / NS * NS <=? clock (S (S (w_tick w2))),
             Some tok')) w3.
Proof.
  intros Hw Hc Hs Hcalm Hw2 Hdisk Hf.
  destruct (set_cache_usertoken_ok _ _ _ _ _ Hw Hs) as (Htok & off & n & Hu & <- & Hst).
  split; [exact Htok|].
  destruct (store_usertoken_ok _ _ _ _ _ _ _ Hu (proj2 (proj2 Hw)) Hst)
    as (data & t1 & Hd & Hle & Hwf1 & Ha & Hc1 & Ht).
  assert (t_gidnumber tok' = t_gidnumber tok) as Hg.
  { rewrite Htok. unfold stored_token, with_shell. simpl. by case_match. }
  set (r := account_row (hyphenated (t_uuid tok')) tok'
              (old_password (hyphenated (t_uuid tok')) (account_t t1)) data off).
  assert (get_account (Id_Gid (t_gidnumber tok)) sql_fault (S (w_tick w2), disk (w_conn w2))
          = (Ok (Some (tok', off)), (S (S (w_tick w2)), disk (w_conn w2)))) as Hget.
  { rewrite (get_account_one _ _ _ _ r tok'); [by rewrite Nat.add_1_r|done|..].
    - rewrite Hdisk, Ht. simpl. congruence.
    - rewrite Hdisk, Ht. apply upsert_lookup; [apply Hwf1|simpl; by rewrite Hg, Z.eqb_refl|].
      intros r' Hr' Hk Hne. simpl. apply Z.eqb_neq. rewrite <- Hg.
      by destruct (proj1 (purge_keeps_spec _ _ _) Hk) as [?|(_ & _ & ?)].
    - by apply user_roundtrip.
    - apply Hu. }
  destruct (get_cached_run self (Id_Gid (t_gidnumber tok)) _ _ _ _ _ Hcalm Hw2
              (get_account_bounded _) Hget) as (w3 & H & _).
  exists w3. exact H.
Qed.

(** The disk is untouched when the result is an error. *)
Definition atomic_at {A} (w0 : World) (r : result A unit) (w' : World) : Prop :=
  r = Err tt → disk (w_conn w') = disk (w_conn w0).

Lemma write_txn_atomic {A} self (m : DbM A) w0 w :
  idle (p := True) w → disk (w_conn w) = disk (w_conn w0) → db_preserves db_wf m →
  wp True True (_ ← db_write; r ← db_run m; and_commit r) (atomic_at w0) w.
Proof.
  intros Hi Hd Hm. apply (wp_write_txn self (or_introl I) m any_rows);
    [exact (idle_held _ _ Hi)|apply Hi| |done|].
  - intros r n t Hr. split; [|done]. intros Hwf. by eapply Hm.
  - intros w' _ Hd' _. congruence.
Qed.

(** C31. Cache writes are atomic: when storing a user or group token, deleting one, or
    storing a password reports an error, what is on disk has not changed. *)
Theorem failed_write_atomic self tok g u cred w w' :
  settled w →
  set_cache_usertoken self tok w = Ret (Err tt) w' ∨
  set_cache_grouptoken self g w = Ret (Err tt) w' ∨
  delete_cache_usertoken u w = Ret (Err tt) w' ∨
  delete_cache_grouptoken u w = Ret (Err tt) w' ∨
  set_cache_userpassword self u cred w = Ret (Err tt) w' →
  disk (w_conn w') = disk (w_conn w).
Proof.
  intros Hw. pose proof (settled_idle True _ Hw) as Hi.
  intros [H|[H|[H|[H|H]]]]; (eapply (wp_result (p := True) (d := True) _ (atomic_at w)); [|exact H|done]).
  - apply wp_set_cache_usertoken; [by left|done|done|]. by intros w1 _ Hd _.
  - apply wp_bind, wp_expiry_offset; [by left|]. intros Hb.
    destruct (secs_since_epoch _) as [off|] eqn:Eo; [|by apply wp_ret].
    destruct (secs_in_u64 _ _ ltac:(by rewrite secs_add) Eo) as [Hu _].
    apply (write_txn_atomic self); [destruct Hi as [? []]; by split|done|].
    by apply update_group_preserves.
  - apply (write_txn_atomic self); [done|done|]. apply (run_op_preserves (OpDeleteAccount u) I).
  - apply (write_txn_atomic self); [done|done|]. apply (run_op_preserves (OpDeleteGroup u) I).
  - apply (wp_hsm_txn self (or_introl I) (update_account_password u cred (hmac_key self)) any_rows);
      [done| |done|].
    + intros r n t h Er. split; [|done]. intros Hwf.
      eapply (update_password_preserves u cred); [exact Hwf|]. by rewrite Er.
    + by intros w1 _ Hd _.
Qed.

(** ** Authentication sessions *)

(** Why a step of a session may report success with the token [tok], when it finds the cache
    in [state] and the daemon in [w]: online, and only there, the provider accepts the step;
    otherwise the password cached on the disk of [w] accepts the credential, or the provider
    accepts a PIN or a code offline. The last two are closed to a session that demands
    re-authentication. The provider is called, and the password looked up, in [w], after
    the transaction has been begun. *)
Inductive evidence_at self (w : World) (account service : string) (token : UserToken)
  (online : bool) (h : AuthCredHandler) (nhp force : bool) (req : PamAuthRequest) (tok : UserToken)
  (state : CacheState) : Prop :=
| evidence_online action :
    online = true → state = CacheState_Online →
    (unix_user_online_auth_step account token service nhp h req (machine_key self)
       (S (w_tick w)) (w_client w) (hsm_data_t (disk (w_conn w))) (w_tpm w)).1.1.1.2
      = Ok (AuthResult_Success tok, action) →
    evidence_at self w account service token online h nhp force req tok state
| evidence_password cred :
    ¬ (online = true ∧ state = CacheState_Online) →
    force = false → req = PamAuthRequest_Password cred → tok = token →
    (check_account_password (t_uuid token) cred (hmac_key self) (w_tpm w) sql_fault
       (S (w_tick w), disk (w_conn w))).1.1 = Ok true →
    evidence_at self w account service token online h nhp force req tok state
| evidence_pin :
    ¬ (online = true ∧ state = CacheState_Online) →
    force = false → (∃ cred, req = PamAuthRequest_Pin cred ∨ req = PamAuthRequest_HelloTOTP cred) →
    (unix_user_offline_auth_step account token h req (machine_key self) online
       (S (w_tick w)) (w_client w) (hsm_data_t (disk (w_conn w))) (w_tpm w)).1.1.1.2
      = Ok (AuthResult_Success tok) →
    evidence_at self w account service token online h nhp force req tok state.

(** The evidence for a step of the session [s] that the daemon begins in [w]: the state of the
    cache is the one it finds, and the rest happens in the world that leaves. *)
Definition success_evidence self (w : World) (s : AuthSession) (req : PamAuthRequest) (tok : UserToken) : Prop :=
  ∃ account service id token online h nhp force state w1,
    s = AuthSession_InProgress account service id (Some token) online h nhp force ∧
    get_cachestate (Some account) w = Ret state w1 ∧
    evidence_at self w1 account service token online h nhp force req tok state.

Lemma wp_online_step self account service token nhp h req (Q : _ → World → Prop) w :
  idle (p := True) w →
  (∀ h' f w', evolves True any_rows w w' → (∀ r, f ≠ Return (Ok r)) →
     (∀ tok, f = Yield (Ok (AuthResult_Success tok)) → ∃ action,
        (unix_user_online_auth_step account token service nhp h req (machine_key self)
           (S (w_tick w)) (w_client w) (hsm_data_t (disk (w_conn w))) (w_tpm w)).1.1.1.2
          = Ok (AuthResult_Success tok, action)) → Q (h', f) w') →
  wp True True (online_step self account service token nhp h req) Q w.
Proof.
  intros Hi HQ. apply wp_bind, (wp_provider_txn self (or_introl I));
    [exact (idle_held _ _ Hi)..|apply Hi|].
  intros [h' r] c k hs cm w1 Hr Hev1 _. pose proof (evolves_any _ _ _ _ Hev1) as Hev. rewrite Hr in HQ.
  destruct cm as [[]|e]; [|by apply wp_ret, HQ].
  apply wp_bind.
  assert (∀ (f : step_flow) w2, evolves True any_rows w1 w2 → (∀ r, f ≠ Return (Ok r)) →
    (∀ tok, f = Yield (Ok (AuthResult_Success tok)) →
       ∃ a, r = Ok (AuthResult_Success tok, a)) → Q (h', f) w2) as HQ'.
  { intros f w2 Hev2 H1 H2. apply HQ; [etrans; [exact Hev|exact Hev2]|done|]. exact H2. }
  pose proof (evolves_idle _ _ _ Hev Hi) as Hi1.
  destruct r as [[[tok|msg|nx] [|cred]]|e]; simpl;
    try (by apply wp_ret, wp_ret, HQ'; [reflexivity|..]; naive_solver).
  all: apply wp_bind; (eapply wp_mono; [by apply safe_set_cache_userpassword; [left|]|]);
    intros [?|?] w2 Hev2; by apply wp_ret, wp_ret, HQ'; [|..]; naive_solver.
Qed.

Lemma wp_offline_step self account service token online h nhp force req state (Q : _ → World → Prop) w :
  idle (p := True) w → ¬ (online = true ∧ state = CacheState_Online) →
  (∀ h' f w', evolves True any_rows w w' →
     (∀ r, f = Return (Ok r) → r = PamAuthResponse_Denied OFFLINE_REAUTH_MSG) →
     (∀ tok, f = Yield (Ok (AuthResult_Success tok)) →
        evidence_at self w account service token online h nhp force req tok state) →
     Q (h', f) w') →
  wp True True (offline_step self account token online h force req) Q w.
Proof.
  intros Hi Hoff HQ. unfold offline_step.
  destruct force; [apply wp_ret, HQ; [reflexivity|naive_solver..]|].
  assert (∀ cred, req = PamAuthRequest_Password cred →
    wp True True (f ← offline_password self token cred; mret (h, f)) Q w) as Hpw.
  { intros cred ->. apply wp_bind, wp_bind.
    apply (wp_hsm_txn self (or_introl I)
             (check_account_password (t_uuid token) cred (hmac_key self)) any_rows); [done|..].
    - intros r n t hs ->%check_password_state. done.
    - intros b n t hs w' Hr Hev Hd. apply wp_ret, wp_ret, HQ; [done|by destruct b|].
      destruct b; [|done]. intros tok [= <-].
      eapply evidence_password; [done..|]. by rewrite Hr.
    - intros w' Hev Hd. by apply wp_ret, wp_ret, HQ. }
  assert ((∃ cred, req = PamAuthRequest_Pin cred ∨ req = PamAuthRequest_HelloTOTP cred) →
    wp True True (offline_provider_step self account token online h req) Q w) as Hprov.
  { intros Hreq. apply wp_bind, (wp_provider_txn self (or_introl I));
      [exact (idle_held _ _ Hi)..|apply Hi|].
    intros [h' r] c k hs cm w1 Hr Hev _. apply wp_ret, HQ; [by eapply evolves_any|by destruct cm|].
    destruct cm; [|done]. intros tok [= ->]. apply evidence_pin; [done..|]. by rewrite Hr. }
  destruct h, req; first [by eapply Hpw|by apply Hprov; eauto|apply wp_ret, HQ; [reflexivity|done..]].
Qed.

(** The tail of a step reports success only for a token that is not local; [post] is
    what the session it leaves then satisfies. *)
Lemma wp_step_finish self w (post : AuthSession → Prop) s1 r w1 :
  idle (p := True) w → evolves True any_rows w w1 →
  (∀ tok, r = Ok (AuthResult_Success tok) →
     in_nxset (w_nxset w) (Some (t_name tok)) (Some (t_gidnumber tok)) = false →
     post (AuthSession_Success (t_spn tok))) →
  wp True True (step_finish self s1 r) (λ x w', x.2 = Ok PamAuthResponse_Success → post x.1) w1.
Proof.
  intros Hi Hev Hpost. pose proof (evolves_idle _ _ _ Hev Hi) as Hi1.
  destruct r as [[tok|msg|nx]|[]]; try (by apply wp_ret).
  - apply wp_bind, wp_check_nxset; [exact (idle_held _ _ Hi1)|]. rewrite (ev_nxset _ _ _ _ Hev).
    destruct (in_nxset _ _ _) eqn:En; apply wp_bind.
    + eapply wp_mono; [by apply (safe_delete_cache_usertoken self (or_introl I))|].
      intros [] ? _; by apply wp_ret.
    + apply wp_set_cache_usertoken; [by left|done|..]; [|intros; by apply wp_ret].
      intros off n t w2 t0 _ _ _ _ _ _ _. apply wp_ret. intros _. simpl.
      replace (t_spn _) with (t_spn tok); [by apply Hpost|].
      unfold stored_token, with_shell. simpl. by case_match.
  - apply wp_ret. simpl. intros [= Hnx]. by destruct nx.
Qed.

(** What follows the question for the state of the cache. *)
Lemma dispatch_success self account service id token online h nhp force req state w s' w' :
  idle (p := True) w →
  (sf ← step_dispatch self (AuthSession_InProgress account service id (Some token) online h nhp force) state req;
   match sf with
   | (s, Yield r) => step_finish self s r
   | (s, Return r) => mret (s, r)
   end) w = Ret (s', Ok PamAuthResponse_Success) w' →
  ∃ tok, s' = AuthSession_Success (t_spn tok) ∧
    in_nxset (w_nxset w) (Some (t_name tok)) (Some (t_gidnumber tok)) = false ∧
    evidence_at self w account service token online h nhp force req tok state.
Proof.
  intros Hi Hs. set (post := λ s', ∃ tok, s' = AuthSession_Success (t_spn tok) ∧
    in_nxset (w_nxset w) (Some (t_name tok)) (Some (t_gidnumber tok)) = false ∧
    evidence_at self w account service token online h nhp force req tok state).
  match type of Hs with ?m w = _ =>
    assert (wp True True m (λ x w', x.2 = Ok PamAuthResponse_Success → post x.1) w) as H;
    [|exact (wp_result _ _ _ _ _ H Hs eq_refl)] end. clear Hs.
  pose proof (wp_step_finish self w post) as Hfin.
  (* both branches of the dispatch end in the same way *)
  assert (∀ s1 f w2, evolves True any_rows w w2 →
    (∀ r, f = Return (Ok r) → r = PamAuthResponse_Denied OFFLINE_REAUTH_MSG) →
    (∀ tok, f = Yield (Ok (AuthResult_Success tok)) →
        evidence_at self w account service token online h nhp force req tok state) →
    wp True True (match f with Yield r => step_finish self s1 r | Return r => mret (s1, r) end)
      (λ x w', x.2 = Ok PamAuthResponse_Success → post x.1) w2) as Hflow.
  { intros s1 f w2 Hev2 H1 H2. destruct f as [r|r].
    - apply Hfin; [done|done|]. intros tok -> Hn. unfold post. eauto 20.
    - apply wp_ret. simpl. intros ->. by specialize (H1 _ eq_refl). }
  assert (¬ (online = true ∧ state = CacheState_Online) →
    wp True True (hf ← offline_step self account token online h force req;
      mret (AuthSession_InProgress account service id (Some token) online hf.1 nhp force, hf.2))
      (λ sf w2, wp True True (match sf with (s, Yield r) => step_finish self s r | (s, Return r) => mret (s, r) end)
        (λ x w', x.2 = Ok PamAuthResponse_Success → post x.1) w2) w) as Hoff.
  { intros Hno. apply wp_bind. eapply (wp_offline_step self account service _ _ _ nhp); [done|done|].
    intros h' f w2 Hev2 H1 H2. by apply wp_ret, Hflow. }
  apply wp_bind. unfold step_dispatch. destruct online, state; try by (apply Hoff; naive_solver).
  apply wp_bind, wp_online_step; [done|]. intros h' f w2 Hev2 H1 H2. apply wp_ret.
  apply Hflow; [exact Hev2|naive_solver|]. intros tok [a Ha]%H2. by eapply evidence_online.
Qed.

(** The analysis of a successful step. *)
Lemma step_success self s req w s' w' :
  idle (p := True) w → pam_account_authenticate_step self s req w = Ret (s', Ok PamAuthResponse_Success) w' →
  ∃ tok, success_evidence self w s req tok ∧ s' = AuthSession_Success (t_spn tok) ∧
    in_nxset (w_nxset w) (Some (t_name tok)) (Some (t_gidnumber tok)) = false.
Proof.
  intros Hi Hs. unfold pam_account_authenticate_step, mbind at 1, M_bind at 1 in Hs.
  destruct (step_state s w) as [state w1| |] eqn:Est; [|done..].
  assert (evolves True any_rows w w1) as Hev.
  { apply (evolves_any _ rows_eq). destruct s;
      exact (wp_result (p := True) (d := True) _ _ _ _ _ (safe_get_cachestate self (or_introl I) _ w Hi) Est). }
  pose proof (evolves_idle _ _ _ Hev Hi) as Hi1.
  destruct s as [account service id [token|] online h nhp force|spn|]; [|done..].
  destruct (dispatch_success _ _ _ _ _ _ _ _ _ _ _ _ _ _ Hi1 Hs) as (tok & -> & Hn & He).
  rewrite (ev_nxset _ _ _ _ Hev) in Hn. exists tok. split_and!; [|done|done].
  exists account, service, id, token, online, h, nhp, force, state, w1. split_and!; [done|exact Est|done].
Qed.

(** C2. A step reports success only on evidence that it finds when it is made: the session was
    in progress with a known account; if the session began online and the provider is online
    now, the provider accepts this step, in the state the daemon is in; if not, and the
    session does not demand re-authentication, the password cached on the disk accepts the
    credential, or the provider accepts the PIN or code offline. The released token is not
    that of a local account, and the session ends in [Success] with its SPN. *)
Theorem step_success_evidence self s req w s' w' :
  settled w → pam_account_authenticate_step self s req w = Ret (s', Ok PamAuthResponse_Success) w' →
  ∃ tok, success_evidence self w s req tok ∧ s' = AuthSession_Success (t_spn tok) ∧
    in_nxset (w_nxset w) (Some (t_name tok)) (Some (t_gidnumber tok)) = false.
Proof. intros Hw. by apply step_success, settled_idle. Qed.

(** The state of the cache is what the provider says. *)
Lemma cachestate_said (self : Resolver) account w state w1 : idle (p := True) w → get_cachestate account w = Ret state w1 →
  ∃ n c k, state = (prov_get_cachestate account n c k).1.1.
Proof.
  intros Hi Hs. refine (wp_result (p := True) (d := True) _ (λ state _, ∃ n c k, state = (prov_get_cachestate account n c k).1.1)
    _ _ _ _ Hs). apply (wp_get_cachestate self (or_introl I)); [exact (idle_held _ _ Hi)|apply Hi|]. eauto.
Qed.

(** A session that demands re-authentication never succeeds while the provider is
    not online: neither the cached password nor the PIN is enough. *)
Theorem force_reauth_needs_online self account service id token online h nhp req w s' r w' :
  settled w →
  (∀ n c k, (prov_get_cachestate (Some account) n c k).1.1 ≠ CacheState_Online) →
  pam_account_authenticate_step self
    (AuthSession_InProgress account service id token online h nhp true) req w = Ret (s', r) w' →
  r ≠ Ok PamAuthResponse_Success.
Proof.
  intros Hw Hoff Hs ->. destruct (step_success _ _ _ _ _ _ (settled_idle _ _ Hw) Hs) as (tok & Hev & _).
  destruct Hev as (? & ? & ? & ? & ? & ? & ? & ? & state & w1 & Es & Hst & Hev).
  injection Es as <- <- <- -> <- <- <- <-.
  destruct (cachestate_said self _ _ _ _ (settled_idle _ _ Hw) Hst) as (n & c & k & ->).
  specialize (Hoff n c k). by inversion Hev; subst.
Qed.

(** Offline, a session that demands re-authentication is not even started: the
    user is told that connectivity is needed. *)
Theorem force_reauth_denied_offline self account service nhp token w w1 w2 :
  w_held w = [] → in_nxset (w_nxset w) (Some account) None = false →
  init_token self account w = Ret (Ok token) w1 → init_online account w1 = Ret false w2 →
  pam_account_authenticate_init self account service nhp true w =
    Ret (Ok (AuthSession_Denied, PamAuthResponse_InitDenied OFFLINE_REAUTH_MSG)) w2.
Proof.
  intros Hh Hn Ht Ho. unfold pam_account_authenticate_init, try, mbind, M_bind.
  rewrite check_nxset_run by done. rewrite Hn. by rewrite Ht, Ho.
Qed.

(** A session that succeeded or was denied is over: no request revives it, and
    the step reports an error. *)
Theorem finished_session_absorbs self s req w s' r w' :
  settled w → (∃ spn, s = AuthSession_Success spn) ∨ s = AuthSession_Denied →
  pam_account_authenticate_step self s req w = Ret (s', r) w' → s' = s ∧ r = Err tt.
Proof.
  intros Hw Hs Hr. pose proof (settled_idle True _ Hw) as Hi.
  assert (wp True True (pam_account_authenticate_step self s req)
    (λ x w', x = (s, Err tt)) w) as H.
  { destruct Hs as [[spn ->]| ->];
      apply wp_bind, (wp_get_cachestate self (or_introl I)); try apply Hi;
      try exact (idle_held _ _ Hi); intros n c k w1 _; by apply wp_bind, wp_ret, wp_ret. }
  by apply (wp_result _ _ _ _ _ H) in Hr as [= -> ->].
Qed.

(** Starting a session never reports success by itself, and a session it starts is
    for the account and service it was asked for. *)
Lemma init_session self account service nhp force w session resp w' :
  pam_account_authenticate_init self account service nhp force w = Ret (Ok (session, resp)) w' →
  resp ≠ PamAuthResponse_Success ∧
  (session = AuthSession_Denied ∨ ∃ token online h,
     session = AuthSession_InProgress account service (Id_Name account) token online h nhp force).
Proof.
  unfold pam_account_authenticate_init, try, mbind, M_bind.
  assert (∀ tok o r, init_finish account service tok o nhp force r = Ok (session, resp) →
    resp ≠ PamAuthResponse_Success ∧ (session = AuthSession_Denied ∨ ∃ token online h,
     session = AuthSession_InProgress account service (Id_Name account) token online h nhp force))
    as Hf.
  { intros tok o [[nx h]|[]]; simpl; intros [= <- <-]; [|auto].
    split; [by destruct nx|eauto]. }
  repeat (case_match; try done; simplify_eq/=); intros [= ? ?]; simplify_eq/=; eauto.
Qed.

(** [pam_try_unseal] answers yes only if the provider accepted the PIN for that
    account, online or offline: no cached password and no other request can make it. *)
Theorem try_unseal_evidence self account cred w w' :
  settled w → pam_try_unseal self account cred w = Ret (Ok true) w' →
  ∃ token online h tok n c k hs,
    (∃ action, (unix_user_online_auth_step account token "try_unseal" false h (PamAuthRequest_Pin cred)
       (machine_key self) n c k hs).1.1.1.2 = Ok (AuthResult_Success tok, action)) ∨
    (unix_user_offline_auth_step account token h (PamAuthRequest_Pin cred) (machine_key self) online
       n c k hs).1.1.1.2 = Ok (AuthResult_Success tok).
Proof.
  intros Hw. unfold pam_try_unseal, try, mbind, M_bind.
  destruct (pam_account_authenticate_init _ _ _ _ _ w) as [[[session resp]|[]] w1| |] eqn:Ei; try done.
  destruct (init_session _ _ _ _ _ _ _ _ _ Ei) as [Hns Hses]. destruct resp; try done.
  destruct (pam_account_authenticate_step _ _ _ w1) as [[s' r] w2| |] eqn:Es; try done.
  destruct r as [[]|[]]; try done. intros _.
  pose proof (settled_result _ _ _ _ _ Hw
    (safe_authenticate_init self (or_introl I) _ _ _ _ (or_introl I)) Ei) as Hev.
  destruct (step_success _ _ _ _ _ _ (evolves_idle _ _ _ Hev (settled_idle _ _ Hw)) Es) as (tok & Hsucc & _).
  destruct Hsucc as (? & ? & ? & token & online & h & ? & ? & state & w3 & -> & _ & Hsucc).
  destruct Hses as [|(? & ? & ? & Heq)]; [done|].
  injection Heq as -> -> -> <- <- <- -> ->. inversion Hsucc as [a|? ? ? [=]|]; subst.
  - eexists _, true, _, _, _, _, _, _. left. eexists. eassumption.
  - eexists _, _, _, _, _, _, _, _. right. eassumption.
Qed.

(** Starting a session leaves the disk alone: whatever keys the provider writes
    while it starts an authentication, online or offline, are rolled back. *)
Theorem auth_init_rolls_back self account service token nhp force w r w' :
  settled w →
  online_init self account service token nhp force w = Ret r w' ∨
  offline_init account token nhp w = Ret r w' →
  disk (w_conn w') = disk (w_conn w) ∧ w_held w' = [].
Proof.
  intros Hw Hr. pose proof (settled_idle True _ Hw) as Hi.
  enough (evolves True eq w w') as [Hh _ _ Hd] by (rewrite Hh; by destruct Hw).
  destruct Hr as [Hr|Hr];
    (eapply (wp_result (p := True) (d := True) _ (λ _ w', evolves True eq w w')); [|exact Hr]).
  - apply wp_online_init; auto.
  - apply (wp_offline_init self); auto.
Qed.

(** ** Lookups *)

Lemma refresh_policy_offline {A} b (item : A) refresh :
  refresh_policy b CacheState_Offline item refresh = mret (Ok item).
Proof. by destruct b. Qed.

(** Group lookups are answered from the cache alone: the provider, the TPM and
    the disk are left as they were. *)
Theorem grouptoken_cache_only self id w r w' :
  settled w → get_grouptoken self id w = Ret r w' →
  w_client w' = w_client w ∧ w_tpm w' = w_tpm w ∧ disk (w_conn w') = disk (w_conn w) ∧
  ∃ q n t, get_group id sql_fault (S (w_tick w), disk (w_conn w)) = (q, (n, t)) ∧
    r = match q with Ok o => Ok (fst <$> o) | Err _ => Err tt end.
Proof.
  intros Hw Hr. pose proof (settled_idle True _ Hw) as Hi.
  by_wp Hr.
  apply wp_try, (wp_get_cached self (or_introl I) id (get_group id));
    [apply get_group_bounded|exact (idle_held _ _ Hi)..|apply Hi|].
  intros q n t w1 Hq Hev Hcl Htpm _. pose proof (ev_disk _ _ _ _ Hev) as Hd.
  destruct q as [[[g e]|]|e]; simpl.
  1,2: rewrite refresh_policy_offline; apply wp_ret; split_and!; eauto 10.
  split_and!; eauto 10.
Qed.

(** When the provider says it is offline, a user lookup returns exactly what the
    cache holds, expired or not, and no account, group or membership row changes. *)
Theorem offline_lookup_cached self id w r w' :
  settled w → id ∉ w_nxset w →
  (∀ a n c k, (prov_get_cachestate a n c k).1.1 = CacheState_Offline) →
  get_usertoken self id w = Ret r w' →
  rows_eq (disk (w_conn w)) (disk (w_conn w')) ∧
  ∃ q n t, get_account id sql_fault (S (w_tick w), disk (w_conn w)) = (q, (n, t)) ∧
    r = match q with Ok o => Ok (fst <$> o) | Err _ => Err tt end.
Proof.
  intros Hw Hn Hoff Hr. pose proof (settled_idle True _ Hw) as Hi.
  by_wp Hr.
  apply wp_bind, wp_check_nxset_id; [exact (idle_held _ _ Hi)|].
  unfold id_in_nxset. rewrite bool_decide_false by done.
  apply wp_try, (wp_get_cached self (or_introl I) id (get_account id));
    [apply get_account_bounded|exact (idle_held _ _ Hi)..|apply Hi|].
  intros q n t w1 Hq Hev _ _ _. pose proof (ev_disk _ _ _ _ Hev) as Hd.
  pose proof (evolves_idle _ _ _ Hev Hi) as Hi1.
  destruct q as [[[g e]|]|e]; simpl.
  3: { split; [by rewrite <- Hd|]. eauto 10. }
  all: apply wp_bind, (wp_get_cachestate self (or_introl I)); [exact (idle_held _ _ Hi1)|apply Hi1|];
    intros n1 c1 k1 w2 Hev2; rewrite Hoff, refresh_policy_offline;
    (apply wp_ret; split; [rewrite Hd; apply Hev2|eauto 10]).
Qed.

(** When the provider says that a cached account is gone, the refresh purges its
    row and remembers the absence for the cache timeout. *)
Theorem refresh_notfound_purges {LL : LruLaws L} self id tok w r w' :
  settled w →
  (unix_user_get id (Some tok) (machine_key self) (S (w_tick w)) (w_client w)
     (hsm_data_t (disk (w_conn w))) (w_tpm w)).1.1.1 = Ok UserTokenState_NotFound →
  refresh_usertoken self id (Some tok) w = Ret (Ok r) w' →
  r = None ∧ (∀ row, row ∈ account_t (disk (w_conn w')) → a_uuid row ≠ hyphenated (t_uuid tok)) ∧
  ∃ n, (lru_get id (w_nxcache w')).1 = Some (clock n + timeout_seconds self * NS).
Proof.
  intros Hw Hnf Hr. pose proof (settled_idle True _ Hw) as Hi.
  by_wp_eq Hr.
  apply wp_bind, (wp_provider_txn self (or_introl I)); [exact (idle_held _ _ Hi)..|apply Hi|].
  intros a c k h cm w1 Hf Hev _. rewrite Hf in Hnf. simpl in Hnf. subst a.
  pose proof (evolves_idle _ _ _ Hev Hi) as Hi1. destruct cm as [|e]; [|by apply wp_ret].
  apply wp_try, (wp_write_txn self (or_introl I) _ any_rows);
    [exact (idle_held _ _ Hi1)|apply Hi1| | |done].
  - intros [] n t Hd. split; [|done]. intros Hwf.
    by eapply (run_op_preserves (OpDeleteAccount (t_uuid tok)) I).
  - intros [] n t w2 Hd Hev2 Ht _. pose proof (evolves_idle _ _ _ Hev2 Hi1) as Hi2.
    apply wp_bind, wp_set_nxcache; [by left|exact (idle_held _ _ Hi2)|].
    apply wp_ret. intros [= <-]. simpl. split_and!; [done| |].
    + intros row. rewrite Ht. by eapply delete_account_ok.
    + exists (w_tick w2). apply lru_get_put.
Qed.

(** Offline password round trip: after a password was stored for a cached account,
    checking the same password against the same disk never answers no. *)
Theorem offline_password_roundtrip {CL : CryptoLaws C} self u cred w w1 w2 r w3 :
  settled w → (∃ row, row ∈ account_t (disk (w_conn w)) ∧ a_uuid row = hyphenated u) →
  set_cache_userpassword self u cred w = Ret (Ok tt) w1 →
  settled w2 → disk (w_conn w2) = disk (w_conn w1) →
  check_cache_userpassword self u cred w2 = Ret r w3 → r ≠ Ok false.
Proof.
  intros Hw (row & Hrow & Hu) Hs Hw2 Hd Hr.
  assert (∃ data, old_password (hyphenated u) (account_t (disk (w_conn w2))) = Some data ∧
            accepting cred (hmac_key self) data) as (data & Ho & Ha).
  { rewrite Hd. clear Hr Hd Hw2. pose proof (settled_idle True _ Hw) as Hi.
    by_wp_eq Hs.
    apply (wp_hsm_txn self (or_introl I) (update_account_password u cred (hmac_key self)) any_rows);
      [done| | |done].
    - intros [] n t h Er. split; [|done]. intros Hwf.
      eapply (update_password_preserves u cred); [exact Hwf|]. by rewrite Er.
    - intros [] n t h w' Er _ Ht _. rewrite Ht.
      destruct (update_password_stores _ _ _ _ _ _ _ _ _ _ row (wf_accounts _ (proj2 (proj2 Hw)))
                  Hrow Hu Er) as (data & ? & ? & _). eauto. }
  pose proof (settled_idle True _ Hw2) as Hi2. by_wp Hr.
  apply (wp_hsm_txn self (or_introl I) (check_account_password u cred (hmac_key self)) any_rows);
    [done| | |done].
  - by intros b n t h ->%check_password_state.
  - intros b n t h w' Er _ _ [= ->].
    eapply (check_password_accepts u cred (hmac_key self) data (w_tpm w2)); [|exact Ho|exact Ha|].
    + apply (wf_accounts _ (proj2 (proj2 Hw2))).
    + by rewrite Er.
Qed.

(** After [invalidate] every lookup counts as expired, cached accounts, cached groups
    and remembered absences alike, so that the next request asks the provider again. *)
Theorem invalidate_expires_all {LL : LruLaws L} self id w w1 w2 :
  settled w → invalidate_cache w = Ret (Ok tt) w1 →
  settled w2 → disk (w_conn w2) = disk (w_conn w1) → w_nxcache w2 = w_nxcache w1 →
  (∀ n, 0 ≤ clock n) →
  (∀ b item w3, get_cached_usertoken id w2 = Ret (Ok (b, item)) w3 → b = true) ∧
  (∀ b item w3, get_cached_grouptoken id w2 = Ret (Ok (b, item)) w3 → b = true).
Proof.
  intros Hw Hi Hw2 Hd Hn Hcl.
  assert (((∀ r, r ∈ account_t (disk (w_conn w2)) → a_expiry r = 0) ∧
           ∀ r, r ∈ group_t (disk (w_conn w2)) → gr_expiry r = 0) ∧
          ∀ k, (lru_get k (w_nxcache w2)).1 = None) as [[Hexp Hgr] Hlru].
  { rewrite Hd, Hn. clear -self Hw Hi LL SL. pose proof (settled_idle True _ Hw) as Hid. by_wp_eq Hi.
    apply (wp_nxcache_txn self (or_introl I)); [done|apply invalidate_preserves|..].
    - intros n t w' Er _ _ _ Ht Hl. apply wp_bind, wp_release, wp_ret. intros _. simpl.
      rewrite Ht, Hl. split; [by apply invalidate_ok in Er|intros k; apply lru_get_clear].
    - intros w' _ _ _ _. by apply wp_bind, wp_release, wp_ret. }
  pose proof (settled_idle True _ Hw2) as Hi2. clear Hi.
  split; intros b item w3 Hr; by_wp_eq Hr.
  - apply (wp_get_cached self (or_introl I) id (get_account id));
      [apply get_account_bounded|exact (idle_held _ _ Hi2)..|apply Hi2|].
    intros [[[ut ex]|]|e] n t w' Hq _ _ _ _; simpl; intros [= <- <-]; [|by rewrite Hlru].
    apply get_account_some in Hq as (_ & _ & _ & r & Hr & _ & _ & <- & _). rewrite Hexp by done.
    apply Z.leb_le. unfold NS. specialize (Hcl n). lia.
  - apply (wp_get_cached self (or_introl I) id (get_group id));
      [apply get_group_bounded|exact (idle_held _ _ Hi2)..|apply Hi2|].
    intros [[[gt ex]|]|e] n t w' Hq _ _ _ _; simpl; intros [= <- <-]; [|by rewrite Hlru].
    apply get_group_some in Hq as (r & Hr & _ & _ & <- & _). rewrite Hgr by done.
    apply Z.leb_le. unfold NS. specialize (Hcl n). lia.
Qed.

(** A successful [clear_cache] leaves no cached account, group or membership, no
    remembered absence and no server configuration; of the providers' keys it removes
    exactly the Hello keys, and it keeps the daemon's own keys. *)
Theorem clear_cache_clears {LL : LruLaws L} self w w1 :
  settled w → clear_cache w = Ret (Ok tt) w1 →
  let t := disk (w_conn w1) in
  account_t t = [] ∧ group_t t = [] ∧ memberof_t t = [] ∧
  hsm_int_t t = hsm_int_t (disk (w_conn w)) ∧
  hsm_data_t t = filter (λ kv, is_hello_key kv.1 = false) (hsm_data_t (disk (w_conn w))) ∧
  (∀ k, (lru_get k (w_nxcache w1)).1 = None) ∧ w_server_conf w1 = false.
Proof.
  intros Hw Hr. pose proof (settled_idle True _ Hw) as Hi. by_wp_eq Hr.
  apply (wp_nxcache_txn self (or_introl I)); [done|apply clear_preserves|..].
  - intros n t w' Er _ _ _ Ht Hl. apply clear_ok in Er as (? & ? & ? & ? & ?).
    assert (∀ k, (lru_get k (w_nxcache w')).1 = None) as Hlru
      by (intros k; rewrite Hl; apply lru_get_clear).
    apply wp_bind, wp_get, wp_bind. destruct (w_server_conf w') eqn:Ec.
    + apply wp_bind, wp_draw. destruct (remove_fault _).
      * by apply wp_ret, wp_bind, wp_release, wp_ret.
      * apply wp_bind, wp_modify, wp_ret, wp_bind, wp_release, wp_ret. intros _. simpl.
        rewrite Ht. auto 10.
    + apply wp_ret, wp_bind, wp_release, wp_ret. intros _. simpl. rewrite Ht. auto 10.
  - intros w' _ _ _ _. by apply wp_bind, wp_release, wp_ret.
Qed.

(** A [COMMIT] that fails and leaves its transaction open wedges the daemon: the
    transaction counts as committed and is never rolled back, and every later
    transaction, whichever request opens it, panics. *)
Theorem failed_commit_wedges w account :
  w_held w = [] → txn (w_conn w) = None → begin_fault (w_tick w) = false →
  commit_fault (S (S (w_tick w))) = Some CommitLeavesOpen →
  ∃ state w', get_cachestate account w = Ret state w' ∧ w_held w' = [] ∧ db_write w' = Panicked.
Proof.
  intros Hh Ht Hb Hc. unfold get_cachestate.
  assert (db_write w = Ret tt (set_conn (Build_Conn (disk (w_conn w)) (Some (disk (w_conn w))))
    (set_tick (S (w_tick w)) (set_held [LDb] w)))) as Hwr.
  { unfold db_write, mbind, M_bind, acquire, draw, get, modify. rewrite Hh. simpl.
    unfold conn_begin. by rewrite Ht, Hb. }
  unfold mbind at 1, M_bind at 1. rewrite Hwr. unfold mbind at 1, M_bind at 1, call_ks. simpl.
  destruct (prov_get_cachestate _ _ _ _) as [[st c] k]. unfold mbind at 1, M_bind at 1.
  unfold db_commit, mbind, M_bind, draw, get. simpl. rewrite Hc. eexists _, _. split; [reflexivity|].
  split; [done|]. unfold db_write, mbind, M_bind, acquire, draw, get. simpl. done.
Qed.

End theorems.

(** ** Instances *)

(** Online, [alice] in the directory and in the cache; no local accounts. *)
Definition w_online := model_world CacheState_Online (Some sample_user) (cached_db 100) ∅.
Definition w_fresh := model_world CacheState_Online (Some sample_user) migrated_db ∅.
Definition w_local := model_world CacheState_Online (Some sample_user) migrated_db {[ Id_Name "root" ]}.

Lemma cached_settled state dir nx : settled (model_world state dir (cached_db 100) nx).
Proof. split; [done|]. split; [done|]. by apply cached_wf. Qed.

Lemma fresh_settled state dir nx : settled (model_world state dir migrated_db nx).
Proof. split; [done|]. split; [done|]. apply migrated_wf. Qed.

Lemma w_fresh_settled : settled w_fresh.
Proof. apply fresh_settled. Qed.

Lemma w_online_settled : settled w_online.
Proof. apply cached_settled. Qed.

Lemma pin_init_total : online_init_total model_resolver.
Proof. done. Qed.

Definition sample_requests : list request :=
  [ReqNssAccount (Id_Name "alice"); ReqAccountAllowed "alice"; ReqAuthInit "alice" "login" false false;
   ReqTryUnseal "alice" model_pin; ReqNssGroups; ReqInvalidate; ReqClear].

Lemma serve_safe_witness :
  serve model_resolver sample_requests w_fresh ≠ Deadlocked ∧
  ∀ w', serve model_resolver sample_requests w_fresh = Ret tt w' →
        w_held w' = [] ∧ db_wf (disk (w_conn w')).
Proof.
  exact (serve_safe model_resolver sample_requests w_fresh pin_init_total w_fresh_settled).
Defined.

Lemma serve_total_witness :
  ∃ w', serve model_resolver sample_requests w_fresh = Ret tt w' ∧ settled w'.
Proof.
  exact (serve_total model_resolver sample_requests w_fresh model_calm pin_init_total w_fresh_settled).
Defined.

(** The provider that fails to start an online authentication. *)
Section failing.
#[local] Existing Instance failing_provider.

Definition w_fail : World (P := failing_provider) :=
  Build_World 0 [] (Build_Conn (cached_db 100) None) 0%nat (CacheState_Online, Some sample_user) ∅
    (lru_new NXCACHE_SIZE) true.
Definition w_fail1 := world_of (init_token model_resolver "alice" w_fail) w_fail.
Definition w_fail2 := world_of (init_online "alice" w_fail1) w_fail.

Lemma auth_init_self_deadlock_witness :
  pam_account_authenticate_init model_resolver "alice" "login" false false w_fail = Deadlocked.
Proof.
  apply (auth_init_self_deadlock model_resolver "alice" "login" false (Some sample_user)
           IdpError_Transport w_fail w_fail1 w_fail2); run_refl.
Defined.
End failing.

Lemma local_account_untouched_witness :
  get_usertoken model_resolver (Id_Name "root") w_local = Ret (Ok None) w_local.
Proof.
  apply (local_account_untouched model_resolver w_local (Id_Name "root") [] None None None None);
    [reflexivity|]. by apply elem_of_singleton.
Defined.

Lemma pam_account_allowed_exact_witness :
  pam_account_allowed model_resolver "alice" w_fresh =
  Ret (Ok ((λ tok, t_valid tok && bool_decide ("alice" ∈ pam_allow_groups model_resolver ∨
             Exists (λ g, hyphenated (g_uuid g) ∈ pam_allow_groups model_resolver) (t_groups tok)))
           <$> Some (stored_token model_resolver ∅ sample_user)))
      (world_of (get_usertoken model_resolver (Id_Name "alice") w_fresh) w_fresh).
Proof.
  refine (pam_account_allowed_exact model_resolver "alice" w_fresh
            (Ok (Some (stored_token model_resolver ∅ sample_user))) _ _). run_refl.
Defined.

(** In the calm environment a safe operation leads from a settled world to another. *)
Lemma settled_after {A} (m : M A) w :
  safe (p := False) (d := False) any_rows m → settled w → settled (world_of (m w) w).
Proof.
  intros Hs Hw. pose proof (Hs w (settled_idle _ _ Hw)) as H. unfold wp in H.
  destruct (m w) as [a w'| |]; [|done..]. simpl.
  destruct (evolves_idle _ _ _ H (settled_idle _ _ Hw)) as [? [[|]]]; [done|]. by split.
Qed.

Definition calm_or : False ∨ calm (timeout_seconds model_resolver) := or_intror model_calm.

Definition w_stored := world_of (set_cache_usertoken model_resolver sample_member w_fresh) w_fresh.
Definition w_stored' := world_of (get_cached_usertoken (Id_Gid 1002) w_stored) w_fresh.

(** The shell of [sample_member] does not exist here, so the default one is stored. *)
Lemma stored_token_found_witness :
  stored_token model_resolver ∅ sample_member =
    retain_groups (w_nxset w_fresh) (with_shell model_resolver sample_member) ∧
  ∃ w3, get_cached_usertoken (Id_Gid (t_gidnumber sample_member)) w_stored =
    Ret (Ok ((clock (w_tick w_fresh) + timeout_seconds model_resolver * NS) / NS * NS
               <=? clock (S (S (w_tick w_stored))),
             Some (stored_token model_resolver ∅ sample_member))) w3.
Proof.
  apply (stored_token_found model_resolver sample_member (stored_token model_resolver ∅ sample_member)
           w_fresh w_stored w_stored).
  - exact w_fresh_settled.
  - reflexivity.
  - run_refl.
  - exact model_calm.
  - apply settled_after; [apply (safe_set_cache_usertoken model_resolver calm_or)|exact w_fresh_settled].
  - reflexivity.
  - reflexivity.
Defined.

Section busy.
#[local] Existing Instance busy_env.

Lemma failed_write_atomic_witness :
  disk (w_conn (world_of (delete_cache_usertoken (t_uuid sample_user) w_online) w_online))
  = disk (w_conn w_online).
Proof.
  apply (failed_write_atomic model_resolver sample_user sample_group (t_uuid sample_user) "pw" w_online).
  - exact w_online_settled.
  - right. right. left. run_refl.
Defined.

Lemma failed_commit_wedges_witness :
  ∃ state w', get_cachestate None w_online = Ret state w' ∧ w_held w' = [] ∧ db_write w' = Panicked.
Proof. apply (failed_commit_wedges w_online None); reflexivity. Defined.
End busy.

Definition session_of (force : bool) : AuthSession :=
  AuthSession_InProgress "alice" "login" (Id_Name "alice") (Some sample_user) true AuthCredHandler_None
    false force.

Definition w_step := world_of (pam_account_authenticate_step model_resolver (session_of false)
                                 (PamAuthRequest_Pin model_pin) w_online) w_online.

(** The user shows the PIN, and it is the provider that accepts it. *)
Lemma step_success_evidence_witness :
  ∃ tok, success_evidence model_resolver w_online (session_of false) (PamAuthRequest_Pin model_pin) tok ∧
    AuthSession_Success (t_spn sample_user) = AuthSession_Success (t_spn tok) ∧
    in_nxset (w_nxset w_online) (Some (t_name tok)) (Some (t_gidnumber tok)) = false.
Proof.
  apply (step_success_evidence model_resolver (session_of false) (PamAuthRequest_Pin model_pin) w_online
           (AuthSession_Success (t_spn sample_user)) w_step); [exact w_online_settled|run_refl].
Defined.

Definition w_denied := world_of (pam_account_authenticate_step model_resolver AuthSession_Denied
                                   (PamAuthRequest_Pin model_pin) w_online) w_online.

Lemma finished_session_absorbs_witness :
  pam_account_authenticate_step model_resolver AuthSession_Denied (PamAuthRequest_Pin model_pin) w_online
    = Ret (AuthSession_Denied, Err tt) w_denied ∧
  AuthSession_Denied = AuthSession_Denied ∧ (Err tt : result PamAuthResponse unit) = Err tt.
Proof.
  split; [run_refl|].
  apply (finished_session_absorbs model_resolver AuthSession_Denied (PamAuthRequest_Pin model_pin) w_online
           AuthSession_Denied (Err tt) w_denied); [exact w_online_settled|by right|run_refl].
Defined.

Lemma try_unseal_evidence_witness :
  ∃ token online h tok n c k hs,
    (∃ action, (unix_user_online_auth_step "alice" token "try_unseal" false h
       (PamAuthRequest_Pin model_pin) (machine_key model_resolver) n c k hs).1.1.1.2
       = Ok (AuthResult_Success tok, action)) ∨
    (unix_user_offline_auth_step "alice" token h (PamAuthRequest_Pin model_pin)
       (machine_key model_resolver) online n c k hs).1.1.1.2 = Ok (AuthResult_Success tok).
Proof.
  apply (try_unseal_evidence model_resolver "alice" model_pin w_online
           (world_of (pam_try_unseal model_resolver "alice" model_pin w_online) w_online));
    [exact w_online_settled|run_refl].
Defined.

Lemma auth_init_rolls_back_witness :
  disk (w_conn (world_of (offline_init "alice" None false w_online) w_online)) = disk (w_conn w_online) ∧
  w_held (world_of (offline_init "alice" None false w_online) w_online) = [].
Proof.
  apply (auth_init_rolls_back model_resolver "alice" "login" None false false w_online
           (Ok (AuthRequest_Password, AuthCredHandler_None))); [exact w_online_settled|right; run_refl].
Defined.

Definition w_group := world_of (get_grouptoken model_resolver (Id_Gid 5000) w_stored) w_stored.

Lemma grouptoken_cache_only_witness :
  w_client w_group = w_client w_stored ∧ w_tpm w_group = w_tpm w_stored ∧
  disk (w_conn w_group) = disk (w_conn w_stored) ∧
  ∃ q n t, get_group (Id_Gid 5000) sql_fault (S (w_tick w_stored), disk (w_conn w_stored)) = (q, (n, t)) ∧
    Ok (Some sample_group) = match q with Ok o => Ok (fst <$> o) | Err _ => Err tt end.
Proof.
  apply (grouptoken_cache_only model_resolver (Id_Gid 5000) w_stored); [|run_refl].
  apply settled_after; [apply (safe_set_cache_usertoken model_resolver calm_or)|exact w_fresh_settled].
Defined.

Section down.
#[local] Existing Instance down_provider.

Definition w_down : World :=
  Build_World 0 [] (Build_Conn (cached_db 100) None) 0%nat tt ∅ (lru_new NXCACHE_SIZE) true.

Lemma w_down_settled : settled w_down.
Proof. split; [done|]. split; [done|]. by apply cached_wf. Qed.

Definition w_down' := world_of (get_usertoken model_resolver (Id_Name "alice") w_down) w_down.

(** The cached entry expired long ago, and is returned all the same. *)
Lemma offline_lookup_cached_witness :
  rows_eq (disk (w_conn w_down)) (disk (w_conn w_down')) ∧
  ∃ q n t, get_account (Id_Name "alice") sql_fault (S (w_tick w_down), disk (w_conn w_down)) = (q, (n, t)) ∧
    Ok (Some sample_user) = match q with Ok o => Ok (fst <$> o) | Err _ => Err tt end.
Proof.
  apply (offline_lookup_cached model_resolver (Id_Name "alice") w_down); [exact w_down_settled| | |run_refl].
  - apply not_elem_of_empty.
  - reflexivity.
Defined.

Definition w_reauth := world_of (pam_account_authenticate_step model_resolver (session_of true)
                                   (PamAuthRequest_Password "pw") w_down) w_down.

Lemma force_reauth_needs_online_witness :
  pam_account_authenticate_step model_resolver (session_of true) (PamAuthRequest_Password "pw") w_down
    = Ret (session_of true, Ok (PamAuthResponse_Denied OFFLINE_REAUTH_MSG)) w_reauth ∧
  (Ok (PamAuthResponse_Denied OFFLINE_REAUTH_MSG) : result PamAuthResponse unit)
    ≠ Ok PamAuthResponse_Success.
Proof.
  split; [run_refl|].
  apply (force_reauth_needs_online model_resolver "alice" "login" (Id_Name "alice") (Some sample_user) true
           AuthCredHandler_None false (PamAuthRequest_Password "pw") w_down (session_of true) _ w_reauth);
    [exact w_down_settled|discriminate|run_refl].
Defined.

Lemma force_reauth_denied_offline_witness :
  pam_account_authenticate_init model_resolver "alice" "sudo" false true w_down =
  Ret (Ok (AuthSession_Denied, PamAuthResponse_InitDenied OFFLINE_REAUTH_MSG))
    (world_of (init_online "alice" (world_of (init_token model_resolver "alice" w_down) w_down)) w_down).
Proof.
  apply (force_reauth_denied_offline model_resolver "alice" "sudo" false (Some sample_user) w_down
           (world_of (init_token model_resolver "alice" w_down) w_down)); run_refl.
Defined.
End down.

(** The directory no longer knows the cached account. *)
Definition w_gone := model_world CacheState_Online None (cached_db 100) ∅.
Definition w_gone' :=
  world_of (refresh_usertoken model_resolver (Id_Name "alice") (Some sample_user) w_gone) w_gone.

Lemma refresh_notfound_purges_witness :
  (None : option UserToken) = None ∧
  (∀ row, row ∈ account_t (disk (w_conn w_gone')) → a_uuid row ≠ hyphenated (t_uuid sample_user)) ∧
  ∃ n, (lru_get (Id_Name "alice") (w_nxcache w_gone')).1
       = Some (clock n + timeout_seconds model_resolver * NS).
Proof.
  apply (refresh_notfound_purges model_resolver (Id_Name "alice") sample_user w_gone None w_gone');
    [apply cached_settled|reflexivity|run_refl].
Defined.

Definition w_pw :=
  world_of (set_cache_userpassword model_resolver (t_uuid sample_user) "secret" w_online) w_online.
Definition w_pw' :=
  world_of (check_cache_userpassword model_resolver (t_uuid sample_user) "secret" w_pw) w_pw.

Lemma offline_password_roundtrip_witness :
  check_cache_userpassword model_resolver (t_uuid sample_user) "secret" w_pw = Ret (Ok true) w_pw' ∧
  (Ok true : result bool unit) ≠ Ok false.
Proof.
  split; [run_refl|].
  apply (offline_password_roundtrip model_resolver (t_uuid sample_user) "secret" w_online w_pw w_pw
           (Ok true) w_pw').
  - exact w_online_settled.
  - eexists. split; [left|reflexivity].
  - run_refl.
  - apply settled_after; [apply (safe_set_cache_userpassword model_resolver calm_or)|exact w_online_settled].
  - reflexivity.
  - run_refl.
Defined.

Definition w_inval := world_of (invalidate_cache w_online) w_online.

Lemma invalidate_expires_all_witness :
  let r := get_cached_usertoken (Id_Name "alice") w_inval in
  r = Ret (Ok (true, Some sample_user)) (world_of r w_inval) ∧
  ∀ b item w3, r = Ret (Ok (b, item)) w3 → b = true.
Proof.
  split; [run_refl|].
  apply (invalidate_expires_all model_resolver (Id_Name "alice") w_online w_inval w_inval).
  - exact w_online_settled.
  - run_refl.
  - apply settled_after; [apply (safe_invalidate_cache model_resolver calm_or)|exact w_online_settled].
  - reflexivity.
  - reflexivity.
  - intros n. vm_compute. discriminate.
Defined.

Lemma clear_cache_clears_witness :
  let w1 := world_of (clear_cache w_online) w_online in
  account_t (disk (w_conn w1)) = [] ∧ w_server_conf w1 = false.
Proof.
  destruct (clear_cache_clears model_resolver w_online (world_of (clear_cache w_online) w_online)
              w_online_settled) as (H1 & _ & _ & _ & _ & _ & H2); [run_refl|]. exact (conj H1 H2).
Defined.
