(* ===== verification/Idmap.v ===== *)
(** * Id mapping: [src/idmap/src/lib.rs]

    How object ids and names become uid and gid numbers. The C functions the crate
    wraps, [murmurhash3.c] and the part of [sss_idmap.c] it calls, are translated
    too; Unicode normalisation ([u8_normalize] of libunistring) is a parameter.
    32-bit arithmetic is written out: [wrap32] where C wraps, and [None] where Rust's
    checked arithmetic or an index would panic. *)
From stdpp Require Import base gmap strings list fin_maps.
From Stdlib Require Import ZArith Lia Ascii.
From S2P Require Import Prelude Proto.

Open Scope rust_scope.

(** ** Errors *)

Inductive IdmapError :=
| IDMAP_NOT_IMPLEMENTED | IDMAP_ERROR | IDMAP_OUT_OF_MEMORY | IDMAP_NO_DOMAIN
| IDMAP_CONTEXT_INVALID | IDMAP_SID_INVALID | IDMAP_SID_UNKNOWN | IDMAP_NO_RANGE
| IDMAP_BUILTIN_SID | IDMAP_OUT_OF_SLICES | IDMAP_COLLISION | IDMAP_EXTERNAL
| IDMAP_NAME_UNKNOWN | IDMAP_NO_REVERSE | IDMAP_UTF8_ERROR | IDMAP_ERR_LAST.

(** [impl Display for IdmapError]; the Rust side has no name for [IDMAP_UTF8_ERROR]. *)
Definition idmap_error_display (e : IdmapError) : string :=
  "IdmapError(" +:+
  match e with
  | IDMAP_NOT_IMPLEMENTED => "IDMAP_NOT_IMPLEMENTED"
  | IDMAP_ERROR => "IDMAP_ERROR"
  | IDMAP_OUT_OF_MEMORY => "IDMAP_OUT_OF_MEMORY"
  | IDMAP_NO_DOMAIN => "IDMAP_NO_DOMAIN"
  | IDMAP_CONTEXT_INVALID => "IDMAP_CONTEXT_INVALID"
  | IDMAP_SID_INVALID => "IDMAP_SID_INVALID"
  | IDMAP_SID_UNKNOWN => "IDMAP_SID_UNKNOWN"
  | IDMAP_NO_RANGE => "IDMAP_NO_RANGE"
  | IDMAP_BUILTIN_SID => "IDMAP_BUILTIN_SID"
  | IDMAP_OUT_OF_SLICES => "IDMAP_OUT_OF_SLICES"
  | IDMAP_COLLISION => "IDMAP_COLLISION"
  | IDMAP_EXTERNAL => "IDMAP_EXTERNAL"
  | IDMAP_NAME_UNKNOWN => "IDMAP_NAME_UNKNOWN"
  | IDMAP_NO_REVERSE => "IDMAP_NO_REVERSE"
  | IDMAP_ERR_LAST => "IDMAP_ERR_LAST"
  | IDMAP_UTF8_ERROR => "UNKNOWN_ERROR"
  end +:+ ")".

(** ** MurmurHash3, 32 bits ([murmurhash3.c]) *)

Definition rotl (x r : Z) : Z := wrap32 (Z.lor (Z.shiftl x r) (Z.shiftr x (32 - r))).

Definition fmix (h : Z) : Z :=
  let h := Z.lxor h (Z.shiftr h 16) in
  let h := wrap32 (h * 0x85ebca6b) in
  let h := Z.lxor h (Z.shiftr h 13) in
  let h := wrap32 (h * 0xc2b2ae35) in
  Z.lxor h (Z.shiftr h 16).

Definition c1 : Z := 0xcc9e2d51.
Definition c2 : Z := 0x1b873593.

(** [k1 *= c1; k1 = rotl(k1, 15); k1 *= c2]. *)
Definition mix_k1 (k1 : Z) : Z := wrap32 (rotl (wrap32 (k1 * c1)) 15 * c2).

(** [getblock]: four bytes, little endian. *)
Definition getblock (b0 b1 b2 b3 : Z) : Z :=
  Z.lor b0 (Z.lor (Z.shiftl b1 8) (Z.lor (Z.shiftl b2 16) (Z.shiftl b3 24))).

(** The loop over whole blocks, then the switch on the remaining bytes. *)
Fixpoint murmur_body (h1 : Z) (key : list Z) : Z :=
  match key with
  | b0 :: b1 :: b2 :: b3 :: key' =>
      let h1 := Z.lxor h1 (mix_k1 (getblock b0 b1 b2 b3)) in
      let h1 := rotl h1 13 in
      murmur_body (wrap32 (h1 * 5 + 0xe6546b64)) key'
  | [b0; b1; b2] => Z.lxor h1 (mix_k1 (Z.lxor (Z.lxor (Z.shiftl b2 16) (Z.shiftl b1 8)) b0))
  | [b0; b1] => Z.lxor h1 (mix_k1 (Z.lxor (Z.shiftl b1 8) b0))
  | [b0] => Z.lxor h1 (mix_k1 b0)
  | [] => h1
  end.

Definition murmurhash3 (key : list Z) (seed : Z) : Z :=
  fmix (Z.lxor (murmur_body seed key) (wrap32 (Z.of_nat (length key)))).

Definition string_bytes (s : string) : list Z :=
  (λ c, Z.of_N (N_of_ascii c)) <$> String.list_ascii_of_string s.

Definition SEED : Z := 0xdeadbeef.

(** ** The SSSD context ([sss_idmap.c]) *)

(** [u8_normalize(UNINORM_NFKC, ...)] on a C string. *)
Class Unistring : Type := { u8_normalize : string → option string }.

Record idmap_domain_info := {
  dom_name : string; dom_sid : string; dom_min_id : Z; dom_max_id : Z;
  dom_first_rid : Z; dom_external_mapping : bool
}.

(** The list of domains, the last added first. *)
Definition sss_idmap_ctx : Type := list idmap_domain_info.

Definition strcasecmp_eq (a b : string) : bool := String.eqb (to_lowercase a) (to_lowercase b).

(** [sss_idmap_check_collision_ex(o, n)]: whether the new domain collides with the
    old one. *)
Definition check_collision_ex (o n : idmap_domain_info) : bool :=
  let within x := (dom_min_id o <=? x) && (x <=? dom_max_id o) in
  let names_equal := strcasecmp_eq (dom_name n) (dom_name o) in
  let sids_equal := strcasecmp_eq (dom_sid n) (dom_sid o) in
  if negb (dom_external_mapping n) && negb (dom_external_mapping o)
     && (within (dom_min_id n) || within (dom_max_id n)) then true
  else if (names_equal && negb sids_equal) || (negb names_equal && sids_equal) then true
  else if names_equal && sids_equal && negb (Bool.eqb (dom_external_mapping n) (dom_external_mapping o))
  then true
  else names_equal && sids_equal && negb (dom_external_mapping n)
       && (dom_first_rid o <=? dom_first_rid n)
       && (dom_first_rid n <=? wrap32 (dom_first_rid o + wrap32 (dom_max_id o - dom_min_id o))).

Definition dom_check_collision (dom_list : sss_idmap_ctx) (new_dom : idmap_domain_info) : bool :=
  existsb (λ dom, check_collision_ex dom new_dom) dom_list.

(** [sss_idmap_add_gen_domain_ex] with the arguments the crate passes: no range id, no
    offset functions, no shift, no external mapping. *)
Definition sss_idmap_add_gen_domain_ex (ctx : sss_idmap_ctx) (domain_name domain_id : string)
  (range : Z * Z) : result sss_idmap_ctx IdmapError :=
  let dom := {| dom_name := domain_name; dom_sid := domain_id; dom_min_id := range.1;
                dom_max_id := range.2; dom_first_rid := 0; dom_external_mapping := false |} in
  if dom_check_collision ctx dom then Err IDMAP_COLLISION else Ok (dom :: ctx).

Definition compute_id (dom : idmap_domain_info) (rid : Z) : option Z :=
  if (dom_first_rid dom <=? rid) && (rid - dom_first_rid dom <? u32_max - dom_min_id dom) then
    let id := wrap32 (dom_min_id dom + (rid - dom_first_rid dom)) in
    if id <=? dom_max_id dom then Some id else None
  else None.

Section mapping.
Context {U : Unistring}.

(** [sss_idmap_offset_murmurhash3] with the default parameters. *)
Definition offset_murmurhash3 (range_size : Z) (input : string) : result Z IdmapError :=
  match u8_normalize input with
  | None => Err IDMAP_UTF8_ERROR
  | Some val =>
      let out := murmurhash3 (string_bytes val) SEED in
      if range_size =? 0 then Err IDMAP_NO_RANGE else Ok (out mod range_size)
  end.

(** The loop of [sss_idmap_gen_to_unix]; [matched] says that a domain matched. *)
Fixpoint gen_to_unix_loop (matched : bool) (ctx : sss_idmap_ctx) (domain_id input : string)
  : result Z IdmapError :=
  match ctx with
  | [] => Err (if matched then IDMAP_NO_RANGE else IDMAP_NO_DOMAIN)
  | dom :: ctx' =>
      if String.eqb (dom_sid dom) domain_id then
        if dom_external_mapping dom then Err IDMAP_EXTERNAL
        else
          let range_size := wrap32 (1 + wrap32 (dom_max_id dom - dom_min_id dom)) in
          let? offset := offset_murmurhash3 range_size input in
          if range_size <=? offset then Err IDMAP_ERROR
          else match compute_id dom offset with
               | Some id => Ok id
               | None => gen_to_unix_loop true ctx' domain_id input
               end
      else gen_to_unix_loop matched ctx' domain_id input
  end.

Definition sss_idmap_gen_to_unix (ctx : sss_idmap_ctx) (domain_id input : string)
  : result Z IdmapError :=
  gen_to_unix_loop false ctx domain_id input.

(** ** [struct Idmap] *)

Record Idmap := { ctx : sss_idmap_ctx; ranges : gmap string (Z * Z) }.

Definition Idmap_new : Idmap := {| ctx := []; ranges := ∅ |}.

Definition NUL : ascii := "000"%char.

(** [CString::new] refuses an inner NUL. *)
Definition cstring_ok (s : string) : bool := negb (contains_char NUL s).

(** [add_gen_domain(&mut self, ...)]: the map after the call, and the result. *)
Definition add_gen_domain (self : Idmap) (domain_name tenant_id : string) (range : Z * Z)
  : Idmap * result unit IdmapError :=
  match ranges self !! tenant_id with
  | Some _ => (self, Err IDMAP_COLLISION)
  | None =>
      if negb (cstring_ok domain_name) then (self, Err IDMAP_OUT_OF_MEMORY)
      else if negb (cstring_ok tenant_id) then (self, Err IDMAP_OUT_OF_MEMORY)
      else
        let ranges' := <[tenant_id := range]> (ranges self) in
        match sss_idmap_add_gen_domain_ex (ctx self) domain_name tenant_id range with
        | Ok c => ({| ctx := c; ranges := ranges' |}, Ok tt)
        | Err e => ({| ctx := ctx self; ranges := ranges' |}, Err e)
        end
  end.

Definition gen_to_unix (self : Idmap) (tenant_id input : string) : result Z IdmapError :=
  match ranges self !! tenant_id with
  | None => Err IDMAP_NO_DOMAIN
  | Some _ =>
      if negb (cstring_ok tenant_id) then Err IDMAP_OUT_OF_MEMORY
      else if negb (cstring_ok (to_lowercase input)) then Err IDMAP_OUT_OF_MEMORY
      else sss_idmap_gen_to_unix (ctx self) tenant_id (to_lowercase input)
  end.

(** ** [struct AadSid] *)

Record AadSid := { sid_rev_num : Z; num_auths : Z; id_auth : Z; sub_auths : list Z }.

(** The loop over the sub-authorities: at most 15 of them. *)
Fixpoint parse_sub_auths (i : nat) (parts : list string) : result (list Z) IdmapError :=
  match parts with
  | [] => Ok []
  | s :: parts' =>
      if Nat.leb 15 i then Err IDMAP_SID_INVALID
      else
        let? a := ok_or (parse_uint u32_max s) IDMAP_SID_INVALID in
        let? l := parse_sub_auths (S i) parts' in
        Ok (a :: l)
  end.

Definition from_sid_str (sid_str : string) : result AadSid IdmapError :=
  match split_char "-"%char (trim sid_str) with
  | _ :: p1 :: p2 :: p3 :: ps =>
      if negb (String.prefix "S-" sid_str) then Err IDMAP_SID_INVALID
      else
        let? rev := ok_or (parse_uint u8_max p1) IDMAP_SID_INVALID in
        let? auth := ok_or (parse_uint u64_max p2) IDMAP_SID_INVALID in
        let? subs := parse_sub_auths 0 (p3 :: ps) in
        Ok {| sid_rev_num := rev; num_auths := Z.of_nat (length subs); id_auth := auth;
              sub_auths := subs ++ replicate (15 - length subs) 0 |}
  | _ => Err IDMAP_SID_INVALID
  end.

Definition from_le_bytes (b0 b1 b2 b3 : Z) : Z := b0 + b1 * 2 ^ 8 + b2 * 2 ^ 16 + b3 * 2 ^ 24.
Definition from_be_bytes (b0 b1 b2 b3 : Z) : Z := from_le_bytes b3 b2 b1 b0.

Definition from_object_id {X : Ext} (object_id : Uuid) : result AadSid IdmapError :=
  match as_bytes object_id with
  | [b0; b1; b2; b3; b4; b5; b6; b7; b8; b9; b10; b11; b12; b13; b14; b15] =>
      Ok {| sid_rev_num := 1; num_auths := 5; id_auth := 12;
            sub_auths := [1; from_be_bytes b0 b1 b2 b3; from_be_bytes b6 b7 b4 b5;
                          from_le_bytes b8 b9 b10 b11; from_le_bytes b12 b13 b14 b15]
                         ++ replicate 10 0 |}
  | _ => Err IDMAP_SID_INVALID
  end.

(** [rid()]: [None] when the index underflows or is out of bounds. *)
Definition rid (sid : AadSid) : option (result Z IdmapError) :=
  if num_auths sid <? 0 then Some (Err IDMAP_SID_INVALID)
  else if num_auths sid =? 0 then None
  else (λ x, Ok x) <$> (sub_auths sid !! Z.to_nat (num_auths sid - 1)).

Definition DEFAULT_IDMAP_RANGE : Z * Z := (200000, 2000200000).
Definition DEFAULT_SUBID_RANGE : Z * Z := (2100000000, 4200000000).
Definition SUBID_COUNT : Z := 65536.

(** Checked 32-bit addition and multiplication. *)
Definition u32_add (a b : Z) : option Z := if a + b <=? u32_max then Some (a + b) else None.
Definition u32_mul (a b : Z) : option Z := if a * b <=? u32_max then Some (a * b) else None.

(** [object_id_to_unix_id]: [None] when it would panic. *)
Definition object_id_to_unix_id (self : Idmap) (tenant_id : string) (sid : AadSid)
  : option (result Z IdmapError) :=
  r ← rid sid;
  match r with
  | Err e => Some (Err e)
  | Ok r =>
      match ranges self !! tenant_id with
      | None => Some (Err IDMAP_NO_RANGE)
      | Some (lo, hi) =>
          let uid_count := saturating_sub hi lo in
          if uid_count =? 0 then Some (Err IDMAP_NO_RANGE)
          else (λ x, Ok x) <$> u32_add (r mod uid_count) lo
      end
  end.

(** [gen_subid_start]: [None] when it would panic. *)
Definition gen_subid_start (username : string) (subid_range : Z * Z) : option Z :=
  let '(min_id, max_id) := subid_range in
  let range_size := saturating_sub max_id min_id in
  let num_slots := range_size / SUBID_COUNT in
  if num_slots =? 0 then Some min_id
  else
    let hash := murmurhash3 (string_bytes (to_lowercase username)) SEED in
    let slot := hash mod num_slots in
    off ← u32_mul slot SUBID_COUNT;
    u32_add min_id off.

End mapping.
