(* ===== verification/IdmapTheorems.v ===== *)
(** * Theorems on id mapping

    Bounds, determinism and non-overlap of the uid, gid and subordinate-id numbers
    [Idmap] hands out, and the test vectors of the crate. *)
From stdpp Require Import base gmap strings list fin_maps.
From Stdlib Require Import ZArith Lia Ascii.
From S2P Require Import Prelude Proto Idmap Models.

(** ** 32-bit closure *)

Lemma u32_testbit x : in_u32 x → ∀ i, 32 ≤ i → Z.testbit x i = false.
Proof.
  intros [H0 H1] i Hi. destruct (Z.eq_dec x 0) as [->|Hx]; [apply Z.testbit_0_l|].
  apply Z.bits_above_log2; [done|]. apply Z.log2_lt_pow2; [lia|].
  unfold u32_max in H1. apply Z.lt_le_trans with (2 ^ 32); [lia|]. by apply Z.pow_le_mono_r.
Qed.

Lemma testbit_u32 x : 0 ≤ x → (∀ i, 32 ≤ i → Z.testbit x i = false) → in_u32 x.
Proof.
  intros H0 Hb. split; [done|]. unfold u32_max.
  destruct (Z.eq_dec x 0) as [->|Hx]; [lia|].
  assert (Z.log2 x < 32) as Hl.
  { destruct (Z.lt_ge_cases (Z.log2 x) 32) as [|Hge]; [done|].
    pose proof (Z.bit_log2 x ltac:(lia)) as Hbit. by rewrite Hb in Hbit. }
  apply Z.log2_lt_pow2 in Hl; lia.
Qed.

Lemma u32_lxor x y : in_u32 x → in_u32 y → in_u32 (Z.lxor x y).
Proof.
  intros Hx Hy. apply testbit_u32; [apply Z.lxor_nonneg; split; intros; [apply Hy|apply Hx]|].
  intros i Hi. rewrite Z.lxor_spec, (u32_testbit x), (u32_testbit y) by done. done.
Qed.

Lemma u32_shiftr x n : 0 ≤ n → in_u32 x → in_u32 (Z.shiftr x n).
Proof.
  intros Hn Hx. apply testbit_u32; [apply Z.shiftr_nonneg, Hx|].
  intros i Hi. rewrite Z.shiftr_spec by lia. apply (u32_testbit x Hx). lia.
Qed.

#[export] Hint Resolve u32_lxor u32_shiftr : himmel.

(** The hash is a 32-bit number, whatever the key. *)
Lemma murmurhash3_u32 key : in_u32 (murmurhash3 key SEED).
Proof.
  assert (∀ n h k, (length k ≤ n)%nat → in_u32 h → in_u32 (murmur_body h k)) as Hb.
  { induction n as [|n IH]; intros h k Hk Hh.
    - destruct k; simpl in *; [done|lia].
    - destruct k as [|b0 [|b1 [|b2 [|b3 k]]]]; simpl; auto with himmel.
      + apply u32_lxor; [done|apply wrap32_range].
      + apply u32_lxor; [done|apply wrap32_range].
      + apply u32_lxor; [done|apply wrap32_range].
      + apply IH; [simpl in Hk; lia|apply wrap32_range]. }
  unfold murmurhash3, fmix. apply u32_lxor; [|apply u32_shiftr; [lia|]]; apply wrap32_range.
Qed.

(** ** Reachable maps *)

(** The maps a caller can build: ranges are pairs of [u32]. *)
Inductive idmap_reachable : Idmap → Prop :=
| idmap_init : idmap_reachable Idmap_new
| idmap_add m name tenant lo hi :
    idmap_reachable m → in_u32 lo → in_u32 hi →
    idmap_reachable (add_gen_domain m name tenant (lo, hi)).1.

(** Every domain known to the C side is registered with the same range. *)
Definition doms_ok (m : Idmap) : Prop :=
  ∀ dom, dom ∈ ctx m →
    ranges m !! dom_sid dom = Some (dom_min_id dom, dom_max_id dom) ∧
    in_u32 (dom_min_id dom) ∧ in_u32 (dom_max_id dom) ∧
    dom_first_rid dom = 0 ∧ dom_external_mapping dom = false.

Lemma reachable_doms_ok m : idmap_reachable m → doms_ok m.
Proof.
  induction 1 as [|m name tenant lo hi _ IH Hlo Hhi]; [intros dom Hd; set_solver|].
  unfold add_gen_domain. destruct (ranges m !! tenant) eqn:Er; [done|].
  destruct (cstring_ok name); [|done]. destruct (cstring_ok tenant); [|done]. simpl.
  assert (∀ dom, dom ∈ ctx m →
    <[tenant:=(lo, hi)]> (ranges m) !! dom_sid dom = Some (dom_min_id dom, dom_max_id dom) ∧
    in_u32 (dom_min_id dom) ∧ in_u32 (dom_max_id dom) ∧
    dom_first_rid dom = 0 ∧ dom_external_mapping dom = false) as Hold.
  { intros dom Hd. destruct (IH dom Hd) as (Hr & ?). split; [|done].
    rewrite lookup_insert_ne; [done|]. intros ->. congruence. }
  unfold sss_idmap_add_gen_domain_ex. destruct (dom_check_collision _ _); simpl; [exact Hold|].
  intros dom [->|Hd]%elem_of_cons; [|by apply Hold]. simpl. by rewrite lookup_insert_eq.
Qed.

Lemma compute_id_bounds dom r id :
  in_u32 (dom_min_id dom) → compute_id dom r = Some id → dom_min_id dom ≤ id ≤ dom_max_id dom.
Proof.
  intros Hmin. unfold compute_id. destruct (Z.leb_spec (dom_first_rid dom) r); [|done]. simpl.
  destruct (Z.ltb_spec (r - dom_first_rid dom) (u32_max - dom_min_id dom)); [|done].
  rewrite wrap32_small by (unfold in_u32, u32_max in *; lia).
  destruct (Z.leb_spec (dom_min_id dom + (r - dom_first_rid dom)) (dom_max_id dom)); [|done].
  intros [= <-]. lia.
Qed.

Section theorems.
Context {U : Unistring}.

Lemma gen_loop_bounds m tenant input matched c id :
  doms_ok m → (∀ dom, dom ∈ c → dom ∈ ctx m) →
  gen_to_unix_loop matched c tenant input = Ok id →
  ∃ lo hi, ranges m !! tenant = Some (lo, hi) ∧ lo ≤ id ≤ hi.
Proof.
  intros Hok. revert matched. induction c as [|dom c IH]; intros matched Hin; simpl; [done|].
  destruct (String.eqb_spec (dom_sid dom) tenant) as [<-|];
    [|apply IH; intros; apply Hin; by right].
  destruct (Hok dom ltac:(apply Hin; by left)) as (Hr & Hmin & _ & _ & ->).
  destruct (offset_murmurhash3 _ _) as [off|e]; simpl; [|done]. case_match; [done|].
  destruct (compute_id dom off) as [id'|] eqn:Ec; [|apply IH; intros; apply Hin; by right].
  intros [= <-]. exists (dom_min_id dom), (dom_max_id dom). split; [done|].
  by eapply compute_id_bounds.
Qed.

(** Every number [gen_to_unix] assigns lies in the range registered for the
    tenant, on every map a caller can build and for every name. *)
Theorem gen_to_unix_in_range m tenant input id :
  idmap_reachable m → gen_to_unix m tenant input = Ok id →
  ∃ lo hi, ranges m !! tenant = Some (lo, hi) ∧ lo ≤ id ≤ hi.
Proof.
  intros Hm%reachable_doms_ok. unfold gen_to_unix. destruct (ranges m !! tenant) eqn:Er; [|done].
  do 2 (case_match; [done|]). rewrite <- Er. by apply gen_loop_bounds.
Qed.

(** Once a tenant's domain was added, every name libunistring can normalise is
    mapped, in any case, to the range's start plus the hash of the normalised lower-case
    name modulo the size of the range. *)
Theorem gen_to_unix_exact m m' name tenant lo hi input v :
  in_u32 lo → lo ≤ hi < u32_max →
  add_gen_domain m name tenant (lo, hi) = (m', Ok tt) →
  cstring_ok (to_lowercase input) = true → u8_normalize (to_lowercase input) = Some v →
  gen_to_unix m' tenant input = Ok (lo + murmurhash3 (string_bytes v) SEED mod (hi - lo + 1)) ∧
  gen_to_unix m' tenant (to_lowercase input) = gen_to_unix m' tenant input.
Proof.
  intros Hlo Hhi Hadd Hin Hv. split; [|by unfold gen_to_unix; rewrite to_lowercase_idemp].
  unfold add_gen_domain in Hadd. destruct (ranges m !! tenant) eqn:Er; [done|].
  destruct (cstring_ok name); [|done]. destruct (cstring_ok tenant) eqn:Et; [|done]. simpl in Hadd.
  unfold sss_idmap_add_gen_domain_ex in Hadd. destruct (dom_check_collision _ _); [done|].
  injection Hadd as <-. unfold gen_to_unix. simpl. rewrite lookup_insert_eq.
  rewrite Et, Hin. simpl. unfold sss_idmap_gen_to_unix. simpl. rewrite String.eqb_refl.
  unfold in_u32, u32_max in *.
  rewrite !wrap32_small by (unfold in_u32, u32_max; rewrite ?wrap32_small; unfold in_u32, u32_max; lia).
  unfold offset_murmurhash3. rewrite Hv. destruct (Z.eqb_spec (1 + (hi - lo)) 0); [lia|]. simpl.
  replace (1 + (hi - lo)) with (hi - lo + 1) by lia.
  set (off := murmurhash3 (string_bytes v) SEED mod (hi - lo + 1)).
  assert (0 ≤ off < hi - lo + 1) as Hoff by (apply Z.mod_pos_bound; lia).
  destruct (Z.leb_spec (hi - lo + 1) off); [lia|].
  unfold compute_id. simpl. destruct (Z.leb_spec 0 off); [|lia]. rewrite Z.sub_0_r. simpl.
  unfold u32_max. destruct (Z.ltb_spec off (4294967295 - lo)); [|lia].
  rewrite wrap32_small by (unfold in_u32, u32_max; lia).
  by destruct (Z.leb_spec (lo + off) hi); [|lia].
Qed.

(** A domain refused for a collision is registered all the same: its range stays
    in the map, object ids of the refused tenant are mapped into it, while its names
    are answered [IDMAP_NO_DOMAIN]. *)
Theorem refused_domain_registered m m' name tenant lo hi sid r input :
  idmap_reachable m → ranges m !! tenant = None → in_u32 lo → in_u32 hi → lo < hi →
  add_gen_domain m name tenant (lo, hi) = (m', Err IDMAP_COLLISION) →
  rid sid = Some (Ok r) → cstring_ok (to_lowercase input) = true →
  object_id_to_unix_id m' tenant sid = Some (Ok (r mod (hi - lo) + lo)) ∧
  gen_to_unix m' tenant input = Err IDMAP_NO_DOMAIN.
Proof.
  intros Hm Hr Hlo Hhi Hlt Hadd Hsid Hin. unfold in_u32 in *.
  unfold add_gen_domain in Hadd. rewrite Hr in Hadd.
  destruct (cstring_ok name); [|done]. destruct (cstring_ok tenant) eqn:Et; [|done]. simpl in Hadd.
  unfold sss_idmap_add_gen_domain_ex in Hadd. destruct (dom_check_collision _ _); [|done].
  injection Hadd as <-. split.
  - unfold object_id_to_unix_id. rewrite Hsid. simpl. rewrite lookup_insert_eq.
    unfold saturating_sub. rewrite Z.max_r by lia. destruct (Z.eqb_spec (hi - lo) 0); [lia|].
    unfold u32_add. pose proof (Z.mod_pos_bound r (hi - lo)).
    destruct (Z.leb_spec (r mod (hi - lo) + lo) u32_max); [done|lia].
  - unfold gen_to_unix. simpl. rewrite lookup_insert_eq, Et, Hin. simpl.
    unfold sss_idmap_gen_to_unix. pose proof (reachable_doms_ok _ Hm) as Hok. unfold doms_ok in Hok.
    revert Hok. generalize (ctx m). induction s as [|dom c IH]; intros Hok; [done|]. simpl.
    destruct (String.eqb_spec (dom_sid dom) tenant) as [E|]; 
      [|apply IH; intros d Hd; apply Hok; by right].
    destruct (Hok dom ltac:(by left)) as [Hd _]. congruence.
Qed.

End theorems.

(** ** Security identifiers *)

Lemma from_le_bytes_u32 b0 b1 b2 b3 :
  in_u8 b0 → in_u8 b1 → in_u8 b2 → in_u8 b3 → in_u32 (from_le_bytes b0 b1 b2 b3).
Proof. unfold in_u8, in_u32, from_le_bytes, u8_max, u32_max. lia. Qed.

Lemma parse_sub_auths_ok parts i l :
  parse_sub_auths i parts = Ok l →
  length l = length parts ∧ (i + length parts ≤ 15 ∨ parts = [])%nat ∧ Forall in_u32 l.
Proof.
  revert i l. induction parts as [|s parts IH]; intros i l; cbn [parse_sub_auths].
  { intros [= <-]. auto. }
  destruct (Nat.leb 15 i) eqn:Hi; [done|]. apply Nat.leb_gt in Hi.
  destruct (parse_uint u32_max s) as [a|] eqn:Ea; simpl; [|done].
  destruct (parse_sub_auths (S i) parts) as [l'|] eqn:El; simpl; [|done].
  intros [= <-]. destruct (IH _ _ El) as (H1 & H2 & H3). simpl. split; [lia|]. split.
  - left. destruct H2 as [?| ->]; simpl; lia.
  - constructor; [by apply parse_uint_bounds in Ea|done].
Qed.

(** A SID the crate parsed always has a relative id: [rid] cannot panic, and the
    number fits 32 bits. *)
Theorem parsed_sid_has_rid s sid :
  from_sid_str s = Ok sid → ∃ r, rid sid = Some (Ok r) ∧ in_u32 r ∧ length (sub_auths sid) = 15%nat.
Proof.
  unfold from_sid_str. destruct (split_char _ _) as [|p0 [|p1 [|p2 [|p3 ps]]]]; try done.
  case_match; [done|]. destruct (parse_uint u8_max p1); cbn [ok_or result_bind]; [|done].
  destruct (parse_uint u64_max p2); cbn [ok_or result_bind]; [|done].
  destruct (parse_sub_auths 0 (p3 :: ps)) as [subs|] eqn:Es; cbn [result_bind]; [|done].
  intros [= <-].
  destruct (parse_sub_auths_ok _ _ _ Es) as (Hl & Hb & Hu). simpl in Hl.
  assert (1 ≤ length subs ≤ 15)%nat as Hlen by (destruct Hb; [simpl in *; lia|done]).
  destruct (lookup_lt_is_Some_2 subs (length subs - 1)) as [r Hr]; [lia|].
  exists r. split; [|split].
  - unfold rid. simpl. destruct (Z.ltb_spec (Z.of_nat (length subs)) 0); [lia|].
    destruct (Z.eqb_spec (Z.of_nat (length subs)) 0); [lia|].
    replace (Z.to_nat (Z.of_nat (length subs) - 1)) with (length subs - 1)%nat by lia.
    by rewrite lookup_app_l, Hr by lia.
  - by eapply Forall_lookup_1 in Hr.
  - simpl. rewrite length_app, length_replicate. lia.
Qed.

(** Every object id maps to a number below the end of the tenant's range, without
    a panic: the range's start plus the last four bytes of the id, little endian,
    modulo the size of the range. *)
Theorem object_id_in_range {X : Ext} {XL : ExtLaws X} m tenant lo hi (u : Uuid) :
  ranges m !! tenant = Some (lo, hi) → in_u32 lo → in_u32 hi → lo < hi →
  ∃ sid r, from_object_id u = Ok sid ∧ rid sid = Some (Ok r) ∧ in_u32 r ∧
    object_id_to_unix_id m tenant sid = Some (Ok (r mod (hi - lo) + lo)) ∧
    lo ≤ r mod (hi - lo) + lo < hi.
Proof.
  intros Hr Hlo Hhi Hlt. pose proof (as_bytes_length u) as Hl. pose proof (as_bytes_u8 u) as Hb.
  unfold from_object_id.
  destruct (as_bytes u) as [|b0 [|b1 [|b2 [|b3 [|b4 [|b5 [|b6 [|b7 [|b8 [|b9 [|b10 [|b11
    [|b12 [|b13 [|b14 [|b15 [|]]]]]]]]]]]]]]]]]; try done.
  rewrite !Forall_cons in Hb.
  assert (in_u32 (from_le_bytes b12 b13 b14 b15)) as Hu by (apply from_le_bytes_u32; tauto).
  eexists _, (from_le_bytes b12 b13 b14 b15). split; [reflexivity|]. split; [reflexivity|].
  split; [exact Hu|]. generalize dependent (from_le_bytes b12 b13 b14 b15). intros r Hu.
  pose proof (Z.mod_pos_bound r (hi - lo)). split; [|lia].
  unfold object_id_to_unix_id. cbn [rid num_auths sub_auths]. simpl. rewrite Hr.
  unfold saturating_sub. rewrite Z.max_r by lia. destruct (Z.eqb_spec (hi - lo) 0); [lia|].
  unfold u32_add, in_u32 in *. destruct (Z.leb_spec (r mod (hi - lo) + lo) u32_max); [done|lia].
Qed.

(** ** Subordinate ids *)

Lemma subid_slots min_id max_id slot :
  in_u32 min_id → in_u32 max_id → SUBID_COUNT ≤ max_id - min_id →
  0 ≤ slot < (max_id - min_id) / SUBID_COUNT →
  u32_mul slot SUBID_COUNT = Some (slot * SUBID_COUNT) ∧
  u32_add min_id (slot * SUBID_COUNT) = Some (min_id + slot * SUBID_COUNT) ∧
  min_id + slot * SUBID_COUNT + SUBID_COUNT ≤ max_id.
Proof.
  unfold in_u32, SUBID_COUNT, u32_mul, u32_add, u32_max. intros Hmin Hmax Hs Hslot.
  pose proof (Z.mul_div_le (max_id - min_id) 65536).
  assert ((slot + 1) * 65536 ≤ max_id - min_id) by nia.
  destruct (Z.leb_spec (slot * 65536) 4294967295); [|lia].
  destruct (Z.leb_spec (min_id + slot * 65536) 4294967295); [|lia]. repeat split. lia.
Qed.

(** The start of a user's block, for any range of at least one block. *)
Lemma gen_subid_start_exact user min_id max_id :
  in_u32 min_id → in_u32 max_id → SUBID_COUNT ≤ max_id - min_id →
  ∃ slot, gen_subid_start user (min_id, max_id) = Some (min_id + slot * SUBID_COUNT) ∧ 0 ≤ slot ∧
    min_id + slot * SUBID_COUNT + SUBID_COUNT ≤ max_id.
Proof.
  intros Hmin Hmax Hs. unfold gen_subid_start, saturating_sub. rewrite Z.max_r by (unfold SUBID_COUNT in *; lia).
  assert (0 < (max_id - min_id) / SUBID_COUNT) as Hpos.
  { apply Z.div_str_pos. unfold SUBID_COUNT in *. lia. }
  destruct (Z.eqb_spec ((max_id - min_id) / SUBID_COUNT) 0); [lia|].
  set (slot := murmurhash3 _ _ mod _).
  assert (0 ≤ slot < (max_id - min_id) / SUBID_COUNT) as Hslot by (by apply Z.mod_pos_bound).
  destruct (subid_slots min_id max_id slot Hmin Hmax Hs Hslot) as (-> & H2 & H3).
  exists slot. simpl. rewrite H2. split; [done|]. split; [lia|done].
Qed.

Lemma gen_subid_start_total user min_id max_id :
  in_u32 min_id → in_u32 max_id → is_Some (gen_subid_start user (min_id, max_id)).
Proof.
  intros Hmin Hmax. destruct (Z.leb_spec SUBID_COUNT (max_id - min_id)) as [Hs|Hs].
  - destruct (gen_subid_start_exact user _ _ Hmin Hmax Hs) as (i & -> & _). done.
  - unfold gen_subid_start, saturating_sub. rewrite Z.div_small; [done|]. unfold SUBID_COUNT in *. lia.
Qed.

(** Subordinate ids never overflow or panic, are the same for every spelling of
    the user name in ASCII case, and form a whole block inside the configured range;
    the blocks of two users are equal or disjoint. A range too small for one block
    yields its start. *)
Theorem subid_blocks user user' min_id max_id :
  in_u32 min_id → in_u32 max_id →
  gen_subid_start (to_lowercase user) (min_id, max_id) = gen_subid_start user (min_id, max_id) ∧
  if SUBID_COUNT <=? max_id - min_id then
    ∃ a b, gen_subid_start user (min_id, max_id) = Some a ∧
      gen_subid_start user' (min_id, max_id) = Some b ∧
      min_id ≤ a ∧ a + SUBID_COUNT ≤ max_id ∧ (a - min_id) mod SUBID_COUNT = 0 ∧
      (a = b ∨ a + SUBID_COUNT ≤ b ∨ b + SUBID_COUNT ≤ a)
  else gen_subid_start user (min_id, max_id) = Some min_id.
Proof.
  intros Hmin Hmax. split; [unfold gen_subid_start; by rewrite to_lowercase_idemp|].
  destruct (Z.leb_spec SUBID_COUNT (max_id - min_id)) as [Hs|Hs].
  - destruct (gen_subid_start_exact user _ _ Hmin Hmax Hs) as (i & Hi & Hi0 & Hi1).
    destruct (gen_subid_start_exact user' _ _ Hmin Hmax Hs) as (j & Hj & Hj0 & Hj1).
    exists (min_id + i * SUBID_COUNT), (min_id + j * SUBID_COUNT).
    split_and!; [done|done|unfold SUBID_COUNT; lia|done| |].
    + replace (min_id + i * SUBID_COUNT - min_id) with (i * SUBID_COUNT) by lia. by apply Z.mod_mul.
    + unfold SUBID_COUNT. destruct (Z.lt_trichotomy i j) as [|[->|]]; lia.
  - unfold gen_subid_start, saturating_sub. rewrite Z.div_small; [done|]. unfold SUBID_COUNT in *. lia.
Qed.

(** With the default ranges the numbers given to accounts and the subordinate ids
    given to their containers never meet. *)
Theorem default_ranges_disjoint {U : Unistring} m tenant input id user start k :
  idmap_reachable m → ranges m !! tenant = Some DEFAULT_IDMAP_RANGE →
  gen_to_unix m tenant input = Ok id →
  gen_subid_start user DEFAULT_SUBID_RANGE = Some start → 0 ≤ k < SUBID_COUNT →
  id < start + k ∧ in_u32 (start + k).
Proof.
  intros Hm Hr Hg Hs Hk.
  assert (id ≤ 2000200000) as Hid.
  { unfold gen_to_unix in Hg. rewrite Hr in Hg. do 2 (case_match; [done|]).
    destruct (gen_loop_bounds m tenant _ _ _ _ (reachable_doms_ok _ Hm) (λ _ H, H) Hg)
      as (lo & hi & Hr' & ? & ?). rewrite Hr in Hr'. injection Hr' as <- <-. lia. }
  unfold DEFAULT_SUBID_RANGE in Hs.
  destruct (gen_subid_start_exact user 2100000000 4200000000) as (i & Hi & Hi0 & Hi1);
    [unfold in_u32, u32_max; lia..|unfold SUBID_COUNT; lia|].
  rewrite Hi in Hs. injection Hs as <-. unfold SUBID_COUNT, in_u32, u32_max in *. lia.
Qed.

(** ** Instances *)

(** Names that are already in normal form, as ASCII names are. *)
#[local] Instance model_unistring : Unistring := {| u8_normalize s := Some s |}.

Definition tenant : string := "d7af6c1b-0497-40fe-9d17-07e6b0f8332e".
Definition contoso : Idmap :=
  (add_gen_domain Idmap_new "contoso.onmicrosoft.com" tenant DEFAULT_IDMAP_RANGE).1.
Definition legacy : Idmap :=
  (add_gen_domain Idmap_new "contoso.onmicrosoft.com" tenant (1000000, 6999999)).1.

(** The uid numbers the crate's tests expect, for names and for object ids. *)
Example sssd_idmapping :
  gen_to_unix contoso tenant <$>
    ["tux@contoso.onmicrosoft.com"; "admin@contoso.onmicrosoft.com"; "dave@contoso.onmicrosoft.com";
     "joe@contoso.onmicrosoft.com"; "georg@contoso.onmicrosoft.com"]
  = [Ok 1912749799; Ok 297515919; Ok 132631922; Ok 361591965; Ok 866887005].
Proof. vm_compute. reflexivity. Qed.

Definition object_uid (u : N) : option (result Z IdmapError) :=
  match from_object_id (u : @Uuid model_ext) with
  | Ok sid => object_id_to_unix_id legacy tenant sid
  | Err e => Some (Err e)
  end.

Example legacy_idmapping :
  object_uid <$> [0xcd4ebec9434c4badaf7c9c39a4127551; 0x4210d86fce974aff97f7bd3789727903;
                  0x97bfcfc4fb12445eaaca28c6b5375855; 0x1e26150defe04551b9d349ea287c80a7;
                  0x8193af7271e14689a4eab9a05f2639c9]%N
  = [Some (Ok 5627207); Some (Ok 5290834); Some (Ok 4845027); Some (Ok 3215932); Some (Ok 4966353)].
Proof. vm_compute. reflexivity. Qed.

Example sid_match_object_id :
  from_sid_str "S-1-12-1-3904227861-1267125077-379982737-339933399"
  = from_object_id (0xe8b5ca15cb554b869113a616d7f84214%N : @Uuid model_ext).
Proof. vm_compute. reflexivity. Qed.

(** A range that encloses one already added is accepted: the check asks only whether
    an end of the new range falls into the old one. *)
Example enclosing_range_accepted :
  let '(m1, r1) := add_gen_domain Idmap_new "a" "tenant-a" (500000, 600000) in
  let '(m2, r2) := add_gen_domain m1 "b" "tenant-b" (400000, 700000) in
  r1 = Ok tt ∧ r2 = Ok tt.
Proof. vm_compute. done. Qed.

Lemma contoso_reachable : idmap_reachable contoso.
Proof. apply idmap_add; [constructor|by vm_compute..]. Qed.

Lemma gen_to_unix_in_range_witness :
  ∃ lo hi, ranges contoso !! tenant = Some (lo, hi) ∧ lo ≤ 1912749799 ≤ hi.
Proof.
  apply (gen_to_unix_in_range contoso tenant "tux@contoso.onmicrosoft.com" 1912749799);
    [exact contoso_reachable|vm_compute; reflexivity].
Defined.

Lemma gen_to_unix_exact_witness :
  gen_to_unix contoso tenant "TUX" =
    Ok (200000 + murmurhash3 (string_bytes "tux") SEED mod (2000200000 - 200000 + 1)) ∧
  gen_to_unix contoso tenant (to_lowercase "TUX") = gen_to_unix contoso tenant "TUX".
Proof.
  apply (gen_to_unix_exact Idmap_new contoso "contoso.onmicrosoft.com" tenant 200000 2000200000 "TUX" "tux");
    first [reflexivity | by vm_compute | unfold in_u32, u32_max; lia].
Defined.

Definition refused : Idmap := (add_gen_domain contoso "fabrikam.com" "t2" (200000, 300000)).1.
Definition sample_sid : AadSid := Build_AadSid 1 2 12 ([1; 77] ++ replicate 13 0).

Lemma refused_domain_registered_witness :
  object_id_to_unix_id refused "t2" sample_sid = Some (Ok (77 mod (300000 - 200000) + 200000)) ∧
  gen_to_unix refused "t2" "bob" = Err IDMAP_NO_DOMAIN.
Proof.
  apply (refused_domain_registered contoso refused "fabrikam.com" "t2" 200000 300000 sample_sid 77 "bob");
    first [exact contoso_reachable | lia | unfold in_u32, u32_max; lia | vm_compute; reflexivity].
Defined.

Lemma parsed_sid_has_rid_witness :
  ∃ sid r, from_sid_str "S-1-12-1-7" = Ok sid ∧ rid sid = Some (Ok r) ∧ in_u32 r ∧
           length (sub_auths sid) = 15%nat.
Proof.
  eexists. destruct (parsed_sid_has_rid "S-1-12-1-7" _ eq_refl) as (r & H). exists r.
  exact (conj eq_refl H).
Defined.

Lemma object_id_in_range_witness :
  ∃ sid r, from_object_id (5%N : @Uuid model_ext) = Ok sid ∧ rid sid = Some (Ok r) ∧ in_u32 r ∧
    object_id_to_unix_id contoso tenant sid = Some (Ok (r mod (2000200000 - 200000) + 200000)) ∧
    200000 ≤ r mod (2000200000 - 200000) + 200000 < 2000200000.
Proof.
  apply (object_id_in_range contoso tenant 200000 2000200000 (5%N : @Uuid model_ext));
    first [vm_compute; reflexivity | lia | unfold in_u32, u32_max; lia].
Defined.

Lemma subid_blocks_witness :
  ∃ a b, gen_subid_start "tux" DEFAULT_SUBID_RANGE = Some a ∧
    gen_subid_start "admin" DEFAULT_SUBID_RANGE = Some b ∧
    2100000000 ≤ a ∧ a + SUBID_COUNT ≤ 4200000000 ∧ (a - 2100000000) mod SUBID_COUNT = 0 ∧
    (a = b ∨ a + SUBID_COUNT ≤ b ∨ b + SUBID_COUNT ≤ a).
Proof.
  apply (subid_blocks "tux" "admin" 2100000000 4200000000); unfold in_u32, u32_max; lia.
Defined.

Lemma default_ranges_disjoint_witness :
  ∃ start, gen_subid_start "tux" DEFAULT_SUBID_RANGE = Some start ∧
    1912749799 < start + 0 ∧ in_u32 (start + 0).
Proof.
  eexists. split; [vm_compute; reflexivity|].
  apply (default_ranges_disjoint contoso tenant "tux@contoso.onmicrosoft.com" 1912749799 "tux");
    first [exact contoso_reachable | vm_compute; reflexivity | unfold SUBID_COUNT; lia].
Defined.
