(* ===== verification/UserMap.v ===== *)
(** * The user map: [src/common/src/user_map.rs]

    The file that maps local account names to UPNs, one pair per line, and its
    lookups in both directions. *)
From stdpp Require Import base gmap strings list fin_maps.
From Stdlib Require Import ZArith Lia Ascii.
From S2P Require Import Prelude.

Record UserMap := { forward : gmap string string; reverse : gmap string string }.

(** One line of the file, added to the map unless it is a comment, incomplete, or
    repeats a local name or a UPN. *)
Definition add_line (m : UserMap) (line : string) : UserMap :=
  if String.prefix "#" (trim_start line) || String.eqb (trim line) EmptyString then m
  else
    let '(a, b) := split_once ":"%char line in
    let local := trim a in
    let upn := to_lowercase (trim (default EmptyString b)) in
    if String.eqb local EmptyString || String.eqb upn EmptyString then m
    else match forward m !! local, reverse m !! upn with
         | Some _, _ => m
         | _, Some _ => m
         | None, None => {| forward := <[local := upn]> (forward m);
                            reverse := <[upn := local]> (reverse m) |}
         end.

(** [UserMap::new]: [None] is a file that cannot be read. *)
Definition UserMap_new (file : option string) : UserMap :=
  match file with
  | Some content => foldl add_line {| forward := ∅; reverse := ∅ |} (lines content)
  | None => {| forward := ∅; reverse := ∅ |}
  end.

Definition get_upn_from_local (m : UserMap) (username : string) : option string :=
  forward m !! username.
Definition get_local_from_upn (m : UserMap) (upn : string) : option string := reverse m !! upn.
Definition get_id_overrides (m : UserMap) : list string := (map_to_list (forward m)).*1.

(** The two directions are inverse, and every UPN is in lower case and not empty. *)
Record user_map_ok (m : UserMap) : Prop := {
  um_inverse : ∀ l u, forward m !! l = Some u ↔ reverse m !! u = Some l;
  um_lower : ∀ l u, forward m !! l = Some u → to_lowercase u = u ∧ u ≠ EmptyString ∧ l ≠ EmptyString
}.

Lemma add_line_ok m line : user_map_ok m → user_map_ok (add_line m line).
Proof.
  intros [Hi Hl]. unfold add_line. case_match; [done|]. destruct (split_once _ _) as [a b].
  set (local := trim a). set (upn := to_lowercase _).
  destruct (String.eqb_spec local EmptyString) as [|Hln]; simpl; [done|].
  destruct (String.eqb_spec upn EmptyString) as [|Hun]; simpl; [done|].
  destruct (forward m !! local) eqn:Ef; [done|]. destruct (reverse m !! upn) eqn:Er; [done|].
  split; simpl.
  - intros l u. rewrite !lookup_insert_Some. split.
    + intros [[<- <-]|[Hne Hf]]; [by left|]. right. split; [|by apply Hi].
      intros <-. apply Hi in Hf. congruence.
    + intros [[<- <-]|[Hne Hf]]; [by left|]. right. split; [|by apply Hi].
      intros <-. apply Hi in Hf. congruence.
  - intros l u [[<- <-]|[Hne Hf]]%lookup_insert_Some; [|by apply (Hl l)].
    split; [apply to_lowercase_idemp|done].
Qed.

(** Whatever the file holds, the user map is a bijection between the local names
    and the UPNs it lists: the two lookups are inverse to each other, UPNs are stored
    in lower case, no name or UPN is empty, and the id overrides are exactly the
    local names. *)
Theorem user_map_bijection file l u :
  (get_upn_from_local (UserMap_new file) l = Some u ↔
   get_local_from_upn (UserMap_new file) u = Some l) ∧
  (get_upn_from_local (UserMap_new file) l = Some u →
   to_lowercase u = u ∧ u ≠ EmptyString ∧ l ≠ EmptyString ∧
   l ∈ get_id_overrides (UserMap_new file)).
Proof.
  assert (user_map_ok (UserMap_new file)) as [Hi Hl].
  { destruct file as [c|]; simpl; [|by split].
    assert (∀ ls m, user_map_ok m → user_map_ok (foldl add_line m ls)) as Hf.
    { induction ls as [|x ls IH]; simpl; intros m Hm; [done|]. by apply IH, add_line_ok. }
    apply Hf. by split. }
  split; [apply Hi|]. intros Hf. destruct (Hl l u Hf) as (? & ? & ?). split_and!; try done.
  apply list_elem_of_fmap. exists (l, u). split; [done|]. by apply elem_of_map_to_list.
Qed.

(** The first line that names a local account decides. *)
Example user_map_sample :
  let m := UserMap_new (Some ("# comment" +:+ String LF "alice : Alice@Example.COM" +:+
             String LF "alice:other@example.com" +:+ String LF "bob" +:+ String LF EmptyString)) in
  get_upn_from_local m "alice" = Some "alice@example.com" ∧
  get_local_from_upn m "alice@example.com" = Some "alice" ∧
  get_upn_from_local m "bob" = None ∧ get_local_from_upn m "other@example.com" = None.
Proof. vm_compute. done. Qed.
