(* ===== verification/Caches.v ===== *)
(** * The small SQLite caches

    [mapping.rs], [idmap_cache.rs], [nss_cache.rs] and [policy_cache.rs] of
    [src/common/src]: one table each, opened read-only or read-write, with rows kept
    in the order of their row ids. [INSERT OR REPLACE] removes the row with the same
    primary key and appends the new one. *)
From stdpp Require Import base gmap strings list fin_maps.
From Stdlib Require Import ZArith Lia Ascii.
From S2P Require Import Prelude Proto Interface.

(** ** The file and the connection *)

(** A database file: absent, or present with or without its tables. A statement
    that needs a missing table fails, as does one hit by [fault]. *)
Definition DbFile (T : Type) : Type := option (option T).

Record Opened := { has_conn : bool; writable : bool }.

(** Which of the steps of opening a cache fail: creating the parent directory,
    opening the file, creating the tables, setting the permissions. *)
Record OpenFaults := {
  parent_fault : bool; open_fault : bool; create_fault : bool; chmod_fault : bool
}.

(** The common body of the four constructors: [mkdir] says whether the parent
    directory of a missing file is created. The result is the file after the call and
    the connection, [None] where the constructor returns an error. A batch of
    [CREATE TABLE] that fails is taken to have created none of its tables. *)
Definition open_cache {T} (mkdir : bool) (empty : T) (is_root read_write : bool) (ft : OpenFaults)
  (file : DbFile T) : DbFile T * option Opened :=
  match file with
  | Some _ =>
      (file, if open_fault ft then None
             else Some {| has_conn := true; writable := is_root && read_write |})
  | None =>
      if mkdir && parent_fault ft then (None, None)
      else if is_root && read_write then
        if open_fault ft then (None, None)
        else if create_fault ft then (Some None, None)
        else if chmod_fault ft then (Some (Some empty), None)
        else (Some (Some empty), Some {| has_conn := true; writable := true |})
      else (None, Some {| has_conn := false; writable := false |})
  end.

(** Run an insertion on the file, if the table is there and no fault occurs. *)
Definition sql_update {T} (fault : bool) (f : T → T) (file : DbFile T) : DbFile T * bool :=
  match file, fault with
  | Some (Some t), false => (Some (Some (f t)), true)
  | _, _ => (file, false)
  end.

Definition sql_rows {T} (file : DbFile T) : option T :=
  match file with Some (Some t) => Some t | _ => None end.

(** [INSERT OR REPLACE] on rows with primary key [key]. *)
Definition replace_row {R} (key : R → string) (r : R) (l : list R) : list R :=
  List.filter (λ x, negb (String.eqb (key x) (key r))) l ++ [r].

Definition find_row {R} (key : R → string) (k : string) (l : list R) : option R :=
  head (List.filter (λ x, String.eqb (key x) k) l).

(** ** [mapping.rs] *)

Record MappingRow := { mp_upn : string; mp_name : string }.

Definition MappedNameCache_new (is_root read_write : bool) (ft : OpenFaults)
  (file : DbFile (list MappingRow)) : DbFile (list MappingRow) * option Opened :=
  open_cache is_root [] is_root read_write ft file.

Definition AT : ascii := "@"%char.

Definition insert_mapping (fault : bool) (c : Opened) (upn mapped_name : string)
  (file : DbFile (list MappingRow)) : DbFile (list MappingRow) :=
  if negb (contains_char AT upn) || String.eqb upn mapped_name then file
  else if has_conn c && writable c then
    (sql_update fault (replace_row mp_upn (Build_MappingRow upn mapped_name)) file).1
  else file.

Definition get_mapped_name (c : Opened) (upn : string) (file : DbFile (list MappingRow)) : string :=
  if negb (has_conn c) then upn
  else if negb (contains_char AT upn) then upn
  else match rows ← sql_rows file; find_row mp_upn upn rows with
       | Some r => mp_name r
       | None => upn
       end.

(** ** [idmap_cache.rs] *)

Record StaticUser := { su_name : string; su_uid : Z; su_gid : Z }.
Record StaticGroup := { sg_name : string; sg_gid : Z }.

Record StaticTables := { static_users : list StaticUser; static_groups : list StaticGroup }.

Definition StaticIdCache_new (is_root writable : bool) (ft : OpenFaults)
  (file : DbFile StaticTables) : DbFile StaticTables * option Opened :=
  open_cache (is_root && writable) (Build_StaticTables [] []) is_root writable ft file.

Definition static_insert_user (fault : bool) (c : Opened) (u : StaticUser) (file : DbFile StaticTables)
  : DbFile StaticTables * bool :=
  if has_conn c && writable c then
    sql_update fault (λ t, Build_StaticTables (replace_row su_name u (static_users t)) (static_groups t)) file
  else (file, true).

Definition static_insert_group (fault : bool) (c : Opened) (g : StaticGroup) (file : DbFile StaticTables)
  : DbFile StaticTables * bool :=
  if has_conn c && writable c then
    sql_update fault (λ t, Build_StaticTables (static_users t) (replace_row sg_name g (static_groups t))) file
  else (file, true).

Definition static_rows (c : Opened) (file : DbFile StaticTables) : option StaticTables :=
  if has_conn c then sql_rows file else None.

(** [row.get] converts the stored integer to a [u32]. *)
Definition user_in_range (u : StaticUser) : bool :=
  (0 <=? su_uid u) && (su_uid u <=? u32_max) && (0 <=? su_gid u) && (su_gid u <=? u32_max).
Definition group_in_range (g : StaticGroup) : bool := (0 <=? sg_gid g) && (sg_gid g <=? u32_max).

Definition get_user_by_name (c : Opened) (name : string) (file : DbFile StaticTables)
  : option StaticUser :=
  t ← static_rows c file; u ← find_row su_name name (static_users t);
  if user_in_range u then Some u else None.

Definition get_group_by_name (c : Opened) (name : string) (file : DbFile StaticTables)
  : option StaticGroup :=
  t ← static_rows c file; g ← find_row sg_name name (static_groups t);
  if group_in_range g then Some g else None.

Definition list_users (c : Opened) (file : DbFile StaticTables) : list StaticUser :=
  match static_rows c file with
  | Some t => List.filter user_in_range (static_users t)
  | None => []
  end.

Definition list_groups (c : Opened) (file : DbFile StaticTables) : list StaticGroup :=
  match static_rows c file with
  | Some t => List.filter group_in_range (static_groups t)
  | None => []
  end.

(** ** [nss_cache.rs] *)

Record NssRow := { nr_user : NssUser; nr_last_updated : Z }.

Definition NssCache_new (is_root read_write : bool) (ft : OpenFaults)
  (file : DbFile (list NssRow)) : DbFile (list NssRow) * option Opened :=
  open_cache is_root [] is_root read_write ft file.

Definition MAX_AGE_SECS : Z := 48 * 3600.

(** [now] is the number of whole seconds since the epoch, zero before it. *)
Definition nss_insert_user (fault : bool) (now : Z) (c : Opened) (user : NssUser)
  (file : DbFile (list NssRow)) : DbFile (list NssRow) :=
  if has_conn c && writable c then
    (sql_update fault (replace_row (λ r, nu_name (nr_user r)) (Build_NssRow user now)) file).1
  else file.

Definition nss_row_matches (id : Id) (r : NssRow) : bool :=
  match id with
  | Id_Name n => String.eqb (nu_name (nr_user r)) n
  | Id_Gid uid => nu_uid (nr_user r) =? uid
  end.

Definition nss_in_range (u : NssUser) : bool :=
  (0 <=? nu_uid u) && (nu_uid u <=? u32_max) && (0 <=? nu_gid u) && (nu_gid u <=? u32_max).

Definition nss_get_user (now : Z) (c : Opened) (id : Id) (file : DbFile (list NssRow))
  : option NssUser :=
  if negb (has_conn c) then None
  else
    rows ← sql_rows file;
    r ← head (List.filter (nss_row_matches id) rows);
    if MAX_AGE_SECS <? now - nr_last_updated r then None
    else if nss_in_range (nr_user r) then Some (nr_user r) else None.

Definition nss_get_users (now : Z) (c : Opened) (file : DbFile (list NssRow)) : list NssUser :=
  if negb (has_conn c) then []
  else match sql_rows file with
       | Some rows =>
           List.filter nss_in_range
             (nr_user <$> List.filter (λ r, now - nr_last_updated r <=? MAX_AGE_SECS) rows)
       | None => []
       end.

(** ** [policy_cache.rs] *)

Inductive PolicyValue := PolicyValue_Int (n : Z) | PolicyValue_Text (s : string).

Record PolicyRow := { pr_key : string; pr_value : string; pr_is_number : Z }.

Record PolicyCache := { pc_conn : Opened; pc_file : DbFile (list PolicyRow) }.

Definition PolicyCache_new (is_root writable : bool) (ft : OpenFaults)
  (file : DbFile (list PolicyRow)) : DbFile (list PolicyRow) * option PolicyCache :=
  let '(file, c) := open_cache (is_root && writable) [] is_root writable ft file in
  (file, (λ conn, Build_PolicyCache conn file) <$> c).

Definition policy_set (fault : bool) (c : PolicyCache) (key : string) (value : PolicyValue)
  : PolicyCache * bool :=
  if negb (writable (pc_conn c)) then (c, true)
  else if negb (has_conn (pc_conn c)) then (c, true)
  else
    let '(val_str, is_number) :=
      match value with
      | PolicyValue_Int num => (uint_to_string num, 1)
      | PolicyValue_Text s => (s, 0)
      end in
    let '(file, ok) :=
      sql_update fault (replace_row pr_key (Build_PolicyRow key val_str is_number)) (pc_file c) in
    (Build_PolicyCache (pc_conn c) file, ok).

Definition policy_get (c : PolicyCache) (key : string) : option PolicyValue :=
  if negb (has_conn (pc_conn c)) then None
  else
    rows ← sql_rows (pc_file c);
    r ← find_row pr_key key rows;
    if pr_is_number r =? 1 then PolicyValue_Int <$> parse_uint u32_max (pr_value r)
    else Some (PolicyValue_Text (pr_value r)).

(** ** Rows *)

Lemma find_replace {R} (key : R → string) (r : R) l : find_row key (key r) (replace_row key r l) = Some r.
Proof.
  unfold find_row, replace_row. rewrite List.filter_app, filter_filter.
  rewrite (proj2 (filter_nil_iff _ l)); simpl; [by rewrite String.eqb_refl|].
  intros x _. by destruct (String.eqb (key x) (key r)).
Qed.

Lemma find_replace_ne {R} (key : R → string) (r : R) k l :
  k ≠ key r → find_row key k (replace_row key r l) = find_row key k l.
Proof.
  intros Hk. unfold find_row, replace_row. rewrite List.filter_app, filter_filter. simpl.
  destruct (String.eqb_spec (key r) k) as [Hr|]; [congruence|]. rewrite app_nil_r. f_equal.
  apply List.filter_ext. intros x. destruct (String.eqb_spec (key x) k) as [->|].
  - by destruct (String.eqb_spec k (key r)).
  - by rewrite andb_false_r.
Qed.

Lemma sql_update_ok {T} (f : T → T) t : sql_update false f (Some (Some t)) = (Some (Some (f t)), true).
Proof. done. Qed.

(** ** Round trips *)

(** A mapping stored through a writable connection is read back for its UPN and
    disturbs no other; a UPN without an at sign is never mapped; and a connection that
    is not writable changes nothing. *)
Theorem mapped_name_roundtrip c upn name upn' rows fault file :
  has_conn c = true → writable c = true → contains_char AT upn = true → upn ≠ name →
  get_mapped_name c upn (insert_mapping false c upn name (Some (Some rows))) = name ∧
  (upn' ≠ upn → get_mapped_name c upn' (insert_mapping false c upn name (Some (Some rows)))
                = get_mapped_name c upn' (Some (Some rows))) ∧
  (∀ c' f, contains_char AT upn' = false → get_mapped_name c' upn' f = upn') ∧
  (∀ c', writable c' = false → insert_mapping fault c' upn name file = file).
Proof.
  intros Hc Hw Ha Hne. unfold insert_mapping, get_mapped_name. rewrite Hc, Hw, Ha. simpl.
  destruct (String.eqb_spec upn name); [done|]. simpl. split_and!.
  - by rewrite (find_replace mp_upn (Build_MappingRow upn name)).
  - intros Hn. by rewrite (find_replace_ne mp_upn (Build_MappingRow upn name) upn').
  - intros c' f ->. by destruct (has_conn c').
  - intros c' ->. by rewrite andb_false_r.
Qed.

Lemma nss_listed t c rows u :
  has_conn c = true →
  u ∈ nss_get_users t c (Some (Some rows)) ↔
  ∃ r, r ∈ rows ∧ u = nr_user r ∧ nss_in_range u = true ∧ t - nr_last_updated r ≤ MAX_AGE_SECS.
Proof.
  intros Hc. unfold nss_get_users. rewrite Hc. simpl. rewrite elem_of_bfilter, list_elem_of_fmap.
  split.
  - intros [(r & -> & [Hr Ht%Z.leb_le]%elem_of_bfilter) Hi]. eauto.
  - intros (r & Hr & -> & Hi & Ht%Z.leb_le). split; [|done]. exists r. split; [done|].
    by apply elem_of_bfilter.
Qed.

Lemma nss_get_inserted c user rows t0 t1 :
  has_conn c = true → writable c = true → nss_in_range user = true →
  nss_get_user t1 c (Id_Name (nu_name user)) (nss_insert_user false t0 c user (Some (Some rows))) =
  (if t1 - t0 <=? 48 * 3600 then Some user else None).
Proof.
  intros Hc Hw Hi. unfold nss_insert_user. rewrite Hc, Hw. simpl.
  pose proof (find_replace (λ r, nu_name (nr_user r)) (Build_NssRow user t0) rows) as Hf.
  unfold find_row in Hf. simpl in Hf. unfold nss_get_user, nss_row_matches. rewrite Hc. simpl.
  rewrite Hf. simpl. rewrite Hi.
  destruct (Z.ltb_spec MAX_AGE_SECS (t1 - t0)), (Z.leb_spec (t1 - t0) (48 * 3600));
    unfold MAX_AGE_SECS in *; done || lia.
Qed.

(** The NSS cache answers with the entry last written for a name, for 48 hours and
    no longer; the listing shows exactly the entries that are not older, the one
    written in place of any earlier one of its name. *)
Theorem nss_cache_fresh c user rows t0 t1 :
  has_conn c = true → writable c = true → nss_in_range user = true →
  let file := nss_insert_user false t0 c user (Some (Some rows)) in
  nss_get_user t1 c (Id_Name (nu_name user)) file =
    (if t1 - t0 <=? 48 * 3600 then Some user else None) ∧
  (∀ u, u ∈ nss_get_users t1 c file ↔
     (u = user ∧ t1 - t0 ≤ 48 * 3600) ∨
     (u ∈ nss_get_users t1 c (Some (Some rows)) ∧ nu_name u ≠ nu_name user)).
Proof.
  intros Hc Hw Hi file. split; [by apply nss_get_inserted|].
  unfold file, nss_insert_user. rewrite Hc, Hw. simpl.
  intros u. rewrite !nss_listed by done. unfold replace_row, MAX_AGE_SECS.
  setoid_rewrite elem_of_app. setoid_rewrite list_elem_of_singleton.
  setoid_rewrite elem_of_bfilter. setoid_rewrite negb_true_iff. setoid_rewrite String.eqb_neq.
  split.
  - intros (r & [[Hr Hn]| ->] & -> & Hu & Ht); [right|by left]. split; [by exists r|done].
  - intros [[-> Ht]|[(r & Hr & -> & Hu & Ht) Hn]]; [by exists (Build_NssRow user t0); eauto|].
    exists r. auto.
Qed.

(** A policy value set through a writable connection is read back as it was, numbers
    of 32 bits and texts alike, and other keys keep their values. *)
Theorem policy_roundtrip conn rows key value key' :
  has_conn conn = true → writable conn = true →
  match value with PolicyValue_Int n => in_u32 n | PolicyValue_Text _ => True end →
  let c := Build_PolicyCache conn (Some (Some rows)) in
  policy_get (policy_set false c key value).1 key = Some value ∧
  (key' ≠ key → policy_get (policy_set false c key value).1 key' = policy_get c key').
Proof.
  intros Hc Hw Hv c. unfold policy_set, policy_get. simpl. rewrite Hw, Hc. simpl.
  destruct value as [n|s]; simpl; rewrite Hc; simpl; split.
  - rewrite (find_replace pr_key (Build_PolicyRow key (uint_to_string n) 1)). simpl.
    by rewrite parse_uint_to_string.
  - intros Hk. by rewrite (find_replace_ne pr_key (Build_PolicyRow key (uint_to_string n) 1) key').
  - by rewrite (find_replace pr_key (Build_PolicyRow key s 0)).
  - intros Hk. by rewrite (find_replace_ne pr_key (Build_PolicyRow key s 0) key').
Qed.

(** A static user or group stored through a writable connection is read back, and a
    connection opened without write access, or by another user than root, changes
    nothing. *)
Theorem static_id_roundtrip c u g users groups is_root rw ft fault file :
  has_conn c = true → writable c = true → user_in_range u = true → group_in_range g = true →
  let t := Build_StaticTables users groups in
  get_user_by_name c (su_name u) (static_insert_user false c u (Some (Some t))).1 = Some u ∧
  get_group_by_name c (sg_name g) (static_insert_group false c g (Some (Some t))).1 = Some g ∧
  (is_root && rw = false → let o := StaticIdCache_new is_root rw ft file in
     o.1 = file ∧ ∀ c', o.2 = Some c' →
     (static_insert_user fault c' u file).1 = file ∧
     (static_insert_group fault c' g file).1 = file).
Proof.
  intros Hc Hw Hu Hg t. unfold get_user_by_name, get_group_by_name, static_insert_user,
    static_insert_group, static_rows. rewrite Hc, Hw. cbn [andb]. rewrite !sql_update_ok. split_and!.
  - cbn [fst sql_rows mbind option_bind static_users]. by rewrite find_replace; simpl; rewrite Hu.
  - cbn [fst sql_rows mbind option_bind static_groups]. by rewrite find_replace; simpl; rewrite Hg.
  - intros Hr. unfold StaticIdCache_new, open_cache. rewrite Hr. simpl.
    destruct file; simpl; (split; [done|]); intros c' Hc';
      [destruct (open_fault ft)|]; simplify_eq/=; by rewrite ?andb_false_r.
Qed.

(** ** Instances *)

Definition rw_conn : Opened := {| has_conn := true; writable := true |}.

Lemma mapped_name_roundtrip_witness :
  get_mapped_name rw_conn "a@b" (insert_mapping false rw_conn "a@b" "alice" (Some (Some []))) = "alice".
Proof. apply (mapped_name_roundtrip rw_conn "a@b" "alice" "x" [] false None); done. Defined.

Lemma nss_cache_fresh_witness :
  nss_get_user 100 rw_conn (Id_Name "a")
    (nss_insert_user false 0 rw_conn (Build_NssUser "a" 1 1 "" "" "") (Some (Some [])))
  = Some (Build_NssUser "a" 1 1 "" "" "").
Proof. apply (nss_cache_fresh rw_conn (Build_NssUser "a" 1 1 "" "" "") [] 0 100); done. Defined.

Lemma policy_roundtrip_witness :
  policy_get (policy_set false (Build_PolicyCache rw_conn (Some (Some []))) "k" (PolicyValue_Int 7)).1
    "k" = Some (PolicyValue_Int 7).
Proof. apply (policy_roundtrip rw_conn [] "k" (PolicyValue_Int 7) "k2"); done. Defined.

Lemma static_id_roundtrip_witness :
  get_user_by_name rw_conn "a"
    (static_insert_user false rw_conn (Build_StaticUser "a" 1 2)
       (Some (Some (Build_StaticTables [] [])))).1 = Some (Build_StaticUser "a" 1 2).
Proof.
  apply (static_id_roundtrip rw_conn (Build_StaticUser "a" 1 2) (Build_StaticGroup "g" 3) [] []
           false false (Build_OpenFaults false false false false) false None); done.
Defined.
