(* ===== verification/Config.v ===== *)
(** * Configuration: [src/common/src/config.rs]

    The lookups of [HimmelblauConfig] with their fallbacks from a domain's section to
    the global one and to the defaults of [constants.rs], the mapping between local
    names and UPNs, the aliases of a domain and the server configuration written
    when a host joins. The crate [configparser] is the class [IniFile]; the getters
    that the build generates from the XML parameter definitions are the class
    [GeneratedConfig]. *)
From stdpp Require Import base gmap strings list fin_maps.
From Stdlib Require Import ZArith Lia Ascii.
From S2P Require Import Prelude Proto Interface Caches Idmap.

(** ** The crates below *)

(** [configparser::ini::Ini] as [Ini::new] makes it: section and key names are
    compared without regard to case and kept in lower case. *)
Class IniFile : Type := {
  Ini : Type;
  ini_new : Ini;
  ini_load : Ini → string → result Ini string;
  ini_load_and_append : Ini → string → result Ini string;
  ini_get : Ini → string → string → option string;
  ini_set : Ini → string → string → option string → Ini;
  ini_sections : Ini → list string;
  ini_map : Ini → list (string * string);
  ini_remove_section : Ini → string → Ini;
  ini_remove_key : Ini → string → string → Ini
}.

Definition same_name (a b : string) : bool := String.eqb (to_lowercase a) (to_lowercase b).

(** The documented behaviour the code relies on: a value set is the value read, the
    removals remove what they name and nothing else, and the map lists every key that
    has a value, in lower case. *)
Class IniLaws (I : IniFile) : Prop := {
  ini_get_set : ∀ i s k v s' k',
    ini_get (ini_set i s k v) s' k' =
    if same_name s s' && same_name k k' then v else ini_get i s' k';
  ini_get_remove_section : ∀ i s s' k,
    ini_get (ini_remove_section i s) s' k = if same_name s s' then None else ini_get i s' k;
  ini_get_remove_key : ∀ i s k s' k',
    ini_get (ini_remove_key i s k) s' k' =
    if same_name s s' && same_name k k' then None else ini_get i s' k';
  ini_map_complete : ∀ i s k v,
    ini_get i s k = Some v → (to_lowercase s, to_lowercase k) ∈ ini_map i;
  ini_map_lower : ∀ i s k, (s, k) ∈ ini_map i → to_lowercase k = k
}.

Inductive IpVersionSelection :=
| IpVersionSelection_Both | IpVersionSelection_Ipv4Only | IpVersionSelection_Ipv6Only.

(** Getters of [config_gen.rs] that the modelled code calls. *)
Class GeneratedConfig `{I : IniFile} : Type := {
  get_connection_timeout : Ini → Z;
  get_ip_version : Ini → IpVersionSelection;
  get_name_mapping_script : Ini → option string;
  get_cn_name_mapping : Ini → bool;
  get_apply_policy : Ini → bool;
  get_logon_script : Ini → option string;
  get_logon_token_scopes : Ini → list string;
  get_hello_pin_retry_count : Ini → Z;
  get_enable_sfa_fallback : Ini → bool;
  get_enable_hello_totp : Ini → bool;
  get_offline_breakglass_enabled : Ini → bool;
  get_offline_breakglass_ttl : Ini → Z
}.

(** ** Constants *)

Definition DEFAULT_CONFIG_PATH : string := "/etc/himmelblau/himmelblau.conf".
Definition SERVER_CONFIG_PATH : string := "/var/cache/himmelblaud/himmelblau.conf".
Definition DEFAULT_POLICIES_DB_DIR : string := "/var/cache/himmelblau-policies/".
Definition DEFAULT_HOME_PREFIX : string := "/home/".
Definition DEFAULT_HOME_ATTR : HomeAttr := HomeAttr_Uuid.
Definition DEFAULT_HOME_ALIAS : option HomeAttr := Some HomeAttr_Spn.
Definition DEFAULT_SHELL : string := "/bin/bash".
Definition DEFAULT_ODC_PROVIDER : string := "odc.officeapps.live.com".
Definition DEFAULT_AUTHORITY_HOST : string := "login.microsoftonline.com".
Definition DEFAULT_HSM_PIN_PATH : string := "/var/lib/himmelblaud/hsm-pin".
Definition DEFAULT_PASSWORD_ONLY_REMOTE_SERVICES_DENY_LIST : string :=
  "ssh,telnet,ftp,rsh,rlogin,rexec,vnc,xrdp,cockpit,mosh".

Inductive IdAttr := IdAttr_Uuid | IdAttr_Name | IdAttr_Rfc2307.
Inductive JoinType := JoinType_Join | JoinType_Register.
Inductive IpVersion := IpVersion_V4 | IpVersion_V6.

Definition DEFAULT_ID_ATTR_MAP : IdAttr := IdAttr_Name.
Definition DEFAULT_JOIN_TYPE : JoinType := JoinType_Join.

Definition join_type_to_u32 (val : JoinType) : Z :=
  match val with JoinType_Join => 0 | JoinType_Register => 4 end.

(** ** Free functions *)

Definition COMMA : ascii := ","%char.
Definition DASH : ascii := "-"%char.

Definition split_username (username : string) : option (string * string) :=
  match split_char AT username with
  | [name; domain] => Some (name, domain)
  | _ => None
  end.

Fixpoint last_char (s : string) : option ascii :=
  match s with
  | EmptyString => None
  | String c EmptyString => Some c
  | String _ s' => last_char s'
  end.

Fixpoint drop_last_char (s : string) : string :=
  match s with
  | EmptyString | String _ EmptyString => EmptyString
  | String c s' => String c (drop_last_char s')
  end.

Definition is_ascii_alphabetic (c : ascii) : bool :=
  let n := nat_of_ascii c in
  ((Nat.leb 65 n && Nat.leb n 90) || (Nat.leb 97 n && Nat.leb n 122))%bool.

(** The product of two [u64]; [None] where it overflows. *)
Definition u64_mul (a b : Z) : option Z := if a * b <=? u64_max then Some (a * b) else None.

(** The outer option is [None] where the multiplication overflows. *)
Definition parse_ttl_to_seconds (ttl_str : string) : option (option Z) :=
  let ttl_str := to_lowercase (trim ttl_str) in
  match last_char ttl_str with
  | None => Some None
  | Some c =>
      let '(num_part, suffix) :=
        if is_ascii_alphabetic c then (drop_last_char ttl_str, c) else (ttl_str, "s"%char) in
      match parse_uint u64_max num_part with
      | None => Some None
      | Some number =>
          if Ascii.eqb suffix "s" then Some (Some number)
          else if Ascii.eqb suffix "m" then Some <$> u64_mul number 60
          else if Ascii.eqb suffix "h" then Some <$> u64_mul number 3600
          else if Ascii.eqb suffix "d" then Some <$> u64_mul number 86400
          else Some None
      end
  end.

Definition str_to_home_attr (attrib : string) : HomeAttr :=
  if String.eqb (to_lowercase attrib) "uuid" then HomeAttr_Uuid
  else if String.eqb (to_lowercase attrib) "spn" then HomeAttr_Spn
  else if String.eqb (to_lowercase attrib) "cn" then HomeAttr_Cn
  else HomeAttr_Uuid.

Definition match_bool (val : option string) (default : bool) : bool :=
  match val with
  | Some val =>
      let v := to_lowercase val in
      if String.eqb v "true" then true
      else if String.eqb v "false" then false
      else if String.eqb v "1" then true
      else if String.eqb v "0" then false
      else default
  | None => default
  end.

(** [val.split(',').map(|s| s.trim().to_string()).collect()] *)
Definition comma_list (val : string) : list string := trim <$> split_char COMMA val.

Definition nonempty_list (l : list string) : list string :=
  List.filter (λ s, negb (String.eqb s EmptyString)) l.

(** A range "min-max": anything that is not two numbers is the default. *)
Definition parse_range (default : Z * Z) (val : string) : Z * Z :=
  let vals := match mapM (parse_uint u32_max) (split_char DASH val) with
              | Some vals => vals
              | None => [default.1; default.2]
              end in
  match vals with
  | [min; max] => (min, max)
  | _ => default
  end.

Fixpoint strip_suffix (suffix s : string) : option string :=
  if String.eqb s suffix then Some EmptyString
  else match s with
       | EmptyString => None
       | String c s' => String c <$> strip_suffix suffix s'
       end.

(** ** [HimmelblauConfig] *)

Section config.
Context {I : IniFile}.

Record HimmelblauConfig := { config : Ini; filename : string }.

(** [files] gives the text of the files that exist. *)
Definition config_new (files : string → option string) (config_path : option string)
  : result HimmelblauConfig string :=
  let filename := default DEFAULT_CONFIG_PATH config_path in
  let unreadable (f e : string) :=
    "failed to read config from " +:+ f +:+ " - cannot start up: " +:+ e +:+ " Quitting." in
  match match files filename with
        | Some text => ini_load ini_new text
        | None => Ok ini_new
        end with
  | Err e => Err (unreadable filename e)
  | Ok sconfig =>
      match match files SERVER_CONFIG_PATH with
            | Some text => ini_load_and_append sconfig text
            | None => Ok sconfig
            end with
      | Err e => Err (unreadable SERVER_CONFIG_PATH e)
      | Ok sconfig => Ok {| config := sconfig; filename := filename |}
      end
  end.

Variable c : HimmelblauConfig.

Definition config_get (section option : string) : Datatypes.option string :=
  ini_get (config c) section option.

(** The value in the domain's section, or else in the global one. *)
Definition domain_value (domain key : string) : option string :=
  match config_get domain key with
  | Some val => Some val
  | None => config_get "global" key
  end.

Definition opt_domain_value (domain : option string) (key : string) : option string :=
  match domain with
  | Some domain => domain_value domain key
  | None => config_get "global" key
  end.

Definition get_home_prefix (domain : option string) : string :=
  default DEFAULT_HOME_PREFIX (opt_domain_value domain "home_prefix").

Definition get_home_attr (domain : option string) : HomeAttr :=
  match opt_domain_value domain "home_attr" with
  | Some val => str_to_home_attr val
  | None => DEFAULT_HOME_ATTR
  end.

Definition get_home_alias (domain : option string) : option HomeAttr :=
  match opt_domain_value domain "home_alias" with
  | Some val => Some (str_to_home_attr val)
  | None => DEFAULT_HOME_ALIAS
  end.

Definition get_shell (domain : option string) : string :=
  default DEFAULT_SHELL (opt_domain_value domain "shell").

Definition get_odc_provider (domain : string) : string :=
  default DEFAULT_ODC_PROVIDER (domain_value domain "odc_provider").

Definition get_idmap_range (domain : string) : Z * Z :=
  match domain_value domain "idmap_range" with
  | Some val => parse_range DEFAULT_IDMAP_RANGE val
  | None => DEFAULT_IDMAP_RANGE
  end.

Definition get_subid_range : Z * Z :=
  match config_get "global" "subid_range" with
  | Some val => parse_range DEFAULT_SUBID_RANGE val
  | None => DEFAULT_SUBID_RANGE
  end.

Definition get_authority_host (domain : string) : string :=
  default DEFAULT_AUTHORITY_HOST (config_get domain "authority_host").

Definition get_tenant_id (domain : string) : option string := config_get domain "tenant_id".
Definition get_graph_url (domain : string) : option string := config_get domain "graph_url".
Definition get_app_id (domain : string) : option string := domain_value domain "app_id".
Definition get_logon_token_app_id (domain : string) : option string :=
  domain_value domain "logon_token_app_id".
Definition get_policies_db_path : string :=
  default DEFAULT_POLICIES_DB_DIR (config_get "global" "policies_db_path").

(** [HsmType::default()] is [HsmType::Soft]. *)
Definition get_hsm_type : HsmType :=
  match config_get "global" "hsm_type" with
  | Some val =>
      let v := to_lowercase val in
      if String.eqb v "soft" || String.eqb v "tpm_bound_soft_if_possible" then HsmType_Soft
      else if String.eqb v "tpm_if_possible" then HsmType_TpmIfPossible
      else if String.eqb v "tpm" then HsmType_Tpm
      else HsmType_Soft
  | None => HsmType_Soft
  end.

(** [env] is the value of [HIMMELBLAU_HSM_PIN_PATH]. *)
Definition get_hsm_pin_path (env : option string) : string :=
  match env with
  | Some val => val
  | None => default DEFAULT_HSM_PIN_PATH (config_get "global" "hsm_pin_path")
  end.

(** The lists that every section may extend. *)
Definition all_sections_list (key : string) : list string :=
  s ← ini_sections (config c);
  match config_get s key with
  | Some val => comma_list val
  | None => []
  end.

Definition get_pam_allow_groups : list string := all_sections_list "pam_allow_groups".
Definition get_sudo_groups : list string := all_sections_list "sudo_groups".

Definition get_join_type : JoinType :=
  match config_get "global" "join_type" with
  | Some val =>
      let v := to_lowercase val in
      if String.eqb v "join" then JoinType_Join
      else if String.eqb v "register" then JoinType_Register
      else DEFAULT_JOIN_TYPE
  | None => DEFAULT_JOIN_TYPE
  end.

Definition permitted_keys : list string :=
  ["authority_host"; "tenant_id"; "graph_url"; "domain_aliases"; "device_id"; "intune_device_id"].

(** What [write_server_config] writes to [SERVER_CONFIG_PATH]. *)
Definition write_server_config : Ini :=
  let srv_conf := ini_remove_section (config c) "global" in
  let keys_to_remove :=
    List.filter (λ sk, negb (bool_decide (sk.2 ∈ permitted_keys))) (ini_map srv_conf) in
  foldl (λ i sk, ini_remove_key i sk.1 sk.2) srv_conf keys_to_remove.

Definition config_set (section key value : string) : HimmelblauConfig :=
  {| config := ini_set (config c) section key (Some value); filename := filename c |}.

Definition opt_comma_list (val : option string) : list string :=
  match val with Some val => comma_list val | None => [] end.

Definition get_configured_domains : list string :=
  let domains := opt_comma_list (config_get "global" "domains")
                   ++ opt_comma_list (config_get "global" "domain") in
  let sections := List.filter (λ s, negb (String.eqb s "global")
                                      && negb (String.eqb s "offline_breakglass"))
                    (ini_sections (config c)) in
  foldl (λ domains section, if bool_decide (section ∈ domains) then domains
                            else domains ++ [section]) domains sections.

Definition get_config_file : string := filename c.

Definition get_id_attr_map : IdAttr :=
  match config_get "global" "id_attr_map" with
  | Some val =>
      let v := to_lowercase val in
      if String.eqb v "uuid" then IdAttr_Uuid
      else if String.eqb v "name" then IdAttr_Name
      else if String.eqb v "rfc2307" then IdAttr_Rfc2307
      else DEFAULT_ID_ATTR_MAP
  | None => DEFAULT_ID_ATTR_MAP
  end.

Definition get_rfc2307_group_fallback_map : option IdAttr :=
  val ← config_get "global" "rfc2307_group_fallback_map";
  let v := to_lowercase val in
  if String.eqb v "uuid" then Some IdAttr_Uuid
  else if String.eqb v "name" then Some IdAttr_Name
  else None.

Definition get_password_only_remote_services_deny_list : list string :=
  match config_get "global" "password_only_remote_services_deny_list" with
  | Some val => nonempty_list (comma_list val)
  | None => nonempty_list (comma_list DEFAULT_PASSWORD_ONLY_REMOTE_SERVICES_DENY_LIST)
  end.

Definition alias_matches (alias domain : string) : bool :=
  String.eqb (to_lowercase domain) (to_lowercase alias) ||
  match config_get domain "domain_aliases" with
  | Some aliases =>
      bool_decide (to_lowercase alias ∈ (to_lowercase <$> split_char COMMA aliases))
  | None => false
  end.

Definition get_primary_domain_from_alias_simple (alias : string) : option string :=
  head (List.filter (alias_matches alias) get_configured_domains).

Definition get_intune_device_id (domain : string) : option string :=
  config_get (default domain (get_primary_domain_from_alias_simple domain)) "intune_device_id".

(** [url_ok] is [url::Url::parse(s).is_ok()]. *)
Definition get_oidc_issuer_url (url_ok : string → bool) : option string :=
  match config_get "global" "oidc_issuer_url" with
  | None => None
  | Some s =>
      let s := default (trim s) (strip_suffix "/.well-known/openid-configuration" (trim s)) in
      if String.eqb s EmptyString then None
      else if negb (String.prefix "https://" s) then None
      else if contains_char "?" s || contains_char "#" s then None
      else if negb (url_ok s) then None
      else Some s
  end.

End config.

#[global] Arguments HimmelblauConfig : clear implicits.
#[global] Arguments HimmelblauConfig {I}.

(** ** Aliases resolved over the network *)

(** [request_federation_provider]: the [n]-th request to [provider] for [domain]
    answers with the authority host, the tenant id and the graph URL. *)
Class Federation : Type := {
  federation_provider : nat → string → string → option (string * string * string)
}.

Section aliases.
Context {I : IniFile} {F : Federation}.

(** The configuration in memory, the server configurations written so far and the
    number of requests sent. *)
Record AliasState := { as_config : HimmelblauConfig; as_written : list Ini; as_requests : nat }.

Definition as_set (s : AliasState) (section key value : string) : AliasState :=
  {| as_config := config_set (as_config s) section key value;
     as_written := as_written s; as_requests := as_requests s |}.

Definition as_write (s : AliasState) : AliasState :=
  {| as_config := as_config s; as_written := as_written s ++ [write_server_config (as_config s)];
     as_requests := as_requests s |}.

Definition as_request (s : AliasState) (provider domain : string)
  : option (string * string * string) * AliasState :=
  (federation_provider (as_requests s) provider domain,
   {| as_config := as_config s; as_written := as_written s; as_requests := S (as_requests s) |}).

(** The tenant id of a domain: configured, or asked for and recorded. The flag says
    that the configuration was modified. *)
Definition domain_tenant_id (domain : string) (s : AliasState) : option (string * bool) * AliasState :=
  match get_tenant_id (as_config s) domain with
  | Some tenant_id => (Some (tenant_id, false), s)
  | None =>
      let '(resp, s) := as_request s (get_odc_provider (as_config s) domain) domain in
      match resp with
      | None => (None, s)
      | Some (authority_host, tenant_id, graph_url) =>
          (Some (tenant_id, true),
           as_set (as_set (as_set s domain "authority_host" authority_host)
                     domain "tenant_id" tenant_id) domain "graph_url" graph_url)
      end
  end.

Definition join_commas (l : list string) : string := String.concat "," l.

Definition record_alias (alias domain : string) (s : AliasState) : AliasState :=
  let domain_aliases :=
    match config_get (as_config s) domain "domain_aliases" with
    | Some aliases => split_char COMMA aliases
    | None => []
    end ++ [alias] in
  as_write (as_set s domain "domain_aliases" (join_commas domain_aliases)).

(** [for domain in domains]: the first domain of the alias's tenant. *)
Fixpoint match_tenant (alias alias_tenant_id : string) (domains : list string)
  (modified_config : bool) (s : AliasState) : option string * AliasState :=
  match domains with
  | [] => (None, if modified_config then as_write s else s)
  | domain :: domains =>
      match domain_tenant_id domain s with
      | (None, s) => match_tenant alias alias_tenant_id domains modified_config s
      | (Some (tenant_id, modified), s) =>
          if String.eqb tenant_id alias_tenant_id then (Some domain, record_alias alias domain s)
          else match_tenant alias alias_tenant_id domains (modified_config || modified) s
      end
  end.

Definition get_primary_domain_from_alias (url_ok : string → bool) (alias : string) (s : AliasState)
  : option string * AliasState :=
  match get_oidc_issuer_url (as_config s) url_ok with
  | Some _ => (None, s)
  | None =>
      match get_primary_domain_from_alias_simple (as_config s) alias with
      | Some primary => (Some primary, s)
      | None =>
          match get_configured_domains (as_config s) with
          | [] => (None, s)
          | domains =>
              let '(resp, s) := as_request s DEFAULT_ODC_PROVIDER alias in
              match resp with
              | None => (None, s)
              | Some (_, alias_tenant_id, _) => match_tenant alias alias_tenant_id domains false s
              end
          end
      end
  end.

Definition domains_are_aliases (url_ok : string → bool) (domain1 domain2 : string) (s : AliasState)
  : bool * AliasState :=
  match get_primary_domain_from_alias url_ok domain1 s with
  | (Some primary, s) => (String.eqb domain2 primary, s)
  | (None, s) =>
      match get_primary_domain_from_alias url_ok domain2 s with
      | (Some primary, s) => (String.eqb domain1 primary, s)
      | (None, s) => (false, s)
      end
  end.

End aliases.

(** ** Local names and UPNs *)

(** What the mapping finds on the host: the names in [/etc/passwd], the output of a
    mapping script that succeeded, whether the process is root, and how opening the
    cache of mapped names fails. *)
Class Host : Type := {
  local_users : list string;
  run_script : string → string → option string;
  running_as_root : bool;
  cache_faults : OpenFaults;
  insert_fault : bool
}.

Section mapping.
Context {I : IniFile} {G : GeneratedConfig} {H : Host}.
Variable c : HimmelblauConfig.

Definition MappingFile := DbFile (list MappingRow).

Definition cn_mapped_name (account_id : string) : string :=
  match get_configured_domains c with
  | domain :: _ =>
      if get_cn_name_mapping (config c) && negb (contains_char AT account_id)
      then account_id +:+ "@" +:+ domain else account_id
  | [] => account_id
  end.

Definition map_name_to_upn (account_id : string) (file : MappingFile) : string * MappingFile :=
  if bool_decide (account_id ∈ local_users) then (account_id, file)
  else
    match (if contains_char AT account_id then None else get_name_mapping_script (config c)) with
    | None => (cn_mapped_name account_id, file)
    | Some script =>
        let '(file, name_cache) := MappedNameCache_new running_as_root true cache_faults file in
        match run_script script account_id with
        | Some output =>
            let upn := trim output in
            (upn, match name_cache with
                  | Some cache => insert_mapping insert_fault cache upn account_id file
                  | None => file
                  end)
        | None => (cn_mapped_name account_id, file)
        end
    end.

(** A cache opened read-only leaves the file as it is. *)
Definition map_upn_to_name (upn : string) (file : MappingFile) : string :=
  match split_username upn with
  | Some (name, domain) =>
      let primary := to_lowercase (default EmptyString (head (get_configured_domains c))) in
      match get_name_mapping_script (config c) with
      | Some _ =>
          match MappedNameCache_new running_as_root false cache_faults file with
          | (file, Some cache) => get_mapped_name cache upn file
          | (_, None) => upn
          end
      | None =>
          if get_cn_name_mapping (config c) && String.eqb primary (to_lowercase domain) then name
          else upn
      end
  | None => upn
  end.

Definition get_unix_sock_timeout : Z := Z.min u64_max (get_connection_timeout (config c) * 2).

Definition get_ip_versions : list IpVersion :=
  match get_ip_version (config c) with
  | IpVersionSelection_Ipv4Only => [IpVersion_V4]
  | IpVersionSelection_Ipv6Only => [IpVersion_V6]
  | IpVersionSelection_Both => [IpVersion_V4; IpVersion_V6]
  end.

End mapping.
