(* ===== verification/ConfigTheorems.v ===== *)
(** * Theorems on the configuration

    What reaches the server configuration, how names and UPNs are mapped into each
    other, how an alias finds its domain, and how times to live are read. *)
From stdpp Require Import base gmap strings list fin_maps.
From Stdlib Require Import ZArith Lia Ascii DecimalString.
From S2P Require Import Prelude Proto Interface Caches Idmap Config.

(** ** Splitting and joining *)

Lemma split_no c s : contains_char c s = false → split_char c s = [s].
Proof.
  induction s as [|d s IH]; simpl; [done|]. intros [Hd Hs]%orb_false_iff.
  by rewrite Hd, (IH Hs).
Qed.

Lemma split_app c s t : split_char c (s +:+ String c t) = split_char c s ++ split_char c t.
Proof.
  induction s as [|d s IH]; simpl; [by rewrite Ascii.eqb_refl|].
  rewrite IH. destruct (Ascii.eqb d c); [done|].
  destruct (split_char c s) eqn:E; [by destruct (split_char_nonempty c s)|done].
Qed.

Lemma append_assoc s t u : (s +:+ t) +:+ u = s +:+ (t +:+ u).
Proof. induction s as [|c s IH]; [done|]. exact (f_equal (String c) IH). Qed.

Lemma concat_snoc sep l a :
  String.concat sep (l ++ [a]) =
  match l with [] => a | _ => String.concat sep l +:+ sep +:+ a end.
Proof.
  induction l as [|x l IH]; [done|]. destruct l as [|y l]; [done|].
  change (String.concat sep ((x :: y :: l) ++ [a])) with (x +:+ sep +:+ String.concat sep ((y :: l) ++ [a])).
  rewrite IH. change (String.concat sep (x :: y :: l)) with (x +:+ sep +:+ String.concat sep (y :: l)).
  by rewrite !append_assoc.
Qed.

Lemma split_join_last l a :
  contains_char COMMA a = false → a ∈ split_char COMMA (join_commas (l ++ [a])).
Proof.
  intros Ha. unfold join_commas. rewrite concat_snoc. destruct l as [|x l].
  - rewrite (split_no _ _ Ha). set_solver.
  - change ("," +:+ a) with (String COMMA a). rewrite split_app, (split_no _ a Ha). set_solver.
Qed.

Lemma split_username_app name domain :
  contains_char AT name = false → contains_char AT domain = false →
  split_username (name +:+ "@" +:+ domain) = Some (name, domain).
Proof.
  intros Hn Hd. unfold split_username. change ("@" +:+ domain) with (String AT domain).
  by rewrite split_app, !split_no.
Qed.

(** ** The server configuration *)

Section server.
Context {I : IniFile} {L : IniLaws I}.

Lemma same_name_iff a b : same_name a b = true ↔ to_lowercase a = to_lowercase b.
Proof. apply String.eqb_eq. Qed.

Lemma get_remove_keys l i s k :
  ini_get (foldl (λ i sk, ini_remove_key i sk.1 sk.2) i l) s k =
  if existsb (λ sk, same_name sk.1 s && same_name sk.2 k) l then None else ini_get i s k.
Proof.
  revert i. induction l as [|[s' k'] l IH]; intros i; simpl; [done|].
  rewrite IH, ini_get_remove_key. simpl.
  destruct (same_name s' s && same_name k' k), (existsb _ l); done.
Qed.

(** The configuration written for the server when a host joins holds nothing of the
    global section and only the permitted keys of the others, with the values they have
    in memory: no secret or local setting leaks into it, and no permitted one is lost. *)
Theorem write_server_config_exact c s k :
  ini_get (write_server_config c) s k =
  if same_name "global" s then None
  else if bool_decide (to_lowercase k ∈ permitted_keys) then config_get c s k else None.
Proof.
  unfold write_server_config. rewrite get_remove_keys, ini_get_remove_section.
  destruct (same_name "global" s) eqn:Eg; [by destruct (existsb _ _)|].
  set (i := ini_remove_section (config c) "global").
  assert (ini_get i s k = ini_get (config c) s k) as Ei
    by (unfold i; by rewrite ini_get_remove_section, Eg).
  destruct (existsb _ _) eqn:Ex.
  - apply existsb_exists in Ex as ([s' k'] & Hin & Hs). apply list_elem_of_In in Hin.
    apply elem_of_bfilter in Hin as [Hin Hp]. apply negb_true_iff, bool_decide_eq_false in Hp.
    apply ini_map_lower in Hin. simpl in Hs, Hp. apply andb_true_iff in Hs as [_ Hk].
    apply same_name_iff in Hk. rewrite bool_decide_false; [done|]. by rewrite <- Hk, Hin.
  - case_bool_decide as Hp; [done|]. unfold config_get. rewrite <- Ei.
    destruct (ini_get i s k) as [v|] eqn:Ev; [exfalso|done]. apply ini_map_complete in Ev.
    apply (f_equal negb) in Ex. apply negb_true_iff in Ex.
    assert (existsb (λ sk, same_name sk.1 s && same_name sk.2 k)
              (List.filter (λ sk, negb (bool_decide (sk.2 ∈ permitted_keys))) (ini_map i)) = true)
      as Hc; [|by rewrite Hc in Ex].
    apply existsb_exists. exists (to_lowercase s, to_lowercase k). split.
    + apply list_elem_of_In, elem_of_bfilter. split; [done|]. by rewrite bool_decide_false.
    + simpl. apply andb_true_iff; split; apply same_name_iff; apply to_lowercase_idemp.
Qed.

End server.

(** ** Names and UPNs *)

Section names.
Context {I : IniFile} {G : GeneratedConfig} {H : Host}.

(** Names and UPNs are mapped into each other. Without a mapping script, a plain name
    that is not a local account becomes a UPN of the primary domain and is mapped back
    to itself, in any case of the domain. With a script, the UPN it answers is
    recorded and mapped back to the name it was asked for. *)
Theorem name_upn_roundtrip c name file :
  name ∉ local_users → contains_char AT name = false →
  (get_name_mapping_script (config c) = None → get_cn_name_mapping (config c) = true →
   ∀ d ds d' file', get_configured_domains c = d :: ds → contains_char AT d' = false →
     to_lowercase d = to_lowercase d' →
     map_name_to_upn c name file = (name +:+ "@" +:+ d, file) ∧
     map_upn_to_name c (name +:+ "@" +:+ d') file' = name) ∧
  (∀ script output user domain rows,
     get_name_mapping_script (config c) = Some script → run_script script name = Some output →
     split_username (trim output) = Some (user, domain) →
     running_as_root = true → cache_faults = Build_OpenFaults false false false false →
     insert_fault = false → file = None ∨ file = Some (Some rows) →
     ∃ file', map_name_to_upn c name file = (trim output, file') ∧
              map_upn_to_name c (trim output) file' = name).
Proof.
  intros Hl Ha. split.
  - intros Hs Hcn d ds d' file' Hd Hd' E. unfold map_name_to_upn, map_upn_to_name, cn_mapped_name.
    rewrite bool_decide_false, Ha, Hs, Hd, Hcn, split_username_app by done.
    simpl. by rewrite E, String.eqb_refl.
  - intros script output user domain rows Hs Ho Hu Hr Hf Hi Hfile. unfold map_name_to_upn.
    rewrite bool_decide_false, Ha, Hs, Ho by done. unfold MappedNameCache_new. rewrite Hr, Hf, Hi.
    set (upn := trim output) in *.
    assert (contains_char AT upn = true) as Hat.
    { unfold split_username in Hu. destruct (contains_char AT upn) eqn:E; [done|].
      by rewrite (split_no _ _ E) in Hu. }
    assert (String.eqb upn name = false) as Hne by (apply String.eqb_neq; congruence).
    assert (∀ rows, get_mapped_name (Build_Opened true false) upn
              (insert_mapping false (Build_Opened true true) upn name (Some (Some rows))) = name) as Hm.
    { intros rows'. unfold insert_mapping, get_mapped_name. rewrite Hat, Hne. simpl.
      by rewrite (find_replace mp_upn (Build_MappingRow upn name)). }
    unfold map_upn_to_name, MappedNameCache_new. rewrite Hu, Hs, Hr, Hf.
    destruct Hfile as [->| ->]; simpl; eexists; (split; [reflexivity|]);
      unfold insert_mapping; rewrite Hat, Hne; simpl.
    + specialize (Hm []). unfold insert_mapping in Hm. rewrite Hat, Hne in Hm. exact Hm.
    + specialize (Hm rows). unfold insert_mapping in Hm. rewrite Hat, Hne in Hm. exact Hm.
Qed.

End names.

(** ** Aliases *)

Section aliases.
Context {I : IniFile} {L : IniLaws I} {F : Federation}.

Lemma same_name_refl a : same_name a a = true.
Proof. by apply same_name_iff. Qed.

Lemma config_get_set c s k v k' :
  config_get (config_set c s k v) s k' = if same_name k k' then Some v else config_get c s k'.
Proof. unfold config_get, config_set. simpl. by rewrite ini_get_set, same_name_refl. Qed.

Lemma domain_tenant_id_known domain s t m s' :
  domain_tenant_id domain s = (Some (t, m), s') → get_tenant_id (as_config s') domain = Some t.
Proof.
  unfold domain_tenant_id. destruct (get_tenant_id (as_config s) domain) eqn:E; [by intros [= <- <- <-]|].
  unfold as_request. destruct (federation_provider _ _ _) as [[[a t'] g]|]; [|done].
  intros [= <- <- <-]. unfold get_tenant_id. simpl. by rewrite !config_get_set.
Qed.

Lemma record_alias_spec alias domain s :
  contains_char COMMA alias = false →
  get_tenant_id (as_config (record_alias alias domain s)) domain = get_tenant_id (as_config s) domain ∧
  alias_matches (as_config (record_alias alias domain s)) alias domain = true.
Proof.
  intros Ha. unfold record_alias, get_tenant_id, alias_matches. simpl. rewrite !config_get_set. simpl.
  split; [done|]. apply orb_true_iff. right. apply bool_decide_eq_true, list_elem_of_fmap_2.
  by apply split_join_last.
Qed.

Lemma match_tenant_spec alias t domains m s d s' :
  contains_char COMMA alias = false →
  match_tenant alias t domains m s = (Some d, s') →
  d ∈ domains ∧ get_tenant_id (as_config s') d = Some t ∧ alias_matches (as_config s') alias d = true.
Proof.
  intros Ha. revert m s. induction domains as [|x domains IH]; intros m s; simpl; [done|].
  destruct (domain_tenant_id x s) as [[[t' m']|] s1] eqn:E.
  - destruct (String.eqb_spec t' t) as [->|].
    + intros [= <- <-]. destruct (record_alias_spec alias x s1 Ha) as [Ht Hm].
      split; [set_solver|]. by rewrite Ht, (domain_tenant_id_known _ _ _ _ _ E).
    + intros Hr. apply IH in Hr. set_solver.
  - intros Hr. apply IH in Hr. set_solver.
Qed.

(** An alias is only ever resolved to a configured domain: one that lists it already,
    in which case nothing is asked of the network and nothing changes, or one whose
    tenant is the tenant the directory reports for the alias, in which case the alias
    is recorded so that the next lookup finds it. *)
Theorem alias_resolved url_ok alias s d s' :
  contains_char COMMA alias = false →
  get_primary_domain_from_alias url_ok alias s = (Some d, s') →
  d ∈ get_configured_domains (as_config s) ∧ alias_matches (as_config s') alias d = true ∧
  (s' = s ∨
   ∃ authority tenant graph,
     federation_provider (as_requests s) DEFAULT_ODC_PROVIDER alias = Some (authority, tenant, graph) ∧
     get_tenant_id (as_config s') d = Some tenant).
Proof.
  intros Ha. unfold get_primary_domain_from_alias.
  destruct (get_oidc_issuer_url _ _); [done|].
  destruct (get_primary_domain_from_alias_simple _ _) as [p|] eqn:Es.
  - intros [= <- <-]. unfold get_primary_domain_from_alias_simple in Es.
    assert (p ∈ List.filter (alias_matches (as_config s) alias) (get_configured_domains (as_config s)))
      as [Hp Hm]%elem_of_bfilter by (destruct (List.filter _ _); simplify_eq/=; set_solver). auto.
  - destruct (get_configured_domains (as_config s)) as [|x domains] eqn:Ed; [done|].
    unfold as_request. destruct (federation_provider _ _ _) as [[[a t] g]|] eqn:Ef; [|done].
    intros Hr. apply match_tenant_spec in Hr as (Hd & Ht & Hm); [|done]. split_and!; [done..|].
    right. eauto 10.
Qed.

End aliases.

(** ** Times to live *)

Fixpoint all_chars (p : ascii → bool) (s : string) : bool :=
  match s with EmptyString => true | String c s' => p c && all_chars p s' end.

Definition is_digit (c : ascii) : bool :=
  let n := nat_of_ascii c in (Nat.leb 48 n && Nat.leb n 57)%bool.

Lemma string_of_uint_digits d : all_chars is_digit (NilEmpty.string_of_uint d) = true.
Proof. induction d; simpl; auto. Qed.

Lemma uint_to_string_digits z :
  all_chars is_digit (uint_to_string z) = true ∧ uint_to_string z ≠ EmptyString.
Proof.
  unfold uint_to_string, NilZero.string_of_uint. destruct (N.to_uint (Z.to_N z)) eqn:E; [done|..];
    (split; [by rewrite <- ?E; apply (string_of_uint_digits _)|done]).
Qed.

(** Digits and lower-case letters are left alone by [trim] and [to_lowercase]. *)
Definition plain (c : ascii) : bool := negb (is_ws c) && Ascii.eqb (ascii_lower c) c.

Lemma digit_plain c : is_digit c = true → plain c = true ∧ is_ascii_alphabetic c = false.
Proof. destruct c as [[] [] [] [] [] [] [] []]; done. Qed.

Lemma all_chars_impl p q s : (∀ c, p c = true → q c = true) → all_chars p s = true → all_chars q s = true.
Proof.
  intros Hpq. induction s as [|c s IH]; simpl; [done|].
  intros [Hc Hs]%andb_true_iff. by rewrite (Hpq c Hc), (IH Hs).
Qed.

Lemma all_chars_app p s t : all_chars p (s +:+ t) = all_chars p s && all_chars p t.
Proof. induction s as [|c s IH]; [done|]. simpl. rewrite IH. apply andb_assoc. Qed.

Lemma plain_normal s : all_chars plain s = true → to_lowercase (trim s) = s.
Proof.
  intros Hs. assert (trim_end s = s ∧ to_lowercase s = s) as [He Hl].
  { induction s as [|c s IH]; simpl; [done|]. apply andb_true_iff in Hs as [Hc Hs].
    apply andb_true_iff in Hc as [Hw Hc]. apply negb_true_iff in Hw. apply Ascii.eqb_eq in Hc.
    destruct (IH Hs) as [-> E]. unfold to_lowercase in *. simpl. rewrite Hc, E.
    by destruct s; rewrite ?Hw. }
  assert (trim_start s = s) as Hst.
  { destruct s as [|c s]; simpl in *; [done|]. apply andb_true_iff in Hs as [Hc _].
    apply andb_true_iff in Hc as [Hw _]. apply negb_true_iff in Hw. by rewrite Hw. }
  unfold trim. by rewrite Hst, He.
Qed.

Lemma last_snoc s c : last_char (s +:+ String c "") = Some c ∧ drop_last_char (s +:+ String c "") = s.
Proof.
  induction s as [|d s [IH1 IH2]]; [done|]. simpl.
  destruct (s +:+ String c "") as [|e u] eqn:E; [by destruct s|]. by rewrite IH1, IH2.
Qed.

Lemma last_all p s : all_chars p s = true → s ≠ EmptyString → ∃ c, last_char s = Some c ∧ p c = true.
Proof.
  induction s as [|c s IH]; [done|]. simpl. intros [Hc Hs]%andb_true_iff _.
  destruct s as [|d s]; [eauto|]. by apply IH.
Qed.

(** A time to live is the number times its unit, in seconds without a suffix, and
    overflows exactly where the product exceeds 64 bits. *)
Theorem ttl_exact n suffix unit :
  in_u64 n →
  (suffix, unit) ∈ [(EmptyString, 1); ("s", 1); ("m", 60); ("h", 3600); ("d", 86400)] →
  parse_ttl_to_seconds (uint_to_string n +:+ suffix) =
  if n * unit <=? u64_max then Some (Some (n * unit)) else None.
Proof.
  intros Hn Hs. destruct (uint_to_string_digits n) as [Hd Hne].
  assert (parse_uint u64_max (uint_to_string n) = Some n) as Hp by (by apply parse_uint_to_string).
  unfold parse_ttl_to_seconds. rewrite plain_normal.
  - assert (∀ c, last_char (uint_to_string n +:+ String c "") = Some c) as Hl by (intros; apply last_snoc).
    assert (∀ c, drop_last_char (uint_to_string n +:+ String c "") = uint_to_string n) as Hdr
      by (intros; apply last_snoc).
    assert (uint_to_string n +:+ EmptyString = uint_to_string n) as Hnil
      by (generalize (uint_to_string n); induction s as [|c s IH]; [done|exact (f_equal (String c) IH)]).
    rewrite !elem_of_cons in Hs. unfold u64_mul.
    destruct Hs as [[= -> ->]|[[= -> ->]|[[= -> ->]|[[= -> ->]|[[= -> ->]|[]%elem_of_nil]]]]];
      rewrite ?Hnil, ?Hl; simpl; rewrite ?Hdr, ?Hp; simpl.
    + destruct (last_all _ _ Hd Hne) as (c & -> & Hc). destruct (digit_plain c Hc) as [_ ->].
      rewrite Hp. simpl. rewrite Z.mul_1_r. by destruct (Z.leb_spec n u64_max); [|unfold in_u64 in Hn; lia].
    + rewrite Z.mul_1_r. by destruct (Z.leb_spec n u64_max); [|unfold in_u64 in Hn; lia].
    + by case_match.
    + by case_match.
    + by case_match.
  - rewrite all_chars_app. apply andb_true_iff. split.
    + apply (all_chars_impl is_digit); [|done]. intros c Hc. by apply digit_plain.
    + rewrite !elem_of_cons in Hs.
      destruct Hs as [[= -> ->]|[[= -> ->]|[[= -> ->]|[[= -> ->]|[[= -> ->]|[]%elem_of_nil]]]]]; done.
Qed.

(** ** Instances *)

(** A configuration file as an association list of section, key and value, with the
    names in lower case. *)
Definition ModelIni : Type := list (string * string * string).

Definition model_key (s k : string) (e : string * string * string) : bool :=
  String.eqb e.1.1 (to_lowercase s) && String.eqb e.1.2 (to_lowercase k).

Definition model_get (i : ModelIni) (s k : string) : option string :=
  snd <$> head (List.filter (model_key s k) i).

Definition model_remove (i : ModelIni) (s k : string) : ModelIni :=
  List.filter (λ e, negb (model_key s k e)) i.

(** The text of a file is the list of domains. *)
#[export] Instance model_ini : IniFile := {|
  Ini := ModelIni;
  ini_new := [];
  ini_load _ text := Ok [("global", "domains", text)];
  ini_load_and_append i _ := Ok i;
  ini_get := model_get;
  ini_set i s k v :=
    match v with
    | Some v => model_remove i s k ++ [(to_lowercase s, to_lowercase k, v)]
    | None => model_remove i s k
    end;
  ini_sections i := remove_dups (i.*1.*1);
  ini_map i := List.filter (λ e, String.eqb (to_lowercase e.2) e.2) (i.*1);
  ini_remove_section i s := List.filter (λ e, negb (String.eqb e.1.1 (to_lowercase s))) i;
  ini_remove_key := model_remove
|}.

Lemma model_get_remove (f : string * string * string → bool) i s k :
  model_get (List.filter (λ e, negb (f e)) i) s k =
  snd <$> head (List.filter (λ e, negb (f e) && model_key s k e) i).
Proof. unfold model_get. by rewrite filter_filter. Qed.

Lemma filter_ext_in {A} (f g : A → bool) l : (∀ x, f x = g x) → List.filter f l = List.filter g l.
Proof. intros E. induction l as [|x l IH]; simpl; [done|]. by rewrite E, IH. Qed.

Lemma model_key_eq s k s' k' e :
  model_key s k e = true → model_key s' k' e = same_name s s' && same_name k k'.
Proof.
  unfold model_key, same_name. intros [Hs Hk]%andb_true_iff.
  apply String.eqb_eq in Hs, Hk. by rewrite Hs, Hk.
Qed.

Lemma model_get_remove_key i s k s' k' :
  model_get (model_remove i s k) s' k' =
  if same_name s s' && same_name k k' then None else model_get i s' k'.
Proof.
  unfold model_remove. rewrite model_get_remove. destruct (same_name s s' && same_name k k') eqn:E.
  - apply andb_true_iff in E as [Es Ek]. apply same_name_iff in Es, Ek.
    rewrite (proj2 (filter_nil_iff _ i)); [done|]. intros e _. unfold model_key. rewrite Es, Ek.
    apply andb_negb_l.
  - unfold model_get. rewrite (filter_ext_in _ (model_key s' k')); [done|]. intros e.
    destruct (model_key s k e) eqn:Ek; [|done]. by rewrite (model_key_eq _ _ _ _ _ Ek), E.
Qed.

#[export] Instance model_ini_laws : IniLaws model_ini.
Proof.
  split; simpl.
  - intros i s k [v|] s' k'; [|apply model_get_remove_key].
    unfold model_get at 1. rewrite List.filter_app. simpl.
    assert (model_key s' k' (to_lowercase s, to_lowercase k, v) = same_name s s' && same_name k k') as ->
      by done.
    pose proof (model_get_remove_key i s k s' k') as Hg. unfold model_get at 1 in Hg.
    destruct (same_name s s' && same_name k k').
    + destruct (List.filter (model_key s' k') (model_remove i s k)); [done|]. by simpl in Hg.
    + by rewrite app_nil_r.
  - intros i s s' k. rewrite model_get_remove. destruct (same_name s s') eqn:E.
    + apply same_name_iff in E. rewrite (proj2 (filter_nil_iff _ i)); [done|]. intros e _.
      unfold model_key. rewrite <- E. by destruct (String.eqb _ _).
    + unfold model_get. rewrite (filter_ext_in _ (model_key s' k)); [done|]. intros e.
      destruct (String.eqb_spec e.1.1 (to_lowercase s)) as [Hs|]; [|done]. simpl. symmetry.
      unfold model_key. rewrite Hs. unfold same_name in E. by rewrite E.
  - apply model_get_remove_key.
  - intros i s k v Hg. unfold model_get in Hg.
    destruct (List.filter (model_key s k) i) as [|e l] eqn:E; [done|].
    assert (e ∈ List.filter (model_key s k) i) as [He Hk]%elem_of_bfilter by (rewrite E; set_solver).
    unfold model_key in Hk. apply andb_true_iff in Hk as [H1 H2]. apply String.eqb_eq in H1, H2.
    apply elem_of_bfilter. simpl. rewrite to_lowercase_idemp, String.eqb_refl. split; [|done].
    apply list_elem_of_fmap. exists e. split; [|done]. destruct e as [[a b] x]. by simplify_eq/=.
  - intros i s k [_ Hk]%elem_of_bfilter. by apply String.eqb_eq in Hk.
Qed.

#[export] Instance model_generated : GeneratedConfig := {|
  get_connection_timeout _ := 30;
  get_ip_version _ := IpVersionSelection_Both;
  get_name_mapping_script i := ini_get i "global" "name_mapping_script";
  get_cn_name_mapping i := match_bool (ini_get i "global" "cn_name_mapping") true;
  get_apply_policy i := match_bool (ini_get i "global" "apply_policy") true;
  get_logon_script i := ini_get i "global" "logon_script";
  get_logon_token_scopes _ := [];
  get_hello_pin_retry_count _ := 3;
  get_enable_sfa_fallback i := match_bool (ini_get i "global" "enable_sfa_fallback") false;
  get_enable_hello_totp i := match_bool (ini_get i "global" "enable_hello_totp") false;
  get_offline_breakglass_enabled i := match_bool (ini_get i "offline_breakglass" "enabled") false;
  get_offline_breakglass_ttl _ := 7200
|}.

#[export] Instance model_host : Host := {|
  local_users := ["root"];
  run_script _ _ := None;
  running_as_root := true;
  cache_faults := Build_OpenFaults false false false false;
  insert_fault := false
|}.

#[export] Instance model_federation : Federation := {|
  federation_provider _ _ _ := Some ("login.microsoftonline.com", "tenant-1", "https://graph.microsoft.com")
|}.

Definition sample_config : HimmelblauConfig := {|
  config := [("global", "domain", "Example.com"); ("global", "hsm_pin_path", "/secret");
             ("example.com", "tenant_id", "tenant-1"); ("example.com", "pam_allow_groups", "77")];
  filename := DEFAULT_CONFIG_PATH
|}.

Example sample_server_config :
  write_server_config sample_config = [("example.com", "tenant_id", "tenant-1")].
Proof. reflexivity. Qed.

Lemma write_server_config_exact_witness :
  ini_get (write_server_config sample_config) "EXAMPLE.com" "Tenant_ID" = Some "tenant-1" ∧
  ini_get (write_server_config sample_config) "global" "hsm_pin_path" = None.
Proof. split; rewrite (write_server_config_exact sample_config); reflexivity. Defined.

Lemma name_upn_roundtrip_witness :
  map_name_to_upn sample_config "alice" None = ("alice@Example.com", None) ∧
  map_upn_to_name sample_config "alice@EXAMPLE.com" None = "alice".
Proof.
  apply (proj1 (name_upn_roundtrip sample_config "alice" None ltac:(set_solver) eq_refl)
           eq_refl eq_refl "Example.com" ["example.com"] "EXAMPLE.com" None); reflexivity.
Defined.

Definition sample_aliases : AliasState := Build_AliasState sample_config [] 0.

Lemma alias_resolved_witness :
  let r := get_primary_domain_from_alias (λ _, true) "corp.example.com" sample_aliases in
  "Example.com" ∈ get_configured_domains sample_config ∧
  alias_matches (as_config r.2) "corp.example.com" "Example.com" = true ∧
  (r.2 = sample_aliases ∨
   ∃ authority tenant graph,
     federation_provider 0 DEFAULT_ODC_PROVIDER "corp.example.com" = Some (authority, tenant, graph) ∧
     get_tenant_id (as_config r.2) "Example.com" = Some tenant).
Proof.
  exact (alias_resolved (λ _, true) "corp.example.com" sample_aliases "Example.com"
           (get_primary_domain_from_alias (λ _, true) "corp.example.com" sample_aliases).2 eq_refl eq_refl).
Defined.
