(* ===== verification/Daemon.v ===== *)
(** * The daemon's request dispatch: [src/daemon/src/daemon.rs]

    A client connection: every request is handed to the resolver, its answer is
    turned into a response, and a successful login is followed by tasks for the
    privileged tasks daemon. The state of a connection is the PAM session in progress
    and, for the specifications, the tasks put on the channel. [unix_passwd.rs]
    feeds the exclusion set. *)
From stdpp Require Import base gmap strings list fin_maps.
From Stdlib Require Import ZArith Lia Ascii.
From S2P Require Import Prelude Proto Interface Db Runtime Resolver Caches Idmap Config.

Open Scope rust_scope.

(** ** The crates and the peers *)

(** [uuid::Uuid::parse_str], and the token type of the crate [himmelblau]: its field
    [access_token], and the token the daemon builds from an access and a refresh
    token with every other field at its default. *)
Class TokenOps `{X : Ext} : Type := {
  uuid_parse_str : string → option Uuid;
  access_token : UnixUserToken → option string;
  bearer_token : string → string → UnixUserToken
}.

Inductive TaskOutcome `{X : Ext} :=
| TaskOutcome_Status (status : Z)
| TaskOutcome_NonCompliant (rules : list NoncompliantRule).

(** What comes of a task put on the channel: it was not accepted in time, nobody
    answered in time, the other end dropped the one-shot, or an outcome. *)
Inductive TaskReply `{X : Ext} :=
| NotSent (e : string)
| TimedOut (e : string)
| Dropped (e : string)
| Replied (o : TaskOutcome).

(** The peers of a connection, by the step at which they are asked: the tasks
    daemon, whether the client still takes responses, the text of the files that
    exist, and the cache of mapped names. *)
Class DaemonEnv `{X : Ext} : Type := {
  task_reply : nat → TaskReply;
  client_gone : nat → bool;
  read_file : nat → string → option string;
  read_bytes : nat → string → option bytes;
  mapped_names : nat → MappingFile
}.

(** ** The codec *)

(** [serde_json] at a message type. *)
Class Json (A : Type) : Type := {
  from_slice : bytes → option A;
  to_vec : A → option bytes
}.

(** [ClientCodec] and [TaskCodec]: a buffer that does not parse is kept for more
    bytes; one that does is cleared. *)
Definition codec_decode `{Json A} (src : bytes) : option A * bytes :=
  match from_slice src with
  | Some msg => (Some msg, [])
  | None => (None, src)
  end.

Definition codec_encode `{Json A} (msg : A) (dst : bytes) : result bytes unit :=
  match to_vec msg with
  | Some data => Ok (dst ++ data)
  | None => Err tt
  end.

(** ** Local accounts: [unix_passwd.rs] *)

Record EtcUser := {
  eu_name : string; eu_password : string; eu_uid : Z; eu_gid : Z;
  eu_gecos : string; eu_homedir : string; eu_shell : string
}.

Record EtcGroup := {
  eg_name : string; eg_password : string; eg_gid : Z; eg_members : list string
}.

(** The records the crate [csv] reads with [:] as delimiter and without headers; a
    group's last field is still text. *)
Class Csv : Type := {
  csv_users : bytes → list (option EtcUser);
  csv_groups : bytes → list (option (string * string * Z * string))
}.

Definition members (value : string) : list string := split_char COMMA value.

Definition etc_group (r : string * string * Z * string) : EtcGroup :=
  let '(name, password, gid, m) := r in
  {| eg_name := name; eg_password := password; eg_gid := gid; eg_members := members m |}.

Definition parse_etc_passwd `{Csv} (b : bytes) : option (list EtcUser) := mapM id (csv_users b).

Definition parse_etc_group `{Csv} (b : bytes) : option (list EtcGroup) :=
  mapM (λ r, etc_group <$> r) (csv_groups b).

(** ** The channel to the tasks daemon *)

Section task_client.
Context {X : Ext}.

(** A queued task, whether its requester still waits, whether the socket takes it,
    whether it can be queued again in time, and the next message of the socket. *)
Record QueuedTask := {
  qt_request : TaskRequest;
  qt_closed : bool;
  qt_send_ok : bool;
  qt_requeue_ok : bool;
  qt_answer : option TaskResponse
}.

Definition task_outcome (r : TaskResponse) : TaskOutcome :=
  match r with
  | TaskResponse_Success status => TaskOutcome_Status status
  | TaskResponse_Error _ => TaskOutcome_Status 1
  | TaskResponse_NonCompliant rules => TaskOutcome_NonCompliant rules
  end.

(** The loop over the queue: the outcomes sent to the requesters, the queue left, and
    whether the loop ended because the channel was closed. *)
Fixpoint handle_task_client (queue : list QueuedTask)
  : list (TaskRequest * TaskOutcome) * list QueuedTask * result unit unit :=
  match queue with
  | [] => ([], [], Ok tt)
  | v :: queue' =>
      if negb (qt_send_ok v) then
        ([], if negb (qt_closed v) && qt_requeue_ok v then queue' ++ [v] else queue', Err tt)
      else
        match qt_answer v with
        | Some r =>
            let '(sent, rest, res) := handle_task_client queue' in
            ((qt_request v, task_outcome r) :: sent, rest, res)
        | None => ([], queue', Err tt)
        end
  end.

End task_client.

(** ** Errors of a policy run *)

Inductive ApplyPolicyError `{X : Ext} :=
| TokenAcquisitionFailed
| MissingAccessToken
| DispatchFailed (e : string)
| TaskTimeout (e : string)
| TaskError (e : string)
| PolicyFailure
| NonCompliant (rules : list NoncompliantRule).

Definition LOGON_SCRIPT_DENIED : string :=
  "Authentication was explicitly denied by the logon script".

Definition DEFAULT_APP_ID : string := "b743a22d-6705-4147-8670-d92fa515ee2b".
Definition GRAPH_SCOPE : string := "00000003-0000-0000-c000-000000000000/.default".
Definition INTUNE_SCOPE : string := "0000000a-0000-0000-c000-000000000000/.default".
Definition IWSERVICE_SCOPE : string := "b8066b99-6e67-41be-abfa-75db1a2c8809/.default".

(** ** A connection *)

Section daemon.
Context {X : Ext} {SD : Serde} {C : Crypto} {P : IdProvider} {L : LruCache} {E : Env}.
Context {I : IniFile} {G : GeneratedConfig} {H : Host}.
Context {TK : TokenOps} {DE : DaemonEnv} {CSV : Csv}.

Record DState := {
  pam_auth_session_state : option AuthSession;
  tasks_sent : list TaskRequest
}.

(** Operations of a connection: the resolver's monad with the connection's state. *)
Definition D (A : Type) : Type := DState → M (A * DState).

#[export] Instance D_ret : MRet D := λ _ a s, mret (a, s).
#[export] Instance D_bind : MBind D := λ _ _ k m s, x ← m s; k x.1 x.2.

Definition lift {A} (m : M A) : D A := λ s, a ← m; mret (a, s).
Definition set_session (v : AuthSession) : D unit :=
  λ s, mret (tt, Build_DState (Some v) (tasks_sent s)).
Definition get_session : D (option AuthSession) := λ s, mret (pam_auth_session_state s, s).

(** Put a task on the channel and wait for its outcome or a timeout. *)
Definition run_task (t : TaskRequest) : D TaskReply := λ s,
  r ← draw task_reply;
  mret (r, match r with
           | NotSent _ => s
           | _ => Build_DState (pam_auth_session_state s) (tasks_sent s ++ [t])
           end).

Variable self : Resolver.
Variable cfg : HimmelblauConfig.

(** [apply_intune_policy_for_account]: the device id is read from the configuration
    as it is now, which may have been written after the daemon started. *)
Definition read_intune_device_id (account_id : string) : M (option string) :=
  match split_username account_id with
  | Some (_, domain) =>
      files ← draw read_file;
      mret (match config_new files (Some (get_config_file cfg)) with
            | Ok c => get_intune_device_id c domain
            | Err _ => None
            end)
  | None => mret None
  end.

Definition policy_token (account_id scope : string) : M (option UnixUserToken) :=
  get_user_accesstoken self (Id_Name account_id) [scope] (Some DEFAULT_APP_ID) None None.

Definition policy_outcome (r : TaskReply) : result unit ApplyPolicyError :=
  match r with
  | NotSent e => Err (DispatchFailed e)
  | Replied (TaskOutcome_Status status) => if status =? 0 then Ok tt else Err PolicyFailure
  | Replied (TaskOutcome_NonCompliant rules) => Err (NonCompliant rules)
  | Dropped e => Err (TaskError e)
  | TimedOut e => Err (TaskTimeout e)
  end.

Definition apply_intune_policy_for_account (account_id : string) : D (result unit ApplyPolicyError) :=
  intune_device_id ← lift (read_intune_device_id account_id);
  graph_token ← lift (policy_token account_id GRAPH_SCOPE);
  intune_token ← lift (policy_token account_id INTUNE_SCOPE);
  iwservice_token ← lift (policy_token account_id IWSERVICE_SCOPE);
  match graph_token, intune_token, iwservice_token with
  | Some g, Some i, Some w =>
      match access_token g, access_token i, access_token w with
      | Some graph_at, Some intune_at, Some iwservice_at =>
          r ← run_task (TaskRequest_ApplyPolicy intune_device_id account_id graph_at intune_at
                          iwservice_at);
          mret (policy_outcome r)
      | _, _, _ => mret (Err MissingAccessToken)
      end
  | _, _, _ => mret (Err TokenAcquisitionFailed)
  end.

(** ** After a successful login *)

(** The logon script, if one is configured: only status 2 changes the answer. *)
Definition logon_script (account_id : string) : D PamAuthResponse :=
  match get_logon_script (config cfg) with
  | None => mret PamAuthResponse_Success
  | Some _ =>
      let scopes := get_logon_token_scopes (config cfg) in
      let client_id := '(_, d) ← split_username account_id; get_logon_token_app_id cfg d in
      token ← lift (get_user_accesstoken self (Id_Name account_id) scopes client_id None None);
      let tok := default EmptyString (token ≫= access_token) in
      r ← run_task (TaskRequest_LogonScript account_id tok);
      mret (match r with
            | Replied (TaskOutcome_Status status) =>
                if status =? 2 then PamAuthResponse_Denied LOGON_SCRIPT_DENIED
                else PamAuthResponse_Success
            | _ => PamAuthResponse_Success
            end)
  end.

(** The Kerberos configuration and the user's credential cache. *)
Definition kerberos_ccache (account_id : string) : D unit :=
  tgts ← lift (get_user_tgts self (Id_Name account_id));
  match tgts with
  | Some (uid, gid, (tgt_cloud, tgt_ad, top_level_names, tenant_id)) =>
      _ ← run_task (TaskRequest_KerberosConfig top_level_names tenant_id);
      _ ← run_task (TaskRequest_KerberosTGTs uid gid tgt_cloud tgt_ad);
      mret tt
  | None => mret tt
  end.

Definition profile_photo (account_id : string) : D unit :=
  token ← lift (get_user_accesstoken self (Id_Name account_id) [] None None None);
  match token ≫= access_token with
  | Some at_ => _ ← run_task (TaskRequest_LoadProfilePhoto account_id at_); mret tt
  | None => mret tt
  end.

Definition intune_policies (account_id : string) : D unit :=
  if get_apply_policy (config cfg) then
    _ ← apply_intune_policy_for_account account_id; mret tt
  else mret tt.

Definition after_success (account_id : string) : D ClientResponse :=
  resp ← logon_script account_id;
  _ ← kerberos_ccache account_id;
  _ ← profile_photo account_id;
  _ ← intune_policies account_id;
  mret (ClientResponse_PamAuthenticateStepResponse resp).

(** ** Requests *)

Definition authenticate_init (account_id service : string) (no_hello_pin force_reauth : bool)
  : D ClientResponse :=
  r ← lift (pam_account_authenticate_init self (to_lowercase account_id) service no_hello_pin
              force_reauth);
  match r with
  | Ok (auth_session, pam_auth_response) =>
      _ ← set_session auth_session; mret (client_response_from pam_auth_response)
  | Err _ => mret ClientResponse_Error
  end.

Definition authenticate_step (pam_next_req : PamAuthRequest) : D ClientResponse :=
  session ← get_session;
  match session with
  | None => mret ClientResponse_Error
  | Some auth_session =>
      sr ← lift (pam_account_authenticate_step self auth_session pam_next_req);
      _ ← set_session sr.1;
      match sr.2 with
      | Err _ => mret ClientResponse_Error
      | Ok resp =>
          match sr.1, resp with
          | AuthSession_Success account_id, PamAuthResponse_Success =>
              after_success (to_lowercase account_id)
          | _, _ => mret (ClientResponse_PamAuthenticateStepResponse resp)
          end
      end
  end.

(** The answer to the session depends on whether a critical task was acknowledged. *)
Definition task_ack (r : TaskReply) : ClientResponse :=
  match r with Replied _ => ClientResponse_Ok | _ => ClientResponse_Error end.

Fixpoint is_sudoer (account_id : string) (sudo_groups : list string) : M bool :=
  match sudo_groups with
  | [] => mret false
  | sudo_group :: rest =>
      match uuid_parse_str sudo_group with
      | None => is_sudoer account_id rest
      | Some sudo_group_uuid =>
          m ← get_groupmembers self sudo_group_uuid;
          b ← is_sudoer account_id rest;
          mret (bool_decide (account_id ∈ m) || b)
      end
  end.

Definition subordinate_ids (account_id : string) : D unit :=
  file ← lift (draw mapped_names);
  let mapped_name := map_upn_to_name cfg account_id file in
  match gen_subid_start mapped_name (get_subid_range cfg) with
  | Some subid_start =>
      _ ← run_task (TaskRequest_SubordinateIds mapped_name subid_start SUBID_COUNT); mret tt
  | None => lift panic
  end.

Definition begin_session (account_id : string) : D ClientResponse :=
  let account_id := to_lowercase account_id in
  r ← lift (pam_account_beginsession self account_id);
  match r with
  | Ok (Some info) =>
      r1 ← run_task (TaskRequest_HomeDirectory info);
      sudoer ← lift (is_sudoer account_id (get_sudo_groups cfg));
      r2 ← run_task (TaskRequest_LocalGroups account_id sudoer);
      _ ← subordinate_ids account_id;
      mret (match task_ack r1 with ClientResponse_Error => ClientResponse_Error | _ => task_ack r2 end)
  | _ => mret ClientResponse_Error
  end.

Definition ok_or_error {A B} (r : result A B) : ClientResponse :=
  match r with Ok _ => ClientResponse_Ok | Err _ => ClientResponse_Error end.

Definition compliance_check (uid : Z) : D ClientResponse :=
  if negb (get_apply_policy (config cfg)) then mret ClientResponse_Error
  else
    u ← lift (get_nssaccount_gid self uid);
    match u with
    | Ok (Some nss_user) =>
        r ← apply_intune_policy_for_account (nu_name nss_user);
        mret (match r with
              | Ok _ => ClientResponse_Ok
              | Err (NonCompliant rules) => ClientResponse_NonCompliant rules
              | Err MissingAccessToken => ClientResponse_NotAuthenticated
              | Err _ => ClientResponse_Error
              end)
    | _ => mret ClientResponse_Error
    end.

(** [match req]: the response to one request of a peer whose user id is [uid]. *)
Definition handle_request (uid : Z) (req : ClientRequest) : D ClientResponse :=
  match req with
  | ClientRequest_NssAccounts =>
      r ← lift (get_nssaccounts self);
      mret (ClientResponse_NssAccounts (match r with Ok l => l | Err _ => [] end))
  | ClientRequest_NssAccountByUid gid =>
      r ← lift (get_nssaccount_gid self gid);
      mret (ClientResponse_NssAccount (match r with Ok u => u | Err _ => None end))
  | ClientRequest_NssAccountByName account_id =>
      r ← lift (get_nssaccount_name self (to_lowercase account_id));
      mret (ClientResponse_NssAccount (match r with Ok u => u | Err _ => None end))
  | ClientRequest_NssGroups =>
      r ← lift (get_nssgroups self);
      mret (ClientResponse_NssGroups (match r with Ok l => l | Err _ => [] end))
  | ClientRequest_NssGroupByGid gid =>
      r ← lift (get_nssgroup_gid self gid);
      mret (ClientResponse_NssGroup (match r with Ok g => g | Err _ => None end))
  | ClientRequest_NssGroupByName grp_id =>
      r ← lift (get_nssgroup_name self grp_id);
      mret (ClientResponse_NssGroup (match r with Ok g => g | Err _ => None end))
  | ClientRequest_NssInitgroups account_id =>
      r ← lift (get_initgroups self (to_lowercase account_id));
      mret (match r with Ok l => ClientResponse_NssInitgroups l | Err _ => ClientResponse_Error end)
  | ClientRequest_PamAuthenticateInit account_id service no_hello_pin force_reauth =>
      authenticate_init account_id service no_hello_pin force_reauth
  | ClientRequest_PamAuthenticateStep pam_next_req => authenticate_step pam_next_req
  | ClientRequest_PamAccountAllowed account_id =>
      r ← lift (pam_account_allowed self (to_lowercase account_id));
      mret (match r with Ok b => ClientResponse_PamStatus b | Err _ => ClientResponse_Error end)
  | ClientRequest_PamAccountBeginSession account_id => begin_session account_id
  | ClientRequest_PamChangeAuthToken account_id access refresh new_pin =>
      r ← lift (change_auth_token self (to_lowercase account_id) (bearer_token access refresh)
                  new_pin);
      mret (ok_or_error r)
  | ClientRequest_InvalidateCache => r ← lift invalidate_cache; mret (ok_or_error r)
  | ClientRequest_ClearCache =>
      if uid =? 0 then r ← lift clear_cache; mret (ok_or_error r) else mret ClientResponse_Error
  | ClientRequest_OfflineBreakGlass ttl =>
      if uid =? 0 then r ← lift (offline_break_glass ttl); mret (ok_or_error r)
      else mret ClientResponse_Error
  | ClientRequest_Status =>
      b ← lift test_connection;
      mret (if b : bool then ClientResponse_Ok else ClientResponse_Error)
  | ClientRequest_ComplianceCheck => compliance_check uid
  | ClientRequest_PamTryUnseal account_id cred =>
      _ ← lift (pam_try_unseal self (to_lowercase account_id) cred);
      mret ClientResponse_Ok
  end.

(** The loop of [handle_client] over the requests a client sends: the responses
    written, and whether the connection ended in order. *)
Fixpoint client_loop (uid : Z) (reqs : list ClientRequest) : D (list ClientResponse * result unit unit) :=
  match reqs with
  | [] => mret ([], Ok tt)
  | req :: reqs =>
      resp ← handle_request uid req;
      gone ← lift (draw client_gone);
      if gone : bool then mret ([], Err tt)
      else
        x ← client_loop uid reqs;
        mret (resp :: x.1, x.2)
  end.

(** A connection starts without a session; a peer whose credentials cannot be read is
    turned away. *)
Definition handle_client (ucred : option Z) (reqs : list ClientRequest)
  : M (list ClientResponse * result unit unit * DState) :=
  match ucred with
  | None => mret ([], Err tt, Build_DState None [])
  | Some uid => client_loop uid reqs (Build_DState None [])
  end.

(** [process_etc_passwd_group] *)
Definition process_etc_passwd_group : M (result unit unit) :=
  passwd ← draw (λ n, read_bytes n "/etc/passwd");
  match passwd ≫= parse_etc_passwd with
  | None => mret (Err tt)
  | Some users =>
      group ← draw (λ n, read_bytes n "/etc/group");
      match group ≫= parse_etc_group with
      | None => mret (Err tt)
      | Some groups =>
          _ ← reload_nxset self (((λ u, (eu_name u, eu_uid u)) <$> users) ++
                                 ((λ g, (eg_name g, eg_gid g)) <$> groups));
          mret (Ok tt)
      end
  end.

End daemon.
