(* ===== verification/DaemonTheorems.v ===== *)
(** * Theorems on the daemon's connections

    A connection never wedges; a success it reports goes back to a session the same
    connection started and to the resolver's evidence; privileged requests are for
    root; tasks are answered in order; the exclusion set is the local accounts. *)
From stdpp Require Import base gmap strings list fin_maps fin_sets.
From Stdlib Require Import ZArith Lia Ascii.
From S2P Require Import Prelude Proto Interface Db DbSpec DbFacts Models Runtime Resolver.
From S2P Require Import ResolverLogic ResolverFacts ResolverModels ResolverTheorems.
From S2P Require Import Caches Idmap IdmapTheorems Config ConfigTheorems Daemon.

Open Scope rust_scope.

Section facts.
Context {X : Ext} {SD : Serde} {SL : SerdeLaws SD} {C : Crypto} {P : IdProvider} {L : LruCache}
  {E : Env}.
Context {I : IniFile} {G : GeneratedConfig} {H : Host} {TK : TokenOps} {DE : DaemonEnv} {CSV : Csv}.
Context (self : Resolver) (cfg : HimmelblauConfig).
Implicit Types (s : DState) (w : World).

(** ** Operations that leave the session alone *)

Definition keeps {A} (m : D A) : Prop := ∀ s w a s' w',
  m s w = Ret (a, s') w' → pam_auth_session_state s' = pam_auth_session_state s.

Lemma keeps_ret {A} (a : A) : keeps (mret a).
Proof. by intros s w b s' w' [= <- <- <-]. Qed.

Lemma keeps_bind {A B} (m : D A) (k : A → D B) :
  keeps m → (∀ a, keeps (k a)) → keeps (m ≫= k).
Proof.
  intros Hm Hk s w b s' w' Hr. unfold mbind, D_bind, M_bind in Hr. unfold mbind, M_bind in Hr.
  destruct (m s w) as [[a s1] w1| |] eqn:Em; [|done..].
  rewrite (Hk _ _ _ _ _ _ Hr). by eapply Hm.
Qed.

Lemma keeps_lift {A} (m : M A) : keeps (lift m).
Proof.
  intros s w a s' w'. unfold lift, mbind, M_bind. destruct (m w); [|done..]. by intros [= <- <- <-].
Qed.

Lemma keeps_task t : keeps (run_task t).
Proof. intros s w r s' w' [= <- <- <-]. by destruct (task_reply _). Qed.

(** ** Operations that give back what they took *)

Section safety.
Context {p d : Prop} (Hp : p ∨ calm (timeout_seconds self)) (Hd : d ∨ online_init_total self).

Definition dsafe {A} (m : D A) : Prop := ∀ s w,
  idle (p := p) w → wp p d (m s) (λ _ w', evolves p any_rows w w') w.

Lemma dsafe_ret {A} (a : A) : dsafe (mret a).
Proof. intros s w _. by apply wp_ret. Qed.

Lemma dsafe_bind {A B} (m : D A) (k : A → D B) :
  dsafe m → (∀ a, dsafe (k a)) → dsafe (m ≫= k).
Proof.
  intros Hm Hk s w Hw. apply wp_bind. eapply wp_mono; [by apply Hm|]. intros [a s1] w1 Hev. simpl.
  eapply wp_mono; [apply Hk; exact (evolves_idle _ _ _ Hev Hw)|]. intros ? w2 Hev2. by etrans.
Qed.

Lemma dsafe_lift {A} (m : M A) : safe (p := p) (d := d) any_rows m → dsafe (lift m).
Proof.
  intros Hm s w Hw. apply wp_bind. eapply wp_mono; [by apply Hm|]. intros a w' Hev. by apply wp_ret.
Qed.

Lemma safe_draw {A} (o : nat → A) : safe (p := p) (d := d) any_rows (draw o).
Proof. intros w [Hh [Ht Hwf]]. apply wp_draw. by split. Qed.

Lemma dsafe_task t : dsafe (run_task t).
Proof. intros s w Hw. apply wp_bind. eapply wp_mono; [by apply safe_draw|]. intros. by apply wp_ret. Qed.

Lemma dsafe_set_session v : dsafe (set_session v).
Proof. intros s w _. by apply wp_ret. Qed.

Lemma dsafe_get_session : dsafe get_session.
Proof. intros s w _. by apply wp_ret. Qed.

End safety.

End facts.

Create HintDb daemon.
#[export] Hint Resolve keeps_ret keeps_lift keeps_task dsafe_ret dsafe_task dsafe_set_session
  dsafe_get_session : daemon.
#[export] Hint Extern 2 (dsafe (lift _)) => apply dsafe_lift; eauto with safe : daemon.
#[export] Hint Resolve safe_draw safe_ret : safe.

(** Run a structural rule down the binds and matches of an operation. *)
Ltac daemon_walk :=
  repeat first
    [ progress intros
    | solve [eauto with daemon]
    | apply keeps_bind | apply dsafe_bind
    | progress (unfold subordinate_ids)
    | case_match ].

Section theorems.
Context {X : Ext} {SD : Serde} {SL : SerdeLaws SD} {C : Crypto} {P : IdProvider} {L : LruCache}
  {E : Env}.
Context {I : IniFile} {G : GeneratedConfig} {H : Host} {TK : TokenOps} {DE : DaemonEnv} {CSV : Csv}.
Context (self : Resolver) (cfg : HimmelblauConfig).
Implicit Types (s : DState) (w : World).

Lemma keeps_apply_policy a : keeps (apply_intune_policy_for_account self cfg a).
Proof. unfold apply_intune_policy_for_account. daemon_walk. Qed.

Lemma keeps_after_success a : keeps (after_success self cfg a).
Proof.
  pose proof keeps_apply_policy as Hk.
  unfold after_success, logon_script, kerberos_ccache, profile_photo, intune_policies. daemon_walk.
Qed.

(** The requests that are not part of an authentication. *)
Definition is_auth (req : ClientRequest) : bool :=
  match req with
  | ClientRequest_PamAuthenticateInit _ _ _ _ | ClientRequest_PamAuthenticateStep _ => true
  | _ => false
  end.

Lemma keeps_request uid req : is_auth req = false → keeps (handle_request self cfg uid req).
Proof.
  pose proof keeps_apply_policy as Hk.
  intros Ha. destruct req; try discriminate; simpl; unfold begin_session, compliance_check; daemon_walk.
Qed.

Section safety.
Context {p d : Prop} (Hp : p ∨ calm (timeout_seconds self)) (Hd : d ∨ online_init_total self).

Lemma safe_intune_device_id a : safe (p := p) (d := d) any_rows (read_intune_device_id cfg a).
Proof.
  unfold read_intune_device_id. destruct (split_username a) as [[_ dom]|]; [|apply safe_ret].
  apply safe_bind; [apply safe_draw|]. intros ?. apply safe_ret.
Qed.

Lemma safe_policy_token a sc : safe (p := p) (d := d) any_rows (policy_token self a sc).
Proof. by apply safe_accesstoken. Qed.

Lemma safe_sudoer a l : safe (p := p) (d := d) any_rows (is_sudoer self a l).
Proof.
  induction l as [|g l IH]; simpl; [apply safe_ret|]. case_match; [|done].
  apply safe_bind; [by apply safe_groupmembers|]. intros m. apply safe_bind; [done|].
  intros b. apply safe_ret.
Qed.

#[local] Hint Resolve safe_intune_device_id safe_policy_token safe_sudoer : safe.

Lemma dsafe_apply_policy a : dsafe (p := p) (d := d) (apply_intune_policy_for_account self cfg a).
Proof. unfold apply_intune_policy_for_account. daemon_walk. Qed.

Lemma dsafe_after_success a : dsafe (p := p) (d := d) (after_success self cfg a).
Proof.
  pose proof dsafe_apply_policy as Hk.
  unfold after_success, logon_script, kerberos_ccache, profile_photo, intune_policies. daemon_walk.
Qed.

Lemma parse_range_u32 def val :
  in_u32 def.1 → in_u32 def.2 → in_u32 (parse_range def val).1 ∧ in_u32 (parse_range def val).2.
Proof.
  intros H1 H2. unfold parse_range.
  destruct (mapM (parse_uint u32_max) (split_char DASH val)) as [vals|] eqn:Ev; [|done].
  apply mapM_Some_1 in Ev. assert (Forall in_u32 vals) as Hv.
  { eapply Forall2_Forall_r; [exact Ev|]. apply Forall_true. intros x y. apply parse_uint_bounds. }
  destruct vals as [|a [|b [|]]]; try done. by inversion Hv as [|? ? ? Hv']; inversion Hv'.
Qed.

Lemma subid_range_u32 : in_u32 (get_subid_range cfg).1 ∧ in_u32 (get_subid_range cfg).2.
Proof. unfold get_subid_range. case_match; [by apply parse_range_u32|done]. Qed.

Lemma dsafe_subordinate_ids a : dsafe (p := p) (d := d) (subordinate_ids cfg a).
Proof.
  unfold subordinate_ids. apply dsafe_bind; [daemon_walk|]. intros file.
  destruct subid_range_u32 as [H1 H2].
  destruct (gen_subid_start_total (map_upn_to_name cfg a file) _ _ H1 H2) as [n Hn].
  rewrite <- surjective_pairing in Hn. rewrite Hn. daemon_walk.
Qed.

Lemma dsafe_request uid req : dsafe (p := p) (d := d) (handle_request self cfg uid req).
Proof.
  pose proof dsafe_apply_policy as Hk. pose proof dsafe_after_success. pose proof dsafe_subordinate_ids.
  destruct req; simpl; unfold begin_session, compliance_check, authenticate_init, authenticate_step;
   daemon_walk.
Qed.

Lemma wp_client_loop uid reqs s w :
  idle (p := p) w → wp p d (client_loop self cfg uid reqs s) (λ _ w', idle (p := p) w') w.
Proof.
  revert s w. induction reqs as [|req reqs IH]; intros s w Hw; simpl; [by apply wp_ret|].
  apply wp_bind. eapply wp_mono; [by apply dsafe_request|]. intros [resp s1] w1 Hev1.
  apply wp_bind, wp_bind, wp_draw, wp_ret. simpl.
  assert (idle (p := p) (set_tick (S (w_tick w1)) w1)) as Hw1
    by (destruct (evolves_idle _ _ _ Hev1 Hw) as [? []]; by split).
  destruct (client_gone _); [by apply wp_ret|].
  apply wp_bind. eapply wp_mono; [by apply IH|]. intros [x s2] w2 Hw2. by apply wp_ret.
Qed.

End safety.

(** ** Connections do not wedge *)

(** When SQLite does its part and the provider can start authentications, a
    connection that sends any finite sequence of requests is served to its end,
    whatever the tasks daemon, the client and the file system do: no panic, no
    deadlock, no lock and no transaction left behind. *)
Theorem connection_total ucred reqs w :
  calm (timeout_seconds self) → online_init_total self → settled w →
  ∃ x w', handle_client self cfg ucred reqs w = Ret x w' ∧ settled w'.
Proof.
  intros Hc Ho Hw. destruct ucred as [uid|]; simpl; [|eexists _, w; split; [done|exact Hw]].
  pose proof (wp_client_loop (p := False) (d := False) (or_intror Hc) (or_intror Ho) uid reqs
    (Build_DState None []) w (settled_idle _ _ Hw)) as Hl.
  unfold wp in Hl. destruct (client_loop _ _ _ _ _ w) as [x w'| |]; [|done..].
  exists x, w'. split; [done|]. destruct Hl as [? [[|]]]; done.
Qed.

(** Only root empties the cache or opens the offline break-glass window: from any
    other user both requests are refused and change nothing at all. *)
Theorem privileged_needs_root uid req s w :
  uid ≠ 0 → req = ClientRequest_ClearCache ∨ (∃ ttl, req = ClientRequest_OfflineBreakGlass ttl) →
  handle_request self cfg uid req s w = Ret (ClientResponse_Error, s) w.
Proof.
  intros Hu%Z.eqb_neq [->|[ttl ->]]; simpl; by rewrite Hu.
Qed.

(** ** Where a success comes from *)

(** A step changes no more of a session in progress than its credential handler. *)
Definition same_session (a b : AuthSession) : Prop :=
  match a, b with
  | AuthSession_InProgress account service id token online _ nhp force,
    AuthSession_InProgress account' service' id' token' online' _ nhp' force' =>
      (account, service, id, token, online, nhp, force) =
      (account', service', id', token', online', nhp', force')
  | a, b => a = b
  end.

Lemma same_session_refl a : same_session a a.
Proof. by destruct a. Qed.

Lemma dispatch_session a st q w a' f w' :
  step_dispatch self a st q w = Ret (a', f) w' → same_session a a'.
Proof.
  unfold step_dispatch. destruct a as [account service id [token|] online h nhp force|spn|];
    [|by intros [= <- <- <-]..]. unfold mbind, M_bind.
  destruct online, st; case_match; try done; by intros [= <- <- <-].
Qed.

Lemma finish_session a r w a' x w' :
  step_finish self a r w = Ret (a', x) w' →
  a' = a ∨ a' = AuthSession_Denied ∨ ∃ spn, a' = AuthSession_Success spn.
Proof.
  unfold step_finish, mbind, M_bind. intros Hr.
  repeat (case_match; simplify_eq/=); try (by injection Hr as <- <- <-; eauto);
    unfold mret, M_ret in *; simplify_eq; eauto.
Qed.

Lemma step_session a q w a' r w' :
  pam_account_authenticate_step self a q w = Ret (a', r) w' →
  same_session a a' ∨ a' = AuthSession_Denied ∨ ∃ spn, a' = AuthSession_Success spn.
Proof.
  unfold pam_account_authenticate_step, mbind, M_bind.
  destruct (step_state a w) as [st w1| |]; [|done..].
  destruct (step_dispatch self a st q w1) as [[a1 f] w2| |] eqn:Ed; [|done..].
  apply dispatch_session in Ed. destruct f; [|intros [= <- <- <-]; by left].
  intros [->|?]%finish_session; auto.
Qed.

(** The session [a] in progress was begun by the request [req]. *)
Definition begun_by (req : ClientRequest) (a : AuthSession) : Prop :=
  match req with
  | ClientRequest_PamAuthenticateInit account service nhp force =>
      ∃ token online h, a = AuthSession_InProgress (to_lowercase account) service
        (Id_Name (to_lowercase account)) token online h nhp force
  | _ => False
  end.

(** The session of a connection that has seen the requests [hist]. *)
Definition session_from (hist : list ClientRequest) (o : option AuthSession) : Prop :=
  match o with
  | Some (AuthSession_InProgress a b c d e f g h) =>
      ∃ req, req ∈ hist ∧ begun_by req (AuthSession_InProgress a b c d e f g h)
  | _ => True
  end.

Lemma session_from_app hist req o : session_from hist o → session_from (hist ++ [req]) o.
Proof. destruct o as [[]|]; simpl; try done. intros (r & Hr & Hb). exists r. set_solver. Qed.

Lemma same_session_from hist a a' :
  same_session a a' → session_from hist (Some a) → session_from hist (Some a').
Proof.
  destruct a, a'; simpl; intros Hs; try done. injection Hs as <- <- <- <- <- <- <-.
  intros (req & Hr & Hb). exists req. split; [done|]. destruct req; simpl in *; try done.
  destruct Hb as (token0 & online0 & h0 & [= -> -> -> -> -> -> -> ->]). eauto.
Qed.

(** What a request needs to answer that the login succeeded, when the connection has seen
    [hist] and is in the state [s] and [w]: it is a step of the session the connection has,
    which is for the account, with the service and the flags, that one of the requests named;
    and the resolver finds evidence for the step in [w]. *)
Definition accounted (hist : list ClientRequest) (req : ClientRequest) (s : DState) (w : World) : Prop :=
  ∃ q account service nhp force id token online h tok,
    let session := AuthSession_InProgress (to_lowercase account) service id token online h nhp force in
    req = ClientRequest_PamAuthenticateStep q ∧
    ClientRequest_PamAuthenticateInit account service nhp force ∈ hist ∧
    pam_auth_session_state s = Some session ∧
    in_nxset (w_nxset w) (Some (t_name tok)) (Some (t_gidnumber tok)) = false ∧
    success_evidence self w session q tok.

Definition reports_success (r : ClientResponse) : Prop :=
  r = ClientResponse_PamAuthenticateStepResponse PamAuthResponse_Success.

(** Split a run of a bind of the connection's monad. *)
Lemma dbind_inv {A B} (m : D A) (k : A → D B) s w b s' w' :
  (m ≫= k) s w = Ret (b, s') w' → ∃ a s1 w1, m s w = Ret (a, s1) w1 ∧ k a s1 w1 = Ret (b, s') w'.
Proof.
  unfold mbind, D_bind, mbind, M_bind. destruct (m s w) as [[a s1] w1| |]; [|done..]. eauto.
Qed.

Lemma dbind_run {A B} (m : D A) (k : A → D B) s w a s1 w1 : m s w = Ret (a, s1) w1 → (m ≫= k) s w = k a s1 w1.
Proof. intros Hm. unfold mbind, D_bind, mbind, M_bind. by rewrite Hm. Qed.

Lemma lift_inv {A} (m : M A) s w a s' w' :
  lift m s w = Ret (a, s') w' → s' = s ∧ m w = Ret a w'.
Proof. unfold lift, mbind, M_bind. destruct (m w); [|done..]. by intros [= <- <- <-]. Qed.

(** What every answer of an operation satisfies. *)
Definition answers (Q : ClientResponse → Prop) (m : D ClientResponse) : Prop := ∀ s w r s' w',
  m s w = Ret (r, s') w' → Q r.

Lemma answers_ret (Q : ClientResponse → Prop) r : Q r → answers Q (mret r).
Proof. by intros Hr s w a s' w' [= <- <- <-]. Qed.

Lemma answers_bind {A} Q (m : D A) k : (∀ a, answers Q (k a)) → answers Q (m ≫= k).
Proof. intros Hk s w r s' w' (a & s1 & w1 & _ & Hr)%dbind_inv. by eapply Hk. Qed.

(** Only the two authentication requests can answer that a login succeeded. *)
Lemma quiet_request uid req :
  is_auth req = false → answers (λ r, ¬ reports_success r) (handle_request self cfg uid req).
Proof.
  intros Ha. destruct req; try discriminate; simpl; unfold begin_session, compliance_check, ok_or_error,
    task_ack; repeat first [apply answers_bind; intros | case_match | by apply answers_ret].
Qed.

(** The responses a client has to expect for a request. *)
Definition response_fits (req : ClientRequest) (resp : ClientResponse) : bool :=
  match req, resp with
  | ClientRequest_NssAccounts, ClientResponse_NssAccounts _ => true
  | ClientRequest_NssAccountByUid _, ClientResponse_NssAccount _ => true
  | ClientRequest_NssAccountByName _, ClientResponse_NssAccount _ => true
  | ClientRequest_NssGroups, ClientResponse_NssGroups _ => true
  | ClientRequest_NssGroupByGid _, ClientResponse_NssGroup _ => true
  | ClientRequest_NssGroupByName _, ClientResponse_NssGroup _ => true
  | ClientRequest_NssInitgroups _, (ClientResponse_NssInitgroups _ | ClientResponse_Error) => true
  | ClientRequest_PamAuthenticateInit _ _ _ _,
    (ClientResponse_PamAuthenticateStepResponse _ | ClientResponse_Error) => true
  | ClientRequest_PamAuthenticateStep _,
    (ClientResponse_PamAuthenticateStepResponse _ | ClientResponse_Error) => true
  | ClientRequest_PamAccountAllowed _, (ClientResponse_PamStatus _ | ClientResponse_Error) => true
  | ClientRequest_ComplianceCheck,
    (ClientResponse_Ok | ClientResponse_Error | ClientResponse_NotAuthenticated
     | ClientResponse_NonCompliant _) => true
  | ClientRequest_PamTryUnseal _ _, ClientResponse_Ok => true
  | (ClientRequest_PamAccountBeginSession _ | ClientRequest_PamChangeAuthToken _ _ _ _
     | ClientRequest_InvalidateCache | ClientRequest_ClearCache | ClientRequest_OfflineBreakGlass _
     | ClientRequest_Status), (ClientResponse_Ok | ClientResponse_Error) => true
  | _, _ => false
  end.

(** C33. Every response is of a kind its request announces: lookups answer with their
    own kind of entry and nothing else, authentication with a step response or an
    error, and only a compliance check reports rules or missing authentication. *)
Theorem response_kind uid req s w :
  match handle_request self cfg uid req s w with
  | Ret (resp, _) _ => response_fits req resp = true
  | _ => True
  end.
Proof.
  assert (answers (λ resp, response_fits req resp = true) (handle_request self cfg uid req)) as Ha.
  { destruct req; simpl; unfold begin_session, compliance_check, ok_or_error, task_ack, authenticate_init,
      authenticate_step, after_success;
      repeat first [apply answers_bind; intros | case_match | by apply answers_ret]. }
  destruct (handle_request self cfg uid req s w) as [[resp s'] w'| |] eqn:Er; [|done..]. by eapply Ha.
Qed.

Lemma init_request hist account service nhp force s w resp s' w' :
  session_from hist (pam_auth_session_state s) →
  authenticate_init self account service nhp force s w = Ret (resp, s') w' →
  session_from (hist ++ [ClientRequest_PamAuthenticateInit account service nhp force])
    (pam_auth_session_state s') ∧ ¬ reports_success resp.
Proof.
  intros Hs (r & s1 & w1 & [-> Hi]%lift_inv & Hr)%dbind_inv.
  destruct r as [[a x]|[]]; [|injection Hr as <- <- <-; split; [by apply session_from_app|done]].
  apply dbind_inv in Hr as ([] & s2 & w2 & [= <- <-] & [= <- <- <-]). simpl.
  destruct (init_session _ _ _ _ _ _ _ _ _ Hi) as [Hx Ha]. split; [|by intros [= ->]].
  destruct Ha as [->|(token & online & h & ->)]; [done|].
  eexists. split; [apply elem_of_app; right; by apply list_elem_of_singleton|]. simpl. eauto.
Qed.

Lemma step_request hist q s w resp s' w' :
  idle (p := True) w → session_from hist (pam_auth_session_state s) →
  authenticate_step self cfg q s w = Ret (resp, s') w' →
  session_from hist (pam_auth_session_state s') ∧
  (reports_success resp → accounted hist (ClientRequest_PamAuthenticateStep q) s w).
Proof.
  intros Hi Hs (o & s1 & w1 & [= <- <- <-] & Hr)%dbind_inv.
  destruct (pam_auth_session_state s) as [a|] eqn:Ea; [|by injection Hr as <- <- <-; rewrite Ea].
  apply dbind_inv in Hr as ([a' r] & s1 & w1 & [-> Hst]%lift_inv & Hr).
  apply dbind_inv in Hr as ([] & s2 & w2 & [= <- <-] & Hr). simpl in Hr.
  assert (session_from hist (Some a')) as Hs'.
  { destruct (step_session _ _ _ _ _ _ Hst) as [Hsame|[->|[spn ->]]]; [|done..].
    by apply (same_session_from _ a). }
  destruct r as [x|[]]; [|by injection Hr as <- <- <-].
  assert (x = PamAuthResponse_Success → accounted hist (ClientRequest_PamAuthenticateStep q) s w) as Hx.
  { intros ->. destruct (step_success _ _ _ _ _ _ Hi Hst) as (tok & Hev & _ & Hn).
    destruct Hev as (account & service & id & token & online & h & nhp & force & state & w1' & -> & Hev).
    destruct Hs as (req & Hin & Hb). destruct req; simpl in Hb; try done.
    destruct Hb as (t' & o' & h' & [= -> -> -> <- <- <- -> ->]).
    do 10 eexists. split_and!; [done|exact Hin|exact Ea|exact Hn|]. do 10 eexists. split; [done|exact Hev]. }
  assert (ClientResponse_PamAuthenticateStepResponse x = resp → reports_success resp →
    accounted hist (ClientRequest_PamAuthenticateStep q) s w) as Hx'.
  { by intros <- [= ->]; apply Hx. }
  destruct a' as [| |]; destruct x; try (injection Hr as <- <- <-; by auto).
  rewrite (keeps_after_success _ _ _ _ _ _ Hr). auto.
Qed.

Lemma request_session hist uid req s w resp s' w' :
  idle (p := True) w → session_from hist (pam_auth_session_state s) →
  handle_request self cfg uid req s w = Ret (resp, s') w' →
  session_from (hist ++ [req]) (pam_auth_session_state s') ∧
  (reports_success resp → accounted hist req s w).
Proof.
  intros Hi Hs Hr. destruct (is_auth req) eqn:Ea.
  - destruct req; try done; simpl in Hr.
    + destruct (init_request _ _ _ _ _ _ _ _ _ _ Hs Hr). split; [done|]. intros; contradiction.
    + destruct (step_request _ _ _ _ _ _ _ Hi Hs Hr). split; [by apply session_from_app|done].
  - rewrite (keeps_request _ _ Ea _ _ _ _ _ Hr). split; [by apply session_from_app|].
    intros Hx. destruct (quiet_request _ _ Ea _ _ _ _ _ Hr Hx).
Qed.

Lemma dsafe_result {A} (m : D A) s w a s' w' :
  dsafe (p := True) (d := True) m → idle (p := True) w → m s w = Ret (a, s') w' →
  evolves True any_rows w w'.
Proof. intros Hm Hw Hr. exact (wp_result _ _ _ _ _ (Hm s w Hw) Hr). Qed.

Lemma loop_success hist uid reqs s w resps r s' w' i :
  idle (p := True) w → session_from hist (pam_auth_session_state s) →
  client_loop self cfg uid reqs s w = Ret (resps, r, s') w' →
  resps !! i = Some (ClientResponse_PamAuthenticateStepResponse PamAuthResponse_Success) →
  ∃ req s1 w1, reqs !! i = Some req ∧
    client_loop self cfg uid (take i reqs) s w = Ret (take i resps, Ok tt, s1) w1 ∧
    evolves True any_rows w w1 ∧ accounted (hist ++ take i reqs) req s1 w1.
Proof.
  revert hist s w resps i. induction reqs as [|req reqs IH]; intros hist s w resps i Hi Hs; simpl.
  { by intros [= <- <- <- <-]. }
  intros (resp & s1 & w1 & Hreq & Hr)%dbind_inv.
  pose proof (dsafe_result _ _ _ _ _ _
    (dsafe_request (p := True) (d := True) (or_introl Logic.I) (or_introl Logic.I) uid req) Hi Hreq) as Hev.
  destruct (request_session _ _ _ _ _ _ _ _ Hi Hs Hreq) as [Hs1 Hacc].
  apply dbind_inv in Hr as (gone & s2 & w2 & Hg & Hr). pose proof Hg as [-> Hg']%lift_inv.
  pose proof (evolves_idle _ _ _ Hev Hi) as Hi1.
  pose proof (wp_result _ _ _ _ _ (safe_draw (p := True) (d := True) client_gone w1 Hi1) Hg') as Hev2.
  destruct gone; [by injection Hr as <- <- <- <-|].
  apply dbind_inv in Hr as ([resps' r'] & s3 & w3 & Hl & [= <- <- <- <-]).
  destruct i as [|i]; simpl; intros Hx.
  - exists req, s, w. split_and!; [done|done|done|]. rewrite app_nil_r. by apply Hacc; injection Hx.
  - destruct (IH (hist ++ [req]) s1 w2 resps' i (evolves_idle _ _ _ Hev2 Hi1) Hs1 Hl Hx)
      as (req' & s4 & w4 & Hreq' & Hrun & Hev' & Hacc'). exists req', s4, w4. split_and!; [done| | |].
    + by rewrite (dbind_run _ _ _ _ _ _ _ Hreq), (dbind_run _ _ _ _ _ _ _ Hg), (dbind_run _ _ _ _ _ _ _ Hrun).
    + by etrans; [|etrans].
    + by rewrite <- app_assoc in Hacc'.
Qed.

(** C4. A connection that answers "success" to its [i]-th request was asked there to step a
    session. With the requests before it alone the connection would have stood where it then
    stood, in a session for an account that one of those requests named (in lower case), with
    the service, PIN and re-authentication flags given there; and in that state the resolver
    finds the evidence for this step of that session, for a token that is not a local
    account's. *)
Theorem connection_success_accounted uid reqs w resps r s w' i :
  settled w → handle_client self cfg (Some uid) reqs w = Ret (resps, r, s) w' →
  resps !! i = Some (ClientResponse_PamAuthenticateStepResponse PamAuthResponse_Success) →
  ∃ q account service nhp force s1 w1 id token online h tok,
    let session := AuthSession_InProgress (to_lowercase account) service id token online h nhp force in
    reqs !! i = Some (ClientRequest_PamAuthenticateStep q) ∧
    ClientRequest_PamAuthenticateInit account service nhp force ∈ take i reqs ∧
    handle_client self cfg (Some uid) (take i reqs) w = Ret (take i resps, Ok tt, s1) w1 ∧
    pam_auth_session_state s1 = Some session ∧
    success_evidence self w1 session q tok ∧
    in_nxset (w_nxset w) (Some (t_name tok)) (Some (t_gidnumber tok)) = false.
Proof.
  intros Hw Hr Hx.
  destruct (loop_success [] uid reqs (Build_DState None []) w resps r s w' i (settled_idle _ _ Hw) Logic.I Hr Hx)
    as (req & s1 & w1 & Hreq & Hrun & Hev & q & a & sv & nhp & fc & id & tk & on & h & tok & -> & Hin & Hses & Hnx & Hse).
  rewrite (ev_nxset _ _ _ _ Hev) in Hnx.
  exists q, a, sv, nhp, fc, s1, w1, id, tk, on, h, tok. by split_and!.
Qed.

(** ** After a login *)

(** With a logon script configured, what the client is told after a successful
    login is decided by the script's task alone: exit status 2 turns the success into
    a denial; any other status, a verdict of another kind, a timeout or a tasks
    daemon that cannot be reached leave it a success. *)
Theorem logon_script_decides script a s w resp s' w' :
  get_logon_script (config cfg) = Some script →
  after_success self cfg a s w = Ret (resp, s') w' →
  ∃ scopes client tok w1,
    get_user_accesstoken self (Id_Name a) scopes client None None w = Ret tok w1 ∧
    resp = ClientResponse_PamAuthenticateStepResponse
      (match task_reply (w_tick w1) with
       | Replied (TaskOutcome_Status 2) => PamAuthResponse_Denied LOGON_SCRIPT_DENIED
       | _ => PamAuthResponse_Success
       end).
Proof.
  intros Hs (x & s1 & w1 & Hl & Hr)%dbind_inv.
  apply dbind_inv in Hr as (_ & s2 & w2 & _ & Hr). apply dbind_inv in Hr as (_ & s3 & w3 & _ & Hr).
  apply dbind_inv in Hr as (_ & s4 & w4 & _ & [= <- _ _]).
  unfold logon_script in Hl. rewrite Hs in Hl.
  apply dbind_inv in Hl as (tok & s5 & w5 & [-> Ht]%lift_inv & Hl).
  apply dbind_inv in Hl as (rep & s6 & w6 & [= <- <- <-] & [= <- _ _]).
  do 4 eexists. split; [exact Ht|]. f_equal.
  destruct (task_reply (w_tick w5)) as [| | |[z|]]; try done.
  destruct z as [|[[]|[]|]|]; try done; by destruct (_ =? 2) eqn:Ez.
Qed.

Lemma task_inv t s w r s' w' :
  run_task t s w = Ret (r, s') w' →
  r = task_reply (w_tick w) ∧ w' = set_tick (S (w_tick w)) w ∧
  tasks_sent s' = tasks_sent s ++ (match r with NotSent _ => [] | _ => [t] end).
Proof.
  intros [= <- <- <-]. split_and!; try done. destruct (task_reply _); simpl; by rewrite ?app_nil_r.
Qed.

Lemma subids_inv a s w s' w' :
  subordinate_ids cfg a s w = Ret (tt, s') w' →
  ∃ rest, tasks_sent s' = tasks_sent s ++ rest ∧
    (rest = [] ∨ ∃ file start,
       gen_subid_start (map_upn_to_name cfg a file) (get_subid_range cfg) = Some start ∧
       rest = [TaskRequest_SubordinateIds (map_upn_to_name cfg a file) start SUBID_COUNT]).
Proof.
  intros (file & s1 & w1 & [-> _]%lift_inv & Hr)%dbind_inv.
  cbv zeta in Hr. destruct (gen_subid_start _ _) as [start|] eqn:Eg; [|done].
  apply dbind_inv in Hr as (r & s2 & w2 & (-> & -> & Ht)%task_inv & [= <- <-]).
  eexists. split; [exact Ht|]. destruct (task_reply _); eauto.
Qed.

(** A session is opened ("Ok") only for an account the resolver knows, after the
    home directory and the local groups were set up: both tasks were sent with the
    resolver's data, in this order, and acknowledged. Subordinate ids follow when
    they can be requested, with a block computed for the mapped name, and never
    decide the answer. *)
Theorem begin_session_ok a s w s' w' :
  begin_session self cfg a s w = Ret (ClientResponse_Ok, s') w' →
  ∃ info w1 sudoer rest,
    pam_account_beginsession self (to_lowercase a) w = Ret (Ok (Some info)) w1 ∧
    tasks_sent s' = tasks_sent s ++
      [TaskRequest_HomeDirectory info; TaskRequest_LocalGroups (to_lowercase a) sudoer] ++ rest ∧
    (rest = [] ∨ ∃ file start,
       gen_subid_start (map_upn_to_name cfg (to_lowercase a) file) (get_subid_range cfg) = Some start ∧
       rest = [TaskRequest_SubordinateIds (map_upn_to_name cfg (to_lowercase a) file) start SUBID_COUNT]).
Proof.
  intros (r & s1 & w1 & [-> Hb]%lift_inv & Hr)%dbind_inv.
  destruct r as [[info|]|[]]; [|by injection Hr..].
  apply dbind_inv in Hr as (r1 & s1 & w2 & (E1 & -> & T1)%task_inv & Hr).
  apply dbind_inv in Hr as (sudoer & s2 & w3 & [-> Hsu]%lift_inv & Hr).
  apply dbind_inv in Hr as (r2 & s3 & w4 & (E2 & -> & T2)%task_inv & Hr).
  apply dbind_inv in Hr as ([] & s4 & w5 & (rest & T3 & Hrest)%subids_inv & Hr).
  injection Hr as Hresp <- <-.
  exists info, w1, sudoer, rest. split; [done|]. split; [|done].
  destruct r1, r2; try done. by rewrite T3, T2, T1, <- !app_assoc.
Qed.

(** An account whose name in lower case is in the exclusion set gets nothing out
    of the daemon: lookups find nobody, an authentication is answered "unknown" and a
    session is refused, with the resolver's state untouched. Changing its token is
    answered with "Ok" although nothing is changed. *)
Theorem local_account_answers uid a service nhp force access refresh pin s w :
  w_held w = [] → Id_Name (to_lowercase a) ∈ w_nxset w →
  handle_request self cfg uid (ClientRequest_NssAccountByName a) s w
    = Ret (ClientResponse_NssAccount None, s) w ∧
  handle_request self cfg uid (ClientRequest_NssInitgroups a) s w
    = Ret (ClientResponse_NssInitgroups None, s) w ∧
  handle_request self cfg uid (ClientRequest_PamAuthenticateInit a service nhp force) s w
    = Ret (ClientResponse_PamAuthenticateStepResponse PamAuthResponse_Unknown,
           Build_DState (Some AuthSession_Denied) (tasks_sent s)) w ∧
  handle_request self cfg uid (ClientRequest_PamAccountBeginSession a) s w
    = Ret (ClientResponse_Error, s) w ∧
  handle_request self cfg uid (ClientRequest_PamChangeAuthToken a access refresh pin) s w
    = Ret (ClientResponse_Ok, s) w.
Proof.
  intros Hh Hin. destruct s as [o ts].
  assert (check_nxset (Some (to_lowercase a)) None w = Ret true w) as Hc.
  { rewrite check_nxset_run by done. unfold in_nxset. by rewrite bool_decide_true. }
  assert (get_usertoken self (Id_Name (to_lowercase a)) w = Ret (Ok None) w) as Hg.
  { unfold get_usertoken, check_nxset_id, mbind, M_bind. by rewrite Hc. }
  split_and!; simpl; unfold begin_session, authenticate_init, change_auth_token,
    pam_account_authenticate_init, pam_account_beginsession, get_initgroups, get_nssaccount_name,
    get_nssaccount, try, lift, mbind, D_bind, mbind, M_bind, mret, D_ret, mret, M_ret, set_session;
    rewrite ?Hc, ?Hg; done.
Qed.

(** An init that fails leaves the connection's previous session as it was. *)
Lemma failed_init_keeps_session uid a service nhp force s w w' :
  pam_account_authenticate_init self (to_lowercase a) service nhp force w = Ret (Err tt) w' →
  handle_request self cfg uid (ClientRequest_PamAuthenticateInit a service nhp force) s w
    = Ret (ClientResponse_Error, s) w'.
Proof.
  intros Hr. simpl. unfold authenticate_init, lift, mbind, D_bind, mbind, M_bind. by rewrite Hr.
Qed.

(** ** The exclusion set *)

(** Reading the local accounts either fails and leaves the exclusion set alone, or
    makes it exactly the names and numbers of the users and groups read for which no
    override is configured. *)
Theorem passwd_excluded w r w' :
  process_etc_passwd_group self w = Ret r w' →
  match r with
  | Err _ => w_nxset w' = w_nxset w
  | Ok _ => ∃ b b' users groups,
      parse_etc_passwd b = Some users ∧ parse_etc_group b' = Some groups ∧
      ∀ id, id ∈ w_nxset w' ↔ ∃ name n,
        ((∃ u, u ∈ users ∧ eu_name u = name ∧ eu_uid u = n) ∨
         (∃ g, g ∈ groups ∧ eg_name g = name ∧ eg_gid g = n)) ∧
        (id = Id_Name name ∨ id = Id_Gid n) ∧
        Id_Name name ∉ allow_id_overrides self ∧ Id_Gid n ∉ allow_id_overrides self
  end.
Proof.
  unfold process_etc_passwd_group, mbind at 1, M_bind at 1, draw at 1.
  destruct (read_bytes _ _ ≫= _) as [users|] eqn:Eu; [|by intros [= <- <-]].
  unfold mbind at 1, M_bind at 1, draw at 1.
  destruct (read_bytes (w_tick _) "/etc/group" ≫= _) as [groups|] eqn:Eg; [|by intros [= <- <-]].
  unfold mbind at 1, M_bind at 1.
  destruct (reload_nxset _ _ _) as [[] w1| |] eqn:Er; [|done..]. intros [= <- <-].
  apply bind_Some in Eu as (b & _ & Hu), Eg as (b' & _ & Hg).
  exists b, b', users, groups. split; [done|]. split; [done|]. intros id.
  rewrite (reload_nxset_iff _ _ _ _ _ Er). f_equiv. intros name. f_equiv. intros n.
  rewrite elem_of_app, !list_elem_of_fmap. naive_solver.
Qed.

End theorems.

(** ** The tasks channel and the codec *)

Section channel.
Context {X : Ext}.

(** The loop that feeds the tasks daemon answers a prefix of the queue, in order,
    each task with the outcome of its own response. It ends in order only when the
    whole queue was answered; when it breaks off at a task, every later task stays
    queued in its order, and the task itself is queued again behind them exactly when
    it could not be sent, its requester still waits and the channel takes it. *)
Theorem task_queue_exact (queue : list QueuedTask) :
  let '(sent, rest, res) := handle_task_client queue in
  ∃ k,
    sent = omap (λ v, (λ r, (qt_request v, task_outcome r)) <$> qt_answer v) (take k queue) ∧
    length sent = k ∧
    match res with
    | Ok _ => k = length queue ∧ rest = []
    | Err _ => ∃ v, queue !! k = Some v ∧
        rest = drop (S k) queue ++
          (if negb (qt_send_ok v) && negb (qt_closed v) && qt_requeue_ok v then [v] else [])
    end.
Proof.
  induction queue as [|v queue IH]; simpl; [by exists 0%nat|].
  destruct (qt_send_ok v) eqn:Es; simpl.
  - destruct (qt_answer v) as [r|] eqn:Ea.
    + destruct (handle_task_client queue) as [[sent rest] res]. destruct IH as (k & -> & Hk & Hres).
      exists (S k). simpl. rewrite Ea. simpl. split; [done|]. split; [by rewrite Hk|].
      destruct res; [destruct Hres; split; [by f_equal|done]|done].
    + exists 0%nat. simpl. split; [done|]. split; [done|]. exists v. by rewrite Es, app_nil_r.
  - exists 0%nat. simpl. split; [done|]. split; [done|]. exists v. rewrite Es. split; [done|].
    simpl. rewrite drop_0. destruct (_ && _); by rewrite ?app_nil_r.
Qed.

End channel.

(** What serde_json documents for a derived message type. *)
Class JsonLaws {A} (J : Json A) : Prop := {
  from_to : ∀ (m : A) b, to_vec m = Some b → from_slice b = Some m
}.

(** A message written to an empty buffer is read back, and the buffer is empty again. *)
Lemma codec_roundtrip `{JsonLaws A} (m : A) b :
  codec_encode m [] = Ok b → codec_decode b = (Some m, []).
Proof.
  unfold codec_encode, codec_decode. destruct (to_vec m) as [v|] eqn:Ev; [|done]. intros [= <-].
  by rewrite (from_to _ _ Ev).
Qed.

(** ** Instances *)

#[export] Instance model_tokens : TokenOps := {|
  uuid_parse_str s := Z.to_N <$> parse_uint u64_max s;
  access_token t := Some t;
  bearer_token a _ := a
|}.

(** A tasks daemon that gives every task the same reply. *)
Definition tasks_reply (r : TaskReply) : DaemonEnv := {|
  task_reply _ := r;
  client_gone _ := false;
  read_file _ _ := None;
  read_bytes _ _ := Some [];
  mapped_names _ := None
|}.

#[export] Instance ok_tasks : DaemonEnv := tasks_reply (Replied (TaskOutcome_Status 0)).

(** One local user, whose name has a capital letter. *)
#[export] Instance model_csv : Csv := {|
  csv_users _ := [Some {| eu_name := "Alice"; eu_password := "x"; eu_uid := 1000; eu_gid := 1000;
                          eu_gecos := ""; eu_homedir := "/home/Alice"; eu_shell := "/bin/bash" |}];
  csv_groups _ := [Some ("users", "x", 100, "")]
|}.

Definition script_config : HimmelblauConfig := {|
  config := [("global", "logon_script", "/etc/logon"); ("global", "apply_policy", "false")];
  filename := DEFAULT_CONFIG_PATH
|}.

Definition login_requests : list ClientRequest :=
  [ClientRequest_PamAuthenticateInit "Alice" "login" false false;
   ClientRequest_PamAuthenticateStep (PamAuthRequest_Pin model_pin);
   ClientRequest_PamAccountBeginSession "Alice"].

Lemma connection_total_witness :
  ∃ x w', handle_client model_resolver sample_config (Some 1000) login_requests w_online = Ret x w' ∧
    settled w'.
Proof.
  exact (connection_total model_resolver sample_config (Some 1000) login_requests w_online model_calm
           pin_init_total w_online_settled).
Defined.

Lemma privileged_needs_root_witness :
  handle_request model_resolver sample_config 1000 ClientRequest_ClearCache (Build_DState None []) w_online
  = Ret (ClientResponse_Error, Build_DState None []) w_online.
Proof.
  apply (privileged_needs_root model_resolver sample_config); [done|]. by left.
Defined.

Definition login_run := handle_client model_resolver sample_config (Some 1000) login_requests w_online.

Definition login_result : list ClientResponse * result unit unit * DState :=
  value_of login_run ([], Err tt, Build_DState None []).

Example login_responses : login_result.1 =
  ([ClientResponse_PamAuthenticateStepResponse PamAuthResponse_Pin;
    ClientResponse_PamAuthenticateStepResponse PamAuthResponse_Success; ClientResponse_Ok], Ok tt).
Proof. reflexivity. Qed.

(** The second request of a login brings the PIN: the connection stood in the session that the
    first one began, and the provider accepts the PIN there. *)
Lemma connection_success_accounted_witness :
  ∃ account service nhp force s1 w1 id token online h tok,
    let session := AuthSession_InProgress (to_lowercase account) service id token online h nhp force in
    ClientRequest_PamAuthenticateInit account service nhp force ∈ take 1 login_requests ∧
    handle_client model_resolver sample_config (Some 1000) (take 1 login_requests) w_online
      = Ret (take 1 login_result.1.1, Ok tt, s1) w1 ∧
    pam_auth_session_state s1 = Some session ∧
    success_evidence model_resolver w1 session (PamAuthRequest_Pin model_pin) tok.
Proof.
  destruct (connection_success_accounted model_resolver sample_config 1000 login_requests w_online
    login_result.1.1 login_result.1.2 login_result.2 (world_of login_run w_online) 1 w_online_settled)
    as (q & a & sv & n & f & s1 & w1 & id & t & o & h & tok & [= <-] & Hin & Hrun & Hses & Hev & _);
    [rewrite <- !surjective_pairing; exact (run_self login_run w_online _ eq_refl)|reflexivity|].
  exists a, sv, n, f, s1, w1, id, t, o, h, tok. split_and!; assumption.
Defined.

Definition script_run :=
  after_success (DE := tasks_reply (Replied (TaskOutcome_Status 2))) model_resolver script_config
    "alice" (Build_DState None []) w_online.

Lemma logon_script_decides_witness :
  (value_of script_run (ClientResponse_Error, Build_DState None [])).1
  = ClientResponse_PamAuthenticateStepResponse (PamAuthResponse_Denied LOGON_SCRIPT_DENIED).
Proof.
  destruct (logon_script_decides (DE := tasks_reply (Replied (TaskOutcome_Status 2))) model_resolver
    script_config "/etc/logon" "alice" (Build_DState None []) w_online
    (value_of script_run (ClientResponse_Error, Build_DState None [])).1
    (value_of script_run (ClientResponse_Error, Build_DState None [])).2
    (world_of script_run w_online)) as (sc & cl & tok & w1 & _ & ->); 
    [reflexivity|rewrite <- surjective_pairing; exact (run_self script_run w_online _ eq_refl)|reflexivity].
Defined.

Definition begin_run :=
  begin_session model_resolver sample_config "Alice" (Build_DState None []) w_online.
Definition begin_state := (value_of begin_run (ClientResponse_Error, Build_DState None [])).2.

Lemma begin_session_ok_witness :
  ∃ info sudoer rest, tasks_sent begin_state = tasks_sent (Build_DState None []) ++
    [TaskRequest_HomeDirectory info; TaskRequest_LocalGroups (to_lowercase "Alice") sudoer] ++ rest.
Proof.
  destruct (begin_session_ok model_resolver sample_config "Alice" (Build_DState None []) w_online
    begin_state (world_of begin_run w_online)) as (info & w1 & sudoer & rest & _ & Ht & _);
    [unfold begin_state; refine (run_pair begin_run w_online _ _ _ _); reflexivity|].
  exists info, sudoer, rest. exact Ht.
Defined.

Lemma local_account_answers_witness :
  handle_request model_resolver sample_config 1000 (ClientRequest_NssAccountByName "Root")
    (Build_DState None []) w_local
  = Ret (ClientResponse_NssAccount None, Build_DState None []) w_local.
Proof.
  apply (local_account_answers model_resolver sample_config 1000 "Root" "login" false false "" "" "");
    [reflexivity|]. by apply elem_of_singleton.
Defined.

(** A provider that refuses to start an authentication makes a forced one fail. *)
Definition refuse_run :=
  pam_account_authenticate_init (P := failing_provider) model_resolver "alice" "login" false true w_fail.
Definition old_session : DState :=
  Build_DState (Some (AuthSession_Success "alice@example.com")) [].

Lemma failed_init_keeps_session_witness :
  handle_request (P := failing_provider) model_resolver sample_config 1000
    (ClientRequest_PamAuthenticateInit "Alice" "login" false true) old_session w_fail
  = Ret (ClientResponse_Error, old_session) (world_of refuse_run w_fail).
Proof.
  apply (failed_init_keeps_session (P := failing_provider) model_resolver sample_config). run_refl.
Defined.

Definition passwd_run := process_etc_passwd_group model_resolver w_online.
Definition w_passwd := world_of passwd_run w_online.

Lemma passwd_excluded_witness :
  ∃ b b' users groups, parse_etc_passwd b = Some users ∧ parse_etc_group b' = Some groups.
Proof.
  destruct (passwd_excluded model_resolver w_online (Ok tt) w_passwd) as (b & b' & us & gs & H1 & H2 & _);
    [run_refl|]. eauto 10.
Defined.

(** ** What does not go as meant *)

(** The exclusion set holds names as the local files spell them, while the daemon
    looks accounts up in lower case: with the local user "Alice" excluded, a lookup of
    "Alice" is still answered with the directory's account of that name. *)
Theorem capital_local_user_resolved :
  Id_Name "Alice" ∈ w_nxset w_passwd ∧
  ∃ u s w', handle_request model_resolver sample_config 1000 (ClientRequest_NssAccountByName "Alice")
    (Build_DState None []) w_passwd = Ret (ClientResponse_NssAccount (Some u), s) w' ∧
    nu_name u = "alice".
Proof.
  split; [by apply (bool_decide_unpack (_ ∈ w_nxset w_passwd))|].
  set (run := handle_request _ _ _ _ _ _).
  exists (nss_user model_resolver sample_user), (Build_DState None []), (world_of run w_passwd).
  split; [run_refl|reflexivity].
Qed.

(** The tasks that hand a user Kerberos credentials and an access token's photo. *)
Definition provisions (t : TaskRequest) : bool :=
  match t with
  | TaskRequest_KerberosTGTs _ _ _ _ | TaskRequest_LoadProfilePhoto _ _ => true
  | _ => false
  end.

(** A login the logon script denies is provisioned all the same: the client is
    told "denied", while the credential cache and the profile photo of the user are
    still set up. *)
Theorem denied_login_provisioned :
  ∃ s w', after_success (DE := tasks_reply (Replied (TaskOutcome_Status 2))) model_resolver script_config
    "alice" (Build_DState None []) w_online
    = Ret (ClientResponse_PamAuthenticateStepResponse (PamAuthResponse_Denied LOGON_SCRIPT_DENIED), s) w' ∧
    length (List.filter provisions (tasks_sent s)) = 2%nat.
Proof.
  exists (value_of script_run (ClientResponse_Error, Build_DState None [])).2, (world_of script_run w_online).
  split; [refine (run_pair script_run w_online _ _ _ _); reflexivity|reflexivity].
Qed.
