(* ===== verification/Hello.v ===== *)
(** * Linux Hello: [src/common/src/idprovider/common.rs]

    What the two providers share: the in-memory cache of refresh tokens, the counter
    of bad PINs with its lock-out, the Hello keys sealed in the TPM, offline
    authentication with a PIN and a TOTP code, and changing the PIN. The code is a set
    of macros and two structs; a macro is a definition in the monad [HM], whose exits
    are Rust's [?], [return] and panics. The crates below (the TPM, libhimmelblau, the
    TOTP crate, serde_json) are the class [HelloOps]. *)
From stdpp Require Import base gmap strings list fin_maps.
From Stdlib Require Import ZArith Lia Ascii.
From S2P Require Import Prelude Proto Interface Db Runtime Caches Idmap Config.

Record TotpEnrollmentRecord := {
  secret_b32 : string; digits : Z; skew : Z; step : Z; issuer : string; account_name : string
}.

(** ** [String::from_utf8] *)

Definition cont_byte (x : Z) : bool := (128 <=? x) && (x <=? 191).

(** The well-formed byte sequences of Unicode, shortest forms only and without
    surrogates. *)
Fixpoint utf8_valid (l : list Z) : bool :=
  match l with
  | [] => true
  | a :: l1 =>
      if a <=? 127 then utf8_valid l1
      else
        match l1 with
        | [] => false
        | b :: l2 =>
            if (194 <=? a) && (a <=? 223) then cont_byte b && utf8_valid l2
            else
              match l2 with
              | [] => false
              | c :: l3 =>
                  if (224 <=? a) && (a <=? 239) then
                    (if a =? 224 then (160 <=? b) && (b <=? 191)
                     else if a =? 237 then (128 <=? b) && (b <=? 159) else cont_byte b)
                    && cont_byte c && utf8_valid l3
                  else
                    match l3 with
                    | [] => false
                    | d :: l4 =>
                        (240 <=? a) && (a <=? 244) &&
                        (if a =? 240 then (144 <=? b) && (b <=? 191)
                         else if a =? 244 then (128 <=? b) && (b <=? 143) else cont_byte b)
                        && cont_byte c && cont_byte d && utf8_valid l4
                    end
              end
        end
  end.

Definition string_from_utf8 (b : bytes) : option string :=
  if utf8_valid ((λ x, Z.of_N (Byte.to_N x)) <$> b) then Some (String.string_of_list_byte b) else None.

(** ** The crates below *)

Class HelloOps `{X : Ext} `{C : Crypto} : Type := {
  LoadableMsHelloKey : Type;
  StorageKey : Type;
  PinValue : Type;
  Totp : Type;
  hello_key_from_slice : bytes → option LoadableMsHelloKey;
  hello_key_to_vec : LoadableMsHelloKey → option bytes;
  sealed_from_slice : bytes → option SealedData;
  sealed_to_vec : SealedData → option bytes;
  pin_value_new : string → option PinValue;
  ms_hello_key_create : MachineKey → PinValue → Hsm → option LoadableMsHelloKey * Hsm;
  ms_hello_key_load : MachineKey → LoadableMsHelloKey → PinValue → Hsm → option StorageKey * Hsm;
  seal_data : StorageKey → bytes → Hsm → option SealedData * Hsm;
  unseal_data : StorageKey → SealedData → Hsm → option bytes * Hsm;
  seal_user_prt_with_hello_key : SealedData → LoadableMsHelloKey → string → MachineKey → Hsm →
    option SealedData * Hsm;
  unseal_user_prt_with_hello_key : SealedData → LoadableMsHelloKey → string → MachineKey → Hsm →
    option SealedData * Hsm;
  is_prt_expired : SealedData → MachineKey → nat → Hsm → option bool * Hsm;
  provision_hello_for_business_key : UnixUserToken → MachineKey → string → nat → Hsm →
    option LoadableMsHelloKey * Hsm;
  token_prt : UnixUserToken → option SealedData;
  token_refresh_token : UnixUserToken → string;
  token_spn : UnixUserToken → option string;
  record_from_str : string → option TotpEnrollmentRecord;
  record_to_string : TotpEnrollmentRecord → option string;
  secret_to_bytes : string → option bytes;
  secret_generate : nat → option bytes;
  totp_new : Z → Z → Z → bytes → string → string → option Totp;
  get_secret_base32 : Totp → string;
  check_current : Totp → string → SystemTime → option bool;
  url_encode : string → string;
  prts_to_vec : gmap string (SealedData * Z) → option bytes;
  prts_from_slice : bytes → option (gmap string (SealedData * Z))
}.

(** What the host decides: statements of the key store that fail, the host name, and
    the provider's own network operations ([delayed_init], [attempt_online]). *)
Class HelloEnv : Type := {
  key_fault : nat → bool;
  hostname : string;
  delayed_init_ok : nat → bool;
  attempt_online : nat → bool
}.

(** ** State and monad *)

Section hello.
Context {X : Ext} {C : Crypto} {HO : HelloOps} {E : Env} {HE : HelloEnv}.
Context {I : IniFile} {G : GeneratedConfig}.

(** [RefreshCache], [BadPinCounter] and the connection state of a provider. *)
Record HelloClient := {
  refresh_cache : gmap string (SealedData * SystemTime);
  refresh_token_cache : gmap string (string * SystemTime);
  counter : gmap string Z;
  state : CacheState
}.

Record HState := { h_tick : nat; h_client : HelloClient; h_keys : Keys; h_tpm : Hsm }.

(** A computation returns a value or leaves the function: with an error, with a result,
    by a panic, or never, when it waits for a lock it holds itself. *)
Inductive Exit (R : Type) :=
| Fail (e : IdpError)
| Return (r : R)
| Panic
| Hang.
Arguments Fail {R} e.
Arguments Return {R} r.
Arguments Panic {R}.
Arguments Hang {R}.

Definition HM (R A : Type) : Type := HState → (A + Exit R) * HState.

#[export] Instance HM_ret R : MRet (HM R) := λ _ a s, (inl a, s).
#[export] Instance HM_bind R : MBind (HM R) := λ _ _ k m s,
  match m s with
  | (inl a, s') => k a s'
  | (inr e, s') => (inr e, s')
  end.

Definition fail {R A} (e : IdpError) : HM R A := λ s, (inr (Fail e), s).
Definition return_ {R A} (r : R) : HM R A := λ s, (inr (Return r), s).
Definition or_fail {R A} (e : IdpError) (o : option A) : HM R A :=
  match o with Some a => mret a | None => fail e end.

(** The function's result: [None] when it does not return. *)
Definition run_hm {R} (m : HM R R) (s : HState) : option (result R IdpError) * HState :=
  match m s with
  | (inl r, s') => (Some (Ok r), s')
  | (inr (Return r), s') => (Some (Ok r), s')
  | (inr (Fail e), s') => (Some (Err e), s')
  | (inr Panic, s') | (inr Hang, s') => (None, s')
  end.

Definition get_client {R} : HM R HelloClient := λ s, (inl (h_client s), s).
Definition mod_client {R} (f : HelloClient → HelloClient) : HM R unit :=
  λ s, (inl tt, Build_HState (h_tick s) (f (h_client s)) (h_keys s) (h_tpm s)).
Definition hdraw {R A} (o : nat → A) : HM R A :=
  λ s, (inl (o (h_tick s)), Build_HState (S (h_tick s)) (h_client s) (h_keys s) (h_tpm s)).
Definition with_tpm {R A} (f : Hsm → A * Hsm) : HM R A :=
  λ s, let '(a, h) := f (h_tpm s) in (inl a, Build_HState (h_tick s) (h_client s) (h_keys s) h).
Definition system_now {R} : HM R SystemTime := hdraw clock.

(** [t + Duration::from_secs(d)] *)
Definition plus_secs {R} (t : SystemTime) (d : Z) : HM R SystemTime := λ s,
  let t' := t + d * NS in
  if t' / NS <=? i64_max then (inl t', s) else (inr Panic, s).

(** The key store: a statement that fails is an error; a value that does not parse
    reads as absent. *)
Definition ks_get {R K} (from_slice : bytes → option K) (tag : string)
  : HM R (result (option K) unit) := λ s,
  (inl (if key_fault (h_tick s) then Err tt else Ok (h_keys s !! tag ≫= from_slice)),
   Build_HState (S (h_tick s)) (h_client s) (h_keys s) (h_tpm s)).

Definition ks_insert {R K} (to_vec : K → option bytes) (tag : string) (key : K)
  : HM R (result unit unit) := λ s,
  match to_vec key with
  | None => (inl (Err tt), s)
  | Some b =>
      if key_fault (h_tick s)
      then (inl (Err tt), Build_HState (S (h_tick s)) (h_client s) (h_keys s) (h_tpm s))
      else (inl (Ok tt), Build_HState (S (h_tick s)) (h_client s) (<[tag:=b]> (h_keys s)) (h_tpm s))
  end.

Definition ks_delete {R} (tag : string) : HM R (result unit unit) := λ s,
  if key_fault (h_tick s)
  then (inl (Err tt), Build_HState (S (h_tick s)) (h_client s) (h_keys s) (h_tpm s))
  else (inl (Ok tt), Build_HState (S (h_tick s)) (h_client s) (delete tag (h_keys s)) (h_tpm s)).

(** [.map_err(|_| e)?] *)
Definition ok_or_fail {R A} (e : IdpError) (r : result A unit) : HM R A :=
  match r with Ok a => mret a | Err _ => fail e end.

(** ** [RefreshCache] *)

Inductive RefreshCacheEntry :=
| RefreshCacheEntry_Prt (prt : SealedData)
| RefreshCacheEntry_RefreshToken (token : string).

Definition PRT_REFRESH_AGE : Z := 4 * 3600.
Definition CACHE_SECS : Z := 86400.

Definition set_refresh_cache v c := Build_HelloClient v (refresh_token_cache c) (counter c) (state c).
Definition set_refresh_token_cache v c := Build_HelloClient (refresh_cache c) v (counter c) (state c).
Definition set_counter v c := Build_HelloClient (refresh_cache c) (refresh_token_cache c) v (state c).
Definition set_state v c := Build_HelloClient (refresh_cache c) (refresh_token_cache c) (counter c) v.

(** [RefreshCache::new], [BadPinCounter::new] *)
Definition hello_client_new (st : CacheState) : HelloClient := Build_HelloClient ∅ ∅ ∅ st.

(** The keys of the entries older than a day; the clock is read for each. *)
Fixpoint stale {R A} (l : list (string * (A * SystemTime))) : HM R (list string) :=
  match l with
  | [] => mret []
  | (k, (_, iat)) :: l =>
      limit ← plus_secs iat CACHE_SECS;
      t ← system_now;
      rest ← stale l;
      mret (if limit <? t then k :: rest else rest)
  end.

Definition remove_all {A} (ks : list string) (m : gmap string A) : gmap string A :=
  foldr delete m ks.

Definition purge {R} : HM R unit :=
  c ← get_client;
  remove_list ← stale (map_to_list (refresh_cache c));
  _ ← mod_client (λ c, set_refresh_cache (remove_all remove_list (refresh_cache c)) c);
  remove_list ← stale (map_to_list (refresh_token_cache c));
  mod_client (λ c, set_refresh_token_cache (remove_all remove_list (refresh_token_cache c)) c).

Definition refresh_token {R} (account_id : string) : HM R RefreshCacheEntry :=
  _ ← purge;
  c ← get_client;
  match refresh_cache c !! to_lowercase account_id with
  | Some (prt, _) => mret (RefreshCacheEntry_Prt prt)
  | None =>
      match refresh_token_cache c !! to_lowercase account_id with
      | Some (tok, _) => mret (RefreshCacheEntry_RefreshToken tok)
      | None => fail (IdpError_NotFound "account_id" "refresh_cache")
      end
  end.

(** The age in nanoseconds; [elapsed] fails for a time in the future. *)
Definition prt_age {R} (account_id : string) : HM R (option Z) :=
  c ← get_client;
  match refresh_cache c !! to_lowercase account_id with
  | Some (_, iat) => t ← system_now; mret (if iat <=? t then Some (t - iat) else None)
  | None => mret None
  end.

Definition add {R} (account_id : string) (entry : RefreshCacheEntry) : HM R unit :=
  t ← system_now;
  mod_client (λ c,
    match entry with
    | RefreshCacheEntry_Prt prt =>
        set_refresh_cache (<[to_lowercase account_id := (prt, t)]> (refresh_cache c)) c
    | RefreshCacheEntry_RefreshToken tok =>
        set_refresh_token_cache (<[to_lowercase account_id := (tok, t)]> (refresh_token_cache c)) c
    end).

Definition export_broker_prts (c : HelloClient) : option bytes :=
  prts_to_vec ((λ e, (e.1, default 0 (secs_since_epoch e.2))) <$> refresh_cache c).

Fixpoint import_entries {R} (l : list (string * (SealedData * Z))) : HM R unit :=
  match l with
  | [] => mret tt
  | (account_id, (prt, epoch_secs)) :: l =>
      iat ← plus_secs 0 epoch_secs;
      _ ← mod_client (λ c, set_refresh_cache (<[to_lowercase account_id := (prt, iat)]> (refresh_cache c)) c);
      import_entries l
  end.

(** [None] when the data does not parse. *)
Definition import_broker_prts (data : bytes) : HM (option unit) (option unit) :=
  match prts_from_slice data with
  | None => mret None
  | Some entries => _ ← import_entries (map_to_list entries); mret (Some tt)
  end.

(** ** [BadPinCounter] *)

Definition bad_pin_count (account_id : string) (c : HelloClient) : Z :=
  default 0 (counter c !! account_id).

(** The wait that follows takes time and changes nothing. *)
Definition increment_bad_pin_count {R} (account_id : string) : HM R unit :=
  mod_client (λ c, set_counter (<[account_id := wrap32 (bad_pin_count account_id c + 1)]> (counter c)) c).

Definition reset_bad_pin_count {R} (account_id : string) : HM R unit :=
  mod_client (λ c, set_counter (<[account_id := 0]> (counter c)) c).

(** ** Hello keys *)

Inductive KeyType := KeyType_Hello | KeyType_Decoupled.

Definition fetch_hello_key_tag (account_id : string) (amr_ngcmfa : bool) : string :=
  if amr_ngcmfa then to_lowercase account_id +:+ "/hello"
  else to_lowercase account_id +:+ "/hello_decoupled".
Definition fetch_hello_prt_key_tag (account_id : string) : string :=
  to_lowercase account_id +:+ "/hello_prt".
Definition fetch_hello_refresh_token_key_tag (account_id : string) : string :=
  to_lowercase account_id +:+ "/hello_refresh_token".
Definition fetch_hello_totp_key_tag (account_id : string) : string :=
  to_lowercase account_id +:+ "/hello_totp".

Definition fetch_hello_key {R} (account_id : string)
  : HM R (result (LoadableMsHelloKey * KeyType) IdpError) :=
  r ← ks_get hello_key_from_slice (to_lowercase account_id +:+ "/hello");
  match r with
  | Ok (Some hello_key) => mret (Ok (hello_key, KeyType_Hello))
  | _ =>
      r ← ks_get hello_key_from_slice (to_lowercase account_id +:+ "/hello_decoupled");
      mret (match r with
            | Ok (Some hello_key) => Ok (hello_key, KeyType_Decoupled)
            | _ => Err IdpError_BadRequest
            end)
  end.

Definition fetch_hello_key_or_fail {R} (account_id : string) : HM R (LoadableMsHelloKey * KeyType) :=
  r ← fetch_hello_key account_id;
  match r with Ok x => mret x | Err e => fail e end.

Definition ONE_MORE_MSG : string :=
  "Failed to authenticate with Hello PIN. One more failed attempt will require multi-factor authentication and resetting your Linux Hello PIN.".
Definition TOO_MANY_MSG : string :=
  "Too many incorrect PIN attempts. You will need to enroll a new Linux Hello PIN.".

Variable cfg : HimmelblauConfig.

(** [handle_hello_bad_pin_count!]: count the failure; at the limit warn, beyond it
    delete the keys. *)
Definition handle_hello_bad_pin_count {R} (account_id : string) (ret_fn : string → R) : HM R unit :=
  _ ← increment_bad_pin_count account_id;
  let hello_pin_retry_count := get_hello_pin_retry_count (config cfg) in
  c ← get_client;
  let bad := bad_pin_count account_id c in
  if bad =? hello_pin_retry_count then return_ (ret_fn ONE_MORE_MSG)
  else if hello_pin_retry_count <? bad then
    r ← ks_delete (fetch_hello_key_tag account_id true);
    _ ← ok_or_fail IdpError_Tpm r;
    r ← ks_delete (fetch_hello_key_tag account_id false);
    _ ← ok_or_fail IdpError_Tpm r;
    r ← ks_delete (fetch_hello_prt_key_tag account_id);
    _ ← ok_or_fail IdpError_Tpm r;
    r ← ks_delete (fetch_hello_refresh_token_key_tag account_id);
    _ ← ok_or_fail IdpError_Tpm r;
    return_ (ret_fn TOO_MANY_MSG)
  else mret tt.

(** [impl_offline_break_glass!] *)
Definition offline_break_glass {R} (ttl : option Z) : HM R unit :=
  let ttl := default (get_offline_breakglass_ttl (config cfg)) ttl in
  if get_offline_breakglass_enabled (config cfg) then
    t ← system_now;
    next ← plus_secs t ttl;
    mod_client (set_state (CacheState_OfflineNextCheck next))
  else mret tt.

(** [impl_check_online!] *)
Definition check_online {R} (now : SystemTime) : HM R bool :=
  c ← get_client;
  match state c with
  | CacheState_Online => mret true
  | CacheState_OfflineNextCheck at_time =>
      if at_time <=? now then hdraw attempt_online else mret false
  | CacheState_Offline => mret false
  end.

(** ** Offline authentication *)

(** [load_cached_prt!]: the Entra ID provider; the OIDC provider has no PRT. *)
Definition PRT_EXPIRED_MSG : string :=
  "Offline auth has expired. Please connect to the network to continue.".

Definition load_cached_prt (hello_key : LoadableMsHelloKey) (cred account_id : string)
  (machine_key : MachineKey) : HM AuthResult unit :=
  r ← ks_get sealed_from_slice (fetch_hello_prt_key_tag account_id);
  match r with
  | Ok (Some hello_prt) =>
      o ← with_tpm (unseal_user_prt_with_hello_key hello_prt hello_key cred machine_key);
      prt ← or_fail IdpError_Tpm o;
      n ← hdraw id;
      o ← with_tpm (is_prt_expired prt machine_key n);
      expired ← or_fail IdpError_Tpm o;
      if expired : bool then return_ (AuthResult_Denied PRT_EXPIRED_MSG)
      else add account_id (RefreshCacheEntry_Prt prt)
  | _ => mret tt
  end.

Definition load_cached_prt_no_op (_ : LoadableMsHelloKey) (_ _ : string) (_ : MachineKey)
  : HM AuthResult unit := mret tt.

(** [impl_himmelblau_offline_auth_init!]: what to ask for, given whether a Hello key
    was found and the number of bad PINs. *)
Definition offline_auth_choice (password_auth has_key no_hello_pin : bool) (bad : Z) : AuthRequest :=
  if has_key && (bad <=? get_hello_pin_retry_count (config cfg)) && negb no_hello_pin
  then AuthRequest_Pin
  else if password_auth &&
          (get_enable_sfa_fallback (config cfg) || get_offline_breakglass_enabled (config cfg))
  then AuthRequest_Password
  else AuthRequest_InitDenied "Network outage detected.".

Definition offline_auth_init {R} (password_auth : bool) (account_id : string) (no_hello_pin : bool)
  : HM R (AuthRequest * AuthCredHandler) :=
  hello_key ← fetch_hello_key account_id;
  c ← get_client;
  mret (offline_auth_choice password_auth (is_ok hello_key) no_hello_pin (bad_pin_count account_id c),
        AuthCredHandler_None).

Definition HELLO_TOTP_FAILED : string := "Failed to authenticate with Hello TOTP code.".
Definition HELLO_PIN_FAILED : string := "Failed to authenticate with Hello PIN.".
Definition HELLO_TOTP_PROMPT : string := "Please enter your Hello TOTP code from your Authenticator: ".

(** The code entered against the sealed record. *)
Definition check_totp {R} (storage_key : StorageKey) (sealed : SealedData) (cred : string) : HM R bool :=
  o ← with_tpm (unseal_data storage_key sealed);
  b ← or_fail IdpError_Tpm o;
  totp_secret ← or_fail IdpError_Tpm (string_from_utf8 b);
  record ← or_fail IdpError_Tpm (record_from_str totp_secret);
  secret ← or_fail IdpError_Tpm (secret_to_bytes (secret_b32 record));
  totp ← or_fail IdpError_Tpm (totp_new (digits record) (skew record) (step record) secret
                                 (issuer record) (account_name record));
  t ← system_now;
  or_fail IdpError_Tpm (check_current totp cred t).

(** [impl_handle_hello_pin_totp_auth!] *)
Definition handle_hello_pin_totp_auth {R} (account_id : string) (token : UserToken)
  (cred hello_pin : string) (machine_key : MachineKey) (pending_sealed_totp : option SealedData)
  (auth_cache_action : AuthResult → R) : HM R R :=
  let tag := fetch_hello_totp_key_tag account_id in
  sealed_totp_secret ←
    match pending_sealed_totp with
    | Some pending => mret pending
    | None =>
        r ← ks_get sealed_from_slice tag;
        match r with
        | Ok (Some stored) => mret stored
        | _ => fail IdpError_BadRequest
        end
    end;
  k ← fetch_hello_key_or_fail account_id;
  pin ← or_fail IdpError_Tpm (pin_value_new hello_pin);
  o ← with_tpm (ms_hello_key_load machine_key k.1 pin);
  match o with
  | Some storage_key =>
      good ← check_totp storage_key sealed_totp_secret cred;
      if good : bool then
        _ ← match pending_sealed_totp with
            | Some _ => r ← ks_insert sealed_to_vec tag sealed_totp_secret; ok_or_fail IdpError_Tpm r
            | None => mret tt
            end;
        _ ← reset_bad_pin_count account_id;
        mret (auth_cache_action (AuthResult_Success token))
      else
        _ ← handle_hello_bad_pin_count account_id (λ msg, auth_cache_action (AuthResult_Denied msg));
        mret (auth_cache_action (AuthResult_Denied HELLO_TOTP_FAILED))
  | None =>
      _ ← handle_hello_bad_pin_count account_id (λ msg, auth_cache_action (AuthResult_Denied msg));
      mret (auth_cache_action (AuthResult_Denied HELLO_TOTP_FAILED))
  end.

Definition check_hello_totp_setup {R} (account_id : string) : HM R bool :=
  r ← ks_get sealed_from_slice (fetch_hello_totp_key_tag account_id);
  mret (match r with Ok (Some _) => true | _ => false end).

Definition check_hello_totp_enabled : bool := get_enable_hello_totp (config cfg).

(** The refresh token sealed for the PIN goes to the cache. *)
Definition load_refresh_token (storage_key : StorageKey) (account_id : string) : HM AuthResult unit :=
  r ← ks_get sealed_from_slice (fetch_hello_refresh_token_key_tag account_id);
  match r with
  | Ok (Some sealed) =>
      o ← with_tpm (unseal_data storage_key sealed);
      b ← or_fail IdpError_Tpm o;
      tok ← or_fail IdpError_Tpm (string_from_utf8 b);
      add account_id (RefreshCacheEntry_RefreshToken tok)
  | _ => mret tt
  end.

(** [impl_himmelblau_offline_auth_step!]: the credential handler is only read. *)
Definition offline_pin_key
  (load_prt : LoadableMsHelloKey → string → string → MachineKey → HM AuthResult unit)
  (account_id : string) (token : UserToken) (cred : string) (machine_key : MachineKey)
  (hello_key : LoadableMsHelloKey) : HM AuthResult AuthResult :=
  pin ← or_fail IdpError_Tpm (pin_value_new cred);
  o ← with_tpm (ms_hello_key_load machine_key hello_key pin);
  match o with
  | Some storage_key =>
      _ ← load_prt hello_key cred account_id machine_key;
      _ ← load_refresh_token storage_key account_id;
      setup ← check_hello_totp_setup account_id;
      if setup && check_hello_totp_enabled then
        mret (AuthResult_Next (AuthRequest_HelloTOTP HELLO_TOTP_PROMPT))
      else
        _ ← reset_bad_pin_count account_id;
        mret (AuthResult_Success token)
  | None =>
      _ ← handle_hello_bad_pin_count account_id AuthResult_Denied;
      mret (AuthResult_Denied HELLO_PIN_FAILED)
  end.

Definition offline_pin
  (load_prt : LoadableMsHelloKey → string → string → MachineKey → HM AuthResult unit)
  (account_id : string) (token : UserToken) (cred : string) (machine_key : MachineKey)
  : HM AuthResult AuthResult :=
  k ← fetch_hello_key_or_fail account_id;
  offline_pin_key load_prt account_id token cred machine_key k.1.

Definition offline_auth_step
  (load_prt : LoadableMsHelloKey → string → string → MachineKey → HM AuthResult unit)
  (account_id : string) (token : UserToken) (cred_handler : AuthCredHandler)
  (pam_next_req : PamAuthRequest) (machine_key : MachineKey) : HM AuthResult AuthResult :=
  match cred_handler, pam_next_req with
  | _, PamAuthRequest_Pin cred => offline_pin load_prt account_id token cred machine_key
  | AuthCredHandler_HelloTOTP hello_pin pending, PamAuthRequest_HelloTOTP cred =>
      handle_hello_pin_totp_auth account_id token cred hello_pin machine_key pending id
  | _, _ => fail IdpError_BadRequest
  end.

(** ** Tokens *)

(** [impl_unix_user_access!], with the two ways to redeem a cache entry. *)
Definition unix_user_access {R} (id_ : Id) (old_token : option UserToken)
  (prt_fetch : SealedData → HM R UnixUserToken) (refresh_token_fetch : string → HM R UnixUserToken)
  : HM R UnixUserToken :=
  init ← hdraw delayed_init_ok;
  if negb init then fail IdpError_BadRequest
  else
    t ← system_now;
    online ← check_online t;
    if negb online then fail IdpError_BadRequest
    else
      let account_id := match old_token with Some token => t_spn token | None => id_to_string id_ end in
      entry ← refresh_token account_id;
      match entry with
      | RefreshCacheEntry_Prt prt => prt_fetch prt
      | RefreshCacheEntry_RefreshToken tok => refresh_token_fetch tok
      end.

(** [seal_prt_with_existing_hello_key!]: every failure is logged and left at that. *)
Definition seal_prt_with_existing_hello_key {R} (account_id : string) (token : UnixUserToken)
  (hello_key : LoadableMsHelloKey) (pin : string) (machine_key : MachineKey) : HM R unit :=
  match token_prt token with
  | Some prt =>
      o ← with_tpm (seal_user_prt_with_hello_key prt hello_key pin machine_key);
      match o with
      | Some hello_prt =>
          _ ← ks_insert sealed_to_vec (fetch_hello_prt_key_tag account_id) hello_prt; mret tt
      | None => mret tt
      end
  | None =>
      match pin_value_new pin with
      | None => mret tt
      | Some pin_val =>
          o ← with_tpm (ms_hello_key_load machine_key hello_key pin_val);
          match o with
          | None => mret tt
          | Some storage_key =>
              o ← with_tpm (seal_data storage_key (String.list_byte_of_string (token_refresh_token token)));
              match o with
              | None => mret tt
              | Some sealed_rt =>
                  _ ← ks_insert sealed_to_vec (fetch_hello_refresh_token_key_tag account_id) sealed_rt;
                  mret tt
              end
          end
      end
  end.

(** [impl_provision_or_create_hello_key!]; the OIDC provider always creates a
    decoupled key. *)
Definition create_decoupled_hello_key {R} (cred : string) (machine_key : MachineKey) (error : IdpError)
  : HM R LoadableMsHelloKey :=
  pin ← or_fail error (pin_value_new cred);
  o ← with_tpm (ms_hello_key_create machine_key pin);
  or_fail error o.

Definition provision_or_create_hello_key {R} (token : UnixUserToken) (amr_ngcmfa : bool)
  (cred : string) (machine_key : MachineKey) (error : IdpError) : HM R LoadableMsHelloKey :=
  if amr_ngcmfa then
    n ← hdraw id;
    o ← with_tpm (provision_hello_for_business_key token machine_key cred n);
    or_fail error o
  else create_decoupled_hello_key cred machine_key error.

(** [impl_change_auth_token!] *)
Definition change_auth_token {R} (account_id : string) (token : UnixUserToken)
  (amr_ngcmfa : bool) (create_hello_key : IdpError → HM R LoadableMsHelloKey) : HM R bool :=
  init ← hdraw delayed_init_ok;
  if negb init then fail IdpError_BadRequest
  else
    t ← system_now;
    online ← check_online t;
    if negb online then fail IdpError_BadRequest
    else
      let hello_tag := fetch_hello_key_tag account_id amr_ngcmfa in
      spn ← or_fail IdpError_BadRequest (token_spn token);
      if negb (String.eqb (to_lowercase account_id) (to_lowercase spn)) then fail IdpError_BadRequest
      else
        hello_key ← create_hello_key IdpError_Tpm;
        r ← ks_insert hello_key_to_vec hello_tag hello_key;
        _ ← ok_or_fail IdpError_Tpm r;
        mret true.

(** [impl_setup_hello_totp!]: the handler that waits for the first code, and the
    request shown to the user. *)
Definition setup_hello_totp {R} (account_id hello_pin : string) (machine_key : MachineKey)
  : HM R (AuthCredHandler * (AuthResult * AuthCacheAction)) :=
  let issuer_ := "Himmelblau " +:+ hostname in
  o ← hdraw secret_generate;
  secret ← or_fail IdpError_Tpm o;
  totp ← or_fail IdpError_Tpm (totp_new 6 1 30 secret issuer_ account_id);
  let b32 := get_secret_base32 totp in
  json ← or_fail IdpError_Tpm (record_to_string
    {| secret_b32 := b32; digits := 6; skew := 1; step := 30; issuer := issuer_;
       account_name := account_id |});
  pin ← or_fail IdpError_Tpm (pin_value_new hello_pin);
  k ← fetch_hello_key_or_fail account_id;
  o ← with_tpm (ms_hello_key_load machine_key k.1 pin);
  storage_key ← or_fail IdpError_Tpm o;
  o ← with_tpm (seal_data storage_key (String.list_byte_of_string json));
  sealed ← or_fail IdpError_Tpm o;
  mret (AuthCredHandler_HelloTOTP hello_pin (Some sealed),
        (AuthResult_Next (AuthRequest_HelloTOTP
           ("otpauth://totp/" +:+ url_encode issuer_ +:+ ":" +:+ url_encode account_id +:+ "?secret="
              +:+ b32 +:+ "&issuer=" +:+ url_encode issuer_ +:+ "&algorithm=SHA1&digits=6&period=30")),
         AuthCacheAction_None)).

End hello.

Arguments Fail {R} e.
Arguments Return {R} r.
Arguments Panic {R}.
Arguments Hang {R}.

(** ** A provider *)

(** The operations of a provider that talk to its directory, over the state above. *)
Class RemoteOps `{X : Ext} `{C : Crypto} : Type := {
  remote_configure_hsm_keys : MachineKey → FullCall HelloClient (result unit IdpError);
  remote_check_online : SystemTime → TpmCall HelloClient bool;
  remote_user_get : Id → option UserToken → MachineKey →
    FullCall HelloClient (result UserTokenState IdpError);
  remote_user_access : Id → list string → option UserToken → option string → option string →
    option string → MachineKey → FullCall HelloClient (result UnixUserToken IdpError);
  remote_user_tgts : Id → option UserToken → MachineKey →
    FullCall HelloClient (option KerberosCredentials * option KerberosCredentials *
                          option string * option string);
  remote_user_prt_cookie : Id → option UserToken → option string → MachineKey →
    FullCall HelloClient (result string IdpError);
  remote_change_auth_token : string → UnixUserToken → string → MachineKey →
    FullCall HelloClient (result bool IdpError);
  remote_online_auth_init : string → option UserToken → string → bool → bool → MachineKey →
    FullCall HelloClient (result (AuthRequest * AuthCredHandler) IdpError);
  remote_online_auth_step : string → UserToken → string → bool → AuthCredHandler →
    PamAuthRequest → MachineKey →
    FullCall HelloClient (AuthCredHandler * result (AuthResult * AuthCacheAction) IdpError);
  remote_offline_break_glass : option Z → PCall HelloClient (result unit IdpError);
  remote_import_broker_prts : bytes → PCall HelloClient (option unit)
}.

Section provider.
Context {X : Ext} {C : Crypto} {HO : HelloOps} {E : Env} {HE : HelloEnv}.
Context {I : IniFile} {G : GeneratedConfig} {RO : RemoteOps} {IH : Inhabited Hsm} (cfg : HimmelblauConfig).
Context (load_prt : LoadableMsHelloKey → string → string → MachineKey → HM AuthResult unit)
  (password_auth : bool).

(** A run that cannot panic, as the result of a call. *)
Definition hm_result {R} (r : option (result R IdpError)) : result R IdpError :=
  default (Err IdpError_BadRequest) r.

(** The call has no TPM at hand; the operation does not look at it. *)
Definition provider_offline_init (account_id : string) (_ : option UserToken) (no_hello_pin : bool)
  : KsCall HelloClient (result (AuthRequest * AuthCredHandler) IdpError) := λ n c k,
  let '(r, s) := run_hm (offline_auth_init cfg password_auth account_id no_hello_pin)
                   (Build_HState n c k inhabitant) in
  (hm_result r, h_client s, h_keys s).

Definition provider_offline_step (account_id : string) (token : UserToken)
  (cred_handler : AuthCredHandler) (pam_next_req : PamAuthRequest) (machine_key : MachineKey)
  (online_at_init : bool) : FullCall HelloClient (AuthCredHandler * result AuthResult IdpError) :=
  λ n c k h,
  let '(r, s) := run_hm (offline_auth_step cfg load_prt account_id token cred_handler pam_next_req
                           machine_key) (Build_HState n c k h) in
  ((cred_handler, hm_result r), h_client s, h_keys s, h_tpm s).

(** The provider: groups are not listed, the state is the stored one, and the exported
    PRTs are those of the cache. *)
Definition hello_provider : IdProvider := {|
  Client := HelloClient;
  configure_hsm_keys := remote_configure_hsm_keys;
  Runtime.check_online := remote_check_online;
  unix_user_get := remote_user_get;
  Runtime.unix_user_access := remote_user_access;
  unix_user_tgts := remote_user_tgts;
  unix_user_prt_cookie := remote_user_prt_cookie;
  prov_change_auth_token := remote_change_auth_token;
  unix_user_online_auth_init := remote_online_auth_init;
  unix_user_online_auth_step := remote_online_auth_step;
  unix_user_offline_auth_init := provider_offline_init;
  unix_user_offline_auth_step := provider_offline_step;
  unix_group_get _ := λ _ c h, (Err IdpError_BadRequest, c, h);
  prov_get_cachestate _ := λ _ c k, (state c, c, k);
  prov_offline_break_glass := remote_offline_break_glass;
  prov_export_broker_prts := λ _ c, (export_broker_prts c, c);
  prov_import_broker_prts := remote_import_broker_prts
|}.

End provider.

(** [flip_displayname_comma] *)
Definition flip_displayname_comma (name : string) : string :=
  match split_once COMMA name with
  | (left_, Some right_) => trim right_ +:+ " " +:+ trim left_
  | (_, None) => name
  end.
