(* ===== verification/HelloTheorems.v ===== *)
(** * Theorems on Linux Hello

    An offline success needs the PIN the TPM accepts and, where one is set up, the
    TOTP code; wrong PINs run into the lock-out after the configured number; the
    cache of refresh tokens forgets after a day, also across a restart. *)
From stdpp Require Import base gmap strings list fin_maps.
From Stdlib Require Import ZArith Lia Ascii.
From S2P Require Import Prelude Proto Interface Db DbSpec DbFacts Models Runtime Resolver ResolverLogic.
From S2P Require Import ResolverFacts ResolverModels ResolverTheorems.
From S2P Require Import Caches Idmap Config ConfigTheorems Hello.

Section theorems.
Context {X : Ext} {C : Crypto} {HO : HelloOps} {E : Env} {HE : HelloEnv}.
Context {I : IniFile} {G : GeneratedConfig} (cfg : HimmelblauConfig).
Implicit Types (s : HState) (mk : MachineKey).

(** ** Splitting runs *)

Lemma hm_bind_inl {R A B} (m : HM R A) (k : A → HM R B) s b s' :
  (m ≫= k) s = (inl b, s') → ∃ a s1, m s = (inl a, s1) ∧ k a s1 = (inl b, s').
Proof. unfold mbind, HM_bind. destruct (m s) as [[a|e] s1]; [|done]. eauto. Qed.

Lemma hm_bind_inr {R A B} (m : HM R A) (k : A → HM R B) s e s' :
  (m ≫= k) s = (inr e, s') →
  m s = (inr e, s') ∨ ∃ a s1, m s = (inl a, s1) ∧ k a s1 = (inr e, s').
Proof.
  unfold mbind, HM_bind. destruct (m s) as [[a|e1] s1]; [eauto|]. intros [= <- <-]. auto.
Qed.

Lemma hm_bind_run {R A B} (m : HM R A) (k : A → HM R B) s a s1 :
  m s = (inl a, s1) → (m ≫= k) s = k a s1.
Proof. unfold mbind, HM_bind. by intros ->. Qed.

Lemma or_fail_inl {R A} e (o : option A) s a s' :
  or_fail (R := R) e o s = (inl a, s') → o = Some a ∧ s' = s.
Proof. destruct o; [|done]. by intros [= -> ->]. Qed.

Lemma or_fail_return {R A} e (o : option A) s r s' : or_fail (R := R) e o s ≠ (inr (Return r), s').
Proof. by destruct o. Qed.

(** What a run may not do: hand [r] to the caller before its end. *)
Definition no_return {R A} (P : R → Prop) (m : HM R A) : Prop :=
  ∀ s r s', m s = (inr (Return r), s') → P r.

Lemma no_return_bind {R A B} (P : R → Prop) (m : HM R A) (k : A → HM R B) :
  no_return P m → (∀ a, no_return P (k a)) → no_return P (m ≫= k).
Proof. intros Hm Hk s r s' [H|(a & s1 & _ & H)]%hm_bind_inr; [by eapply Hm|by eapply Hk]. Qed.

Lemma no_return_ret {R A} (P : R → Prop) (a : A) : no_return P (mret (M := HM R) a).
Proof. by intros s r s'. Qed.

Lemma no_return_fail {R A} (P : R → Prop) e : no_return P (fail (R := R) (A := A) e).
Proof. by intros s r s'. Qed.

Lemma no_return_or_fail {R A} (P : R → Prop) e (o : option A) : no_return P (or_fail (R := R) e o).
Proof. intros s r s' H. by apply or_fail_return in H. Qed.

Lemma no_return_draw {R A} (P : R → Prop) (o : nat → A) : no_return P (hdraw (R := R) o).
Proof. by intros s r s'. Qed.

Lemma no_return_tpm {R A} (P : R → Prop) (f : Hsm → A * Hsm) : no_return P (with_tpm (R := R) f).
Proof. intros s r s'. unfold with_tpm. by destruct (f _). Qed.

Lemma no_return_get {R K} (P : R → Prop) (f : bytes → option K) tag : no_return P (ks_get (R := R) f tag).
Proof. by intros s r s'. Qed.

Lemma no_return_delete {R} (P : R → Prop) tag : no_return P (ks_delete (R := R) tag).
Proof. intros s r s'. unfold ks_delete. by case_match. Qed.

Lemma no_return_insert {R K} (P : R → Prop) (f : K → option bytes) tag k :
  no_return P (ks_insert (R := R) f tag k).
Proof. intros s r s'. unfold ks_insert. by repeat case_match. Qed.

Lemma no_return_client {R} (P : R → Prop) : no_return P (get_client (R := R)).
Proof. by intros s r s'. Qed.

Lemma no_return_mod {R} (P : R → Prop) f : no_return P (mod_client (R := R) f).
Proof. by intros s r s'. Qed.

Lemma no_return_plus {R} (P : R → Prop) t d : no_return P (plus_secs (R := R) t d).
Proof. intros s r s'. unfold plus_secs. by case_match. Qed.

Lemma no_return_return {R A} (P : R → Prop) r : P r → no_return P (return_ (A := A) r).
Proof. by intros H s r' s' [= <- <-]. Qed.

(** Operations that do not write to the key store. *)
Definition steady {R A} (m : HM R A) : Prop := ∀ s, h_keys (m s).2 = h_keys s.

Lemma steady_bind {R A B} (m : HM R A) (k : A → HM R B) :
  steady m → (∀ a, steady (k a)) → steady (m ≫= k).
Proof.
  intros Hm Hk s. unfold mbind, HM_bind. specialize (Hm s). destruct (m s) as [[a|e] s1]; simpl in *.
  - by rewrite Hk.
  - done.
Qed.

Lemma steady_ret {R A} (a : A) : steady (mret (M := HM R) a).
Proof. done. Qed.
Lemma steady_fail {R A} e : steady (fail (R := R) (A := A) e).
Proof. done. Qed.
Lemma steady_or_fail {R A} e (o : option A) : steady (or_fail (R := R) e o).
Proof. by destruct o. Qed.
Lemma steady_draw {R A} (o : nat → A) : steady (hdraw (R := R) o).
Proof. done. Qed.
Lemma steady_tpm {R A} (f : Hsm → A * Hsm) : steady (with_tpm (R := R) f).
Proof. intros s. unfold with_tpm. by destruct (f _). Qed.
Lemma steady_get {R K} (f : bytes → option K) tag : steady (ks_get (R := R) f tag).
Proof. done. Qed.
Lemma steady_client {R} : steady (get_client (R := R)).
Proof. done. Qed.
Lemma steady_mod {R} f : steady (mod_client (R := R) f).
Proof. done. Qed.
Lemma steady_plus {R} t d : steady (plus_secs (R := R) t d).
Proof. intros s. unfold plus_secs. by case_match. Qed.
Lemma steady_return {R A} r : steady (return_ (R := R) (A := A) r).
Proof. done. Qed.

(** Operations that neither panic nor hang. *)
Definition calm_run {R A} (m : HM R A) : Prop :=
  ∀ s, match (m s).1 with inr Panic | inr Hang => False | _ => True end.

Lemma calm_bind {R A B} (m : HM R A) (k : A → HM R B) :
  calm_run m → (∀ a, calm_run (k a)) → calm_run (m ≫= k).
Proof.
  intros Hm Hk s. unfold mbind, HM_bind. specialize (Hm s). by destruct (m s) as [[a|e] s1]; [apply Hk|].
Qed.

Lemma calm_ret {R A} (a : A) : calm_run (mret (M := HM R) a).
Proof. done. Qed.
Lemma calm_fail {R A} e : calm_run (fail (R := R) (A := A) e).
Proof. done. Qed.
Lemma calm_or_fail {R A} e (o : option A) : calm_run (or_fail (R := R) e o).
Proof. by destruct o. Qed.
Lemma calm_draw {R A} (o : nat → A) : calm_run (hdraw (R := R) o).
Proof. done. Qed.
Lemma calm_tpm {R A} (f : Hsm → A * Hsm) : calm_run (with_tpm (R := R) f).
Proof. intros s. unfold with_tpm. by destruct (f _). Qed.
Lemma calm_get {R K} (f : bytes → option K) tag : calm_run (ks_get (R := R) f tag).
Proof. done. Qed.
Lemma calm_delete {R} tag : calm_run (ks_delete (R := R) tag).
Proof. intros s. unfold ks_delete. by destruct (key_fault _). Qed.
Lemma calm_insert {R K} (f : K → option bytes) tag k : calm_run (ks_insert (R := R) f tag k).
Proof. intros s. unfold ks_insert. destruct (f k); [by destruct (key_fault _)|done]. Qed.
Lemma calm_client {R} : calm_run (get_client (R := R)).
Proof. done. Qed.
Lemma calm_mod {R} f : calm_run (mod_client (R := R) f).
Proof. done. Qed.
Lemma calm_return {R A} r : calm_run (return_ (R := R) (A := A) r).
Proof. done. Qed.

End theorems.

Create HintDb hello.
#[export] Hint Resolve no_return_ret no_return_fail no_return_or_fail no_return_draw no_return_tpm
  no_return_get no_return_delete no_return_insert no_return_client no_return_mod no_return_plus
  no_return_return : hello.
#[export] Hint Resolve steady_ret steady_fail steady_or_fail steady_draw steady_tpm steady_get
  steady_client steady_mod steady_plus steady_return : hello.
#[export] Hint Resolve calm_ret calm_fail calm_or_fail calm_draw calm_tpm calm_get calm_delete
  calm_insert calm_client calm_mod calm_return : hello.

(** Walk down an operation with the rule for binds. *)
Ltac hello_walk :=
  repeat first
    [ progress intros
    | solve [eauto with hello]
    | apply no_return_bind | apply steady_bind | apply calm_bind
    | progress (unfold add, system_now, ok_or_fail, increment_bad_pin_count, reset_bad_pin_count,
        fetch_hello_key, fetch_hello_key_or_fail)
    | case_match ].

(** Take a successful run of nested binds apart. *)
Ltac hello_split H :=
  repeat match type of H with
    | (_ ≫= _) _ = (inl _, _) =>
        let a := fresh "x" in let s1 := fresh "s" in let Hm := fresh "Hm" in
        apply hm_bind_inl in H as (a & s1 & Hm & H)
    end.

Section offline.
Context {X : Ext} {C : Crypto} {HO : HelloOps} {E : Env} {HE : HelloEnv}.
Context {I : IniFile} {G : GeneratedConfig} (cfg : HimmelblauConfig).
Implicit Types (s : HState) (mk : MachineKey).

(** States that differ at most in the number of steps taken. *)
Definition ticked s s' : Prop :=
  h_client s' = h_client s ∧ h_keys s' = h_keys s ∧ h_tpm s' = h_tpm s.

Lemma ks_get_inv {R K} (f : bytes → option K) tag s r s' :
  ks_get (R := R) f tag s = (inl r, s') →
  ticked s s' ∧ (∀ k, r = Ok (Some k) → h_keys s !! tag ≫= f = Some k).
Proof.
  intros [= <- <-]. split; [done|]. intros k. destruct (key_fault _); [done|]. by intros [=].
Qed.

(** A Hello key the store has for the account. *)
Definition has_hello_key s (account_id : string) (key : LoadableMsHelloKey) : Prop :=
  ∃ amr, h_keys s !! fetch_hello_key_tag account_id amr ≫= hello_key_from_slice = Some key.

Lemma fetch_inv {R} account_id s k s' :
  fetch_hello_key_or_fail (R := R) account_id s = (inl k, s') →
  ticked s s' ∧ has_hello_key s account_id k.1.
Proof.
  unfold fetch_hello_key_or_fail, fetch_hello_key. intros H. hello_split H. hello_split Hm.
  apply ks_get_inv in Hm0 as [(T1 & T2 & T3) Hk].
  destruct x as [[key kt]|e]; [|done]. injection H as <- <-.
  destruct x0 as [[key0|]|[]].
  - injection Hm as <- <- <-. split; [by split_and!|]. exists true. by apply Hk.
  - hello_split Hm. apply ks_get_inv in Hm0 as [(U1 & U2 & U3) Hk'].
    destruct x as [[key1|]|[]]; try done. injection Hm as <- <- <-.
    split; [split_and!; congruence|]. exists false. rewrite <- T2. by apply Hk'.
  - hello_split Hm. apply ks_get_inv in Hm0 as [(U1 & U2 & U3) Hk'].
    destruct x as [[key1|]|[]]; try done. injection Hm as <- <- <-.
    split; [split_and!; congruence|]. exists false. rewrite <- T2. by apply Hk'.
Qed.

Definition not_success (r : AuthResult) : Prop := ∀ tok, r ≠ AuthResult_Success tok.

Lemma denied_not_success msg : not_success (AuthResult_Denied msg).
Proof. by intros tok. Qed.

(** The two ways the providers load a PRT do not end an authentication in success and
    do not write to the key store. *)
Definition quiet_prt
  (load_prt : LoadableMsHelloKey → string → string → MachineKey → HM AuthResult unit) : Prop :=
  ∀ k cred a mk, no_return not_success (load_prt k cred a mk) ∧ steady (load_prt k cred a mk).

#[local] Hint Resolve denied_not_success : hello.

Lemma quiet_load_cached_prt : quiet_prt load_cached_prt.
Proof. intros k cred a mk. split; unfold load_cached_prt; hello_walk. Qed.

Lemma quiet_load_cached_prt_no_op : quiet_prt load_cached_prt_no_op.
Proof. intros k cred a mk. split; unfold load_cached_prt_no_op; hello_walk. Qed.

Lemma bad_pin_no_return {R} a (P : R → Prop) f :
  (∀ msg, P (f msg)) → no_return P (handle_hello_bad_pin_count cfg a f).
Proof. intros Hf. unfold handle_hello_bad_pin_count. hello_walk. Qed.

Lemma load_refresh_no_return P sk a : no_return P (load_refresh_token sk a).
Proof. unfold load_refresh_token. hello_walk. Qed.

Lemma load_refresh_steady sk a : steady (load_refresh_token sk a).
Proof. unfold load_refresh_token. hello_walk. Qed.

Lemma fetch_steady {R} a : steady (fetch_hello_key_or_fail (R := R) a).
Proof. hello_walk. Qed.

(** A step of a run that leaves the key store alone. *)
Lemma steady_inv {R A} (m : HM R A) s a s' : steady m → m s = (inl a, s') → h_keys s' = h_keys s.
Proof. intros Hm Hr. by rewrite <- (Hm s), Hr. Qed.

Lemma totp_setup_no_return {R} (P : R → Prop) a : no_return P (check_hello_totp_setup a).
Proof. unfold check_hello_totp_setup. hello_walk. Qed.

Lemma check_totp_no_return {R} (P : R → Prop) sk b cred : no_return P (check_totp sk b cred).
Proof. unfold check_totp. hello_walk. Qed.

#[local] Hint Resolve bad_pin_no_return load_refresh_no_return totp_setup_no_return
  check_totp_no_return : hello.

(** The TPM accepts the PIN [cred] for a Hello key of the account. *)
Definition pin_accepted s (account_id cred : string) mk (sk : StorageKey) : Prop :=
  ∃ key pin, has_hello_key s account_id key ∧ pin_value_new cred = Some pin ∧
    (ms_hello_key_load mk key pin (h_tpm s)).1 = Some sk.

(** A run that reports success reached its end. *)
Lemma success_at_end {m : HM AuthResult AuthResult} s tok s' :
  no_return not_success m → run_hm m s = (Some (Ok (AuthResult_Success tok)), s') →
  m s = (inl (AuthResult_Success tok), s').
Proof.
  intros Hm. unfold run_hm. destruct (m s) as [[r|[e|r| |]] s1] eqn:Em; try done.
  - by intros [= -> ->].
  - intros [= -> ->]. destruct (Hm _ _ _ Em tok eq_refl).
Qed.

Lemma pin_accepted_intro {R} account_id cred mk s k s1 pin s2 s3 o s4 sk :
  fetch_hello_key_or_fail (R := R) account_id s = (inl k, s1) →
  or_fail (R := R) IdpError_Tpm (pin_value_new cred) s1 = (inl pin, s2) →
  with_tpm (R := R) (ms_hello_key_load mk k.1 pin) s3 = (inl o, s4) → s3 = s2 → o = Some sk →
  pin_accepted s account_id cred mk sk.
Proof.
  intros [(T1 & T2 & T3) Hk]%fetch_inv [Hp ->]%or_fail_inl Ht -> ->. exists k.1, pin.
  split; [done|]. split; [done|]. unfold with_tpm in Ht. rewrite T3 in Ht.
  destruct (ms_hello_key_load _ _ _ _). by injection Ht as ->.
Qed.

Lemma offline_pin_no_return load_prt a tok cred mk :
  quiet_prt load_prt → no_return not_success (offline_pin cfg load_prt a tok cred mk).
Proof.
  intros Hq. unfold offline_pin, offline_pin_key.
  apply no_return_bind; [hello_walk|]. intros k.
  apply no_return_bind; [hello_walk|]. intros pin. apply no_return_bind; [hello_walk|].
  intros [sk|]; [apply no_return_bind; [apply Hq|]|]; hello_walk.
Qed.

Lemma totp_auth_no_return a tok cred hp mk pend :
  no_return not_success (handle_hello_pin_totp_auth cfg a tok cred hp mk pend id).
Proof. unfold handle_hello_pin_totp_auth. hello_walk. Qed.

(** The code [code] shown after the PIN [hp]: the TPM of [s] accepts the PIN for a Hello key of
    the account, and the secret that key opens, the one pending in the session or else the one
    stored for the account, accepts the code at the moment [n]. *)
Definition code_accepted (R : Type) s (a hp : string) mk (pending : option SealedData) (code : string)
  (n : nat) : Prop :=
  ∃ key pin sk tpm sealed, has_hello_key s a key ∧ pin_value_new hp = Some pin ∧
    ms_hello_key_load mk key pin (h_tpm s) = (Some sk, tpm) ∧
    (pending = Some sealed ∨
     pending = None ∧ h_keys s !! fetch_hello_totp_key_tag a ≫= sealed_from_slice = Some sealed) ∧
    (check_totp (R := R) sk sealed code (Build_HState n (h_client s) (h_keys s) tpm)).1 = inl true.

Lemma fetch_tick {R} a s k s' :
  fetch_hello_key_or_fail (R := R) a s = (inl k, s') → (h_tick s ≤ h_tick s')%nat.
Proof.
  unfold fetch_hello_key_or_fail, fetch_hello_key. intros H. hello_split H. hello_split Hm.
  destruct x as [y|]; [|done]. injection H as <- <-.
  injection Hm0 as _ <-. destruct x0 as [[]|[]]; [injection Hm as _ <-; simpl; lia|..];
    hello_split Hm; injection Hm0 as _ <-; destruct x as [[]|[]]; injection Hm as _ <-; simpl; lia.
Qed.

Lemma check_totp_tick {R} sk sealed code s r s' :
  check_totp (R := R) sk sealed code s = (inl r, s') → h_tick s' = S (h_tick s).
Proof.
  unfold check_totp. intros H. hello_split H. unfold with_tpm in Hm. destruct (unseal_data _ _ _).
  repeat match goal with Hk : or_fail _ _ _ = _ |- _ => apply or_fail_inl in Hk as [_ ->] end.
  injection Hm as _ <-. by injection Hm5 as _ <-.
Qed.

(** What the code after the PIN shows. *)
Lemma totp_auth_checked {R} a token cred hp mk pending (f : AuthResult → R) s r s' :
  handle_hello_pin_totp_auth cfg a token cred hp mk pending f s = (inl r, s') →
  r = f (AuthResult_Denied HELLO_TOTP_FAILED) ∨
  r = f (AuthResult_Success token) ∧
    ∃ n, (h_tick s ≤ n < h_tick s')%nat ∧ code_accepted R s a hp mk pending cred n.
Proof.
  intros Hr. unfold handle_hello_pin_totp_auth in Hr. hello_split Hr.
  assert (ticked s s0 ∧ (h_tick s ≤ h_tick s0)%nat ∧ (pending = Some x ∨
    pending = None ∧ h_keys s !! fetch_hello_totp_key_tag a ≫= sealed_from_slice = Some x))
    as ((T1 & T2 & T3) & Hn0 & Hsealed).
  { destruct pending; [injection Hm as <- <-; split_and!; try done; by left|]. hello_split Hm.
    pose proof Hm3 as [= _ Hs3]. apply ks_get_inv in Hm3 as [T Hk].
    destruct x3 as [[]|]; [injection Hm as <- <-|done..].
    split; [done|]. split; [rewrite <- Hs3; simpl; lia|]. right. split; [done|]. by apply Hk. }
  destruct x2 as [sk|]; [|hello_split Hr; injection Hr as <- <-; by left]. hello_split Hr.
  destruct x2; [|hello_split Hr; injection Hr as <- <-; by left]. hello_split Hr. injection Hr as <- <-. right.
  split; [done|]. pose proof (fetch_tick _ _ _ _ Hm0) as Hn1. pose proof (check_totp_tick _ _ _ _ _ _ Hm3) as Hn2.
  apply fetch_inv in Hm0 as [(U1 & U2 & U3) Hk]. apply or_fail_inl in Hm1 as [Hp ->].
  unfold with_tpm in Hm2. destruct (ms_hello_key_load _ _ _ _) as [o tpm] eqn:El. injection Hm2 as -> <-.
  exists (h_tick s1). split.
  { assert (h_tick s4 ≤ h_tick s5)%nat as Hn3.
    { destruct pending; [|injection Hm4 as _ <-; lia]. hello_split Hm4. unfold ks_insert in Hm0.
      destruct x4; [injection Hm4 as _ <-|done].
      destruct (sealed_to_vec x); [|done]. destruct (key_fault _); [done|]. injection Hm0 as _ <-. simpl. lia. }
    injection Hm5 as _ <-. simpl in *. lia. }
  exists x0.1, x1, sk, tpm, x. split_and!; try done.
  - destruct Hk as [amr Hk]. exists amr. by rewrite <- T2.
  - by rewrite <- T3, <- U3.
  - rewrite <- T1, <- U1, <- T2, <- U2. simpl in Hm3. by rewrite Hm3.
Qed.

Lemma code_accepted_pin {R} s a hp mk pending code n :
  code_accepted R s a hp mk pending code n → ∃ sk, pin_accepted s a hp mk sk.
Proof.
  intros (key & pin & sk & tpm & sealed & Hk & Hp & Hl & _). exists sk, key, pin. by rewrite Hl.
Qed.

Lemma totp_auth_inv {R} a token cred hp mk pending (f : AuthResult → R) s r s' :
  handle_hello_pin_totp_auth cfg a token cred hp mk pending f s = (inl r, s') →
  r = f (AuthResult_Denied HELLO_TOTP_FAILED) ∨
  r = f (AuthResult_Success token) ∧ ∃ sk sealed s1 s2, pin_accepted s a hp mk sk ∧
    (pending = Some sealed ∨ h_keys s !! fetch_hello_totp_key_tag a ≫= sealed_from_slice = Some sealed) ∧
    check_totp (R := R) sk sealed cred s1 = (inl true, s2).
Proof.
  intros [?|(-> & n & _ & key & pin & sk & tpm & sealed & Hk & Hp & Hl & Hd & Hc)]%totp_auth_checked;
    [by left|right]. split; [done|]. destruct (check_totp _ _ _ _) as [o s2] eqn:Ec in Hc. simpl in Hc. subst o.
  exists sk, sealed. do 2 eexists. split_and!; [|naive_solver|exact Ec]. exists key, pin. by rewrite Hl.
Qed.

(** When a PIN is enough without a code: TOTP is switched off, or the store has no TOTP record
    for the account that can be read, or the key store failed when the record was looked up,
    which is the last moment before the run ends in [s']. *)
Definition code_not_asked s (a : string) s' : Prop :=
  check_hello_totp_enabled cfg = false ∨
  h_keys s !! fetch_hello_totp_key_tag a ≫= sealed_from_slice = None ∨
  key_fault (pred (h_tick s')) = true.

Lemma offline_pin_success load_prt a token cred mk s tok s' :
  quiet_prt load_prt →
  offline_pin cfg load_prt a token cred mk s = (inl (AuthResult_Success tok), s') →
  tok = token ∧ (∃ sk, pin_accepted s a cred mk sk) ∧ code_not_asked s a s'.
Proof.
  intros Hq Hr. unfold offline_pin, offline_pin_key in Hr. hello_split Hr.
  destruct x1 as [sk|]; [|by hello_split Hr].
  hello_split Hr. destruct (x3 && check_hello_totp_enabled cfg) eqn:Et; [done|].
  hello_split Hr. injection Hr as <- <-. split; [done|]. split; [exists sk; by eapply pin_accepted_intro|].
  apply andb_false_iff in Et as [->|Et]; [right|by left].
  unfold check_hello_totp_setup in Hm4. hello_split Hm4. injection Hm6 as <- <-.
  injection Hm4 as Hx <-. injection Hm5 as _ <-. simpl. destruct (key_fault (h_tick s4)); [by right|left].
  rewrite <- (steady_inv _ _ _ _ (fetch_steady _) Hm), <- (steady_inv _ _ _ _ (steady_or_fail _ _) Hm0),
    <- (steady_inv _ _ _ _ (steady_tpm _) Hm1), <- (steady_inv _ _ _ _ (proj2 (Hq _ _ _ _)) Hm2),
    <- (steady_inv _ _ _ _ (load_refresh_steady _ _) Hm3). by case_match.
Qed.

Lemma offline_success load_prt a token ch req mk s tok s' :
  quiet_prt load_prt →
  run_hm (offline_auth_step cfg load_prt a token ch req mk) s
    = (Some (Ok (AuthResult_Success tok)), s') →
  tok = token ∧
  ((∃ cred sk, req = PamAuthRequest_Pin cred ∧ pin_accepted s a cred mk sk ∧ code_not_asked s a s') ∨
   (∃ code hp pending n, req = PamAuthRequest_HelloTOTP code ∧ ch = AuthCredHandler_HelloTOTP hp pending ∧
      (h_tick s ≤ n < h_tick s')%nat ∧ code_accepted AuthResult s a hp mk pending code n)).
Proof.
  intros Hq Hr.
  assert (no_return not_success (offline_auth_step cfg load_prt a token ch req mk)) as Hn.
  { unfold offline_auth_step. pose proof (offline_pin_no_return load_prt a token).
    pose proof (totp_auth_no_return a token). destruct ch, req; hello_walk. }
  apply (success_at_end s tok s' Hn) in Hr. clear Hn.
  assert (∀ cred, req = PamAuthRequest_Pin cred →
    offline_pin cfg load_prt a token cred mk s = (inl (AuthResult_Success tok), s') →
    tok = token ∧ ∃ cred sk, req = PamAuthRequest_Pin cred ∧ pin_accepted s a cred mk sk ∧ code_not_asked s a s')
    as Hpin.
  { intros cred -> (-> & [sk H] & H')%offline_pin_success; [|done]. split; [done|]. by exists cred, sk. }
  unfold offline_auth_step in Hr. destruct ch, req; try done;
    try (destruct (Hpin _ eq_refl Hr) as [-> ?]; split; [done|]; by left).
  apply totp_auth_checked in Hr as [?|(Hs & n & Hn & Hc)]; [done|].
  injection Hs as <-. split; [done|]. right. by do 4 eexists.
Qed.

(** C20. Offline, Linux Hello reports success only for the token it was asked about,
    and only on one of two grounds. The step carried a PIN which the TPM accepts for a
    Hello key stored for the account, and no code was asked for: TOTP is off, no TOTP
    record of the account can be read, or the key store failed at the look-up of the
    record, which is the last thing the run does; an error there counts as no record.
    Or the step carried a code, the session held a PIN which the TPM accepts for a
    Hello key of the account, and the TOTP secret that key unseals accepts the code at
    a moment of the run. *)
Theorem offline_success_needs_pin load_prt a token ch req mk s tok s' :
  quiet_prt load_prt →
  run_hm (offline_auth_step cfg load_prt a token ch req mk) s
    = (Some (Ok (AuthResult_Success tok)), s') →
  tok = token ∧
  ((∃ cred sk, req = PamAuthRequest_Pin cred ∧ pin_accepted s a cred mk sk ∧ code_not_asked s a s') ∨
   (∃ code hp pending n, req = PamAuthRequest_HelloTOTP code ∧ ch = AuthCredHandler_HelloTOTP hp pending ∧
      (h_tick s ≤ n < h_tick s')%nat ∧ code_accepted AuthResult s a hp mk pending code n)).
Proof. apply offline_success. Qed.

(** ** The lock-out *)

(** The key an attempt is checked against, when the key store works. *)
Definition first_key (ks : Keys) (a : string) : option LoadableMsHelloKey :=
  match ks !! fetch_hello_key_tag a true ≫= hello_key_from_slice with
  | Some k => Some k
  | None => ks !! fetch_hello_key_tag a false ≫= hello_key_from_slice
  end.

(** The keys left after too many wrong PINs. *)
Definition locked_keys (a : string) (ks : Keys) : Keys :=
  delete (fetch_hello_refresh_token_key_tag a) (delete (fetch_hello_prt_key_tag a)
    (delete (fetch_hello_key_tag a false) (delete (fetch_hello_key_tag a true) ks))).

Lemma first_key_locked a ks : first_key (locked_keys a ks) a = None.
Proof.
  unfold first_key, locked_keys.
  assert (∀ t, t = fetch_hello_key_tag a true ∨ t = fetch_hello_key_tag a false →
    delete (fetch_hello_refresh_token_key_tag a) (delete (fetch_hello_prt_key_tag a)
      (delete (fetch_hello_key_tag a false) (delete (fetch_hello_key_tag a true) ks))) !! t = None) as Hd.
  { intros t Ht. rewrite !lookup_delete_None. naive_solver. }
  by rewrite !Hd by auto.
Qed.

(** What the [n]-th wrong PIN since the last success is answered. *)
Definition wrong_pin_answer (n : Z) : result AuthResult IdpError :=
  let retry := get_hello_pin_retry_count (config cfg) in
  if n <? retry then Ok (AuthResult_Denied HELLO_PIN_FAILED)
  else if n =? retry then Ok (AuthResult_Denied ONE_MORE_MSG)
  else if n =? retry + 1 then Ok (AuthResult_Denied TOO_MANY_MSG)
  else Err IdpError_BadRequest.

(** A run whose first part is known. *)
Lemma run_bind {A} (m : HM AuthResult A) (k : A → HM AuthResult AuthResult) s r s1 :
  m s = (r, s1) →
  run_hm (m ≫= k) s =
  match r with
  | inl a => run_hm (k a) s1
  | inr (Return x) => (Some (Ok x), s1)
  | inr (Fail e) => (Some (Err e), s1)
  | inr Panic | inr Hang => (None, s1)
  end.
Proof. intros Hm. unfold run_hm, mbind, HM_bind. rewrite Hm. by destruct r as [|[]]. Qed.

Section lockout.
Context (Hks : ∀ n, key_fault n = false).
Context (load_prt : LoadableMsHelloKey → string → string → MachineKey → HM AuthResult unit).
Context (a : string) (token : UserToken) (mk : MachineKey).

Lemma ks_get_run {R K} (f : bytes → option K) tag s :
  ks_get (R := R) f tag s =
  (inl (Ok (h_keys s !! tag ≫= f)), Build_HState (S (h_tick s)) (h_client s) (h_keys s) (h_tpm s)).
Proof. unfold ks_get. by rewrite Hks. Qed.

Lemma fetch_key_run {R} s :
  ∃ n kt, fetch_hello_key (R := R) a s =
    (inl (match first_key (h_keys s) a with
          | Some k => Ok (k, kt)
          | None => Err IdpError_BadRequest
          end), Build_HState n (h_client s) (h_keys s) (h_tpm s)).
Proof.
  unfold fetch_hello_key, first_key. rewrite (hm_bind_run _ _ _ _ _ (ks_get_run _ _ _)).
  fold (fetch_hello_key_tag a true) (fetch_hello_key_tag a false).
  change (to_lowercase a +:+ "/hello") with (fetch_hello_key_tag a true).
  change (to_lowercase a +:+ "/hello_decoupled") with (fetch_hello_key_tag a false).
  destruct (h_keys s !! fetch_hello_key_tag a true ≫= _); [by do 2 eexists|].
  rewrite (hm_bind_run _ _ _ _ _ (ks_get_run _ _ _)). simpl h_keys.
  destruct (h_keys s !! fetch_hello_key_tag a false ≫= _); [by do 2 eexists|].
  eexists _, KeyType_Hello. done.
Qed.

Lemma fetch_run {R} s :
  ∃ n kt, fetch_hello_key_or_fail (R := R) a s =
    (match first_key (h_keys s) a with
     | Some k => inl (k, kt)
     | None => inr (Fail IdpError_BadRequest)
     end, Build_HState n (h_client s) (h_keys s) (h_tpm s)).
Proof.
  destruct (fetch_key_run (R := R) s) as (n & kt & Hn). exists n, kt.
  unfold fetch_hello_key_or_fail. rewrite (hm_bind_run _ _ _ _ _ Hn). by destruct (first_key _ _).
Qed.

Lemma bad_pin_run {R} (f : string → R) s n :
  bad_pin_count a (h_client s) = n → 0 ≤ n < u32_max →
  let retry := get_hello_pin_retry_count (config cfg) in
  ∃ t cl, bad_pin_count a cl = n + 1 ∧
  handle_hello_bad_pin_count cfg a f s =
    (if n + 1 =? retry then inr (Return (f ONE_MORE_MSG))
     else if retry <? n + 1 then inr (Return (f TOO_MANY_MSG)) else inl tt,
     Build_HState t cl
       (if retry <? n + 1 then locked_keys a (h_keys s) else h_keys s) (h_tpm s)).
Proof.
  intros Hn Hb retry. unfold handle_hello_bad_pin_count.
  unfold mbind at 1, HM_bind at 1, increment_bad_pin_count, mod_client.
  set (cl := set_counter _ _). assert (bad_pin_count a cl = n + 1) as Hc.
  { unfold cl, bad_pin_count, set_counter. simpl. rewrite lookup_insert_eq. simpl.
    fold (bad_pin_count a (h_client s)). rewrite Hn. unfold wrap32. rewrite Z.mod_small; [done|].
    unfold u32_max in Hb. lia. }
  unfold mbind at 1, HM_bind at 1, get_client. simpl. rewrite Hc. fold retry.
  destruct (Z.eqb_spec (n + 1) retry) as [Eq|Ne].
  - rewrite (proj2 (Z.ltb_ge retry (n + 1))) by lia. eauto.
  - destruct (retry <? n + 1); [|eauto].
    unfold mbind, HM_bind, ks_delete. rewrite !Hks. simpl. rewrite !Hks. simpl. rewrite !Hks. simpl.
    rewrite !Hks. simpl. eauto.
Qed.

Lemma wrong_pin_key cred pin key s n :
  pin_value_new cred = Some pin → (∀ h, (ms_hello_key_load mk key pin h).1 = None) →
  bad_pin_count a (h_client s) = n → 0 ≤ n < u32_max →
  ∃ s', run_hm (offline_pin_key cfg load_prt a token cred mk key) s
      = (Some (if get_hello_pin_retry_count (config cfg) <? n + 1
               then Ok (AuthResult_Denied TOO_MANY_MSG) else wrong_pin_answer (n + 1)), s') ∧
    bad_pin_count a (h_client s') = n + 1 ∧
    h_keys s' = (if get_hello_pin_retry_count (config cfg) <? n + 1
                 then locked_keys a (h_keys s) else h_keys s).
Proof.
  intros Hp Hrej Hn Hb. unfold offline_pin_key, run_hm. rewrite Hp.
  unfold or_fail, mbind at 1, HM_bind at 1, mret, HM_ret, with_tpm. unfold mbind at 1, HM_bind at 1.
  specialize (Hrej (h_tpm s)).
  destruct (ms_hello_key_load mk key pin (h_tpm s)) as [o h]. simpl in Hrej. subst o.
  unfold mbind at 1, HM_bind at 1.
  destruct (bad_pin_run AuthResult_Denied (Build_HState (h_tick s) (h_client s) (h_keys s) h) n Hn Hb)
    as (t' & cl & Hc & ->). simpl. unfold wrong_pin_answer.
  destruct (Z.eqb_spec (n + 1) (get_hello_pin_retry_count (config cfg))) as [Eq|Ne].
  - rewrite Eq, Z.ltb_irrefl. eexists. split; [done|]. split; [simpl; lia|done].
  - destruct (Z.ltb_spec (get_hello_pin_retry_count (config cfg)) (n + 1)); [by eexists|].
    rewrite (proj2 (Z.ltb_lt (n + 1) _)) by lia. by eexists.
Qed.

(** One wrong PIN while there is a key. *)
Lemma wrong_pin_step ch cred pin key s n :
  first_key (h_keys s) a = Some key → pin_value_new cred = Some pin →
  (∀ h, (ms_hello_key_load mk key pin h).1 = None) →
  bad_pin_count a (h_client s) = n → 0 ≤ n < u32_max →
  ∃ s', run_hm (offline_auth_step cfg load_prt a token ch (PamAuthRequest_Pin cred) mk) s
      = (Some (if get_hello_pin_retry_count (config cfg) <? n + 1
               then Ok (AuthResult_Denied TOO_MANY_MSG) else wrong_pin_answer (n + 1)), s') ∧
    bad_pin_count a (h_client s') = n + 1 ∧
    h_keys s' = (if get_hello_pin_retry_count (config cfg) <? n + 1
                 then locked_keys a (h_keys s) else h_keys s).
Proof.
  intros Hk Hp Hrej Hn Hb.
  replace (offline_auth_step cfg load_prt a token ch (PamAuthRequest_Pin cred) mk)
    with (offline_pin cfg load_prt a token cred mk) by (by destruct ch).
  unfold offline_pin. destruct (fetch_run (R := AuthResult) s) as (t & kt & Hf).
  rewrite (run_bind _ _ _ _ _ Hf), Hk. by apply (wrong_pin_key _ pin _ (Build_HState t _ _ _)).
Qed.

Lemma locked_pin_step ch cred s :
  first_key (h_keys s) a = None →
  ∃ s', run_hm (offline_auth_step cfg load_prt a token ch (PamAuthRequest_Pin cred) mk) s
      = (Some (Err IdpError_BadRequest), s') ∧ h_keys s' = h_keys s.
Proof.
  intros Hk. replace (offline_auth_step cfg load_prt a token ch (PamAuthRequest_Pin cred) mk)
    with (offline_pin cfg load_prt a token cred mk) by (by destruct ch).
  unfold offline_pin. destruct (fetch_run (R := AuthResult) s) as (t & kt & Hf).
  rewrite (run_bind _ _ _ _ _ Hf), Hk. by eexists.
Qed.

(** PINs tried one after the other, the handler staying as it is. *)
Fixpoint pin_attempts (ch : AuthCredHandler) (pins : list string) (s : HState)
  : list (option (result AuthResult IdpError)) * HState :=
  match pins with
  | [] => ([], s)
  | cred :: pins =>
      let '(r, s1) := run_hm (offline_auth_step cfg load_prt a token ch (PamAuthRequest_Pin cred) mk) s in
      let '(rs, s2) := pin_attempts ch pins s1 in
      (r :: rs, s2)
  end.

Definition retries : Z := get_hello_pin_retry_count (config cfg).

(** The TPM rejects the PIN for the key, whatever its state. *)
Definition pin_rejected (key : LoadableMsHelloKey) (cred : string) : Prop :=
  ∃ pin, pin_value_new cred = Some pin ∧ ∀ h, (ms_hello_key_load mk key pin h).1 = None.

Lemma wrong_pins_from ch key pins s n :
  0 ≤ n → retries + 1 < u32_max → Forall (pin_rejected key) pins →
  (n ≤ retries → first_key (h_keys s) a = Some key ∧ bad_pin_count a (h_client s) = n) →
  (retries < n → first_key (h_keys s) a = None) →
  (pin_attempts ch pins s).1 = imap (λ i _, Some (wrong_pin_answer (n + 1 + Z.of_nat i))) pins ∧
  h_keys (pin_attempts ch pins s).2 =
    (if (n <=? retries) && (retries <? n + Z.of_nat (length pins))
     then locked_keys a (h_keys s) else h_keys s).
Proof.
  intros Hn Hr Hp. revert s n Hn. induction Hp as [|cred pins (pin & Hpin & Hrej) Hp IH];
    intros s n Hn Hopen Hlock.
  { simpl. rewrite Z.add_0_r. split; [done|].
    destruct (Z.leb_spec n retries), (Z.ltb_spec retries n); simpl; try done; lia. }
  cbn [pin_attempts imap length]. fold retries in *.
  assert (∀ i, n + 1 + Z.of_nat (S i) = n + 1 + 1 + Z.of_nat i) as Hi by lia.
  destruct (Z.leb_spec n retries) as [Hle|Hgt].
  - destruct (Hopen Hle) as [Hk Hc].
    destruct (wrong_pin_step ch cred pin key s n Hk Hpin Hrej Hc) as (s1 & -> & Hc1 & Hk1); [lia|].
    fold retries in *.
    destruct (IH s1 (n + 1)) as [IH1 IH2]; [lia| | |].
    + intros Hle1. rewrite Hk1, (proj2 (Z.ltb_ge retries (n + 1))) by lia. done.
    + intros Hgt1. rewrite Hk1, (proj2 (Z.ltb_lt retries (n + 1))) by lia. apply first_key_locked.
    + destruct (pin_attempts ch pins s1) as [rs s2]. simpl in *. rewrite IH1, IH2, Hk1. split.
      * f_equal.
        -- f_equal. rewrite Z.add_0_r. destruct (Z.ltb_spec retries (n + 1)); [|done].
           unfold wrong_pin_answer. fold retries. assert (n + 1 = retries + 1) as -> by lia.
           rewrite (proj2 (Z.ltb_ge _ _)), (proj2 (Z.eqb_neq _ _)), Z.eqb_refl by lia. done.
        -- apply imap_ext. intros i x _. simpl. by rewrite Hi.
      * destruct (Z.ltb_spec retries (n + 1)), (Z.leb_spec (n + 1) retries); simpl; try lia.
        -- rewrite (proj2 (Z.ltb_lt _ _)) by lia. done.
        -- replace (n + Z.of_nat (S (length pins))) with (n + 1 + Z.of_nat (length pins)) by lia. done.
  - destruct (locked_pin_step ch cred s (Hlock Hgt)) as (s1 & -> & Hk1).
    destruct (IH s1 (n + 1)) as [IH1 IH2]; [lia|lia| |].
    + intros _. rewrite Hk1. by apply Hlock.
    + destruct (pin_attempts ch pins s1) as [rs s2]. simpl in *. rewrite IH1, IH2, Hk1.
      rewrite (proj2 (Z.leb_gt (n + 1) retries)) by lia. split; [|done]. f_equal.
      * f_equal. unfold wrong_pin_answer. fold retries. rewrite Z.add_0_r.
        rewrite (proj2 (Z.ltb_ge _ _)), !(proj2 (Z.eqb_neq _ _)) by lia. done.
      * apply imap_ext. intros i x _. simpl. by rewrite Hi.
Qed.

End lockout.

(** C19. Guessing PINs offline runs into the lock-out: from a fresh counter, the
    wrong PINs numbered below the configured retry count are denied, the one that
    reaches it is denied with a warning, the next one is denied and removes the
    account's Hello keys with the tokens sealed for them, and every later attempt is
    refused without asking the TPM. No other key of the store is touched. *)
Theorem wrong_pins_locked_out load_prt a token mk ch key pins s :
  (∀ n, key_fault n = false) → 0 ≤ retries → retries + 1 < u32_max →
  first_key (h_keys s) a = Some key → bad_pin_count a (h_client s) = 0 →
  Forall (pin_rejected mk key) pins →
  (pin_attempts load_prt a token mk ch pins s).1
    = imap (λ i _, Some (wrong_pin_answer (1 + Z.of_nat i))) pins ∧
  h_keys (pin_attempts load_prt a token mk ch pins s).2 =
    (if retries <? Z.of_nat (length pins) then locked_keys a (h_keys s) else h_keys s).
Proof.
  intros Hks H0 Hr Hk Hc Hp.
  destruct (wrong_pins_from Hks load_prt a token mk ch key pins s 0) as [H1 H2]; try done; [lia|].
  rewrite H1, H2. rewrite (proj2 (Z.leb_le 0 retries)) by done. done.
Qed.

(** The TOTP record of an account survives the lock-out that removes the Hello keys it
    was sealed with. *)
Lemma lockout_keeps_totp a ks :
  locked_keys a ks !! fetch_hello_totp_key_tag a = ks !! fetch_hello_totp_key_tag a.
Proof.
  unfold locked_keys. rewrite !lookup_delete_ne; [done|..];
    unfold fetch_hello_totp_key_tag, fetch_hello_key_tag, fetch_hello_prt_key_tag,
      fetch_hello_refresh_token_key_tag; intros Heq%(inj (String.append _)); done.
Qed.

(** Offline, an account with a TOTP record and TOTP enabled cannot be
    authenticated: a session that starts with the PIN prompt is asked for the code,
    but the step does not keep the PIN in the session, and so no code is ever
    accepted, whatever is entered. *)
Theorem offline_totp_dead_end load_prt a token mk ch req s tok s' sealed :
  quiet_prt load_prt → (∀ n, key_fault n = false) →
  check_hello_totp_enabled cfg = true →
  h_keys s !! fetch_hello_totp_key_tag a ≫= sealed_from_slice = Some sealed →
  (∀ pin pending, ch ≠ AuthCredHandler_HelloTOTP pin pending) →
  run_hm (offline_auth_step cfg load_prt a token ch req mk) s
    ≠ (Some (Ok (AuthResult_Success tok)), s').
Proof.
  intros Hq Hks Hen Hset Hch Hr.
  destruct (offline_success load_prt a token ch req mk s tok s' Hq Hr)
    as (_ & [(cred & sk & _ & _ & [Hd|[Hd|Hd]])|(code & hp & pend & n & _ & -> & _)]).
  - congruence.
  - congruence.
  - by rewrite Hks in Hd.
  - by destruct (Hch hp pend).
Qed.

End offline.

(** ** The cache of refresh tokens *)

Class HelloLaws `{X : Ext} `{C : Crypto} (HO : HelloOps) : Prop := {
  prts_roundtrip : ∀ m b, prts_to_vec m = Some b → prts_from_slice b = Some m
}.

Section cache.
Context {X : Ext} {C : Crypto} {HO : HelloOps} {E : Env} {HE : HelloEnv}.
Implicit Types (s : HState).

Lemma remove_all_lookup {A} ks (m : gmap string A) k :
  remove_all ks m !! k = if decide (k ∈ ks) then None else m !! k.
Proof.
  unfold remove_all. induction ks as [|x ks IH]; cbn [foldr].
  - case_decide; [set_solver|done].
  - destruct (decide (x = k)) as [->|Hne].
    + rewrite lookup_delete_eq. repeat case_decide; set_solver.
    + rewrite lookup_delete_ne, IH by done. repeat case_decide; set_solver.
Qed.

(** Entries are reported stale exactly when a day had passed at the reading made for
    them, at some step from [n] on and before [n']. *)
Definition outlived (n n' : nat) (iat : SystemTime) : Prop :=
  ∃ i, (n ≤ i < n')%nat ∧ iat + CACHE_SECS * NS < clock i.
Definition young (n n' : nat) (iat : SystemTime) : Prop :=
  ∃ i, (n ≤ i < n')%nat ∧ clock i ≤ iat + CACHE_SECS * NS.

Lemma stale_spec {R A} (l : list (string * (A * SystemTime))) s ks s' :
  stale (R := R) l s = (inl ks, s') →
  ticked s s' ∧ (h_tick s ≤ h_tick s')%nat ∧
  (∀ k, k ∈ ks → ∃ a iat, (k, (a, iat)) ∈ l ∧ outlived (h_tick s) (h_tick s') iat) ∧
  (∀ k a iat, (k, (a, iat)) ∈ l → k ∈ ks ∨ young (h_tick s) (h_tick s') iat).
Proof.
  revert s ks. induction l as [|[k [a iat]] l IH]; intros s ks H; simpl in H.
  { injection H as <- <-. split; [done|]. split; [done|]. set_solver. }
  hello_split H. injection H as <- <-.
  unfold plus_secs in Hm. case_match; [|done]. injection Hm as <- <-.
  unfold system_now, hdraw in Hm0. injection Hm0 as <- <-.
  destruct (IH _ _ Hm1) as ((T1 & T2 & T3) & Ht & Hin & Hout). simpl in *.
  assert (∀ i : nat, (S (h_tick s) ≤ i < h_tick s2)%nat → (h_tick s ≤ i < h_tick s2)%nat) as Hi by lia.
  split; [done|]. split; [lia|]. split.
  - intros k' Hk'. destruct (Z.ltb_spec (iat + CACHE_SECS * NS) (clock (h_tick s))).
    + apply elem_of_cons in Hk' as [->|Hk'].
      * exists a, iat. split; [set_solver|]. exists (h_tick s). split; [lia|done].
      * destruct (Hin _ Hk') as (a' & iat' & H1 & i & H2 & H3). exists a', iat'.
        split; [set_solver|]. exists i. auto.
    + destruct (Hin _ Hk') as (a' & iat' & H1 & i & H2 & H3). exists a', iat'.
      split; [set_solver|]. exists i. auto.
  - intros k' a' iat' [[= -> -> ->]|Hk']%elem_of_cons.
    + destruct (Z.ltb_spec (iat + CACHE_SECS * NS) (clock (h_tick s))); [left; set_solver|].
      right. exists (h_tick s). split; [lia|done].
    + destruct (Hout _ _ _ Hk') as [?|(i & ? & ?)].
      * left. case_match; set_solver.
      * right. exists i. auto.
Qed.

(** What is left of a map, and why. *)
Lemma purged {A} (m : gmap string (A * SystemTime)) ks n n' :
  (∀ k, k ∈ ks → ∃ a iat, (k, (a, iat)) ∈ map_to_list m ∧ outlived n n' iat) →
  (∀ k a iat, (k, (a, iat)) ∈ map_to_list m → k ∈ ks ∨ young n n' iat) →
  ∀ k, match remove_all ks m !! k with
       | Some (a, iat) => m !! k = Some (a, iat) ∧ young n n' iat
       | None => ∀ a iat, m !! k = Some (a, iat) → outlived n n' iat
       end.
Proof.
  intros H1 H2 k. rewrite remove_all_lookup. destruct (decide (k ∈ ks)) as [Hk|Hk].
  - intros a iat Hm. destruct (H1 _ Hk) as (a' & iat' & Hl%elem_of_map_to_list & Ho). congruence.
  - destruct (m !! k) as [[a iat]|] eqn:Em; [|done]. split; [done|].
    by destruct (H2 k a iat (proj2 (elem_of_map_to_list m k (a, iat)) Em)).
Qed.

Lemma purge_spec {R} s s' :
  purge (R := R) s = (inl tt, s') →
  (∀ k, match refresh_cache (h_client s') !! k with
        | Some (p, iat) => refresh_cache (h_client s) !! k = Some (p, iat) ∧ young (h_tick s) (h_tick s') iat
        | None => ∀ p iat, refresh_cache (h_client s) !! k = Some (p, iat) →
            outlived (h_tick s) (h_tick s') iat
        end) ∧
  (∀ k, match refresh_token_cache (h_client s') !! k with
        | Some (p, iat) =>
            refresh_token_cache (h_client s) !! k = Some (p, iat) ∧ young (h_tick s) (h_tick s') iat
        | None => ∀ p iat, refresh_token_cache (h_client s) !! k = Some (p, iat) →
            outlived (h_tick s) (h_tick s') iat
        end).
Proof.
  unfold purge. intros H. hello_split H. injection Hm as <- <-. injection Hm1 as <- <-.
  injection H as <-. simpl.
  destruct (stale_spec _ _ _ _ Hm0) as ((T1 & T2 & T3) & Ht & Hi & Ho).
  destruct (stale_spec _ _ _ _ Hm2) as ((U1 & U2 & U3) & Hu & Hj & Hp). simpl in *.
  rewrite U1. simpl. rewrite T1.
  assert (∀ iat, outlived (h_tick s) (h_tick s1) iat → outlived (h_tick s) (h_tick s3) iat) as W1
    by (intros iat (i & ? & ?); exists i; split; [lia|done]).
  assert (∀ iat, young (h_tick s) (h_tick s1) iat → young (h_tick s) (h_tick s3) iat) as W2
    by (intros iat (i & ? & ?); exists i; split; [lia|done]).
  assert (∀ iat, outlived (h_tick s1) (h_tick s3) iat → outlived (h_tick s) (h_tick s3) iat) as W3
    by (intros iat (i & ? & ?); exists i; split; [lia|done]).
  assert (∀ iat, young (h_tick s1) (h_tick s3) iat → young (h_tick s) (h_tick s3) iat) as W4
    by (intros iat (i & ? & ?); exists i; split; [lia|done]).
  split; intros k.
  - pose proof (purged _ _ _ _ Hi Ho k) as Hq. case_match; [case_match|]; naive_solver.
  - pose proof (purged _ _ _ _ Hj Hp k) as Hq. case_match; [case_match|]; naive_solver.
Qed.

(** What the cache hands out is at most a day old, and it forgets nothing sooner: a
    PRT or refresh token is returned only if it was cached for the account (in any
    spelling of its case) no more than a day before, a PRT before a refresh token, and
    an account is reported unknown only when everything cached for it is older. *)
Theorem refresh_token_fresh {R} a s :
  match refresh_token (R := R) a s with
  | (inl (RefreshCacheEntry_Prt prt), s') => ∃ iat,
      refresh_cache (h_client s) !! to_lowercase a = Some (prt, iat) ∧
      young (h_tick s) (h_tick s') iat
  | (inl (RefreshCacheEntry_RefreshToken tok), s') =>
      (∃ iat, refresh_token_cache (h_client s) !! to_lowercase a = Some (tok, iat) ∧
        young (h_tick s) (h_tick s') iat) ∧
      ∀ p iat, refresh_cache (h_client s) !! to_lowercase a = Some (p, iat) →
        outlived (h_tick s) (h_tick s') iat
  | (inr (Fail e), s') => e = IdpError_NotFound "account_id" "refresh_cache" ∧
      (∀ p iat, refresh_cache (h_client s) !! to_lowercase a = Some (p, iat) →
        outlived (h_tick s) (h_tick s') iat) ∧
      (∀ t iat, refresh_token_cache (h_client s) !! to_lowercase a = Some (t, iat) →
        outlived (h_tick s) (h_tick s') iat)
  | (inr (Return _), _) | (inr Hang, _) => False
  | (inr Panic, _) => True
  end.
Proof.
  set (only_panics := λ x : Exit R, match x with Fail _ | Hang => False | _ => True end).
  assert (no_return (λ _ : R, False) purge ∧ ∀ s x s', purge s = (inr x, s') → only_panics x)
    as [Hn Hf].
  { assert (∀ A (l : list (string * (A * SystemTime))), no_return (λ _ : R, False) (stale l)) as Hs.
    { induction l as [|[k [x iat]] l IH]; simpl; hello_walk. }
    assert (∀ A (l : list (string * (A * SystemTime))) s x s', stale l s = (inr x, s') → only_panics x) as Hs'.
    { induction l as [|[k [x iat]] l IH]; simpl; intros s1 e s2; [done|].
      intros [H|(t & s3 & _ & [H|(n & s4 & _ & [H|(r & s5 & _ & H)]%hm_bind_inr)]%hm_bind_inr)]%hm_bind_inr;
        try done; [unfold plus_secs in H; case_match; [done|by injection H as <- _]|by apply IH in H]. }
    unfold purge. split; [hello_walk|].
    intros s0 e s' [H|(c & s1 & _ & [H|(r & s2 & _ & [H|(u & s3 & _ & [H|(r' & s4 & _ & H)]%hm_bind_inr)]%hm_bind_inr)]%hm_bind_inr)]%hm_bind_inr;
      try done; by apply Hs' in H. }
  unfold refresh_token, mbind at 1, HM_bind at 1.
  destruct (purge s) as [[[]|[e|r| |]] s1] eqn:Ep; [|by apply Hf in Ep|by apply Hn in Ep|done|by apply Hf in Ep].
  destruct (purge_spec _ _ Ep) as [H1 H2]. specialize (H1 (to_lowercase a)). specialize (H2 (to_lowercase a)).
  unfold mbind, HM_bind, get_client. simpl.
  destruct (refresh_cache (h_client s1) !! to_lowercase a) as [[prt iat0]|]; [by exists iat0|].
  destruct (refresh_token_cache (h_client s1) !! to_lowercase a) as [[tok iat']|].
  - split; [by exists iat'|done].
  - by split_and!.
Qed.

(** The names in the cache are in lower case, as [add] and the import write them. *)
Definition lower_names (c : HelloClient) : Prop :=
  map_Forall (λ k _, to_lowercase k = k) (refresh_cache c).

Lemma add_lower_names {R} a e s :
  lower_names (h_client s) → lower_names (h_client (add (R := R) a e s).2).
Proof.
  intros Hl. destruct e; simpl; [|done]. apply map_Forall_insert_2; [apply to_lowercase_idemp|done].
Qed.

Definition whole_seconds (e : SealedData * SystemTime) : SealedData * SystemTime := (e.1, e.2 / NS * NS).

Lemma import_run {R} (l : list (string * (SealedData * Z))) s :
  (∀ k e, (k, e) ∈ l → to_lowercase k = k ∧ 0 ≤ e.2 ≤ i64_max) →
  import_entries (R := R) l s =
  (inl tt, Build_HState (h_tick s)
     (set_refresh_cache (foldl (λ m e, <[e.1 := (e.2.1, e.2.2 * NS)]> m) (refresh_cache (h_client s)) l)
        (h_client s)) (h_keys s) (h_tpm s)).
Proof.
  revert s. induction l as [|[k [p n]] l IH]; intros s Hl; simpl; [by destruct s as [? []]|].
  destruct (Hl k (p, n)) as [Hk Hn]; [set_solver|]. simpl in Hn.
  unfold mbind at 1, HM_bind at 1, plus_secs. rewrite Z.add_0_l, Z.div_mul by done.
  rewrite (proj2 (Z.leb_le _ _)) by lia. unfold mbind, HM_bind, mod_client. rewrite IH, Hk by set_solver.
  done.
Qed.

Lemma foldl_insert_map {A B} (f : A → B) (m : gmap string A) (m0 : gmap string B) l :
  NoDup l.*1 → (∀ k v, (k, v) ∈ l → m !! k = Some v) →
  ∀ k, foldl (λ m0 e, <[e.1 := f e.2]> m0) m0 l !! k =
    if decide (k ∈ l.*1) then f <$> m !! k else m0 !! k.
Proof.
  revert m0. induction l as [|[k v] l IH]; intros m0 Hnd Hl j; cbn [foldl].
  - case_decide; [set_solver|done].
  - apply NoDup_cons in Hnd as [Hk Hnd]. rewrite IH by set_solver. simpl.
    destruct (decide (j = k)) as [->|Hne].
    + rewrite decide_False by done. rewrite decide_True by set_solver. rewrite lookup_insert_eq.
      by rewrite (Hl k v) by set_solver.
    + rewrite lookup_insert_ne by done. repeat case_decide; set_solver.
Qed.

(** PRTs handed over a restart come back for the same accounts with the time they
    were issued, cut to whole seconds: the restart never extends how long they are
    kept. *)
Theorem broker_prts_restart {HL : HelloLaws HO} c st b s :
  lower_names c →
  map_Forall (λ _ e, 0 ≤ e.2 ∧ e.2 / NS ≤ i64_max) (refresh_cache c) →
  export_broker_prts c = Some b → h_client s = hello_client_new st →
  ∃ s', run_hm (import_broker_prts b) s = (Some (Ok (Some tt)), s') ∧
    refresh_cache (h_client s') = whole_seconds <$> refresh_cache c ∧
    map_Forall (λ k e, ∃ iat, refresh_cache c !! k = Some (e.1, iat) ∧ e.2 ≤ iat)
      (refresh_cache (h_client s')).
Proof.
  intros Hl Ht Hx Hs. unfold export_broker_prts in Hx. apply prts_roundtrip in Hx.
  set (m := (λ e, _) <$> refresh_cache c) in Hx.
  assert (∀ k e, m !! k = Some e → to_lowercase k = k ∧ 0 ≤ e.2 ≤ i64_max) as Hm.
  { intros k e. unfold m. rewrite lookup_fmap. intros ([p iat] & He & ->)%fmap_Some.
    split; [by eapply Hl|]. destruct (Ht _ _ He) as [H0 H1]. simpl in *. unfold secs_since_epoch.
    rewrite (proj2 (Z.leb_le _ _)) by done. simpl. pose proof (Z.div_pos iat NS H0). unfold NS in *. lia. }
  unfold run_hm, import_broker_prts. rewrite Hx. unfold mbind, HM_bind.
  rewrite import_run by (intros k e ?%elem_of_map_to_list; by apply Hm). simpl.
  eexists. split; [done|]. simpl. rewrite Hs. simpl.
  assert (foldl (λ m e, <[e.1 := (e.2.1, e.2.2 * NS)]> m) ∅ (map_to_list m)
          = whole_seconds <$> refresh_cache c) as Hfold.
  { apply map_eq. intros k.
    rewrite (foldl_insert_map (λ e : SealedData * Z, (e.1, e.2 * NS)) m ∅ (map_to_list m));
      [|apply NoDup_fst_map_to_list|by intros ? ? ?%elem_of_map_to_list].
    rewrite lookup_fmap.
    destruct (refresh_cache c !! k) as [[p iat]|] eqn:Ec.
    - assert (m !! k = Some (p, default 0 (secs_since_epoch iat))) as Hmk by (unfold m; by rewrite lookup_fmap, Ec).
      rewrite Hmk, decide_True.
      + destruct (Ht _ _ Ec) as [H0 _]. simpl in *. unfold secs_since_epoch.
        by rewrite (proj2 (Z.leb_le _ _)) by done.
      + apply list_elem_of_fmap. exists (k, (p, default 0 (secs_since_epoch iat))).
        split; [done|]. by apply elem_of_map_to_list.
    - assert (m !! k = None) as -> by (unfold m; by rewrite lookup_fmap, Ec). by case_decide. }
  split; [exact Hfold|]. rewrite Hfold. intros k e. rewrite lookup_fmap.
  intros ([p iat] & He & ->)%fmap_Some. exists iat. split; [done|]. simpl.
  pose proof (Z.mul_div_le iat NS). unfold NS in *. lia.
Qed.

End cache.

(** ** Changing the PIN, and the break-glass window *)

Section pin.
Context {X : Ext} {C : Crypto} {HO : HelloOps} {E : Env} {HE : HelloEnv}.
Context {I : IniFile} {G : GeneratedConfig} (cfg : HimmelblauConfig).
Implicit Types (s : HState).

Lemma create_decoupled_steady {R} cred mk e : steady (create_decoupled_hello_key (R := R) cred mk e).
Proof. unfold create_decoupled_hello_key. hello_walk. Qed.

Lemma provision_steady {R} t b cred mk e :
  steady (provision_or_create_hello_key (R := R) t b cred mk e).
Proof. unfold provision_or_create_hello_key, create_decoupled_hello_key. hello_walk. Qed.

Lemma check_online_steady {R} t : steady (check_online (R := R) t).
Proof. unfold check_online. hello_walk. Qed.

(** A Hello PIN is set only by the account's own token: on success the token names
    the account (in any case) and the only key written is the account's Hello key; on
    any failure, offline included, no key changes. *)
Theorem change_pin_only_own {R} a token amr (create : IdpError → HM R LoadableMsHelloKey) s :
  (∀ e, steady (create e)) →
  match change_auth_token a token amr create s with
  | (inl ok, s') => ok = true ∧ ∃ spn key b, token_spn token = Some spn ∧
      to_lowercase spn = to_lowercase a ∧ hello_key_to_vec key = Some b ∧
      h_keys s' = <[fetch_hello_key_tag a amr := b]> (h_keys s)
  | (inr _, s') => h_keys s' = h_keys s
  end.
Proof.
  intros Hc. unfold change_auth_token.
  unfold mbind at 1, HM_bind at 1, hdraw. destruct (delayed_init_ok _); simpl; [|done].
  unfold mbind at 1, HM_bind at 1, system_now, hdraw.
  set (s1 := Build_HState _ _ _ _). assert (h_keys s1 = h_keys s) as K1 by done. clearbody s1.
  unfold mbind at 1, HM_bind at 1.
  match goal with |- context [check_online ?t ?s2] =>
    pose proof (check_online_steady (R := R) t s2) as K2;
      destruct (check_online t s2) as [[[]|e] s3]
  end; simpl in K2 |- *; [|congruence..].
  unfold mbind at 1, HM_bind at 1. destruct (token_spn token) as [spn|] eqn:Es; simpl; [|congruence].
  destruct (String.eqb_spec (to_lowercase a) (to_lowercase spn)) as [Eq|]; simpl; [|congruence].
  unfold mbind at 1, HM_bind at 1. pose proof (Hc IdpError_Tpm s3) as K3.
  destruct (create IdpError_Tpm s3) as [[key|e] s4]; simpl in K3; [|congruence].
  unfold mbind at 1, HM_bind at 1, ks_insert.
  destruct (hello_key_to_vec key) as [b|] eqn:Eb; [|unfold ok_or_fail, mbind, HM_bind, fail; congruence].
  destruct (key_fault _); unfold ok_or_fail, mbind, HM_bind, mret, HM_ret, fail; simpl; [congruence|].
  split; [done|]. exists spn, key, b. split_and!; try done. by rewrite K3, K2, K1.
Qed.

(** Break glass opens a window only where the configuration enables it, and then for
    the time asked for or else the configured one. *)
Lemma break_glass_window {R} ttl s s' :
  offline_break_glass (R := R) cfg ttl s = (inl tt, s') →
  state (h_client s') =
  if get_offline_breakglass_enabled (config cfg)
  then CacheState_OfflineNextCheck
         (clock (h_tick s) + default (get_offline_breakglass_ttl (config cfg)) ttl * NS)
  else state (h_client s).
Proof.
  unfold offline_break_glass. destruct (get_offline_breakglass_enabled _).
  - intros H. hello_split H. injection Hm as <- <-. unfold plus_secs in Hm0. case_match; [|done].
    injection Hm0 as <- <-. by injection H as <-.
  - by intros [= <-].
Qed.

(** Offline, the PIN is asked for exactly when a Hello key can be read, the bad
    PINs do not exceed the retry count and the PIN was not ruled out; failing that the
    password, where the provider knows one and single-factor fallback or break glass
    is enabled; failing that the login is refused for the outage. No state changes. *)
Theorem offline_init_choice password_auth a nhp s :
  (∀ n, key_fault n = false) →
  ∃ s', ticked s s' ∧ run_hm (offline_auth_init cfg password_auth a nhp) s =
    (Some (Ok
       (if bool_decide (is_Some (first_key (h_keys s) a)) &&
           (bad_pin_count a (h_client s) <=? get_hello_pin_retry_count (config cfg)) && negb nhp
        then AuthRequest_Pin
        else if password_auth && (get_enable_sfa_fallback (config cfg) ||
                                  get_offline_breakglass_enabled (config cfg))
        then AuthRequest_Password
        else AuthRequest_InitDenied "Network outage detected.", AuthCredHandler_None)), s').
Proof.
  intros Hks. destruct (fetch_key_run Hks a (R := AuthRequest * AuthCredHandler) s) as (n & kt & Hf).
  unfold run_hm, offline_auth_init. rewrite (hm_bind_run _ _ _ _ _ Hf). eexists. split; [|simpl; do 4 f_equal].
  - by split_and!.
  - unfold offline_auth_choice. by destruct (first_key (h_keys s) a).
Qed.

End pin.

(** ** The provider in the resolver *)

Section composition.
Context {X : Ext} {SD : Serde} {SL : SerdeLaws SD} {C : Crypto} {HO : HelloOps} {L : LruCache} {E : Env}
  {HE : HelloEnv}.
Context {I : IniFile} {G : GeneratedConfig} {RO : RemoteOps} {IH : Inhabited Hsm} (cfg : HimmelblauConfig).
Context (load_prt : LoadableMsHelloKey → string → string → MachineKey → HM AuthResult unit).
Context (password_auth : bool) (Hq : quiet_prt load_prt).

Notation P := (hello_provider cfg load_prt password_auth).

(** The state in which the resolver calls the provider's Hello code: the transaction has been
    begun on the disk of [w]. *)
Definition hello_state_of (w : World (P := P)) : HState :=
  Build_HState (S (w_tick w)) (w_client w) (hsm_data_t (disk (w_conn w))) (w_tpm w).

(** C5. With Linux Hello behind it, the resolver reports success for a step only when
    the directory accepted the step, in an online session with the cache online; or,
    where one of the two is offline and the session does not demand re-authentication,
    when the password cached on the disk accepted the credential, or the TPM accepts the
    PIN for a Hello key the disk has for the account: the PIN the step carries, or the
    one the session kept, and then the code the step carries is accepted too. Each of
    these is judged in the world the step's own look-up of the cache state leaves. *)
Theorem resolver_hello_success (self : Resolver) s req (w : World (P := P)) s' w' :
  settled w →
  pam_account_authenticate_step (P := P) self s req w = Ret (s', Ok PamAuthResponse_Success) w' →
  ∃ account service id token online h nhp force state w1 tok,
    s = AuthSession_InProgress account service id (Some token) online h nhp force ∧
    s' = AuthSession_Success (t_spn tok) ∧
    get_cachestate (Some account) w = Ret state w1 ∧
    ((online = true ∧ state = CacheState_Online ∧ ∃ action,
        (remote_online_auth_step account token service nhp h req (machine_key self)
           (S (w_tick w1)) (w_client w1) (hsm_data_t (disk (w_conn w1))) (w_tpm w1)).1.1.1.2
          = Ok (AuthResult_Success tok, action)) ∨
     (¬ (online = true ∧ state = CacheState_Online) ∧ force = false ∧ tok = token ∧
      ((∃ cred, req = PamAuthRequest_Password cred ∧
          (check_account_password (t_uuid token) cred (hmac_key self) (w_tpm w1) sql_fault
             (S (w_tick w1), disk (w_conn w1))).1.1 = Ok true) ∨
       (∃ cred sk, req = PamAuthRequest_Pin cred ∧
          pin_accepted (hello_state_of w1) account cred (machine_key self) sk) ∨
       (∃ code cred pending n, req = PamAuthRequest_HelloTOTP code ∧
          h = AuthCredHandler_HelloTOTP cred pending ∧
          code_accepted AuthResult (hello_state_of w1) account cred (machine_key self) pending code n)))).
Proof.
  intros Hw Hs. destruct (step_success self s req w s' w' (settled_idle _ _ Hw) Hs)
    as (tok & (account & service & id & token & online & h & nhp & force & state & w1 & -> & Hg & Hev) & -> & _).
  exists account, service, id, token, online, h, nhp, force, state, w1, tok.
  split; [done|]. split; [done|]. split; [done|].
  destruct Hev as [action Ho Hst Hr|cred Hoff Hf Hreq Htok Hpw|Hoff Hf Hreq Hst].
  - left. split; [done|]. split; [done|]. by exists action.
  - right. split_and!; [done..|]. left. by exists cred.
  - right. simpl in Hst. unfold provider_offline_step in Hst.
    destruct (run_hm _ _) as [r st'] eqn:Er. simpl in Hst. destruct r as [r|]; [|done]. simpl in Hst. subst r.
    destruct (offline_success cfg load_prt _ _ _ _ _ _ _ _ Hq Er)
      as (-> & [(cred & sk & -> & Hpin & _)|(code & hp & pend & n & -> & -> & _ & Hc)]); split_and!; try done;
      right; [left; by exists cred, sk|right; by exists code, hp, pend, n].
Qed.

(** The operations the provider runs for the resolver do not panic. *)
Lemma provider_step_total account token h req mk n c k hs :
  (∀ key cred a, calm_run (load_prt key cred a mk)) →
  (run_hm (offline_auth_step cfg load_prt account token h req mk) (Build_HState n c k hs)).1 ≠ None.
Proof.
  intros Hl. unfold run_hm.
  assert (calm_run (offline_auth_step cfg load_prt account token h req mk)) as Hn.
  { unfold offline_auth_step, offline_pin, offline_pin_key, handle_hello_pin_totp_auth, check_totp,
      load_refresh_token, check_hello_totp_setup, handle_hello_bad_pin_count.
    destruct h, req; hello_walk. }
  specialize (Hn (Build_HState n c k hs)). by destruct (offline_auth_step _ _ _ _ _ _ _ _) as [[|[]] ?].
Qed.

Lemma load_cached_prt_calm key cred a mk : calm_run (load_cached_prt key cred a mk).
Proof. unfold load_cached_prt. hello_walk. Qed.

End composition.

(** ** Instances *)

Definition prt_list (m : gmap string (unit * Z)) : list (string * Z) :=
  (λ e, (e.1, e.2.2)) <$> map_to_list m.
Definition list_prt (l : list (string * Z)) : gmap string (unit * Z) :=
  list_to_map ((λ e, (e.1, (tt, e.2))) <$> l).

Lemma list_prt_list m : list_prt (prt_list m) = m.
Proof.
  unfold list_prt, prt_list. rewrite <- list_fmap_compose.
  rewrite <- (list_to_map_to_list m) at 2. f_equal. rewrite <- (list_fmap_id (map_to_list m)) at 2.
  apply fmap_ext_elem. by intros [k [[] n]] _.
Qed.

(** A TPM in which a Hello key is the PIN it was made with; every TOTP secret has the
    code 123456. *)
#[export] Instance model_hello : HelloOps := {|
  LoadableMsHelloKey := string;
  StorageKey := unit;
  PinValue := string;
  Totp := string;
  hello_key_from_slice := dec;
  hello_key_to_vec k := Some (enc k);
  sealed_from_slice _ := Some tt;
  sealed_to_vec _ := Some [];
  pin_value_new p := Some p;
  ms_hello_key_create _ pin h := (Some pin, S h);
  ms_hello_key_load _ key pin h := (if String.eqb key pin then Some tt else None, S h);
  seal_data _ _ h := (Some tt, S h);
  unseal_data _ _ h := (Some (String.list_byte_of_string "record"), S h);
  seal_user_prt_with_hello_key _ _ _ _ h := (Some tt, S h);
  unseal_user_prt_with_hello_key _ _ _ _ h := (Some tt, S h);
  is_prt_expired _ _ _ h := (Some false, S h);
  provision_hello_for_business_key _ _ pin _ h := (Some pin, S h);
  token_prt _ := None;
  token_refresh_token t := t;
  token_spn t := Some t;
  record_from_str _ := Some (Build_TotpEnrollmentRecord "secret" 6 1 30 "Himmelblau" "alice");
  record_to_string _ := Some "record";
  secret_to_bytes s := Some (String.list_byte_of_string s);
  secret_generate _ := Some [];
  totp_new _ _ _ _ _ a := Some a;
  get_secret_base32 t := t;
  check_current _ code _ := Some (String.eqb code "123456");
  url_encode s := s;
  prts_to_vec m := Some (enc (prt_list m));
  prts_from_slice b := list_prt <$> dec b
|}.

#[export] Instance model_hello_laws : HelloLaws model_hello.
Proof.
  split. intros m b Hb. assert (enc (prt_list m) = b) as <- by exact (Some_inj _ _ Hb).
  unfold prts_from_slice, model_hello. rewrite (dec_enc (prt_list m)). simpl. f_equal. apply list_prt_list.
Qed.

#[export] Instance model_hello_env : HelloEnv := {|
  key_fault _ := false;
  hostname := "host";
  delayed_init_ok _ := true;
  attempt_online _ := true
|}.

Definition sample_mk : @MachineKey model_crypto := "machine".
Definition sample_key : @LoadableMsHelloKey model_ext model_crypto model_hello := "271828".
Definition sample_token : @UnixUserToken model_ext := "alice".

Definition hello_keys : Keys := {[ "alice/hello" := enc ("271828" : string); "bob/hello" := enc ("1" : string) ]}.
Definition hello_state : HState :=
  Build_HState 0 (hello_client_new CacheState_Offline) hello_keys sample_tpm.
Definition totp_keys : Keys := <["alice/hello_totp" := []]> hello_keys.
Definition totp_state : HState :=
  Build_HState 0 (hello_client_new CacheState_Offline) totp_keys sample_tpm.

Definition totp_config : HimmelblauConfig := {|
  config := [("global", "enable_hello_totp", "true")]; filename := DEFAULT_CONFIG_PATH
|}.

Definition pin_step (cred : string) : HM AuthResult AuthResult :=
  offline_auth_step sample_config load_cached_prt "Alice" sample_user AuthCredHandler_None
    (PamAuthRequest_Pin cred) sample_mk.

Lemma pair_run {A B} (p : A * B) x : p.1 = x → p = (x, p.2).
Proof. by destruct p; intros <-. Qed.

Lemma offline_success_needs_pin_witness :
  ∃ sk, pin_accepted hello_state "Alice" "271828" sample_mk sk ∧
    code_not_asked sample_config hello_state "Alice" (run_hm (pin_step "271828") hello_state).2.
Proof.
  destruct (offline_success_needs_pin sample_config load_cached_prt "Alice" sample_user AuthCredHandler_None
    (PamAuthRequest_Pin "271828") sample_mk hello_state sample_user
    (run_hm (pin_step "271828") hello_state).2 quiet_load_cached_prt)
    as (_ & [(cred & sk & H & Hp)|(code & hp & pending & n & H & _)]); [| |discriminate H].
  - apply (pair_run (run_hm (pin_step "271828") hello_state)). reflexivity.
  - injection H as <-. exists sk. exact Hp.
Defined.

(** A key store whose operation number [n] fails. *)
Definition failing_hello_env (n : nat) : HelloEnv := {|
  key_fault m := Nat.eqb m n;
  hostname := "host";
  delayed_init_ok _ := true;
  attempt_online _ := true
|}.

Definition pin_step_failing (n : nat) :=
  run_hm (offline_auth_step (HE := failing_hello_env n) totp_config (load_cached_prt (HE := failing_hello_env n))
    "Alice" sample_user AuthCredHandler_None (PamAuthRequest_Pin "271828") sample_mk) totp_state.

(** The account has a TOTP record and TOTP is on: the PIN alone leads to the question for the code,
    unless the look-up of the record fails, and then the PIN is enough. *)
Example totp_fails_open :
  (pin_step_failing 9).1 = Some (Ok (AuthResult_Next (AuthRequest_HelloTOTP HELLO_TOTP_PROMPT))) ∧
  (pin_step_failing 3).1 = Some (Ok (AuthResult_Success sample_user)).
Proof. split; reflexivity. Qed.

Definition wrong_pins : list string := ["1"; "2"; "3"; "4"].

(** Even the right PIN comes too late after the lock-out. *)
Example right_pin_too_late :
  (pin_attempts sample_config load_cached_prt "Alice" sample_user sample_mk AuthCredHandler_None
     (wrong_pins ++ ["271828"]) hello_state).1 !! 4%nat = Some (Some (Err IdpError_BadRequest)).
Proof. reflexivity. Qed.

Lemma wrong_pins_locked_out_witness :
  (pin_attempts sample_config load_cached_prt "Alice" sample_user sample_mk AuthCredHandler_None
     wrong_pins hello_state).1
  = [Some (Ok (AuthResult_Denied HELLO_PIN_FAILED)); Some (Ok (AuthResult_Denied HELLO_PIN_FAILED));
     Some (Ok (AuthResult_Denied ONE_MORE_MSG)); Some (Ok (AuthResult_Denied TOO_MANY_MSG))].
Proof.
  destruct (wrong_pins_locked_out sample_config load_cached_prt "Alice" sample_user sample_mk
    AuthCredHandler_None sample_key wrong_pins hello_state) as [H _]; try done.
  repeat constructor; eexists; (split; [reflexivity|]); reflexivity.
Defined.

Lemma offline_totp_dead_end_witness :
  run_hm (offline_auth_step totp_config load_cached_prt "alice" sample_user AuthCredHandler_None
    (PamAuthRequest_HelloTOTP "123456") sample_mk) totp_state
    ≠ (Some (Ok (AuthResult_Success sample_user)), totp_state).
Proof.
  apply (offline_totp_dead_end totp_config load_cached_prt "alice" sample_user sample_mk AuthCredHandler_None
    _ totp_state sample_user totp_state tt quiet_load_cached_prt); done.
Defined.

Definition prt_client : HelloClient :=
  Build_HelloClient {[ "alice" := (tt, 1700000000 * NS + 7) ]} ∅ ∅ CacheState_Online.

Lemma broker_prts_restart_witness :
  ∃ s', refresh_cache (h_client s') = whole_seconds <$> refresh_cache prt_client.
Proof.
  destruct (broker_prts_restart prt_client CacheState_Offline (enc (prt_list {[ "alice" := (tt, 1700000000) ]}))
    hello_state) as (s' & _ & H & _).
  - by apply map_Forall_singleton.
  - apply map_Forall_singleton. vm_compute. split; discriminate.
  - unfold export_broker_prts, prt_client. simpl. by rewrite map_fmap_singleton.
  - reflexivity.
  - by exists s'.
Defined.

Lemma change_pin_only_own_witness :
  match change_auth_token (R := bool) "Alice" sample_token false
          (create_decoupled_hello_key "99" sample_mk) (Build_HState 0 prt_client hello_keys sample_tpm) with
  | (inl ok, _) => ok = true
  | (inr _, _) => False
  end.
Proof.
  pose proof (change_pin_only_own (R := bool) "Alice" sample_token false (create_decoupled_hello_key "99" sample_mk)
    (Build_HState 0 prt_client hello_keys sample_tpm) (create_decoupled_steady _ _)) as H.
  exact (proj1 H).
Defined.

Lemma offline_init_choice_witness :
  ∃ s', run_hm (offline_auth_init sample_config true "Alice" false) hello_state
    = (Some (Ok (AuthRequest_Pin, AuthCredHandler_None)), s').
Proof.
  destruct (offline_init_choice sample_config true "Alice" false hello_state) as (s' & _ & H); [done|].
  exists s'. exact H.
Defined.

(** A directory that cannot be reached. *)
#[export] Instance model_remote : RemoteOps := {|
  remote_configure_hsm_keys _ := λ _ c k h, (Ok tt, c, k, h);
  remote_check_online _ := λ _ c h, (false, c, h);
  remote_user_get _ _ _ := λ _ c k h, (Err IdpError_Transport, c, k, h);
  remote_user_access _ _ _ _ _ _ _ := λ _ c k h, (Err IdpError_Transport, c, k, h);
  remote_user_tgts _ _ _ := λ _ c k h, ((None, None, None, None), c, k, h);
  remote_user_prt_cookie _ _ _ _ := λ _ c k h, (Err IdpError_Transport, c, k, h);
  remote_change_auth_token _ _ _ _ := λ _ c k h, (Err IdpError_Transport, c, k, h);
  remote_online_auth_init _ _ _ _ _ _ := λ _ c k h, (Err IdpError_Transport, c, k, h);
  remote_online_auth_step _ _ _ _ ch _ _ := λ _ c k h, ((ch, Err IdpError_Transport), c, k, h);
  remote_offline_break_glass _ := λ _ c, (Ok tt, c);
  remote_import_broker_prts _ := λ _ c, (Some tt, c)
|}.

#[export] Instance model_hsm_inhabited : Inhabited (@Hsm model_crypto) := populate 0%nat.

Notation entra_provider := (hello_provider sample_config load_cached_prt true).

Definition w_hello : World (P := entra_provider) :=
  Build_World (P := entra_provider) 0 [] (Build_Conn (set_hsm_data_t hello_keys (cached_db 100)) None) 0%nat
    (hello_client_new CacheState_Offline) ∅ (lru_new NXCACHE_SIZE) true.

Lemma w_hello_settled : settled w_hello.
Proof. split; [done|]. split; [done|]. apply wf_set_keys. by apply cached_wf. Qed.

Definition hello_session : AuthSession :=
  AuthSession_InProgress "alice" "login" (Id_Name "alice") (Some sample_user) false AuthCredHandler_None
    false false.

Definition w_hello' :=
  world_of (pam_account_authenticate_step (P := entra_provider) model_resolver hello_session
    (PamAuthRequest_Pin "271828") w_hello) w_hello.

Lemma hello_run_ends :
  pam_account_authenticate_step (P := entra_provider) model_resolver hello_session
    (PamAuthRequest_Pin "271828") w_hello
  = Ret (AuthSession_Success "alice@example.com", Ok PamAuthResponse_Success) w_hello'.
Proof. unfold w_hello'. apply run_to; reflexivity. Qed.

Lemma resolver_hello_success_witness :
  ∃ state w1 sk, get_cachestate (P := entra_provider) (Some "alice") w_hello = Ret state w1 ∧
    pin_accepted (hello_state_of sample_config load_cached_prt true w1) "alice" "271828"
      (machine_key model_resolver) sk.
Proof.
  destruct (resolver_hello_success sample_config load_cached_prt true quiet_load_cached_prt model_resolver
    hello_session (PamAuthRequest_Pin "271828") w_hello (AuthSession_Success "alice@example.com")
    w_hello' w_hello_settled hello_run_ends)
    as (account & service & id & token & online & h & nhp & force & state & w1 & tok & Hse & _ & Hg & Hev).
  unfold hello_session in Hse. injection Hse as <- <- <- <- <- <- <- <-.
  destruct Hev as [(H & _)|(_ & _ & _ & [(cred & H & _)|[(cred & sk & H & Hp)|(code & cred & pd & n & H & _)]])];
    [discriminate H|discriminate H| |discriminate H].
  injection H as <-. exists state, w1, sk. split; [exact Hg|exact Hp].
Defined.
