(* ===== verification/HelloPin.v ===== *)
(** * PIN rules: [src/common/src/hello_pin_complexity.rs]

    A PIN is a list of Unicode scalar values, so that its length in bytes and in
    characters can differ, as in Rust. *)
From stdpp Require Import base gmap strings list fin_maps.
From Stdlib Require Import ZArith Lia.
From S2P Require Import Prelude Caches.

Open Scope rust_scope.

Definition DEFAULT_HELLO_PIN_MIN_LEN : Z := 6.

Definition pin_chars := list Z.

(** [char::len_utf8] *)
Definition len_utf8 (c : Z) : Z :=
  if c <? 0x80 then 1 else if c <? 0x800 then 2 else if c <? 0x10000 then 3 else 4.

(** [str::len]: bytes. *)
Definition str_len (pin : pin_chars) : Z := foldr (λ c n, len_utf8 c + n) 0 pin.

(** [char::to_digit(10)] *)
Definition to_digit (c : Z) : option Z := if (48 <=? c) && (c <=? 57) then Some (c - 48) else None.

(** [(10 + pair[1] - pair[0]) % 10] over [windows(2)]. *)
Fixpoint deltas (digits : list Z) : list Z :=
  match digits with
  | a :: (b :: _) as l => (10 + b - a) mod 10 :: deltas l
  | _ => []
  end.

Fixpoint all_equal (l : list Z) : bool :=
  match l with
  | a :: (b :: _) as l' => (a =? b) && all_equal l'
  | _ => true
  end.

Definition is_simple_pin (pin : pin_chars) : bool :=
  if str_len pin <? DEFAULT_HELLO_PIN_MIN_LEN then true
  else match mapM to_digit pin with
       | None => false
       | Some digits => all_equal (deltas digits)
       end.

(** ** The Intune policy *)

Definition is_ascii_digit (c : Z) : bool := (48 <=? c) && (c <=? 57).
Definition is_ascii_lowercase (c : Z) : bool := (97 <=? c) && (c <=? 122).
Definition is_ascii_uppercase (c : Z) : bool := (65 <=? c) && (c <=? 90).
Definition is_ascii_alphanumeric (c : Z) : bool :=
  is_ascii_digit c || is_ascii_lowercase c || is_ascii_uppercase c.

(** [iter().filter(f).count() as u32] *)
Definition count_chars (f : Z → bool) (pin : pin_chars) : Z :=
  wrap32 (Z.of_nat (length (List.filter f pin))).

Definition policy_message (min : Z) (label : string) : string :=
  "PIN is not compliant with administrator policy: must contain at least " +:+ uint_to_string min
    +:+ " " +:+ label +:+ " character" +:+ (if min =? 1 then "" else "s") +:+ ".".

(** [check_policy!(key, actual, label)] *)
Definition check_policy (get : string → option PolicyValue) (key : string) (actual : Z) (label : string)
  : result unit string :=
  match get key with
  | Some (PolicyValue_Int min) =>
      if actual <? min then Err (policy_message min label) else Ok tt
  | _ => Ok tt
  end.

(** [file], [is_root] and [ft] are what [PolicyCache::new(POLICY_CACHE, false)] finds. *)
Definition meets_intune_pin_policy (is_root : bool) (ft : OpenFaults) (file : DbFile (list PolicyRow))
  (pin : pin_chars) : result unit string :=
  match (PolicyCache_new is_root false ft file).2 with
  | None => Err "Failed to load policy cache."
  | Some cache =>
      let get := policy_get cache in
      let? _ := check_policy get "linux_passwordpolicy_minimumlength"
                  (wrap32 (Z.of_nat (length pin))) "total" in
      let? _ := check_policy get "linux_passwordpolicy_minimumdigits"
                  (count_chars is_ascii_digit pin) "digit" in
      let? _ := check_policy get "linux_passwordpolicy_minimumlowercase"
                  (count_chars is_ascii_lowercase pin) "lowercase" in
      let? _ := check_policy get "linux_passwordpolicy_minimumuppercase"
                  (count_chars is_ascii_uppercase pin) "uppercase" in
      check_policy get "linux_passwordpolicy_minimumsymbols"
        (count_chars (λ c, negb (is_ascii_alphanumeric c)) pin) "symbol"
  end.

(** ** Properties *)

Lemma all_equal_spec l : all_equal l = true ↔ ∃ d, Forall (λ x, x = d) l.
Proof.
  induction l as [|a l IH]; [split; [by exists 0|done]|]. destruct l as [|b l].
  - split; [intros _; exists a; by repeat constructor|done].
  - change (all_equal (a :: b :: l)) with ((a =? b) && all_equal (b :: l)).
    rewrite andb_true_iff, IH, Z.eqb_eq. split.
    + intros [-> [d Hd]]. exists d. constructor; [by inversion Hd|done].
    + intros [d Hd]. inversion Hd; subst. split; [|eauto]. by inversion H2.
Qed.

Lemma deltas_spec l d :
  Forall (λ x, x = d) (deltas l) ↔
  ∀ i a b, l !! i = Some a → l !! S i = Some b → (10 + b - a) mod 10 = d.
Proof.
  induction l as [|x l IH]; [split; [done|constructor]|]. destruct l as [|y l].
  - split; [by intros _ [|i] a b|constructor].
  - change (deltas (x :: y :: l)) with ((10 + y - x) mod 10 :: deltas (y :: l)).
    rewrite Forall_cons, IH. split.
    + intros [H1 H2] [|i] a b; [by intros [= <-] [= <-]|]. apply (H2 i).
    + intros H. split; [by apply (H 0%nat)|]. intros i. apply (H (S i)).
Qed.

Lemma digits_range pin digits : mapM to_digit pin = Some digits → Forall (λ x, 0 ≤ x ≤ 9) digits.
Proof.
  intros H%mapM_Some. induction H as [|c x pin digits Hc _ IH]; constructor; [|done].
  unfold to_digit in Hc. case_match; [|done]. injection Hc as <-.
  apply andb_true_iff in H as [?%Z.leb_le ?%Z.leb_le]. lia.
Qed.

Lemma delta_step a b d : 0 ≤ b ≤ 9 → 0 ≤ d < 10 → (10 + b - a) mod 10 = d ↔ b = (a + d) mod 10.
Proof.
  intros Hb Hd. split.
  - intros <-. rewrite Zplus_mod_idemp_r. replace (a + (10 + b - a)) with (b + 1 * 10) by lia.
    rewrite Z.mod_add by lia. symmetry. apply Z.mod_small. lia.
  - intros ->. rewrite <- (Z.mod_small d 10) at 2 by lia.
    replace (10 + (a + d) mod 10 - a) with ((a + d) mod 10 + (10 - a)) by lia.
    rewrite Zplus_mod_idemp_l. replace (a + d + (10 - a)) with (d + 1 * 10) by lia.
    by apply Z.mod_add.
Qed.

(** A PIN counts as simple exactly when it has fewer than six bytes or consists of
    digits each of which is its predecessor plus one constant step, modulo ten. *)
Theorem simple_pin_exact pin :
  is_simple_pin pin = true ↔
  str_len pin < DEFAULT_HELLO_PIN_MIN_LEN ∨
  ∃ digits step, mapM to_digit pin = Some digits ∧
    ∀ i a b, digits !! i = Some a → digits !! S i = Some b → b = (a + step) mod 10.
Proof.
  unfold is_simple_pin. destruct (Z.ltb_spec (str_len pin) DEFAULT_HELLO_PIN_MIN_LEN); [naive_solver|].
  destruct (mapM to_digit pin) as [digits|] eqn:Ed; [|naive_solver lia].
  pose proof (digits_range _ _ Ed) as Hr. rewrite Forall_lookup in Hr. rewrite all_equal_spec. split.
  - intros [d Hd]. right. exists digits, (d mod 10). split; [done|]. rewrite deltas_spec in Hd.
    intros i a b Ha Hb. apply delta_step; [by apply (Hr (S i))|by apply Z.mod_pos_bound|].
    rewrite <- (Hd i a b Ha Hb). symmetry. by apply Zmod_mod.
  - intros [|(? & step & [= <-] & Hs)]; [lia|]. exists (step mod 10). rewrite deltas_spec.
    intros i a b Ha Hb. apply delta_step; [by apply (Hr (S i))|by apply Z.mod_pos_bound|].
    rewrite Zplus_mod_idemp_r. by apply (Hs i).
Qed.

Lemma check_policy_ok get key actual label :
  check_policy get key actual label = Ok tt ↔
  ∀ min, get key = Some (PolicyValue_Int min) → min ≤ actual.
Proof.
  unfold check_policy. destruct (get key) as [[min|s]|]; [|naive_solver..].
  destruct (Z.ltb_spec actual min); split; try done.
  - intros H'. specialize (H' min eq_refl). lia.
  - by intros _ m [= <-].
Qed.

Lemma policy_seq_ok (m : result unit string) (k : result unit string) :
  (let? _ := m in k) = Ok tt ↔ m = Ok tt ∧ k = Ok tt.
Proof. destruct m as [[]|]; naive_solver. Qed.

(** A PIN meets the Intune policy exactly when the policy cache can be opened and each
    of the five counts, of all characters, digits, lower-case letters, upper-case letters
    and symbols, reaches the minimum the cache holds for it, if it holds one. A cache
    file that does not exist holds none, so every PIN passes; an existing file that
    cannot be opened refuses every PIN. *)
Theorem pin_policy_exact is_root ft file pin :
  (meets_intune_pin_policy is_root ft file pin = Ok tt ↔
   ∃ cache, (PolicyCache_new is_root false ft file).2 = Some cache ∧
   ∀ key count, (key, count) ∈
    [("linux_passwordpolicy_minimumlength", wrap32 (Z.of_nat (length pin)));
     ("linux_passwordpolicy_minimumdigits", count_chars is_ascii_digit pin);
     ("linux_passwordpolicy_minimumlowercase", count_chars is_ascii_lowercase pin);
     ("linux_passwordpolicy_minimumuppercase", count_chars is_ascii_uppercase pin);
     ("linux_passwordpolicy_minimumsymbols",
       count_chars (λ c, negb (is_ascii_alphanumeric c)) pin)] →
   ∀ min, policy_get cache key = Some (PolicyValue_Int min) → min ≤ count) ∧
  meets_intune_pin_policy is_root ft None pin = Ok tt ∧
  (∀ t, open_fault ft = true →
     meets_intune_pin_policy is_root ft (Some t) pin = Err "Failed to load policy cache.").
Proof.
  split_and!.
  - unfold meets_intune_pin_policy. destruct (PolicyCache_new is_root false ft file) as [f' [cache|]];
      [|split; [done|intros (? & ? & _); done]]. cbn [snd].
    rewrite !policy_seq_ok, !check_policy_ok. setoid_rewrite elem_of_cons. setoid_rewrite elem_of_cons.
    setoid_rewrite elem_of_cons. setoid_rewrite elem_of_cons. setoid_rewrite elem_of_cons.
    setoid_rewrite elem_of_nil. split.
    + intros (H1 & H2 & H3 & H4 & H5). exists cache. split; [done|]. intros key count Hk.
      destruct Hk as [[= -> ->]|[[= -> ->]|[[= -> ->]|[[= -> ->]|[[= -> ->]|[]]]]]]; auto.
    + intros (? & [= <-] & H). split_and!; intros min; apply H; tauto.
  - unfold meets_intune_pin_policy, PolicyCache_new, open_cache. by rewrite !andb_false_r.
  - intros t Ht. unfold meets_intune_pin_policy, PolicyCache_new, open_cache. by rewrite Ht.
Qed.

(** The vectors of the module's tests. *)
Definition ascii_pin (s : string) : pin_chars :=
  (λ c, Z.of_N (Ascii.N_of_ascii c)) <$> String.list_ascii_of_string s.

Example simple_pin_vectors :
  is_simple_pin <$> (ascii_pin <$> ["111111"; "123456"; "135791"; "963074"; "159371"; "703692"; ""; "abcx";
    "123451"; "187265"; "abcxyz"; "12a456"; "432187"])
  = [true; true; true; true; true; true; true; true; false; false; false; false; false].
Proof. vm_compute. done. Qed.
