(* ===== verification/Client.v ===== *)
(** * The clients' side of the socket: [client_sync.rs] and [client.rs]

    The PAM and NSS modules use the blocking client: one request is written, and the
    answer is read in buffers of 1024 bytes until a buffer is not filled. The command
    line tools use the asynchronous client, which decodes whatever has arrived after
    every read. The socket and the clock are sequences of what each turn of the loop
    observes, so the theorems hold for every behaviour of the peer. *)
From stdpp Require Import base gmap strings list.
From Stdlib Require Import ZArith Lia.
From S2P Require Import Prelude Proto Interface Db Runtime Caches Config Daemon Models.

Open Scope rust_scope.

(** ** Data *)

Inductive ClientError :=
| ClientError_JsonEncode
| ClientError_SetTimeout
| ClientError_Write
| ClientError_Clock
| ClientError_TimedOut
| ClientError_Read
| ClientError_JsonDecode.

#[export] Instance ClientError_eq_dec : EqDecision ClientError.
Proof. solve_decision. Defined.

(** One [read] of the stream: the bytes it put at the front of the buffer (none at the
    end of the stream), [WouldBlock] or [TimedOut], or another failure. *)
Inductive ReadOutcome :=
| ReadOutcome_Bytes (b : bytes)
| ReadOutcome_WouldBlock
| ReadOutcome_Failed.

(** A turn of the loop: the time since the request was written, in nanoseconds, at the
    top of the loop and after a read that timed out ([None] when the clock went back),
    and the outcome of the read. *)
Record ReadTurn := { rt_elapsed : option Z; rt_outcome : ReadOutcome; rt_retry : option Z }.

Definition BUFFER_LEN : nat := 1024.

Definition zeros (n : nat) : bytes := replicate n Byte.x00.

(** ** [client_sync.rs] *)

(** [should_skip_daemon_call]: [unit] is the variable [SYSTEMD_ACTIVATION_UNIT]. *)
Definition should_skip_daemon_call (unit : option string) : bool :=
  match unit with
  | Some v => String.eqb v "himmelblaud.service" || String.eqb v "himmelblaud-tasks.service"
  | None => false
  end.

(** The loop of [call_and_wait]: the bytes to decode, or [None] while it still runs.
    Every read appends the whole buffer, zeros included; the end drops what lies
    behind the [counter] bytes received. *)
Fixpoint read_loop (timeout : Z) (turns : list ReadTurn) (read_started : bool) (data : bytes)
  (counter : nat) : option (result bytes ClientError) :=
  match turns with
  | [] => None
  | t :: turns =>
      match rt_elapsed t with
      | None => Some (Err ClientError_Clock)
      | Some durr =>
          if timeout <? durr then Some (Ok (take counter data))
          else
            match rt_outcome t with
            | ReadOutcome_Bytes b =>
                if decide (length b = 0%nat) then
                  if read_started then Some (Ok (take counter data))
                  else read_loop timeout turns read_started data counter
                else
                  let data := data ++ b ++ zeros (BUFFER_LEN - length b) in
                  let counter := (counter + length b)%nat in
                  if decide (length b = BUFFER_LEN) then read_loop timeout turns true data counter
                  else Some (Ok (take counter data))
            | ReadOutcome_WouldBlock =>
                match rt_retry t with
                | None => Some (Err ClientError_Clock)
                | Some durr =>
                    if timeout <? durr then Some (Err ClientError_TimedOut)
                    else read_loop timeout turns read_started data counter
                end
            | ReadOutcome_Failed => Some (Err ClientError_Read)
            end
      end
  end.

(** How the calls on the socket before the first read turn out. *)
Record SendFaults := { read_timeout_ok : bool; write_timeout_ok : bool; write_ok : bool }.

Definition NANOS : Z := 1000000000.

Section client.
Context {X : Ext} {JQ : Json ClientRequest} {JR : Json ClientResponse}.

Definition call_and_wait (ft : SendFaults) (turns : list ReadTurn) (req : ClientRequest) (timeout : Z)
  : option (result ClientResponse ClientError) :=
  match to_vec req with
  | None => Some (Err ClientError_JsonEncode)
  | Some _ =>
      if negb (read_timeout_ok ft) then Some (Err ClientError_SetTimeout)
      else if negb (write_timeout_ok ft) then Some (Err ClientError_SetTimeout)
      else if negb (write_ok ft) then Some (Err ClientError_Write)
      else
        match read_loop (timeout * NANOS) turns false [] 0 with
        | None => None
        | Some (Err e) => Some (Err e)
        | Some (Ok data) => Some (ok_or (from_slice data) ClientError_JsonDecode)
        end
  end.

(** The request written, if it is, and the result. *)
Definition call_and_forget (ft : SendFaults) (req : ClientRequest) : option bytes * result unit ClientError :=
  match to_vec req with
  | None => (None, Err ClientError_JsonEncode)
  | Some data =>
      if negb (write_timeout_ok ft) then (None, Err ClientError_SetTimeout)
      else if negb (write_ok ft) then (None, Err ClientError_Write)
      else (Some data, Ok tt)
  end.

(** ** [client.rs] *)

(** [Framed::next] over [ClientCodec]: the buffer is decoded, and read into again while
    it does not hold a message. The end of [chunks] is the end of the stream. *)
Fixpoint framed_next (chunks : list bytes) (buf : bytes) : option ClientResponse :=
  match codec_decode buf with
  | (Some res, _) => Some res
  | (None, buf) =>
      match chunks with
      | [] => None
      | c :: chunks => framed_next chunks (buf ++ c)
      end
  end.

(** [connected] is the outcome of connecting and of sending the request; the client
    answers with an error when the stream ends or fails before a response. *)
Definition call_daemon_inner (connected : bool) (chunks : list bytes) (req : ClientRequest)
  : result ClientResponse ClientError :=
  if negb connected then Err ClientError_Write
  else match codec_encode req [] with
       | Err _ => Err ClientError_JsonEncode
       | Ok _ => ok_or (framed_next chunks []) ClientError_Read
       end.

(** [timed_out]: the timer fires before the exchange is over. *)
Definition call_daemon (timed_out connected : bool) (chunks : list bytes) (req : ClientRequest)
  : result ClientResponse ClientError :=
  if timed_out then Err ClientError_TimedOut else call_daemon_inner connected chunks req.

(** ** What the peer sends *)

(** A turn in time whose read finds nothing yet. *)
Definition waits (timeout : Z) (t : ReadTurn) : Prop :=
  (∃ d, rt_elapsed t = Some d ∧ d ≤ timeout) ∧ rt_outcome t = ReadOutcome_WouldBlock ∧
  (∃ d, rt_retry t = Some d ∧ d ≤ timeout).

(** A turn in time whose read returns [b]. *)
Definition receives (timeout : Z) (b : bytes) (t : ReadTurn) : Prop :=
  (∃ d, rt_elapsed t = Some d ∧ d ≤ timeout) ∧ rt_outcome t = ReadOutcome_Bytes b.

(** The turns read the bytes [data] off a stream that stays open: full buffers, with
    reads that find nothing in between. *)
Inductive delivered (timeout : Z) : bytes → list ReadTurn → Prop :=
| delivered_nil : delivered timeout [] []
| delivered_wait data t turns :
    waits timeout t → delivered timeout data turns → delivered timeout data (t :: turns)
| delivered_full b data t turns :
    length b = BUFFER_LEN → receives timeout b t → delivered timeout data turns →
    delivered timeout (b ++ data) (t :: turns).

(** ** Lemmas *)

Lemma read_loop_wait timeout t turns started data counter :
  waits timeout t →
  read_loop timeout (t :: turns) started data counter = read_loop timeout turns started data counter.
Proof.
  intros ((d & He & Hd) & Ho & (d' & Hr & Hd')). simpl. rewrite He, Ho, Hr.
  rewrite !(proj2 (Z.ltb_ge _ _)) by lia. done.
Qed.

(** Reading the whole buffers of a reply: the data read is kept exactly. *)
Lemma read_loop_delivered timeout data turns rest started acc :
  delivered timeout data turns →
  ∃ started', read_loop timeout (turns ++ rest) started acc (length acc)
              = read_loop timeout rest started' (acc ++ data) (length (acc ++ data)) ∧
              (started' = true ↔ started = true ∨ data ≠ []).
Proof.
  intros Hd. revert started acc.
  induction Hd as [|data t turns Hw Hd IH|b data t turns Hb ((d & He & Hd') & Ho) Hd IH]; intros started acc.
  - exists started. rewrite !app_nil_r. split; [done|naive_solver].
  - change ((t :: turns) ++ rest) with (t :: (turns ++ rest)). rewrite (read_loop_wait _ _ _ _ _ _ Hw). auto.
  - destruct (IH true (acc ++ b)) as (st & Hrun & Hst). exists st. split.
    + simpl. rewrite He, Ho, (proj2 (Z.ltb_ge _ _)) by lia.
      rewrite decide_False by (rewrite Hb; done). rewrite decide_True by done.
      rewrite Hb, Nat.sub_diag, app_nil_r, <- Hb, <- length_app, Hrun, <- app_assoc. done.
    + rewrite Hst. split; [|auto]. intros _. right. destruct b; [by unfold BUFFER_LEN in Hb|done].
Qed.

(** ** Theorems *)

(** Round trip through the blocking client: a response the daemon's codec encodes,
    read as full buffers and a last one that is not full, with any number of reads
    that find nothing, all in time, is the response the caller gets. *)
Theorem sync_client_roundtrip ft turns req timeout resp full tail last rest :
  (∀ r data, to_vec r = Some data → from_slice (A := ClientResponse) data = Some r) →
  is_Some (to_vec req) →
  read_timeout_ok ft = true → write_timeout_ok ft = true → write_ok ft = true →
  codec_encode resp [] = Ok (full ++ tail) →
  delivered (timeout * NANOS) full turns →
  (0 < length tail < BUFFER_LEN)%nat → receives (timeout * NANOS) tail last →
  call_and_wait ft (turns ++ last :: rest) req timeout = Some (Ok resp).
Proof.
  intros Hrt [qd Hq] Hf1 Hf2 Hf3 Henc Hfull Htail ((d & He & Hd) & Ho).
  unfold call_and_wait. rewrite Hq, Hf1, Hf2, Hf3. simpl.
  destruct (read_loop_delivered _ _ _ (last :: rest) false [] Hfull) as (st & Hrun & _).
  simpl in Hrun. rewrite Hrun. simpl. rewrite He, Ho, (proj2 (Z.ltb_ge _ _)) by lia.
  rewrite !decide_False by lia. rewrite app_assoc, <- length_app, take_app_length.
  unfold codec_encode in Henc. destruct (to_vec resp) as [data|] eqn:Hv; [|done].
  simpl in Henc. injection Henc as Henc. subst data. by rewrite (Hrt _ _ Hv).
Qed.

(** A response whose encoding fills the last buffer exactly, so that its length is
    a multiple of 1024, is never delivered on a connection the daemon keeps open: the
    client has all of it, waits for more until the timeout, and returns the timeout
    error. *)
Theorem sync_client_full_buffer_lost ft turns req timeout resp data last rest :
  is_Some (to_vec req) →
  read_timeout_ok ft = true → write_timeout_ok ft = true → write_ok ft = true →
  codec_encode resp [] = Ok data →
  delivered (timeout * NANOS) data turns →
  (∃ d, rt_elapsed last = Some d ∧ d ≤ timeout * NANOS) → rt_outcome last = ReadOutcome_WouldBlock →
  (∃ d, rt_retry last = Some d ∧ timeout * NANOS < d) →
  call_and_wait ft (turns ++ last :: rest) req timeout = Some (Err ClientError_TimedOut).
Proof.
  intros [qd Hq] Hf1 Hf2 Hf3 Henc Hdel (d & He & Hd) Ho (d' & Hr & Hd').
  unfold call_and_wait. rewrite Hq, Hf1, Hf2, Hf3. simpl.
  destruct (read_loop_delivered _ _ _ (last :: rest) false [] Hdel) as (st & Hrun & _).
  simpl in Hrun. rewrite Hrun. simpl.
  rewrite He, Ho, Hr, (proj2 (Z.ltb_ge _ _)), (proj2 (Z.ltb_lt _ _)) by lia. done.
Qed.

(** The asynchronous client gets the response however the bytes are cut: no proper
    prefix of an encoded response is itself a response. *)
Theorem async_client_any_chunking connected chunks req resp data :
  (∀ r data, to_vec r = Some data → from_slice (A := ClientResponse) data = Some r) →
  (∀ (r : ClientResponse) p s, to_vec r = Some (p ++ s) → s ≠ [] → from_slice (A := ClientResponse) p = None) →
  is_Some (to_vec req) → connected = true →
  to_vec resp = Some data → concat chunks = data →
  call_daemon false connected chunks req = Ok resp.
Proof.
  intros Hrt Hpre [qd Hq] -> Hv Hc. unfold call_daemon, call_daemon_inner, codec_encode. rewrite Hq. simpl.
  enough (H : ∀ buf, buf ++ concat chunks = data → framed_next chunks buf = Some resp) by (by rewrite (H [])).
  clear Hc. induction chunks as [|c chunks IH]; intros buf Hb; simpl in *.
  - rewrite app_nil_r in Hb. subst buf. unfold codec_decode. by rewrite (Hrt _ _ Hv).
  - destruct (decide (c ++ concat chunks = [])) as [Hn|Hn].
    + rewrite Hn, app_nil_r in Hb. subst buf. unfold codec_decode. by rewrite (Hrt _ _ Hv).
    + unfold codec_decode. rewrite (Hpre resp buf (c ++ concat chunks)); [|by subst data|done].
      apply IH. by rewrite <- app_assoc.
Qed.

End client.

(** ** Instances *)

Section model.

(** Three responses, of [a], [b] and [c] bytes. *)
Definition model_encode (a b c : nat) (r : ClientResponse) : option bytes :=
  match r with
  | ClientResponse_Ok => Some (replicate a Byte.x01)
  | ClientResponse_Error => Some (replicate b Byte.x02)
  | ClientResponse_NotAuthenticated => Some (replicate c Byte.x03)
  | _ => None
  end.

#[local] Instance byte_eq_dec : EqDecision Byte.byte := Byte.byte_eq_dec.

Definition model_decode (a b c : nat) (d : bytes) : option ClientResponse :=
  if decide (d = replicate a Byte.x01) then Some ClientResponse_Ok
  else if decide (d = replicate b Byte.x02) then Some ClientResponse_Error
  else if decide (d = replicate c Byte.x03) then Some ClientResponse_NotAuthenticated
  else None.

Lemma replicate_neq {A} n m (x y : A) : (0 < n)%nat → n ≠ m ∨ x ≠ y → replicate m y ≠ replicate n x.
Proof.
  intros Hn Hxy H. pose proof (f_equal length H) as Hl. rewrite !length_replicate in Hl. subst m.
  destruct n; [lia|]. injection H as ->. by destruct Hxy.
Qed.

Lemma model_json_roundtrip a b c r d :
  (0 < a)%nat → (0 < b)%nat → (0 < c)%nat →
  model_encode a b c r = Some d → model_decode a b c d = Some r.
Proof.
  intros Ha Hb Hc H. unfold model_decode.
  destruct r; try discriminate; apply (inj Some) in H as <-; repeat first
    [rewrite decide_True by done; done | rewrite decide_False by (apply replicate_neq; [done|by right])].
Qed.

Lemma replicate_app_inv {A} n (x : A) p s :
  replicate n x = p ++ s → s ≠ [] → p = replicate (length p) x ∧ (length p < n)%nat.
Proof.
  intros H Hs. pose proof (f_equal length H) as Hl. rewrite length_replicate, length_app in Hl.
  split; [|destruct s; [done|simpl in Hl; lia]].
  apply (f_equal (take (length p))) in H. rewrite take_app_length, take_replicate in H.
  rewrite Nat.min_l in H by lia. done.
Qed.

Lemma model_json_prefix a b c r p s :
  (0 < a)%nat → (0 < b)%nat → (0 < c)%nat →
  model_encode a b c r = Some (p ++ s) → s ≠ [] → model_decode a b c p = None.
Proof.
  intros Ha Hb Hc H Hs. unfold model_decode.
  destruct r; try discriminate; apply (inj Some) in H;
    destruct (replicate_app_inv _ _ _ _ H Hs) as [Hp Hlt]; rewrite Hp;
    repeat (rewrite decide_False by (apply replicate_neq; [done|first [right; discriminate | left; lia]])); done.
Qed.

#[local] Instance model_responses : Json ClientResponse :=
  {| to_vec := model_encode 1 1024 1025; from_slice := model_decode 1 1024 1025 |}.
#[local] Instance model_requests : Json ClientRequest :=
  {| to_vec := λ _, Some []; from_slice := λ _, None |}.

Lemma responses_roundtrip (r : ClientResponse) data : to_vec r = Some data → from_slice data = Some r.
Proof. apply model_json_roundtrip; lia. Qed.

Lemma responses_prefix_free (r : ClientResponse) p s :
  to_vec r = Some (p ++ s) → s ≠ [] → from_slice (A := ClientResponse) p = None.
Proof. apply model_json_prefix; lia. Qed.

Definition sending : SendFaults := {| read_timeout_ok := true; write_timeout_ok := true; write_ok := true |}.

Definition turn (elapsed : Z) (o : ReadOutcome) : ReadTurn :=
  {| rt_elapsed := Some elapsed; rt_outcome := o; rt_retry := Some (elapsed + NANOS) |}.

Lemma in_time timeout elapsed b :
  elapsed ≤ timeout → receives timeout b (turn elapsed (ReadOutcome_Bytes b)).
Proof. intros H. split; [by exists elapsed|done]. Qed.

Lemma sync_client_roundtrip_witness :
  call_and_wait sending [turn 0 ReadOutcome_WouldBlock; turn 5 (ReadOutcome_Bytes (replicate 1024 Byte.x03));
    turn 6 (ReadOutcome_Bytes [Byte.x03])] ClientRequest_Status 60
  = Some (Ok ClientResponse_NotAuthenticated).
Proof.
  apply (sync_client_roundtrip sending [turn 0 ReadOutcome_WouldBlock;
    turn 5 (ReadOutcome_Bytes (replicate 1024 Byte.x03))] ClientRequest_Status 60
    ClientResponse_NotAuthenticated (replicate 1024 Byte.x03) [Byte.x03]
    (turn 6 (ReadOutcome_Bytes [Byte.x03])) []); try reflexivity.
  - exact responses_roundtrip.
  - by exists [].
  - apply delivered_wait; [repeat split; eexists; split; (reflexivity || (unfold NANOS; lia))|].
    rewrite <- (app_nil_r (replicate 1024 Byte.x03)) at 1.
    apply delivered_full; [reflexivity|apply in_time; unfold NANOS; lia|constructor].
  - unfold BUFFER_LEN. simpl. lia.
  - apply in_time. unfold NANOS. lia.
Defined.

Lemma sync_client_full_buffer_lost_witness :
  call_and_wait sending [turn 5 (ReadOutcome_Bytes (replicate 1024 Byte.x02));
    turn (60 * NANOS) ReadOutcome_WouldBlock] ClientRequest_Status 60
  = Some (Err ClientError_TimedOut).
Proof.
  apply (sync_client_full_buffer_lost sending [turn 5 (ReadOutcome_Bytes (replicate 1024 Byte.x02))]
    ClientRequest_Status 60 ClientResponse_Error (replicate 1024 Byte.x02)
    (turn (60 * NANOS) ReadOutcome_WouldBlock) []); try reflexivity.
  - by exists [].
  - rewrite <- (app_nil_r (replicate 1024 Byte.x02)) at 1.
    apply delivered_full; [reflexivity|apply in_time; unfold NANOS; lia|constructor].
  - eexists; split; [reflexivity|lia].
  - eexists; split; [reflexivity|unfold NANOS; lia].
Defined.

Lemma async_client_any_chunking_witness :
  call_daemon false true [[]; replicate 1000 Byte.x02; replicate 24 Byte.x02] ClientRequest_Status
  = Ok ClientResponse_Error.
Proof.
  apply (async_client_any_chunking true [[]; replicate 1000 Byte.x02; replicate 24 Byte.x02]
    ClientRequest_Status ClientResponse_Error (replicate 1024 Byte.x02)); try reflexivity.
  - exact responses_roundtrip.
  - exact responses_prefix_free.
  - by exists [].
Defined.

End model.
