(* ===== verification/Loopback.v ===== *)
(** * Loopback hosts: [is_loopback_address] of [src/pam/src/pam/mod.rs]

    The remote host of a login decides whether it is a remote one. The parser is that
    of [std::net::IpAddr]: decimal octets without leading zeros; groups of at most four
    hexadecimal digits, with one [::] and an IPv4 address at the end. *)
From stdpp Require Import base gmap strings list.
From Stdlib Require Import ZArith Lia Ascii.
From S2P Require Import Prelude.

Open Scope rust_scope.

Inductive IpAddr := V4 (octets : list Z) | V6 (groups : list Z).

(** A parser takes input from the front, or fails and takes none. *)
Definition Parser (A : Type) : Type := string → option (A * string).

Definition parse_bind {A B} (p : Parser A) (k : A → Parser B) : Parser B := λ s,
  match p s with Some (a, s') => k a s' | None => None end.

Definition read_given_char (c : ascii) : Parser unit := λ s,
  match s with
  | String d s' => if Ascii.eqb d c then Some (tt, s') else None
  | EmptyString => None
  end.

(** [char::to_digit] for radix 10 and 16. *)
Definition digit_of (radix : Z) (c : ascii) : option Z :=
  let n := Z.of_N (N_of_ascii c) in
  let d := if (48 <=? n) && (n <=? 57) then n - 48
           else if (97 <=? n) && (n <=? 102) then n - 87
           else if (65 <=? n) && (n <=? 70) then n - 55 else radix in
  if d <? radix then Some d else None.

(** The digits at the front of the input, at most [max], with the value read so far; the
    input after more than [max] digits is refused, and so is a value over [limit]. *)
Fixpoint read_digits (radix limit : Z) (max : nat) (count : nat) (value : Z) (s : string)
  : option (Z * nat * string) :=
  match s with
  | EmptyString => Some (value, count, s)
  | String c s' =>
      match digit_of radix c with
      | None => Some (value, count, s)
      | Some d =>
          let value := value * radix + d in
          if limit <? value then None
          else match max with
               | O => None
               | S max => read_digits radix limit max (S count) value s'
               end
      end
  end.

(** [read_number(radix, Some(max_digits), allow_zero_prefix)] for an integer of at most [limit]. *)
Definition read_number (radix limit : Z) (max_digits : nat) (allow_zero_prefix : bool) : Parser Z := λ s,
  match read_digits radix limit max_digits 0 0 s with
  | None => None
  | Some (value, count, s') =>
      if decide (count = 0%nat) then None
      else if negb allow_zero_prefix && String.prefix "0" s && bool_decide (1 < count)%nat then None
      else Some (value, s')
  end.

Definition read_separator {A} (sep : ascii) (index : nat) (inner : Parser A) : Parser A :=
  match index with
  | O => inner
  | S _ => parse_bind (read_given_char sep) (λ _, inner)
  end.

Definition DOT : ascii := ".".
Definition COLON : ascii := ":".

Definition read_octet (index : nat) : Parser Z := read_separator DOT index (read_number 10 255 3 false).

Definition read_ipv4_addr : Parser (list Z) :=
  parse_bind (read_octet 0) (λ a, parse_bind (read_octet 1) (λ b,
  parse_bind (read_octet 2) (λ c, parse_bind (read_octet 3) (λ d, λ s, Some ([a; b; c; d], s))))).

(** [read_groups] for the slots [i .. i + n): the groups read, and whether they end
    with an IPv4 address. *)
Fixpoint read_groups (n i : nat) (s : string) : list Z * bool * string :=
  match n with
  | O => ([], false, s)
  | S n =>
      match (if decide (n = 0%nat) then None else read_separator COLON i read_ipv4_addr s) with
      | Some ([a; b; c; d], s') => ([a * 256 + b; c * 256 + d], true, s')
      | _ =>
          match read_separator COLON i (read_number 16 65535 4 true) s with
          | None => ([], false, s)
          | Some (g, s') => let '(gs, v4, s'') := read_groups n (S i) s' in (g :: gs, v4, s'')
          end
      end
  end.

Definition read_ipv6_addr : Parser (list Z) := λ s,
  let '(head, head_ipv4, s1) := read_groups 8 0 s in
  if decide (length head = 8%nat) then Some (head, s1)
  else if head_ipv4 : bool then None
  else
    match read_given_char COLON s1 with
    | Some (_, s2) =>
        match read_given_char COLON s2 with
        | Some (_, s3) =>
            let '(tail, _, s4) := read_groups (8 - (length head + 1)) 0 s3 in
            Some (head ++ replicate (8 - length head - length tail) 0 ++ tail, s4)
        | None => None
        end
    | None => None
    end.

(** [str::parse::<IpAddr>]: the whole input is an address. *)
Definition parse_ip_addr (s : string) : option IpAddr :=
  match match read_ipv4_addr s with
        | Some (o, s') => Some (V4 o, s')
        | None => match read_ipv6_addr s with Some (g, s') => Some (V6 g, s') | None => None end
        end with
  | Some (a, EmptyString) => Some a
  | _ => None
  end.

(** [Ipv4Addr::is_loopback] and [Ipv6Addr::is_loopback] *)
Definition is_loopback (a : IpAddr) : bool :=
  match a with
  | V4 octets => match octets with o :: _ => o =? 127 | [] => false end
  | V6 groups => bool_decide (groups = [0; 0; 0; 0; 0; 0; 0; 1])
  end.

Fixpoint trim_start_matches (c : ascii) (s : string) : string :=
  match s with
  | String d s' => if Ascii.eqb d c then trim_start_matches c s' else s
  | EmptyString => s
  end.

Fixpoint trim_end_matches (c : ascii) (s : string) : string :=
  match s with
  | EmptyString => EmptyString
  | String d s' =>
      match trim_end_matches c s' with
      | EmptyString => if Ascii.eqb d c then EmptyString else String d EmptyString
      | t => String d t
      end
  end.

Definition is_loopback_address (host : string) : bool :=
  if String.eqb host EmptyString then false
  else if String.eqb (to_lowercase host) "localhost" then true
  else
    let host := trim_end_matches "]" (trim_start_matches "[" host) in
    let host := (split_once "%" host).1 in
    match parse_ip_addr host with
    | Some a => is_loopback a
    | None => false
    end.

(** The module's tests. *)
Example loopback_vectors :
  is_loopback_address <$>
    ["localhost"; "LOCALHOST"; "LocalHost"; "127.0.0.1"; "127.0.0.2"; "127.255.255.255"; "::1"; "[::1]";
     "::1%lo"; "::1%eth0"; "[::1%lo]"] = replicate 11 true ∧
  is_loopback_address <$>
    [EmptyString; "192.168.1.1"; "10.0.0.1"; "::2"; "fe80::1"; "2001:db8::1"; "[::2]"; "[fe80::1]";
     "fe80::1%eth0"; "example.com"; "remotehost"; "192.168.1.invalid"] = replicate 12 false.
Proof. split; reflexivity. Qed.

(** Forms the parser refuses or reads as something else. *)
Example loopback_edge_vectors :
  is_loopback_address <$> ["127.0.0.01"; "127.1"; "0x7f.0.0.1"; "::ffff:127.0.0.1"; "0:0:0:0:0:0:0:1"; "::0001"]
  = [false; false; false; false; true; true].
Proof. reflexivity. Qed.

(** ** Properties *)

(** What the parser needs of the decimal form of an octet. *)
Definition octet_ok (o : Z) : Prop :=
  (∀ rest, read_number 10 255 3 false (uint_to_string o +:+ String DOT rest) = Some (o, String DOT rest)) ∧
  read_number 10 255 3 false (uint_to_string o) = Some (o, EmptyString) ∧
  contains_char "[" (uint_to_string o) = false ∧ contains_char "]" (uint_to_string o) = false ∧
  contains_char "%" (uint_to_string o) = false.

Lemma octets_ok : Forall octet_ok (seqZ 0 256).
Proof.
  let l := eval vm_compute in (seqZ 0 256) in change (seqZ 0 256) with l.
  repeat (apply Forall_cons; split; [unfold octet_ok; split_and!; [intros rest|..]; reflexivity|]). constructor.
Qed.

Lemma octet_is_ok o : 0 ≤ o ≤ 255 → octet_ok o.
Proof. intros Ho. pose proof octets_ok as H. rewrite Forall_forall in H. apply H, elem_of_seqZ. lia. Qed.

Lemma contains_char_app c s t : contains_char c (s +:+ t) = contains_char c s || contains_char c t.
Proof. induction s as [|d s IH]; simpl; [done|]. by rewrite IH, orb_assoc. Qed.

Lemma trim_start_matches_free c s : contains_char c s = false → trim_start_matches c s = s.
Proof. destruct s as [|d s]; simpl; [done|]. by intros [-> _]%orb_false_iff. Qed.

Lemma trim_end_matches_free c s : contains_char c s = false → trim_end_matches c s = s.
Proof.
  induction s as [|d s IH]; simpl; [done|]. intros [Hd Hs]%orb_false_iff. rewrite (IH Hs).
  destruct s; [by rewrite Hd|done].
Qed.

Lemma split_once_free c s : contains_char c s = false → split_once c s = (s, None).
Proof.
  induction s as [|d s IH]; simpl; [done|]. intros [-> Hs]%orb_false_iff. by rewrite (IH Hs).
Qed.

(** The dotted form of an IPv4 address. *)
Definition dotted (a b c d : Z) : string :=
  uint_to_string a +:+ String DOT (uint_to_string b +:+ String DOT (uint_to_string c +:+
    String DOT (uint_to_string d))).

Lemma dotted_nonempty a b c d : dotted a b c d ≠ EmptyString.
Proof. unfold dotted. by destruct (uint_to_string a). Qed.

(** An address in dotted form is a loopback one when its first octet is 127. *)
Lemma loopback_dotted_eq a b c d :
  0 ≤ a ≤ 255 → 0 ≤ b ≤ 255 → 0 ≤ c ≤ 255 → 0 ≤ d ≤ 255 →
  is_loopback_address (dotted a b c d) = (a =? 127).
Proof.
  intros (Ra & _ & A1 & A2 & A3)%octet_is_ok (Rb & _ & B1 & B2 & B3)%octet_is_ok
    (Rc & _ & C1 & C2 & C3)%octet_is_ok (_ & Rd & D1 & D2 & D3)%octet_is_ok.
  assert (∀ x, contains_char x (uint_to_string a) = false → contains_char x (uint_to_string b) = false →
    contains_char x (uint_to_string c) = false → contains_char x (uint_to_string d) = false →
    Ascii.eqb DOT x = false → contains_char x (dotted a b c d) = false) as Hfree.
  { intros x Ha Hb Hc Hd Hx. unfold dotted. repeat (rewrite contains_char_app; cbn [contains_char]).
    by rewrite Ha, Hb, Hc, Hd, Hx. }
  unfold is_loopback_address. rewrite (trim_start_matches_free "[") by (by apply Hfree).
  rewrite (trim_end_matches_free "]") by (by apply Hfree). rewrite (split_once_free "%") by (by apply Hfree).
  cbn [fst].
  assert (parse_ip_addr (dotted a b c d) = Some (V4 [a; b; c; d])) as ->.
  { unfold parse_ip_addr, read_ipv4_addr, read_octet, read_separator, parse_bind, dotted.
    rewrite Ra. simpl. rewrite Rb. simpl. rewrite Rc. simpl. by rewrite Rd. }
  destruct (String.eqb_spec (dotted a b c d) EmptyString) as [He|_]; [by destruct (dotted_nonempty a b c d)|].
  destruct (String.eqb_spec (to_lowercase (dotted a b c d)) "localhost") as [He|_]; [exfalso|done].
  apply (f_equal (contains_char DOT)) in He.
  assert (∀ s, contains_char DOT s = true → contains_char DOT (to_lowercase s) = true) as Hdot.
  { intros s. induction s as [|x s IH]; [done|]. simpl. intros [Hx|Hx]%orb_true_iff.
    - apply orb_true_iff; left. apply Ascii.eqb_eq in Hx as ->. done.
    - apply orb_true_iff; right. by apply IH. }
  rewrite Hdot in He; [done|]. unfold dotted. rewrite contains_char_app. simpl. apply orb_true_r.
Qed.

(** A host written as an IPv4 address in dotted form is local exactly when its
    first octet is 127: the whole block 127.0.0.0/8 and nothing else. *)
Theorem loopback_dotted a b c d :
  0 ≤ a ≤ 255 → 0 ≤ b ≤ 255 → 0 ≤ c ≤ 255 → 0 ≤ d ≤ 255 →
  is_loopback_address (dotted a b c d) = (a =? 127).
Proof. apply loopback_dotted_eq. Qed.

Lemma loopback_dotted_witness :
  is_loopback_address (dotted 127 255 0 9) = true ∧ is_loopback_address (dotted 128 0 0 1) = false.
Proof.
  split; [rewrite (loopback_dotted 127 255 0 9) by lia|rewrite (loopback_dotted 128 0 0 1) by lia]; reflexivity.
Defined.
