(* ===== verification/Pam.v ===== *)
(** * The PAM conversation: [src/common/src/pam.rs] and [src/common/src/auth.rs]

    The client side of a login. A request goes to the daemon, its answer decides what
    the user is asked and what the next request is, until a result for PAM is known.
    A computation [PM] runs in a [PamWorld]: the user and the devices ([pw_env], of any
    type with the classes [PamEnv] and [FidoEnv]), the daemon behind its socket
    ([pw_daemon], of any type with the class [DaemonLink]), the secret the keyring
    printer captures, the PAM item [PAM_AUTHTOK], the cache of mapped names, and the
    exchanges with the daemon so far. It returns [None] when a loop has used up its fuel. *)
From stdpp Require Import base gmap strings list.
From Stdlib Require Import ZArith Lia Ascii.
From S2P Require Import Prelude Proto Interface Db Runtime Caches Config Daemon HelloPin Client.

Open Scope rust_scope.

(** ** [pam.rs] *)

Inductive PamResultCode :=
| PAM_SUCCESS | PAM_OPEN_ERR | PAM_SYMBOL_ERR | PAM_SERVICE_ERR | PAM_SYSTEM_ERR | PAM_BUF_ERR
| PAM_PERM_DENIED | PAM_AUTH_ERR | PAM_CRED_INSUFFICIENT | PAM_AUTHINFO_UNAVAIL
| PAM_USER_UNKNOWN | PAM_MAXTRIES | PAM_NEW_AUTHTOK_REQD | PAM_ACCT_EXPIRED | PAM_SESSION_ERR
| PAM_CRED_UNAVAIL | PAM_CRED_EXPIRED | PAM_CRED_ERR | PAM_NO_MODULE_DATA | PAM_CONV_ERR
| PAM_AUTHTOK_ERR | PAM_AUTHTOK_RECOVERY_ERR | PAM_AUTHTOK_LOCK_BUSY | PAM_AUTHTOK_DISABLE_AGING
| PAM_TRY_AGAIN | PAM_IGNORE | PAM_ABORT | PAM_AUTHTOK_EXPIRED | PAM_MODULE_UNKNOWN | PAM_BAD_ITEM
| PAM_CONV_AGAIN | PAM_INCOMPLETE.

#[export] Instance PamResultCode_eq_dec : EqDecision PamResultCode.
Proof. solve_decision. Defined.

(** [{:?}] of a code that [pam_fail!] prints. *)
Definition debug_code (c : PamResultCode) : string :=
  match c with
  | PAM_SUCCESS => "PAM_SUCCESS" | PAM_OPEN_ERR => "PAM_OPEN_ERR" | PAM_SYMBOL_ERR => "PAM_SYMBOL_ERR"
  | PAM_SERVICE_ERR => "PAM_SERVICE_ERR" | PAM_SYSTEM_ERR => "PAM_SYSTEM_ERR"
  | PAM_BUF_ERR => "PAM_BUF_ERR" | PAM_PERM_DENIED => "PAM_PERM_DENIED" | PAM_AUTH_ERR => "PAM_AUTH_ERR"
  | PAM_CRED_INSUFFICIENT => "PAM_CRED_INSUFFICIENT" | PAM_AUTHINFO_UNAVAIL => "PAM_AUTHINFO_UNAVAIL"
  | PAM_USER_UNKNOWN => "PAM_USER_UNKNOWN" | PAM_MAXTRIES => "PAM_MAXTRIES"
  | PAM_NEW_AUTHTOK_REQD => "PAM_NEW_AUTHTOK_REQD" | PAM_ACCT_EXPIRED => "PAM_ACCT_EXPIRED"
  | PAM_SESSION_ERR => "PAM_SESSION_ERR" | PAM_CRED_UNAVAIL => "PAM_CRED_UNAVAIL"
  | PAM_CRED_EXPIRED => "PAM_CRED_EXPIRED" | PAM_CRED_ERR => "PAM_CRED_ERR"
  | PAM_NO_MODULE_DATA => "PAM_NO_MODULE_DATA" | PAM_CONV_ERR => "PAM_CONV_ERR"
  | PAM_AUTHTOK_ERR => "PAM_AUTHTOK_ERR" | PAM_AUTHTOK_RECOVERY_ERR => "PAM_AUTHTOK_RECOVERY_ERR"
  | PAM_AUTHTOK_LOCK_BUSY => "PAM_AUTHTOK_LOCK_BUSY"
  | PAM_AUTHTOK_DISABLE_AGING => "PAM_AUTHTOK_DISABLE_AGING" | PAM_TRY_AGAIN => "PAM_TRY_AGAIN"
  | PAM_IGNORE => "PAM_IGNORE" | PAM_ABORT => "PAM_ABORT" | PAM_AUTHTOK_EXPIRED => "PAM_AUTHTOK_EXPIRED"
  | PAM_MODULE_UNKNOWN => "PAM_MODULE_UNKNOWN" | PAM_BAD_ITEM => "PAM_BAD_ITEM"
  | PAM_CONV_AGAIN => "PAM_CONV_AGAIN" | PAM_INCOMPLETE => "PAM_INCOMPLETE"
  end.

Record Options := {
  o_debug : bool; use_first_pass : bool; ignore_unknown_user : bool; mfa_poll_prompt : bool;
  no_hello_pin : bool; set_authtok : bool; try_unseal : bool; force_reauth : bool
}.

(** [Options::try_from]: an argument that is not UTF-8 is [None]. *)
Definition options_try_from (args : list (option string)) : result Options unit :=
  match mapM id args with
  | None => Err tt
  | Some gopts =>
      let contains s := bool_decide (s ∈ gopts) in
      let try_unseal := contains "try_unseal" in
      Ok {| o_debug := contains "debug";
            use_first_pass := contains "use_first_pass" || try_unseal;
            ignore_unknown_user := contains "ignore_unknown_user" || try_unseal;
            mfa_poll_prompt := contains "mfa_poll_prompt";
            no_hello_pin := contains "no_hello_pin";
            set_authtok := contains "set_authtok" || contains "keyring_authtok";
            try_unseal := try_unseal;
            force_reauth := false |}
  end.

(** ** Text *)

(** [s.contains(sub)] for a pattern that is a string. *)
Definition contains_str (s sub : string) : bool :=
  match String.index 0 sub s with Some _ => true | None => false end.

Definition byte_val (c : ascii) : Z := Z.of_N (N_of_ascii c).
Definition cont_bits (c : ascii) : Z := Z.land (byte_val c) 0x3f.

(** [s.chars()] of a UTF-8 string. *)
Fixpoint chars (s : string) : pin_chars :=
  match s with
  | EmptyString => []
  | String a s1 =>
      let x := byte_val a in
      if x <? 0x80 then x :: chars s1
      else if x <? 0xe0 then
        match s1 with
        | String b s2 => Z.lor (Z.shiftl (Z.land x 0x1f) 6) (cont_bits b) :: chars s2
        | _ => []
        end
      else if x <? 0xf0 then
        match s1 with
        | String b (String c s3) =>
            Z.lor (Z.shiftl (Z.land x 0x0f) 12) (Z.lor (Z.shiftl (cont_bits b) 6) (cont_bits c)) :: chars s3
        | _ => []
        end
      else
        match s1 with
        | String b (String c (String d s4)) =>
            Z.lor (Z.shiftl (Z.land x 0x07) 18) (Z.lor (Z.shiftl (cont_bits b) 12)
              (Z.lor (Z.shiftl (cont_bits c) 6) (cont_bits d))) :: chars s4
        | _ => []
        end
  end.

(** [s.len()] *)
Definition byte_len (s : string) : Z := Z.of_nat (String.length s).

Definition NL : string := String LF EmptyString.

(** ** The outside *)

(** Getters of [config_gen.rs] that the PAM client calls. *)
Class PamConfig `{I : IniFile} : Type := {
  get_socket_path : Ini → string;
  get_user_map_file : Ini → string;
  get_hello_pin_min_length : Ini → Z;
  get_entra_id_password_prompt : Ini → string;
  get_hello_pin_prompt : Ini → string;
  get_fido_timeout : Ini → Z;
  get_fido_prompt : Ini → string;
  get_fido_presence_prompt : Ini → string;
  get_qr_bluetooth_prompt : Ini → string;
  get_enable_passwordless : Ini → bool;
  get_mfa_method : Ini → option string;
  get_request_timeout : Ini → Z
}.

(** A QR code of the crate [qrcodegen]: its size and its modules (light outside). *)
Record QrCode := { qr_size : Z; get_module : Z → Z → bool }.

(** The crates [url], [regex], [urlencoding] and [qrcodegen]: whether a URL parses,
    the first URL of a text, the groups 2, 3 and 4 of the TOTP regular expression, and
    the code of a text. *)
Class TextOps : Type := {
  url_ok : string → bool;
  find_url : string → option string;
  totp_captures : string → option (option string * option string * option string);
  urldecode : string → option string;
  encode_text : string → result QrCode string
}.

Inductive PamMessageStyle := PAM_PROMPT_ECHO_OFF | PAM_TEXT_INFO | PAM_ERROR_MSG.

(** The interface [org.bluez.Adapter1] of an object on the bus, if it has one, and in
    it the property [Powered], if it is there and a boolean. *)
Definition DbusObject : Type := option (option (option bool)).

(** The daemon's socket, as [DaemonClientBlocking] uses it. *)
Class DaemonLink `{X : Ext} (V : Type) : Type := {
  connect : string → V → bool * V;
  daemon_call : ClientRequest → Z → V → result ClientResponse ClientError * V;
  daemon_forget : ClientRequest → V → result unit ClientError * V
}.

(** The terminal, the application's conversation function, the clock, the message bus
    and the file of the policy cache. *)
Class PamEnv (U : Type) : Type := {
  conv_send : PamMessageStyle → string → U → result (option string) PamResultCode * U;
  println : string → U → U;
  eprintln : string → U → U;
  prompt_password : string → U → option string * U;
  sleep_secs : Z → U → U;
  bluez_objects : U → option (list DbusObject) * U;
  policy_root : bool;
  policy_faults : OpenFaults;
  policy_file : U → DbFile (list PolicyRow)
}.

(** Status updates of the crate [authenticator]. *)
Inductive StatusPinUv :=
| PinRequired | InvalidPin (attempts : option Z) | PinAuthBlocked | PinBlocked
| InvalidUv (attempts : option Z) | UvBlocked | OtherPinUv (e : string).

Inductive StatusUpdate :=
| InteractiveManagement | SelectDeviceNotice | PresenceRequired
| PinUvError (e : StatusPinUv) | SelectResultNotice.

Record Assertion := {
  as_credential_id : option string; as_auth_data : string; as_signature : string;
  as_user_handle : option string
}.

Record SignArgs := { sa_client_data_hash : string; sa_relying_party_id : string; sa_allow_list : list string }.

(** Security keys and phones: the crates [base64], [serde_json], [sha2],
    [authenticator] (USB) and [libwebauthn] (QR and Bluetooth), and how the runtime
    schedules the two. *)
Class FidoEnv (U : Type) : Type := {
  base64url : string → string;
  base64_decode : string → option string;
  json_object : list (string * string) → option string;
  sha256 : string → string;
  runtime_new : U → bool * U;
  authenticator_new : U → bool * U;
  sign_start : Z → SignArgs → U → bool * U;
  next_status : U → option StatusUpdate * U;
  send_pin : string → U → bool * U;
  sign_result : U → option Assertion * U;
  cable_new : U → string * U;
  cable_channel : U → bool * U;
  cable_assertion : SignArgs → U → option (list Assertion) * U;
  cable_auth_data : string → option string;
  usb_first : U → bool * U;
  usb_joined : U → bool * U
}.

(** ** The world and the monad *)

Section monad.
Context {X : Ext} {U V : Type}.

Record PamWorld := {
  pw_env : U;
  pw_daemon : V;
  pw_secret : option string;
  pw_authtok : option string;
  pw_names : MappingFile;
  pw_calls : list (ClientRequest * result ClientResponse ClientError)
}.

Definition PM (A : Type) : Type := PamWorld → option (A * PamWorld).

#[global] Instance PM_ret : MRet PM := λ A a w, Some (a, w).
#[global] Instance PM_bind : MBind PM := λ A B f m w,
  match m w with Some (a, w') => f a w' | None => None end.

Definition out_of_fuel {A} : PM A := λ _, None.

Definition set_env (u : U) (w : PamWorld) : PamWorld :=
  {| pw_env := u; pw_daemon := pw_daemon w; pw_secret := pw_secret w; pw_authtok := pw_authtok w;
     pw_names := pw_names w; pw_calls := pw_calls w |}.

Definition set_daemon (v : V) (w : PamWorld) : PamWorld :=
  {| pw_env := pw_env w; pw_daemon := v; pw_secret := pw_secret w; pw_authtok := pw_authtok w;
     pw_names := pw_names w; pw_calls := pw_calls w |}.

(** An operation of the user or a device, and one of the daemon. *)
Definition io {A} (f : U → A * U) : PM A := λ w, let '(a, u) := f (pw_env w) in Some (a, set_env u w).
Definition io_ (f : U → U) : PM unit := io (λ u, (tt, f u)).
Definition daemon_io {A} (f : V → A * V) : PM A := λ w,
  let '(a, v) := f (pw_daemon w) in Some (a, set_daemon v w).

Definition set_secret (secret : option string) : PM unit := λ w,
  Some (tt, {| pw_env := pw_env w; pw_daemon := pw_daemon w; pw_secret := secret;
               pw_authtok := pw_authtok w; pw_names := pw_names w; pw_calls := pw_calls w |}).

Definition capture (secret : string) : PM unit := set_secret (Some secret).

Definition log_call (req : ClientRequest) (r : result ClientResponse ClientError) : PM unit := λ w,
  Some (tt, {| pw_env := pw_env w; pw_daemon := pw_daemon w; pw_secret := pw_secret w;
               pw_authtok := pw_authtok w; pw_names := pw_names w; pw_calls := pw_calls w ++ [(req, r)] |}).

Definition set_item_authtok (secret : string) : PM unit := λ w,
  Some (tt, {| pw_env := pw_env w; pw_daemon := pw_daemon w; pw_secret := pw_secret w;
               pw_authtok := Some secret; pw_names := pw_names w; pw_calls := pw_calls w |}).

Definition get_secret : PM (option string) := λ w, Some (pw_secret w, w).

(** An operation on the cache of mapped names. *)
Definition names_io {A} (f : MappingFile → A * MappingFile) : PM A := λ w,
  let '(a, names) := f (pw_names w) in
  Some (a, {| pw_env := pw_env w; pw_daemon := pw_daemon w; pw_secret := pw_secret w;
              pw_authtok := pw_authtok w; pw_names := names; pw_calls := pw_calls w |}).

End monad.

#[global] Arguments PamWorld {X} U V.
#[global] Arguments PM {X} U V A.

(** The trait [MessagePrinter]. *)
Record MessagePrinter `{X : Ext} (U V : Type) := {
  print_text : string → PM U V unit;
  print_error : string → PM U V unit;
  prompt_echo_off : string → PM U V (option string)
}.

#[global] Arguments print_text {X U V}.
#[global] Arguments print_error {X U V}.
#[global] Arguments prompt_echo_off {X U V}.

Inductive PamWhatNext := PamWhatNext_Next (req : ClientRequest) | PamWhatNext_Finish (code : PamResultCode).
