(* ===== verification/PamAuth.v ===== *)
(** * The login loop of the PAM client: [src/common/src/auth.rs]

    Security keys, the handler of every response of the daemon, and the loop of
    [authenticate]. [fuel] bounds each of the loops the user or the devices keep
    going. *)
From stdpp Require Import base gmap strings list.
From Stdlib Require Import ZArith Lia Ascii.
From S2P Require Import Prelude Proto Interface Db Runtime Caches Config Daemon HelloPin Client Pam.

Open Scope rust_scope.

(** ** Rendering *)

Definition FULL_BLOCK : string := "█".
Definition HALF_UPPER_BLOCK : string := "▀".
Definition HALF_LOWER_BLOCK : string := "▄".
Definition WHITE_BLOCK : string := " ".

Definition qr_block (upper lower : bool) : string :=
  match upper, lower with
  | true, true => FULL_BLOCK
  | true, false => HALF_UPPER_BLOCK
  | false, true => HALF_LOWER_BLOCK
  | false, false => WHITE_BLOCK
  end.

Definition QR_BORDER : Z := 4.

(** [(a..b).step_by(k)] *)
Definition range_step (a b k : Z) : list Z :=
  (λ i, a + k * i) <$> seqZ 0 ((b - a + (k - 1)) / k).

Definition qr_row (qr : QrCode) (y : Z) : string :=
  String.concat EmptyString
    ((λ x, qr_block (get_module qr x y) (get_module qr x (y + 1)))
       <$> range_step (- QR_BORDER) (qr_size qr + QR_BORDER) 1).

Definition render_qr (qr : QrCode) : string :=
  String.concat EmptyString
    ((λ y, qr_row qr y +:+ NL) <$> range_step (- QR_BORDER) (qr_size qr + QR_BORDER) 2).

Section text.
Context {T : TextOps}.

Definition generate_unicode_qr (content : string) : result string string :=
  result_map render_qr (encode_text content).

Definition QR_FAILED : string := "Failed to generate QR code".

Definition hello_totp_urldecode_match (m : option string) : result string string :=
  match m with
  | Some c => ok_or (urldecode c) QR_FAILED
  | None => Err QR_FAILED
  end.

Definition hello_totp_enroll_fallback_msg (url : string) : result string string :=
  match totp_captures url with
  | Some (g2, g3, g4) =>
      let? secret := ok_or g4 QR_FAILED in
      let? issuer := hello_totp_urldecode_match g2 in
      let? acct := hello_totp_urldecode_match g3 in
      Ok ("Enter the setup key '" +:+ secret +:+ "' to enroll a TOTP Authenticator app. Use '" +:+ issuer
            +:+ "' for the code name and '" +:+ acct +:+ "' as the label/name.")
  | None => Err QR_FAILED
  end.

(** The text shown for a poll: a hint for push notifications, the code of the URL for
    a device login, the plain message otherwise. *)
Definition poll_message (service msg : string) : string :=
  if negb (contains_str msg "https://microsoft.com/devicelogin") && negb (String.eqb (trim msg) EmptyString)
  then msg +:+ NL +:+ "No push? Check your mobile device's internet connection."
  else if negb (String.eqb service "gdm-password") then
    match find_url msg ≫= (λ url, result_ok (generate_unicode_qr url)) with
    | Some qr => msg +:+ NL +:+ qr
    | None => msg
    end
  else msg.

End text.

(** ** Printers of [auth.rs] *)

Section auth.
Context {X : Ext} {I : IniFile} {G : GeneratedConfig} {PC : PamConfig} {T : TextOps}.
Context {U V : Type} {DL : DaemonLink V} {PE : PamEnv U} {FE : FidoEnv U}.

Definition SimpleMessagePrinter : MessagePrinter U V := {|
  print_text := λ msg, io_ (println msg);
  print_error := λ msg, io_ (eprintln msg);
  prompt_echo_off := λ prompt, io (prompt_password prompt)
|}.

Variable fuel : nat.
Variable mp : MessagePrinter U V.

Definition sleep (secs : Z) : PM U V unit := io_ (sleep_secs secs).

(** ** Security keys over USB *)

Definition attempts_left (attempts : option Z) : string :=
  match attempts with
  | None => "Try again."
  | Some a => "You have " +:+ uint_to_string a +:+ " attempts left."
  end.

(** The thread of [fido_status_check], up to [n] status updates. *)
Fixpoint fido_status_check (n : nat) (presence_prompt : string) : PM U V unit :=
  match n with
  | O => out_of_fuel
  | S n =>
      let ask_pin : PM U V unit :=
        pin ← prompt_echo_off mp "Fido PIN: ";
        match pin with
        | Some pin =>
            sent ← io (send_pin pin);
            if sent : bool then fido_status_check n presence_prompt else mret tt
        | None => mret tt
        end in
      update ← io next_status;
      match update with
      | None => mret tt
      | Some InteractiveManagement => mret tt
      | Some SelectDeviceNotice =>
          _ ← print_text mp "Please select a device by touching one of them.";
          fido_status_check n presence_prompt
      | Some PresenceRequired =>
          _ ← print_text mp ("[FIDO_TOUCH] " +:+ presence_prompt);
          fido_status_check n presence_prompt
      | Some (PinUvError PinRequired) => ask_pin
      | Some (PinUvError (InvalidPin attempts)) =>
          _ ← print_text mp ("Wrong PIN! " +:+ attempts_left attempts);
          ask_pin
      | Some (PinUvError PinAuthBlocked) =>
          print_error mp "Too many failed attempts in one row. Your device has been temporarily blocked. Please unplug it and plug in again."
      | Some (PinUvError PinBlocked) =>
          print_error mp "Too many failed attempts. Your device has been blocked. Reset it."
      | Some (PinUvError (InvalidUv attempts)) =>
          _ ← print_error mp ("Wrong UV! " +:+ attempts_left attempts);
          fido_status_check n presence_prompt
      | Some (PinUvError UvBlocked) => print_error mp "Too many failed UV-attempts."
      | Some (PinUvError (OtherPinUv e)) => print_error mp ("Unexpected error: " +:+ e)
      | Some SelectResultNotice => print_error mp "Unexpected select device notice"
      end
  end.

Definition RELYING_PARTY : string := "login.microsoft.com".

Definition challenge_json (fido_challenge : string) : option string :=
  json_object [("type", "webauthn.get"); ("challenge", base64url fido_challenge);
               ("origin", "https://login.microsoft.com")].

Definition assertion_json (challenge_str auth_data : string) (a : Assertion) : option string :=
  json_object [("id", base64url (default EmptyString (as_credential_id a)));
               ("clientDataJSON", base64url challenge_str);
               ("authenticatorData", base64url auth_data);
               ("signature", base64url (as_signature a));
               ("userHandle", base64url (default EmptyString (as_user_handle a)))].

(** The prompt of [fido_auth_inner], and what follows it. *)
Definition fido_insert_prompt (prompt : string) (qr_suffix : option string) : PM U V unit :=
  print_text mp ("[FIDO_INSERT] " +:+ prompt +:+
                 match qr_suffix with Some suffix => NL +:+ suffix | None => EmptyString end).

Definition fido_sign (fido_challenge : string) (fido_allow_list : list string) (timeout_ms : Z)
  (presence_prompt : string) : PM U V (result string PamResultCode) :=
  manager ← io authenticator_new;
  if negb manager then mret (Err PAM_CRED_INSUFFICIENT)
  else
    match challenge_json fido_challenge with
    | None => mret (Err PAM_CRED_INSUFFICIENT)
    | Some challenge_str =>
        rt ← io runtime_new;
        if negb rt then mret (Err PAM_AUTH_ERR)
        else
          let ctap_args := {| sa_client_data_hash := sha256 challenge_str;
                              sa_relying_party_id := RELYING_PARTY;
                              sa_allow_list := omap base64_decode fido_allow_list |} in
          started ← io (sign_start timeout_ms ctap_args);
          if negb started then mret (Err PAM_CRED_INSUFFICIENT)
          else
            _ ← fido_status_check fuel presence_prompt;
            r ← io sign_result;
            match r with
            | None => mret (Err PAM_CRED_INSUFFICIENT)
            | Some a => mret (ok_or (assertion_json challenge_str (as_auth_data a) a) PAM_CRED_INSUFFICIENT)
            end
    end.

Definition fido_auth_inner (fido_challenge : string) (fido_allow_list : list string) (timeout_ms : Z)
  (prompt presence_prompt : string) (qr_suffix : option string) : PM U V (result string PamResultCode) :=
  _ ← fido_insert_prompt prompt qr_suffix;
  fido_sign fido_challenge fido_allow_list timeout_ms presence_prompt.

Definition fido_auth (fido_challenge : string) (fido_allow_list : list string) (timeout_ms : Z)
  (prompt presence_prompt : string) : PM U V (result string PamResultCode) :=
  fido_auth_inner fido_challenge fido_allow_list timeout_ms prompt presence_prompt None.

(** ** Phones over QR and Bluetooth *)

Inductive BluetoothState := PoweredOn | PoweredOff | NoAdapter.

Fixpoint scan_adapters (objects : list DbusObject) (has_adapter : bool) : BluetoothState :=
  match objects with
  | [] => if has_adapter then PoweredOff else NoAdapter
  | Some (Some (Some true)) :: _ => PoweredOn
  | Some _ :: objects => scan_adapters objects true
  | None :: objects => scan_adapters objects has_adapter
  end.

Definition check_bluetooth : PM U V BluetoothState :=
  objects ← io bluez_objects;
  mret (match objects with None => NoAdapter | Some objects => scan_adapters objects false end).

Definition qr_label (qr_prompt qr_url : string) : string :=
  "[QR_BT_LABEL] " +:+ qr_prompt +:+ NL +:+ "[QR_BT] " +:+ qr_url.

(** [device] is whether the caller made the device and showed its code. *)
Definition qr_bluetooth_fido_auth (fido_challenge qr_prompt : string) (device : bool)
  : PM U V (result string PamResultCode) :=
  _ ← (if device then mret tt
       else qr_url ← io cable_new; print_text mp (qr_label qr_prompt qr_url));
  channel ← io cable_channel;
  if negb channel then mret (Err PAM_CRED_INSUFFICIENT)
  else
    match challenge_json fido_challenge with
    | None => mret (Err PAM_CRED_INSUFFICIENT)
    | Some challenge_str =>
        let request := {| sa_client_data_hash := sha256 challenge_str;
                          sa_relying_party_id := RELYING_PARTY; sa_allow_list := [] |} in
        response ← io (cable_assertion request);
        match response with
        | Some (assertion :: _) =>
            match cable_auth_data (as_auth_data assertion) with
            | Some auth_data =>
                mret (ok_or (assertion_json challenge_str auth_data assertion) PAM_CRED_INSUFFICIENT)
            | None => mret (Err PAM_CRED_INSUFFICIENT)
            end
        | _ => mret (Err PAM_CRED_INSUFFICIENT)
        end
    end.

Definition fido_auth_qr_bluetooth_only (fido_challenge qr_prompt : string)
  : PM U V (result string PamResultCode) :=
  rt ← io runtime_new;
  if negb rt then mret (Err PAM_AUTH_ERR) else qr_bluetooth_fido_auth fido_challenge qr_prompt false.

(** Waiting for the USB task: a task that panicked is not joined. *)
Definition join_usb (usb : PM U V (result string PamResultCode)) : PM U V (option (result string PamResultCode)) :=
  r ← usb;
  joined ← io usb_joined;
  mret (if joined : bool then Some r else None).

(** [r.or(Err(e))] *)
Definition result_or {A E} (r : result A E) (e : E) : result A E :=
  match r with Ok a => Ok a | Err _ => Err e end.

(** The race. The USB task starts with its prompt, which shows the QR code too; then
    the path that completes first decides, and if it failed the other one does. *)
Definition fido_auth_with_qr_bluetooth (fido_challenge : string) (fido_allow_list : list string)
  (timeout_ms : Z) (prompt presence_prompt qr_prompt : string) : PM U V (result string PamResultCode) :=
  rt ← io runtime_new;
  if negb rt then mret (Err PAM_AUTH_ERR)
  else
    qr_url ← io cable_new;
    _ ← fido_insert_prompt prompt (Some (qr_label qr_prompt qr_url));
    let usb := join_usb (fido_sign fido_challenge fido_allow_list timeout_ms presence_prompt) in
    let qr_bt := qr_bluetooth_fido_auth fido_challenge EmptyString true in
    first ← io usb_first;
    if first : bool then
      usb_result ← usb;
      match usb_result with
      | Some (Ok assertion) => mret (Ok assertion)
      | Some (Err e) => r ← qr_bt; mret (result_or r e)
      | None => r ← qr_bt; mret (result_or r PAM_AUTH_ERR)
      end
    else
      qr_bt_result ← qr_bt;
      match qr_bt_result with
      | Ok assertion => mret (Ok assertion)
      | Err _ => usb_result ← usb; mret (default (Err PAM_AUTH_ERR) usb_result)
      end.

(** ** The handlers *)

Record AuthenticateState := {
  authtok : option string;
  cfg : HimmelblauConfig;
  account_id : string;
  service : string;
  opts : Options;
  poll_attempt : Z;
  polling_interval : Z
}.

Definition set_poll (attempt interval : Z) (s : AuthenticateState) : AuthenticateState :=
  {| authtok := authtok s; cfg := cfg s; account_id := account_id s; service := service s; opts := opts s;
     poll_attempt := attempt; polling_interval := interval |}.

Definition take_authtok (s : AuthenticateState) : AuthenticateState :=
  {| authtok := None; cfg := cfg s; account_id := account_id s; service := service s; opts := opts s;
     poll_attempt := poll_attempt s; polling_interval := polling_interval s |}.

Definition PAM_FAIL_HINT : string :=
  "If you are now prompted for a password from pam_unix, please disregard the prompt, go back and try again.".

(** [pam_fail!(msg_printer, msg, ret)] *)
Definition pam_fail (msg : string) (ret : PamResultCode) : PM U V PamWhatNext :=
  _ ← print_text mp (debug_code ret +:+ ": " +:+ msg +:+ " " +:+ NL +:+ PAM_FAIL_HINT);
  _ ← sleep 2;
  mret (PamWhatNext_Finish PAM_ABORT).

Definition next_step (req : PamAuthRequest) : PamWhatNext :=
  PamWhatNext_Next (ClientRequest_PamAuthenticateStep req).

(** Ask for a credential; without one the login is aborted. *)
Definition ask (prompt msg : string) (req : string → PamAuthRequest) : PM U V PamWhatNext :=
  cred ← prompt_echo_off mp prompt;
  match cred with
  | Some cred => mret (next_step (req cred))
  | None => pam_fail msg PAM_CRED_INSUFFICIENT
  end.

Definition poll_request (attempt : Z) : PamWhatNext :=
  next_step (PamAuthRequest_MFAPoll (wrap32 attempt)).

Definition handle_pam_auth_response_mfapoll (state : AuthenticateState) (msg : string) (interval : Z)
  : PM U V (PamWhatNext * AuthenticateState) :=
  let msg := poll_message (service state) msg in
  let shown := negb (String.eqb (trim msg) EmptyString) in
  _ ← (if shown then print_text mp msg else mret tt);
  _ ← (if mfa_poll_prompt (opts state) && contains_str (service state) "ssh" && shown
       then _ ← prompt_echo_off mp "Press enter to continue"; mret tt
       else mret tt);
  if 0 <=? poll_attempt state then
    next ← pam_fail "Unexpected error occurred." PAM_SYSTEM_ERR;
    mret (next, state)
  else
    let state := set_poll 0 interval state in
    _ ← sleep (polling_interval state);
    mret (poll_request (poll_attempt state), state).

Definition i32_max : Z := 2147483647.
Definition i32_min : Z := -2147483648.

(** [i + 1] on [i32], which wraps in a release build. *)
Definition i32_succ (i : Z) : Z := if i =? i32_max then i32_min else i + 1.

Definition handle_pam_auth_response_mfapollwait (state : AuthenticateState)
  : PM U V (PamWhatNext * AuthenticateState) :=
  let next_poll_attempt := if poll_attempt state <? 0 then 0 else i32_succ (poll_attempt state) in
  _ ← sleep (polling_interval state);
  let state := set_poll next_poll_attempt (polling_interval state) state in
  mret (poll_request (poll_attempt state), state).

Definition handle_pam_auth_response_unknown (state : AuthenticateState) : PamWhatNext :=
  PamWhatNext_Finish (if ignore_unknown_user (opts state) then PAM_IGNORE else PAM_USER_UNKNOWN).

Definition handle_pam_auth_response_success : PamWhatNext := PamWhatNext_Finish PAM_SUCCESS.

(** The request that begins the session for the account of the login. *)
Definition begin_request (state : AuthenticateState) : ClientRequest :=
  ClientRequest_PamAuthenticateInit (account_id state) (service state) (no_hello_pin (opts state))
    (force_reauth (opts state)).

Definition handle_pam_auth_response_denied (state : AuthenticateState) (msg : string) : PM U V PamWhatNext :=
  _ ← print_text mp msg;
  _ ← sleep 2;
  mret (PamWhatNext_Next (begin_request state)).

Definition handle_pam_auth_response_password (state : AuthenticateState)
  : PM U V (PamWhatNext * AuthenticateState) :=
  let state' := take_authtok state in
  match authtok state with
  | Some cred => mret (next_step (PamAuthRequest_Password cred), state')
  | None =>
      prompt ← (match get_oidc_issuer_url (cfg state) url_ok with
                | Some _ => mret "Cloud Password:"
                | None =>
                    _ ← print_text mp (get_entra_id_password_prompt (config (cfg state)));
                    mret "Entra Id Password:"
                end);
      next ← ask prompt "No Entra Id password was supplied." PamAuthRequest_Password;
      mret (next, state')
  end.

Definition handle_pam_auth_response_mfacode (msg : string) : PM U V PamWhatNext :=
  _ ← print_text mp msg;
  ask "Code: " "No Entra Id auth code was supplied." PamAuthRequest_MFACode.

Definition handle_pam_auth_response_hellototp (state : AuthenticateState) (msg : string) : PM U V PamWhatNext :=
  shown ← (if String.prefix "otpauth://" msg && negb (String.eqb (service state) "gdm-password") then
             match generate_unicode_qr msg with
             | Ok qr =>
                 _ ← print_text mp ("Open your authenticator app and scan this QR code to enroll. Then enter the generated code." +:+ NL +:+ qr);
                 mret None
             | Err _ =>
                 match hello_totp_enroll_fallback_msg msg with
                 | Ok msg => _ ← print_text mp msg; mret None
                 | Err msg => r ← pam_fail msg PAM_SYSTEM_ERR; mret (Some r)
                 end
             end
           else _ ← print_text mp msg; mret None);
  match shown with
  | Some finish => mret finish
  | None => ask "TOTP Code: " "No Hello TOTP code was supplied." PamAuthRequest_HelloTOTP
  end.

Definition PIN_SIMPLE : string :=
  "PIN must not use repeating or predictable sequences. Avoid patterns like '111111', '123456', or '135791'.".

Definition pin_too_short (min_length : Z) : string :=
  "Chosen pin is too short! " +:+ uint_to_string min_length +:+ " chars required.".

(** Why a PIN is refused, if it is. *)
Definition pin_refused (u : U) (min_length : Z) (cred : string) : option string :=
  if byte_len cred <? min_length then Some (pin_too_short min_length)
  else if is_simple_pin (chars cred) then Some PIN_SIMPLE
  else match meets_intune_pin_policy policy_root policy_faults (policy_file u) (chars cred) with
       | Err msg => Some msg
       | Ok _ => None
       end.

Definition read_env : PM U V U := io (λ u, (u, u)).

(** The loop of [handle_pam_auth_response_setup_pin]. *)
Fixpoint setup_pin_loop (n : nat) (min_length : Z) (msg : string) : PM U V PamWhatNext :=
  match n with
  | O => out_of_fuel
  | S n =>
      _ ← print_text mp msg;
      pin ← prompt_echo_off mp "New PIN: ";
      match pin with
      | None => pam_fail "No Entra Id Hello PIN was supplied." PAM_CRED_INSUFFICIENT
      | Some pin =>
          u ← read_env;
          match pin_refused u min_length pin with
          | Some why => _ ← print_text mp why; _ ← sleep 2; setup_pin_loop n min_length msg
          | None =>
              _ ← print_text mp msg;
              confirm ← prompt_echo_off mp "Confirm PIN: ";
              match confirm with
              | None => pam_fail "No Entra Id Hello confirmation PIN was supplied." PAM_CRED_INSUFFICIENT
              | Some confirm =>
                  if String.eqb pin confirm then
                    _ ← print_text mp "Enrolling the Hello PIN. Please wait...";
                    mret (next_step (PamAuthRequest_SetupPin pin))
                  else
                    _ ← print_text mp "Inputs did not match. Try again.";
                    _ ← sleep 2;
                    setup_pin_loop n min_length msg
              end
          end
      end
  end.

Definition handle_pam_auth_response_setup_pin (state : AuthenticateState) (msg : string) : PM U V PamWhatNext :=
  let min_length := get_hello_pin_min_length (config (cfg state)) in
  setup_pin_loop fuel min_length
    (msg +:+ NL +:+ "The minimum PIN length is " +:+ uint_to_string min_length +:+ " characters.").

Definition handle_pam_auth_response_pin (state : AuthenticateState) : PM U V (PamWhatNext * AuthenticateState) :=
  let state' := take_authtok state in
  match authtok state with
  | Some cred => mret (next_step (PamAuthRequest_Pin cred), state')
  | None =>
      _ ← print_text mp (get_hello_pin_prompt (config (cfg state)));
      next ← ask "PIN: " "No Entra Id Hello PIN was supplied." PamAuthRequest_Pin;
      mret (next, state')
  end.

(** [for _ in 0..n]: whether Bluetooth came up. *)
Fixpoint await_bluetooth (n : nat) : PM U V bool :=
  match n with
  | O => mret false
  | S n =>
      _ ← sleep 1;
      bt ← check_bluetooth;
      match bt with PoweredOn => mret true | _ => await_bluetooth n end
  end.

(** The assertion of the device the branch chose, or the end of the login. *)
Definition fido_result (auth : PM U V (result string PamResultCode)) (msg : string) : PM U V PamWhatNext :=
  r ← auth;
  match r with
  | Ok assertion => mret (next_step (PamAuthRequest_Fido assertion))
  | Err e => pam_fail msg e
  end.

Definition handle_pam_auth_response_fido (state : AuthenticateState) (fido_challenge : string)
  (fido_allow_list : list string) (has_physical_security_key has_cross_device : bool) : PM U V PamWhatNext :=
  let c := config (cfg state) in
  let timeout_ms := Z.min u64_max (get_fido_timeout c * 1000) in
  let is_graphical := contains_str (service state) "gdm" in
  bt_state ← check_bluetooth;
  let has_bt := match bt_state with PoweredOn => true | _ => false end in
  let bt_off := match bt_state with PoweredOff => true | _ => false end in
  let can_qr_bluetooth := has_cross_device && has_bt in
  can_qr_bluetooth ←
    (if negb has_physical_security_key && negb can_qr_bluetooth && (has_cross_device && bt_off && is_graphical)
     then _ ← print_text mp "Enable Bluetooth to sign in with your phone."; await_bluetooth 30
     else mret can_qr_bluetooth);
  if negb has_physical_security_key && negb can_qr_bluetooth then
    mret (next_step PamAuthRequest_FidoUnavailable)
  else if has_physical_security_key && can_qr_bluetooth && is_graphical then
    fido_result
      (fido_auth_with_qr_bluetooth fido_challenge fido_allow_list timeout_ms (get_fido_prompt c)
         (get_fido_presence_prompt c) (get_qr_bluetooth_prompt c))
      "Security key and QR/Bluetooth authentication failed."
  else if can_qr_bluetooth && is_graphical then
    fido_result (fido_auth_qr_bluetooth_only fido_challenge (get_qr_bluetooth_prompt c))
      "QR/Bluetooth authentication failed."
  else
    fido_result
      (fido_auth fido_challenge fido_allow_list timeout_ms (get_fido_prompt c) (get_fido_presence_prompt c))
      "Security key authentication failed.".

(** The loop of [handle_pam_auth_response_change_password]. *)
Fixpoint change_password_loop (n : nat) (msg : string) : PM U V PamWhatNext :=
  match n with
  | O => out_of_fuel
  | S n =>
      _ ← print_text mp msg;
      password ← prompt_echo_off mp "New password: ";
      match password with
      | None => pam_fail "No Entra Id password was supplied." PAM_CRED_INSUFFICIENT
      | Some password =>
          if byte_len password <? 8 then
            _ ← print_text mp "Chosen password is too short! 8 chars required.";
            change_password_loop n msg
          else
            _ ← print_text mp msg;
            confirm ← prompt_echo_off mp "Confirm password: ";
            match confirm with
            | None => pam_fail "No Entra Id confirmation password was supplied." PAM_CRED_INSUFFICIENT
            | Some confirm =>
                if String.eqb password confirm then
                  _ ← print_text mp "Changing the password. Please wait...";
                  mret (next_step (PamAuthRequest_Password password))
                else
                  _ ← print_text mp "Inputs did not match. Try again.";
                  _ ← sleep 2;
                  change_password_loop n msg
            end
      end
  end.

Definition handle_pam_auth_response_change_password (msg : string) : PM U V PamWhatNext :=
  change_password_loop fuel msg.

Definition handle_pam_auth_init_denied (msg : string) : PM U V PamWhatNext := pam_fail msg PAM_ABORT.

(** ** The loop *)

Definition keeping (state : AuthenticateState) (m : PM U V PamWhatNext) : PM U V (PamWhatNext * AuthenticateState) :=
  next ← m; mret (next, state).

(** The [match response] of [authenticate_request_response]. *)
Definition handle_response (state : AuthenticateState) (response : PamAuthResponse)
  : PM U V (PamWhatNext * AuthenticateState) :=
  match response with
  | PamAuthResponse_Unknown => mret (handle_pam_auth_response_unknown state, state)
  | PamAuthResponse_Success => mret (handle_pam_auth_response_success, state)
  | PamAuthResponse_Denied msg => keeping state (handle_pam_auth_response_denied state msg)
  | PamAuthResponse_InitDenied msg => keeping state (handle_pam_auth_init_denied msg)
  | PamAuthResponse_Password => handle_pam_auth_response_password state
  | PamAuthResponse_MFACode msg => keeping state (handle_pam_auth_response_mfacode msg)
  | PamAuthResponse_HelloTOTP msg => keeping state (handle_pam_auth_response_hellototp state msg)
  | PamAuthResponse_MFAPoll msg interval => handle_pam_auth_response_mfapoll state msg interval
  | PamAuthResponse_MFAPollWait => handle_pam_auth_response_mfapollwait state
  | PamAuthResponse_SetupPin msg => keeping state (handle_pam_auth_response_setup_pin state msg)
  | PamAuthResponse_Pin => handle_pam_auth_response_pin state
  | PamAuthResponse_Fido challenge allow_list physical cross =>
      keeping state (handle_pam_auth_response_fido state challenge allow_list physical cross)
  | PamAuthResponse_ChangePassword msg => keeping state (handle_pam_auth_response_change_password msg)
  end.

(** [call_and_wait] of the connection, recorded. *)
Definition call_and_record (req : ClientRequest) (timeout : Z) : PM U V (result ClientResponse ClientError) :=
  r ← daemon_io (daemon_call req timeout);
  _ ← log_call req r;
  mret r.

Definition UNEXPECTED : string := "An unexpected error occurred.".

Definition authenticate_request_response (state : AuthenticateState) (req : ClientRequest)
  : PM U V (PamWhatNext * AuthenticateState) :=
  cli_res ← call_and_record req (get_unix_sock_timeout (cfg state));
  match cli_res with
  | Ok (ClientResponse_PamAuthenticateStepResponse response) => handle_response state response
  | _ => keeping state (pam_fail UNEXPECTED PAM_IGNORE)
  end.

Fixpoint authenticate_loop (n : nat) (state : AuthenticateState) (req : ClientRequest) : PM U V PamResultCode :=
  match n with
  | O => out_of_fuel
  | S n =>
      res ← authenticate_request_response state req;
      match res with
      | (PamWhatNext_Next next_request, state) => authenticate_loop n state next_request
      | (PamWhatNext_Finish code, _) => mret code
      end
  end.

Definition initial_state (authtok : option string) (cfg : HimmelblauConfig) (account_id service : string)
  (opts : Options) : AuthenticateState :=
  {| authtok := authtok; cfg := cfg; account_id := account_id; service := service; opts := opts;
     poll_attempt := -1; polling_interval := 2 |}.

Definition authenticate (authtok : option string) (cfg : HimmelblauConfig) (account_id service : string)
  (opts : Options) : PM U V PamResultCode :=
  connected ← daemon_io (connect (get_socket_path (config cfg)));
  if negb connected then mret PAM_IGNORE
  else
    let state := initial_state authtok cfg account_id service opts in
    authenticate_loop fuel state (begin_request state).

End auth.
