(* ===== verification/PamFacts.v ===== *)
(** * Reasoning about the PAM client

    Inversion of computations in [PM], the computations that do not talk to the daemon
    ([quiet]), the computations that end because the outside does ([ends]), and these
    facts for every operation of [PamAuth]. *)
From stdpp Require Import base gmap strings list.
From Stdlib Require Import ZArith Lia.
From S2P Require Import Prelude Proto Interface Db Runtime Caches Config Daemon HelloPin Client Pam PamAuth.

Open Scope rust_scope.

Create HintDb pam discriminated.

(** ** Inversion *)

Section logic.
Context {X : Ext} {U V : Type}.

Lemma PM_bind_Some {A B} (m : PM U V A) (f : A → PM U V B) w b w' :
  (m ≫= f) w = Some (b, w') → ∃ a w1, m w = Some (a, w1) ∧ f a w1 = Some (b, w').
Proof. unfold mbind, PM_bind. destruct (m w) as [[a w1]|]; [eauto|done]. Qed.

Lemma PM_ret_Some {A} (a : A) (w : PamWorld U V) b w' : (mret a : PM U V A) w = Some (b, w') → b = a ∧ w' = w.
Proof. by intros [= <- <-]. Qed.

(** ** Computations that leave the exchanges and the PAM items alone *)

Definition quiet {A} (m : PM U V A) : Prop :=
  ∀ w a w', m w = Some (a, w') → pw_daemon w' = pw_daemon w ∧ pw_calls w' = pw_calls w ∧ pw_authtok w' = pw_authtok w.

Lemma quiet_ret {A} (a : A) : quiet (mret a : PM U V A).
Proof. by intros w b w' [= <- <-]. Qed.

Lemma quiet_fuel {A} : quiet (out_of_fuel : PM U V A).
Proof. by intros w b w' [=]. Qed.

Lemma quiet_bind {A B} (m : PM U V A) (f : A → PM U V B) : quiet m → (∀ a, quiet (f a)) → quiet (m ≫= f).
Proof.
  intros Hm Hf w b w' (a & w1 & H1 & H2)%PM_bind_Some.
  destruct (Hm _ _ _ H1) as (? & ? & ?), (Hf _ _ _ _ H2) as (? & ? & ?). split_and!; congruence.
Qed.

Lemma quiet_io {A} (f : U → A * U) : quiet (io f).
Proof. intros w a w'. unfold io. destruct (f (pw_env w)). by intros [= <- <-]. Qed.

Lemma quiet_io_ (f : U → U) : quiet (io_ f).
Proof. apply quiet_io. Qed.

Lemma quiet_capture s : quiet (capture (U := U) (V := V) s).
Proof. by intros w a w' [= <- <-]. Qed.

(** ** Printers *)

(** A printer does not talk to the daemon and does not touch the PAM items. *)
Class QuietPrinter (mp : MessagePrinter U V) : Prop := {
  quiet_print_text : ∀ s, quiet (print_text mp s);
  quiet_print_error : ∀ s, quiet (print_error mp s);
  quiet_prompt : ∀ s, quiet (prompt_echo_off mp s)
}.

End logic.

#[export] Hint Resolve quiet_ret quiet_fuel quiet_io quiet_io_ quiet_capture
  quiet_print_text quiet_print_error quiet_prompt : pam.

Ltac pm_inv H :=
  repeat match type of H with
  | (_ ≫= _) _ = Some (_, _) =>
      let a := fresh "a" in let w := fresh "w" in let Ha := fresh "Ha" in
      apply PM_bind_Some in H as (a & w & Ha & H)
  | (mret _) _ = Some (_, _) => apply PM_ret_Some in H as [? ?]; subst
  end.

Ltac quiet_step :=
  match goal with
  | |- quiet (_ ≫= _) => apply quiet_bind; [|intros ?]
  | |- quiet (match ?x with _ => _ end) => destruct x
  | _ => by eauto with pam
  end.
Ltac quiet_solve := repeat quiet_step.

Section auth_facts.
Context {X : Ext} {I : IniFile} {G : GeneratedConfig} {PC : PamConfig} {T : TextOps}.
Context {U V : Type} {DL : DaemonLink V} {PE : PamEnv U} {FE : FidoEnv U}.
Context (fuel : nat) (mp : MessagePrinter U V) {QP : QuietPrinter mp}.

#[export] Instance SimpleMessagePrinter_quiet : QuietPrinter (SimpleMessagePrinter (U := U) (V := V)).
Proof. split; intros s; simpl; eauto with pam. Qed.

Lemma quiet_sleep n : quiet (sleep (U := U) (V := V) n).
Proof. apply quiet_io_. Qed.
#[local] Hint Resolve quiet_sleep : pam.

Lemma quiet_pam_fail msg ret : quiet (pam_fail mp msg ret).
Proof. unfold pam_fail. quiet_solve. Qed.
#[local] Hint Resolve quiet_pam_fail : pam.

Lemma pam_fail_finish msg ret w r w' :
  pam_fail mp msg ret w = Some (r, w') → r = PamWhatNext_Finish PAM_ABORT.
Proof. unfold pam_fail. intros H. by pm_inv H. Qed.

Lemma quiet_ask prompt msg req : quiet (ask mp prompt msg req).
Proof. unfold ask. quiet_solve. Qed.
#[local] Hint Resolve quiet_ask : pam.

Lemma quiet_status n p : quiet (fido_status_check mp n p).
Proof. induction n as [|n IH]; simpl; [eauto with pam|]. quiet_solve. Qed.
#[local] Hint Resolve quiet_status : pam.

Lemma quiet_check_bluetooth : quiet (check_bluetooth (U := U) (V := V)).
Proof. unfold check_bluetooth. quiet_solve. Qed.
#[local] Hint Resolve quiet_check_bluetooth : pam.

Lemma quiet_await_bluetooth n : quiet (await_bluetooth (U := U) (V := V) n).
Proof. induction n as [|n IH]; simpl; [eauto with pam|]. quiet_solve. Qed.
#[local] Hint Resolve quiet_await_bluetooth : pam.

Lemma quiet_insert_prompt p q : quiet (fido_insert_prompt mp p q).
Proof. apply quiet_print_text. Qed.
#[local] Hint Resolve quiet_insert_prompt : pam.

Lemma quiet_fido_sign c l t p : quiet (fido_sign fuel mp c l t p).
Proof. unfold fido_sign. quiet_solve. Qed.
#[local] Hint Resolve quiet_fido_sign : pam.

Lemma quiet_qr_bluetooth c q d : quiet (qr_bluetooth_fido_auth mp c q d).
Proof. unfold qr_bluetooth_fido_auth. quiet_solve. Qed.
#[local] Hint Resolve quiet_qr_bluetooth : pam.

Lemma quiet_fido_race c l t p pp q : quiet (fido_auth_with_qr_bluetooth fuel mp c l t p pp q).
Proof. unfold fido_auth_with_qr_bluetooth, join_usb. quiet_solve. Qed.

Lemma quiet_fido_result auth msg : quiet auth → quiet (fido_result mp auth msg).
Proof. intros H. unfold fido_result. quiet_solve. Qed.

Lemma quiet_setup_pin_loop n m msg : quiet (setup_pin_loop mp n m msg).
Proof. induction n as [|n IH]; simpl; [eauto with pam|]. unfold read_env. quiet_solve. Qed.
#[local] Hint Resolve quiet_setup_pin_loop : pam.

Lemma quiet_change_password_loop n msg : quiet (change_password_loop mp n msg).
Proof. induction n as [|n IH]; simpl; [eauto with pam|]. quiet_solve. Qed.
#[local] Hint Resolve quiet_change_password_loop : pam.

Lemma quiet_fido state c l p x : quiet (handle_pam_auth_response_fido fuel mp state c l p x).
Proof.
  unfold handle_pam_auth_response_fido. cbv zeta.
  repeat first [apply quiet_fido_result | quiet_step]; eauto using quiet_fido_race.
  - unfold fido_auth_qr_bluetooth_only. quiet_solve.
  - unfold fido_auth, fido_auth_inner. quiet_solve.
Qed.
#[local] Hint Resolve quiet_fido : pam.

Lemma quiet_handle_response state r : quiet (handle_response fuel mp state r).
Proof.
  destruct r; unfold handle_response, keeping, handle_pam_auth_response_password,
    handle_pam_auth_response_denied, handle_pam_auth_response_mfacode, handle_pam_auth_response_hellototp,
    handle_pam_auth_response_mfapoll, handle_pam_auth_response_mfapollwait, handle_pam_auth_response_pin,
    handle_pam_auth_response_setup_pin, handle_pam_auth_response_change_password,
    handle_pam_auth_init_denied; cbv zeta; quiet_solve.
Qed.

End auth_facts.

(** ** Computations that end *)

Section finite.
#[local] Open Scope nat_scope.

(** The daemon, the user and the devices are finite: the budgets go down with every
    answer of the daemon or of the user and with every status update, and nothing
    raises them. *)
Class FiniteDaemon `{X : Ext} {V : Type} (DL : DaemonLink V) (budget : V → nat) : Prop := {
  fin_connect : ∀ p v, budget (connect p v).2 ≤ budget v;
  fin_call : ∀ q t v, let '(r, v') := daemon_call q t v in
    budget v' ≤ budget v ∧ (is_ok r = true → budget v' < budget v);
  fin_forget : ∀ q v, budget (daemon_forget q v).2 ≤ budget v
}.

Class FiniteUser {U : Type} (PE : PamEnv U) (FE : FidoEnv U) (budget : U → nat) : Prop := {
  fin_conv : ∀ st m u, let '(r, u') := conv_send st m u in
    budget u' ≤ budget u ∧ (∀ c, r = Ok (Some c) → budget u' < budget u);
  fin_println : ∀ m u, budget (println m u) ≤ budget u;
  fin_eprintln : ∀ m u, budget (eprintln m u) ≤ budget u;
  fin_prompt : ∀ p u, let '(r, u') := prompt_password p u in
    budget u' ≤ budget u ∧ (is_Some r → budget u' < budget u);
  fin_sleep : ∀ n u, budget (sleep_secs n u) ≤ budget u;
  fin_bluez : ∀ u, budget (bluez_objects u).2 ≤ budget u;
  fin_runtime : ∀ u, budget (runtime_new u).2 ≤ budget u;
  fin_authenticator : ∀ u, budget (authenticator_new u).2 ≤ budget u;
  fin_sign : ∀ t a u, budget (sign_start t a u).2 ≤ budget u;
  fin_status : ∀ u, let '(r, u') := next_status u in
    budget u' ≤ budget u ∧ (is_Some r → budget u' < budget u);
  fin_send_pin : ∀ p u, budget (send_pin p u).2 ≤ budget u;
  fin_sign_result : ∀ u, budget (sign_result u).2 ≤ budget u;
  fin_cable_new : ∀ u, budget (cable_new u).2 ≤ budget u;
  fin_cable_channel : ∀ u, budget (cable_channel u).2 ≤ budget u;
  fin_cable_assertion : ∀ a u, budget (cable_assertion a u).2 ≤ budget u;
  fin_usb_first : ∀ u, budget (usb_first u).2 ≤ budget u;
  fin_usb_joined : ∀ u, budget (usb_joined u).2 ≤ budget u
}.

End finite.

Section ends.
Context {X : Ext} {U V : Type} (ub : U → nat) (vb : V → nat).

Definition bud (w : PamWorld U V) : nat := (ub (pw_env w) + vb (pw_daemon w))%nat.

(** [m] returns, and a budget of [k] stays one. *)
Definition ends {A} (k : nat) (m : PM U V A) : Prop :=
  ∀ w, (bud w ≤ k)%nat → ∃ a w', m w = Some (a, w') ∧ (bud w' ≤ k)%nat.

(** [m] returns, and an answer that satisfies [P] has cost something. *)
Definition costs {A} (P : A → Prop) (k : nat) (m : PM U V A) : Prop :=
  ∀ w, (bud w ≤ k)%nat → ∃ a w', m w = Some (a, w') ∧ (bud w' ≤ k)%nat ∧ (P a → (bud w' < k)%nat).

Lemma ends_ret {A} k (a : A) : ends k (mret a : PM U V A).
Proof. intros w Hw. by exists a, w. Qed.

Lemma ends_bind {A B} k (m : PM U V A) (f : A → PM U V B) : ends k m → (∀ a, ends k (f a)) → ends k (m ≫= f).
Proof.
  intros Hm Hf w Hw. destruct (Hm w Hw) as (a & w1 & H1 & Hw1). destruct (Hf a w1 Hw1) as (b & w2 & H2 & Hw2).
  exists b, w2. split; [|done]. unfold mbind, PM_bind. by rewrite H1.
Qed.

Lemma costs_bind {A B} (P : A → Prop) (Q : B → Prop) k (m : PM U V A) (f : A → PM U V B) :
  (∀ a, P a ∨ ¬ P a) → costs P k m →
  (∀ a k', k = S k' → P a → ends k' (f a)) → (∀ a, ¬ P a → costs Q k (f a)) → costs Q k (m ≫= f).
Proof.
  intros Hdec Hm Hf Hf' w Hw. destruct (Hm w Hw) as (a & w1 & H1 & Hw1 & Hc).
  enough (∃ b w2, f a w1 = Some (b, w2) ∧ (bud w2 ≤ k)%nat ∧ (Q b → (bud w2 < k)%nat)) as (b & w2 & H2 & Hw2).
  { exists b, w2. split; [|done]. unfold mbind, PM_bind. by rewrite H1. }
  destruct (Hdec a) as [HP|HP]; [|exact (Hf' a HP w1 Hw1)]. specialize (Hc HP).
  destruct k as [|k']; [lia|]. destruct (Hf a k' eq_refl HP w1) as (b & w2 & H2 & Hw2); [lia|].
  exists b, w2. split; [done|lia].
Qed.

Lemma ends_costs {A} (Q : A → Prop) k (m : PM U V A) :
  ends k m → (∀ w a w', m w = Some (a, w') → ¬ Q a) → costs Q k m.
Proof.
  intros Hm HQ w Hw. destruct (Hm w Hw) as (a & w' & H & Hw'). exists a, w'.
  split; [done|]. split; [done|]. intros HQa. by destruct (HQ _ _ _ H).
Qed.

Lemma costs_ends {A} (Q : A → Prop) k (m : PM U V A) : costs Q k m → ends k m.
Proof. intros Hm w Hw. destruct (Hm w Hw) as (a & w' & H & Hw' & _). eauto. Qed.

Lemma costs_ends_bind {A B} (P : A → Prop) k (m : PM U V A) (f : A → PM U V B) :
  (∀ a, P a ∨ ¬ P a) → costs P k m →
  (∀ a k', k = S k' → P a → ends k' (f a)) → (∀ a, ¬ P a → ends k (f a)) → ends k (m ≫= f).
Proof.
  intros Hdec Hm Hf Hf'. apply (costs_ends (λ _, False)). apply (costs_bind P); try done.
  intros a Ha. apply ends_costs; [by apply Hf'|tauto].
Qed.

Lemma is_Some_or {A} (a : option A) : is_Some a ∨ ¬ is_Some a.
Proof. destruct a; [by left|right; by intros [? ?]]. Qed.

Lemma ends_io {A} k (f : U → A * U) : (∀ u, (ub (f u).2 ≤ ub u)%nat) → ends k (io f).
Proof.
  intros Hf w Hw. unfold io. specialize (Hf (pw_env w)). destruct (f (pw_env w)) as [a u].
  exists a, (set_env u w). split; [done|]. unfold bud in *. simpl in *. lia.
Qed.

Lemma ends_io_ k (f : U → U) : (∀ u, (ub (f u) ≤ ub u)%nat) → ends k (io_ f).
Proof. intros Hf. apply ends_io. done. Qed.

Lemma ends_daemon_io {A} k (f : V → A * V) : (∀ v, (vb (f v).2 ≤ vb v)%nat) → ends k (daemon_io f).
Proof.
  intros Hf w Hw. unfold daemon_io. specialize (Hf (pw_daemon w)). destruct (f (pw_daemon w)) as [a v].
  exists a, (set_daemon v w). split; [done|]. unfold bud in *. simpl in *. lia.
Qed.

Lemma costs_io {A} (P : A → Prop) k (f : U → A * U) :
  (∀ u, let '(r, u') := f u in (ub u' ≤ ub u ∧ (P r → ub u' < ub u))%nat) → costs P k (io f).
Proof.
  intros Hf w Hw. unfold io. specialize (Hf (pw_env w)). destruct (f (pw_env w)) as [a u].
  destruct Hf as [H1 H2]. exists a, (set_env u w). unfold bud in *. simpl in *.
  split; [done|]. split; [lia|]. intros HP%H2. lia.
Qed.

Lemma costs_daemon_io {A} (P : A → Prop) k (f : V → A * V) :
  (∀ v, let '(r, v') := f v in (vb v' ≤ vb v ∧ (P r → vb v' < vb v))%nat) → costs P k (daemon_io f).
Proof.
  intros Hf w Hw. unfold daemon_io. specialize (Hf (pw_daemon w)). destruct (f (pw_daemon w)) as [a v].
  destruct Hf as [H1 H2]. exists a, (set_daemon v w). unfold bud in *. simpl in *.
  split; [done|]. split; [lia|]. intros HP%H2. lia.
Qed.

Class EndingPrinter (mp : MessagePrinter U V) : Prop := {
  ends_print_text : ∀ k s, ends k (print_text mp s);
  ends_print_error : ∀ k s, ends k (print_error mp s);
  costs_prompt : ∀ k s, costs is_Some k (prompt_echo_off mp s)
}.

(** Asking the user: an answer has used up some of the budget. *)
Lemma ends_prompt_bind {B} k mp `{!EndingPrinter mp} s (f : option string → PM U V B) :
  (∀ x k', k = S k' → ends k' (f (Some x))) → ends k (f None) → ends k (prompt_echo_off mp s ≫= f).
Proof.
  intros Hs Hn. apply (costs_ends_bind is_Some); [apply is_Some_or|apply costs_prompt| |].
  - intros a k' Hk [x ->]. by apply Hs.
  - intros [x|] Ha; [|done]. by destruct Ha.
Qed.

Lemma ends_prompt k mp `{!EndingPrinter mp} s : ends k (prompt_echo_off mp s).
Proof. apply (costs_ends is_Some), costs_prompt. Qed.

End ends.

#[export] Hint Resolve ends_ret ends_print_text ends_print_error ends_prompt : pam.

Ltac ends_step :=
  match goal with
  | |- ends _ _ _ (prompt_echo_off _ _ ≫= _) => apply ends_prompt_bind; [done|intros ? ? ?; subst|]
  | |- ends _ _ _ (_ ≫= _) => apply ends_bind; [|intros ?]
  | |- ends _ _ _ (match ?x with _ => _ end) => destruct x
  | |- ends _ _ _ _ => by eauto with pam
  end.
Ltac ends_solve := repeat ends_step.

Section ends_facts.
Context {X : Ext} {I : IniFile} {G : GeneratedConfig} {PC : PamConfig} {T : TextOps}.
Context {U V : Type} {DL : DaemonLink V} {PE : PamEnv U} {FE : FidoEnv U}.
Context {ub : U → nat} {vb : V → nat} {FD : FiniteDaemon DL vb} {FU : FiniteUser PE FE ub}.
Context (fuel : nat) (mp : MessagePrinter U V) {EP : EndingPrinter ub vb mp}.

#[export] Instance SimpleMessagePrinter_ends : EndingPrinter ub vb (SimpleMessagePrinter (U := U) (V := V)).
Proof.
  split; intros k s; simpl.
  - apply ends_io_, fin_println.
  - apply ends_io_, fin_eprintln.
  - apply costs_io, fin_prompt.
Qed.

Lemma ends_sleep k n : ends ub vb k (sleep n).
Proof. apply ends_io_, fin_sleep. Qed.
#[local] Hint Resolve ends_sleep : pam.

Lemma ends_pam_fail k msg ret : ends ub vb k (pam_fail mp msg ret).
Proof. unfold pam_fail. ends_solve. Qed.
#[local] Hint Resolve ends_pam_fail : pam.

Lemma ends_ask k prompt msg req : ends ub vb k (ask mp prompt msg req).
Proof. unfold ask. ends_solve. Qed.
#[local] Hint Resolve ends_ask : pam.

(** A bound on the budget is a bound on the status updates. *)
Lemma ends_status n k p : (k < n)%nat → ends ub vb k (fido_status_check mp n p).
Proof.
  revert k. induction n as [|n IH]; intros k Hk; [lia|]. simpl.
  apply (costs_ends_bind _ _ is_Some); [apply is_Some_or|apply costs_io, fin_status| |].
  - intros a k' -> [u ->].
    assert (ends ub vb k' (pin ← prompt_echo_off mp "Fido PIN: ";
      match pin with
      | Some pin => sent ← io (send_pin pin); if sent : bool then fido_status_check mp n p else mret tt
      | None => mret tt
      end)) as Hpin.
    { ends_step; [|ends_solve]. ends_step; [apply ends_io, fin_send_pin|]. ends_step; [|ends_solve].
      apply IH. lia. }
    destruct u as [| | |e|]; [by eauto with pam| | |destruct e|]; repeat first
      [exact Hpin | apply IH; lia | ends_step].
  - intros [u|] Hu; [by destruct Hu|ends_solve].
Qed.

Lemma ends_insert_prompt k p q : ends ub vb k (fido_insert_prompt mp p q).
Proof. apply ends_print_text, EP. Qed.
#[local] Hint Resolve ends_insert_prompt : pam.

Ltac fin_step := first [ends_step | apply ends_io; intros ?;
  first [apply fin_runtime | apply fin_authenticator | apply fin_sign | apply fin_sign_result
        |apply fin_cable_new | apply fin_cable_channel | apply fin_cable_assertion | apply fin_usb_first
        |apply fin_usb_joined | apply fin_bluez] | apply ends_status; lia].
Ltac fin_solve := repeat fin_step.

Lemma ends_fido_sign k c l t p : (k < fuel)%nat → ends ub vb k (fido_sign fuel mp c l t p).
Proof. intros Hk. unfold fido_sign. fin_solve. Qed.

Lemma ends_qr_bluetooth k c q d : ends ub vb k (qr_bluetooth_fido_auth mp c q d).
Proof. unfold qr_bluetooth_fido_auth. fin_solve. Qed.
#[local] Hint Resolve ends_fido_sign ends_qr_bluetooth : pam.

Lemma ends_fido_race k c l t p pp q :
  (k < fuel)%nat → ends ub vb k (fido_auth_with_qr_bluetooth fuel mp c l t p pp q).
Proof. intros Hk. unfold fido_auth_with_qr_bluetooth, join_usb. fin_solve. Qed.

Lemma ends_fido_result k auth msg : ends ub vb k auth → ends ub vb k (fido_result mp auth msg).
Proof. intros H. unfold fido_result. fin_solve. Qed.

Lemma ends_check_bluetooth k : ends ub vb k check_bluetooth.
Proof. unfold check_bluetooth. fin_solve. Qed.
#[local] Hint Resolve ends_check_bluetooth : pam.

Lemma ends_await_bluetooth k n : ends ub vb k (await_bluetooth n).
Proof. induction n as [|n IH]; simpl; fin_solve. Qed.
#[local] Hint Resolve ends_await_bluetooth : pam.

Lemma ends_setup_pin_loop n k m msg : (k < n)%nat → ends ub vb k (setup_pin_loop mp n m msg).
Proof.
  revert k. induction n as [|n IH]; intros k Hk; [lia|]. simpl. unfold read_env.
  repeat first [ends_step | apply ends_io; intros ?; done | apply IH; lia].
Qed.

Lemma ends_change_password_loop n k msg : (k < n)%nat → ends ub vb k (change_password_loop mp n msg).
Proof.
  revert k. induction n as [|n IH]; intros k Hk; [lia|]. simpl.
  repeat first [ends_step | apply IH; lia].
Qed.
#[local] Hint Resolve ends_setup_pin_loop ends_change_password_loop : pam.

Lemma ends_fido k state c l p x :
  (k < fuel)%nat → ends ub vb k (handle_pam_auth_response_fido fuel mp state c l p x).
Proof.
  intros Hk. unfold handle_pam_auth_response_fido. cbv zeta.
  repeat first [apply ends_fido_result | ends_step]; eauto using ends_fido_race.
  - unfold fido_auth_qr_bluetooth_only. fin_solve.
  - unfold fido_auth, fido_auth_inner. fin_solve.
Qed.
#[local] Hint Resolve ends_fido : pam.

Lemma ends_handle_response k state r : (k < fuel)%nat → ends ub vb k (handle_response fuel mp state r).
Proof.
  intros Hk. destruct r; unfold handle_response, keeping, handle_pam_auth_response_password,
    handle_pam_auth_response_denied, handle_pam_auth_response_mfacode, handle_pam_auth_response_hellototp,
    handle_pam_auth_response_mfapoll, handle_pam_auth_response_mfapollwait, handle_pam_auth_response_pin,
    handle_pam_auth_response_setup_pin, handle_pam_auth_response_change_password,
    handle_pam_auth_init_denied; cbv zeta; ends_solve.
Qed.

Definition answered (r : result ClientResponse ClientError) : Prop := is_ok r = true.
Definition goes_on (r : PamWhatNext * AuthenticateState) : Prop := ∃ q s, r = (PamWhatNext_Next q, s).

Lemma costs_call k req t : costs ub vb answered k (call_and_record req t).
Proof.
  intros w Hw. destruct (costs_daemon_io ub vb answered k (daemon_call req t) (fin_call req t) w Hw)
    as (r & w1 & H1 & Hw1 & Hc).
  exists r. eexists. split; [unfold call_and_record, mbind, PM_bind; rewrite H1; reflexivity|done].
Qed.

(** Every turn of the loop but the last one has an answer of the daemon. *)
Lemma costs_request k state req :
  (k < fuel)%nat → costs ub vb goes_on k (authenticate_request_response fuel mp state req).
Proof.
  intros Hf. unfold authenticate_request_response. apply (costs_bind _ _ answered); [| apply costs_call| |].
  - intros []; [by left|by right].
  - intros a k' -> _. unfold keeping. repeat case_match; try (apply ends_handle_response; lia); ends_solve.
  - intros [resp|e] He; [by destruct He|]. apply ends_costs; [unfold keeping; ends_solve|].
    intros w a w' H (q & s & ->). unfold keeping in H. pm_inv H. by apply pam_fail_finish in Ha; simplify_eq.
Qed.

Lemma ends_authenticate_loop n k state req :
  (k < n)%nat → (k < fuel)%nat → ends ub vb k (authenticate_loop fuel mp n state req).
Proof.
  revert k state req. induction n as [|n IH]; intros k state req Hn Hf; [lia|]. simpl.
  apply (costs_ends_bind _ _ goes_on); [|by apply costs_request| |].
  - intros [[q|c] s]; [left; by exists q, s|right; by intros (? & ? & ?)].
  - intros a k' -> (q & s & ->). apply IH; lia.
  - intros [[q|c] s] Hg; [destruct Hg; by exists q, s|ends_solve].
Qed.

End ends_facts.
