(* ===== verification/PamModels.v ===== *)
(** * A scripted user, device and daemon

    Instances of the classes of [Pam] for the witnesses: the user gives prepared
    answers, the daemon prepared responses, a security key signs without a touch. *)
From stdpp Require Import base gmap strings list.
From Stdlib Require Import ZArith Lia.
From S2P Require Import Prelude Proto Interface Db Runtime Caches Config Daemon HelloPin Client Pam PamAuth PamFacts Models ConfigTheorems.

Open Scope rust_scope.

Record Script := { sc_answers : list string; sc_policy : DbFile (list PolicyRow) }.

Definition pop_answer (u : Script) : option string * Script :=
  match sc_answers u with
  | [] => (None, u)
  | a :: rest => (Some a, {| sc_answers := rest; sc_policy := sc_policy u |})
  end.

#[export] Instance script_user : PamEnv Script := {|
  conv_send st _ u :=
    match st with
    | PAM_PROMPT_ECHO_OFF => let '(a, u) := pop_answer u in (Ok a, u)
    | _ => (Ok None, u)
    end;
  println _ u := u;
  eprintln _ u := u;
  prompt_password _ u := pop_answer u;
  sleep_secs _ u := u;
  bluez_objects u := (Some [Some (Some (Some true))], u);
  policy_root := false;
  policy_faults := {| parent_fault := false; open_fault := false; create_fault := false; chmod_fault := false |};
  policy_file u := sc_policy u
|}.

Definition sample_assertion : Assertion :=
  {| as_credential_id := Some "key"; as_auth_data := "data"; as_signature := "sig"; as_user_handle := None |}.

#[export] Instance script_key : FidoEnv Script := {|
  base64url s := s;
  base64_decode s := Some s;
  json_object l := Some (String.concat "," l.*2);
  sha256 s := s;
  runtime_new u := (true, u);
  authenticator_new u := (true, u);
  sign_start _ _ u := (true, u);
  next_status u := (None, u);
  send_pin _ u := (true, u);
  sign_result u := (Some sample_assertion, u);
  cable_new u := ("FIDO:/1", u);
  cable_channel u := (false, u);
  cable_assertion _ u := (None, u);
  cable_auth_data s := Some s;
  usb_first u := (true, u);
  usb_joined u := (true, u)
|}.

#[export] Instance script_daemon : DaemonLink (list ClientResponse) := {|
  connect _ v := (true, v);
  daemon_call _ _ v :=
    match v with
    | [] => (Err ClientError_Read, [])
    | r :: v => (Ok r, v)
    end;
  daemon_forget _ v := (Ok tt, v)
|}.

Lemma pop_answer_costs u :
  let '(r, u') := pop_answer u in
  (length (sc_answers u') ≤ length (sc_answers u) ∧
   (is_Some r → length (sc_answers u') < length (sc_answers u)))%nat.
Proof.
  unfold pop_answer. destruct (sc_answers u) eqn:E; simpl; [rewrite E; simpl|]; split; try lia; by intros [? ?].
Qed.

#[export] Instance script_user_finite : FiniteUser script_user script_key (λ u, length (sc_answers u)).
Proof.
  split; try done; try (intros; apply pop_answer_costs).
  intros st m u. pose proof (pop_answer_costs u) as H. simpl. destruct st; try by split.
  destruct (pop_answer u) as [r u']. destruct H as [H1 H2]. split; [done|]. intros c [= ->]. by apply H2.
Qed.

#[export] Instance script_daemon_finite : FiniteDaemon script_daemon length.
Proof. split; [done| |done]. intros q t [|r v]; simpl; split; try done; lia. Qed.

#[export] Instance model_pam_config : PamConfig := {|
  get_socket_path _ := "/var/run/himmelblaud/socket";
  get_user_map_file _ := "/etc/himmelblau/user-map";
  get_hello_pin_min_length _ := 6;
  get_entra_id_password_prompt _ := "Use the password of the Entra Id account.";
  get_hello_pin_prompt _ := "Use the Linux Hello PIN for this device.";
  get_fido_timeout _ := 60;
  get_fido_prompt _ := "Insert the security key.";
  get_fido_presence_prompt _ := "Touch the security key.";
  get_qr_bluetooth_prompt _ := "Scan with the phone.";
  get_enable_passwordless _ := true;
  get_mfa_method _ := None;
  get_request_timeout _ := 10
|}.

#[export] Instance model_text : TextOps := {|
  url_ok _ := true;
  find_url _ := None;
  totp_captures _ := None;
  urldecode s := Some s;
  encode_text _ := Ok {| qr_size := 1; get_module x y := (x =? 0) && (y =? 0) |}
|}.

Definition model_options : Options :=
  {| o_debug := false; use_first_pass := false; ignore_unknown_user := false; mfa_poll_prompt := false;
     no_hello_pin := false; set_authtok := true; try_unseal := false; force_reauth := false |}.

(** A world in which the user gives [answers] and the daemon [replies]. *)
Definition scripted (answers : list string) (policy : DbFile (list PolicyRow)) (replies : list PamAuthResponse)
  : PamWorld Script (list ClientResponse) := {|
  pw_env := {| sc_answers := answers; sc_policy := policy |};
  pw_daemon := ClientResponse_PamAuthenticateStepResponse <$> replies;
  pw_secret := None;
  pw_authtok := None;
  pw_names := None;
  pw_calls := []
|}.

Notation sample_login answers replies :=
  (authenticate 20 SimpleMessagePrinter None sample_config "alice@example.com" "gdm-password" model_options
     (scripted answers None replies)).

(** A PIN is set up on the second try, a push is confirmed after one wait. *)
Example sample_login_runs :
  (λ r, (r.1, pw_calls r.2)) <$>
    sample_login ["123456"; "582914"; "582914"]
      [PamAuthResponse_MFAPoll "Confirm the sign-in" 1; PamAuthResponse_MFAPollWait;
       PamAuthResponse_SetupPin "Choose a PIN"; PamAuthResponse_Success]
  = Some (PAM_SUCCESS,
      [(ClientRequest_PamAuthenticateInit "alice@example.com" "gdm-password" false false,
        Ok (ClientResponse_PamAuthenticateStepResponse (PamAuthResponse_MFAPoll "Confirm the sign-in" 1)));
       (ClientRequest_PamAuthenticateStep (PamAuthRequest_MFAPoll 0),
        Ok (ClientResponse_PamAuthenticateStepResponse PamAuthResponse_MFAPollWait));
       (ClientRequest_PamAuthenticateStep (PamAuthRequest_MFAPoll 1),
        Ok (ClientResponse_PamAuthenticateStepResponse (PamAuthResponse_SetupPin "Choose a PIN")));
       (ClientRequest_PamAuthenticateStep (PamAuthRequest_SetupPin "582914"),
        Ok (ClientResponse_PamAuthenticateStepResponse PamAuthResponse_Success))]).
Proof. reflexivity. Qed.
