(* ===== verification/PamTheorems.v ===== *)
(** * Properties of the login loop

    The abstract protocol of a login ([allowed], [conversation]) and the theorem that
    [authenticate] implements it; what follows for success, polling and the devices;
    termination. *)
From stdpp Require Import base gmap strings list.
From Stdlib Require Import ZArith Lia.
From S2P Require Import Prelude Proto Interface Db Runtime Caches Config Daemon HelloPin Client Pam PamAuth PamFacts Models ConfigTheorems PamModels.

Open Scope rust_scope.

(** A request of the client and what came back. *)
Notation Exchange := (ClientRequest * result ClientResponse ClientError)%type.

Section spec.
Context {X : Ext} {I : IniFile} {G : GeneratedConfig} {PC : PamConfig}.
Context {U : Type} {PE : PamEnv U}.

(** ** The protocol *)

(** A PIN that may be enrolled: long enough, not predictable, and accepted by the
    administrator's policy as some state of the outside has it. *)
Definition pin_acceptable (min_length : Z) (pin : string) : Prop :=
  min_length ≤ byte_len pin ∧ is_simple_pin (chars pin) = false ∧
  ∃ u, meets_intune_pin_policy policy_root policy_faults (policy_file u) (chars pin) = Ok tt.

(** What the client may do on a response: the state of the login before, the response,
    the next request or the result, and the state after. *)
Inductive allowed (s : AuthenticateState) : PamAuthResponse → PamWhatNext → AuthenticateState → Prop :=
| allowed_unknown :
    allowed s PamAuthResponse_Unknown
      (PamWhatNext_Finish (if ignore_unknown_user (opts s) then PAM_IGNORE else PAM_USER_UNKNOWN)) s
| allowed_success : allowed s PamAuthResponse_Success (PamWhatNext_Finish PAM_SUCCESS) s
| allowed_denied msg : allowed s (PamAuthResponse_Denied msg) (PamWhatNext_Next (begin_request s)) s
| allowed_init_denied msg : allowed s (PamAuthResponse_InitDenied msg) (PamWhatNext_Finish PAM_ABORT) s
| allowed_password c :
    authtok s = Some c ∨ authtok s = None →
    (∀ c', authtok s = Some c' → c = c') →
    allowed s PamAuthResponse_Password (next_step (PamAuthRequest_Password c)) (take_authtok s)
| allowed_no_password :
    authtok s = None → allowed s PamAuthResponse_Password (PamWhatNext_Finish PAM_ABORT) (take_authtok s)
| allowed_pin c :
    authtok s = Some c ∨ authtok s = None →
    (∀ c', authtok s = Some c' → c = c') →
    allowed s PamAuthResponse_Pin (next_step (PamAuthRequest_Pin c)) (take_authtok s)
| allowed_no_pin :
    authtok s = None → allowed s PamAuthResponse_Pin (PamWhatNext_Finish PAM_ABORT) (take_authtok s)
| allowed_mfacode msg c : allowed s (PamAuthResponse_MFACode msg) (next_step (PamAuthRequest_MFACode c)) s
| allowed_no_mfacode msg : allowed s (PamAuthResponse_MFACode msg) (PamWhatNext_Finish PAM_ABORT) s
| allowed_totp msg c : allowed s (PamAuthResponse_HelloTOTP msg) (next_step (PamAuthRequest_HelloTOTP c)) s
| allowed_no_totp msg : allowed s (PamAuthResponse_HelloTOTP msg) (PamWhatNext_Finish PAM_ABORT) s
| allowed_poll msg n :
    poll_attempt s < 0 →
    allowed s (PamAuthResponse_MFAPoll msg n) (next_step (PamAuthRequest_MFAPoll 0)) (set_poll 0 n s)
| allowed_poll_again msg n :
    0 ≤ poll_attempt s → allowed s (PamAuthResponse_MFAPoll msg n) (PamWhatNext_Finish PAM_ABORT) s
| allowed_wait k :
    k = (if poll_attempt s <? 0 then 0 else i32_succ (poll_attempt s)) →
    allowed s PamAuthResponse_MFAPollWait (poll_request k) (set_poll k (polling_interval s) s)
| allowed_setup_pin msg pin :
    pin_acceptable (get_hello_pin_min_length (config (cfg s))) pin →
    allowed s (PamAuthResponse_SetupPin msg) (next_step (PamAuthRequest_SetupPin pin)) s
| allowed_no_setup_pin msg : allowed s (PamAuthResponse_SetupPin msg) (PamWhatNext_Finish PAM_ABORT) s
| allowed_fido c l p x a :
    allowed s (PamAuthResponse_Fido c l p x) (next_step (PamAuthRequest_Fido a)) s
| allowed_fido_unavailable c l x :
    allowed s (PamAuthResponse_Fido c l false x) (next_step PamAuthRequest_FidoUnavailable) s
| allowed_fido_failed c l p x : allowed s (PamAuthResponse_Fido c l p x) (PamWhatNext_Finish PAM_ABORT) s
| allowed_change_password msg c :
    8 ≤ byte_len c →
    allowed s (PamAuthResponse_ChangePassword msg) (next_step (PamAuthRequest_Password c)) s
| allowed_no_change_password msg :
    allowed s (PamAuthResponse_ChangePassword msg) (PamWhatNext_Finish PAM_ABORT) s.

(** The daemon's answer carries a step of the login. *)
Definition step_reply (r : result ClientResponse ClientError) : option PamAuthResponse :=
  match r with
  | Ok (ClientResponse_PamAuthenticateStepResponse p) => Some p
  | _ => None
  end.

(** A login in state [s] that sends [req]: the exchanges from there on and the result.
    A reply that is missing or of another kind aborts it. *)
Inductive conversation : AuthenticateState → ClientRequest → list Exchange → PamResultCode → Prop :=
| conversation_finish s req r p code s' :
    step_reply r = Some p → allowed s p (PamWhatNext_Finish code) s' →
    conversation s req [(req, r)] code
| conversation_broken s req r :
    step_reply r = None → conversation s req [(req, r)] PAM_ABORT
| conversation_next s req r p next s' tr code :
    step_reply r = Some p → allowed s p (PamWhatNext_Next next) s' →
    conversation s' next tr code → conversation s req ((req, r) :: tr) code.

End spec.

Section refines.
Context {X : Ext} {I : IniFile} {G : GeneratedConfig} {PC : PamConfig} {T : TextOps}.
Context {U V : Type} {DL : DaemonLink V} {PE : PamEnv U} {FE : FidoEnv U}.
Context (fuel : nat) (mp : MessagePrinter U V) {QP : QuietPrinter mp}.

(** ** The handlers follow the protocol *)

Lemma ask_cases prompt msg req w r w' :
  ask mp prompt msg req w = Some (r, w') → (∃ c, r = next_step (req c)) ∨ r = PamWhatNext_Finish PAM_ABORT.
Proof.
  unfold ask. intros H. pm_inv H. destruct a; [pm_inv H; eauto|]. apply pam_fail_finish in H. auto.
Qed.

Lemma pin_refused_None u min_length pin :
  pin_refused u min_length pin = None → pin_acceptable (U := U) min_length pin.
Proof.
  unfold pin_refused, pin_acceptable. intros H. case_match eqn:E1; [done|]. case_match eqn:E2; [done|].
  case_match eqn:E3; [|done]. apply Z.ltb_ge in E1. destruct a. eauto.
Qed.

Lemma setup_pin_cases n m msg w r w' :
  setup_pin_loop mp n m msg w = Some (r, w') →
  (∃ pin, r = next_step (PamAuthRequest_SetupPin pin) ∧ pin_acceptable (U := U) m pin) ∨
  r = PamWhatNext_Finish PAM_ABORT.
Proof.
  revert w. induction n as [|n IH]; intros w H; [done|]. simpl in H. pm_inv H.
  destruct a0 as [pin|]; [|right; by eapply pam_fail_finish]. pm_inv H.
  destruct (pin_refused a0 m pin) as [why|] eqn:Hp; [pm_inv H; by eapply IH|]. pm_inv H.
  destruct a2 as [confirm|]; [|right; by eapply pam_fail_finish].
  destruct (String.eqb pin confirm); pm_inv H; [|by eapply IH].
  left. exists pin. eauto using pin_refused_None.
Qed.

Lemma change_password_cases n msg w r w' :
  change_password_loop mp n msg w = Some (r, w') →
  (∃ c, r = next_step (PamAuthRequest_Password c) ∧ 8 ≤ byte_len c) ∨ r = PamWhatNext_Finish PAM_ABORT.
Proof.
  revert w. induction n as [|n IH]; intros w H; [done|]. simpl in H. pm_inv H.
  destruct a0 as [c|]; [|right; by eapply pam_fail_finish].
  destruct (byte_len c <? 8) eqn:Hl; pm_inv H; [by eapply IH|].
  destruct a1 as [confirm|]; [|right; by eapply pam_fail_finish].
  destruct (String.eqb c confirm); pm_inv H; [|by eapply IH].
  left. exists c. apply Z.ltb_ge in Hl. eauto.
Qed.

Lemma totp_cases s msg w r w' :
  handle_pam_auth_response_hellototp mp s msg w = Some (r, w') →
  (∃ c, r = next_step (PamAuthRequest_HelloTOTP c)) ∨ r = PamWhatNext_Finish PAM_ABORT.
Proof.
  unfold handle_pam_auth_response_hellototp. intros H. pm_inv H.
  destruct a as [fin|]; [|by eapply ask_cases]. pm_inv H. right.
  repeat (case_match; pm_inv Ha; try done). simplify_eq. by eapply pam_fail_finish.
Qed.

Lemma fido_result_cases auth msg w r w' :
  fido_result mp auth msg w = Some (r, w') →
  (∃ a, r = next_step (PamAuthRequest_Fido a)) ∨ r = PamWhatNext_Finish PAM_ABORT.
Proof.
  unfold fido_result. intros H. pm_inv H. destruct a; [pm_inv H; eauto|]. apply pam_fail_finish in H. auto.
Qed.

Lemma fido_cases s c l p x w r w' :
  handle_pam_auth_response_fido fuel mp s c l p x w = Some (r, w') →
  (∃ a, r = next_step (PamAuthRequest_Fido a)) ∨ (p = false ∧ r = next_step PamAuthRequest_FidoUnavailable) ∨
  r = PamWhatNext_Finish PAM_ABORT.
Proof.
  unfold handle_pam_auth_response_fido. cbv zeta. intros H. pm_inv H.
  destruct (negb p && negb a0) eqn:Hp.
  - pm_inv H. right; left. apply andb_true_iff in Hp as [Hp _]. by destruct p.
  - repeat case_match; apply fido_result_cases in H; tauto.
Qed.

Lemma handle_response_allowed s p w r s' w' :
  handle_response fuel mp s p w = Some ((r, s'), w') → allowed s p r s'.
Proof.
  destruct p; unfold handle_response, keeping; intros H.
  - pm_inv H. simplify_eq. constructor.
  - pm_inv H. simplify_eq. constructor.
  - unfold handle_pam_auth_response_denied in H. pm_inv H. pm_inv Ha. simplify_eq. constructor.
  - unfold handle_pam_auth_response_password in H. cbv zeta in H. destruct (authtok s) as [c|] eqn:Ht.
    + pm_inv H. simplify_eq. constructor; [by left|naive_solver].
    + pm_inv H. simplify_eq. apply ask_cases in Ha0 as [[c ->]| ->]; constructor; try done; [by right|naive_solver].
  - unfold handle_pam_auth_response_mfacode in H. pm_inv H. simplify_eq. pm_inv Ha.
    apply ask_cases in Ha as [[c ->]| ->]; constructor.
  - pm_inv H. simplify_eq. apply totp_cases in Ha as [[c ->]| ->]; constructor.
  - unfold handle_pam_auth_response_mfapoll in H. cbv zeta in H. pm_inv H.
    destruct (Z.leb_spec 0 (poll_attempt s)); pm_inv H; simplify_eq.
    + apply pam_fail_finish in Ha1 as ->. by constructor.
    + by constructor.
  - unfold handle_pam_auth_response_mfapollwait in H. cbv zeta in H. pm_inv H. simplify_eq. by constructor.
  - pm_inv H. simplify_eq. apply setup_pin_cases in Ha as [(pin & -> & Hp)| ->]; by constructor.
  - unfold handle_pam_auth_response_pin in H. cbv zeta in H. destruct (authtok s) as [c|] eqn:Ht.
    + pm_inv H. simplify_eq. constructor; [by left|naive_solver].
    + pm_inv H. simplify_eq. apply ask_cases in Ha0 as [[c ->]| ->]; constructor; try done; [by right|naive_solver].
  - pm_inv H. simplify_eq. apply fido_cases in Ha as [[? ->]|[[-> ->]| ->]]; constructor.
  - pm_inv H. simplify_eq. apply change_password_cases in Ha as [(c & -> & Hc)| ->]; by constructor.
  - pm_inv H. simplify_eq. apply pam_fail_finish in Ha as ->. constructor.
Qed.

(** ** The loop *)

Lemma call_and_record_Some req t (w : PamWorld U V) r w' :
  call_and_record req t w = Some (r, w') → pw_calls w' = pw_calls w ++ [(req, r)] ∧
  (r, pw_daemon w') = daemon_call req t (pw_daemon w) ∧ pw_authtok w' = pw_authtok w.
Proof.
  unfold call_and_record. intros H. pm_inv H. unfold daemon_io in Ha.
  destruct (daemon_call req t (pw_daemon w)) as [r' v]. simplify_eq. injection Ha0 as <- <-. done.
Qed.

Lemma request_cases s req w r s' w' :
  authenticate_request_response fuel mp s req w = Some ((r, s'), w') →
  ∃ reply, pw_calls w' = pw_calls w ++ [(req, reply)] ∧
    (reply, pw_daemon w') = daemon_call req (get_unix_sock_timeout (cfg s)) (pw_daemon w) ∧
    ((∃ p, step_reply reply = Some p ∧ allowed s p r s') ∨
     step_reply reply = None ∧ r = PamWhatNext_Finish PAM_ABORT).
Proof.
  unfold authenticate_request_response. intros H. pm_inv H. exists a.
  apply call_and_record_Some in Ha as (<- & <- & _). destruct (step_reply a) as [p|] eqn:Hp.
  - destruct a as [[]|]; try discriminate. injection Hp as <-.
    destruct (quiet_handle_response fuel mp _ _ _ _ _ H) as (-> & -> & _). split; [done|]. split; [done|].
    left. exists r0. split; [done|]. by apply handle_response_allowed in H.
  - assert (keeping s (pam_fail mp UNEXPECTED PAM_IGNORE) w0 = Some (r, s', w')) as Hf.
    { by destruct a as [[]|]. }
    unfold keeping in Hf. pm_inv Hf. simplify_eq.
    destruct (quiet_pam_fail mp _ _ _ _ _ Ha) as (-> & -> & _). split; [done|]. split; [done|].
    right. split; [done|]. by apply pam_fail_finish in Ha.
Qed.

Lemma loop_conversation n s req w code w' :
  authenticate_loop fuel mp n s req w = Some (code, w') →
  ∃ tr, pw_calls w' = pw_calls w ++ tr ∧ conversation s req tr code.
Proof.
  revert s req w. induction n as [|n IH]; intros s req w H; [done|]. simpl in H. pm_inv H.
  destruct a as [[next|c] s1]; apply request_cases in Ha as (reply & Hc & _ & Ha).
  - apply IH in H as (tr & Htr & Hconv). exists ((req, reply) :: tr).
    split; [by rewrite Htr, Hc, <- app_assoc|].
    destruct Ha as [(p & Hp & Ha)|[_ [=]]]. by eapply conversation_next.
  - pm_inv H. exists [(req, reply)]. split; [done|].
    destruct Ha as [(p & Hp & Ha)|[Hp [= ->]]]; [by eapply conversation_finish|by apply conversation_broken].
Qed.

(** Every run of [authenticate] is one of the protocol. *)
Lemma authenticate_conversation tok c account svc o w code w' :
  authenticate fuel mp tok c account svc o w = Some (code, w') →
  let s := initial_state tok c account svc o in
  (code = PAM_IGNORE ∧ pw_calls w' = pw_calls w) ∨
  ∃ tr, pw_calls w' = pw_calls w ++ tr ∧ conversation s (begin_request s) tr code.
Proof.
  unfold authenticate. intros H. pm_inv H. unfold daemon_io in Ha.
  destruct (connect _ _) as [ok v]. simplify_eq. destruct a; simpl in H.
  - right. apply loop_conversation in H as (tr & Htr & Hconv). eauto.
  - pm_inv H. by left.
Qed.

(** The same, when the exchanges of the run are known and there are some. *)
Lemma authenticate_trace tok c account svc o w code w' tr :
  authenticate fuel mp tok c account svc o w = Some (code, w') → pw_calls w' = pw_calls w ++ tr → tr ≠ [] →
  let s := initial_state tok c account svc o in conversation s (begin_request s) tr code.
Proof.
  intros [[-> Hn]|(tr' & Htr & Hc)]%authenticate_conversation Ht Hne.
  - rewrite <- (app_nil_r (pw_calls w)), Ht in Hn. by apply app_inv_head in Hn.
  - rewrite Ht in Htr. by apply app_inv_head in Htr as ->.
Qed.

(** C6. Refinement: the loop of [authenticate], for every user, device and daemon,
    implements the abstract protocol: without a socket it returns [PAM_IGNORE] and
    sends nothing; otherwise the exchanges it adds are a conversation that begins with
    the request for the given account, service and options, and the result is the one
    the conversation allows. *)
Theorem authenticate_refines tok c account svc o w code w' :
  authenticate fuel mp tok c account svc o w = Some (code, w') →
  let s := initial_state tok c account svc o in
  (code = PAM_IGNORE ∧ pw_calls w' = pw_calls w) ∨
  ∃ tr, pw_calls w' = pw_calls w ++ tr ∧ conversation s (begin_request s) tr code.
Proof. apply authenticate_conversation. Qed.

(** ** Consequences *)

Lemma conversation_head s req tr code : conversation s req tr code → ∃ r tr', tr = (req, r) :: tr'.
Proof. destruct 1; eauto. Qed.

(** The account, the service and the options of a login never change. *)
Lemma allowed_begin s p next s' : allowed s p next s' → begin_request s' = begin_request s.
Proof. by destruct 1. Qed.

(** A session is only ever begun for them; every other request is a step. *)
Lemma conversation_requests s req tr code :
  conversation s req tr code →
  Forall (λ x, x.1 = req ∨ x.1 = begin_request s ∨ ∃ q, x.1 = ClientRequest_PamAuthenticateStep q) tr.
Proof.
  induction 1 as [s req r p code s' Hp Ha|s req r Hp|s req r p next s' tr code Hp Ha Hc IH].
  - constructor; [by left|done].
  - constructor; [by left|done].
  - constructor; [by left|]. rewrite (allowed_begin _ _ _ _ Ha) in IH. eapply Forall_impl; [exact IH|].
    intros x [Hx|Hx]; [right; rewrite Hx|by right]. inversion Ha; subst; eauto.
Qed.

(** The result is decided by the last answer of the daemon. *)
Lemma conversation_last s req tr code :
  conversation s req tr code →
  ∃ tr' q r s1, tr = tr' ++ [(q, r)] ∧
    match step_reply r with
    | Some p => ∃ s2, allowed s1 p (PamWhatNext_Finish code) s2
    | None => code = PAM_ABORT
    end.
Proof.
  induction 1 as [s req r p code s' Hp Ha|s req r Hp|s req r p next s' tr code Hp Ha Hc IH].
  - exists [], req, r, s. split; [done|]. rewrite Hp. eauto.
  - exists [], req, r, s. split; [done|]. by rewrite Hp.
  - destruct IH as (tr' & q & r' & s1 & -> & IH). by exists ((req, r) :: tr'), q, r', s1.
Qed.

Lemma allowed_finish_success s p code s' :
  allowed s p (PamWhatNext_Finish code) s' → (code = PAM_SUCCESS ↔ p = PamAuthResponse_Success).
Proof. intros H. inversion H; subst; try done; destruct (ignore_unknown_user _); done. Qed.

(** [PAM_SUCCESS] is returned exactly when the daemon was reached and its last
    answer is "success": no failure, cancelled prompt or unexpected answer succeeds. *)
Theorem authenticate_success_iff tok c account svc o w code w' :
  authenticate fuel mp tok c account svc o w = Some (code, w') →
  code = PAM_SUCCESS ↔
  ∃ tr q, pw_calls w' = pw_calls w ++ tr ++
    [(q, Ok (ClientResponse_PamAuthenticateStepResponse PamAuthResponse_Success))].
Proof.
  intros [[-> ->]|(tr & -> & Hc)]%authenticate_conversation.
  - split; [done|]. intros (tr & q & He).
    apply (f_equal length) in He. rewrite !length_app in He. simpl in He. lia.
  - apply conversation_last in Hc as (tr' & q & r & s1 & -> & Hr). split.
    + intros ->. exists tr', q. destruct (step_reply r) as [p|] eqn:Hp; [|done]. destruct Hr as [s2 Hr].
      apply allowed_finish_success in Hr as [Hr _]. rewrite (Hr eq_refl) in Hp.
      destruct r as [[]|]; simplify_eq/=. done.
    + intros (tr2 & q2 & He). apply app_inj_1 in He as [_ He]; [|done].
      apply app_inj_tail in He as [_ [= -> ->]]. simpl in Hr. destruct Hr as [s2 Hr].
      by apply allowed_finish_success in Hr as [_ ->].
Qed.

(** ** Polling *)

Definition reply_is (p : PamAuthResponse → Prop) (x : Exchange) : Prop :=
  ∃ r, step_reply x.2 = Some r ∧ p r.
Definition is_poll (r : PamAuthResponse) : Prop := ∃ msg n, r = PamAuthResponse_MFAPoll msg n.
Definition is_wait (r : PamAuthResponse) : Prop := r = PamAuthResponse_MFAPollWait.

(** The poll counter never goes back below zero, and grows by at most one a turn. *)
Lemma allowed_poll_attempt s p next s' :
  allowed s p next s' → -1 ≤ poll_attempt s < i32_max →
  -1 ≤ poll_attempt s' ≤ poll_attempt s + 1 ∧ (0 ≤ poll_attempt s → 0 ≤ poll_attempt s').
Proof.
  intros H Hs. inversion H; subst; simpl; try lia. unfold i32_succ.
  destruct (Z.ltb_spec (poll_attempt s) 0); [lia|].
  destruct (Z.eqb_spec (poll_attempt s) i32_max); lia.
Qed.

Lemma polling_poll_last s req tr code j x :
  conversation s req tr code → 0 ≤ poll_attempt s → poll_attempt s + Z.of_nat (length tr) ≤ i32_max →
  tr !! j = Some x → reply_is is_poll x → S j = length tr ∧ code = PAM_ABORT.
Proof.
  intros Hc. revert j. induction Hc as [s req r p code s' Hp Ha|s req r Hp|s req r p next s' tr code Hp Ha Hc IH];
    intros j Hs Hb Hj (r' & Hr & msg & n & ->).
  - destruct j; [injection Hj as <-|done]. simpl in Hr. rewrite Hp in Hr. injection Hr as ->.
    by inversion Ha.
  - destruct j; [injection Hj as <-|done]. simpl in Hr. congruence.
  - simpl in Hb. destruct j as [|j].
    + injection Hj as <-. simpl in Hr. rewrite Hp in Hr. injection Hr as ->. inversion Ha; subst; lia.
    + destruct (allowed_poll_attempt _ _ _ _ Ha); [lia|]. simpl in Hj.
      enough (S j = length tr ∧ code = PAM_ABORT) as [? ->] by (simpl; split; [lia|done]).
      apply IH; try lia; [done|]. by exists (PamAuthResponse_MFAPoll msg n); repeat eexists.
Qed.

Lemma second_poll_last s req tr code i j x y :
  conversation s req tr code → -1 ≤ poll_attempt s → poll_attempt s + Z.of_nat (length tr) ≤ i32_max →
  (i < j)%nat → tr !! i = Some x → reply_is is_poll x → tr !! j = Some y → reply_is is_poll y →
  S j = length tr ∧ code = PAM_ABORT.
Proof.
  intros Hc. revert i j.
  induction Hc as [s req r p code s' Hp Ha|s req r Hp|s req r p next s' tr code Hp Ha Hc IH];
    intros i j Hs Hb Hij Hi Hx Hj Hy; try by (destruct j; [lia|]).
  destruct j as [|j]; [lia|]. simpl in *. destruct i as [|i].
  - injection Hi as <-. destruct Hx as (r' & Hr & msg & n & ->). simpl in Hr. rewrite Hp in Hr. injection Hr as ->.
    enough (S j = length tr ∧ code = PAM_ABORT) as [? ->] by (simpl; split; [lia|done]).
    apply (polling_poll_last _ _ _ _ j y Hc); try done; inversion Ha; subst; simpl; lia.
  - destruct (allowed_poll_attempt _ _ _ _ Ha); [lia|].
    enough (S j = length tr ∧ code = PAM_ABORT) as [? ->] by (simpl; split; [lia|done]).
    apply (IH i j); (done || lia).
Qed.

(** A login polls once: when the daemon asks for a second poll ([MFAPoll]), at any
    later point and also after the login was denied and began again, that answer is
    the last one and the result is [PAM_ABORT]. The counter that records a poll in
    progress is not reset when the session is. *)
Theorem second_poll_aborts tok c account svc o w code w' tr i j x y :
  authenticate fuel mp tok c account svc o w = Some (code, w') → pw_calls w' = pw_calls w ++ tr →
  Z.of_nat (length tr) ≤ i32_max →
  (i < j)%nat → tr !! i = Some x → reply_is is_poll x → tr !! j = Some y → reply_is is_poll y →
  S j = length tr ∧ code = PAM_ABORT.
Proof.
  intros H Ht Hb Hij Hi Hx Hj Hy. eapply authenticate_trace in H; [|done|by intros ->].
  apply (second_poll_last _ _ _ _ i j x y H); try done; simpl; lia.
Qed.

Lemma allowed_wait_inv s next s' :
  allowed s PamAuthResponse_MFAPollWait next s' → 0 ≤ poll_attempt s → poll_attempt s < i32_max →
  next = next_step (PamAuthRequest_MFAPoll (poll_attempt s + 1)) ∧ poll_attempt s' = poll_attempt s + 1.
Proof.
  intros H H0 H1. inversion H; subst. simpl. unfold poll_request, i32_succ.
  rewrite (proj2 (Z.ltb_ge _ _)), (proj2 (Z.eqb_neq _ _)) by lia.
  rewrite wrap32_small by (unfold in_u32, u32_max, i32_max in *; lia). done.
Qed.

Lemma waits_counted s req tr code k m x :
  conversation s req tr code → 0 ≤ poll_attempt s → poll_attempt s + Z.of_nat (length tr) ≤ i32_max →
  (∀ i, (i < k)%nat → ∃ y, tr !! i = Some y ∧ reply_is is_wait y) →
  (m < k)%nat → tr !! S m = Some x →
  x.1 = ClientRequest_PamAuthenticateStep (PamAuthRequest_MFAPoll (poll_attempt s + Z.of_nat (S m))).
Proof.
  intros Hc. revert k m.
  induction Hc as [s req r p code s' Hp Ha|s req r Hp|s req r p next s' tr code Hp Ha Hc IH];
    intros k m Hs Hb Hw Hm Hx; [done|done|].
  destruct (Hw 0%nat ltac:(lia)) as (y & [= <-] & p' & Hy & ->). simpl in Hy, Hx, Hb. rewrite Hp in Hy.
  injection Hy as ->. apply allowed_wait_inv in Ha as [Hn Hs']; [|lia..]. injection Hn as ->.
  destruct m as [|m].
  - apply conversation_head in Hc as (r1 & tr' & ->). by injection Hx as <-.
  - rewrite (IH (pred k) m); simpl; try lia; [do 2 f_equal; lia| |done].
    intros i Hi. apply (Hw (S i)). lia.
Qed.

(** The polls of a login are numbered in order: after the daemon asks to poll and
    then answers "wait" [k] times, the requests that follow carry the numbers 0, 1,
    ..., [k], without a gap or a repetition. *)
Theorem polls_numbered tok c account svc o w code w' tr i x k m y :
  authenticate fuel mp tok c account svc o w = Some (code, w') → pw_calls w' = pw_calls w ++ tr →
  Z.of_nat (length tr) ≤ i32_max →
  tr !! i = Some x → reply_is is_poll x →
  (∀ j, (j < k)%nat → ∃ z, tr !! (S i + j)%nat = Some z ∧ reply_is is_wait z) →
  (m ≤ k)%nat → tr !! (S i + m)%nat = Some y →
  y.1 = ClientRequest_PamAuthenticateStep (PamAuthRequest_MFAPoll (Z.of_nat m)).
Proof.
  intros H Ht Hb Hi Hx Hk Hm Hy. eapply authenticate_trace in H as Hc; [|done|by intros ->].
  clear H Ht. simpl in Hc.
  assert (-1 ≤ poll_attempt (initial_state tok c account svc o)) as Hs by (simpl; lia).
  assert (poll_attempt (initial_state tok c account svc o) + Z.of_nat (length tr) ≤ i32_max) as Hs' by (simpl; lia).
  revert Hc Hs Hs'. generalize (initial_state tok c account svc o), (begin_request (initial_state tok c account svc o)).
  clear Hb. intros s req Hc. revert i Hi Hk Hy.
  induction Hc as [s req r p code s' Hp Ha|s req r Hp|s req r p next s' tr code Hp Ha Hc IH];
    intros i Hi Hk Hy Hs Hb; try by (destruct i).
  destruct (allowed_poll_attempt _ _ _ _ Ha) as [Hs1 _]; [simpl in Hb; lia|]. simpl in Hb.
  destruct i as [|i]; [|eapply IH; eauto; lia].
  injection Hi as <-. destruct Hx as (r' & Hr & msg & n & ->). simpl in Hr. rewrite Hp in Hr. injection Hr as ->.
  inversion Ha; subst. destruct m as [|m].
  - apply conversation_head in Hc as (r1 & tr' & ->). by injection Hy as <-.
  - rewrite (waits_counted _ _ _ _ k m y Hc); simpl; try lia; try done.
Qed.

(** ** Security key and phone *)

Lemma join_usb_Some (usb : PM U V (result string PamResultCode)) w r w' :
  join_usb usb w = Some (r, w') →
  ∃ ru w1 w2, usb w1 = Some (ru, w2) ∧ (r = Some ru ∨ r = None).
Proof.
  unfold join_usb. intros H. pm_inv H. exists a, w, w0. split; [done|]. destruct a0; auto.
Qed.

(** The race between the security key and the phone, whichever completes first: an
    assertion comes from one of the two; an error means that the runtime could not be
    made, or that both paths failed, and it is the security key's error (or
    [PAM_AUTH_ERR] when its task was lost), never the phone's. *)
Theorem fido_race_outcome ch l t pr pp qp w r w' :
  fido_auth_with_qr_bluetooth fuel mp ch l t pr pp qp w = Some (r, w') →
  let usb := fido_sign fuel mp ch l t pp in
  let phone := qr_bluetooth_fido_auth mp ch EmptyString true in
  match r with
  | Ok a => (∃ w1 w2, usb w1 = Some (Ok a, w2)) ∨ (∃ w1 w2, phone w1 = Some (Ok a, w2))
  | Err e =>
      (e = PAM_AUTH_ERR ∧ (runtime_new (pw_env w)).1 = false) ∨
      ((∃ w1 w2 e', phone w1 = Some (Err e', w2)) ∧
       ∃ w1 w2 ru, usb w1 = Some (ru, w2) ∧ (ru = Err e ∨ e = PAM_AUTH_ERR))
  end.
Proof.
  unfold fido_auth_with_qr_bluetooth. cbv zeta. intros H.
  apply PM_bind_Some in H as (rt & w0 & Hrt & H). unfold io in Hrt.
  destruct (runtime_new (pw_env w)) as [ok u] eqn:Ert. injection Hrt as -> <-.
  destruct rt; simpl in H; [|injection H as <- <-; by left].
  apply PM_bind_Some in H as (url & ? & _ & H). apply PM_bind_Some in H as (? & ? & _ & H).
  apply PM_bind_Some in H as (first & ? & _ & H). destruct first.
  - apply PM_bind_Some in H as (ur & wu & Hu & H). apply join_usb_Some in Hu as (ru & w1 & w2 & Hu & Hur).
    destruct ur as [[a|e]|].
    + destruct Hur as [[= <-]|[=]]. apply PM_ret_Some in H as [-> ->]. left. by exists w1, w2.
    + destruct Hur as [[= <-]|[=]]. apply PM_bind_Some in H as (qr & wq & Hq & H).
      apply PM_ret_Some in H as [-> ->]. destruct qr as [a|e']; simpl; right; [by exists wu, wq|].
      split; [by exists wu, wq, e'|]. exists w1, w2, (Err e). auto.
    + apply PM_bind_Some in H as (qr & wq & Hq & H).
      apply PM_ret_Some in H as [-> ->]. destruct qr as [a|e']; simpl; right; [by exists wu, wq|].
      split; [by exists wu, wq, e'|]. exists w1, w2, ru. auto.
  - apply PM_bind_Some in H as (qr & wq & Hq & H).
    destruct qr as [a|e']; [apply PM_ret_Some in H as [-> ->]; right; eauto|].
    apply PM_bind_Some in H as (ur & wu & Hu & H). apply join_usb_Some in Hu as (ru & w1 & w2 & Hu & Hur).
    apply PM_ret_Some in H as [-> ->]. destruct ur as [[a|e]|]; simpl.
    + destruct Hur as [[= <-]|[=]]. left. by exists w1, w2.
    + destruct Hur as [[= <-]|[=]]. right. split; [by repeat eexists|]. exists w1, w2, (Err e). auto.
    + right. split; [by repeat eexists|]. exists w1, w2, ru. auto.
Qed.

End refines.

(** ** Termination *)

Section termination.
Context {X : Ext} {I : IniFile} {G : GeneratedConfig} {PC : PamConfig} {T : TextOps}.
Context {U V : Type} {DL : DaemonLink V} {PE : PamEnv U} {FE : FidoEnv U}.
Context (ub : U → nat) (vb : V → nat).

(** C22. Termination: there is no bound on the polls or on the retries of a prompt, but
    a login ends when the daemon, the user or the device stops answering. With a
    number of answers left of less than [fuel], the loop returns a result. *)
Theorem authenticate_total fuel mp tok c account svc o w :
  FiniteDaemon DL vb → FiniteUser PE FE ub → EndingPrinter ub vb mp →
  (ub (pw_env w) + vb (pw_daemon w) < fuel)%nat →
  ∃ code w', authenticate fuel mp tok c account svc o w = Some (code, w').
Proof.
  intros FD FU EP Hf.
  assert (ends ub vb (bud ub vb w) (authenticate fuel mp tok c account svc o)) as He.
  { unfold authenticate. apply ends_bind; [apply ends_daemon_io, fin_connect|]. intros []; simpl.
    - apply ends_authenticate_loop; done.
    - apply ends_ret. }
  destruct (He w) as (code & w' & H & _); [done|]. eauto.
Qed.

End termination.

(** ** Witnesses *)

(** The user confirms a push after a wait; a push that is denied is followed by a
    second one. *)
Definition pushed : list PamAuthResponse :=
  [PamAuthResponse_MFAPoll "Confirm the sign-in" 1; PamAuthResponse_MFAPollWait; PamAuthResponse_Success].
Definition pushed_twice : list PamAuthResponse :=
  [PamAuthResponse_MFAPoll "Confirm the sign-in" 1; PamAuthResponse_Denied "Denied by the user";
   PamAuthResponse_MFAPoll "Confirm the sign-in" 1; PamAuthResponse_Success].

Definition asked (r : PamAuthResponse) : result ClientResponse ClientError :=
  Ok (ClientResponse_PamAuthenticateStepResponse r).
Definition sample_begin : ClientRequest :=
  ClientRequest_PamAuthenticateInit "alice@example.com" "gdm-password" false false.
Definition sample_poll (n : Z) : ClientRequest := ClientRequest_PamAuthenticateStep (PamAuthRequest_MFAPoll n).

Definition pushed_trace : list Exchange :=
  [(sample_begin, asked (PamAuthResponse_MFAPoll "Confirm the sign-in" 1));
   (sample_poll 0, asked PamAuthResponse_MFAPollWait); (sample_poll 1, asked PamAuthResponse_Success)].
Definition pushed_twice_trace : list Exchange :=
  [(sample_begin, asked (PamAuthResponse_MFAPoll "Confirm the sign-in" 1));
   (sample_poll 0, asked (PamAuthResponse_Denied "Denied by the user"));
   (sample_begin, asked (PamAuthResponse_MFAPoll "Confirm the sign-in" 1))].

(** A run that was evaluated, with its result and its exchanges. *)
Definition summary (run : option (PamResultCode * PamWorld Script (list ClientResponse)))
  : option (PamResultCode * list Exchange) := (λ r, (r.1, pw_calls r.2)) <$> run.

Lemma summary_run run code tr :
  summary run = Some (code, tr) → ∃ w', run = Some (code, w') ∧ pw_calls w' = [] ++ tr.
Proof. unfold summary. destruct run as [[c w]|]; [|done]. intros [= <- <-]. by exists w. Qed.

Lemma pushed_runs : summary (sample_login [] pushed) = Some (PAM_SUCCESS, pushed_trace).
Proof. reflexivity. Qed.
Lemma pushed_twice_runs : summary (sample_login [] pushed_twice) = Some (PAM_ABORT, pushed_twice_trace).
Proof. reflexivity. Qed.

Lemma authenticate_refines_witness :
  let s := initial_state None sample_config "alice@example.com" "gdm-password" model_options in
  conversation (U := Script) s (begin_request s) pushed_trace PAM_SUCCESS.
Proof.
  destruct (summary_run _ _ _ pushed_runs) as (w' & Hrun & Hcalls).
  destruct (authenticate_refines 20 SimpleMessagePrinter None sample_config "alice@example.com" "gdm-password"
    model_options (scripted [] None pushed) PAM_SUCCESS w' Hrun) as [[[=] _]|(tr & Ht & Hc)].
  rewrite Hcalls in Ht. apply app_inv_head in Ht as <-. exact Hc.
Defined.

Lemma authenticate_success_iff_witness :
  ∃ tr q, pushed_trace = tr ++ [(q, Ok (ClientResponse_PamAuthenticateStepResponse PamAuthResponse_Success))].
Proof.
  destruct (summary_run _ _ _ pushed_runs) as (w' & Hrun & Hcalls).
  destruct (authenticate_success_iff 20 SimpleMessagePrinter None sample_config "alice@example.com" "gdm-password"
    model_options (scripted [] None pushed) PAM_SUCCESS w' Hrun) as [H _].
  rewrite Hcalls in H. exact (H eq_refl).
Defined.

Lemma second_poll_aborts_witness : 3%nat = length pushed_twice_trace ∧ PAM_ABORT = PAM_ABORT.
Proof.
  destruct (summary_run _ _ _ pushed_twice_runs) as (w' & Hrun & Hcalls).
  apply (second_poll_aborts 20 SimpleMessagePrinter None sample_config "alice@example.com" "gdm-password"
    model_options (scripted [] None pushed_twice) PAM_ABORT w'
    pushed_twice_trace 0 2 (sample_begin, asked (PamAuthResponse_MFAPoll "Confirm the sign-in" 1))
    (sample_begin, asked (PamAuthResponse_MFAPoll "Confirm the sign-in" 1)) Hrun Hcalls).
  - unfold i32_max. simpl. lia.
  - lia.
  - reflexivity.
  - eexists. split; [reflexivity|by eexists _, _].
  - reflexivity.
  - eexists. split; [reflexivity|by eexists _, _].
Defined.

Lemma polls_numbered_witness : (sample_poll 1, asked PamAuthResponse_Success).1
  = ClientRequest_PamAuthenticateStep (PamAuthRequest_MFAPoll (Z.of_nat 1)).
Proof.
  destruct (summary_run _ _ _ pushed_runs) as (w' & Hrun & Hcalls).
  apply (polls_numbered 20 SimpleMessagePrinter None sample_config "alice@example.com" "gdm-password"
    model_options (scripted [] None pushed) PAM_SUCCESS w' pushed_trace 0
    (sample_begin, asked (PamAuthResponse_MFAPoll "Confirm the sign-in" 1)) 1 1
    (sample_poll 1, asked PamAuthResponse_Success) Hrun Hcalls).
  - unfold i32_max. simpl. lia.
  - reflexivity.
  - eexists. split; [reflexivity|by eexists _, _].
  - intros [|j] Hj; [|lia]. eexists. split; [reflexivity|]. by eexists.
  - lia.
  - reflexivity.
Defined.

Lemma authenticate_total_witness : ∃ code w', sample_login ["hunter2"] [PamAuthResponse_Password] = Some (code, w').
Proof.
  apply (authenticate_total (λ u, length (sc_answers u)) length 20 SimpleMessagePrinter None sample_config
    "alice@example.com" "gdm-password" model_options (scripted ["hunter2"] None [PamAuthResponse_Password]));
    try apply _. simpl. lia.
Defined.

Notation sample_race := (fido_auth_with_qr_bluetooth (V := list ClientResponse) 20 SimpleMessagePrinter
  "challenge" [] 60000 "Insert" "Touch" "Scan" (scripted [] None [])).

Lemma sample_race_runs : ∃ a w', sample_race = Some (Ok a, w').
Proof.
  assert ((λ r, is_ok r.1) <$> sample_race = Some true) as H by reflexivity.
  destruct sample_race as [[[a|e] w']|]; [eauto|done..].
Qed.

Lemma fido_race_outcome_witness :
  ∃ a,
    (∃ w1 w2, fido_sign (V := list ClientResponse) 20 SimpleMessagePrinter "challenge" [] 60000 "Touch" w1
              = Some (Ok a, w2)) ∨
    (∃ w1 w2, qr_bluetooth_fido_auth (V := list ClientResponse) SimpleMessagePrinter "challenge" EmptyString true w1
              = Some (Ok a, w2)).
Proof.
  destruct sample_race_runs as (a & w' & Hrun). exists a.
  exact (fido_race_outcome (V := list ClientResponse) 20 SimpleMessagePrinter "challenge" [] 60000 "Insert" "Touch"
    "Scan" (scripted [] None []) (Ok a) w' Hrun).
Defined.
