(* ===== verification/PamModule.v ===== *)
(** * The PAM module: the hooks of [src/pam/src/pam/mod.rs]

    Account management, authentication, the change of the Hello PIN and the session
    hooks, with the printers that talk through the application's conversation
    function. *)
From stdpp Require Import base gmap strings list.
From Stdlib Require Import ZArith Lia Ascii.
From S2P Require Import Prelude Proto Interface Db Runtime Caches UserMap Config Daemon HelloPin Client Loopback Pam PamAuth.

Open Scope rust_scope.

(** ** What the application and the identity provider supply *)

(** The items of a PAM handle and the outcome of setting [PAM_AUTHTOK]. *)
Record PamHandle := {
  ph_user : result string PamResultCode;
  ph_service : result (option string) PamResultCode;
  ph_tty : result (option string) PamResultCode;
  ph_rhost : result (option string) PamResultCode;
  ph_authtok : result (option string) PamResultCode;
  ph_conv : result unit PamResultCode;
  ph_set_item : bool
}.

Inductive MsalError := MsalError_MFAPollContinue | MsalError_PasswordRequired | MsalError_Other.
Inductive AuthOption := AuthOption_Fido | AuthOption_Passwordless.

(** [MFAAuthContinue]: the id of the default method, and the fields the module reads. *)
Record MfaFlow := {
  mf_method : option string; mf_fido_challenge : option string; mf_fido_allow_list : option (list string);
  mf_msg : string; mf_polling_interval : option Z
}.

(** The device authorization response of the crate [oauth2]. *)
Record DeviceAuth := {
  da_interval : Z; da_expires_in : Z; da_verification_uri : string;
  da_verification_uri_complete : option string; da_user_code : string
}.

(** The crate [himmelblau] (its public client application and its tokens), and the
    requests of [OidcApplication] to the issuer. *)
Class MsalEnv `{X : Ext} (U : Type) : Type := {
  AuthInit : Type;
  passwordless : AuthInit → bool;
  msal_refresh_token : UnixUserToken → string;
  public_client_new : string → Z → list IpVersion → U → bool * U;
  check_user_exists : string → list AuthOption → U → option AuthInit * U;
  initiate_mfa_flow : string → option string → list AuthOption → option AuthInit → option string → U →
                      result MfaFlow MsalError * U;
  acquire_by_mfa_flow : string → option string → option Z → MfaFlow → U →
                        result UnixUserToken MsalError * MfaFlow * U;
  oidc_init : string → U → bool * U;
  oidc_device_flow : U → option DeviceAuth * U;
  oidc_serializes : DeviceAuth → bool;
  oidc_acquire : DeviceAuth → U → result (option UnixUserToken) MsalError * U;
  sleep_millis : Z → U → U
}.

(** ** Prompts captured for the keyring *)

Definition should_capture_keyring_secret (prompt : string) : bool :=
  let prompt := to_lowercase (trim prompt) in
  if contains_str prompt "confirm" then false
  else contains_str prompt "pin" || contains_str prompt "password".

(** The module's tests. *)
Example keyring_vectors :
  should_capture_keyring_secret <$> ["PIN: "; " New PIN: "; "Fido PIN: "; "   pIn   "] = replicate 4 true ∧
  should_capture_keyring_secret <$> ["Confirm PIN: "; "confirm new pin: "; "Code: "] = replicate 3 false.
Proof. split; reflexivity. Qed.

(** [mfa_from_oidc_device] *)
Definition mfa_from_oidc_device (serializes : bool) (details : DeviceAuth) : result MfaFlow unit :=
  let polling_interval := wrap32 (da_interval details) in
  let msg := match da_verification_uri_complete details with
             | Some complete =>
                 "Scan the QR code to continue sign-in, or open this link on another device:" +:+ NL +:+ complete
                   +:+ NL +:+ "If you cannot scan, visit:" +:+ NL +:+ da_verification_uri details
                   +:+ NL +:+ "And enter the code:" +:+ NL +:+ da_user_code details
             | None =>
                 "Using a browser on another device, visit:" +:+ NL +:+ da_verification_uri details
                   +:+ NL +:+ "And enter the code:" +:+ NL +:+ da_user_code details
             end in
  if serializes then
    Ok {| mf_method := None; mf_fido_challenge := None; mf_fido_allow_list := None; mf_msg := msg;
          mf_polling_interval := Some (wrap32 (polling_interval * 1000)) |}
  else Err tt.

Section module.
Context {X : Ext} {I : IniFile} {G : GeneratedConfig} {PC : PamConfig} {T : TextOps} {H : Host} {TK : TokenOps}.
Context {U V : Type} {DL : DaemonLink V} {PE : PamEnv U} {FE : FidoEnv U} {ME : MsalEnv U}.

Definition PamConvMessagePrinter : MessagePrinter U V := {|
  print_text := λ msg, _ ← io (conv_send PAM_TEXT_INFO msg); mret tt;
  print_error := λ msg, _ ← io (conv_send PAM_ERROR_MSG msg); mret tt;
  prompt_echo_off := λ prompt,
    r ← io (conv_send PAM_PROMPT_ECHO_OFF prompt);
    mret (match r with Ok cred => cred | Err _ => None end)
|}.

Definition KeyringCaptureMessagePrinter (inner : MessagePrinter U V) : MessagePrinter U V := {|
  print_text := print_text inner;
  print_error := print_error inner;
  prompt_echo_off := λ prompt,
    result ← prompt_echo_off inner prompt;
    match result with
    | Some cred =>
        _ ← (if should_capture_keyring_secret prompt then capture cred else mret tt);
        mret (Some cred)
    | None => mret None
    end
|}.

(** ** The common part of the hooks *)

Variable fuel : nat.
Variable activation_unit : option string.
Variable files : string → option string.
Variable pamh : PamHandle.

Definition get_cfg : result HimmelblauConfig PamResultCode :=
  result_map_err (λ _, PAM_SERVICE_ERR) (config_new files (Some DEFAULT_CONFIG_PATH)).

(** Every hook: nothing is done for the daemon's own units, and the arguments are read. *)
Definition hook (args : list (option string)) (body : Options → PM U V PamResultCode) : PM U V PamResultCode :=
  if should_skip_daemon_call activation_unit then mret PAM_IGNORE
  else match options_try_from args with
       | Ok opts => body opts
       | Err _ => mret PAM_SERVICE_ERR
       end.

(** The UPN of the account: from the user map, or by the name mapping. *)
Definition resolve_account (cfg : HimmelblauConfig) (account_id : string) : PM U V string :=
  match get_upn_from_local (UserMap_new (files (get_user_map_file (config cfg)))) account_id with
  | Some upn => mret upn
  | None => names_io (map_name_to_upn cfg account_id)
  end.

(** The user of the handle, the configuration and the UPN, as the hooks fetch them. *)
Definition with_account (body : HimmelblauConfig → string → PM U V PamResultCode) : PM U V PamResultCode :=
  match ph_user pamh with
  | Err _ => mret PAM_SERVICE_ERR
  | Ok account_id =>
      match get_cfg with
      | Err e => mret e
      | Ok cfg => account_id ← resolve_account cfg account_id; body cfg account_id
      end
  end.

(** Connect, or do nothing when the daemon is not there. *)
Definition with_daemon (cfg : HimmelblauConfig) (body : PM U V PamResultCode) : PM U V PamResultCode :=
  connected ← daemon_io (connect (get_socket_path (config cfg)));
  if connected : bool then body else mret PAM_IGNORE.

(** ** The hooks *)

Definition acct_mgmt (args : list (option string)) : PM U V PamResultCode :=
  hook args (λ opts, with_account (λ cfg account_id, with_daemon cfg (
    r ← call_and_record (ClientRequest_PamAccountAllowed account_id) (get_unix_sock_timeout cfg);
    mret (match r with
          | Ok (ClientResponse_PamStatus (Some true)) => PAM_SUCCESS
          | Ok (ClientResponse_PamStatus (Some false)) => PAM_AUTH_ERR
          | Ok (ClientResponse_PamStatus None) =>
              if ignore_unknown_user opts then PAM_IGNORE else PAM_USER_UNKNOWN
          | _ => PAM_IGNORE
          end)))).

(** The service of the login: [PAM_SERVICE] or the terminal, marked when the login
    comes from another host. *)
Definition is_remote : bool :=
  match ph_rhost pamh with
  | Ok (Some rhost) => negb (String.eqb rhost EmptyString) && negb (is_loopback_address rhost)
  | _ => false
  end.

Definition local_service : string :=
  match ph_service pamh with
  | Ok (Some svc) => svc
  | _ => match ph_tty pamh with Ok (Some tty) => tty | _ => "unknown" end
  end.

Definition login_service : string :=
  if is_remote then "remote:" +:+ local_service else local_service.

(** The token of a previous module, or the result without one. *)
Definition first_pass (opts : Options) : result (option string) PamResultCode :=
  match ph_authtok pamh with
  | Ok (Some v) => Ok (Some v)
  | Ok None =>
      if try_unseal opts then Err PAM_IGNORE
      else if use_first_pass opts then Err PAM_AUTH_ERR else Ok None
  | Err e => if try_unseal opts then Err PAM_IGNORE else Err e
  end.

(** [try_unseal]: one message to the daemon, no answer waited for. *)
Definition send_unseal (cfg : HimmelblauConfig) (account_id : string) (authtok : option string)
  : PM U V PamResultCode :=
  match authtok with
  | None => mret PAM_IGNORE
  | Some authtok =>
      with_daemon cfg (
        _ ← daemon_io (daemon_forget (ClientRequest_PamTryUnseal account_id authtok));
        mret PAM_IGNORE)
  end.

Definition authenticate_through (cfg : HimmelblauConfig) (account_id : string) (authtok : option string)
  (opts : Options) : PM U V PamResultCode :=
  match ph_conv pamh with
  | Err err => mret err
  | Ok _ =>
      _ ← set_secret authtok;
      let printer := if set_authtok opts then KeyringCaptureMessagePrinter PamConvMessagePrinter
                     else PamConvMessagePrinter in
      result ← authenticate fuel printer authtok cfg account_id login_service opts;
      _ ← (if set_authtok opts && bool_decide (result = PAM_SUCCESS) then
             secret ← get_secret;
             match secret with
             | Some secret => if ph_set_item pamh then set_item_authtok secret else mret tt
             | None => mret tt
             end
           else mret tt);
      mret result
  end.

Definition sm_authenticate (args : list (option string)) : PM U V PamResultCode :=
  hook args (λ opts, with_account (λ cfg account_id,
    match first_pass opts with
    | Err code => mret code
    | Ok authtok =>
        if try_unseal opts then send_unseal cfg account_id authtok
        else authenticate_through cfg account_id authtok opts
    end)).

Definition sm_open_session (args : list (option string)) : PM U V PamResultCode :=
  hook args (λ _, with_account (λ cfg account_id, with_daemon cfg (
    r ← call_and_record (ClientRequest_PamAccountBeginSession account_id) (get_unix_sock_timeout cfg);
    mret (match r with Ok ClientResponse_Ok => PAM_SUCCESS | _ => PAM_IGNORE end)))).

Definition sm_close_session (args : list (option string)) : PM U V PamResultCode :=
  hook args (λ _, mret PAM_SUCCESS).

Definition sm_setcred (args : list (option string)) : PM U V PamResultCode :=
  hook args (λ _, mret PAM_SUCCESS).

(** ** Changing the PIN *)

(** Computations with early returns of a result code. *)
Definition try_bind {A B} (m : PM U V (result A PamResultCode)) (k : A → PM U V (result B PamResultCode))
  : PM U V (result B PamResultCode) :=
  r ← m; match r with Ok a => k a | Err e => mret (Err e) end.

Notation "'let!' x := m 'in' k" := (try_bind m (λ x, k)) (at level 200, x pattern, right associativity).

Definition return_err {A} (e : PamResultCode) : PM U V (result A PamResultCode) := mret (Err e).

Definition io_or {A} (e : PamResultCode) (f : U → option A * U) : PM U V (result A PamResultCode) :=
  r ← io f; mret (ok_or r e).

Definition io_check (e : PamResultCode) (f : U → bool * U) : PM U V (result unit PamResultCode) :=
  r ← io f; mret (if r : bool then Ok tt else Err e).

(** [conv.send] of a message, and of a prompt that needs an answer. *)
Definition tell (msg : string) : PM U V (result unit PamResultCode) :=
  r ← io (conv_send PAM_TEXT_INFO msg); mret (result_map (λ _, tt) r).

Definition demand (prompt : string) : PM U V (result string PamResultCode) :=
  r ← io (conv_send PAM_PROMPT_ECHO_OFF prompt);
  mret (match r with
        | Ok (Some cred) => Ok cred
        | Ok None => Err PAM_CRED_INSUFFICIENT
        | Err err => Err err
        end).

Fixpoint new_pin_loop (n : nat) (min_length : Z) : PM U V (result string PamResultCode) :=
  match n with
  | O => out_of_fuel
  | S n =>
      let! pin := demand "New PIN: " in
      if byte_len pin <? min_length then
        let! _ := tell (pin_too_short min_length) in new_pin_loop n min_length
      else if is_simple_pin (chars pin) then
        let! _ := tell PIN_SIMPLE in
        _ ← io_ (sleep_secs 2);
        new_pin_loop n min_length
      else
        let! confirm := demand "Confirm PIN: " in
        if String.eqb pin confirm then mret (Ok pin)
        else let! _ := tell "Inputs did not match. Try again." in new_pin_loop n min_length
  end.

(** [auth_handle_mfa_resp!] *)
Definition auth_handle_mfa_resp {A} (flow : MfaFlow) (on_fido on_prompt on_poll : A) : A :=
  match mf_method flow with
  | Some id =>
      if String.eqb id "FidoKey" then on_fido
      else if bool_decide (id ∈ ["AccessPass"; "PhoneAppOTP"; "OneWaySMS"; "ConsolidatedTelephony"])
           then on_prompt else on_poll
  | None => on_poll
  end.

Definition acquire_token (account_id : string) (input : option string) (flow : MfaFlow)
  : PM U V (result UnixUserToken PamResultCode) :=
  x ← io (acquire_by_mfa_flow account_id input None flow);
  mret (result_map_err (λ _, PAM_AUTH_ERR) x.1).

Definition acquire_by_fido (cfg : HimmelblauConfig) (account_id : string) (flow : MfaFlow)
  : PM U V (result UnixUserToken PamResultCode) :=
  match mf_fido_challenge flow, mf_fido_allow_list flow with
  | Some challenge, Some allow_list =>
      r ← fido_auth fuel PamConvMessagePrinter challenge allow_list
            (Z.min u64_max (get_fido_timeout (config cfg) * 1000)) (get_fido_prompt (config cfg))
            (get_fido_presence_prompt (config cfg));
      match r with
      | Ok assertion => acquire_token account_id (Some assertion) flow
      | Err e =>
          _ ← print_text PamConvMessagePrinter
                (debug_code e +:+ ": Entra Id Fido authentication failed." +:+ NL +:+ PAM_FAIL_HINT);
          _ ← io_ (sleep_secs 2);
          return_err PAM_ABORT
      end
  | _, _ => return_err PAM_CRED_INSUFFICIENT
  end.

(** The poll loop; the attempts are numbered from 1. *)
Fixpoint poll_mfa (n : nat) (account_id : string) (attempt interval : Z) (flow : MfaFlow)
  : PM U V (result UnixUserToken PamResultCode) :=
  match n with
  | O => out_of_fuel
  | S n =>
      x ← io (acquire_by_mfa_flow account_id None (Some attempt) flow);
      match x.1 with
      | Ok token => mret (Ok token)
      | Err MsalError_MFAPollContinue =>
          _ ← io_ (sleep_millis interval);
          poll_mfa n account_id (wrap32 (attempt + 1)) interval x.2
      | Err _ => return_err PAM_AUTH_ERR
      end
  end.

Definition entra_password : PM U V (result string PamResultCode) := demand "Entra Id Password: ".

(** The token of the Entra ID user. *)
Definition entra_token (cfg : HimmelblauConfig) (account_id : string)
  : PM U V (result UnixUserToken PamResultCode) :=
  let auth_options := AuthOption_Fido ::
    (if get_enable_passwordless (config cfg) then [AuthOption_Passwordless] else []) in
  let method := get_mfa_method (config cfg) in
  let! auth_init := io_or PAM_AUTH_ERR (check_user_exists account_id auth_options) in
  let! password := (if passwordless auth_init then mret (Ok None)
                    else r ← entra_password; mret (result_map Some r)) in
  r ← io (initiate_mfa_flow account_id password auth_options (Some auth_init) method);
  let! flow := (match r with
                | Ok flow => mret (Ok flow)
                | Err MsalError_PasswordRequired =>
                    let! retry_password := entra_password in
                    r ← io (initiate_mfa_flow account_id (Some retry_password) auth_options None method);
                    mret (result_map_err (λ _, PAM_AUTH_ERR) r)
                | Err _ => return_err PAM_AUTH_ERR
                end) in
  auth_handle_mfa_resp flow
    (acquire_by_fido cfg account_id flow)
    (let! input := demand (mf_msg flow) in acquire_token account_id (Some input) flow)
    (let! _ := tell (mf_msg flow) in
     poll_mfa fuel account_id 1 (default 5000 (mf_polling_interval flow)) flow).

Fixpoint poll_device (n : nat) (details : DeviceAuth) (interval : Z)
  : PM U V (result UnixUserToken PamResultCode) :=
  match n with
  | O => out_of_fuel
  | S n =>
      r ← io (oidc_acquire details);
      match r with
      | Ok token => mret (ok_or token PAM_AUTH_ERR)
      | Err MsalError_MFAPollContinue =>
          _ ← io_ (sleep_millis interval);
          poll_device n details interval
      | Err _ => return_err PAM_AUTH_ERR
      end
  end.

(** The token of the user of an OIDC issuer. *)
Definition oidc_token (domain : string) : PM U V (result UnixUserToken PamResultCode) :=
  let! _ := io_check PAM_AUTH_ERR (oidc_init domain) in
  let! details := io_or PAM_AUTH_ERR oidc_device_flow in
  match mfa_from_oidc_device (oidc_serializes details) details with
  | Err _ => return_err PAM_AUTH_ERR
  | Ok flow =>
      let! _ := tell (mf_msg flow) in
      poll_device fuel details (default 5000 (mf_polling_interval flow))
  end.

(** The part of [sm_chauthtok] behind the checks: the new PIN, the token that proves
    who asks, and the request to the daemon. *)
Definition change_pin (cfg : HimmelblauConfig) (account_id domain : string)
  : PM U V (result PamResultCode PamResultCode) :=
  let! _ := mret (ph_conv pamh) in
  let! _ := tell "This command changes your local Hello PIN, NOT your Entra Id password." in
  let! pin := new_pin_loop fuel (get_hello_pin_min_length (config cfg)) in
  let! _ := io_check PAM_AUTH_ERR runtime_new in
  let authority := "https://" +:+ get_authority_host cfg domain +:+ "/" +:+
                   default "common" (get_tenant_id cfg domain) in
  let! _ := io_check PAM_AUTH_ERR
              (public_client_new authority (get_request_timeout (config cfg)) (get_ip_versions cfg)) in
  let! token := (match get_oidc_issuer_url cfg url_ok with
                 | None => entra_token cfg account_id
                 | Some _ => oidc_token domain
                 end) in
  match access_token token with
  | None => return_err PAM_AUTH_ERR
  | Some access_token =>
      r ← call_and_record (ClientRequest_PamChangeAuthToken account_id access_token (msal_refresh_token token) pin)
            (get_unix_sock_timeout cfg);
      mret (Ok (match r with Ok ClientResponse_Ok => PAM_SUCCESS | _ => PAM_AUTH_ERR end))
  end.

Definition PAM_PRELIM_CHECK : Z := 0x4000.
Definition PAM_UPDATE_AUTHTOK : Z := 0x2000.

Definition sm_chauthtok (args : list (option string)) (flags : Z) : PM U V PamResultCode :=
  hook args (λ _, with_account (λ cfg account_id,
    match split_username account_id with
    | None => mret PAM_IGNORE
    | Some (_, domain) =>
        if negb (Z.land flags PAM_PRELIM_CHECK =? 0) then mret PAM_SUCCESS
        else if Z.land flags PAM_UPDATE_AUTHTOK =? 0 then mret PAM_SERVICE_ERR
        else with_daemon cfg (
               r ← change_pin cfg account_id domain;
               mret (match r with Ok code => code | Err code => code end))
    end)).

End module.
