(* ===== verification/PamModuleTheorems.v ===== *)
(** * Properties of the PAM module

    What each hook sends and when it succeeds, the mark on remote logins, the token
    left for the keyring, and the PIN a change of the authentication token accepts. *)
From stdpp Require Import base gmap strings list.
From Stdlib Require Import ZArith Lia Ascii.
From S2P Require Import Prelude Proto Interface Db Runtime Caches UserMap Config Daemon HelloPin Client Loopback Pam PamAuth PamFacts PamModule Models ConfigTheorems PamModels PamTheorems.

Open Scope rust_scope.

Section theorems.
Context {X : Ext} {I : IniFile} {G : GeneratedConfig} {PC : PamConfig} {T : TextOps} {H : Host} {TK : TokenOps}.
Context {U V : Type} {DL : DaemonLink V} {PE : PamEnv U} {FE : FidoEnv U} {ME : MsalEnv U}.
Context (fuel : nat) (unit_var : option string) (files : string → option string) (pamh : PamHandle).

(** ** Lemmas *)

#[export] Instance PamConvMessagePrinter_quiet : QuietPrinter (PamConvMessagePrinter (U := U) (V := V)).
Proof. split; intros s; simpl; quiet_solve. Qed.

#[export] Instance KeyringCaptureMessagePrinter_quiet (inner : MessagePrinter U V) :
  QuietPrinter inner → QuietPrinter (KeyringCaptureMessagePrinter inner).
Proof. intros Hq. split; intros s; simpl; quiet_solve. Qed.

Lemma quiet_secret (s : option string) : quiet (set_secret (U := U) (V := V) s).
Proof. by intros w a w' [= <- <-]. Qed.

Lemma quiet_names {A} (f : MappingFile → A * MappingFile) : quiet (names_io (U := U) (V := V) f).
Proof. intros w a w'. unfold names_io. destruct (f (pw_names w)). by intros [= <- <-]. Qed.

Lemma quiet_resolve c a : quiet (resolve_account (U := U) (V := V) files c a).
Proof. unfold resolve_account. case_match; [apply quiet_ret|apply quiet_names]. Qed.

(** Nothing is sent when a hook stops before its body. *)
Definition unsent (w w' : PamWorld U V) : Prop := pw_calls w' = pw_calls w ∧ pw_authtok w' = pw_authtok w.

Lemma quiet_unsent {A} (m : PM U V A) w a w' : quiet m → m w = Some (a, w') → unsent w w'.
Proof. intros Hm Hr. by destruct (Hm _ _ _ Hr) as (_ & ? & ?). Qed.

Lemma hook_inv args body w code w' :
  hook (U := U) (V := V) unit_var args body w = Some (code, w') →
  (w' = w ∧ (code = PAM_IGNORE ∨ code = PAM_SERVICE_ERR)) ∨
  ∃ o, options_try_from args = Ok o ∧ body o w = Some (code, w').
Proof.
  unfold hook. intros Hr. destruct (should_skip_daemon_call unit_var); [pm_inv Hr; auto|].
  destruct (options_try_from args) as [o|] eqn:Ho; [eauto|pm_inv Hr; auto].
Qed.

Lemma with_account_inv body w code w' :
  with_account (U := U) (V := V) files pamh body w = Some (code, w') →
  (w' = w ∧ code = PAM_SERVICE_ERR) ∨
  ∃ c account w1, unsent w w1 ∧ body c account w1 = Some (code, w').
Proof.
  unfold with_account. intros Hr. destruct (ph_user pamh) as [a|e]; [|pm_inv Hr; auto].
  destruct (get_cfg files) as [c|e] eqn:Hc.
  - pm_inv Hr. right. exists c, a0, w0. split; [|done]. eapply quiet_unsent; [apply quiet_resolve|done].
  - pm_inv Hr. left. split; [done|]. unfold get_cfg, result_map_err in Hc. case_match; [done|]. congruence.
Qed.

Lemma with_daemon_inv c body w code w' :
  with_daemon (U := U) (V := V) c body w = Some (code, w') →
  (unsent w w' ∧ code = PAM_IGNORE) ∨ ∃ w1, unsent w w1 ∧ body w1 = Some (code, w').
Proof.
  unfold with_daemon, daemon_io. intros Hr. pm_inv Hr. destruct (connect _ _) as [ok v]. simplify_eq.
  destruct a; [right; by eexists (set_daemon v w)|pm_inv Hr; by left].
Qed.

Lemma call_inv req t w r w' :
  call_and_record (U := U) (V := V) req t w = Some (r, w') →
  pw_calls w' = pw_calls w ++ [(req, r)] ∧ pw_authtok w' = pw_authtok w.
Proof. intros (? & ? & ?)%call_and_record_Some. done. Qed.

Lemma app_one_neq {A} (l : list A) x : l = l ++ [x] → False.
Proof. intros Hl. apply (f_equal length) in Hl. rewrite length_app in Hl. simpl in Hl. lia. Qed.

(** ** Account management *)

(** Account management succeeds exactly when it asked the daemon, once, whether the
    account is allowed, and the daemon answered that it is. A daemon that is not there,
    fails or answers something else never grants access. *)
Theorem acct_mgmt_success_iff args w code w' :
  acct_mgmt (U := U) (V := V) unit_var files pamh args w = Some (code, w') →
  code = PAM_SUCCESS ↔
  ∃ account, pw_calls w' = pw_calls w ++
    [(ClientRequest_PamAccountAllowed account, Ok (ClientResponse_PamStatus (Some true)))].
Proof.
  intros [[-> [-> | ->]]|(o & _ & Hr)]%hook_inv; [split; [done|]; intros (a & Hl); by apply app_one_neq in Hl..|].
  apply with_account_inv in Hr as [[-> ->]|(c & a & w1 & [Hu _] & Hr)];
    [split; [done|]; intros (b & Hl); by apply app_one_neq in Hl|].
  apply with_daemon_inv in Hr as [[[Hu' _] ->]|(w2 & [Hu' _] & Hr)].
  { split; [done|]. intros (b & Hl). rewrite Hu', Hu in Hl. by apply app_one_neq in Hl. }
  apply PM_bind_Some in Hr as (r & w3 & Hc & Hr). apply PM_ret_Some in Hr as [-> ->].
  apply call_inv in Hc as [-> _]. rewrite Hu', Hu. split.
  - intros Hs. exists a. destruct r as [[]|]; try done. by destruct b as [[]|], (ignore_unknown_user o).
  - intros (b & Hl). apply app_inv_head in Hl. by injection Hl as _ ->.
Qed.

(** ** Authentication *)

Definition printer_of (o : Options) : MessagePrinter U V :=
  if set_authtok o then KeyringCaptureMessagePrinter PamConvMessagePrinter else PamConvMessagePrinter.

#[local] Instance printer_of_quiet o : QuietPrinter (printer_of o).
Proof. unfold printer_of. destruct (set_authtok o); apply _. Qed.

(** A failure the handle reports is not a success: the bindings return an error only
    for another code. *)
Definition handle_ok : Prop :=
  (∀ e, ph_authtok pamh = Err e → e ≠ PAM_SUCCESS) ∧ (∀ e, ph_conv pamh = Err e → e ≠ PAM_SUCCESS).

Lemma quiet_authenticate_authtok mp `{!QuietPrinter mp} tok c account svc o w code w' :
  authenticate fuel mp tok c account svc o w = Some (code, w') → pw_authtok w' = pw_authtok w.
Proof.
  unfold authenticate. intros Hr. pm_inv Hr. unfold daemon_io in Ha. destruct (connect _ _) as [ok v]. simplify_eq.
  destruct a; simpl in Hr; [|pm_inv Hr; done]. change (pw_authtok w) with (pw_authtok (set_daemon v w)).
  revert Hr. generalize (set_daemon v w), (initial_state tok c account svc o),
    (begin_request (initial_state tok c account svc o)).
  generalize fuel at 2. intros n. induction n as [|n IH]; intros w1 s req Hr; [done|]. simpl in Hr. pm_inv Hr.
  assert (pw_authtok w0 = pw_authtok w1) as Hw.
  { unfold authenticate_request_response in Ha. pm_inv Ha. apply call_inv in Ha0 as [_ <-].
    assert (quiet (match a0 with
      | Ok (ClientResponse_PamAuthenticateStepResponse r) => handle_response fuel mp s r
      | _ => keeping s (pam_fail mp UNEXPECTED PAM_IGNORE) end)) as Hq.
    { unfold keeping. pose proof (quiet_handle_response fuel mp s). pose proof (quiet_pam_fail mp).
      repeat case_match; try done; quiet_solve. }
    by destruct (Hq _ _ _ Ha) as (_ & _ & ?). }
  destruct a as [[next|c'] s1]; [by rewrite (IH _ _ _ Hr)|pm_inv Hr; done].
Qed.

Lemma authenticate_through_inv o c account tok w code w' :
  authenticate_through fuel pamh c account tok o w = Some (code, w') →
  (∃ e, ph_conv pamh = Err e ∧ code = e ∧ w' = w) ∨
  ∃ w1 w2, unsent w w1 ∧
    authenticate fuel (printer_of o) tok c account (login_service pamh) o w1 = Some (code, w2) ∧
    pw_calls w' = pw_calls w2 ∧
    (pw_authtok w' = pw_authtok w ∨
     code = PAM_SUCCESS ∧ set_authtok o = true ∧ is_Some (pw_secret w2) ∧ pw_authtok w' = pw_secret w2).
Proof.
  unfold authenticate_through. intros Hr. destruct (ph_conv pamh) as [|e]; [|pm_inv Hr; eauto]. right.
  apply PM_bind_Some in Hr as ([] & w1 & Hs & Hr). apply PM_bind_Some in Hr as (r & w2 & Ha & Hr).
  apply PM_bind_Some in Hr as ([] & w3 & Hk & Hr). apply PM_ret_Some in Hr as [-> ->].
  exists w1, w2. apply (quiet_unsent _ _ _ _ (quiet_secret tok)) in Hs.
  change (authenticate fuel (printer_of o) tok c account (login_service pamh) o w1 = Some (r, w2)) in Ha.
  split; [done|]. split; [done|]. apply quiet_authenticate_authtok in Ha; [|apply _].
  destruct (set_authtok o), (bool_decide_reflect (r = PAM_SUCCESS)); simpl in Hk;
    try (apply PM_ret_Some in Hk as [_ ->]; split; [done|left; destruct Hs; congruence]).
  apply PM_bind_Some in Hk as (sec & w4 & [= <- <-] & Hk). destruct (pw_secret w2) as [sec|] eqn:Hsec.
  - destruct (ph_set_item pamh); [injection Hk as <-; simpl; split; [done|right; by eauto]|].
    apply PM_ret_Some in Hk as [_ ->]. split; [done|left; destruct Hs; congruence].
  - apply PM_ret_Some in Hk as [_ ->]. split; [done|left; destruct Hs; congruence].
Qed.

(** [sm_authenticate] stops without waiting for the daemon, or runs a login and may
    leave the secret for the keyring. *)
Lemma sm_authenticate_inv args w code w' :
  handle_ok → sm_authenticate fuel unit_var files pamh args w = Some (code, w') →
  (unsent w w' ∧ code ≠ PAM_SUCCESS) ∨
  ∃ o c account tok w1 w2, options_try_from args = Ok o ∧ try_unseal o = false ∧ unsent w w1 ∧
    authenticate fuel (printer_of o) tok c account (login_service pamh) o w1 = Some (code, w2) ∧
    pw_calls w' = pw_calls w2 ∧
    (pw_authtok w' = pw_authtok w ∨
     code = PAM_SUCCESS ∧ set_authtok o = true ∧ is_Some (pw_secret w2) ∧ pw_authtok w' = pw_secret w2).
Proof.
  intros [Hh1 Hh2] [[-> [-> | ->]]|(o & Ho & Hr)]%hook_inv; [by left..|].
  apply with_account_inv in Hr as [[-> ->]|(c & a & w1 & Hu & Hr)]; [by left|].
  destruct (first_pass pamh o) as [tok|e] eqn:Hf.
  - destruct (try_unseal o) eqn:Ht.
    + left. unfold send_unseal in Hr. destruct tok; [|apply PM_ret_Some in Hr as [-> ->]; done].
      apply with_daemon_inv in Hr as [[[Hu1 Hu2] ->]|(w2 & [Hu1 Hu2] & Hr)].
      { destruct Hu. by split; [split; congruence|]. }
      unfold daemon_io in Hr. apply PM_bind_Some in Hr as (r & w3 & Hd & Hr). apply PM_ret_Some in Hr as [-> ->].
      destruct (daemon_forget _ _). injection Hd as _ <-. destruct Hu. by split; [split; simpl; congruence|].
    + apply authenticate_through_inv in Hr as [(e & He & -> & ->)|(w2 & w3 & Hu' & Ha & Hc & Hk)].
      { left. split; [done|by apply Hh2]. }
      right. exists o, c, a, tok, w2, w3. destruct Hu as [Hu1 Hu2], Hu' as [Hu3 Hu4].
      split_and!; [done|done|split; congruence|done|done|]. destruct Hk as [Hk|Hk]; [left; congruence|by right].
  - left. apply PM_ret_Some in Hr as [-> ->]. split; [done|].
    unfold first_pass in Hf. destruct (ph_authtok pamh) as [[v|]|e'] eqn:Ea; repeat case_match; simplify_eq; try done.
    by apply Hh1.
Qed.

(** A remote login is marked: when the application reports a remote host in dotted
    form, every session the module begins names the service of the login, with the
    prefix [remote:] exactly when the host is not in 127.0.0.0/8. The daemon's rules for
    remote services therefore see every remote login, a restart after a denial
    included. *)
Theorem remote_login_marked args w code w' a b c d x account svc nhp fr :
  handle_ok → sm_authenticate fuel unit_var files pamh args w = Some (code, w') →
  ph_rhost pamh = Ok (Some (dotted a b c d)) →
  0 ≤ a ≤ 255 → 0 ≤ b ≤ 255 → 0 ≤ c ≤ 255 → 0 ≤ d ≤ 255 →
  (∃ tr, pw_calls w' = pw_calls w ++ tr ∧ x ∈ tr) →
  x.1 = ClientRequest_PamAuthenticateInit account svc nhp fr →
  svc = (if a =? 127 then local_service pamh else "remote:" +:+ local_service pamh).
Proof.
  intros Hh [[[Hu _] _]|(o & cf & acc & tok & w1 & w2 & Ho & _ & [Hu _] & Hau & Hc & _)]%sm_authenticate_inv
    Hr Ra Rb Rc Rd (tr & Htr & Hx) Hq; [| |done].
  { rewrite Hu in Htr. rewrite <- (app_nil_r (pw_calls w)) in Htr at 1. apply app_inv_head in Htr as <-.
    by apply elem_of_nil in Hx. }
  rewrite <- Hu in Htr. rewrite Hc in Htr. eapply authenticate_trace in Hau; [|apply _|exact Htr|intros ->; by apply elem_of_nil in Hx].
  apply conversation_requests in Hau. rewrite Forall_forall in Hau. destruct (Hau _ Hx) as [Hb|[Hb|[q Hb]]];
    rewrite Hq in Hb; [| |done]; injection Hb as _ -> _ _; unfold login_service, is_remote; rewrite Hr;
    rewrite loopback_dotted_eq by done; destruct (String.eqb_spec (dotted a b c d) EmptyString) as [He|_];
    try (by destruct (dotted_nonempty a b c d)); by destruct (a =? 127).
Qed.

(** [PAM_AUTHTOK] is changed only by a successful login with the option for it, and
    then to the secret captured last. *)
Theorem authtok_only_on_success args w code w' :
  handle_ok → sm_authenticate fuel unit_var files pamh args w = Some (code, w') →
  pw_authtok w' = pw_authtok w ∨
  code = PAM_SUCCESS ∧ is_Some (pw_authtok w') ∧ ∃ o, options_try_from args = Ok o ∧ set_authtok o = true.
Proof.
  intros Hh [[[_ Hu] _]|(o & cf & acc & tok & w1 & w2 & Ho & _ & _ & _ & _ & [Hk|(Hk & Hs & Hi & ->)])]%sm_authenticate_inv;
    [by left|by left| |done]. right. eauto 10.
Qed.

(** The option [try_unseal] never authenticates: the result is [PAM_IGNORE] (or
    [PAM_SERVICE_ERR] for a broken setup) and no answer of the daemon is waited for. *)
Theorem try_unseal_never_authenticates args o w code w' :
  options_try_from args = Ok o → try_unseal o = true →
  sm_authenticate fuel unit_var files pamh args w = Some (code, w') →
  (code = PAM_IGNORE ∨ code = PAM_SERVICE_ERR) ∧ pw_calls w' = pw_calls w ∧ pw_authtok w' = pw_authtok w.
Proof.
  intros Ho Ht [[-> Hc]|(o' & Ho' & Hr)]%hook_inv; [done|]. rewrite Ho in Ho'. injection Ho' as <-.
  apply with_account_inv in Hr as [[-> ->]|(c & a & w1 & [Hu1 Hu2] & Hr)]; [by auto|].
  destruct (first_pass pamh o) as [tok|e] eqn:Hf.
  - rewrite Ht in Hr. unfold send_unseal in Hr.
    destruct tok; [|apply PM_ret_Some in Hr as [-> ->]; by auto].
    apply with_daemon_inv in Hr as [[[Hu3 Hu4] ->]|(w2 & [Hu3 Hu4] & Hr)]; [split; [by left|split; congruence]|].
    unfold daemon_io in Hr. apply PM_bind_Some in Hr as (r & w3 & Hd & Hr). apply PM_ret_Some in Hr as [-> ->].
    destruct (daemon_forget _ _). injection Hd as _ <-. split; [by left|split; simpl; congruence].
  - apply PM_ret_Some in Hr as [-> ->]. unfold first_pass in Hf. rewrite Ht in Hf.
    repeat case_match; simplify_eq; auto.
Qed.

(** ** Changing the PIN *)

(** The conversation function fails only with a code that is not a success. *)
Definition conv_ok : Prop := ∀ st msg u u', conv_send (U := U) st msg u ≠ (Err PAM_SUCCESS, u').

(** A computation with early returns that sends nothing and never returns a success early. *)
Definition prepares {A} (m : PM U V (result A PamResultCode)) : Prop :=
  quiet m ∧ ∀ w w', m w ≠ Some (Err PAM_SUCCESS, w').

Lemma prepares_bind {A B} (m : PM U V (result A PamResultCode)) (k : A → PM U V (result B PamResultCode)) :
  prepares m → (∀ a, prepares (k a)) → prepares (try_bind m k).
Proof.
  intros [Hq Hm] Hk. unfold try_bind. split.
  - apply quiet_bind; [done|]. intros [a|e]; [apply Hk|apply quiet_ret].
  - intros w w' (r & w1 & H1 & H2)%PM_bind_Some. destruct r as [a|e]; [by apply Hk in H2|].
    apply PM_ret_Some in H2 as [[= <-] ->]. by apply Hm in H1.
Qed.

Lemma prepares_after {A B} (m : PM U V A) (k : A → PM U V (result B PamResultCode)) :
  quiet m → (∀ a, prepares (k a)) → prepares (m ≫= k).
Proof.
  intros Hq Hk. split; [apply quiet_bind; [done|intros a; apply Hk]|].
  intros w w' (r & w1 & H1 & H2)%PM_bind_Some. by apply Hk in H2.
Qed.

Lemma prepares_ok {A} (a : A) : prepares (mret (Ok a) : PM U V _).
Proof. split; [apply quiet_ret|]. by intros w w' [= ]. Qed.

Lemma prepares_ret {A} (r : result A PamResultCode) : r ≠ Err PAM_SUCCESS → prepares (mret r : PM U V _).
Proof. intros Hr. split; [apply quiet_ret|]. intros w w' [= -> _]. done. Qed.

Lemma prepares_err {A} e : e ≠ PAM_SUCCESS → prepares (return_err (A := A) e : PM U V _).
Proof. intros He. apply prepares_ret. by intros [= ->]. Qed.

Lemma prepares_fuel {A} : prepares (out_of_fuel : PM U V (result A PamResultCode)).
Proof. split; [apply quiet_fuel|done]. Qed.

Lemma prepares_io_check e (f : U → bool * U) : e ≠ PAM_SUCCESS → prepares (io_check (V := V) e f).
Proof.
  intros He. apply prepares_after; [apply quiet_io|]. intros []; [apply prepares_ok|by apply prepares_err].
Qed.

Lemma prepares_io_or {A} e (f : U → option A * U) : e ≠ PAM_SUCCESS → prepares (io_or (V := V) e f).
Proof.
  intros He. apply prepares_after; [apply quiet_io|]. intros []; [apply prepares_ok|by apply prepares_err].
Qed.

Lemma prepares_conv {A} st msg (k : result (option string) PamResultCode → result A PamResultCode) :
  conv_ok → (∀ r, r ≠ Err PAM_SUCCESS → k r ≠ Err PAM_SUCCESS) →
  prepares (r ← io (conv_send st msg); mret (k r) : PM U V _).
Proof.
  intros Hc Hk. split; [apply quiet_bind; [apply quiet_io|intros; apply quiet_ret]|].
  intros w w' (r & w1 & H1 & H2)%PM_bind_Some. apply PM_ret_Some in H2 as [H2 _].
  unfold io in H1. destruct (conv_send st msg (pw_env w)) as [r' u] eqn:E. injection H1 as -> _.
  apply (Hk r); [|done]. intros ->. by apply Hc in E.
Qed.

Lemma prepares_tell msg : conv_ok → prepares (tell (U := U) (V := V) msg).
Proof. intros Hc. apply prepares_conv; [done|]. intros [x|e] He; [done|]. by intros [= ->]. Qed.

Lemma prepares_demand msg : conv_ok → prepares (demand (U := U) (V := V) msg).
Proof. intros Hc. apply prepares_conv; [done|]. intros [[x|]|e] He; [done|done|]. by intros [= ->]. Qed.

Lemma prepares_map {A B} (f : A → B) (m : PM U V (result A PamResultCode)) :
  prepares m → prepares (r ← m; mret (result_map f r)).
Proof.
  intros [Hq Hm]. split; [apply quiet_bind; [done|intros; apply quiet_ret]|].
  intros w w' (r & w1 & H1 & H2)%PM_bind_Some. apply PM_ret_Some in H2 as [H2 _].
  destruct r as [a|e]; [done|]. injection H2 as <-. by apply Hm in H1.
Qed.

#[local] Hint Resolve prepares_ok prepares_fuel prepares_tell prepares_demand : pam.

Ltac prepares_solve :=
  repeat match goal with
  | |- prepares (try_bind _ _) => apply prepares_bind; [|intros ?]
  | |- prepares (_ ≫= λ r, mret (result_map _ r)) => apply prepares_map
  | |- prepares (_ ≫= _) => apply prepares_after; [by eauto using quiet_bind, quiet_ret with pam|intros ?]
  | |- prepares (match ?x with _ => _ end) => destruct x
  | |- prepares (return_err _) => by apply prepares_err
  | |- prepares (io_check _ _) => by apply prepares_io_check
  | |- prepares (io_or _ _) => by apply prepares_io_or
  | |- prepares (mret (ok_or ?o _)) => destruct o; simpl; [|by apply prepares_ret]
  | |- prepares (mret (result_map_err _ ?r)) => destruct r; simpl; [|by apply prepares_ret]
  | |- prepares _ => by eauto with pam
  end.

Lemma prepares_pin n m : conv_ok → prepares (new_pin_loop (U := U) (V := V) n m).
Proof. intros Hc. induction n as [|n IH]; simpl; [eauto with pam|]. prepares_solve. Qed.

Lemma prepares_poll_mfa n a k i f : prepares (poll_mfa (U := U) (V := V) n a k i f).
Proof. revert k f. induction n as [|n IH]; intros k f; simpl; [eauto with pam|]. prepares_solve. Qed.

Lemma prepares_poll_device n d i : prepares (poll_device (U := U) (V := V) n d i).
Proof. induction n as [|n IH]; simpl; [eauto with pam|]. prepares_solve. Qed.

Lemma prepares_acquire a i f : prepares (acquire_token (U := U) (V := V) a i f).
Proof. unfold acquire_token. prepares_solve. Qed.

#[local] Hint Resolve prepares_pin prepares_poll_mfa prepares_poll_device prepares_acquire : pam.

Lemma prepares_fido c a f : prepares (acquire_by_fido (U := U) (V := V) fuel c a f).
Proof.
  unfold acquire_by_fido. prepares_solve; try (by apply prepares_err).
  apply prepares_after; [|intros r; prepares_solve].
  - unfold fido_auth, fido_auth_inner. apply quiet_bind; [apply quiet_insert_prompt; apply _|].
    intros ?. apply quiet_fido_sign. apply _.
  - apply prepares_after; [simpl; quiet_solve|intros ?]. prepares_solve.
Qed.
#[local] Hint Resolve prepares_fido : pam.

Lemma prepares_entra c a : conv_ok → prepares (entra_token (U := U) (V := V) fuel c a).
Proof.
  intros Hc. unfold entra_token, entra_password, auth_handle_mfa_resp. cbv zeta. prepares_solve.
Qed.

Lemma prepares_oidc d : conv_ok → prepares (oidc_token (U := U) (V := V) fuel d).
Proof. intros Hc. unfold oidc_token. prepares_solve. Qed.

Lemma new_pin_ok n m w pin w' :
  new_pin_loop (U := U) (V := V) n m w = Some (Ok pin, w') →
  m ≤ byte_len pin ∧ is_simple_pin (chars pin) = false.
Proof.
  revert w. induction n as [|n IH]; intros w Hr; [done|]. simpl in Hr.
  assert (∀ A (t : PM U V (result A PamResultCode)) k w1, try_bind t k w1 = Some (Ok pin, w') →
    ∃ a w2, t w1 = Some (Ok a, w2) ∧ k a w2 = Some (Ok pin, w')) as Hb.
  { unfold try_bind. intros A t k w1 (r & w2 & H1 & H2)%PM_bind_Some.
    destruct r as [a|e]; [eauto|by apply PM_ret_Some in H2 as [? _]]. }
  apply Hb in Hr as (p & w1 & _ & Hr). destruct (Z.ltb_spec (byte_len p) m).
  { apply Hb in Hr as (? & ? & _ & Hr). by eapply IH. }
  destruct (is_simple_pin (chars p)) eqn:Hs.
  { apply Hb in Hr as (? & ? & _ & Hr). apply PM_bind_Some in Hr as (? & ? & _ & Hr). by eapply IH. }
  apply Hb in Hr as (c & w2 & _ & Hr). destruct (String.eqb p c).
  - apply PM_ret_Some in Hr as [[= ->] _]. done.
  - apply Hb in Hr as (? & ? & _ & Hr). by eapply IH.
Qed.

(** Running a prepared step inside [change_pin]: it stops there, or goes on with nothing sent. *)
Lemma prepared_inv {A B} (m : PM U V (result A PamResultCode)) k w (r : result B PamResultCode) w' :
  prepares m → try_bind m k w = Some (r, w') →
  (∃ e, r = Err e ∧ e ≠ PAM_SUCCESS ∧ unsent w w') ∨
  ∃ a w1, m w = Some (Ok a, w1) ∧ unsent w w1 ∧ k a w1 = Some (r, w').
Proof.
  intros [Hq Hm] (x & w1 & H1 & H2)%PM_bind_Some. pose proof (quiet_unsent _ _ _ _ Hq H1) as Hu.
  destruct x as [a|e]; [eauto 10|]. apply PM_ret_Some in H2 as [-> ->]. left. exists e.
  split_and!; [done|by intros ->; apply Hm in H1|done..].
Qed.

Lemma unsent_trans (w w1 w2 : PamWorld U V) : unsent w w1 → unsent w1 w2 → unsent w w2.
Proof. unfold unsent. intros [? ?] [? ?]. split; congruence. Qed.

(** One prepared step of a run that has sent nothing so far. *)
Ltac prepared_step Hr Hu := apply prepared_inv in Hr as [(e & -> & He & Hu')|(? & ? & _ & Hu' & Hr)];
    [left; exists e; split_and!; [done|done|by eapply unsent_trans]| |];
    [apply (unsent_trans _ _ _ Hu) in Hu'; clear Hu; rename Hu' into Hu|].

Lemma change_pin_inv c account domain w r w' :
  conv_ok → handle_ok → change_pin fuel pamh c account domain w = Some (r, w') →
  (∃ e, r = Err e ∧ e ≠ PAM_SUCCESS ∧ unsent w w') ∨
  ∃ at_ rt pin reply,
    pw_calls w' = pw_calls w ++ [(ClientRequest_PamChangeAuthToken account at_ rt pin, reply)] ∧
    get_hello_pin_min_length (config c) ≤ byte_len pin ∧ is_simple_pin (chars pin) = false ∧
    r = Ok (match reply with Ok ClientResponse_Ok => PAM_SUCCESS | _ => PAM_AUTH_ERR end).
Proof.
  intros Hc [_ Hh]. unfold change_pin. cbv zeta. intros Hr.
  assert (unsent w w) as Hu by done.
  prepared_step Hr Hu; [|apply prepares_ret; intros E; by apply Hh in E].
  prepared_step Hr Hu; [|by apply prepares_tell].
  apply prepared_inv in Hr as [(e & -> & He & Hu')|(pin & w1 & Hp & Hu' & Hr)]; [| |by apply prepares_pin].
  { left. exists e. split_and!; [done|done|by eapply unsent_trans]. }
  apply new_pin_ok in Hp as [Hp1 Hp2]. apply (unsent_trans _ _ _ Hu) in Hu'. clear Hu. rename Hu' into Hu.
  prepared_step Hr Hu; [|by apply prepares_io_check].
  prepared_step Hr Hu; [|by apply prepares_io_check].
  prepared_step Hr Hu; [|destruct (get_oidc_issuer_url _ _); [by apply prepares_oidc|by apply prepares_entra]].
  destruct (access_token _) as [at_|]; [|apply PM_ret_Some in Hr as [-> ->]; left; by exists PAM_AUTH_ERR].
  apply PM_bind_Some in Hr as (reply & w5 & Hcall & Hr). apply PM_ret_Some in Hr as [-> ->].
  apply call_inv in Hcall as [Hcall _]. right. eexists at_, _, pin, reply. destruct Hu as [Hu _].
  split_and!; [by rewrite Hcall, Hu|done..].
Qed.

(** The PIN change succeeds in exactly two ways: the preliminary check of PAM, for
    an account with a UPN, which sends nothing; or one request to the daemon, answered
    with "ok", that carries a PIN of the minimum length which is not predictable and
    the user confirmed. *)
Theorem chauthtok_success args flags w w' :
  conv_ok → handle_ok →
  sm_chauthtok fuel unit_var files pamh args flags w = Some (PAM_SUCCESS, w') →
  (Z.land flags PAM_PRELIM_CHECK ≠ 0 ∧ pw_calls w' = pw_calls w) ∨
  (Z.land flags PAM_PRELIM_CHECK = 0 ∧ ∃ c account at_ rt pin,
    pw_calls w' = pw_calls w ++ [(ClientRequest_PamChangeAuthToken account at_ rt pin, Ok ClientResponse_Ok)] ∧
    get_hello_pin_min_length (config c) ≤ byte_len pin ∧ is_simple_pin (chars pin) = false).
Proof.
  intros Hc Hh [[-> [E|E]]|(o & _ & Hr)]%hook_inv; [done..|].
  apply with_account_inv in Hr as [[_ E]|(c & a & w1 & [Hu _] & Hr)]; [done|].
  destruct (split_username a) as [[user domain]|]; [|by apply PM_ret_Some in Hr as [? _]].
  destruct (Z.eqb_spec (Z.land flags PAM_PRELIM_CHECK) 0) as [Hp|Hp]; simpl in Hr.
  - right. split; [done|]. destruct (Z.land flags PAM_UPDATE_AUTHTOK =? 0); [by apply PM_ret_Some in Hr as [? _]|].
    apply with_daemon_inv in Hr as [[_ E]|(w2 & [Hu' _] & Hr)]; [done|].
    apply PM_bind_Some in Hr as (r & w3 & Hcp & Hr). apply PM_ret_Some in Hr as [Hr ->].
    apply change_pin_inv in Hcp as [(e & -> & He & _)|(at_ & rt & pin & reply & Hcalls & Hl & Hs & ->)];
      [by subst e| |done|done].
    exists c, a, at_, rt, pin. rewrite Hcalls, Hu', Hu. split_and!; [|done|done].
    by destruct reply as [[]|].
  - apply PM_ret_Some in Hr as [_ ->]. by left.
Qed.

End theorems.

(** ** Instances and witnesses *)

#[export] Instance script_msal : MsalEnv Script := {|
  AuthInit := unit;
  passwordless _ := true;
  msal_refresh_token t := t;
  public_client_new _ _ _ u := (true, u);
  check_user_exists _ _ u := (Some tt, u);
  initiate_mfa_flow _ _ _ _ _ u :=
    (Ok {| mf_method := None; mf_fido_challenge := None; mf_fido_allow_list := None; mf_msg := "Confirm";
           mf_polling_interval := None |}, u);
  acquire_by_mfa_flow _ _ _ f u := (Ok "token", f, u);
  oidc_init _ u := (false, u);
  oidc_device_flow u := (None, u);
  oidc_serializes _ := true;
  oidc_acquire _ u := (Ok None, u);
  sleep_millis _ u := u
|}.

Definition sample_handle (rhost : option string) : PamHandle := {|
  ph_user := Ok "alice@example.com";
  ph_service := Ok (Some "sshd");
  ph_tty := Ok None;
  ph_rhost := Ok rhost;
  ph_authtok := Ok None;
  ph_conv := Ok tt;
  ph_set_item := true
|}.

Definition no_files (path : string) : option string := None.

Lemma sample_handle_ok rhost : handle_ok (sample_handle rhost).
Proof. by split. Qed.

Lemma script_conv_ok : conv_ok (U := Script).
Proof. intros st msg u u'. simpl. destruct st; try done. by destruct (pop_answer u). Qed.

(** The scripted world with any replies of the daemon. *)
Definition scripted_replies (answers : list string) (policy : DbFile (list PolicyRow)) (replies : list ClientResponse)
  : PamWorld Script (list ClientResponse) :=
  set_daemon replies (scripted answers policy []).

#[local] Instance script_tokens : TokenOps := {|
  uuid_parse_str _ := None;
  access_token t := Some t;
  bearer_token a _ := a
|}.

Notation allowed_world := (scripted_replies [] None [ClientResponse_PamStatus (Some true)]).
Definition allowed_call : Exchange :=
  (ClientRequest_PamAccountAllowed "alice@example.com", Ok (ClientResponse_PamStatus (Some true))).

Lemma allowed_runs :
  summary (acct_mgmt None no_files (sample_handle None) [] allowed_world) = Some (PAM_SUCCESS, [allowed_call]).
Proof. reflexivity. Qed.

Lemma acct_mgmt_success_iff_witness : PAM_SUCCESS = PAM_SUCCESS ↔
  ∃ account, [allowed_call] =
    [(ClientRequest_PamAccountAllowed account, Ok (ClientResponse_PamStatus (Some true)))].
Proof.
  destruct (summary_run _ _ _ allowed_runs) as (w' & Hrun & Hcalls).
  pose proof (acct_mgmt_success_iff None no_files (sample_handle None) [] allowed_world PAM_SUCCESS w' Hrun) as Hw.
  rewrite Hcalls in Hw. exact Hw.
Defined.

(** A login from 192.168.1.7 and one from 127.0.0.1. *)
Notation login_world := (scripted_replies [] None
  [ClientResponse_PamAuthenticateStepResponse PamAuthResponse_Success]).
Definition login_calls (svc : string) : list Exchange :=
  [(ClientRequest_PamAuthenticateInit "alice@example.com" svc false false, asked PamAuthResponse_Success)].

Lemma remote_runs : summary (sm_authenticate 20 None no_files (sample_handle (Some (dotted 192 168 1 7))) [] login_world)
  = Some (PAM_SUCCESS, login_calls "remote:sshd").
Proof. reflexivity. Qed.

Lemma remote_login_marked_witness : "remote:sshd" = "remote:" +:+ "sshd".
Proof.
  destruct (summary_run _ _ _ remote_runs) as (w' & Hrun & Hcalls).
  apply (remote_login_marked 20 None no_files (sample_handle (Some (dotted 192 168 1 7))) [] login_world PAM_SUCCESS
    w' 192 168 1 7 (ClientRequest_PamAuthenticateInit "alice@example.com" "remote:sshd" false false,
      asked PamAuthResponse_Success) "alice@example.com" "remote:sshd" false false (sample_handle_ok _) Hrun);
    try lia; try reflexivity.
  exists (login_calls "remote:sshd"). split; [exact Hcalls|]. apply list_elem_of_singleton. reflexivity.
Defined.

(** A PIN is asked for and kept for the keyring. *)
Definition keyring_args : list (option string) := [Some "set_authtok"].
Notation keyring_world := (scripted_replies ["582914"] None
  [ClientResponse_PamAuthenticateStepResponse PamAuthResponse_Pin;
   ClientResponse_PamAuthenticateStepResponse PamAuthResponse_Success]).

Lemma keyring_runs : (λ r, (r.1, pw_authtok r.2)) <$>
    sm_authenticate 20 None no_files (sample_handle None) keyring_args keyring_world
  = Some (PAM_SUCCESS, Some "582914").
Proof. reflexivity. Qed.

Lemma authtok_only_on_success_witness :
  ∃ w', sm_authenticate 20 None no_files (sample_handle None) keyring_args keyring_world = Some (PAM_SUCCESS, w') ∧
    is_Some (pw_authtok w').
Proof.
  pose proof keyring_runs as Hk.
  destruct (sm_authenticate 20 None no_files (sample_handle None) keyring_args keyring_world) as [[c w']|] eqn:Hrun;
    [|discriminate].
  injection Hk as -> Htok. exists w'. split; [reflexivity|].
  destruct (authtok_only_on_success 20 None no_files (sample_handle None) keyring_args keyring_world PAM_SUCCESS w'
    (sample_handle_ok _) Hrun) as [Hsame|(_ & Hs & _)]; [|exact Hs].
  rewrite Htok in Hsame. discriminate.
Defined.

Definition unseal_args : list (option string) := [Some "try_unseal"].
Definition unseal_options : Options :=
  {| o_debug := false; use_first_pass := true; ignore_unknown_user := true; mfa_poll_prompt := false;
     no_hello_pin := false; set_authtok := false; try_unseal := true; force_reauth := false |}.

Lemma unseal_runs : summary (sm_authenticate 20 None no_files (sample_handle None) unseal_args login_world)
  = Some (PAM_IGNORE, []).
Proof. reflexivity. Qed.

Lemma try_unseal_never_authenticates_witness :
  ∃ w', sm_authenticate 20 None no_files (sample_handle None) unseal_args login_world = Some (PAM_IGNORE, w') ∧
    pw_calls w' = [].
Proof.
  destruct (summary_run _ _ _ unseal_runs) as (w' & Hrun & _). exists w'. split; [exact Hrun|].
  apply (try_unseal_never_authenticates 20 None no_files (sample_handle None) unseal_args unseal_options login_world
    PAM_IGNORE w' eq_refl eq_refl Hrun).
Defined.

(** A policy that asks for a symbol in the PIN. *)
Definition symbol_policy : DbFile (list PolicyRow) :=
  Some (Some [{| pr_key := "linux_passwordpolicy_minimumsymbols"; pr_value := "1"; pr_is_number := 1 |}]).

Notation change_world := (scripted_replies ["582914"; "582914"] symbol_policy [ClientResponse_Ok]).
Definition change_call : Exchange :=
  (ClientRequest_PamChangeAuthToken "alice@example.com" "token" "token" "582914", Ok ClientResponse_Ok).

Lemma change_runs :
  summary (sm_chauthtok 20 None no_files (sample_handle None) [] PAM_UPDATE_AUTHTOK change_world)
  = Some (PAM_SUCCESS, [change_call]).
Proof. reflexivity. Qed.

Lemma chauthtok_success_witness :
  ∃ c account at_ rt pin,
    [change_call] = [(ClientRequest_PamChangeAuthToken account at_ rt pin, Ok ClientResponse_Ok)] ∧
    get_hello_pin_min_length (config c) ≤ byte_len pin ∧ is_simple_pin (chars pin) = false.
Proof.
  destruct (summary_run _ _ _ change_runs) as (w' & Hrun & Hcalls).
  destruct (chauthtok_success 20 None no_files (sample_handle None) [] PAM_UPDATE_AUTHTOK change_world w'
    script_conv_ok (sample_handle_ok _) Hrun) as [[Hf _]|(_ & Hw)]; [by destruct Hf|].
  rewrite Hcalls in Hw. exact Hw.
Defined.

(** The administrator's PIN policy is not enforced when the PIN is changed: with a
    policy that asks for a symbol, the prompt that sets a PIN up refuses [582914], and
    the change of the authentication token sends the same PIN to the daemon and
    succeeds. *)
Theorem pin_change_skips_policy :
  (∀ u min_length, sc_policy u = symbol_policy → is_Some (pin_refused u min_length "582914")) ∧
  ∃ w', sm_chauthtok 20 None no_files (sample_handle None) [] PAM_UPDATE_AUTHTOK change_world
        = Some (PAM_SUCCESS, w') ∧ pw_calls w' = [change_call].
Proof.
  split.
  - intros u m Hp. unfold pin_refused. destruct (byte_len "582914" <? m); [done|].
    change (is_simple_pin (chars "582914")) with false. cbv iota.
    change (policy_file u) with (sc_policy u). rewrite Hp. by eexists.
  - destruct (summary_run _ _ _ change_runs) as (w' & Hrun & Hcalls). by exists w'.
Qed.
