(* ===== verification/PamDaemon.v ===== *)
(** * The PAM client on the modelled daemon

    The daemon's side of a connection ([Daemon.handle_request] and the check that the
    client is still there) as the daemon of the PAM client, and what a successful login
    then says about the resolver. *)
From stdpp Require Import base gmap strings list.
From Stdlib Require Import ZArith Lia.
From S2P Require Import Prelude Proto Interface Db Runtime Resolver ResolverLogic ResolverFacts ResolverModels ResolverTheorems Caches Idmap Config Daemon DaemonTheorems HelloPin Client Pam PamAuth PamFacts Models ConfigTheorems PamModels PamTheorems.

Open Scope rust_scope.

Section link.
Context {X : Ext} {SD : Serde} {SL : SerdeLaws SD} {C : Crypto} {P : IdProvider} {L : LruCache} {E : Env}.
Context {I : IniFile} {G : GeneratedConfig} {H : Host} {TK : TokenOps} {DE : DaemonEnv} {CSV : Csv}.
Context {PC : PamConfig} {T : TextOps} {U : Type} {PE : PamEnv U} {FE : FidoEnv U}.
Context (self : Resolver) (dcfg : HimmelblauConfig) (uid : Z).

(** A connection: its state and the daemon's world, until it breaks. *)
Notation Connection := (option (DState * World)).

(** One turn of [client_loop] seen from the client: a daemon that panics, blocks or finds
    the client gone ends the connection. *)
Definition exchange (q : ClientRequest) (v : Connection) : result ClientResponse ClientError * Connection :=
  match v with
  | None => (Err ClientError_Read, None)
  | Some (s, w) =>
      match (resp ← handle_request self dcfg uid q; gone ← lift (draw client_gone); mret (resp, gone)) s w with
      | Ret ((resp, false), s') w' => (Ok resp, Some (s', w'))
      | _ => (Err ClientError_Read, None)
      end
  end.

Definition connection_link : DaemonLink Connection := {|
  connect _ v := (match v with Some _ => true | None => false end, v);
  daemon_call q _ v := exchange q v;
  daemon_forget q v := (result_map (λ _, tt) (exchange q v).1, (exchange q v).2)
|}.
#[local] Existing Instance connection_link.

Context (fuel : nat) (mp : MessagePrinter U Connection) {QP : QuietPrinter mp}.

(** What the requests of one login tell the daemon: only the account of [s] is begun. *)
Definition begins_only (s : AuthenticateState) (hist : list ClientRequest) : Prop :=
  Forall (λ q, q = begin_request s ∨ ∃ r, q = ClientRequest_PamAuthenticateStep r) hist.

(** What an exchange that got an answer is made of. *)
Lemma exchange_run q s w resp v' : exchange q (Some (s, w)) = (Ok resp, v') →
  ∃ s' w1 w', v' = Some (s', w') ∧ handle_request self dcfg uid q s w = Ret (resp, s') w1 ∧
    lift (draw client_gone) s' w1 = Ret (false, s') w'.
Proof.
  unfold exchange.
  destruct ((resp ← handle_request self dcfg uid q; gone ← lift (draw client_gone); mret (resp, gone)) s w)
    as [[[resp' gone] s'] w'| |] eqn:Hr; [|done..].
  destruct gone; [done|]. intros [= <- <-].
  apply dbind_inv in Hr as (r & s1 & w1 & Hreq & Hr).
  apply dbind_inv in Hr as (g & s2 & w2 & Hg & [= -> -> -> ->]). pose proof Hg as [-> _]%lift_inv. eauto 10.
Qed.

(** An exchange that got an answer, on an idle daemon. *)
Lemma exchange_inv hist q s w resp v' :
  idle (p := True) w → session_from hist (pam_auth_session_state s) →
  exchange q (Some (s, w)) = (Ok resp, v') →
  ∃ s' w', v' = Some (s', w') ∧ evolves True any_rows w w' ∧
    session_from (hist ++ [q]) (pam_auth_session_state s') ∧ (reports_success resp → accounted self hist q s w).
Proof.
  intros Hi Hs (s' & w1 & w' & -> & Hreq & [_ Hg]%lift_inv)%exchange_run.
  pose proof (dsafe_result _ _ _ _ _ _
    (dsafe_request self dcfg (p := True) (d := True) (or_introl Logic.I) (or_introl Logic.I) uid q) Hi Hreq) as Hev.
  pose proof (evolves_idle _ _ _ Hev Hi) as Hi1.
  pose proof (wp_result _ _ _ _ _ (safe_draw (p := True) (d := True) client_gone w1 Hi1) Hg) as Hev2.
  destruct (request_session self dcfg _ _ _ _ _ _ _ _ Hi Hs Hreq) as [Hs1 Hacc].
  exists s', w'. split_and!; [done|by etrans|done|done].
Qed.

(** The exchanges of a connection are its loop over the requests. *)
Lemma client_loop_snoc reqs q s w resps s1 w1 resp s2 w2 :
  client_loop self dcfg uid reqs s w = Ret (resps, Ok tt, s1) w1 →
  exchange q (Some (s1, w1)) = (Ok resp, Some (s2, w2)) →
  client_loop self dcfg uid (reqs ++ [q]) s w = Ret (resps ++ [resp], Ok tt, s2) w2.
Proof.
  revert s w resps. induction reqs as [|req reqs IH]; intros s w resps Hl He; simpl in *.
  - injection Hl as <- <- <-. apply exchange_run in He as (s' & w1' & w' & [= <- <-] & Hq & Hg).
    by rewrite (dbind_run _ _ _ _ _ _ _ Hq), (dbind_run _ _ _ _ _ _ _ Hg).
  - apply dbind_inv in Hl as (r & s3 & w3 & Hq & Hl). apply dbind_inv in Hl as (g & s4 & w4 & Hg & Hl).
    destruct g; [done|]. apply dbind_inv in Hl as ([resps' ok] & s5 & w5 & Hl & [= <- -> -> ->]).
    rewrite (dbind_run _ _ _ _ _ _ _ Hq), (dbind_run _ _ _ _ _ _ _ Hg). by rewrite (dbind_run _ _ _ _ _ _ _ (IH _ _ _ Hl He)).
Qed.

(** A login of which the exchanges [tr] have been made on a connection that began in [w]. *)
Definition underway (w : World) (tr : list (ClientRequest * result ClientResponse ClientError)) (s : DState) (w1 : World) : Prop :=
  idle (p := True) w1 ∧ w_nxset w1 = w_nxset w ∧ session_from tr.*1 (pam_auth_session_state s) ∧
  ∃ resps, client_loop self dcfg uid tr.*1 (Build_DState None []) w = Ret (resps, Ok tt, s) w1 ∧ Ok <$> resps = tr.*2.

Lemma login_loop_accounted n tr s req pw w s0 w0 pw' :
  underway w tr s0 w0 → begins_only s (tr.*1 ++ [req]) → pw_daemon pw = Some (s0, w0) →
  authenticate_loop fuel mp n s req pw = Some (PAM_SUCCESS, pw') →
  ∃ tr' q s1 w1, pw_calls pw' = pw_calls pw ++ tr' ++ [(q, Ok (ClientResponse_PamAuthenticateStepResponse PamAuthResponse_Success))] ∧
    underway w (tr ++ tr') s1 w1 ∧ begins_only s (tr ++ tr').*1 ∧ accounted self (tr ++ tr').*1 q s1 w1.
Proof.
  revert tr s req pw s0 w0. induction n as [|n IH]; intros tr s req pw s0 w0 Hu Hb Hd Hr; [done|].
  simpl in Hr. apply PM_bind_Some in Hr as ([next s1] & pw1 & Hreq & Hr).
  apply request_cases in Hreq as (reply & Hcs & Hcall & Hcase); [|apply _]. rewrite Hd in Hcall. simpl in Hcall.
  destruct Hcase as [(p & Hp & Ha)|[Hp ->]]; [|by apply PM_ret_Some in Hr as [? _]].
  destruct reply as [resp|]; [|done]. destruct resp; try discriminate. injection Hp as ->. symmetry in Hcall.
  pose proof Hu as (Hi & Hnx & Hs & resps & Hrun & Hresps).
  destruct (exchange_inv _ req s0 w0 _ _ Hi Hs Hcall) as (s2 & w2 & Hd2 & Hev & Hs2 & Hacc).
  destruct next as [next|code].
  - rewrite Hd2 in Hcall.
    destruct (IH (tr ++ [(req, Ok (ClientResponse_PamAuthenticateStepResponse p))]) s1 next pw1 s2 w2)
      as (tr' & q & s3 & w3 & Hcs' & Hu' & Hb' & Ha'); [..|exact Hr|].
    + split_and!; [exact (evolves_idle _ _ _ Hev Hi)|by rewrite (ev_nxset _ _ _ _ Hev)|by rewrite fmap_app|].
      exists (resps ++ [ClientResponse_PamAuthenticateStepResponse p]). rewrite !fmap_app, Hresps.
      split; [by eapply client_loop_snoc|done].
    + unfold begins_only in *. rewrite (allowed_begin _ _ _ _ Ha), fmap_app. apply Forall_app. split; [done|].
      constructor; [|done]. inversion Ha; subst; eauto.
    + exact Hd2.
    + exists ((req, Ok (ClientResponse_PamAuthenticateStepResponse p)) :: tr'), q, s3, w3.
      rewrite <- (assoc_L (++)) in Hu', Hb', Ha'. split_and!; [by rewrite Hcs', Hcs, <- (assoc_L (++))|done| |done].
      unfold begins_only in *. by rewrite (allowed_begin _ _ _ _ Ha) in Hb'.
  - apply PM_ret_Some in Hr as [<- <-]. apply allowed_finish_success in Ha as [Ha _]. rewrite (Ha eq_refl) in *.
    exists [], req, s0, w0. rewrite app_nil_r. split_and!; [done|done| |by apply Hacc]. by apply Forall_app in Hb as [Hb _].
Qed.

(** C1. From the PAM client down to the resolver: a login that returns [PAM_SUCCESS] on a fresh
    connection to the modelled daemon ended with a step that the daemon answered with success.
    Given the exchanges before that step, the daemon stood in a session for the account the
    login was for (in lower case), with the service, PIN and re-authentication flags of the
    login, and there the resolver finds the evidence for that step, for a token that is not a
    local account's. Neither the answers of the user nor denials and restarts in between
    change whom it is for. *)
Theorem login_success_accounted tok c account svc o pw w pw' :
  settled w → pw_daemon pw = Some (Build_DState None [], w) →
  authenticate fuel mp tok c account svc o pw = Some (PAM_SUCCESS, pw') →
  ∃ tr q resps s1 w1 id token online h utok,
    let session :=
      AuthSession_InProgress (to_lowercase account) svc id token online h (no_hello_pin o) (force_reauth o) in
    pw_calls pw' = pw_calls pw ++ tr ++ [(ClientRequest_PamAuthenticateStep q,
                                          Ok (ClientResponse_PamAuthenticateStepResponse PamAuthResponse_Success))] ∧
    handle_client self dcfg (Some uid) tr.*1 w = Ret (resps, Ok tt, s1) w1 ∧ tr.*2 = (Ok <$> resps) ∧
    pam_auth_session_state s1 = Some session ∧
    success_evidence self w1 session q utok ∧
    in_nxset (w_nxset w) (Some (t_name utok)) (Some (t_gidnumber utok)) = false.
Proof.
  intros Hw Hd Hr. unfold authenticate in Hr. apply PM_bind_Some in Hr as (ok & pw1 & Hc & Hr).
  unfold daemon_io in Hc. simpl in Hc. rewrite Hd in Hc. injection Hc as <- <-. simpl in Hr.
  set (s := initial_state tok c account svc o) in Hr.
  destruct (login_loop_accounted fuel [] s (begin_request s)
    (set_daemon (Some (Build_DState None [], w)) pw) w (Build_DState None []) w pw')
    as (tr & q & s1 & w1 & Hcs & (_ & Hnx & _ & resps & Hrun & Hresps) & Hb & Ha); [|by constructor; [left|]|done|exact Hr|].
  { split_and!; [by apply settled_idle|done|done|by exists []]. }
  simpl in *. destruct Ha as (r & a & sv & nhp & fr & id & token & online & h & utok & -> & Hin & Hses & Hn & Hev).
  assert (a = account ∧ sv = svc ∧ nhp = no_hello_pin o ∧ fr = force_reauth o) as (-> & -> & -> & ->).
  { unfold begins_only in Hb. rewrite Forall_forall in Hb. destruct (Hb _ Hin) as [Hx|[x Hx]]; [|done].
    by injection Hx as -> -> -> ->. }
  rewrite Hnx in Hn. exists tr, r, resps, s1, w1, id, token, online, h, utok. by split_and!.
Qed.

End link.

(** ** Witness *)

(** A user who types the PIN, on the daemon of the models. *)
Definition online_world : PamWorld Script (option (DState * World)) := {|
  pw_env := {| sc_answers := [model_pin]; sc_policy := None |};
  pw_daemon := Some (Build_DState None [], w_online);
  pw_secret := None;
  pw_authtok := None;
  pw_names := None;
  pw_calls := []
|}.

Notation online_login :=
  (authenticate (DL := connection_link model_resolver sample_config 1000) 20 SimpleMessagePrinter None sample_config
     "Alice" "login" model_options online_world).

Lemma online_login_runs : (λ r, (r.1, pw_calls r.2)) <$> online_login =
  Some (PAM_SUCCESS,
    [(ClientRequest_PamAuthenticateInit "Alice" "login" false false,
      Ok (ClientResponse_PamAuthenticateStepResponse PamAuthResponse_Pin));
     (ClientRequest_PamAuthenticateStep (PamAuthRequest_Pin model_pin),
      Ok (ClientResponse_PamAuthenticateStepResponse PamAuthResponse_Success))]).
Proof. reflexivity. Qed.

(** The login consists of two exchanges; after the first one the daemon is in a session for the
    account, in which the provider accepts the PIN that was typed. *)
Lemma login_success_accounted_witness :
  ∃ s1 w1 id token online h utok,
    let session := AuthSession_InProgress (to_lowercase "Alice") "login" id token online h false false in
    handle_client model_resolver sample_config (Some 1000)
      [ClientRequest_PamAuthenticateInit "Alice" "login" false false] w_online
      = Ret ([ClientResponse_PamAuthenticateStepResponse PamAuthResponse_Pin], Ok tt, s1) w1 ∧
    pam_auth_session_state s1 = Some session ∧
    success_evidence model_resolver w1 session (PamAuthRequest_Pin model_pin) utok.
Proof.
  pose proof online_login_runs as Hr. destruct online_login as [[code pw']|] eqn:Hrun; [|discriminate].
  injection Hr as -> Hcalls.
  destruct (login_success_accounted model_resolver sample_config 1000 20 SimpleMessagePrinter None sample_config "Alice"
    "login" model_options online_world w_online pw' w_online_settled eq_refl Hrun)
    as (tr & q & resps & s1 & w1 & id & tk & on & h & u & Hc & Hh & Hresps & Hses & Hev & _).
  rewrite Hcalls in Hc. destruct tr as [|x [|y tr]]; [discriminate Hc| |by destruct tr as [|? [|]]].
  injection Hc as <- <-. destruct resps as [|r [|]]; [discriminate Hresps| |discriminate Hresps]. injection Hresps as <-.
  exists s1, w1, id, tk, on, h, u. split_and!; assumption.
Defined.
