(* ===== verification/Nss.v ===== *)
(** * The NSS module: [src/nss/src/implementation.rs]

    The lookups of users and groups that glibc makes, answered by the daemon or, when
    it does not answer, from the module's own cache, and the entry point
    [_nss_himmelblau_initgroups_dyn] that fills an array owned by glibc. A computation
    [NM] runs in an [NssWorld]: the daemon behind its socket, the file of the NSS cache,
    the cache of mapped names, the number of events drawn from the oracles of [NssEnv],
    and the exchanges with the daemon so far. *)
From stdpp Require Import base gmap strings list.
From Stdlib Require Import ZArith Lia Ascii.
From S2P Require Import Prelude Proto Interface Db Runtime Caches UserMap Config Daemon HelloPin Client Pam.

Open Scope rust_scope.

(** ** Data of the crate [libnss] *)

Record Passwd := {
  pwd_name : string; pwd_passwd : string; pwd_uid : Z; pwd_gid : Z;
  pwd_gecos : string; pwd_dir : string; pwd_shell : string
}.

Record Group := { grp_name : string; grp_passwd : string; grp_gid : Z; grp_members : list string }.

(** The variants of [libnss::interop::Response] the module returns. *)
Inductive Response (A : Type) := Unavail | NotFound | Success (a : A).
#[global] Arguments Unavail {A}.
#[global] Arguments NotFound {A}.
#[global] Arguments Success {A} a.

(** The process the module is loaded in: its clock (whole seconds since the epoch),
    failing statements, failures while the cache is opened and failing allocations,
    each drawn at a counter; the bytes of [/etc/group] that could be read; and whether
    the crate [uuid] parses a text. *)
Class NssEnv : Type := {
  nss_now : nat → Z;
  nss_insert_fault : nat → bool;
  nss_open_faults : nat → OpenFaults;
  realloc_ok : nat → bool;
  etc_group_file : option bytes;
  uuid_parses : string → bool
}.

Definition passwd_from_nssuser (nu : NssUser) : Passwd :=
  {| pwd_name := nu_name nu; pwd_gecos := nu_gecos nu; pwd_passwd := "x"; pwd_uid := nu_uid nu;
     pwd_gid := nu_gid nu; pwd_dir := nu_homedir nu; pwd_shell := nu_shell nu |}.

Definition group_from_nssgroup (ng : NssGroup) : Group :=
  {| grp_name := ng_name ng; grp_passwd := "x"; grp_gid := ng_gid ng; grp_members := ng_members ng |}.

Definition set_pwd_name (name : string) (p : Passwd) : Passwd :=
  {| pwd_name := name; pwd_passwd := pwd_passwd p; pwd_uid := pwd_uid p; pwd_gid := pwd_gid p;
     pwd_gecos := pwd_gecos p; pwd_dir := pwd_dir p; pwd_shell := pwd_shell p |}.

(** ** Local groups *)

Definition read_etc_group `{NssEnv} : bytes := default [] etc_group_file.

Definition is_group_name_in_groups `{Csv} (name : string) (group_contents : bytes) : bool :=
  existsb (λ g, String.eqb (eg_name g) name) (default [] (parse_etc_group group_contents)).

Definition is_local_group `{NssEnv} `{Csv} (name : string) : bool :=
  is_group_name_in_groups name read_etc_group.

(** ** The world of a lookup *)

Section nss.
Context {X : Ext} {I : IniFile} {G : GeneratedConfig} {PC : PamConfig} {H : Host} {CSV : Csv} {NE : NssEnv}.
Context {V : Type} {DL : DaemonLink V}.

Record NssWorld := {
  nw_daemon : V;
  nw_users : DbFile (list NssRow);
  nw_names : MappingFile;
  nw_tick : nat;
  nw_calls : list (ClientRequest * result ClientResponse ClientError)
}.

Definition NM (A : Type) : Type := NssWorld → A * NssWorld.

#[global] Instance NM_ret : MRet NM := λ A a w, (a, w).
#[global] Instance NM_bind : MBind NM := λ A B f m w, let '(a, w') := m w in f a w'.

(** An operation on the file of the NSS cache. *)
Definition users_io {A} (f : DbFile (list NssRow) → DbFile (list NssRow) * A) : NM A := λ w,
  let '(file, a) := f (nw_users w) in
  (a, {| nw_daemon := nw_daemon w; nw_users := file; nw_names := nw_names w; nw_tick := nw_tick w;
         nw_calls := nw_calls w |}).

(** The next event of an oracle. *)
Definition next_event {A} (oracle : nat → A) : NM A := λ w,
  (oracle (nw_tick w),
   {| nw_daemon := nw_daemon w; nw_users := nw_users w; nw_names := nw_names w; nw_tick := S (nw_tick w);
      nw_calls := nw_calls w |}).

(** [DaemonClientBlocking::new] and [call_and_wait]. *)
Definition client_new (path : string) : NM bool := λ w,
  let '(ok, v) := connect path (nw_daemon w) in
  (ok, {| nw_daemon := v; nw_users := nw_users w; nw_names := nw_names w; nw_tick := nw_tick w;
          nw_calls := nw_calls w |}).

Definition nss_call (req : ClientRequest) (timeout : Z) : NM (result ClientResponse ClientError) := λ w,
  let '(r, v) := daemon_call req timeout (nw_daemon w) in
  (r, {| nw_daemon := v; nw_users := nw_users w; nw_names := nw_names w; nw_tick := nw_tick w;
         nw_calls := nw_calls w ++ [(req, r)] |}).

(** The name mapping of the configuration. *)
Definition to_upn (cfg : HimmelblauConfig) (name : string) : NM string := λ w,
  let '(upn, names) := map_name_to_upn cfg name (nw_names w) in
  (upn, {| nw_daemon := nw_daemon w; nw_users := nw_users w; nw_names := names; nw_tick := nw_tick w;
           nw_calls := nw_calls w |}).

Definition to_name (cfg : HimmelblauConfig) (upn : string) : NM string := λ w,
  (map_upn_to_name cfg upn (nw_names w), w).

(** ** The macros on the NSS cache *)

Definition try_nss_cache : NM (option Opened) :=
  ft ← next_event nss_open_faults;
  users_io (NssCache_new running_as_root true ft).

Definition insert_cached_user (cache : option Opened) (nu : NssUser) : NM unit :=
  match cache with
  | Some c =>
      now ← next_event nss_now;
      fault ← next_event nss_insert_fault;
      users_io (λ file, (nss_insert_user fault now c nu file, tt))
  | None => mret tt
  end.

(** The name an entry is returned under: the local name of the user map, or the name
    the configuration maps the UPN to. *)
Definition present (cfg : HimmelblauConfig) (local_name : option string) (nu : NssUser) : NM (Response Passwd) :=
  match local_name with
  | Some local => mret (Success (set_pwd_name local (passwd_from_nssuser nu)))
  | None =>
      name ← to_name cfg (nu_name nu);
      mret (Success (set_pwd_name name (passwd_from_nssuser nu)))
  end.

Definition fetch_cached_user (cache : option Opened) (cfg : HimmelblauConfig) (id : Id)
  (ret : Response Passwd) (local_name : option string) : NM (Response Passwd) :=
  match cache with
  | Some c =>
      now ← next_event nss_now;
      found ← users_io (λ file, (file, nss_get_user now c id file));
      match found with
      | Some nu => present cfg local_name nu
      | None => mret ret
      end
  | None => mret ret
  end.

(** One entry of a listing; users mapped to a local account are left to the local
    module. *)
Definition list_entry (cfg : HimmelblauConfig) (user_map : UserMap) (store : NssUser → NM unit) (nu : NssUser)
  : NM (option Passwd) :=
  match get_local_from_upn user_map (to_lowercase (nu_name nu)) with
  | Some _ => mret None
  | None =>
      _ ← store nu;
      name ← to_name cfg (nu_name nu);
      mret (Some (set_pwd_name name (passwd_from_nssuser nu)))
  end.

Fixpoint filter_map_m {A B} (f : A → NM (option B)) (l : list A) : NM (list B) :=
  match l with
  | [] => mret []
  | a :: l =>
      b ← f a;
      bs ← filter_map_m f l;
      mret (match b with Some b => b :: bs | None => bs end)
  end.

Definition fetch_all_cached_users (cache : option Opened) (cfg : HimmelblauConfig) (user_map : UserMap)
  : NM (list Passwd) :=
  match cache with
  | Some c =>
      now ← next_event nss_now;
      users ← users_io (λ file, (file, nss_get_users now c file));
      filter_map_m (list_entry cfg user_map (λ _, mret tt)) users
  | None => mret []
  end.

(** ** The hooks *)

Variable activation_unit : option string.
Variable files : string → option string.

(** Every hook: nothing is done for the daemon's own units, and the configuration is read. *)
Definition with_config {A} (unavail : A) (body : HimmelblauConfig → NM A) : NM A :=
  if should_skip_daemon_call activation_unit then mret unavail
  else match config_new files (Some DEFAULT_CONFIG_PATH) with
       | Ok cfg => body cfg
       | Err _ => mret unavail
       end.

Definition user_map_of (cfg : HimmelblauConfig) : UserMap :=
  UserMap_new (files (get_user_map_file (config cfg))).

(** The daemon's answer to one user lookup, or what the cache holds. *)
Definition account_answer (cfg : HimmelblauConfig) (cache : option Opened) (id : Id)
  (local_name : option string) (r : result ClientResponse ClientError) : NM (Response Passwd) :=
  match r with
  | Ok (ClientResponse_NssAccount (Some nu)) =>
      _ ← insert_cached_user cache nu;
      present cfg local_name nu
  | _ => fetch_cached_user cache cfg id NotFound local_name
  end.

Definition lookup_account (cfg : HimmelblauConfig) (req : ClientRequest) (id : Id) (local_name : option string)
  : NM (Response Passwd) :=
  nss_cache ← try_nss_cache;
  connected ← client_new (get_socket_path (config cfg));
  if connected : bool then
    r ← nss_call req (get_unix_sock_timeout cfg);
    account_answer cfg nss_cache id local_name r
  else fetch_cached_user nss_cache cfg id Unavail local_name.

Definition passwd_get_all_entries : NM (Response (list Passwd)) :=
  with_config Unavail (λ cfg,
    nss_cache ← try_nss_cache;
    connected ← client_new (get_socket_path (config cfg));
    l ← (if connected : bool then
           r ← nss_call ClientRequest_NssAccounts (get_unix_sock_timeout cfg);
           match r with
           | Ok (ClientResponse_NssAccounts l) =>
               filter_map_m (list_entry cfg (user_map_of cfg) (insert_cached_user nss_cache)) l
           | _ => fetch_all_cached_users nss_cache cfg (user_map_of cfg)
           end
         else fetch_all_cached_users nss_cache cfg (user_map_of cfg));
    mret (Success l)).

Definition passwd_get_entry_by_uid (uid : Z) : NM (Response Passwd) :=
  with_config Unavail (λ cfg, lookup_account cfg (ClientRequest_NssAccountByUid uid) (Id_Gid uid) None).

(** The UPN a user name stands for, and the local name to answer with. *)
Definition account_of_name (cfg : HimmelblauConfig) (name : string) : NM (string * option string) :=
  match get_upn_from_local (user_map_of cfg) name with
  | Some mapped_upn => mret (mapped_upn, Some name)
  | None =>
      match get_local_from_upn (user_map_of cfg) (to_lowercase name) with
      | Some local => mret (to_lowercase name, Some local)
      | None => upn ← to_upn cfg name; mret (upn, None)
      end
  end.

Definition passwd_get_entry_by_name (name : string) : NM (Response Passwd) :=
  with_config Unavail (λ cfg,
    '(upn, local_name) ← account_of_name cfg name;
    lookup_account cfg (ClientRequest_NssAccountByName upn) (Id_Name upn) local_name).

(** A group of the daemon with its name and its members mapped. *)
Definition mapped_group (cfg : HimmelblauConfig) (ng : NssGroup) : NM Group := λ w,
  ({| grp_name := map_upn_to_name cfg (ng_name ng) (nw_names w); grp_passwd := "x"; grp_gid := ng_gid ng;
      grp_members := (λ m, map_upn_to_name cfg m (nw_names w)) <$> ng_members ng |}, w).

Definition group_answer (cfg : HimmelblauConfig) (r : result ClientResponse ClientError) : NM (Response Group) :=
  match r with
  | Ok (ClientResponse_NssGroup (Some ng)) => g ← mapped_group cfg ng; mret (Success g)
  | _ => mret NotFound
  end.

Definition group_get_all_entries : NM (Response (list Group)) :=
  with_config Unavail (λ cfg,
    connected ← client_new (get_socket_path (config cfg));
    if connected : bool then
      r ← nss_call ClientRequest_NssGroups (get_unix_sock_timeout cfg);
      match r with
      | Ok (ClientResponse_NssGroups l) =>
          l ← filter_map_m (λ ng, g ← mapped_group cfg ng; mret (Some g)) l;
          mret (Success l)
      | _ => mret (Success [])
      end
    else mret Unavail).

Definition group_get_entry_by_gid (gid : Z) : NM (Response Group) :=
  with_config Unavail (λ cfg,
    connected ← client_new (get_socket_path (config cfg));
    if connected : bool then
      r ← nss_call (ClientRequest_NssGroupByGid gid) (get_unix_sock_timeout cfg);
      group_answer cfg r
    else mret Unavail).

(** The fake primary group of a user, by its UPN. *)
Definition group_by_upn (cfg : HimmelblauConfig) (upn : string) : NM (Response Group) :=
  if contains_char AT upn then
    r ← nss_call (ClientRequest_NssGroupByName upn) (get_unix_sock_timeout cfg);
    group_answer cfg r
  else mret NotFound.

(** A request by object id: the answer is used only if the group is not called that. *)
Definition group_by_object_id (cfg : HimmelblauConfig) (name : string) : NM (Response Group) :=
  if uuid_parses name then
    r ← nss_call (ClientRequest_NssGroupByName name) (get_unix_sock_timeout cfg);
    mret (match r with
          | Ok (ClientResponse_NssGroup (Some ng)) =>
              let group := group_from_nssgroup ng in
              if String.eqb (to_lowercase name) (to_lowercase (grp_name group)) then NotFound
              else Success group
          | _ => NotFound
          end)
  else mret NotFound.

Definition group_get_entry_by_name (name : string) : NM (Response Group) :=
  with_config Unavail (λ cfg,
    mapped ← to_name cfg name;
    if is_local_group mapped then mret NotFound
    else
      upn ← to_upn cfg name;
      connected ← client_new (get_socket_path (config cfg));
      if connected : bool then
        primary ← group_by_upn cfg upn;
        match primary with
        | NotFound => group_by_object_id cfg name
        | other => mret other
        end
      else mret Unavail).

(** ** [_nss_himmelblau_initgroups_dyn] *)

(** A block of memory for gids: [None] is a cell that was never written. *)
Notation Block := (list (option Z)).

(** The cells behind the pointer arguments; [None] is a null pointer. A user name that is
    not UTF-8 is [Some None]. *)
Record InitArgs := {
  ia_user : option (option string);
  ia_start : option Z;
  ia_size : option Z;
  ia_groupsp : option (option Block);
  ia_errnop : option Z
}.

Definition NSS_STATUS_SUCCESS : Z := 1.
Definition NSS_STATUS_NOTFOUND : Z := 0.
Definition NSS_STATUS_UNAVAIL : Z := -1.
Definition NSS_STATUS_TRYAGAIN : Z := -2.
Definition EINVAL : Z := 22.
Definition ENOMEM : Z := 12.

Definition set_errno (e : Z) (a : InitArgs) : InitArgs :=
  {| ia_user := ia_user a; ia_start := ia_start a; ia_size := ia_size a; ia_groupsp := ia_groupsp a;
     ia_errnop := Some e |}.
Definition set_start (n : Z) (a : InitArgs) : InitArgs :=
  {| ia_user := ia_user a; ia_start := Some n; ia_size := ia_size a; ia_groupsp := ia_groupsp a;
     ia_errnop := ia_errnop a |}.
Definition set_block (b : option Block) (n : Z) (a : InitArgs) : InitArgs :=
  {| ia_user := ia_user a; ia_start := ia_start a; ia_size := Some n; ia_groupsp := Some b;
     ia_errnop := ia_errnop a |}.
Definition store_cell (b : Block) (a : InitArgs) : InitArgs :=
  {| ia_user := ia_user a; ia_start := ia_start a; ia_size := ia_size a; ia_groupsp := Some (Some b);
     ia_errnop := ia_errnop a |}.

(** [i64::saturating_mul] by two of a length. *)
Definition saturating_double (n : Z) : Z := Z.min i64_max (n * 2).

Definition grown_size (limit cur_size : Z) : Z :=
  let doubled := Z.max 16 (saturating_double cur_size) in
  if 0 <? limit then Z.min limit doubled else doubled.

(** [usize::try_from(n)] and [checked_mul(size_of::<gid_t>())], for a result above zero. *)
Definition alloc_bytes (new_size : Z) : option Z :=
  if (0 <? new_size) && (new_size * 4 <=? u64_max) then Some (new_size * 4) else None.

(** [(0..cur_start).any(|i| *groups.offset(i) == gid)]: [None] is a read outside the
    block or of a cell never written. *)
Fixpoint already_present (gid : Z) (cells : Block) (n : nat) : option bool :=
  match n, cells with
  | O, _ => Some false
  | S n, Some g :: cells => if g =? gid then Some true else already_present gid cells n
  | S _, _ => None
  end.

(** [realloc] to [n] cells: the old ones are kept, the new ones not initialised. *)
Definition realloc_cells (n : nat) (b : option Block) : Block :=
  take n (default [] b ++ replicate n None).

(** The loop over the gids. The result is [None] when the block is accessed outside its
    bounds or a cell is read that was never written. *)
Fixpoint add_gids (primary_gid limit : Z) (gids : list Z) (cur_start cur_size : Z) (groups : option Block)
  (a : InitArgs) : NM (option (Z * InitArgs)) :=
  match gids with
  | [] => mret (Some (NSS_STATUS_SUCCESS, set_start cur_start a))
  | gid :: gids =>
      if gid =? primary_gid then add_gids primary_gid limit gids cur_start cur_size groups a
      else
        match already_present gid (default [] groups) (Z.to_nat cur_start) with
        | None => mret None
        | Some true => add_gids primary_gid limit gids cur_start cur_size groups a
        | Some false =>
            if (0 <? limit) && (limit <=? cur_start) then
              mret (Some (NSS_STATUS_SUCCESS, set_start cur_start a))
            else
              let write cur_size groups a :=
                if (Z.to_nat cur_start <? length (default [] groups))%nat then
                  let b := <[Z.to_nat cur_start := Some gid]> (default [] groups) in
                  add_gids primary_gid limit gids (cur_start + 1) cur_size (Some b) (store_cell b a)
                else mret None in
              if cur_size <=? cur_start then
                let new_size := grown_size limit cur_size in
                match alloc_bytes new_size with
                | None => mret (Some (NSS_STATUS_TRYAGAIN, set_start cur_start (set_errno ENOMEM a)))
                | Some _ =>
                    ok ← next_event realloc_ok;
                    if ok : bool then
                      let b := Some (realloc_cells (Z.to_nat new_size) groups) in
                      write new_size b (set_block b new_size a)
                    else mret (Some (NSS_STATUS_TRYAGAIN, set_start cur_start (set_errno ENOMEM a)))
                end
              else write cur_size groups a
        end
  end.

(** The check of the array, and the loop. *)
Definition fill_groups (primary_gid limit : Z) (gids : list Z) (start size : Z) (groups : option Block)
  (a : InitArgs) : NM (option (Z * InitArgs)) :=
  if (start <? 0) || (size <? 0) || (size <? start)
     || ((0 <? size) && match groups with None => true | Some _ => false end) then
    mret (Some (NSS_STATUS_UNAVAIL, set_errno EINVAL a))
  else add_gids primary_gid limit gids start size groups a.

Definition ask_initgroups (cfg : HimmelblauConfig) (account_id : string) : NM (result (list Z) Z) :=
  connected ← client_new (get_socket_path (config cfg));
  if connected : bool then
    r ← nss_call (ClientRequest_NssInitgroups account_id) (get_unix_sock_timeout cfg);
    mret (match r with
          | Ok (ClientResponse_NssInitgroups (Some g)) => Ok g
          | Ok (ClientResponse_NssInitgroups None) => Err NSS_STATUS_NOTFOUND
          | _ => Err NSS_STATUS_UNAVAIL
          end)
  else mret (Err NSS_STATUS_UNAVAIL).

Definition initgroups_request (cfg : HimmelblauConfig) (c_user : string) : NM (result (list Z) Z) :=
  account_id ← (match get_upn_from_local (user_map_of cfg) c_user with
                | Some upn => mret upn
                | None => to_upn cfg c_user
                end);
  ask_initgroups cfg account_id.

Definition initgroups_dyn (primary_gid limit : Z) (a : InitArgs) : NM (option (Z * InitArgs)) :=
  match ia_user a, ia_start a, ia_size a, ia_groupsp a, ia_errnop a with
  | Some user, Some start, Some size, Some groups, Some _ =>
      if should_skip_daemon_call activation_unit then mret (Some (NSS_STATUS_UNAVAIL, a))
      else match user with
           | None => mret (Some (NSS_STATUS_UNAVAIL, set_errno EINVAL a))
           | Some c_user =>
               with_config (Some (NSS_STATUS_UNAVAIL, a)) (λ cfg,
                 r ← initgroups_request cfg c_user;
                 match r with
                 | Ok gids => fill_groups primary_gid limit gids start size groups a
                 | Err status => mret (Some (status, a))
                 end)
           end
  | _, _, _, _, _ => mret (Some (NSS_STATUS_UNAVAIL, a))
  end.

End nss.

#[global] Arguments NssWorld {X} V.
#[global] Arguments NM {X} V A.
