(* ===== verification/NssTheorems.v ===== *)
(** * Properties of the NSS module

    Which group lookups are answered at all, what the array of
    [_nss_himmelblau_initgroups_dyn] holds afterwards, and how long a user stays
    resolvable without the daemon. *)
From stdpp Require Import base gmap strings list.
From Stdlib Require Import ZArith Lia Ascii.
From S2P Require Import Prelude Proto Interface Db Runtime Caches UserMap Config ConfigTheorems Daemon HelloPin Client Pam PamModels Nss Models ResolverModels DaemonTheorems.

Open Scope rust_scope.

Section groups.
Context {X : Ext} {I : IniFile} {G : GeneratedConfig} {PC : PamConfig} {H : Host} {CSV : Csv} {NE : NssEnv}.
Context {V : Type} {DL : DaemonLink V}.
Context (activation_unit : option string) (files : string → option string).

Lemma nm_bind {A B} (m : NM V A) (k : A → NM V B) w : (a ← m; k a) w = k (m w).1 (m w).2.
Proof. unfold mbind, NM_bind. by destruct (m w). Qed.

(** What each primitive leaves alone. *)
Lemma nss_call_frame req t w :
  let '(r, w') := nss_call (V := V) req t w in
  nw_calls w' = nw_calls w ++ [(req, r)] ∧ nw_names w' = nw_names w ∧ nw_users w' = nw_users w ∧ nw_tick w' = nw_tick w.
Proof. unfold nss_call. by destruct (daemon_call _ _ _). Qed.

Lemma client_new_frame path w :
  let w' := (client_new (V := V) path w).2 in
  nw_calls w' = nw_calls w ∧ nw_names w' = nw_names w ∧ nw_users w' = nw_users w ∧ nw_tick w' = nw_tick w.
Proof. unfold client_new. by destruct (connect _ _). Qed.

Lemma to_upn_frame cfg name w :
  let '(upn, w') := to_upn (V := V) cfg name w in
  (upn, nw_names w') = map_name_to_upn cfg name (nw_names w) ∧
  nw_calls w' = nw_calls w ∧ nw_users w' = nw_users w ∧ nw_tick w' = nw_tick w ∧ nw_daemon w' = nw_daemon w.
Proof. unfold to_upn. by destruct (map_name_to_upn _ _ _). Qed.

(** A request for a group by name goes to the daemon only under a name of this kind. *)
Definition safe_name (req : ClientRequest) : Prop :=
  match req with
  | ClientRequest_NssGroupByName n => contains_char AT n = true ∨ uuid_parses n = true
  | _ => False
  end.

Notation Calls := (list (ClientRequest * result ClientResponse ClientError)).

(** The calls one part of the lookup makes, and where an answer of it comes from. *)
Definition answers_by (origin : Calls → Group → Prop)
  (w : NssWorld V) (o : Response Group * NssWorld V) : Prop :=
  ∃ calls, nw_calls o.2 = nw_calls w ++ calls ∧ Forall (λ c, safe_name c.1) calls ∧
    ∀ g, o.1 = Success g → origin calls g.

Lemma answers_nothing origin r w w' :
  nw_calls w' = nw_calls w → (∀ g, r ≠ Success g) → answers_by origin w (r, w').
Proof. intros Hc Hr. exists []. rewrite app_nil_r. split_and!; [done|constructor|]. intros g Hg. by destruct (Hr g). Qed.

Definition by_object_id (name : string) (calls : Calls) (g : Group) : Prop :=
  uuid_parses name = true ∧ ∃ ng,
    calls = [(ClientRequest_NssGroupByName name, Ok (ClientResponse_NssGroup (Some ng)))] ∧
    to_lowercase name ≠ to_lowercase (ng_name ng) ∧ g = group_from_nssgroup ng.

Lemma group_by_object_id_spec cfg name w :
  answers_by (by_object_id name) w (group_by_object_id (V := V) cfg name w).
Proof.
  unfold group_by_object_id. destruct (uuid_parses name) eqn:Hu; [|by apply answers_nothing].
  rewrite nm_bind. pose proof (nss_call_frame (ClientRequest_NssGroupByName name) (get_unix_sock_timeout cfg) w) as Hf.
  destruct (nss_call _ _ w) as [reply w1]. destruct Hf as [Hc _].
  exists [(ClientRequest_NssGroupByName name, reply)].
  split_and!; [done|constructor; [by right|done]|]. simpl. intros g Hg. split; [done|].
  destruct reply as [[]|]; try discriminate. destruct g0 as [ng|]; [|discriminate]. simpl in Hg.
  destruct (String.eqb_spec (to_lowercase name) (to_lowercase (ng_name ng))); [discriminate|].
  injection Hg as <-. by exists ng.
Qed.

Definition by_upn (cfg : HimmelblauConfig) (upn : string) (names : MappingFile) (calls : Calls) (g : Group) : Prop :=
  contains_char AT upn = true ∧ ∃ ng,
    calls = [(ClientRequest_NssGroupByName upn, Ok (ClientResponse_NssGroup (Some ng)))] ∧
    grp_gid g = ng_gid ng ∧ grp_name g = map_upn_to_name cfg (ng_name ng) names.

Lemma group_by_upn_spec cfg upn w :
  let o := group_by_upn (V := V) cfg upn w in
  answers_by (by_upn cfg upn (nw_names w)) w o ∧ o.1 ≠ Unavail.
Proof.
  unfold group_by_upn.
  destruct (contains_char AT upn) eqn:Ha; [|by split; [apply answers_nothing|]].
  rewrite nm_bind. pose proof (nss_call_frame (ClientRequest_NssGroupByName upn) (get_unix_sock_timeout cfg) w) as Hf.
  destruct (nss_call _ _ w) as [reply w1]. destruct Hf as (Hc & Hn & _). simpl. split.
  - exists [(ClientRequest_NssGroupByName upn, reply)]. split_and!.
    + destruct reply as [[]|]; try done. by destruct g.
    + constructor; [by left|done].
    + intros g Hg. split; [done|]. destruct reply as [[]|]; try discriminate. destruct g0 as [ng|]; [|discriminate].
      injection Hg as <-. exists ng. rewrite <- Hn. done.
  - destruct reply as [[]|]; try done. by destruct g.
Qed.

(** No group is ever answered by its directory name (CVE-2025-49012): a group lookup
    by name asks the daemon only for names that look like a UPN or parse as a UUID; an
    answer is the daemon's group for the UPN the name maps to, or the group with that
    object id, and then only if it is not also called so; and a name that the host's
    own [/etc/group] has, before or after the mapping of UPNs, is never answered. *)
Theorem group_by_name_guarded name w r w' :
  group_get_entry_by_name activation_unit files name w = (r, w') →
  ∃ calls, nw_calls w' = nw_calls w ++ calls ∧ Forall (λ c, safe_name c.1) calls ∧
  ∀ g, r = Success g → ∃ cfg,
    config_new files (Some DEFAULT_CONFIG_PATH) = Ok cfg ∧
    is_local_group (map_upn_to_name cfg name (nw_names w)) = false ∧
    let upn := (map_name_to_upn cfg name (nw_names w)).1 in
    let names := (map_name_to_upn cfg name (nw_names w)).2 in
    ((contains_char AT upn = true ∧ ∃ ng,
        calls = [(ClientRequest_NssGroupByName upn, Ok (ClientResponse_NssGroup (Some ng)))] ∧
        grp_gid g = ng_gid ng ∧ grp_name g = map_upn_to_name cfg (ng_name ng) names) ∨
     (uuid_parses name = true ∧ ∃ before ng,
        calls = before ++ [(ClientRequest_NssGroupByName name, Ok (ClientResponse_NssGroup (Some ng)))] ∧
        to_lowercase name ≠ to_lowercase (ng_name ng) ∧ g = group_from_nssgroup ng)).
Proof.
  intros Hr. assert (answers_by (λ calls g, ∃ cfg,
    config_new files (Some DEFAULT_CONFIG_PATH) = Ok cfg ∧
    is_local_group (map_upn_to_name cfg name (nw_names w)) = false ∧
    (by_upn cfg (map_name_to_upn cfg name (nw_names w)).1 (map_name_to_upn cfg name (nw_names w)).2 calls g ∨
     ∃ before rest, calls = before ++ rest ∧ by_object_id name rest g)) w (r, w')) as (calls & Hc & Hs & Hg).
  2:{ exists calls. split_and!; [done..|]. intros g Hsg.
      destruct (Hg g Hsg) as (cfg & ? & ? & [[? Hu]|(before & rest & -> & [? (ng & -> & ? & ?)])]);
        exists cfg; split_and!; [done..| |done|done|]; [by left|right; split; [done|]]. by exists before, ng. }
  rewrite <- Hr. unfold group_get_entry_by_name, with_config.
  destruct (should_skip_daemon_call _); [by apply answers_nothing|].
  destruct (config_new files (Some DEFAULT_CONFIG_PATH)) as [cfg|] eqn:Hcf; [|by apply answers_nothing].
  rewrite nm_bind. cbn [fst snd to_name]. destruct (is_local_group _) eqn:Hl; [by apply answers_nothing|].
  rewrite nm_bind. pose proof (to_upn_frame cfg name w) as Hf.
  destruct (to_upn cfg name w) as [upn w1]. destruct Hf as (Hu & Hc1 & _). cbn [fst snd].
  rewrite nm_bind. destruct (client_new_frame (get_socket_path (config cfg)) w1) as (Hc2 & Hn2 & _).
  destruct (client_new _ w1) as [[] w2]; cbn [fst snd] in *; [|apply answers_nothing; [by rewrite Hc2|done]].
  rewrite nm_bind. destruct (group_by_upn_spec cfg upn w2) as [(calls & Hc3 & Hs & Hg) Hne].
  destruct (group_by_upn cfg upn w2) as [ans w3]. simpl in Hc3, Hg, Hne.
  rewrite Hc2, Hc1 in Hc3. rewrite Hn2 in Hg. destruct ans as [| |g]; simpl; [done| |].
  - destruct (group_by_object_id_spec cfg name w3) as (rest & Hc4 & Hs4 & Hg4).
    exists (calls ++ rest). split_and!; [by rewrite Hc4, Hc3, app_assoc|by apply Forall_app|].
    intros g Hsg. exists cfg. split_and!; [done..|]. right. exists calls, rest. auto.
  - exists calls. split_and!; [done..|]. intros g' Hg'. exists cfg. split_and!; [done..|]. left. rewrite <- Hu. auto.
Qed.

End groups.

(** ** The supplementary groups *)

Section initgroups.
Context {X : Ext} {I : IniFile} {G : GeneratedConfig} {PC : PamConfig} {H : Host} {CSV : Csv} {NE : NssEnv}.
Context {V : Type} {DL : DaemonLink V}.
Context (activation_unit : option string) (files : string → option string) (primary limit : Z).

Notation Block := (list (option Z)).

(** The array holds [gs] in its first [start] cells and has at least [size] of them. *)
Definition array_ok (start size : Z) (groups : option Block) (gs : list Z) : Prop :=
  start = Z.of_nat (length gs) ∧ start ≤ size ≤ Z.of_nat (length (default [] groups)) ∧
  take (length gs) (default [] groups) = Some <$> gs.

(** How a call leaves the array when it has gone through [gids]. *)
Definition filled (gids prefix : list Z) (status : Z) (a : InitArgs) : Prop :=
  ∃ added groups size,
    ia_start a = Some (Z.of_nat (length (prefix ++ added))) ∧ ia_size a = Some size ∧
    ia_groupsp a = Some groups ∧ array_ok (Z.of_nat (length (prefix ++ added))) size groups (prefix ++ added) ∧
    added `sublist_of` gids ∧ NoDup added ∧ (∀ g, g ∈ added → g ≠ primary ∧ g ∉ prefix) ∧
    (0 < limit → added ≠ [] → Z.of_nat (length (prefix ++ added)) ≤ limit) ∧
    ((status = NSS_STATUS_SUCCESS ∧
      ((∀ g, g ∈ gids → g = primary ∨ g ∈ prefix ++ added) ∨
       (0 < limit ∧ limit ≤ Z.of_nat (length (prefix ++ added))))) ∨
     (status = NSS_STATUS_TRYAGAIN ∧ ia_errnop a = Some ENOMEM)).

Lemma already_present_spec gid gs (cells : Block) :
  take (length gs) cells = Some <$> gs →
  already_present gid cells (length gs) = Some (bool_decide (gid ∈ gs)).
Proof.
  revert cells. induction gs as [|g gs IH]; intros cells Ht; simpl; [by destruct cells|].
  destruct cells as [|c cells]; [done|]. simpl in Ht. injection Ht as -> Ht. simpl. rewrite (IH _ Ht).
  destruct (Z.eqb_spec g gid) as [->|Hne]; f_equal; symmetry;
    [apply bool_decide_eq_true_2; set_solver|apply bool_decide_ext; set_solver].
Qed.

Lemma filled_skip gid gids prefix status a :
  gid = primary ∨ gid ∈ prefix → filled gids prefix status a → filled (gid :: gids) prefix status a.
Proof.
  intros Hs (added & groups & size & ? & ? & ? & ? & ? & ? & ? & ? & Hst).
  exists added, groups, size. split_and!; try done; [by constructor|].
  destruct Hst as [[-> Hc]|]; [left|by right]. split; [done|]. set_solver.
Qed.

Lemma filled_add gid gids prefix status a :
  gid ≠ primary → gid ∉ prefix → (0 < limit → Z.of_nat (length prefix) < limit) →
  filled gids (prefix ++ [gid]) status a → filled (gid :: gids) prefix status a.
Proof.
  intros Hp Hg Hl (added & groups & size & Hst & Hsz & Hgp & Ha & Hsub & Hnd & Hfr & Hlim & Hstatus).
  rewrite <- app_assoc in *. simpl in *. exists (gid :: added), groups, size.
  split_and!; [done..| | | | |].
  - by constructor.
  - constructor; [|done]. intros Hin. apply Hfr in Hin as [_ Hin]. set_solver.
  - intros g [->|Hin]%elem_of_cons; [done|]. apply Hfr in Hin. set_solver.
  - intros H0 _. destruct added; [|by apply Hlim]. rewrite length_app. simpl. specialize (Hl H0). lia.
  - destruct Hstatus as [[-> Hc]|]; [left|by right]. split; [done|]. set_solver.
Qed.

Lemma filled_now status a size groups gids prefix :
  array_ok (Z.of_nat (length prefix)) size groups prefix →
  ia_start a = Some (Z.of_nat (length prefix)) → ia_size a = Some size → ia_groupsp a = Some groups →
  (status = NSS_STATUS_SUCCESS ∧
     (gids = [] ∨ (0 < limit ∧ limit ≤ Z.of_nat (length prefix)))) ∨
  (status = NSS_STATUS_TRYAGAIN ∧ ia_errnop a = Some ENOMEM) →
  filled gids prefix status a.
Proof.
  intros Ha Hst Hsz Hgp Hs. exists [], groups, size. rewrite app_nil_r.
  split_and!; [done..|apply sublist_nil_l|constructor|set_solver|done|].
  destruct Hs as [[-> [->|?]]|]; [left; split; [done|]; left; set_solver|left; auto|by right].
Qed.

Lemma array_ok_write gid size groups prefix :
  array_ok (Z.of_nat (length prefix)) size groups prefix → Z.of_nat (length prefix) < size →
  array_ok (Z.of_nat (length (prefix ++ [gid]))) size
    (Some (<[length prefix := Some gid]> (default [] groups))) (prefix ++ [gid]).
Proof.
  intros (_ & Hsz & Ht) Hlt. simpl. unfold array_ok. simpl. rewrite length_insert, length_app. simpl.
  split_and!; [done|lia|lia|]. rewrite Nat.add_1_r, fmap_app. simpl.
  erewrite take_S_r by (rewrite list_lookup_insert_eq; [done|lia]).
  by rewrite take_insert_ge, Ht by lia.
Qed.

Lemma array_ok_grow n size groups prefix :
  array_ok (Z.of_nat (length prefix)) size groups prefix → Z.of_nat (length prefix) ≤ n →
  array_ok (Z.of_nat (length prefix)) n (Some (realloc_cells (Z.to_nat n) groups)) prefix.
Proof.
  intros (_ & Hsz & Ht) Hn. unfold array_ok, realloc_cells. simpl.
  rewrite length_take, length_app, length_replicate. split_and!; [done|lia|lia|].
  rewrite take_take, Nat.min_l, take_app_le by lia. done.
Qed.

Lemma grown_size_spec n :
  0 ≤ n → (0 < limit → n < limit) →
  (∀ b, alloc_bytes (grown_size limit n) = Some b → n < grown_size limit n) ∧
  (n < 2 ^ 60 → alloc_bytes (grown_size limit n) ≠ None).
Proof.
  intros Hn Hl. unfold alloc_bytes, grown_size, saturating_double, i64_max, u64_max.
  split; [intros b|intros Hs]; repeat case_match; try done;
    repeat match goal with
    | E : (_ && _) = true |- _ => apply andb_true_iff in E as [?%Z.ltb_lt ?%Z.leb_le]
    | E : (_ && _) = false |- _ => apply andb_false_iff in E as [?%Z.ltb_ge|?%Z.leb_gt]
    | E : (_ <? _) = true |- _ => apply Z.ltb_lt in E
    | E : (_ <? _) = false |- _ => apply Z.ltb_ge in E
    end; lia.
Qed.

(** Every call that got a valid array leaves it filled, without a stray access; it
    reports a lack of memory only if an allocation fails or the array is huge. *)
Definition no_shortage (n : Z) : Prop := (∀ k, realloc_ok k = true) ∧ n < 2 ^ 60.

Definition completes (gids prefix : list Z) (o : option (Z * InitArgs)) : Prop :=
  ∃ status a', o = Some (status, a') ∧ filled gids prefix status a' ∧
    (no_shortage (Z.of_nat (length prefix + length gids)) → status = NSS_STATUS_SUCCESS).

Definition fills (gids : list Z) : Prop :=
  ∀ prefix size groups a (w : NssWorld V),
    array_ok (Z.of_nat (length prefix)) size groups prefix →
    ia_size a = Some size → ia_groupsp a = Some groups →
    completes gids prefix (add_gids primary limit gids (Z.of_nat (length prefix)) size groups a w).1.

Lemma completes_skip gid gids prefix o :
  gid = primary ∨ gid ∈ prefix → completes gids prefix o → completes (gid :: gids) prefix o.
Proof.
  intros Hs (st & a' & Hr & Hf & Hl). exists st, a'. split_and!; [done|by apply filled_skip|].
  intros [? ?]. apply Hl. split; [done|]. simpl in *. lia.
Qed.

Lemma completes_write gid gids prefix size groups a (w : NssWorld V) :
  fills gids → gid ≠ primary → gid ∉ prefix → (0 < limit → Z.of_nat (length prefix) < limit) →
  array_ok (Z.of_nat (length prefix)) size groups prefix → Z.of_nat (length prefix) < size → ia_size a = Some size →
  completes (gid :: gids) prefix
    ((if (length prefix <? length (default [] groups))%nat then
        let b := <[length prefix := Some gid]> (default [] groups) in
        add_gids primary limit gids (Z.of_nat (length prefix) + 1) size (Some b) (store_cell b a)
      else mret None) w).1.
Proof.
  intros IH Hp Hin Hlt Ha Hs Hsz.
  destruct (Nat.ltb_spec (length prefix) (length (default [] groups))) as [_|Hge];
    [|destruct Ha as (_ & ? & _); lia].
  pose proof (array_ok_write gid size groups prefix Ha Hs) as Ha2.
  assert (Z.of_nat (length (prefix ++ [gid])) = Z.of_nat (length prefix) + 1) as Hlen
    by (rewrite length_app; simpl; lia).
  edestruct (IH (prefix ++ [gid]) size _ (store_cell (<[length prefix := Some gid]> (default [] groups)) a) w Ha2)
    as (st & a' & Hr & Hf & Hl); [done..|]. rewrite Hlen in Hr. exists st, a'.
  split_and!; [done|by apply filled_add|]. intros [? ?]. apply Hl. split; [done|].
  rewrite length_app. simpl in *. lia.
Qed.

Lemma add_gids_spec gids : fills gids.
Proof.
  induction gids as [|gid gids IH]; intros prefix size groups a w Ha Hsz Hgp; simpl.
  { eexists _, _. split; [done|]. split; [|done]. eapply filled_now; eauto. }
  destruct (Z.eqb_spec gid primary) as [->|Hp]; [by apply completes_skip; [left|apply IH]|].
  pose proof Ha as (_ & Hb & Ht). rewrite Nat2Z.id, (already_present_spec gid prefix _ Ht).
  destruct (bool_decide_reflect (gid ∈ prefix)) as [Hin|Hin]; [by apply completes_skip; [right|apply IH]|].
  destruct (_ && _) eqn:Hlim.
  { apply andb_true_iff in Hlim as [?%Z.ltb_lt ?%Z.leb_le].
    eexists _, _. split; [done|]. split; [|done]. eapply filled_now; eauto. }
  assert (0 < limit → Z.of_nat (length prefix) < limit) as Hlt.
  { intros ?. apply andb_false_iff in Hlim as [?%Z.ltb_ge|?%Z.leb_gt]; lia. }
  destruct (Z.leb_spec size (Z.of_nat (length prefix))) as [Hfull|Hroom]; [|by apply completes_write].
  assert (size = Z.of_nat (length prefix)) as -> by lia.
  destruct (grown_size_spec (Z.of_nat (length prefix)) ltac:(lia) Hlt) as [Hgrow Hok].
  assert (filled (gid :: gids) prefix NSS_STATUS_TRYAGAIN
            (set_start (Z.of_nat (length prefix)) (set_errno ENOMEM a))) as Htry by (eapply filled_now; eauto).
  destruct (alloc_bytes _) as [bts|] eqn:Hal.
  2:{ eexists _, _. split_and!; [done|done|]. intros [_ ?]. exfalso. apply Hok; [lia|done]. }
  unfold mbind, NM_bind, next_event. destruct (realloc_ok _) eqn:Hre; simpl.
  - apply (completes_write gid gids prefix _
             (Some (realloc_cells (Z.to_nat (grown_size limit (Z.of_nat (length prefix)))) groups)));
      try done; [|by eapply Hgrow]. apply (array_ok_grow _ _ _ _ Ha).
    specialize (Hgrow _ eq_refl). lia.
  - eexists _, _. split_and!; [done|done|]. intros [Hn _]. by rewrite Hn in Hre.
Qed.

(** The account the daemon is asked about for a user name. *)
Definition initgroups_account (cfg : HimmelblauConfig) (user : string) (names : MappingFile) : string :=
  default (map_name_to_upn cfg user names).1 (get_upn_from_local (user_map_of files cfg) user).

Lemma ask_initgroups_spec cfg acc (w : NssWorld V) :
  let '(r, w') := ask_initgroups cfg acc w in
  match r with
  | Ok gids => nw_calls w' = nw_calls w ++ [(ClientRequest_NssInitgroups acc,
                                             Ok (ClientResponse_NssInitgroups (Some gids)))]
  | Err status => status = NSS_STATUS_UNAVAIL ∨ status = NSS_STATUS_NOTFOUND
  end.
Proof.
  unfold ask_initgroups. rewrite nm_bind.
  destruct (client_new_frame (get_socket_path (config cfg)) w) as [Hc _].
  destruct (client_new _ w) as [[] w1]; cbn [fst snd] in *; [|by left]. rewrite nm_bind.
  pose proof (nss_call_frame (ClientRequest_NssInitgroups acc) (get_unix_sock_timeout cfg) w1) as Hf.
  destruct (nss_call _ _ w1) as [r w2]. destruct Hf as [Hf _]. simpl. rewrite <- Hc.
  destruct r as [[]|]; auto. by destruct l; [|right].
Qed.

Lemma initgroups_request_spec cfg user (w : NssWorld V) :
  let '(r, w') := initgroups_request files cfg user w in
  match r with
  | Ok gids => nw_calls w' = nw_calls w ++ [(ClientRequest_NssInitgroups (initgroups_account cfg user (nw_names w)),
                                             Ok (ClientResponse_NssInitgroups (Some gids)))]
  | Err status => status = NSS_STATUS_UNAVAIL ∨ status = NSS_STATUS_NOTFOUND
  end.
Proof.
  unfold initgroups_request, initgroups_account. rewrite nm_bind.
  destruct (get_upn_from_local _ user) as [upn|]; simpl; [apply ask_initgroups_spec|].
  pose proof (to_upn_frame cfg user w) as Hf. destruct (to_upn cfg user w) as [upn w1].
  destruct Hf as (Hu & Hc & _). rewrite <- Hu, <- Hc. apply ask_initgroups_spec.
Qed.

Lemma add_gids_calls gids start size groups a (w : NssWorld V) :
  nw_calls (add_gids primary limit gids start size groups a w).2 = nw_calls w.
Proof.
  revert start size groups a w. induction gids as [|gid gids IH]; intros start size groups a w; simpl; [done|].
  unfold mbind, NM_bind, next_event. repeat (case_match; simpl); rewrite ?IH; done.
Qed.

(** C32. [initgroups_dyn] on an array that glibc set up (its first [start] cells written,
    [size] cells allocated) never reads or writes outside it, and never reads a cell it
    did not fill. The array keeps its contents and gains groups of the daemon's answer for
    the account only, in order, without duplicates and without the primary one; on
    success all of them are there or the limit is reached; the limit is not exceeded;
    the counters glibc gets back describe the array; and without a failing allocation
    the call is not asked to be repeated. *)
Theorem initgroups_exact a user prefix size groups (w : NssWorld V) :
  ia_user a = Some (Some user) → ia_start a = Some (Z.of_nat (length prefix)) → ia_size a = Some size →
  ia_groupsp a = Some groups → ia_errnop a ≠ None →
  array_ok (Z.of_nat (length prefix)) size groups prefix →
  ∃ status a' w', initgroups_dyn activation_unit files primary limit a w = (Some (status, a'), w') ∧
    ((a' = a ∧ (status = NSS_STATUS_UNAVAIL ∨ status = NSS_STATUS_NOTFOUND)) ∨
     ∃ cfg gids, config_new files (Some DEFAULT_CONFIG_PATH) = Ok cfg ∧
       (ClientRequest_NssInitgroups (initgroups_account cfg user (nw_names w)),
        Ok (ClientResponse_NssInitgroups (Some gids))) ∈ nw_calls w' ∧
       filled gids prefix status a' ∧
       (no_shortage (Z.of_nat (length prefix + length gids)) → status = NSS_STATUS_SUCCESS)).
Proof.
  intros Hu Hst Hsz Hgp He Ha. unfold initgroups_dyn. rewrite Hu, Hst, Hsz, Hgp.
  destruct (ia_errnop a); [|done]. unfold with_config.
  destruct (should_skip_daemon_call _); [eexists _, _, _; split; [done|by left; auto]|].
  destruct (config_new _ _) as [cfg|]; [|eexists _, _, _; split; [done|by left; auto]].
  rewrite nm_bind. pose proof (initgroups_request_spec cfg user w) as Hs.
  destruct (initgroups_request files cfg user w) as [[gids|status] w1]; simpl.
  - unfold fill_groups. pose proof Ha as (_ & Hb & _).
    replace (_ || _) with false.
    2:{ symmetry. repeat rewrite orb_false_iff. repeat rewrite Z.ltb_ge. split_and!; [lia..|].
        destruct groups; [by rewrite andb_false_r|]. simpl in Hb. rewrite andb_true_r. apply Z.ltb_ge. lia. }
    destruct (add_gids_spec gids prefix size groups a w1 Ha Hsz Hgp) as (st & a' & Hr & Hf & Hl).
    destruct (add_gids _ _ _ _ _ _ _ w1) as [o w'] eqn:Hadd. simpl in Hr. subst o.
    exists st, a', w'. split; [done|]. right. exists cfg, gids. split_and!; [done| |done|done].
    pose proof (add_gids_calls gids (Z.of_nat (length prefix)) size groups a w1) as Hcalls.
    rewrite Hadd in Hcalls. simpl in Hcalls. rewrite Hcalls, Hs. set_solver.
  - exists status, a, w1. split; [done|]. by left.
Qed.

End initgroups.

(** ** Users without the daemon *)

Section offline.
Context {X : Ext} {I : IniFile} {G : GeneratedConfig} {PC : PamConfig} {H : Host} {CSV : Csv} {NE : NssEnv}.
Context {V : Type} {DL : DaemonLink V}.
Context (activation_unit : option string) (files : string → option string).

Definition open_calm : OpenFaults :=
  {| parent_fault := false; open_fault := false; create_fault := false; chmod_fault := false |}.

(** A process of root on a host whose cache can be opened and written. *)
Definition healthy : Prop :=
  running_as_root = true ∧ (∀ n, nss_open_faults n = open_calm) ∧ (∀ n, nss_insert_fault n = false).

Definition user_rows (w : NssWorld V) : list NssRow := default [] (sql_rows (nw_users w)).

Lemma try_nss_cache_healthy (w : NssWorld V) :
  healthy → nw_users w ≠ Some None →
  let '(c, w') := try_nss_cache w in
  c = Some rw_conn ∧ nw_users w' = Some (Some (user_rows w)) ∧ nw_daemon w' = nw_daemon w ∧
  nw_names w' = nw_names w ∧ nw_tick w' = S (nw_tick w) ∧ nw_calls w' = nw_calls w.
Proof.
  intros (Hr & Ho & _) Hw. unfold try_nss_cache. rewrite nm_bind. unfold next_event, users_io. simpl.
  rewrite Hr, Ho. unfold NssCache_new, open_cache, user_rows.
  destruct (nw_users w) as [[rows|]|]; simpl; [done|congruence|done].
Qed.

(** The entry an NSS user is answered with. *)
Definition shown (cfg : HimmelblauConfig) (local : option string) (names : MappingFile) (nu : NssUser) : Passwd :=
  set_pwd_name (default (map_upn_to_name cfg (nu_name nu) names) local) (passwd_from_nssuser nu).

Lemma present_spec cfg local nu (w : NssWorld V) :
  present cfg local nu w = (Success (shown cfg local (nw_names w) nu), w).
Proof. by destruct local. Qed.

Lemma fetch_cached_user_spec cfg id ret local (w : NssWorld V) :
  (fetch_cached_user (Some rw_conn) cfg id ret local w).1 =
  match nss_get_user (nss_now (nw_tick w)) rw_conn id (nw_users w) with
  | Some nu => Success (shown cfg local (nw_names w) nu)
  | None => ret
  end.
Proof.
  unfold fetch_cached_user. rewrite !nm_bind. simpl.
  destruct (nss_get_user _ _ _ _) as [nu|]; [by rewrite present_spec|done].
Qed.

(** A lookup the daemon answered with a user leaves that user in the cache. *)
Lemma lookup_online cfg req id local nu (w w1 : NssWorld V) r :
  healthy → nw_users w ≠ Some None → lookup_account cfg req id local w = (r, w1) →
  nw_calls w1 = nw_calls w ++ [(req, Ok (ClientResponse_NssAccount (Some nu)))] →
  r = Success (shown cfg local (nw_names w) nu) ∧ nw_names w1 = nw_names w ∧
  nw_users w1 = nss_insert_user false (nss_now (S (nw_tick w))) rw_conn nu (Some (Some (user_rows w))).
Proof.
  intros Hh Hw. unfold lookup_account. rewrite nm_bind. pose proof (try_nss_cache_healthy w Hh Hw) as Hc.
  destruct (try_nss_cache w) as [c w2]. destruct Hc as (-> & Hu & _ & Hn & Ht & Hcalls). cbn [fst snd].
  rewrite nm_bind. destruct (client_new_frame (get_socket_path (config cfg)) w2) as (Hc3 & Hn3 & Hu3 & Ht3).
  destruct (client_new _ w2) as [[] w3]; cbn [fst snd] in *.
  2:{ intros Hr Hl. exfalso. revert Hr Hl. unfold fetch_cached_user. rewrite !nm_bind. simpl.
      destruct (nss_get_user _ _ _ _); rewrite ?present_spec; intros [= _ <-]; simpl; rewrite Hc3, Hcalls;
        intros Hl%(f_equal length); rewrite length_app in Hl; simpl in Hl; lia. }
  rewrite nm_bind. pose proof (nss_call_frame req (get_unix_sock_timeout cfg) w3) as Hf.
  destruct (nss_call _ _ w3) as [reply w4]. destruct Hf as (Hc4 & Hn4 & Hu4 & Ht4). cbn [fst snd].
  rewrite Hc3, Hcalls in Hc4. intros Hr Hl.
  assert (reply = Ok (ClientResponse_NssAccount (Some nu))) as ->.
  { assert (nw_calls w1 = nw_calls w4) as E.
    { revert Hr. unfold account_answer, fetch_cached_user, insert_cached_user.
      repeat case_match; rewrite ?nm_bind; simpl; rewrite ?present_spec; repeat case_match;
        rewrite ?present_spec; by intros [= _ <-]. }
    rewrite E, Hc4 in Hl. apply (inj (app _)) in Hl. by injection Hl. }
  revert Hr. unfold account_answer, insert_cached_user. rewrite !nm_bind. simpl. rewrite present_spec. simpl.
  destruct Hh as (_ & _ & Hi). rewrite Hi, Hu4, Hu3, Hu, Ht4, Ht3, Ht, Hn4, Hn3, Hn.
  intros [= <- <-]. simpl. rewrite ?Hn4, ?Hn3. done.
Qed.

(** A lookup while the daemon cannot be reached is answered from the cache. *)
Lemma lookup_offline cfg req id local (w : NssWorld V) :
  healthy → nw_users w ≠ Some None → (connect (get_socket_path (config cfg)) (nw_daemon w)).1 = false →
  (lookup_account cfg req id local w).1 =
  match nss_get_user (nss_now (S (nw_tick w))) rw_conn id (Some (Some (user_rows w))) with
  | Some nu => Success (shown cfg local (nw_names w) nu)
  | None => Unavail
  end.
Proof.
  intros Hh Hw Hd. unfold lookup_account. rewrite nm_bind. pose proof (try_nss_cache_healthy w Hh Hw) as Hc.
  destruct (try_nss_cache w) as [c w2]. destruct Hc as (-> & Hu & Hv & Hn & Ht & _). cbn [fst snd].
  rewrite nm_bind. destruct (client_new_frame (get_socket_path (config cfg)) w2) as (_ & Hn3 & Hu3 & Ht3).
  rewrite <- Hv in Hd. assert ((client_new (get_socket_path (config cfg)) w2).1 = false) as ->.
  { unfold client_new. by destruct (connect _ _) as [[] ?]. }
  rewrite fetch_cached_user_spec, Hu3, Hu, Ht3, Ht, Hn3, Hn. done.
Qed.

Lemma account_of_name_frame cfg name (w : NssWorld V) :
  let '((upn, local), w') := account_of_name files cfg name w in
  nw_users w' = nw_users w ∧ nw_tick w' = nw_tick w ∧ nw_daemon w' = nw_daemon w ∧ nw_calls w' = nw_calls w ∧
  (get_name_mapping_script (config cfg) = None → nw_names w' = nw_names w).
Proof.
  unfold account_of_name. destruct (get_upn_from_local _ _); [done|]. destruct (get_local_from_upn _ _); [done|].
  rewrite nm_bind. pose proof (to_upn_frame cfg name w) as Hf. destruct (to_upn cfg name w) as [upn w'].
  destruct Hf as (Hn & ? & ? & ? & ?). simpl. split_and!; [done..|]. intros Hs.
  revert Hn. unfold map_name_to_upn. rewrite Hs. case_match; [by intros [= _ ->]|].
  destruct (contains_char AT name); by intros [= _ ->].
Qed.

(** The account of a name depends on the user map, the configuration and the script. *)
Lemma account_of_name_stable cfg name (w w' : NssWorld V) :
  (account_of_name files cfg name w).1 = (account_of_name files cfg name w').1.
Proof.
  unfold account_of_name. repeat case_match; try done. rewrite !nm_bind. simpl. f_equal.
  unfold to_upn, map_name_to_upn. repeat case_match; simplify_eq/=; done || congruence.
Qed.

(** A user the daemon answered for stays resolvable without it: in a process of root
    whose cache works, the same lookup by name while the daemon cannot be reached gives
    the same entry for 48 hours and [Unavail] afterwards; only the name shown may differ,
    and not unless a mapping script is configured. The name must be the one the daemon
    spells, since the cache compares names byte by byte. *)
Theorem nss_offline_roundtrip name cfg local nu p (w w1 w2 : NssWorld V) :
  healthy → should_skip_daemon_call activation_unit = false →
  config_new files (Some DEFAULT_CONFIG_PATH) = Ok cfg → nw_users w ≠ Some None →
  passwd_get_entry_by_name activation_unit files name w = (Success p, w1) →
  nw_calls w1 = nw_calls w ++
    [(ClientRequest_NssAccountByName (nu_name nu), Ok (ClientResponse_NssAccount (Some nu)))] →
  (account_of_name files cfg name w).1 = (nu_name nu, local) → nss_in_range nu = true →
  nw_users w2 = nw_users w1 → nw_names w2 = nw_names w1 →
  (connect (get_socket_path (config cfg)) (nw_daemon w2)).1 = false →
  ∃ p', (passwd_get_entry_by_name activation_unit files name w2).1 =
    (if nss_now (S (nw_tick w2)) - nss_now (S (nw_tick w)) <=? 48 * 3600 then Success p' else Unavail) ∧
    set_pwd_name (pwd_name p) p' = p ∧
    (local ≠ None ∨ get_name_mapping_script (config cfg) = None → p' = p).
Proof.
  intros Hh Hskip Hcfg Hw Hon Hcalls Hacc Hrange Hu2 Hn2 Hd2. unfold passwd_get_entry_by_name, with_config in *.
  rewrite Hskip, Hcfg in *. rewrite nm_bind in Hon. rewrite nm_bind.
  pose proof (account_of_name_frame cfg name w) as F. pose proof (account_of_name_frame cfg name w2) as F2.
  pose proof (account_of_name_stable cfg name w w2) as Hst. rewrite Hacc in Hst.
  destruct (account_of_name files cfg name w) as [[u l] wa]. destruct (account_of_name files cfg name w2) as [[u2 l2] wb].
  simpl in Hacc, Hst. injection Hacc as -> ->. injection Hst as <- <-. cbn [fst snd] in *.
  destruct F as (Fu & Ft & _ & Fc & Fn). destruct F2 as (Fu2 & Ft2 & Fd2 & _ & Fn2).
  rewrite <- Fc in Hcalls. rewrite <- Fu in Hw.
  destruct (lookup_online _ _ _ _ _ _ _ _ Hh Hw Hon Hcalls) as ([= ->] & Hna & Hua).
  rewrite lookup_offline; [|done|by rewrite Fu2, Hu2, Hua|by rewrite Fd2].
  exists (shown cfg local (nw_names wb) nu). split_and!; [|done|].
  - unfold user_rows at 1. rewrite Fu2, Hu2, Hua.
    pose proof (nss_get_inserted rw_conn nu (user_rows wa) (nss_now (S (nw_tick wa))) (nss_now (S (nw_tick wb)))
      eq_refl eq_refl Hrange) as Hg.
    unfold nss_insert_user in *. simpl in *. rewrite Hg, Ft, Ft2. clear.
    match goal with |- context [?a <=? ?b] => by destruct (a <=? b) end.
  - intros Hsame. unfold shown. destruct local as [l|]; [done|]. destruct Hsame as [Hsame|Hs]; [done|].
    by rewrite (Fn2 Hs), Hn2, Hna.
Qed.

End offline.

(** ** Witnesses *)

(** A process whose clock counts its events. *)
#[export] Instance nss_process : NssEnv := {|
  nss_now n := Z.of_nat n;
  nss_insert_fault _ := false;
  nss_open_faults _ := open_calm;
  realloc_ok _ := true;
  etc_group_file := None;
  uuid_parses s := (String.length s =? 36)%nat
|}.

(** A daemon that gives prepared responses, until there are none. *)
Definition ending_daemon : DaemonLink (list ClientResponse) := {|
  connect _ v := (match v with [] => false | _ => true end, v);
  daemon_call _ _ v := match v with [] => (Err ClientError_Read, []) | r :: v => (Ok r, v) end;
  daemon_forget _ v := (Ok tt, v)
|}.
#[local] Existing Instance ending_daemon.

Definition nss_world (replies : list ClientResponse) : NssWorld (list ClientResponse) :=
  {| nw_daemon := replies; nw_users := None; nw_names := None; nw_tick := 0; nw_calls := [] |}.

Notation no_conf := (λ _ : string, None : option string).

Definition wheel : NssGroup := {| ng_name := "wheel"; ng_gid := 700; ng_members := [] |}.
Definition wheel_id : string := "6f1b1f4e-2f0f-4c8e-9d37-0c5a3f0e8d11".

Notation wheel_lookup :=
  (group_get_entry_by_name (DL := ending_daemon) None no_conf wheel_id (nss_world [ClientResponse_NssGroup (Some wheel)])).

(** The group is found by its object id and not by its name. *)
Lemma group_by_name_guarded_witness :
  fst wheel_lookup = Success (group_from_nssgroup wheel) ∧
  (group_get_entry_by_name (DL := ending_daemon) None no_conf "wheel"
     (nss_world [ClientResponse_NssGroup (Some wheel)])).1 = NotFound ∧
  ∃ calls, nw_calls (snd wheel_lookup) = [] ++ calls ∧ Forall (λ c, safe_name c.1) calls.
Proof.
  split; [reflexivity|]. split; [reflexivity|].
  destruct (group_by_name_guarded (DL := ending_daemon) None no_conf wheel_id
    (nss_world [ClientResponse_NssGroup (Some wheel)]) (fst wheel_lookup) (snd wheel_lookup)
    (surjective_pairing _))
    as (calls & Hc & Hs & _). exists calls. split; [exact Hc|exact Hs].
Defined.

(** An array with one group and room for one more; the answer repeats a gid and the
    primary one. *)
Definition sample_args : InitArgs := {|
  ia_user := Some (Some "alice@example.com"); ia_start := Some 1; ia_size := Some 2;
  ia_groupsp := Some (Some [Some 5; None]); ia_errnop := Some 0
|}.

Notation sample_initgroups :=
  (initgroups_dyn (DL := ending_daemon) None no_conf 100 0 sample_args
     (nss_world [ClientResponse_NssInitgroups (Some [100; 7; 5; 7; 8])])).

Lemma initgroups_exact_witness :
  (∃ b, fst sample_initgroups = Some (NSS_STATUS_SUCCESS,
     {| ia_user := Some (Some "alice@example.com"); ia_start := Some 3; ia_size := Some 16;
        ia_groupsp := Some (Some b); ia_errnop := Some 0 |}) ∧ take 3 b = [Some 5; Some 7; Some 8]) ∧
  ∃ status a' w', sample_initgroups = (Some (status, a'), w').
Proof.
  split; [eexists; split; reflexivity|].
  destruct (initgroups_exact (DL := ending_daemon) None no_conf 100 0 sample_args "alice@example.com" [5] 2
    (Some [Some 5; None]) (nss_world [ClientResponse_NssInitgroups (Some [100; 7; 5; 7; 8])]))
    as (status & a' & w' & Hr & _); [reflexivity..|discriminate|repeat split; simpl; lia|].
  exists status, a', w'. exact Hr.
Defined.

Definition alice_entry : NssUser :=
  {| nu_name := "alice@example.com"; nu_uid := 3000; nu_gid := 3000; nu_gecos := "Alice";
     nu_homedir := "/home/alice"; nu_shell := "/bin/bash" |}.

Notation alice_lookup :=
  (passwd_get_entry_by_name (DL := ending_daemon) None no_conf "alice@example.com"
     (nss_world [ClientResponse_NssAccount (Some alice_entry)])).

Lemma nss_offline_roundtrip_witness :
  ∃ p', (passwd_get_entry_by_name (DL := ending_daemon) None no_conf "alice@example.com" (snd alice_lookup)).1
    = Success p' ∧ p' = passwd_from_nssuser alice_entry.
Proof.
  destruct (nss_offline_roundtrip (DL := ending_daemon) None no_conf "alice@example.com"
    {| config := ini_new; filename := DEFAULT_CONFIG_PATH |} None alice_entry (passwd_from_nssuser alice_entry)
    (nss_world [ClientResponse_NssAccount (Some alice_entry)]) (snd alice_lookup) (snd alice_lookup))
    as (p' & Hr & _ & Hp); try reflexivity; [done..|]. exists p'. split; [exact Hr|].
  apply Hp. by right.
Defined.
