(* ===== verification/Entra.v ===== *)
(** * The Entra ID provider: state, initialisation and tokens

    [src/common/src/idprovider/himmelblau.rs]: how a provider is initialised and probes
    the network, and how the tokens of the cache are built from what the directory
    answers ([token_validate], [user_token_from_unix_user_token],
    [group_token_from_directory_object]), with the credentials of a confidential client
    ([src/common/src/tpm.rs]). A computation [EM] runs in an [EState]: the state of
    [Hello] (tokens, PIN counters, connection state, key store, TPM), whether the provider
    is initialised, the id map, the configuration, and the network and services behind
    the class [EntraEnv]. *)
From stdpp Require Import base gmap strings list fin_maps.
From Stdlib Require Import ZArith Lia Ascii.
From S2P Require Import Prelude Proto Interface Db Runtime Caches Idmap UserMap Config Hello Pam.

Open Scope rust_scope.

(** ** Data of the crate [himmelblau] *)

Record ErrorResponse := { error_codes : list Z; error_description : string }.

(** [MsalError]; the variants without a name here are told apart by their text only. *)
Inductive MsalError :=
| MsalError_InvalidResponse
| MsalError_AcquireTokenFailed (resp : ErrorResponse)
| MsalError_RequestFailed
| MsalError_AuthTypeUnsupported
| MsalError_TPMFail
| MsalError_URLFormatFailed
| MsalError_DeviceEnrollmentFail
| MsalError_CryptoFail
| MsalError_ConfigError
| MsalError_MFAPollContinue
| MsalError_AADSTSError (code : Z) (text : string)
| MsalError_Missing
| MsalError_ChangePassword
| MsalError_PasswordRequired
| MsalError_ConsentRequested
| MsalError_AuthCodeReceived
| MsalError_MFARequired
| MsalError_Other.

Record DirectoryObject := {
  do_id : string; do_display_name : option string; do_extension_attrs : gmap string string
}.

Record UserObject := { uo_id : string; uo_displayname : string }.

(** Getters of [config_gen.rs] that the provider calls. *)
Class EntraConfig `{I : IniFile} : Type := {
  get_enable_hello : Ini → bool;
  get_allow_remote_hello : Ini → bool;
  get_allow_console_password_only : Ini → bool;
  get_enable_experimental_mfa : Ini → bool;
  get_enable_experimental_passwordless_fido : Ini → bool;
  get_enable_passwordless_security_key : Ini → bool;
  get_enable_passwordless_qr_bluetooth : Ini → bool
}.

(** The crates and services the provider uses, with their state in [U]: [uuid]; the
    tokens, the graph client and the client applications of [himmelblau]; the probe over
    HTTP; [getpwnam]; the files it reads; and the TPM under the machine key. *)
Class EntraEnv `{X : Ext} `{C : Crypto} (U : Type) : Type := {
  uuid_parse : string → option Uuid;
  uuid_new_v4 : U → Uuid * U;
  token_uuid : UnixUserToken → option Uuid;
  token_access : UnixUserToken → option string;
  token_display : UnixUserToken → string;
  token_amr_ngcmfa : UnixUserToken → option bool;
  token_type : UnixUserToken → string;
  graph_tenant_id : U → option string * U;
  graph_authority_host : U → option string * U;
  graph_graph_url : U → option string * U;
  request_user_groups_by_user_id : string → string → U → option (list DirectoryObject) * U;
  fetch_user_extension_attributes : string → string → list string → U → option (gmap string string) * U;
  request_user : string → string → U → option UserObject * U;
  client_set_authority : string → U → bool * U;
  probe_client : Z → U → bool * U;
  http_get_success : string → U → bool * U;
  UserInit : Type;
  init_exists : UserInit → bool;
  init_passwordless : UserInit → bool;
  check_user_exists : string → list AuthOption → U → result UserInit MsalError * U;
  resolve_nametosid : string → MachineKey → Hsm → U → option string * Hsm * U;
  exchange_prt_for_access_token : SealedData → list string → option string → option string → option string →
    MachineKey → Hsm → U → result UnixUserToken MsalError * Hsm * U;
  exchange_prt_for_prt : SealedData → MachineKey → Hsm → U → result SealedData MsalError * Hsm * U;
  entra_public_client : Z → list IpVersion → U → bool * U;
  public_token_by_refresh_token : string → list string → U → result UnixUserToken MsalError * U;
  ClientCredential : Type;
  credential_from_secret : string → ClientCredential;
  LoadableRsaKey : Type;
  RsaKey : Type;
  Certificate : Type;
  LoadableEnrolmentKey : Type;
  rsa_key_from_slice : bytes → option LoadableRsaKey;
  enrolment_key_from_slice : bytes → option LoadableEnrolmentKey;
  rsa_key_load : MachineKey → LoadableRsaKey → Hsm → option RsaKey * Hsm;
  certificate_from_der : bytes → option Certificate;
  certificate_common_name : Certificate → option string;
  credential_from_certificate : Certificate → RsaKey → ClientCredential;
  secret_json : string → option (option string * option string);
  machine_unseal : MachineKey → SealedData → Hsm → option bytes * Hsm;
  confidential_client : string → string → ClientCredential → Z → list IpVersion → U → bool * U;
  confidential_token : list string → Hsm → U → option string * Hsm * U;
  fetch_cloud_tgt : SealedData → MachineKey → Hsm → U → option KerberosCredentials * Hsm * U;
  fetch_ad_tgt : SealedData → MachineKey → Hsm → U → option KerberosCredentials * Hsm * U;
  prt_top_level_names : SealedData → MachineKey → Hsm → U → option string * Hsm * U;
  prt_sso_cookie : SealedData → option string → MachineKey → Hsm → U → option string * Hsm * U;
  thread_sleep : Z → U → U;
  local_passwd : string → option (Z * Z);
  id_cache_faults : OpenFaults;
  id_cache_file : U → DbFile StaticTables;
  read_text_file : string → U → option string
}.

Definition CONSENT_REQUIRED : Z := 65002.
Definition PASSWORD_RESET_REGISTRATION_REQUIRED : Z := 50125.

Definition SSPR_MSG : string :=
  "Password reset registration required. Complete setup at https://aka.ms/ssprsetup from another device, then try again.".

Definition msal_error_to_user_message (e : MsalError) : string :=
  match e with
  | MsalError_InvalidResponse => "Authentication failed: Invalid server response."
  | MsalError_AcquireTokenFailed resp =>
      if bool_decide (PASSWORD_RESET_REGISTRATION_REQUIRED ∈ error_codes resp) then SSPR_MSG
      else error_description resp
  | MsalError_RequestFailed => "Authentication failed: Unable to reach authentication server."
  | MsalError_AuthTypeUnsupported => "Authentication failed: Authentication method not supported."
  | MsalError_TPMFail => "Authentication failed: Security hardware error."
  | MsalError_URLFormatFailed => "Authentication failed: Configuration error."
  | MsalError_DeviceEnrollmentFail => "Device enrollment failed. Please contact your administrator."
  | MsalError_CryptoFail => "Authentication failed: Cryptographic error."
  | MsalError_ConfigError => "Authentication failed: Configuration error."
  | MsalError_MFAPollContinue => "Authentication in progress."
  | MsalError_AADSTSError code text => if code =? PASSWORD_RESET_REGISTRATION_REQUIRED then SSPR_MSG else text
  | MsalError_Missing => "Authentication failed: Missing required data."
  | MsalError_ChangePassword => "Password change required. Please contact your administrator."
  | MsalError_PasswordRequired => "Password entry required."
  | MsalError_ConsentRequested => "Consent required. Please contact your administrator."
  | MsalError_AuthCodeReceived => "Authentication in progress."
  | MsalError_MFARequired => "Multi-factor authentication required."
  | MsalError_Other => "Authentication failed. Please contact your administrator."
  end.

Definition is_sspr_required (e : MsalError) : bool :=
  match e with
  | MsalError_AcquireTokenFailed resp => bool_decide (PASSWORD_RESET_REGISTRATION_REQUIRED ∈ error_codes resp)
  | MsalError_AADSTSError code _ => code =? PASSWORD_RESET_REGISTRATION_REQUIRED
  | _ => false
  end.

(** ** State and monad *)

Section entra.
Context {X : Ext} {C : Crypto} {HO : HelloOps} {E : Env} {HE : HelloEnv} {UNI : Unistring}.
Context {I : IniFile} {G : GeneratedConfig} {PC : PamConfig} {EC : EntraConfig} {H : Host} {F : Federation} {T : TextOps}.
Context {U : Type} {EE : EntraEnv U}.

(** The state of a call: the fields of the provider and what it shares, the credential
    handler of the login step in progress, and whether the call holds the lock of the
    client application. *)
Record EState := {
  e_hello : HState;
  e_init : bool;
  e_idmap : Idmap;
  e_alias : AliasState;
  e_net : U;
  e_handler : AuthCredHandler;
  e_locked : bool
}.

Definition set_hello v s := Build_EState v (e_init s) (e_idmap s) (e_alias s) (e_net s) (e_handler s) (e_locked s).
Definition set_init_flag v s := Build_EState (e_hello s) v (e_idmap s) (e_alias s) (e_net s) (e_handler s) (e_locked s).
Definition set_idmap v s := Build_EState (e_hello s) (e_init s) v (e_alias s) (e_net s) (e_handler s) (e_locked s).
Definition set_alias v s := Build_EState (e_hello s) (e_init s) (e_idmap s) v (e_net s) (e_handler s) (e_locked s).
Definition set_net v s := Build_EState (e_hello s) (e_init s) (e_idmap s) (e_alias s) v (e_handler s) (e_locked s).
Definition set_handler v s := Build_EState (e_hello s) (e_init s) (e_idmap s) (e_alias s) (e_net s) v (e_locked s).
Definition set_locked v s := Build_EState (e_hello s) (e_init s) (e_idmap s) (e_alias s) (e_net s) (e_handler s) v.

Definition EM (R A : Type) : Type := EState → (A + Exit R) * EState.

#[export] Instance EM_ret R : MRet (EM R) := λ _ a s, (inl a, s).
#[export] Instance EM_bind R : MBind (EM R) := λ _ _ k m s,
  match m s with
  | (inl a, s') => k a s'
  | (inr e, s') => (inr e, s')
  end.

Definition e_fail {R A} (e : IdpError) : EM R A := λ s, (inr (Fail e), s).
Definition e_return {R A} (r : R) : EM R A := λ s, (inr (Return r), s).
Definition e_panic {R A} : EM R A := λ s, (inr Panic, s).
Definition e_some {R A} (e : IdpError) (o : option A) : EM R A :=
  match o with Some a => mret a | None => e_fail e end.

(** A computation of [Hello], an operation of the network, and one that uses the TPM too. *)
Definition hello {R A} (m : HM R A) : EM R A := λ s,
  let '(r, h) := m (e_hello s) in (r, set_hello h s).

Definition net {R A} (f : U → A * U) : EM R A := λ s,
  let '(a, u) := f (e_net s) in (inl a, set_net u s).

Definition net_tpm {R A} (f : Hsm → U → A * Hsm * U) : EM R A := λ s,
  let '(a, h, u) := f (h_tpm (e_hello s)) (e_net s) in
  (inl a, set_net u (set_hello (Build_HState (h_tick (e_hello s)) (h_client (e_hello s)) (h_keys (e_hello s)) h) s)).

Definition look {R A} (f : U → A) : EM R A := net (λ u, (f u, u)).
Definition get_config {R} : EM R HimmelblauConfig := λ s, (inl (as_config (e_alias s)), s).
Definition get_idmap {R} : EM R Idmap := λ s, (inl (e_idmap s), s).
Definition alias_io {R A} (f : AliasState → A * AliasState) : EM R A := λ s,
  let '(a, l) := f (e_alias s) in (inl a, set_alias l s).
Definition idmap_io {R A} (f : Idmap → Idmap * A) : EM R A := λ s,
  let '(m, a) := f (e_idmap s) in (inl a, set_idmap m s).

(** [self.client.lock().await]: the lock is not reentrant. [with_client] holds it for one
    statement; [match_client] for the whole match on what the call returned, whose arms
    run before the guard of the scrutinee is dropped. Where a statement makes no other
    call of the client, its lock is left out. *)
Definition match_client {R A B} (m : EM R A) (k : A → EM R B) : EM R B := λ s,
  if e_locked s then (inr Hang, s)
  else let '(r, s) := (a ← m; k a) (set_locked true s) in (r, set_locked false s).

Definition with_client {R A} (m : EM R A) : EM R A := match_client m mret.

(** A function that returns a [Result]: its errors become values; a panic or a hang goes on. *)
Definition attempt {R A} (m : EM A A) : EM R (result A IdpError) := λ s,
  match m s with
  | (inl a, s') => (inl (Ok a), s')
  | (inr (Return a), s') => (inl (Ok a), s')
  | (inr (Fail e), s') => (inl (Err e), s')
  | (inr Panic, s') => (inr Panic, s')
  | (inr Hang, s') => (inr Hang, s')
  end.

(** The result of a whole call: [None] when it does not return. *)
Definition run_em {R} (m : EM R R) (s : EState) : option (result R IdpError) * EState :=
  match m s with
  | (inl r, s') => (Some (Ok r), s')
  | (inr (Return r), s') => (Some (Ok r), s')
  | (inr (Fail e), s') => (Some (Err e), s')
  | (inr Panic, s') | (inr Hang, s') => (None, s')
  end.

Variable domain : string.

(** ** Initialisation and the network *)

Definition set_init {R} : EM R unit := λ s,
  (inl tt, set_init_flag true s).

Definition cache_federation (tenant_id authority_host graph_url : string) (s : AliasState) : AliasState :=
  as_write (as_set (as_set (as_set s domain "tenant_id" tenant_id) domain "authority_host" authority_host)
              domain "graph_url" graph_url).

(** The closure of [get_or_try_init]. *)
Definition first_init : EM unit unit :=
  o ← net graph_tenant_id;
  tenant_id ← e_some IdpError_BadRequest o;
  o ← net graph_authority_host;
  authority_host ← e_some IdpError_BadRequest o;
  o ← net graph_graph_url;
  graph_url ← e_some IdpError_BadRequest o;
  cfg ← get_config;
  let range := get_idmap_range cfg domain in
  r ← idmap_io (λ m, add_gen_domain m domain tenant_id range);
  match r with
  | Err _ => e_fail IdpError_BadRequest
  | Ok _ =>
      ok ← net (client_set_authority ("https://" +:+ authority_host +:+ "/" +:+ tenant_id));
      if ok : bool then
        alias_io (λ s, (tt, cache_federation tenant_id authority_host graph_url s))
      else e_fail IdpError_BadRequest
  end.

Definition delayed_init {R} : EM R bool := λ s,
  if e_init s then (inl true, s)
  else (r ← attempt first_init;
        match r with
        | Ok _ => _ ← set_init; mret true
        | Err _ => mret false
        end) s.

Definition OFFLINE_NEXT_CHECK : Z := 15.

Definition set_cache_state {R} (st : CacheState) : EM R unit := hello (mod_client (set_state st)).

(** [*state = CacheState::OfflineNextCheck(now + OFFLINE_NEXT_CHECK)] *)
Definition go_offline {R} (now : SystemTime) : EM R unit :=
  next ← hello (plus_secs now OFFLINE_NEXT_CHECK);
  set_cache_state (CacheState_OfflineNextCheck next).

Definition net_down {R} : EM R unit :=
  t ← hello system_now;
  go_offline t.

Definition probe_online {R} (now : SystemTime) : EM R bool :=
  o ← net graph_authority_host;
  cfg ← get_config;
  let authority_host := default (get_authority_host cfg domain) o in
  built ← net (probe_client (get_request_timeout (config cfg)));
  if built : bool then
    up ← net (http_get_success ("https://" +:+ authority_host));
    if up : bool then _ ← set_cache_state CacheState_Online; mret true
    else _ ← go_offline now; mret false
  else _ ← go_offline now; mret false.

(** [impl_check_online!] *)
Definition entra_check_online {R} (now : SystemTime) : EM R bool :=
  c ← hello get_client;
  match state c with
  | CacheState_Online => mret true
  | CacheState_OfflineNextCheck at_time => if at_time <=? now then probe_online now else mret false
  | CacheState_Offline => mret false
  end.

(** ** Numbers *)

(** [self.graph.tenant_id().await.map_err(..)?] *)
Definition graph_tenant {R} : EM R string :=
  o ← net graph_tenant_id;
  e_some IdpError_BadRequest o.

Definition idmap_number {R} (r : option (result Z IdmapError)) : EM R Z :=
  match r with
  | Some (Ok n) => mret n
  | Some (Err _) => e_fail IdpError_BadRequest
  | None => e_panic
  end.

Definition number_of_sid {R} (sid : result AadSid IdmapError) : EM R Z :=
  t ← graph_tenant;
  sid ← (match sid with Ok sid => mret sid | Err _ => e_fail IdpError_BadRequest end);
  m ← get_idmap;
  idmap_number (object_id_to_unix_id m t sid).

Definition number_of_name {R} (input : string) : EM R Z :=
  t ← graph_tenant;
  m ← get_idmap;
  idmap_number (Some (gen_to_unix m t input)).

Definition open_id_cache {R} : EM R (option (Opened * DbFile StaticTables)) :=
  file ← look id_cache_file;
  let '(file, c) := StaticIdCache_new running_as_root false id_cache_faults file in
  mret ((λ c, (c, file)) <$> c).

(** Accounts of consumers: always taken for joined and enrolled. *)
Definition is_consumer_tenant (cfg : HimmelblauConfig) : bool :=
  let tenant_id := default "" (config_get cfg domain "tenant_id") in
  String.eqb tenant_id "9188040d-6c67-4c5b-b112-36a304b66dad"
  || String.eqb tenant_id "9cd80435-793b-4f48-844b-6b3f37d1c1f3".

(** ** Groups *)

(** [group_token_from_directory_object]: the error is only logged. *)
Definition group_gid (id : Uuid) (name : string) (value : DirectoryObject) (cfg : HimmelblauConfig) : EM GroupToken Z :=
  match get_id_attr_map cfg with
  | IdAttr_Uuid => number_of_sid (from_object_id id)
  | IdAttr_Name => number_of_name (hyphenated id)
  | IdAttr_Rfc2307 =>
      match do_extension_attrs value !! "gidNumber" with
      | Some gid_number => e_some IdpError_BadRequest (parse_uint u32_max gid_number)
      | None =>
          match get_rfc2307_group_fallback_map cfg with
          | Some IdAttr_Uuid => number_of_sid (from_object_id id)
          | Some IdAttr_Name => number_of_name name
          | _ => e_fail IdpError_BadRequest
          end
      end
  end.

Definition group_token_from_directory_object (value : DirectoryObject) : EM GroupToken GroupToken :=
  let name := default (do_id value) (do_display_name value) in
  if contains_char AT name then e_fail IdpError_BadRequest
  else
    id ← e_some IdpError_BadRequest (uuid_parse (do_id value));
    cache ← open_id_cache;
    cfg ← get_config;
    gidnumber ←
      match cache ≫= λ c, get_group_by_name c.1 (hyphenated id) c.2 with
      | Some group => mret (sg_gid group)
      | None => group_gid id name value cfg
      end;
    mret {| g_name := name; g_spn := name; g_uuid := id; g_gidnumber := gidnumber |}.

Fixpoint group_tokens {R} (groups : list DirectoryObject) : EM R (list GroupToken) :=
  match groups with
  | [] => mret []
  | g :: groups =>
      r ← attempt (group_token_from_directory_object g);
      rest ← group_tokens groups;
      mret (match r with Ok group => group :: rest | Err _ => rest end)
  end.

(** ** Users *)

Inductive TokenOrObj :=
| TokenOrObj_UserToken (token : UnixUserToken)
| TokenOrObj_UserObj (access_token : string) (user : UserObject).

Definition value_uuid (v : TokenOrObj) : option Uuid :=
  match v with
  | TokenOrObj_UserObj _ user => uuid_parse (uo_id user)
  | TokenOrObj_UserToken token => token_uuid token
  end.

Definition value_access_token (v : TokenOrObj) : option string :=
  match v with
  | TokenOrObj_UserObj token _ => Some token
  | TokenOrObj_UserToken token => token_access token
  end.

Definition POSIX_ATTRS : list string := ["uidNumber"; "gidNumber"; "loginShell"; "gecos"; "unixHomeDirectory"].

Definition kept_groups (old_token : option UserToken) : list GroupToken :=
  match old_token with Some t => t_groups t | None => [] end.

(** The groups and POSIX attributes of a user. *)
Definition user_details {R} (access_token : option string) (uuid : Uuid) (old_token : option UserToken)
  : EM R (list GroupToken * gmap string string) :=
  match access_token with
  | None => mret (kept_groups old_token, ∅)
  | Some access_token =>
      o ← net (request_user_groups_by_user_id access_token (hyphenated uuid));
      groups ← (match o with
                | Some groups => group_tokens groups
                | None => mret (kept_groups old_token)
                end);
      cfg ← get_config;
      match get_id_attr_map cfg with
      | IdAttr_Rfc2307 =>
          o ← net (fetch_user_extension_attributes access_token (hyphenated uuid) POSIX_ATTRS);
          mret (groups, default ∅ o)
      | _ => mret (groups, ∅)
      end
  end.

(** The fake primary group of a user. *)
Definition primary_group (spn : string) (uuid : Uuid) (uidnumber : Z) : GroupToken :=
  {| g_name := spn; g_spn := spn; g_uuid := uuid; g_gidnumber := uidnumber |}.

Definition mapped_uid {R} (spn : string) (uuid : Uuid) (posix_attrs : gmap string string) : EM R Z :=
  cfg ← get_config;
  match get_id_attr_map cfg with
  | IdAttr_Uuid => number_of_sid (from_object_id uuid)
  | IdAttr_Name => number_of_name spn
  | IdAttr_Rfc2307 =>
      match posix_attrs !! "uidNumber" with
      | Some uid_number => e_some IdpError_BadRequest (parse_uint u32_max uid_number)
      | None => e_fail IdpError_BadRequest
      end
  end.

(** The uid, the gid and the groups, with the fake primary group where there is no other. *)
Definition user_numbers {R} (spn : string) (uuid : Uuid) (groups : list GroupToken)
  (posix_attrs : gmap string string) : EM R (Z * Z * list GroupToken) :=
  cfg ← get_config;
  user_map ← look (λ u, UserMap_new (read_text_file (get_user_map_file (config cfg)) u));
  match get_local_from_upn user_map spn with
  | Some user =>
      if cstring_ok user then
        pwd ← e_some (IdpError_NotFound "getpwnam" "local user map") (local_passwd user);
        mret (pwd.1, pwd.2, groups)
      else e_fail IdpError_BadRequest
  | None =>
      cache ← open_id_cache;
      cache ← e_some IdpError_BadRequest cache;
      match get_user_by_name cache.1 spn cache.2 with
      | Some user => mret (su_uid user, su_gid user, groups)
      | None =>
          uidnumber ← mapped_uid spn uuid posix_attrs;
          match posix_attrs !! "gidNumber" with
          | Some gid_number =>
              gid ← e_some IdpError_BadRequest (parse_uint u32_max gid_number);
              mret (uidnumber, gid, groups)
          | None => mret (uidnumber, uidnumber, groups ++ [primary_group spn uuid uidnumber])
          end
      end
  end.

(** [Some(Uuid::parse_str(&self.graph.tenant_id()..?)..?)] *)
Definition tenant_uuid {R} : EM R Uuid :=
  t ← graph_tenant;
  e_some IdpError_BadRequest (uuid_parse t).

Definition user_token_from_unix_user_token {R} (spn : string) (value : TokenOrObj) (old_token : option UserToken)
  : EM R UserToken :=
  let spn := to_lowercase spn in
  uuid ← e_some IdpError_BadRequest (value_uuid value);
  '(groups, posix_attrs) ← user_details (value_access_token value) uuid old_token;
  '(uidnumber, gidnumber, groups) ← user_numbers spn uuid groups posix_attrs;
  cfg ← get_config;
  let displayname :=
    match posix_attrs !! "gecos" with
    | Some gecos => gecos
    | None => match value with
              | TokenOrObj_UserObj _ user => uo_displayname user
              | TokenOrObj_UserToken token => token_display token
              end
    end in
  let shell := default (get_shell cfg (Some domain)) (posix_attrs !! "loginShell") in
  tenant_id ← tenant_uuid;
  mret {| t_name := spn; t_spn := spn; t_uuid := uuid; t_real_gidnumber := Some gidnumber;
          t_gidnumber := uidnumber; t_displayname := flip_displayname_comma displayname;
          t_shell := Some shell; t_groups := groups; t_tenant_id := Some tenant_id; t_valid := true |}.

(** ** Validation *)

Definition mismatch_msg (token : UnixUserToken) : string :=
  "Authenticated user " +:+ default "unknown" (hyphenated <$> token_uuid token) +:+ " does not match requested user".

(** Whether the token's user is the one asked for. *)
Definition same_user {R} (account_id spn : string) : EM R bool :=
  if String.eqb (to_lowercase account_id) (to_lowercase spn) then mret true
  else
    p1 ← e_some IdpError_BadRequest (split_username account_id);
    p2 ← e_some IdpError_BadRequest (split_username spn);
    domains_match ← alias_io (domains_are_aliases url_ok p1.2 p2.2);
    mret (String.eqb (to_lowercase p1.1) (to_lowercase p2.1) && domains_match).

Definition token_validate (account_id : string) (token : UnixUserToken) (old_token : option UserToken)
  : EM AuthResult AuthResult :=
  match token_access token with
  | None => e_fail (IdpError_NotFound "access_token" "token_validate")
  | Some _ =>
      spn ← e_some IdpError_BadRequest (token_spn token);
      same ← same_user account_id spn;
      if same : bool then
        _ ← hello (Hello.add account_id
              (match token_prt token with
               | Some prt => RefreshCacheEntry_Prt prt
               | None => RefreshCacheEntry_RefreshToken (token_refresh_token token)
               end));
        t ← user_token_from_unix_user_token account_id (TokenOrObj_UserToken token) old_token;
        mret (AuthResult_Success t)
      else mret (AuthResult_Denied (mismatch_msg token))
  end.

End entra.

#[global] Arguments EState {X C I} U.
#[global] Arguments EM {X C I} U R A.
