(* ===== verification/EntraUser.v ===== *)
(** * The Entra ID provider: users and their tokens

    [unix_user_get], [unix_user_access], [unix_user_tgts] and [unix_user_prt_cookie] of
    [src/common/src/idprovider/himmelblau.rs], with [confidential_client_creds] of
    [src/common/src/tpm.rs]. *)
From stdpp Require Import base gmap strings list fin_maps.
From Stdlib Require Import ZArith Lia Ascii.
From S2P Require Import Prelude Proto Interface Db Runtime Caches Idmap UserMap Config Daemon Hello Pam Entra.

Open Scope rust_scope.

Definition CONFIDENTIAL_CLIENT_CERT_KEY_TAG : string := "confidential_client_certificate_key".
Definition CONFIDENTIAL_CLIENT_SECRET_TAG : string := "confidential_client_secret".
Definition CONFIDENTIAL_CLIENT_CERT_TAG : string := "confidential_client_certificate".
Definition EDGE_BROWSER_CLIENT_ID : string := "d7b530a4-7680-4c23-a8bf-c52c121d2e87".

Section user.
Context {X : Ext} {C : Crypto} {HO : HelloOps} {E : Env} {HE : HelloEnv} {UNI : Unistring}.
Context {I : IniFile} {G : GeneratedConfig} {PC : PamConfig} {EC : EntraConfig} {H : Host} {F : Federation} {T : TextOps}.
Context {U : Type} {EE : EntraEnv U}.
Variable domain : string.

(** ** Credentials of a confidential client *)

Definition secret_creds (b : bytes) : option (string * ClientCredential) :=
  text ← string_from_utf8 b;
  value ← secret_json text;
  secret ← value.1;
  client_id ← value.2;
  Some (client_id, credential_from_secret secret).

Definition certificate_creds {R} (machine_key : MachineKey) (loadable : LoadableRsaKey)
  : HM R (option (string * ClientCredential)) :=
  o ← with_tpm (rsa_key_load machine_key loadable);
  key ← or_fail IdpError_KeyStore o;
  r ← ks_get sealed_from_slice (domain +:+ "/" +:+ CONFIDENTIAL_CLIENT_CERT_TAG);
  match r with
  | Ok (Some sealed_cert) =>
      o ← with_tpm (machine_unseal machine_key sealed_cert);
      der ← or_fail IdpError_KeyStore o;
      cert ← or_fail IdpError_KeyStore (certificate_from_der der);
      client_id ← or_fail IdpError_KeyStore (certificate_common_name cert);
      mret (Some (client_id, credential_from_certificate cert key))
  | _ => mret None
  end.

Definition confidential_client_creds (machine_key : MachineKey)
  : HM (option (string * ClientCredential)) (option (string * ClientCredential)) :=
  r ← ks_get sealed_from_slice (domain +:+ "/" +:+ CONFIDENTIAL_CLIENT_SECRET_TAG);
  _ ← (match r with
       | Ok (Some sealed_secret) =>
           o ← with_tpm (machine_unseal machine_key sealed_secret);
           match o with
           | Some b => creds ← or_fail IdpError_KeyStore (secret_creds b); return_ (Some creds)
           | None => mret tt
           end
       | _ => mret tt
       end);
  r ← ks_get rsa_key_from_slice (domain +:+ "/" +:+ CONFIDENTIAL_CLIENT_CERT_KEY_TAG);
  match r with
  | Ok (Some loadable) => certificate_creds machine_key loadable
  | _ => mret None
  end.

(** ** [unix_user_get] *)

Variable machine_key : MachineKey.

(** [Set the GECOS from the old_token]. *)
Definition keep_displayname (old_token : option UserToken) (t : UserToken) : UserToken :=
  match old_token with
  | Some old =>
      {| t_name := t_name t; t_spn := t_spn t; t_uuid := t_uuid t; t_real_gidnumber := t_real_gidnumber t;
         t_gidnumber := t_gidnumber t; t_displayname := t_displayname old; t_shell := t_shell t;
         t_groups := t_groups t; t_tenant_id := t_tenant_id t; t_valid := t_valid t |}
  | None => t
  end.

(** [fetch_user_confidential_client!]: returns from the caller on success. *)
Definition fetch_user_confidential_client (account_id : string) (old_token : option UserToken)
  (client_id : string) (creds : ClientCredential) : EM U UserTokenState unit :=
  cfg ← get_config;
  tenant_id ← e_some IdpError_BadRequest (get_tenant_id cfg domain);
  let authority := "https://" +:+ get_authority_host cfg domain +:+ "/" +:+ tenant_id in
  ok ← net (confidential_client client_id authority creds (get_request_timeout (config cfg)) (get_ip_versions cfg));
  if ok : bool then
    o ← net_tpm (confidential_token [GRAPH_SCOPE]);
    match o with
    | None => mret tt
    | Some token =>
        o ← net (request_user token account_id);
        match o with
        | None => mret tt
        | Some userobj =>
            r ← attempt (user_token_from_unix_user_token domain account_id (TokenOrObj_UserObj token userobj) old_token);
            match r with
            | Ok t => e_return (UserTokenState_Update (keep_displayname old_token t))
            | Err _ => mret tt
            end
        end
    end
  else e_fail IdpError_BadRequest.

(** The network failed: go offline and use the cached token. *)
Definition use_cached {A} : EM U UserTokenState A :=
  _ ← net_down;
  e_return UserTokenState_UseCached.

(** [net_down_check!] with one other case. *)
Definition net_down_check {A} (r : result A MsalError) (other : EM U UserTokenState A) : EM U UserTokenState A :=
  match r with
  | Ok a => mret a
  | Err MsalError_RequestFailed => use_cached
  | Err _ => other
  end.

(** The numbers of a user who has not signed in yet. *)
Definition fake_numbers (account_id : string) (cache : Opened * DbFile StaticTables) : EM U UserTokenState (Z * Z) :=
  cfg ← get_config;
  match get_user_by_name cache.1 account_id cache.2 with
  | Some user => mret (su_uid user, su_gid user)
  | None =>
      match get_id_attr_map cfg with
      | IdAttr_Uuid =>
          o ← net_tpm (resolve_nametosid account_id machine_key);
          sid ← e_some IdpError_BadRequest o;
          sid ← (match from_sid_str sid with Ok sid => mret sid | Err _ => e_fail IdpError_BadRequest end);
          uid ← number_of_sid (Ok sid);
          mret (uid, uid)
      | _ => gid ← number_of_name account_id; mret (gid, gid)
      end
  end.

(** [fake_user!]: the existing token, or a made-up one if the user exists. It always
    leaves the function. *)
Definition fake_user {A} (account_id : string) (old_token : option UserToken) (cache : Opened * DbFile StaticTables)
  : EM U UserTokenState A :=
  match old_token with
  | Some token => e_return (UserTokenState_Update token)
  | None =>
      r ← with_client (net (check_user_exists account_id []));
      auth_init ← net_down_check r (e_fail IdpError_BadRequest);
      if init_exists auth_init then
        '(uid, gid) ← fake_numbers account_id cache;
        fake_uuid ← net uuid_new_v4;
        cfg ← get_config;
        tenant_id ← tenant_uuid;
        e_return (UserTokenState_Update
          {| t_name := account_id; t_spn := account_id; t_uuid := fake_uuid; t_real_gidnumber := Some gid;
             t_gidnumber := uid; t_displayname := ""; t_shell := Some (get_shell cfg (Some domain));
             t_groups := [primary_group account_id fake_uuid uid]; t_tenant_id := Some tenant_id; t_valid := true |})
      else e_return UserTokenState_NotFound
  end.

(** The application and scopes a token is asked for. *)
Definition app_and_scopes (cfg : HimmelblauConfig) : option string * list string :=
  match get_app_id cfg domain with
  | Some _ => (None, ["GroupMember.Read.All"])
  | None => (Some EDGE_BROWSER_CLIENT_ID, ["https://graph.microsoft.com/.default"])
  end.

Definition exchange_prt {R} (prt : SealedData) (scopes : list string) (client_id : option string)
  : EM U R (result UnixUserToken MsalError) :=
  net_tpm (exchange_prt_for_access_token prt scopes client_id None None machine_key).

Definition ok_or_else {R A} (r : result A MsalError) (other : EM U R A) : EM U R A :=
  match r with Ok a => mret a | Err _ => other end.

(** A PRT exchanged for an access token, with the fallbacks on failure; [fall_back] is
    [fake_user!]. *)
Definition token_by_prt (prt : SealedData) (fall_back : EM U UserTokenState UnixUserToken)
  : EM U UserTokenState UnixUserToken :=
  cfg ← get_config;
  let '(client_id, scopes) := app_and_scopes cfg in
  mtoken ← with_client (exchange_prt prt scopes client_id);
  let edge := bool_decide (client_id = Some EDGE_BROWSER_CLIENT_ID) in
  match mtoken with
  | Ok val => mret val
  | Err MsalError_RequestFailed =>
      _ ← net (λ u, (tt, thread_sleep 500 u));
      match_client (exchange_prt prt scopes client_id) (λ r, net_down_check r fall_back)
  | Err (MsalError_AcquireTokenFailed err_resp) =>
      if bool_decide (CONSENT_REQUIRED ∈ error_codes err_resp) then
        match_client (exchange_prt prt [] None) (λ r, ok_or_else r fall_back)
      else if edge then
        match_client (exchange_prt prt scopes (Some DEFAULT_APP_ID)) (λ r, ok_or_else r fall_back)
      else fall_back
  | Err (MsalError_AADSTSError _ _) =>
      if edge then match_client (exchange_prt prt scopes (Some DEFAULT_APP_ID)) (λ r, ok_or_else r fall_back)
      else fall_back
  | Err _ => fall_back
  end.

Definition token_by_refresh_token (refresh_token : string) (fall_back : EM U UserTokenState UnixUserToken)
  : EM U UserTokenState UnixUserToken :=
  cfg ← get_config;
  ok ← net (entra_public_client (get_request_timeout (config cfg)) (get_ip_versions cfg));
  if ok : bool then
    mtoken ← net (public_token_by_refresh_token refresh_token []);
    match mtoken with
    | Ok val => mret val
    | Err MsalError_RequestFailed =>
        _ ← net (λ u, (tt, thread_sleep 500 u));
        r ← net (public_token_by_refresh_token refresh_token []);
        net_down_check r fall_back
    | Err _ => fall_back
    end
  else e_fail IdpError_BadRequest.

Definition account_of (id_ : Id) (old_token : option UserToken) : string :=
  match old_token with Some token => t_spn token | None => id_to_string id_ end.

(** The part after the network is known to be up. *)
Definition fetch_user (account_id : string) (old_token : option UserToken) : EM U UserTokenState UserTokenState :=
  creds ← attempt (hello (confidential_client_creds machine_key));
  _ ← (match creds with
       | Ok (Some (client_id, creds)) => fetch_user_confidential_client account_id old_token client_id creds
       | _ => mret tt
       end);
  cache ← open_id_cache;
  cache ← e_some IdpError_BadRequest cache;
  let fall_back {A} : EM U UserTokenState A := fake_user account_id old_token cache in
  entry ← attempt (hello (refresh_token account_id));
  token ← (match entry with
           | Ok (RefreshCacheEntry_Prt prt) => token_by_prt prt fall_back
           | Ok (RefreshCacheEntry_RefreshToken t) => token_by_refresh_token t fall_back
           | Err _ => fall_back
           end);
  r ← attempt (token_validate domain account_id token old_token);
  match r with
  | Ok (AuthResult_Success t) => mret (UserTokenState_Update (keep_displayname old_token t))
  | _ => fall_back
  end.

Definition entra_user_get (id_ : Id) (old_token : option UserToken) : EM U UserTokenState UserTokenState :=
  init ← delayed_init domain;
  if init : bool then
    t ← hello system_now;
    online ← entra_check_online domain t;
    if online : bool then fetch_user (account_of id_ old_token) old_token
    else mret UserTokenState_UseCached
  else use_cached.

(** ** Access tokens, Kerberos tickets and cookies *)

(** The renewal of a PRT older than four hours; its failure is only logged. *)
Definition renew_prt {R} (account_id : string) : EM U R unit :=
  age ← hello (prt_age account_id);
  match age with
  | Some age =>
      if PRT_REFRESH_AGE * NS <=? age then
        entry ← attempt (hello (refresh_token account_id));
        match entry with
        | Ok (RefreshCacheEntry_Prt old_prt) =>
            r ← net_tpm (exchange_prt_for_prt old_prt machine_key);
            match r with
            | Ok new_prt => hello (Hello.add account_id (RefreshCacheEntry_Prt new_prt))
            | Err _ => mret tt
            end
        | _ => mret tt
        end
      else mret tt
  | None => mret tt
  end.

(** [entra_id_prt_token_fetch!] and [entra_id_refresh_token_token_fetch!] *)
Definition entra_id_prt_token_fetch {R} (prt : SealedData) (scopes : list string)
  (client_id redirect_uri req_cnf : option string) : EM U R UnixUserToken :=
  r ← net_tpm (exchange_prt_for_access_token prt scopes client_id redirect_uri req_cnf machine_key);
  ok_or_else r (e_fail IdpError_BadRequest).

Definition entra_id_refresh_token_token_fetch {R} (refresh_token : string) (scopes : list string)
  : EM U R UnixUserToken :=
  cfg ← get_config;
  ok ← net (entra_public_client (get_request_timeout (config cfg)) (get_ip_versions cfg));
  if ok : bool then
    let scopes := if is_consumer_tenant domain cfg
                  then List.filter (λ s, negb (String.eqb s "https://graph.microsoft.com/.default")) scopes
                  else scopes in
    r ← net (public_token_by_refresh_token refresh_token scopes);
    ok_or_else r (e_fail IdpError_BadRequest)
  else e_fail IdpError_BadRequest.

Definition entra_user_access (id_ : Id) (scopes : list string) (old_token : option UserToken)
  (client_id redirect_uri req_cnf : option string) : EM U UnixUserToken UnixUserToken :=
  let account_id := account_of id_ old_token in
  _ ← renew_prt account_id;
  init ← delayed_init domain;
  if init : bool then
    t ← hello system_now;
    online ← entra_check_online domain t;
    if online : bool then
      entry ← hello (refresh_token account_id);
      match entry with
      | RefreshCacheEntry_Prt prt => entra_id_prt_token_fetch prt scopes client_id redirect_uri req_cnf
      | RefreshCacheEntry_RefreshToken t => entra_id_refresh_token_token_fetch t scopes
      end
    else e_fail IdpError_BadRequest
  else e_fail IdpError_BadRequest.

Definition Tgts : Type := option KerberosCredentials * option KerberosCredentials * option string * option string.

Definition entra_user_tgts (id_ : Id) (old_token : option UserToken) : EM U Tgts Tgts :=
  let empty : Tgts := (None, None, None, None) in
  init ← delayed_init domain;
  if init : bool then
    t ← hello system_now;
    online ← entra_check_online domain t;
    if online : bool then
      entry ← attempt (hello (refresh_token (account_of id_ old_token)));
      match entry with
      | Ok (RefreshCacheEntry_Prt prt) =>
          cloud_ccache ← net_tpm (fetch_cloud_tgt prt machine_key);
          ad_ccache ← net_tpm (fetch_ad_tgt prt machine_key);
          top_level_names ← net_tpm (prt_top_level_names prt machine_key);
          tenant_id ← (match old_token with
                       | Some t => mret (hyphenated <$> t_tenant_id t)
                       | None =>
                           cfg ← get_config;
                           match get_tenant_id cfg domain with
                           | Some t => mret (Some t)
                           | None => net graph_tenant_id
                           end
                       end);
          mret (cloud_ccache, ad_ccache, top_level_names, tenant_id)
      | _ => mret empty
      end
    else mret empty
  else mret empty.

Definition entra_user_prt_cookie (id_ : Id) (old_token : option UserToken) (sso_nonce : option string)
  : EM U string string :=
  init ← delayed_init domain;
  if init : bool then
    entry ← attempt (hello (refresh_token (account_of id_ old_token)));
    match entry with
    | Ok (RefreshCacheEntry_Prt prt) =>
        o ← net_tpm (prt_sso_cookie prt sso_nonce machine_key);
        e_some IdpError_BadRequest o
    | _ => e_fail (IdpError_NotFound "account_id" "refresh_cache")
    end
  else e_fail IdpError_BadRequest.

(** ** A new Hello PIN *)

(** [change_auth_token], with [impl_change_auth_token!]. *)
Definition entra_change_auth_token (account_id : string) (token : UnixUserToken) (new_tok : string) : EM U bool bool :=
  init ← delayed_init domain;
  if init : bool then
    t ← hello system_now;
    online ← entra_check_online domain t;
    if online : bool then
      amr_ngcmfa ← e_some (IdpError_NotFound "NGC MFA authorization in UnixUserToken"
                             ("access token (" +:+ token_type token +:+ ")")) (token_amr_ngcmfa token);
      spn ← e_some IdpError_BadRequest (token_spn token);
      if String.eqb (to_lowercase account_id) (to_lowercase spn) then
        hello_key ← hello (provision_or_create_hello_key token amr_ngcmfa new_tok machine_key IdpError_Tpm);
        r ← hello (ks_insert hello_key_to_vec (fetch_hello_key_tag account_id amr_ngcmfa) hello_key);
        _ ← hello (ok_or_fail IdpError_Tpm r);
        mret true
      else e_fail IdpError_BadRequest
    else e_fail IdpError_BadRequest
  else e_fail IdpError_BadRequest.

End user.
