(* ===== verification/EntraInit.v ===== *)
(** * The Entra ID provider: how a login begins

    [unix_user_online_auth_init] of [src/common/src/idprovider/himmelblau.rs], and the
    questions it asks about the device: whether it is joined and enrolled. *)
From stdpp Require Import base gmap strings list fin_maps.
From Stdlib Require Import ZArith Lia Ascii.
From S2P Require Import Prelude Proto Interface Db Runtime Caches Idmap UserMap Config Hello Pam Entra.

Open Scope rust_scope.

(** The variants of [AuthOption], the fields of [MFAAuthContinue] the provider reads,
    and the requests that start a flow. *)
Class EntraFlow `{X : Ext} `{C : Crypto} (U : Type) `{EE : @EntraEnv X C U} : Type := {
  opt_passwordless : AuthOption;
  opt_fido : AuthOption;
  opt_passwordless_fido : AuthOption;
  opt_passwordless_security_key : AuthOption;
  opt_passwordless_qr_bluetooth : AuthOption;
  opt_force_mfa : AuthOption;
  opt_remote_session : AuthOption;
  flow_msg : MFAAuthContinue → string;
  flow_polling_interval : MFAAuthContinue → option Z;
  flow_fido_challenge : MFAAuthContinue → option string;
  flow_fido_allow_list : MFAAuthContinue → option (list string);
  flow_has_physical_security_key : MFAAuthContinue → bool;
  flow_has_cross_device_passkey : MFAAuthContinue → bool;
  initiate_enrollment_mfa_flow : string → option string → list AuthOption → option UserInit → option string →
    U → result MFAAuthContinue MsalError * U;
  initiate_enrollment_device_flow : list AuthOption → U → result MFAAuthContinue MsalError * U
}.

Section init.
Context {X : Ext} {C : Crypto} {HO : HelloOps} {E : Env} {HE : HelloEnv} {UNI : Unistring}.
Context {I : IniFile} {G : GeneratedConfig} {PC : PamConfig} {EC : EntraConfig} {H : Host} {F : Federation} {T : TextOps}.
Context {U : Type} {EE : EntraEnv U} {EF : EntraFlow U}.
Variable domain : string.

(** ** The device *)

Definition fetch_cert_key_tag : string := domain +:+ "/certificate".
Definition fetch_intune_key_tag : string := domain +:+ "/intune".
Definition fetch_tranport_key_tag : string := domain +:+ "/transport".

Definition fetch_loadable_transport_key_from_keystore {R} : HM R (result (option LoadableRsaKey) unit) :=
  ks_get rsa_key_from_slice fetch_tranport_key_tag.
Definition fetch_loadable_cert_key_from_keystore {R} : HM R (result (option LoadableEnrolmentKey) unit) :=
  ks_get enrolment_key_from_slice fetch_cert_key_tag.

Definition is_domain_joined {R} : EM U R bool :=
  cfg ← get_config;
  if is_consumer_tenant domain cfg then mret true
  else match config_get cfg domain "device_id" with
       | None => mret false
       | Some _ =>
           transport_key ← hello fetch_loadable_transport_key_from_keystore;
           match transport_key with
           | Ok (Some _) =>
               cert_key ← hello fetch_loadable_cert_key_from_keystore;
               mret (match cert_key with Ok (Some _) => true | _ => false end)
           | _ => mret false
           end
       end.

Definition is_intune_enrolled {R} : EM U R bool :=
  cfg ← get_config;
  if is_consumer_tenant domain cfg then mret true
  else match config_get cfg domain "intune_device_id" with
       | None => mret false
       | Some _ =>
           intune_key ← hello (ks_get enrolment_key_from_slice fetch_intune_key_tag);
           mret (match intune_key with Ok (Some _) => true | _ => false end)
       end.

(** ** Options of a flow *)

Definition is_remote_service (cfg : HimmelblauConfig) (service : string) : bool :=
  String.prefix "remote:" service
  || existsb (λ s, negb (String.eqb s "") && contains_str service s)
       (get_password_only_remote_services_deny_list cfg).

Definition push_if (b : bool) (o : AuthOption) : list AuthOption := if b then [o] else [].

(** Options every flow gets. *)
Definition session_options (cfg : HimmelblauConfig) (remote : bool) : list AuthOption :=
  push_if (remote || negb (get_allow_console_password_only (config cfg))) opt_force_mfa
  ++ push_if remote opt_remote_session.

Definition fido_options (cfg : HimmelblauConfig) (remote : bool) : list AuthOption :=
  if remote then [] else
    [opt_fido]
    ++ push_if (get_enable_experimental_passwordless_fido (config cfg)) opt_passwordless_fido
    ++ push_if (get_enable_passwordless_security_key (config cfg)) opt_passwordless_security_key
    ++ push_if (get_enable_passwordless_qr_bluetooth (config cfg)) opt_passwordless_qr_bluetooth.

Definition mfa_options (cfg : HimmelblauConfig) (remote : bool) : list AuthOption :=
  push_if (get_enable_passwordless (config cfg)) opt_passwordless
  ++ fido_options cfg remote
  ++ session_options cfg remote.

(** ** The first request *)

Definition NETWORK_OUTAGE : string := "Network outage detected.".

Notation Begun := (AuthRequest * AuthCredHandler)%type.

Definition outage : Begun := (AuthRequest_InitDenied NETWORK_OUTAGE, AuthCredHandler_None).

(** [net_down_check!] *)
Definition init_net_down_check {A} (r : result A MsalError) (other : MsalError → EM U Begun A) : EM U Begun A :=
  match r with
  | Ok a => mret a
  | Err MsalError_RequestFailed => _ ← net_down; e_return outage
  | Err e => other e
  end.

Definition mfa_handler (flow : MFAAuthContinue) : AuthCredHandler := AuthCredHandler_MFA flow None None None.

(** A poll, with the interval in seconds. *)
Definition poll_flow (flow : MFAAuthContinue) : Begun :=
  (AuthRequest_MFAPoll (flow_msg flow) (default 5000 (flow_polling_interval flow) / 1000), mfa_handler flow).

(** What the user is asked for a flow without a password. *)
Definition passwordless_request (flow : MFAAuthContinue) : Begun :=
  match flow_fido_challenge flow, flow_fido_allow_list flow with
  | Some challenge, Some allow_list =>
      (AuthRequest_Fido challenge allow_list (flow_has_physical_security_key flow) (flow_has_cross_device_passkey flow),
       mfa_handler flow)
  | _, _ => poll_flow flow
  end.

(** A password is asked for only while the network is up. *)
Definition ask_password (handler : EM U Begun AuthCredHandler) : EM U Begun Begun :=
  t ← hello system_now;
  online ← probe_online domain t;
  if online : bool then handler ← handler; mret (AuthRequest_Password, handler)
  else mret outage.

Definition mfa_init (account_id : string) (remote : bool) : EM U Begun Begun :=
  cfg ← get_config;
  let auth_options := mfa_options cfg remote in
  r ← net (check_user_exists account_id auth_options);
  auth_init ← init_net_down_check r (λ _, e_fail IdpError_BadRequest);
  if get_allow_console_password_only (config cfg) && negb remote && negb (init_passwordless auth_init) then
    ask_password (joined ← is_domain_joined; mret (AuthCredHandler_PasswordFirst auth_options joined))
  else if negb (init_passwordless auth_init) then ask_password (mret AuthCredHandler_None)
  else
    r ← net (initiate_enrollment_mfa_flow account_id None auth_options (Some auth_init) (get_mfa_method (config cfg)));
    flow ← init_net_down_check r (λ e, match e with
                                       | MsalError_PasswordRequired => e_return (AuthRequest_Password, AuthCredHandler_None)
                                       | _ => e_fail IdpError_BadRequest
                                       end);
    mret (passwordless_request flow).

Definition device_init (remote : bool) : EM U Begun Begun :=
  cfg ← get_config;
  r ← net (initiate_enrollment_device_flow (session_options cfg remote));
  flow ← init_net_down_check r (λ _, e_fail IdpError_BadRequest);
  mret (poll_flow flow).

(** Without the PIN: sign in to the directory. *)
Definition directory_init (account_id : string) (remote : bool) : EM U Begun Begun :=
  init ← delayed_init domain;
  if init : bool then
    cfg ← get_config;
    if get_enable_experimental_mfa (config cfg) then mfa_init account_id remote else device_init remote
  else _ ← net_down; mret outage.

Definition pin_init : EM U Begun Begun :=
  t ← hello system_now;
  online ← probe_online domain t;
  if online : bool then mret (AuthRequest_Pin, AuthCredHandler_None)
  else e_fail IdpError_BadRequest.

Definition entra_online_auth_init (account_id service : string) (no_hello_pin force_reauth : bool) : EM U Begun Begun :=
  hello_key ← hello (fetch_hello_key account_id);
  cfg ← get_config;
  let remote := is_remote_service cfg service in
  intune_enrollment_required ←
    (if get_apply_policy (config cfg) then enrolled ← is_intune_enrolled; mret (negb enrolled) else mret false);
  joined ← is_domain_joined;
  c ← hello get_client;
  if negb joined
     || negb (is_ok hello_key)
     || negb (get_enable_hello (config cfg))
     || (remote && negb (check_hello_totp_enabled cfg) && negb (get_allow_remote_hello (config cfg)))
     || (get_hello_pin_retry_count (config cfg) <? bad_pin_count account_id c)
     || intune_enrollment_required || no_hello_pin || force_reauth
  then directory_init account_id remote
  else pin_init.

End init.
