(* ===== verification/EntraDevice.v ===== *)
(** * The Entra ID provider: joining the device and the answers of a login step

    [join_domain], [intune_enroll] and [try_prt_signin_frequency_check] of
    [src/common/src/idprovider/himmelblau.rs], and the macros of
    [unix_user_online_auth_step] that look at errors of the directory, join the device on
    the way, and ask the user to sign in again. *)
From stdpp Require Import base gmap strings list fin_maps.
From Stdlib Require Import ZArith Lia Ascii.
From S2P Require Import Prelude Proto Interface Db Runtime Caches Idmap UserMap Config Hello Pam Daemon Entra EntraUser EntraInit.

Open Scope rust_scope.

(** Requests of a login in progress: tokens by refresh token, Hello key, password and MFA
    flow, the change of a password, and the enrolment of the device. *)
Class EntraLogin `{X : Ext} `{C : Crypto} `{HO : @HelloOps X C} (U : Type) `{EE : @EntraEnv X C U} : Type := {
  DEVICE_AUTH_FAIL : Z;
  auth_option_eqb : AuthOption → AuthOption → bool;
  opt_no_dag_fallback : AuthOption;
  flow_max_poll_attempts : MFAAuthContinue → option Z;
  flow_mfa_method : MFAAuthContinue → option string;
  token_tenant_id : UnixUserToken → option string;
  token_set_prt : SealedData → UnixUserToken → UnixUserToken;
  msal_error_debug : MsalError → string;
  token_by_broker_refresh_token : string → list string → option string → MachineKey → Hsm → U →
    result UnixUserToken MsalError * Hsm * U;
  token_by_hello_key : string → LoadableMsHelloKey → list string → option string → MachineKey → string → Hsm → U →
    result UnixUserToken MsalError * Hsm * U;
  token_by_username_password : string → string → list string → option string → MachineKey → Hsm → U →
    result UnixUserToken MsalError * Hsm * U;
  token_by_mfa_flow : string → option string → option Z → MFAAuthContinue → U →
    (result UnixUserToken MsalError * MFAAuthContinue) * U;
  handle_password_change : string → string → string → U → result unit MsalError * U;
  provision_hello_key : UnixUserToken → MachineKey → string → Hsm → U → result LoadableMsHelloKey MsalError * Hsm * U;
  exchange_prt_for_prt_in_time : SealedData → MachineKey → Hsm → U → option (result SealedData MsalError) * Hsm * U;
  EnrollAttrs : Type;
  enroll_attrs_new : string → option JoinType → option EnrollAttrs;
  enroll_device : string → EnrollAttrs → MachineKey → Hsm → U →
    result (LoadableRsaKey * LoadableEnrolmentKey * string) MsalError * Hsm * U;
  rsa_key_to_vec : LoadableRsaKey → option bytes;
  enrolment_key_to_vec : LoadableEnrolmentKey → option bytes;
  ServiceEndpoints : Type;
  intune_service_endpoints : string → U → option ServiceEndpoints * U;
  fetch_intune_portal_versions : string → U → option (list string) * U;
  IntuneForLinux : Type;
  intune_for_linux : ServiceEndpoints → string → Z → list IpVersion → U → option IntuneForLinux * U;
  intune_enroll_device : IntuneForLinux → UnixUserToken → EnrollAttrs → string → MachineKey → Hsm → U →
    option (LoadableEnrolmentKey * string) * Hsm * U;
  server_config_writable : U → bool * U
}.

Section device.
Context {X : Ext} {C : Crypto} {HO : HelloOps} {E : Env} {HE : HelloEnv} {UNI : Unistring}.
Context {I : IniFile} {G : GeneratedConfig} {PC : PamConfig} {EC : EntraConfig} {H : Host} {F : Federation} {T : TextOps}.
Context {U : Type} {EE : EntraEnv U} {EF : EntraFlow U} {EL : EntraLogin U}.
Variable domain : string.
Variable machine_key : MachineKey.

(** ** Answers of a step *)

Notation Answer := (AuthResult * AuthCacheAction)%type.

Definition answer {A} (r : AuthResult) : EM U Answer A := e_return (r, AuthCacheAction_None).
Definition denied {A} (msg : string) : EM U Answer A := answer (AuthResult_Denied msg).
Definition next {A} (req : AuthRequest) : EM U Answer A := answer (AuthResult_Next req).

(** [*cred_handler = ..] *)
Definition put_handler {R} (h : AuthCredHandler) : EM U R unit := λ s, (inl tt, set_handler h s).
Definition get_handler {R} : EM U R AuthCredHandler := λ s, (inl (e_handler s), s).

(** [.map_err(|_| e)?] on the key store. *)
Definition e_ok {R A} (e : IdpError) (r : result A unit) : EM U R A :=
  match r with Ok a => mret a | Err _ => e_fail e end.

(** [check_new_device_enrollment_required!]: the device is gone from the directory, so its
    keys go too. It always leaves the function. *)
Definition check_new_device_enrollment_required {A} (aadsts_err : ErrorResponse) : EM U Answer A :=
  let msg := msal_error_to_user_message (MsalError_AcquireTokenFailed aadsts_err) in
  if bool_decide (135011 ∈ error_codes aadsts_err) || bool_decide (DEVICE_AUTH_FAIL ∈ error_codes aadsts_err) then
    r ← hello (ks_delete (fetch_cert_key_tag domain));
    match r with
    | Err _ => denied (msg +:+ " Failed to delete CSR key")
    | Ok _ =>
        r ← hello (ks_delete (fetch_intune_key_tag domain));
        match r with
        | Err _ => denied (msg +:+ " Failed to delete intune key")
        | Ok _ => denied ("Device has been removed from the domain. " +:+ msg)
        end
    end
  else denied msg.

(** [net_down_check!] of the step: the first two errors never reach the other cases. *)
Definition step_net_down_check {A} (r : result A MsalError) (other : MsalError → EM U Answer A) : EM U Answer A :=
  match r with
  | Err MsalError_RequestFailed => _ ← net_down; denied NETWORK_OUTAGE
  | Err (MsalError_AcquireTokenFailed e) => check_new_device_enrollment_required e
  | Ok a => mret a
  | Err e => other e
  end.

Definition deny_error {A} (e : MsalError) : EM U Answer A := denied (msal_error_to_user_message e).

(** ** The device *)

Definition INTUNE_ENROLL_SCOPE : string := "d4ebce55-015a-49b5-a083-c84d1797ae8c/.default".
Definition INTUNE_PORTAL_URL : string :=
  "https://packages.microsoft.com/ubuntu/22.04/prod/pool/main/i/intune-portal/".
Definition INTUNE_PORTAL_VERSION : string := "1.2511.11".

Definition by_refresh_token {R} (token : UnixUserToken) (scopes : list string) (client_id : option string)
  : EM U R (result UnixUserToken MsalError) :=
  net_tpm (token_by_broker_refresh_token (token_refresh_token token) scopes client_id machine_key).

(** The newest version of the portal that is listed. *)
Definition portal_version (vers : option (list string)) : string :=
  default INTUNE_PORTAL_VERSION (last (default [INTUNE_PORTAL_VERSION] vers)).

(** The enrolment proper, with a token for Intune. *)
Definition enroll_with (endpoints : ServiceEndpoints) (device_id : option string) (attrs : option EnrollAttrs)
  (token : UnixUserToken) : EM U (LoadableEnrolmentKey * string) (LoadableEnrolmentKey * string) :=
  vers ← net (fetch_intune_portal_versions INTUNE_PORTAL_URL);
  cfg ← get_config;
  o ← net (intune_for_linux endpoints (portal_version vers) (get_request_timeout (config cfg)) (get_ip_versions cfg));
  intune ← e_some IdpError_BadRequest o;
  cfg ← get_config;
  device_id ← e_some IdpError_BadRequest
    (match device_id with Some v => Some v | None => config_get cfg domain "device_id" end);
  own_attrs ← e_some IdpError_BadRequest (enroll_attrs_new domain None);
  o ← net_tpm (intune_enroll_device intune token (default own_attrs attrs) device_id machine_key);
  e_some IdpError_BadRequest o.

Definition intune_enroll (device_id : option string) (attrs : option EnrollAttrs) (token : UnixUserToken)
  : EM U (LoadableEnrolmentKey * string) (LoadableEnrolmentKey * string) :=
  cfg ← get_config;
  if get_apply_policy (config cfg) then
    r ← with_client (by_refresh_token token [GRAPH_SCOPE] (Some DEFAULT_APP_ID));
    graph_token ←
      match r with
      | Ok token => mret token
      | Err (MsalError_AcquireTokenFailed e) =>
          if bool_decide (DEVICE_AUTH_FAIL ∈ error_codes e)
          then e_fail (IdpError_NotFound "refresh_token" "intune_enroll") else e_fail IdpError_BadRequest
      | Err _ => e_fail IdpError_BadRequest
      end;
    access_token ← e_some IdpError_BadRequest (token_access graph_token);
    o ← net (intune_service_endpoints access_token);
    endpoints ← e_some IdpError_BadRequest o;
    match_client (by_refresh_token token [INTUNE_ENROLL_SCOPE] (Some DEFAULT_APP_ID)) (λ r,
      match r with
      | Ok token => enroll_with endpoints device_id attrs token
      | Err _ => e_fail IdpError_BadRequest
      end)
  else e_fail (IdpError_NotFound "apply_policy" "intune_enroll").

(** [config.set(..)] and [config.write_server_config()]: whether it was written. *)
Definition record_config {R} (settings : list (string * string)) : EM U R bool :=
  _ ← alias_io (λ a, (tt, foldl (λ a kv, as_set a domain kv.1 kv.2) a settings));
  ok ← net server_config_writable;
  if ok : bool then alias_io (λ a, (true, as_write a)) else mret false.

(** Whether the join succeeded; what went wrong is only logged by the caller. *)
Definition join_domain {R} (token : UnixUserToken) : EM U R bool :=
  cfg ← get_config;
  match enroll_attrs_new domain (Some (get_join_type cfg)) with
  | None => mret false
  | Some attrs =>
      res ← with_client (net_tpm (enroll_device (token_refresh_token token) attrs machine_key));
      match res with
      | Err _ => mret false
      | Ok (transport_key, cert_key, device_id) =>
          r ← hello (ks_insert enrolment_key_to_vec (fetch_cert_key_tag domain) cert_key);
          match r with
          | Err _ => mret false
          | Ok _ =>
              r ← hello (ks_insert rsa_key_to_vec (fetch_tranport_key_tag domain) transport_key);
              match r with
              | Err _ => mret false
              | Ok _ =>
                  r ← attempt (intune_enroll (Some device_id) (Some attrs) token);
                  match r with
                  | Ok (intune_key, intune_device_id) =>
                      r ← hello (ks_insert enrolment_key_to_vec (fetch_intune_key_tag domain) intune_key);
                      match r with
                      | Err _ => mret false
                      | Ok _ => record_config [("intune_device_id", intune_device_id); ("device_id", device_id)]
                      end
                  | Err _ => record_config [("device_id", device_id)]
                  end
              end
          end
      end
  end.

(** [intune_enroll!] *)
Definition intune_enroll_step (token : UnixUserToken) : EM U Answer unit :=
  r ← attempt (intune_enroll None None token);
  match r with
  | Ok (intune_key, intune_device_id) =>
      written ← record_config [("intune_device_id", intune_device_id)];
      if written : bool then
        r ← hello (ks_insert enrolment_key_to_vec (fetch_intune_key_tag domain) intune_key);
        match r with
        | Ok _ => mret tt
        | Err _ => denied "Failed to store device credentials. Please contact your administrator."
        end
      else denied "Failed to save device configuration. Please contact your administrator."
  | Err _ => mret tt
  end.

(** The second half of [enroll_and_obtain_enrolled_token!]: a token for the directory by
    the refresh token. The cases of [AcquireTokenFailed] are those of the source; the
    macro around them answers that error first. *)
Definition obtain_enrolled_token (token : UnixUserToken) : EM U Answer UnixUserToken :=
  cfg ← get_config;
  let '(client_id, scopes) := app_and_scopes domain cfg in
  let edge := bool_decide (client_id = Some EDGE_BROWSER_CLIENT_ID) in
  mtoken2 ← with_client (by_refresh_token token scopes client_id);
  let default_app :=
    r ← with_client (by_refresh_token token scopes (Some DEFAULT_APP_ID));
    match r with Ok token => mret token | Err e => deny_error e end in
  step_net_down_check mtoken2 (λ e,
    match e with
    | MsalError_AcquireTokenFailed err_resp =>
        if bool_decide (DEVICE_AUTH_FAIL ∈ error_codes err_resp) then
          _ ← net (λ u, (tt, thread_sleep 5000 u));
          r ← with_client (by_refresh_token token scopes client_id);
          step_net_down_check r deny_error
        else if bool_decide (CONSENT_REQUIRED ∈ error_codes err_resp) then mret token
        else if edge then default_app
        else denied (error_description err_resp)
    | MsalError_AADSTSError _ _ => if edge then default_app else deny_error e
    | _ => deny_error e
    end).

(** [enroll_and_obtain_enrolled_token!] *)
Definition enroll_and_obtain_enrolled_token (token : UnixUserToken) : EM U Answer UnixUserToken :=
  joined ← is_domain_joined domain;
  _ ← (if negb joined then
         ok ← join_domain token;
         if ok : bool then mret tt else denied "Failed to join domain. Please contact your administrator."
       else
         enrolled ← is_intune_enrolled domain;
         if enrolled : bool then mret tt else intune_enroll_step token);
  obtain_enrolled_token token.

(** ** Sign-in frequency *)

(** [try_prt_signin_frequency_check]: an access token for the cached PRT, with a new PRT if
    there is one. *)
Definition signin_frequency_exchange {R} (prt : SealedData) : EM U R (result UnixUserToken MsalError) :=
  cfg ← get_config;
  let '(client_id, scopes) := app_and_scopes domain cfg in
  let edge := bool_decide (client_id = Some EDGE_BROWSER_CLIENT_ID) in
  r ← with_client (exchange_prt machine_key prt scopes client_id);
  match r with
  | Err MsalError_RequestFailed =>
      _ ← net (λ u, (tt, thread_sleep 500 u));
      with_client (exchange_prt machine_key prt scopes client_id)
  | Err (MsalError_AcquireTokenFailed err_resp) =>
      if bool_decide (CONSENT_REQUIRED ∈ error_codes err_resp) then
        with_client (exchange_prt machine_key prt [] None)
      else if edge then with_client (exchange_prt machine_key prt scopes (Some DEFAULT_APP_ID))
      else mret (Err (MsalError_AcquireTokenFailed err_resp))
  | Err (MsalError_AADSTSError code text) =>
      if edge then with_client (exchange_prt machine_key prt scopes (Some DEFAULT_APP_ID))
      else mret (Err (MsalError_AADSTSError code text))
  | r => mret r
  end.

Definition try_prt_signin_frequency_check {R} (account_id : string) : EM U R (option (result UnixUserToken string)) :=
  entry ← attempt (hello (refresh_token account_id));
  match entry with
  | Ok (RefreshCacheEntry_Prt prt) =>
      r ← signin_frequency_exchange prt;
      match r with
      | Ok msal_token =>
          match_client (net_tpm (exchange_prt_for_prt prt machine_key)) (λ r,
            match r with
            | Ok new_prt =>
                _ ← hello (Hello.add account_id (RefreshCacheEntry_Prt new_prt));
                mret (Some (Ok (token_set_prt new_prt msal_token)))
            | Err _ => mret (Some (Ok msal_token))
            end)
      | Err MsalError_MFARequired => mret (Some (Err "PRT exchange requires MFA - sign-in frequency expired"))
      | Err MsalError_RequestFailed => _ ← net_down; mret None
      | Err e => mret (Some (Err ("PRT exchange failed: " +:+ msal_error_debug e)))
      end
  | _ => mret None
  end.

End device.
