(* ===== verification/EntraStep.v ===== *)
(** * The Entra ID provider: a step of an online login

    [unix_user_online_auth_step] of [src/common/src/idprovider/himmelblau.rs]: the macros
    of its prologue, one definition each, and the arms of its match on the credential
    handler and the answer of the user. The handler is part of the state. *)
From stdpp Require Import base gmap strings list fin_maps.
From Stdlib Require Import ZArith Lia Ascii.
From S2P Require Import Prelude Proto Interface Db Runtime Caches Idmap UserMap Config Hello Pam Daemon Entra EntraUser EntraInit EntraDevice.

Open Scope rust_scope.

Definition SESSION_EXPIRED : string := "Your session has expired. Please sign in again.".
Definition FIDO_UNAVAILABLE : string :=
  "FIDO authentication not available. Please try a different authentication method.".
Definition SETUP_PIN_MSG : string :=
  "Set up a PIN" +:+ NL +:+ " A Hello PIN is a fast, secure way to sign in to your device, apps, and services.".
Definition MFA_SETUP_PIN_MSG : string :=
  "Set up a PIN" +:+ NL +:+ " A Hello PIN is a fast, secure way to sign" +:+ "in to your device, apps, and services.".
Definition CHANGE_PASSWORD_MSG : string :=
  "Update your password" +:+ NL +:+ "You need to update your password because this is" +:+ NL
  +:+ "the first time you are signing in, or because your" +:+ NL +:+ "password has expired.".

(** AADSTS errors that only say that a second factor is missing. *)
Definition mfa_code (code : Z) : bool := bool_decide (code ∈ [50072; 50074; 50076]).

Section step.
Context {X : Ext} {C : Crypto} {HO : HelloOps} {E : Env} {HE : HelloEnv} {UNI : Unistring}.
Context {I : IniFile} {G : GeneratedConfig} {PC : PamConfig} {EC : EntraConfig} {H : Host} {F : Federation} {T : TextOps}.
Context {U : Type} {EE : EntraEnv U} {EF : EntraFlow U} {EL : EntraLogin U}.
Variable domain : string.
Variable machine_key : MachineKey.
Variables (account_id : string) (old_token : UserToken) (service : string) (no_hello_pin : bool).

Notation Answer := (AuthResult * AuthCacheAction)%type.

(** ** Signing in again *)

(** [Err(MsalError::RequestFailed(msg))]: offline from now on, and the login denied. *)
Definition network_down {A} : EM U Answer A :=
  _ ← net_down;
  denied NETWORK_OUTAGE.

(** Wait for [flow] with the PIN kept for the new PRT. *)
Definition await_reauth {A} (pin : string) (flow : MFAAuthContinue) (request : AuthRequest) : EM U Answer A :=
  _ ← put_handler (AuthCredHandler_MFA flow None None (Some pin));
  next request.

(** [request_reauth!]: it always leaves the function. *)
Definition request_reauth {A} (pin : string) : EM U Answer A :=
  cfg ← get_config;
  let remote := is_remote_service cfg service in
  if get_enable_experimental_mfa (config cfg) then
    flow ← match_client
      (net (initiate_enrollment_mfa_flow account_id None (mfa_options cfg remote) None (get_mfa_method (config cfg)))) (λ r,
      match r with
      | Ok flow => mret flow
      | Err MsalError_RequestFailed => network_down
      | Err MsalError_PasswordRequired =>
          _ ← put_handler (AuthCredHandler_ReauthPassword pin);
          next AuthRequest_Password
      | Err _ => denied SESSION_EXPIRED
      end);
    await_reauth pin flow (passwordless_request flow).1
  else
    flow ← match_client (net (initiate_enrollment_device_flow (session_options cfg remote))) (λ r,
      match r with
      | Ok flow => mret flow
      | Err MsalError_RequestFailed => network_down
      | Err _ => denied SESSION_EXPIRED
      end);
    await_reauth pin flow (poll_flow flow).1.

(** ** The Hello PIN *)

(** The PIN was right: ask for the TOTP code where one is demanded, set one up if there is
    none, and else let the user in with [success]. [sspr_demand_hello_fallback!] is this
    with the token of the cache. *)
Definition hello_totp_or {A} (cred : string) (success : UserToken) : EM U Answer A :=
  cfg ← get_config;
  if check_hello_totp_enabled cfg then
    setup ← hello (check_hello_totp_setup account_id);
    if setup : bool then
      _ ← put_handler (AuthCredHandler_HelloTOTP cred None);
      next (AuthRequest_HelloTOTP HELLO_TOTP_PROMPT)
    else
      '(handler, ans) ← hello (setup_hello_totp account_id cred machine_key);
      _ ← put_handler handler;
      e_return ans
  else answer (AuthResult_Success success).

(** The network failed after the PIN was accepted: an offline login. *)
Definition hello_offline {A} (cred : string) : EM U Answer A :=
  _ ← net_down;
  hello_totp_or cred old_token.

(** Count the failure and deny; [suffix] goes to the warnings only. *)
Definition bad_pin {A} (suffix : string) : EM U Answer A :=
  cfg ← get_config;
  _ ← hello (handle_hello_bad_pin_count cfg account_id
               (λ msg, (AuthResult_Denied (msg +:+ suffix), AuthCacheAction_None)));
  denied HELLO_PIN_FAILED.

Definition bad_pin_error {A} (e : MsalError) : EM U Answer A := bad_pin (" " +:+ msal_error_to_user_message e).

(** The token counts as a good PIN. *)
Definition good_pin (token : UnixUserToken) : EM U Answer UnixUserToken :=
  _ ← hello (reset_bad_pin_count account_id);
  mret token.

Definition by_hello_key {R} (hello_key : LoadableMsHelloKey) (cred : string) (scopes : list string)
  (client_id : option string) : EM U R (result UnixUserToken MsalError) :=
  net_tpm (token_by_hello_key account_id hello_key scopes client_id machine_key cred).

(** A retry from an arm of the match on the first request. *)
Definition retry_hello_key (hello_key : LoadableMsHelloKey) (cred : string) (scopes : list string)
  (client_id : option string) : EM U Answer UnixUserToken :=
  match_client (by_hello_key hello_key cred scopes client_id) (λ r,
    match r with
    | Ok token => good_pin token
    | Err e => bad_pin_error e
    end).

(** A token by a Hello for Business key. *)
Definition hello_key_token (hello_key : LoadableMsHelloKey) (cred : string) (client_id : option string)
  (scopes : list string) : EM U Answer UnixUserToken :=
  let edge := bool_decide (client_id = Some EDGE_BROWSER_CLIENT_ID) in
  let default_app := retry_hello_key hello_key cred ["https://graph.microsoft.com/.default"] (Some DEFAULT_APP_ID) in
  match_client (by_hello_key hello_key cred scopes client_id) (λ r,
    match r with
    | Ok token => good_pin token
    | Err MsalError_RequestFailed => hello_offline cred
    | Err e =>
        if is_sspr_required e then hello_totp_or cred old_token
        else match e with
             | MsalError_AcquireTokenFailed err =>
                 if bool_decide (CONSENT_REQUIRED ∈ error_codes err) then retry_hello_key hello_key cred [] None
                 else if edge then default_app
                 else check_new_device_enrollment_required domain err
             | MsalError_AADSTSError _ _ => if edge then default_app else bad_pin_error e
             | _ => bad_pin_error e
             end
    end).

(** The tokens sealed for the PIN, or those of the memory cache. *)
Definition memory_entry : EM U Answer (option RefreshCacheEntry) :=
  r ← attempt (hello (refresh_token account_id));
  mret (match r with Ok entry => Some entry | Err _ => None end).

Definition sealed_refresh_token (hello_key : LoadableMsHelloKey) (cred : string) (sealed : SealedData)
  : EM U Answer (option RefreshCacheEntry) :=
  pin ← e_some IdpError_Tpm (pin_value_new cred);
  o ← hello (with_tpm (ms_hello_key_load machine_key hello_key pin));
  storage_key ← e_some IdpError_Tpm o;
  o ← hello (with_tpm (unseal_data storage_key sealed));
  match o with
  | Some b =>
      text ← e_some IdpError_Tpm (string_from_utf8 b);
      mret (Some (RefreshCacheEntry_RefreshToken text))
  | None => memory_entry
  end.

Definition refresh_cache_entry (hello_key : LoadableMsHelloKey) (cred : string)
  : EM U Answer (option RefreshCacheEntry) :=
  r ← hello (ks_get sealed_from_slice (fetch_hello_prt_key_tag account_id));
  match r with
  | Ok (Some hello_prt) =>
      o ← with_client (hello (with_tpm (unseal_user_prt_with_hello_key hello_prt hello_key cred machine_key)));
      mret (RefreshCacheEntry_Prt <$> o)
  | _ =>
      r ← hello (ks_get sealed_from_slice (fetch_hello_refresh_token_key_tag account_id));
      match r with
      | Ok (Some sealed) => sealed_refresh_token hello_key cred sealed
      | _ => memory_entry
      end
  end.

(** The cached token of [tag] is of no use any more; the Hello key is kept. *)
Definition forget_and_reauth {A} (tag cred : string) : EM U Answer A :=
  r ← hello (ks_delete tag);
  _ ← e_ok IdpError_Tpm r;
  _ ← hello (reset_bad_pin_count account_id);
  request_reauth cred.

Definition with_new_prt (token : UnixUserToken) (r : option (result SealedData MsalError)) : UnixUserToken :=
  match r with Some (Ok new_prt) => token_set_prt new_prt token | _ => token end.

(** A decoupled key with a PRT. *)
Definition prt_token (prt : SealedData) (cred : string) (client_id : option string) (scopes : list string)
  : EM U Answer UnixUserToken :=
  r ← with_client (exchange_prt machine_key prt scopes client_id);
  match r with
  | Ok token =>
      new_prt ← with_client (net_tpm (exchange_prt_for_prt_in_time prt machine_key));
      good_pin (with_new_prt token new_prt)
  | Err MsalError_RequestFailed => hello_offline cred
  | Err e =>
      if is_sspr_required e then hello_totp_or cred old_token
      else match e with
           | MsalError_AcquireTokenFailed err =>
               if bool_decide (CONSENT_REQUIRED ∈ error_codes err) then
                 match_client (exchange_prt machine_key prt [] None) (λ r,
                   match r with
                   | Ok token =>
                       new_prt ← with_client (net_tpm (exchange_prt_for_prt prt machine_key));
                       good_pin (with_new_prt token (Some new_prt))
                   | Err e => denied ("Authentication failed. Please try signing in again. "
                                        +:+ msal_error_to_user_message e)
                   end)
               else check_new_device_enrollment_required domain err
           | _ => forget_and_reauth (fetch_hello_prt_key_tag account_id) cred
           end
  end.

(** A decoupled key with a refresh token. *)
Definition refresh_token_token (refresh_token cred : string) : EM U Answer UnixUserToken :=
  cfg ← get_config;
  ok ← net (entra_public_client (get_request_timeout (config cfg)) (get_ip_versions cfg));
  if ok : bool then
    r ← net (public_token_by_refresh_token refresh_token []);
    match r with
    | Ok token => good_pin token
    | Err MsalError_RequestFailed => hello_offline cred
    | Err e =>
        if is_sspr_required e then hello_totp_or cred old_token
        else forget_and_reauth (fetch_hello_refresh_token_key_tag account_id) cred
    end
  else denied "Authentication service unavailable. Please try again later.".

Definition decoupled_token (hello_key : LoadableMsHelloKey) (cred : string) (client_id : option string)
  (scopes : list string) : EM U Answer UnixUserToken :=
  entry ← refresh_cache_entry hello_key cred;
  match entry with
  | Some (RefreshCacheEntry_Prt prt) => prt_token prt cred client_id scopes
  | Some (RefreshCacheEntry_RefreshToken t) => refresh_token_token t cred
  | None => request_reauth cred
  end.

(** Seal the PRT, or the refresh token, for the PIN. *)
Definition seal_token (hello_key : LoadableMsHelloKey) (cred : string) (token : UnixUserToken) : EM U Answer unit :=
  match token_prt token with
  | Some prt =>
      o ← with_client (hello (with_tpm (seal_user_prt_with_hello_key prt hello_key cred machine_key)));
      match o with
      | Some hello_prt =>
          r ← hello (ks_insert sealed_to_vec (fetch_hello_prt_key_tag account_id) hello_prt);
          e_ok IdpError_Tpm r
      | None => mret tt
      end
  | None =>
      pin ← e_some IdpError_Tpm (pin_value_new cred);
      o ← hello (with_tpm (ms_hello_key_load machine_key hello_key pin));
      storage_key ← e_some IdpError_Tpm o;
      o ← hello (with_tpm (seal_data storage_key (String.list_byte_of_string (token_refresh_token token))));
      sealed ← e_some IdpError_Tpm o;
      r ← hello (ks_insert sealed_to_vec (fetch_hello_refresh_token_key_tag account_id) sealed);
      e_ok IdpError_Tpm r
  end.

(** [match self.token_validate(account_id, &token, None).await] *)
Definition validated {A} (token : UnixUserToken) (success : UserToken → EM U Answer A) : EM U Answer A :=
  r ← attempt (token_validate domain account_id token None);
  match r with
  | Ok (AuthResult_Success t) => success t
  | Ok r => answer r
  | Err e => e_fail e
  end.

(** What follows a token got with the PIN. *)
Definition validate_hello {A} (cred : string) (token : UnixUserToken) : EM U Answer A :=
  r ← attempt (token_validate domain account_id token None);
  match r with
  | Ok (AuthResult_Success t) => hello_totp_or cred t
  | Ok (AuthResult_Next _) => denied "Unexpected authentication step. Please try signing in again."
  | Ok r => answer r
  | Err e => e_fail e
  end.

(** The sign-in with a key that the PIN opened. *)
Definition hello_sign_in {A} (hello_key : LoadableMsHelloKey) (keytype : KeyType) (cred : string) : EM U Answer A :=
  cfg ← get_config;
  let '(client_id, scopes) := app_and_scopes domain cfg in
  token ← (match keytype with
           | KeyType_Hello => hello_key_token hello_key cred client_id scopes
           | KeyType_Decoupled => decoupled_token hello_key cred client_id scopes
           end);
  _ ← seal_token hello_key cred token;
  enrolled ← is_intune_enrolled domain;
  _ ← (if enrolled : bool then mret tt else intune_enroll_step domain machine_key token);
  validate_hello cred token.

(** [auth_and_validate_hello_key!]: the key is loaded first, since the requests below may
    fail before they look at the PIN. *)
Definition auth_and_validate_hello_key {A} (hello_key : LoadableMsHelloKey) (keytype : KeyType) (cred : string)
  : EM U Answer A :=
  pin ← e_some IdpError_Tpm (pin_value_new cred);
  o ← hello (with_tpm (ms_hello_key_load machine_key hello_key pin));
  match o with
  | None => bad_pin ""
  | Some _ => hello_sign_in hello_key keytype cred
  end.

(** ** After a password *)

(** [if .. get_offline_breakglass_enabled()]: keep a hash of the password. *)
Definition hash_action {R} (cred : string) : EM U R AuthCacheAction :=
  cfg ← get_config;
  mret (if get_offline_breakglass_enabled (config cfg) then AuthCacheAction_PasswordHashUpdate cred
        else AuthCacheAction_None).

Definition is_code_method (m : string) : bool :=
  existsb (String.eqb m) ["AccessPass"; "PhoneAppOTP"; "OneWaySMS"; "ConsolidatedTelephony"].

Definition second_factor {A} (flow : MFAAuthContinue) (cred : string) (reauth_hello_pin : option string)
  (request : AuthRequest) : EM U Answer A :=
  _ ← put_handler (AuthCredHandler_MFA flow (Some cred) None reauth_hello_pin);
  action ← hash_action cred;
  e_return (AuthResult_Next request, action).

(** [nested_auth_handle_mfa_resp!] over [auth_handle_mfa_resp!] *)
Definition nested_auth_handle_mfa_resp {A} (resp : MFAAuthContinue) (cred : string) (reauth_hello_pin : option string)
  : EM U Answer A :=
  let poll := AuthRequest_MFAPoll (flow_msg resp) (default 5000 (flow_polling_interval resp) / 1000) in
  match flow_mfa_method resp with
  | Some m =>
      if String.eqb m "FidoKey" then
        match flow_fido_challenge resp, flow_fido_allow_list resp with
        | Some challenge, Some allow_list =>
            second_factor resp cred reauth_hello_pin (AuthRequest_Fido challenge allow_list false false)
        | _, _ => denied FIDO_UNAVAILABLE
        end
      else if is_code_method m then second_factor resp cred reauth_hello_pin (AuthRequest_MFACode (flow_msg resp))
      else second_factor resp cred reauth_hello_pin poll
  | None => second_factor resp cred reauth_hello_pin poll
  end.

(** [maybe_prompt_setup_pin_after_password_only_success!] *)
Definition maybe_prompt_setup_pin {A} (enrollment_token : UnixUserToken) (success_token : UserToken)
  (action : AuthCacheAction) : EM U Answer A :=
  cfg ← get_config;
  hello_key ← hello (fetch_hello_key account_id);
  if get_enable_hello (config cfg) && negb no_hello_pin && negb (is_ok hello_key) then
    _ ← put_handler (AuthCredHandler_SetupPin (Some enrollment_token));
    e_return (AuthResult_Next (AuthRequest_SetupPin SETUP_PIN_MSG), action)
  else e_return (AuthResult_Success success_token, action).

(** A password that was enough, with the token the directory gave for it. *)
Definition password_only_success {A} (token : UnixUserToken) (cred : string) : EM U Answer A :=
  validated token (λ t, action ← hash_action cred; maybe_prompt_setup_pin token t action).

(** [prt_signin_frequency_check!] *)
Definition prt_signin_frequency_check (cred : string) : EM U Answer unit :=
  prt_result ← try_prt_signin_frequency_check domain machine_key account_id;
  match prt_result with
  | Some (Ok msal_token) => password_only_success msal_token cred
  | _ => mret tt
  end.

(** [reseal_prt_with_existing_hello_key_on_success!] *)
Definition reseal_prt_with_existing_hello_key_on_success (token : UnixUserToken) (reauth_hello_pin : option string)
  (success_token : UserToken) : EM U Answer unit :=
  match reauth_hello_pin with
  | Some pin =>
      r ← hello (fetch_hello_key account_id);
      match r with
      | Ok (hello_key, _) =>
          _ ← hello (seal_prt_with_existing_hello_key account_id token hello_key pin machine_key);
          _ ← hello (reset_bad_pin_count account_id);
          answer (AuthResult_Success success_token)
      | Err _ => mret tt
      end
  | None => mret tt
  end.

Definition ask_new_password {A} (old_cred : string) : EM U Answer A :=
  _ ← put_handler (AuthCredHandler_ChangePassword old_cred);
  next (AuthRequest_ChangePassword CHANGE_PASSWORD_MSG).

(** ** The arms *)

(** [(SetupPin, SetupPin)] *)
Definition setup_pin_arm (token : option UnixUserToken) (pin : string) : EM U Answer Answer :=
  match token with
  | None => denied "PIN setup failed. Please try signing in again."
  | Some token =>
      let amr_ngcmfa := default false (token_amr_ngcmfa token) in
      '(hello_key, keytype) ←
        (if amr_ngcmfa then
           r ← net_tpm (provision_hello_key token machine_key pin);
           k ← step_net_down_check domain r (λ e, next (AuthRequest_SetupPin
             ("Failed to provision hello key: " +:+ msal_error_debug e +:+ NL
                +:+ "Create a PIN to use in place of passwords.")));
           mret (k, KeyType_Hello)
         else
           k ← hello (create_decoupled_hello_key pin machine_key IdpError_Tpm);
           mret (k, KeyType_Decoupled));
      r ← hello (ks_insert hello_key_to_vec (fetch_hello_key_tag account_id amr_ngcmfa) hello_key);
      _ ← e_ok IdpError_Tpm r;
      auth_and_validate_hello_key hello_key keytype pin
  end.

(** [(_, Pin)] *)
Definition pin_arm (cred : string) : EM U Answer Answer :=
  '(hello_key, keytype) ← hello (fetch_hello_key_or_fail account_id);
  auth_and_validate_hello_key hello_key keytype cred.

Definition by_password {R} (cred : string) : EM U R (result UnixUserToken MsalError) :=
  net_tpm (token_by_username_password account_id cred [] (Some "https://graph.microsoft.com") machine_key).

(** [if !auth_options.contains(&AuthOption::ForceMFA) ..push(..)] *)
Definition with_force_mfa (auth_options : list AuthOption) : list AuthOption :=
  if existsb (auth_option_eqb opt_force_mfa) auth_options then auth_options else auth_options ++ [opt_force_mfa].

(** The options are those of the handler, changed in place. *)
Definition put_options {R} (auth_options : list AuthOption) (is_domain_joined : bool) : EM U R unit :=
  put_handler (AuthCredHandler_PasswordFirst auth_options is_domain_joined).

Definition start_mfa {R} (cred : string) (auth_options : list AuthOption) : EM U R (result MFAAuthContinue MsalError) :=
  cfg ← get_config;
  net (initiate_enrollment_mfa_flow account_id (Some cred) auth_options None (get_mfa_method (config cfg))).

(** The flow after the password was looked at; the retry is an arm of the match on the
    first request. *)
Definition password_first_flow (auth_options : list AuthOption) (is_domain_joined : bool) (cred : string)
  : EM U Answer MFAAuthContinue :=
  match_client (start_mfa cred auth_options) (λ r, step_net_down_check domain r (λ e,
    match e with
    | MsalError_MFARequired =>
        let auth_options := with_force_mfa auth_options in
        _ ← put_options auth_options is_domain_joined;
        match_client (start_mfa cred auth_options) (λ r, step_net_down_check domain r deny_error)
    | MsalError_PasswordRequired => denied "Authentication failed. Please try again."
    | _ => deny_error e
    end)).

(** What the directory says of the password on a joined device; [mret tt] is the way to
    the MFA flow. *)
Definition try_password (cred : string) : EM U Answer unit :=
  r ← with_client (by_password cred);
  match r with
  | Ok token =>
      token2 ← enroll_and_obtain_enrolled_token domain machine_key token;
      password_only_success token2 cred
  | Err (MsalError_AADSTSError code text) =>
      if mfa_code code then prt_signin_frequency_check cred
      else deny_error (MsalError_AADSTSError code text)
  | Err MsalError_MFARequired => prt_signin_frequency_check cred
  | Err MsalError_ChangePassword => ask_new_password cred
  | Err e => deny_error e
  end.

(** [(PasswordFirst, Password)] *)
Definition password_first_arm (auth_options : list AuthOption) (is_domain_joined : bool) (cred : string)
  : EM U Answer Answer :=
  auth_options ←
    (if is_domain_joined then
       _ ← try_password cred;
       let auth_options := with_force_mfa auth_options in
       _ ← put_options auth_options is_domain_joined;
       mret auth_options
     else mret auth_options);
  flow ← password_first_flow auth_options is_domain_joined cred;
  nested_auth_handle_mfa_resp flow cred None.

Definition is_remote_login (cfg : HimmelblauConfig) : bool :=
  is_remote_service cfg service || contains_str (to_lowercase service) "ssh".

Definition password_options (cfg : HimmelblauConfig) (sfa_enabled : bool) : list AuthOption :=
  let remote := is_remote_login cfg in
  fido_options cfg remote ++ session_options cfg remote ++ push_if sfa_enabled opt_no_dag_fallback.

(** The change of password the handler waits for; a failure is only logged, and the old
    password used. *)
Definition change_password (handler : AuthCredHandler) (cred : string) : EM U Answer string :=
  match handler with
  | AuthCredHandler_ChangePassword old_cred =>
      match_client (net (handle_password_change account_id old_cred cred)) (λ r,
        match r with
        | Err MsalError_RequestFailed => network_down
        | Err (MsalError_AcquireTokenFailed e) => check_new_device_enrollment_required domain e
        | Ok _ => mret cred
        | Err _ => mret old_cred
        end)
  | _ => mret cred
  end.

(** The single-factor fallback, on an enrolled device only. *)
Definition sfa_token (cred : string) (e : MsalError) : EM U Answer UnixUserToken :=
  _ ← (match e with
       | MsalError_AADSTSError code _ =>
           if mfa_code code then mret tt
           else denied ("Authentication failed (AADSTS" +:+ uint_to_string code +:+ ")")
       | _ => mret tt
       end);
  joined ← is_domain_joined domain;
  if joined : bool then
    r ← with_client (by_password cred);
    step_net_down_check domain r (λ e,
      match e with
      | MsalError_ChangePassword => ask_new_password cred
      | _ => deny_error e
      end)
  else deny_error e.

Definition sfa_fallback {A} (sfa_enabled : bool) (cred : string) (e : MsalError) : EM U Answer A :=
  token ← (if sfa_enabled then sfa_token cred e else deny_error e);
  token2 ← enroll_and_obtain_enrolled_token domain machine_key token;
  validated token2 (λ t, e_return (AuthResult_Success t, AuthCacheAction_PasswordHashUpdate cred)).

Definition pending_pin (handler : AuthCredHandler) : option string :=
  match handler with AuthCredHandler_ReauthPassword pin => Some pin | _ => None end.

(** [(change_password, Password)] *)
Definition password_arm (handler : AuthCredHandler) (cred : string) : EM U Answer Answer :=
  let reauth_hello_pin := pending_pin handler in
  cred ← change_password handler cred;
  cfg ← get_config;
  let sfa_enabled := match reauth_hello_pin with
                     | Some _ => false
                     | None => get_enable_sfa_fallback (config cfg)
                     end in
  mresp ← with_client (start_mfa cred (password_options cfg sfa_enabled));
  resp ← step_net_down_check domain mresp (sfa_fallback sfa_enabled cred);
  nested_auth_handle_mfa_resp resp cred reauth_hello_pin.

(** The token of a flow; the flow is changed in the handler. *)
Definition mfa_flow_token (flow : MFAAuthContinue) (password extra_data reauth_hello_pin : option string)
  (auth_data : option string) (poll_attempt : option Z) (other : MsalError → EM U Answer UnixUserToken)
  : EM U Answer UnixUserToken :=
  match_client
    ('(r, flow) ← net (token_by_mfa_flow account_id auth_data poll_attempt flow);
     _ ← put_handler (AuthCredHandler_MFA flow password extra_data reauth_hello_pin);
     mret r)
    (λ r, step_net_down_check domain r other).

Definition change_password_or_deny {A} (password : option string) (e : MsalError) : EM U Answer A :=
  match e, password with
  | MsalError_ChangePassword, Some old_cred => ask_new_password old_cred
  | _, _ => deny_error e
  end.

(** The end of a flow: the PRT sealed for the PIN that asked for it, or a PIN set up where
    there is none. *)
Definition mfa_finish {A} (token token2 : UnixUserToken) (reauth_hello_pin : option string) : EM U Answer A :=
  validated token2 (λ token3,
    _ ← reseal_prt_with_existing_hello_key_on_success token2 reauth_hello_pin token3;
    cfg ← get_config;
    if negb (get_enable_hello (config cfg)) || no_hello_pin then answer (AuthResult_Success token3)
    else
      hello_key ← hello (fetch_hello_key account_id);
      if is_ok hello_key then answer (AuthResult_Success token3)
      else
        _ ← put_handler (AuthCredHandler_SetupPin (Some token));
        next (AuthRequest_SetupPin MFA_SETUP_PIN_MSG)).

(** [(MFA, MFACode)] *)
Definition mfa_data_arm (flow : MFAAuthContinue) (password extra_data reauth_hello_pin : option string)
  (auth_data : string) : EM U Answer Answer :=
  token ← mfa_flow_token flow password extra_data reauth_hello_pin (Some auth_data) None
            (change_password_or_deny password);
  token2 ← enroll_and_obtain_enrolled_token domain machine_key token;
  mfa_finish token token2 reauth_hello_pin.

(** [(MFA, Fido)]: the same code again, with an assertion. *)
Definition fido_arm (flow : MFAAuthContinue) (password extra_data reauth_hello_pin : option string)
  (assertion : string) : EM U Answer Answer :=
  mfa_data_arm flow password extra_data reauth_hello_pin assertion.

Definition MSA_TENANT : string := "9188040d-6c67-4c5b-b112-36a304b66dad".

(** [(MFA, MFAPoll)] *)
Definition mfa_poll_arm (flow : MFAAuthContinue) (password extra_data reauth_hello_pin : option string)
  (poll_attempt : Z) : EM U Answer Answer :=
  if default 180 (flow_max_poll_attempts flow) <? poll_attempt then
    denied "Authentication timed out. Please try again."
  else
    token ← mfa_flow_token flow password extra_data reauth_hello_pin None (Some poll_attempt) (λ e,
      match e with
      | MsalError_MFAPollContinue => next AuthRequest_MFAPollWait
      | MsalError_MFARequired => denied "Multi-factor authentication required. Please try signing in again."
      | _ => change_password_or_deny password e
      end);
    tenant ← e_some (IdpError_NotFound "tenant_id from token" "unix_user_online_auth_step") (token_tenant_id token);
    token2 ← (if String.eqb tenant MSA_TENANT then mret token
              else enroll_and_obtain_enrolled_token domain machine_key token);
    mfa_finish token token2 reauth_hello_pin.

(** [match (&mut *cred_handler, pam_next_req)] *)
Definition online_arms (handler : AuthCredHandler) (pam_next_req : PamAuthRequest) : EM U Answer Answer :=
  match handler, pam_next_req with
  | AuthCredHandler_SetupPin token, PamAuthRequest_SetupPin pin => setup_pin_arm token pin
  | _, PamAuthRequest_Pin cred => pin_arm cred
  | AuthCredHandler_PasswordFirst auth_options joined, PamAuthRequest_Password cred =>
      password_first_arm auth_options joined cred
  | handler, PamAuthRequest_Password cred => password_arm handler cred
  | AuthCredHandler_MFA flow password extra pin, PamAuthRequest_MFACode cred =>
      mfa_data_arm flow password extra pin cred
  | AuthCredHandler_MFA flow password extra pin, PamAuthRequest_MFAPoll poll_attempt =>
      mfa_poll_arm flow password extra pin poll_attempt
  | AuthCredHandler_MFA _ _ _ _, PamAuthRequest_FidoUnavailable =>
      _ ← put_handler AuthCredHandler_None;
      next AuthRequest_Password
  | AuthCredHandler_MFA flow password extra pin, PamAuthRequest_Fido assertion =>
      fido_arm flow password extra pin assertion
  | AuthCredHandler_HelloTOTP hello_pin pending, PamAuthRequest_HelloTOTP cred =>
      cfg ← get_config;
      hello (handle_hello_pin_totp_auth cfg account_id old_token cred hello_pin machine_key pending
               (λ auth_result, (auth_result, AuthCacheAction_None)))
  | _, _ => e_fail (IdpError_NotFound "AuthCredHandler, PamAuthRequest" "cred_handler, pam_next_req")
  end.

Definition entra_online_auth_step (pam_next_req : PamAuthRequest) : EM U Answer Answer :=
  init ← delayed_init domain;
  if init : bool then
    handler ← get_handler;
    online_arms handler pam_next_req
  else network_down.

End step.
