(* ===== verification/EntraTheorems.v ===== *)
(** * Properties of the Entra ID provider

    A calculus for the monad [EM], and what holds of the tokens the provider builds, of
    the users it refreshes and of the first request of a login. *)
From stdpp Require Import base gmap strings list fin_maps.
From Stdlib Require Import ZArith Lia Ascii.
From S2P Require Import Prelude Proto Interface Db Runtime Caches Idmap UserMap Config Hello Pam Entra EntraUser EntraInit.

Open Scope rust_scope.

(** ** What a computation ensures when it returns *)

Section calculus.
Context {X : Ext} {C : Crypto} {HO : HelloOps} {E : Env} {HE : HelloEnv} {UNI : Unistring}.
Context {I : IniFile} {G : GeneratedConfig} {PC : PamConfig} {EC : EntraConfig} {H : Host} {F : Federation} {T : TextOps}.
Context {U : Type} {EE : EntraEnv U}.

(** From [s], the value satisfies [Q] and an early return satisfies [K]; a call that fails
    or panics is not constrained. *)
Definition ewp {R A} (m : EM U R A) (Q : A → EState U → Prop) (K : R → EState U → Prop) (s : EState U) : Prop :=
  match m s with
  | (inl a, s') => Q a s'
  | (inr (Return r), s') => K r s'
  | _ => True
  end.

Lemma ewp_ret {R A} (a : A) Q (K : R → EState U → Prop) s : Q a s → ewp (mret a) Q K s.
Proof. done. Qed.

Lemma ewp_bind {R A B} (m : EM U R A) (k : A → EM U R B) Q K s :
  ewp m (λ a, ewp (k a) Q K) K s → ewp (a ← m; k a) Q K s.
Proof.
  unfold ewp at 1 3. unfold mbind, EM_bind. destruct (m s) as [[a|[]] s']; auto.
Qed.

Lemma ewp_mono {R A} (m : EM U R A) (P Q : A → EState U → Prop) (J K : R → EState U → Prop) s :
  ewp m P J s → (∀ a s', P a s' → Q a s') → (∀ r s', J r s' → K r s') → ewp m Q K s.
Proof. unfold ewp. intros Hm HQ HK. destruct (m s) as [[a|[]] s']; auto. Qed.

Lemma ewp_attempt {R A} (m : EM U A A) Q (K : R → EState U → Prop) s :
  ewp m (λ a, Q (Ok a)) (λ a, Q (Ok a)) s → (∀ e s', Q (Err e) s') → ewp (attempt m) Q K s.
Proof. unfold ewp, attempt. intros Hm He. destruct (m s) as [[a|[]] s']; auto. Qed.

(** What a whole call returns. *)
Lemma ewp_run {R} (m : EM U R R) Q s r s' : ewp m Q Q s → run_em m s = (Some (Ok r), s') → Q r s'.
Proof. unfold ewp, run_em. by intros Hm; destruct (m s) as [[a|[]] s1]; intros [= <- <-]. Qed.

(** A computation about which nothing is said. *)
Lemma ewp_any {R A} (m : EM U R A) Q (K : R → EState U → Prop) s :
  (∀ a s', Q a s') → (∀ r s', K r s') → ewp m Q K s.
Proof. unfold ewp. intros HQ HK. destruct (m s) as [[a|[]] s']; auto. Qed.

(** Computations that never return early. *)
Definition straight {R A} (m : EM U R A) : Prop := ∀ s r s', m s ≠ (inr (Return r), s').

Lemma ewp_straight {R A} (m : EM U R A) Q (K : R → EState U → Prop) s :
  straight m → (∀ a s', m s = (inl a, s') → Q a s') → ewp m Q K s.
Proof. unfold ewp. intros Hm HQ. destruct (m s) as [[a|[]] s'] eqn:E1; auto. by apply Hm in E1. Qed.

Lemma straight_ret {R A} (a : A) : straight (R := R) (mret a).
Proof. done. Qed.
Lemma straight_bind {R A B} (m : EM U R A) (k : A → EM U R B) :
  straight m → (∀ a, straight (k a)) → straight (a ← m; k a).
Proof.
  intros Hm Hk s r s'. unfold mbind, EM_bind. destruct (m s) as [[a|[]] s1] eqn:E1; [apply Hk|done| |done|done].
  by apply Hm in E1.
Qed.
Lemma straight_fail {R A} e : straight (R := R) (A := A) (e_fail e).
Proof. done. Qed.
Lemma straight_panic {R A} : straight (R := R) (A := A) e_panic.
Proof. done. Qed.
Lemma straight_some {R A} e (o : option A) : straight (R := R) (e_some e o).
Proof. by destruct o. Qed.
Lemma straight_net {R A} (f : U → A * U) : straight (R := R) (net f).
Proof. intros s r s'. unfold net. by destruct (f _). Qed.
Lemma straight_net_tpm {R A} (f : Hsm → U → A * Hsm * U) : straight (R := R) (net_tpm f).
Proof. intros s r s'. unfold net_tpm. by destruct (f _ _) as [[]]. Qed.
Lemma straight_look {R A} (f : U → A) : straight (R := R) (look f).
Proof. done. Qed.
Lemma straight_config {R} : straight (R := R) get_config.
Proof. done. Qed.
Lemma straight_idmap {R} : straight (R := R) get_idmap.
Proof. done. Qed.
Lemma straight_alias {R A} (f : AliasState → A * AliasState) : straight (R := R) (alias_io f).
Proof. intros s r s'. unfold alias_io. by destruct (f _). Qed.
Lemma straight_attempt {R A} (m : EM U A A) : straight (R := R) (attempt m).
Proof. intros s r s'. unfold attempt. by destruct (m s) as [[a|[]] s1]. Qed.

Lemma straight_match_client {R A B} (m : EM U R A) (k : A → EM U R B) :
  straight m → (∀ a, straight (k a)) → straight (match_client m k).
Proof.
  intros Hm Hk s r s'. unfold match_client. destruct (e_locked s); [done|].
  destruct ((a ← m; k a) (set_locked true s)) as [[b|x] s1] eqn:E1; intros [= -> _].
  by apply (straight_bind m k Hm Hk) in E1.
Qed.

Lemma straight_with_client {R A} (m : EM U R A) : straight m → straight (with_client m).
Proof. intros Hm. apply straight_match_client; [done|]. intros a. apply straight_ret. Qed.

End calculus.

Create HintDb straight discriminated.
#[export] Hint Resolve straight_ret straight_fail straight_panic straight_some straight_net straight_net_tpm
  straight_look straight_config straight_idmap straight_alias straight_attempt straight_with_client : straight.

(** Walk through a computation that never returns early. *)
Ltac straight_tac :=
  repeat first
  [ solve [eauto 2 with straight]
  | progress intros
  | apply straight_bind
  | apply straight_with_client
  | match goal with |- straight (match ?x with _ => _ end) => destruct x end
  | match goal with |- straight (if ?x then _ else _) => destruct x end ].

(** ** Postconditions that do not look at the state *)

Section ensures.
Context {X : Ext} {C : Crypto} {HO : HelloOps} {E : Env} {HE : HelloEnv} {UNI : Unistring}.
Context {I : IniFile} {G : GeneratedConfig} {PC : PamConfig} {EC : EntraConfig} {H : Host} {F : Federation} {T : TextOps}.
Context {U : Type} {EE : EntraEnv U}.

Definition ensures {R A} (m : EM U R A) (Q : A → Prop) (K : R → Prop) : Prop :=
  ∀ s, ewp m (λ a _, Q a) (λ r _, K r) s.

Lemma ensures_ret {R A} (a : A) (Q : A → Prop) (K : R → Prop) : Q a → ensures (mret a) Q K.
Proof. by intros ? s. Qed.

Lemma ensures_return {R A} (r : R) (Q : A → Prop) (K : R → Prop) : K r → ensures (e_return r) Q K.
Proof. by intros ? s. Qed.

Lemma ensures_fail {R A} e (Q : A → Prop) (K : R → Prop) : ensures (e_fail e) Q K.
Proof. done. Qed.

Lemma ensures_bind {R A B} (m : EM U R A) (k : A → EM U R B) (P : A → Prop) Q K :
  ensures m P K → (∀ a, P a → ensures (k a) Q K) → ensures (a ← m; k a) Q K.
Proof. intros Hm Hk s. apply ewp_bind. eapply ewp_mono; [apply Hm|intros a s' Ha; by apply Hk|done]. Qed.

Lemma ensures_match_client {R A B} (m : EM U R A) (k : A → EM U R B) (P : A → Prop) Q K :
  ensures m P K → (∀ a, P a → ensures (k a) Q K) → ensures (match_client m k) Q K.
Proof.
  intros Hm Hk s. unfold ewp, match_client. destruct (e_locked s); [done|].
  pose proof (ensures_bind m k P Q K Hm Hk (set_locked true s)) as Hb. unfold ewp in Hb.
  by destruct ((a ← m; k a) (set_locked true s)) as [[b|[]] s1].
Qed.

Lemma ensures_straight {R A} (m : EM U R A) (K : R → Prop) : straight m → ensures m (λ _, True) K.
Proof. intros Hm s. by apply ewp_straight. Qed.

Lemma ensures_attempt {R A} (m : EM U A A) (Q : A → Prop) (K : R → Prop) :
  ensures m Q Q → ensures (attempt m) (λ r, match r with Ok a => Q a | Err _ => True end) K.
Proof. intros Hm s. apply ewp_attempt; [apply Hm|done]. Qed.

Lemma ensures_some {R A} e (o : option A) (K : R → Prop) : ensures (e_some e o) (λ a, o = Some a) K.
Proof. intros s. by destruct o. Qed.

Lemma ensures_mono {R A} (m : EM U R A) (P Q : A → Prop) (J K : R → Prop) :
  ensures m P J → (∀ a, P a → Q a) → (∀ r, J r → K r) → ensures m Q K.
Proof. intros Hm HQ HK s. eapply ewp_mono; [apply Hm|auto..]. Qed.

(** What a whole call returns. *)
Lemma ensures_run {R} (m : EM U R R) (Q : R → Prop) s r s' :
  ensures m Q Q → run_em m s = (Some (Ok r), s') → Q r.
Proof.
  intros Hm. exact (ewp_run _ (λ r _, Q r) _ _ _ (Hm s)).
Qed.

Lemma straight_hello {R A} (m : HM R A) : (∀ s r s', m s ≠ (inr (Return r), s')) → straight (U := U) (hello m).
Proof. intros Hm s r s'. unfold hello. destruct (m (e_hello s)) as [[a|e] h] eqn:E1; [done|]. intros [= -> _]. by apply Hm in E1. Qed.

Lemma straight_now {R} : straight (U := U) (R := R) (hello system_now).
Proof. by apply straight_hello. Qed.
Lemma straight_client {R} : straight (U := U) (R := R) (hello get_client).
Proof. by apply straight_hello. Qed.
Lemma straight_add {R} a e : straight (U := U) (R := R) (hello (Hello.add a e)).
Proof. by apply straight_hello. Qed.
Lemma straight_set_state {R} st : straight (U := U) (R := R) (set_cache_state st).
Proof. by apply straight_hello. Qed.
Lemma straight_plus_secs {R} t d : straight (U := U) (R := R) (hello (plus_secs t d)).
Proof. apply straight_hello. intros s r s'. unfold plus_secs. by destruct (_ <=? _). Qed.
Lemma straight_idmap_io {R A} (f : Idmap → Idmap * A) : straight (U := U) (R := R) (idmap_io f).
Proof. intros s r s'. unfold idmap_io. by destruct (f _). Qed.

End ensures.

#[export] Hint Resolve straight_now straight_client straight_add straight_set_state straight_plus_secs straight_idmap_io : straight.

(** Step over a computation whose value does not matter. *)
Ltac skip := eapply ensures_bind; [by apply ensures_straight; straight_tac|intros ? _].

(** ** Names of groups *)

Section tokens.
Context {X : Ext} {C : Crypto} {HO : HelloOps} {E : Env} {HE : HelloEnv} {UNI : Unistring}.
Context {I : IniFile} {G : GeneratedConfig} {PC : PamConfig} {EC : EntraConfig} {H : Host} {F : Federation} {T : TextOps}.
Context {U : Type} {EE : EntraEnv U}.
Context (domain : string) (machine_key : MachineKey).

(** A group whose name looks like a UPN is a primary group of the token's own user. *)
Definition upn_groups_own (spn : string) (groups : list GroupToken) : Prop :=
  ∀ g, g ∈ groups → contains_char AT (g_name g) = true → to_lowercase (g_name g) = to_lowercase spn.

Lemma group_token_plain value (K : GroupToken → Prop) :
  ensures (U := U) (group_token_from_directory_object value) (λ g, contains_char AT (g_name g) = false) K.
Proof.
  unfold group_token_from_directory_object. destruct (contains_char AT _) eqn:Ha; [apply ensures_fail|].
  skip. eapply ensures_bind; [apply ensures_straight; unfold open_id_cache; straight_tac|intros ? _]. skip.
  eapply ensures_bind; [apply ensures_straight|intros ? _; by apply ensures_ret].
  unfold group_gid, number_of_sid, number_of_name, graph_tenant, idmap_number. straight_tac.
Qed.

Lemma group_tokens_plain {R} groups (K : R → Prop) :
  ensures (U := U) (group_tokens groups) (λ l, ∀ g, g ∈ l → contains_char AT (g_name g) = false) K.
Proof.
  induction groups as [|g groups IH]; simpl; [apply ensures_ret; set_solver|].
  eapply ensures_bind; [apply ensures_attempt, group_token_plain|intros r Hr].
  eapply ensures_bind; [apply IH|intros l Hl]. apply ensures_ret. destruct r; [|done]. set_solver.
Qed.

(** Groups whose name looks like a UPN were kept from the old token. *)
Definition kept_upn_groups (old_token : option UserToken) (groups : list GroupToken) : Prop :=
  ∀ g, g ∈ groups → contains_char AT (g_name g) = true → g ∈ kept_groups old_token.

Lemma user_details_groups {R} access uuid old (K : R → Prop) :
  ensures (U := U) (user_details access uuid old) (λ p, kept_upn_groups old p.1) K.
Proof.
  unfold user_details. destruct access as [tok|]; [|by apply ensures_ret; intros g].
  skip. eapply (ensures_bind _ _ (kept_upn_groups old)).
  - destruct a as [groups|]; [|by apply ensures_ret; intros g].
    eapply ensures_mono; [apply group_tokens_plain|intros l Hl g Hg Ha; by rewrite Hl in Ha|done].
  - intros groups Hg. skip. destruct (get_id_attr_map _); [by apply ensures_ret..|]. skip. by apply ensures_ret.
Qed.

(** The token is for [spn], and its groups that look like a UPN were kept or are its own
    primary group. *)
Definition built_for (spn : string) (old_token : option UserToken) (t : UserToken) : Prop :=
  t_name t = spn ∧ t_spn t = spn ∧
  ∀ g, g ∈ t_groups t → contains_char AT (g_name g) = true →
    g ∈ kept_groups old_token ∨ g = primary_group spn (t_uuid t) (t_gidnumber t).

Lemma number_straight {R} spn uuid attrs : straight (U := U) (R := R) (mapped_uid spn uuid attrs).
Proof. unfold mapped_uid, number_of_sid, number_of_name, graph_tenant, idmap_number. straight_tac. Qed.

Lemma user_numbers_groups {R} spn uuid groups attrs old (K : R → Prop) :
  kept_upn_groups old groups →
  ensures (U := U) (user_numbers spn uuid groups attrs)
    (λ p, ∀ g, g ∈ p.2 → contains_char AT (g_name g) = true →
      g ∈ kept_groups old ∨ g = primary_group spn uuid p.1.1) K.
Proof.
  intros Hg. unfold user_numbers. skip. skip.
  destruct (get_local_from_upn _ _) as [user|].
  { destruct (cstring_ok user); [skip; apply ensures_ret; auto|apply ensures_fail]. }
  eapply ensures_bind; [apply ensures_straight; unfold open_id_cache; straight_tac|intros cache _]. skip.
  destruct (get_user_by_name _ _ _); [by apply ensures_ret; auto|].
  eapply ensures_bind; [apply ensures_straight, number_straight|intros uid _].
  destruct (attrs !! _); [skip; apply ensures_ret; auto|].
  apply ensures_ret. simpl. intros g [Hin|Hin]%elem_of_app Ha; [by left; apply Hg|right; set_solver].
Qed.

Lemma user_token_built {R} spn value old (K : R → Prop) :
  ensures (U := U) (user_token_from_unix_user_token domain spn value old)
    (λ t, built_for (to_lowercase spn) old t ∧ value_uuid value = Some (t_uuid t)) K.
Proof.
  unfold user_token_from_unix_user_token.
  eapply ensures_bind; [apply ensures_some|intros uuid Hu].
  eapply ensures_bind; [apply user_details_groups|intros [groups attrs] Hg].
  eapply ensures_bind; [by eapply user_numbers_groups|intros [[uid gid] groups'] Hg'].
  skip. eapply ensures_bind; [apply ensures_straight; unfold tenant_uuid, graph_tenant; straight_tac|intros tid _].
  by apply ensures_ret.
Qed.

(** ** The user behind a token *)

(** [token_validate] accepts the token only of the user it was asked for. *)
Lemma same_user_straight {R} a spn : straight (U := U) (R := R) (same_user a spn).
Proof. unfold same_user. straight_tac. Qed.

Lemma token_validate_built account token old :
  let Q r := match r with
             | AuthResult_Success t =>
                 built_for (to_lowercase account) old t ∧ token_uuid token = Some (t_uuid t)
             | AuthResult_Denied msg => msg = mismatch_msg token
             | AuthResult_Next _ => False
             end in
  ensures (U := U) (token_validate domain account token old) Q Q.
Proof.
  intros Q. unfold token_validate. destruct (token_access token); [|apply ensures_fail].
  skip. eapply ensures_bind; [apply ensures_straight, same_user_straight|intros same _].
  destruct same; [|by apply ensures_ret]. skip.
  eapply ensures_bind; [apply user_token_built|intros t [Hb Hu]]. by apply ensures_ret.
Qed.

(** ** Refreshing a user *)

(** What [unix_user_get] may answer for [account] with [old]. *)
Definition get_answer (account : string) (old : option UserToken) (r : UserTokenState) : Prop :=
  match r with
  | UserTokenState_UseCached => True
  | UserTokenState_NotFound => old = None
  | UserTokenState_Update t =>
      to_lowercase (t_spn t) = to_lowercase account ∧
      (upn_groups_own account (kept_groups old) → upn_groups_own account (t_groups t)) ∧
      ∀ o, old = Some o → t_displayname t = t_displayname o
  end.

Lemma built_answer account old t :
  built_for (to_lowercase account) old t → get_answer account old (UserTokenState_Update (keep_displayname old t)).
Proof.
  intros (_ & Hs & Hg). destruct old as [o|]; simpl; rewrite Hs, to_lowercase_idemp; (split; [done|]); (split; [|naive_solver]);
    intros Hk g Hin Ha; (destruct (Hg g Hin Ha) as [Ho| ->]; [by apply Hk|simpl; apply to_lowercase_idemp]).
Qed.

Lemma net_down_straight {R} : straight (U := U) (R := R) net_down.
Proof. unfold net_down, go_offline. straight_tac. Qed.

Lemma net_down_check_answer {A} (r : result A MsalError) other account old (Q : A → Prop) :
  ensures (U := U) other Q (get_answer account old) → (∀ a, Q a) →
  ensures (U := U) (net_down_check r other) Q (get_answer account old).
Proof.
  intros Ho HQ. destruct r as [a|[]]; try done; [by apply ensures_ret|]. simpl. unfold use_cached.
  eapply ensures_bind; [apply ensures_straight, net_down_straight|intros ? _]. by apply ensures_return.
Qed.

Lemma fake_user_answer {A} account old cache (Q : A → Prop) :
  (∀ o, old = Some o → t_spn o = account) →
  ensures (U := U) (fake_user domain machine_key account old cache) Q (get_answer account old).
Proof.
  intros Ho. unfold fake_user. destruct old as [o|].
  { apply ensures_return. simpl. rewrite (Ho o eq_refl). split_and!; [done|auto|]. by intros ? [= ->]. }
  skip. eapply (ensures_bind _ _ (λ _, True)); [apply net_down_check_answer; [apply ensures_fail|done]|intros init _].
  destruct (init_exists init); [|by apply ensures_return].
  eapply ensures_bind.
  { apply ensures_straight. unfold fake_numbers, number_of_sid, number_of_name, graph_tenant, idmap_number. straight_tac. }
  intros [uid gid] _. skip. skip.
  eapply ensures_bind; [apply ensures_straight; unfold tenant_uuid, graph_tenant; straight_tac|intros tid _].
  apply ensures_return. simpl. split_and!; [done| |done]. intros _ g Hg _. set_solver.
Qed.

Lemma ok_or_else_answer {A} (r : result A MsalError) other account old :
  ensures (U := U) other (λ _ : A, True) (get_answer account old) →
  ensures (U := U) (ok_or_else r other) (λ _, True) (get_answer account old).
Proof. destruct r; [by intros _; apply ensures_ret|done]. Qed.

Lemma exchange_prt_straight {R} prt scopes cid : straight (U := U) (R := R) (exchange_prt machine_key prt scopes cid).
Proof. unfold exchange_prt. straight_tac. Qed.

Lemma token_by_prt_answer prt fall_back account old :
  ensures (U := U) fall_back (λ _ : UnixUserToken, True) (get_answer account old) →
  ensures (U := U) (token_by_prt domain machine_key prt fall_back) (λ _, True) (get_answer account old).
Proof.
  intros Hg. unfold token_by_prt. skip. destruct (app_and_scopes _ _) as [cid scopes].
  eapply ensures_bind; [apply ensures_straight, straight_with_client, exchange_prt_straight|intros mtoken _].
  destruct mtoken as [tok|[]]; try done; repeat case_bool_decide; try done.
  all: lazymatch goal with |- context [thread_sleep] => skip | _ => idtac end.
  all: eapply ensures_match_client; [apply ensures_straight, exchange_prt_straight|intros r _].
  all: first [by apply ok_or_else_answer|by apply net_down_check_answer].
Qed.

Lemma token_by_refresh_token_answer tok fall_back account old :
  ensures (U := U) fall_back (λ _ : UnixUserToken, True) (get_answer account old) →
  ensures (U := U) (token_by_refresh_token tok fall_back) (λ _, True) (get_answer account old).
Proof.
  intros Hg. unfold token_by_refresh_token. skip. skip. destruct a0; [|apply ensures_fail]. skip.
  destruct a0 as [t|[]]; try done. skip. skip. by apply net_down_check_answer.
Qed.

Lemma confidential_answer account old cid creds :
  ensures (U := U) (fetch_user_confidential_client domain account old cid creds) (λ _, True) (get_answer account old).
Proof.
  unfold fetch_user_confidential_client. skip. skip. skip. destruct a1; [|apply ensures_fail]. skip.
  destruct a1 as [token|]; [|by apply ensures_ret]. skip. destruct a1 as [user|]; [|by apply ensures_ret].
  eapply ensures_bind; [apply ensures_attempt; apply (user_token_built account)|intros r Hr].
  destruct r as [t|]; [|by apply ensures_ret]. apply ensures_return, built_answer, Hr.
Qed.

Lemma fetch_user_answer account old :
  (∀ o, old = Some o → t_spn o = account) →
  ensures (U := U) (fetch_user domain machine_key account old) (get_answer account old) (get_answer account old).
Proof.
  intros Ho. unfold fetch_user. skip.
  eapply (ensures_bind _ _ (λ _, True)).
  { destruct a as [[[cid creds]|]|]; [apply confidential_answer|by apply ensures_ret..]. }
  intros _ _. eapply ensures_bind; [apply ensures_straight; unfold open_id_cache; straight_tac|intros cache _]. skip.
  skip. eapply (ensures_bind _ _ (λ _, True)).
  { destruct a1 as [[prt|tok]|]; [apply token_by_prt_answer|apply token_by_refresh_token_answer|];
      by apply fake_user_answer. }
  intros token _. eapply ensures_bind; [apply ensures_attempt, token_validate_built|intros r Hr].
  destruct r as [[t| |]|]; [|by apply fake_user_answer..]. apply ensures_ret, built_answer. apply Hr.
Qed.

Lemma delayed_init_straight {R} : straight (U := U) (R := R) (delayed_init domain).
Proof.
  intros s r s'. unfold delayed_init. destruct (e_init s); [done|]. revert s r s'.
  change (straight (U := U) (R := R) (r ← attempt (first_init domain);
    match r with Ok _ => _ ← set_init; mret true | Err _ => mret false end)).
  straight_tac. by intros s r s'.
Qed.

Lemma probe_online_straight {R} t : straight (U := U) (R := R) (probe_online domain t).
Proof. unfold probe_online, go_offline. straight_tac. Qed.

Lemma check_online_straight {R} t : straight (U := U) (R := R) (entra_check_online domain t).
Proof.
  unfold entra_check_online. apply straight_bind; [eauto with straight|intros c].
  destruct (state c); [straight_tac..|]. destruct (_ <=? _); [apply probe_online_straight|straight_tac].
Qed.

Lemma user_get_ensures id_ old :
  ensures (U := U) (entra_user_get domain machine_key id_ old)
    (get_answer (account_of id_ old) old) (get_answer (account_of id_ old) old).
Proof.
  unfold entra_user_get.
  eapply ensures_bind; [apply ensures_straight, delayed_init_straight|intros init _]. destruct init.
  - skip. eapply ensures_bind; [apply ensures_straight, check_online_straight|intros online _].
    destruct online; [|by apply ensures_ret]. apply fetch_user_answer. by intros o ->.
  - unfold use_cached. eapply ensures_bind; [apply ensures_straight, net_down_straight|intros ? _]. by apply ensures_return.
Qed.

(** Refreshing a user never loses one: a user with a cached token is never reported as
    not found (which would delete the account), keeps the display name, and the new
    token is for the same user. And no group can be made to look like another user's:
    every group of an updated token whose name holds an at sign bears the user's own UPN,
    provided the cached token's groups do. *)
Theorem user_get_keeps_user id_ old s r s' :
  run_em (entra_user_get (U := U) domain machine_key id_ old) s = (Some (Ok r), s') →
  get_answer (account_of id_ old) old r.
Proof. apply ensures_run, user_get_ensures. Qed.

(** C10. A token is accepted only for the user it was asked for: [token_validate] succeeds
    only on a token with an access token whose UPN is the account's up to case, or has
    the same local part and a domain that is an alias of the account's; and the user
    token it gives is for the account, with the directory's object id. *)
Theorem token_validate_same_user account token old s t s' :
  run_em (token_validate (U := U) domain account token old) s = (Some (Ok (AuthResult_Success t)), s') →
  built_for (to_lowercase account) old t ∧ token_uuid token = Some (t_uuid t) ∧
  token_access token ≠ None ∧
  ∃ spn, token_spn token = Some spn ∧
    (to_lowercase account = to_lowercase spn ∨
     ∃ l1 d1 l2 d2, split_username account = Some (l1, d1) ∧ split_username spn = Some (l2, d2) ∧
       to_lowercase l1 = to_lowercase l2 ∧ (domains_are_aliases url_ok d1 d2 (e_alias s)).1 = true).
Proof.
  intros Hr. pose proof (ensures_run _ _ _ _ _ (token_validate_built account token old) Hr) as [Hb Hu].
  split; [done|]. split; [done|]. revert Hr. unfold run_em, token_validate.
  destruct (token_access token); [|done]. split; [done|]. revert Hr. unfold mbind, EM_bind.
  destruct (token_spn token) as [spn|]; [|done]. simpl. unfold same_user.
  destruct (String.eqb_spec (to_lowercase account) (to_lowercase spn)) as [He|Hne]; [eauto|].
  unfold mbind, EM_bind. destruct (split_username account) as [[l1 d1]|]; [|done].
  destruct (split_username spn) as [[l2 d2]|] eqn:Hs2; [|done]. simpl. unfold alias_io. simpl.
  destruct (domains_are_aliases _ _ _ _) as [m a] eqn:Hd. simpl.
  destruct (String.eqb_spec (to_lowercase l1) (to_lowercase l2)); simpl; [|discriminate].
  destruct m; [|discriminate].
  intros _. exists spn. split; [done|]. right. exists l1, d1, l2, d2. split_and!; [done..|]. by rewrite Hd.
Qed.

End tokens.

(** ** The first request of a login *)

Section begin.
Context {X : Ext} {C : Crypto} {HO : HelloOps} {E : Env} {HE : HelloEnv} {UNI : Unistring}.
Context {I : IniFile} {G : GeneratedConfig} {PC : PamConfig} {EC : EntraConfig} {H : Host} {F : Federation} {T : TextOps}.
Context {U : Type} {EE : EntraEnv U} {EF : EntraFlow U}.
Context (domain : string).

(** Only the counter of the oracles has moved. *)
Definition ticked (s s' : EState U) : Prop :=
  h_client (e_hello s') = h_client (e_hello s) ∧ h_keys (e_hello s') = h_keys (e_hello s) ∧
  e_alias s' = e_alias s ∧ e_init s' = e_init s ∧ e_idmap s' = e_idmap s ∧ e_net s' = e_net s.

#[export] Instance ticked_preorder : PreOrder ticked.
Proof. split; [by repeat split|]. intros a b c (?&?&?&?&?&?) (?&?&?&?&?&?). repeat split; congruence. Qed.

(** The key store holds a key under the tag. *)
Definition key_stored {K} (from_slice : bytes → option K) (tag : string) (s : EState U) : Prop :=
  is_Some (h_keys (e_hello s) !! tag ≫= from_slice).

Definition hello_key_stored (account : string) (s : EState U) : Prop :=
  key_stored hello_key_from_slice (to_lowercase account +:+ "/hello") s ∨
  key_stored hello_key_from_slice (to_lowercase account +:+ "/hello_decoupled") s.

Lemma ewp_ks_get {R K} (from_slice : bytes → option K) tag (Q : R → EState U → Prop) s :
  ewp (hello (ks_get from_slice tag))
    (λ r s', ticked s s' ∧ ∀ k, r = Ok (Some k) → key_stored from_slice tag s) Q s.
Proof.
  unfold ewp, hello, ks_get, key_stored. destruct (key_fault _); simpl; (split; [by repeat split|]); [done|].
  intros k [= Hk]. by rewrite Hk.
Qed.

(** Run a step that only moves the counter, from a state that is [s] but for it. *)
Lemma ewp_ticked {R A B} (m : EM U R A) (k : A → EM U R B) (P : A → Prop) Q K s s1 :
  ticked s s1 → ewp m (λ a s', ticked s1 s' ∧ P a) K s1 →
  (∀ a s2, ticked s s2 → P a → ewp (k a) Q K s2) → ewp (a ← m; k a) Q K s1.
Proof.
  intros Ht Hm Hk. apply ewp_bind. eapply ewp_mono; [exact Hm| |done].
  intros a s2 [Ht2 Ha]. apply Hk; [by etrans|done].
Qed.

Lemma key_stored_ticked {K} (f : bytes → option K) tag s s' : ticked s s' → key_stored f tag s' → key_stored f tag s.
Proof. intros (_ & Hk & _). unfold key_stored. by rewrite Hk. Qed.

Lemma ewp_hello_bind {R A B} (m : HM R A) (k : A → HM R B) Q K (s : EState U) :
  ewp (a ← hello m; hello (k a)) Q K s → ewp (hello (a ← m; k a)) Q K s.
Proof.
  unfold ewp, hello, mbind, EM_bind, HM_bind. destruct (m (e_hello s)) as [[a|e] h]; simpl; [|done].
  by destruct (k a h) as [[]].
Qed.

Lemma ewp_fetch_hello_key {R} account (Q : R → EState U → Prop) s :
  ewp (hello (fetch_hello_key account))
    (λ r s', ticked s s' ∧ (is_ok r = true → hello_key_stored account s)) Q s.
Proof.
  apply ewp_hello_bind. eapply ewp_ticked; [reflexivity|apply ewp_ks_get|]. intros r s2 Ht Hr.
  assert (∀ k, r = Ok (Some k) → hello_key_stored account s) as Hr' by (intros k Hk; left; by eapply Hr).
  destruct r as [[k|]|]; [by split; eauto|..]; apply ewp_hello_bind;
    (eapply ewp_ticked; [exact Ht|apply ewp_ks_get|]); intros r s3 Ht3 Hr3; (split; [done|]);
    (destruct r as [[k3|]|]; [|done..]); intros _; right; (eapply key_stored_ticked; [exact Ht|by eapply Hr3]).
Qed.

(** The device is joined: keys and an id, or an account of a consumer. *)
Definition joined_device (s : EState U) : Prop :=
  is_consumer_tenant domain (as_config (e_alias s)) = true ∨
  (config_get (as_config (e_alias s)) domain "device_id" ≠ None ∧
   key_stored rsa_key_from_slice (fetch_tranport_key_tag domain) s ∧
   key_stored enrolment_key_from_slice (fetch_cert_key_tag domain) s).

Definition enrolled_device (s : EState U) : Prop :=
  is_consumer_tenant domain (as_config (e_alias s)) = true ∨
  (config_get (as_config (e_alias s)) domain "intune_device_id" ≠ None ∧
   key_stored enrolment_key_from_slice (fetch_intune_key_tag domain) s).

Lemma joined_ticked s s' : ticked s s' → joined_device s' → joined_device s.
Proof. intros (_ & Hk & Ha & _). unfold joined_device, key_stored. by rewrite Hk, Ha. Qed.

Lemma enrolled_ticked s s' : ticked s s' → enrolled_device s' → enrolled_device s.
Proof. intros (_ & Hk & Ha & _). unfold enrolled_device, key_stored. by rewrite Hk, Ha. Qed.

Lemma ewp_is_domain_joined {R} (Q : R → EState U → Prop) s :
  ewp (is_domain_joined domain) (λ b s', ticked s s' ∧ (b = true → joined_device s)) Q s.
Proof.
  unfold is_domain_joined. apply ewp_bind. unfold ewp at 1. simpl. unfold joined_device.
  destruct (is_consumer_tenant _ _) eqn:Hc; [by apply ewp_ret; split; [|left]|].
  destruct (config_get _ domain "device_id") eqn:Hid; [|by apply ewp_ret].
  eapply ewp_ticked; [reflexivity|apply ewp_ks_get|]. intros r s2 Ht Hr.
  destruct r as [[k|]|]; [|by apply ewp_ret..].
  eapply ewp_ticked; [done|apply ewp_ks_get|]. intros r s3 Ht3 Hr3. apply ewp_ret. split; [done|].
  destruct r as [[k3|]|]; try done. intros _. right. split; [done|]. split; [by eapply Hr|].
  eapply key_stored_ticked; [exact Ht|]. by eapply Hr3.
Qed.

Lemma ewp_is_intune_enrolled {R} (Q : R → EState U → Prop) s :
  ewp (is_intune_enrolled domain) (λ b s', ticked s s' ∧ (b = true → enrolled_device s)) Q s.
Proof.
  unfold is_intune_enrolled. apply ewp_bind. unfold ewp at 1. simpl. unfold enrolled_device.
  destruct (is_consumer_tenant _ _) eqn:Hc; [by apply ewp_ret; split; [|left]|].
  destruct (config_get _ domain "intune_device_id") eqn:Hid; [|by apply ewp_ret].
  eapply ewp_ticked; [reflexivity|apply ewp_ks_get|]. intros r s2 Ht Hr. apply ewp_ret. split; [done|].
  destruct r as [[k|]|]; try done. intros _. right. split; [done|]. by eapply Hr.
Qed.

Lemma probe_online_up {R} t (K : R → EState U → Prop) s :
  ewp (probe_online domain t) (λ b s', b = true → state (h_client (e_hello s')) = CacheState_Online) K s.
Proof.
  unfold probe_online. repeat (apply ewp_bind; apply ewp_straight; [straight_tac|intros ? ? _]).
  destruct a1; [|apply ewp_bind; apply ewp_straight; [unfold go_offline; straight_tac|by intros]].
  apply ewp_bind. apply ewp_straight; [straight_tac|intros up s1 _]. destruct up; [|].
  - by intros _.
  - apply ewp_bind; apply ewp_straight; [unfold go_offline; straight_tac|by intros].
Qed.

(** Signing in to the directory never asks for the PIN. *)
Definition not_pin (p : AuthRequest * AuthCredHandler) : Prop := p.1 ≠ AuthRequest_Pin.

Lemma init_net_down_check_not_pin {A} (r : result A MsalError) other :
  (∀ e, ensures (U := U) (other e) (λ _ : A, True) not_pin) →
  ensures (U := U) (init_net_down_check r other) (λ _, True) not_pin.
Proof.
  intros Ho. destruct r as [a|[]]; try apply Ho; [by apply ensures_ret|]. simpl.
  eapply ensures_bind; [apply ensures_straight, net_down_straight|intros ? _]. by apply ensures_return.
Qed.

Lemma ask_password_not_pin handler :
  straight handler → ensures (U := U) (ask_password domain handler) not_pin not_pin.
Proof.
  intros Hh. unfold ask_password. skip.
  eapply ensures_bind; [apply ensures_straight, probe_online_straight|intros online _].
  destruct online; [|by apply ensures_ret].
  eapply ensures_bind; [by apply ensures_straight|intros h _]. by apply ensures_ret.
Qed.

Lemma is_domain_joined_straight {R} : straight (U := U) (R := R) (is_domain_joined domain).
Proof.
  unfold is_domain_joined, fetch_loadable_transport_key_from_keystore, fetch_loadable_cert_key_from_keystore.
  straight_tac; by apply straight_hello.
Qed.

Lemma directory_init_not_pin account remote :
  ensures (U := U) (directory_init domain account remote) not_pin not_pin.
Proof.
  unfold directory_init. eapply ensures_bind; [apply ensures_straight, delayed_init_straight|intros init _].
  destruct init; [|eapply ensures_bind; [apply ensures_straight, net_down_straight|intros ? _]; by apply ensures_ret].
  skip. destruct (get_enable_experimental_mfa _).
  - unfold mfa_init. skip. skip.
    eapply ensures_bind; [apply init_net_down_check_not_pin; by intros|intros auth_init _].
    destruct (_ && _); [apply ask_password_not_pin|destruct (negb _); [apply ask_password_not_pin; straight_tac|]].
    + apply straight_bind; [apply is_domain_joined_straight|straight_tac].
    + skip. eapply ensures_bind; [apply init_net_down_check_not_pin|intros flow _].
      * intros []; try apply ensures_fail. by apply ensures_return.
      * apply ensures_ret. unfold passwordless_request. by repeat case_match.
  - unfold device_init. skip. skip.
    eapply ensures_bind; [apply init_net_down_check_not_pin; by intros|intros flow _]. by apply ensures_ret.
Qed.

(** The conditions for a PIN, in the state before the request and the one after. *)
Record pin_allowed (account service : string) (no_hello_pin force_reauth : bool) (s s' : EState U) : Prop := {
  pa_joined : joined_device s;
  pa_enrolled : get_apply_policy (config (as_config (e_alias s))) = true → enrolled_device s;
  pa_key : hello_key_stored account s;
  pa_hello : get_enable_hello (config (as_config (e_alias s))) = true;
  pa_pin : no_hello_pin = false;
  pa_reauth : force_reauth = false;
  pa_remote : is_remote_service (as_config (e_alias s)) service = true →
    check_hello_totp_enabled (as_config (e_alias s)) = true ∨
    get_allow_remote_hello (config (as_config (e_alias s))) = true;
  pa_count : bad_pin_count account (h_client (e_hello s))
               ≤ get_hello_pin_retry_count (config (as_config (e_alias s)));
  pa_online : state (h_client (e_hello s')) = CacheState_Online
}.

Lemma online_init_pin account service nhp fr s :
  let Q p s' := p.1 = AuthRequest_Pin → pin_allowed account service nhp fr s s' in
  ewp (entra_online_auth_init (U := U) domain account service nhp fr) Q Q s.
Proof.
  intros Q. set (cfg := as_config (e_alias s)). unfold entra_online_auth_init.
  eapply ewp_ticked; [reflexivity|apply ewp_fetch_hello_key|intros key s1 Ht1 Hkey].
  eapply (ewp_ticked _ _ (λ c, c = cfg)); [exact Ht1|by split; [|destruct Ht1 as (_ & _ & -> & _)]|].
  intros c s2 Ht2 ->.
  eapply (ewp_ticked _ _ (λ b, get_apply_policy (config cfg) = true → b = false → enrolled_device s2)); [exact Ht2| |].
  { destruct (get_apply_policy _); [|by apply ewp_ret]. apply ewp_bind.
    eapply ewp_mono; [apply ewp_is_intune_enrolled|intros b s3 [Ht3 Hb]|done]. apply ewp_ret. split; [done|].
    intros _ ->%negb_false_iff. by apply Hb. }
  intros needed s3 Ht3 Hneeded.
  eapply ewp_ticked; [exact Ht3|apply ewp_is_domain_joined|intros joined s4 Ht4 Hjoined].
  eapply (ewp_ticked _ _ (λ c, c = h_client (e_hello s))); [exact Ht4|by split; [|destruct Ht4 as (-> & _)]|].
  intros c s5 Ht5 ->. destruct (_ || _) eqn:Hg.
  - eapply ewp_mono; [apply directory_init_not_pin|by intros ?? Hn ?..].
  - unfold pin_init. apply ewp_bind, ewp_straight; [straight_tac|intros t s6 _].
    apply ewp_bind. eapply ewp_mono; [apply probe_online_up|intros online s7 Hup|done].
    destruct online; [|done]. intros _. rewrite !orb_false_iff in Hg.
    destruct Hg as (((((((Hj & Hk) & Hh) & Hrem) & Hcnt%Z.ltb_ge) & Hnd) & Hp) & Hf).
    apply negb_false_iff in Hj, Hk, Hh. split; try done.
    + by apply (joined_ticked s s3), Hjoined.
    + intros Ha. by apply (enrolled_ticked s s2), Hneeded.
    + by apply Hkey.
    + intros Hr. fold cfg in Hr. rewrite Hr in Hrem. simpl in Hrem. fold cfg.
      apply andb_false_iff in Hrem as [?%negb_false_iff|?%negb_false_iff]; [by left|by right].
    + by apply Hup.
Qed.

(** C11. A PIN is asked for online only where it may be used: on a device that is joined to
    the directory (and enrolled, where policies are applied), for an account with a
    Hello key and not too many bad PINs, with Hello enabled, when the login neither
    refuses the PIN nor forces a full sign-in, for a remote service only with TOTP or
    with remote Hello allowed, and while the network is up. *)
Theorem pin_only_on_bound_device account service nhp fr s h s' :
  run_em (entra_online_auth_init (U := U) domain account service nhp fr) s = (Some (Ok (AuthRequest_Pin, h)), s') →
  pin_allowed account service nhp fr s s'.
Proof.
  intros Hr. by apply (ewp_run _ _ _ _ _ (online_init_pin account service nhp fr s) Hr).
Qed.

End begin.

(** ** Two domains, one range *)

Section ranges.
Context {X : Ext} {C : Crypto} {HO : HelloOps} {E : Env} {HE : HelloEnv} {UNI : Unistring}.
Context {I : IniFile} {G : GeneratedConfig} {PC : PamConfig} {EC : EntraConfig} {H : Host} {F : Federation} {T : TextOps}.
Context {U : Type} {EE : EntraEnv U} {EF : EntraFlow U}.
Context (domain : string) (machine_key : MachineKey).

(** The lower end of the domain's range lies in the range of a domain that is already
    registered, as it does when both have the default one. *)
Definition range_taken (s : EState U) : Prop :=
  ∃ d, d ∈ ctx (e_idmap s) ∧ dom_external_mapping d = false ∧
    dom_min_id d ≤ (get_idmap_range (as_config (e_alias s)) domain).1 ≤ dom_max_id d.

Definition stuck (s : EState U) : Prop := e_init s = false ∧ range_taken s.

Lemma add_gen_domain_taken m name tenant range d :
  d ∈ ctx m → dom_external_mapping d = false → dom_min_id d ≤ range.1 ≤ dom_max_id d →
  (add_gen_domain m name tenant range).2 ≠ Ok tt ∧ ctx (add_gen_domain m name tenant range).1 = ctx m.
Proof.
  intros Hd Hx Hr. unfold add_gen_domain. destruct (ranges m !! tenant); [done|].
  destruct (negb (cstring_ok name)); [done|]. destruct (negb (cstring_ok tenant)); [done|].
  unfold sss_idmap_add_gen_domain_ex. replace (dom_check_collision _ _) with true; [done|].
  symmetry. apply existsb_exists. exists d. split; [by apply list_elem_of_In|].
  unfold check_collision_ex. simpl. rewrite Hx.
  replace (_ || _) with true; [done|]. symmetry. apply orb_true_iff. left. apply andb_true_iff.
  split; apply Z.leb_le; apply Hr.
Qed.

(** Steps that leave the id map, the configuration and the flag alone. *)
Definition keeps_stuck {R A} (m : EM U R A) : Prop := ∀ s, stuck s → stuck (m s).2.

Lemma keeps_net {R A} (f : U → A * U) : keeps_stuck (R := R) (net f).
Proof. intros s Hs. unfold net. by destruct (f _). Qed.
Lemma keeps_hello {R A} (m : HM R A) : keeps_stuck (hello m).
Proof. intros s Hs. unfold hello. by destruct (m _). Qed.
Lemma keeps_stuck_bind {R A B} (m : EM U R A) (k : A → EM U R B) :
  keeps_stuck m → (∀ a, keeps_stuck (k a)) → keeps_stuck (a ← m; k a).
Proof.
  intros Hm Hk s Hs. specialize (Hm s Hs). unfold mbind, EM_bind. destruct (m s) as [[a|e] s1]; [by apply Hk|done].
Qed.

Lemma keeps_net_down {R} : keeps_stuck (R := R) net_down.
Proof. repeat (apply keeps_stuck_bind; [apply keeps_hello|intros ?]). apply keeps_hello. Qed.

Lemma ewp_stuck {R A B} (m : EM U R A) (k : A → EM U R B) Q K s :
  stuck s → straight m → keeps_stuck m → (∀ a s', stuck s' → ewp (k a) Q K s') → ewp (a ← m; k a) Q K s.
Proof.
  intros Hs Hst Hm Hk. apply ewp_bind, ewp_straight; [done|]. intros a s' E1. apply Hk.
  specialize (Hm s Hs). by rewrite E1 in Hm.
Qed.

(** A computation that can only fail. *)
Definition fails {R A} (m : EM U R A) : Prop :=
  ∀ s, stuck s → (m s).1 = inr (Fail IdpError_BadRequest) ∧ stuck (m s).2.

Lemma fails_net {R A B} (f : U → A * U) (k : A → EM U R B) : (∀ a, fails (k a)) → fails (a ← net f; k a).
Proof.
  intros Hk s Hs. pose proof (keeps_net (R := R) f s Hs) as Hn. unfold mbind, EM_bind. unfold net in *.
  destruct (f (e_net s)) as [a u]. by apply Hk.
Qed.

Lemma fails_some {R A B} (o : option A) (k : A → EM U R B) :
  (∀ a, fails (k a)) → fails (a ← e_some IdpError_BadRequest o; k a).
Proof. intros Hk s Hs. unfold mbind, EM_bind. destruct o; simpl; [by apply Hk|done]. Qed.

Lemma first_init_fails : fails (first_init domain).
Proof.
  unfold first_init. repeat (apply fails_net; intros ?; apply fails_some; intros ?).
  intros s (Hi & d & Hd & Hx & Hr). unfold mbind, EM_bind, get_config, idmap_io.
  destruct (add_gen_domain_taken (e_idmap s) domain a0 _ d Hd Hx Hr) as [Hne Hc].
  destruct (add_gen_domain _ _ _ _) as [m r]. simpl in *. destruct r as [[]|]; [done|]. simpl. split; [done|].
  split; [done|]. exists d. simpl. by rewrite Hc.
Qed.

Lemma delayed_init_stuck {R} Q (K : R → EState U → Prop) s :
  stuck s → (∀ s', stuck s' → Q false s') → ewp (delayed_init domain) Q K s.
Proof.
  intros Hs HQ. pose proof Hs as [Hi _]. unfold ewp, delayed_init. rewrite Hi. unfold mbind, EM_bind, attempt.
  destruct (first_init_fails s Hs) as [Hf Hs']. destruct (first_init domain s) as [o s1]. simpl in Hf. subst o.
  simpl. by apply HQ.
Qed.

Lemma user_get_stuck id_ old s :
  let Q r s' := r = UserTokenState_UseCached ∧ stuck s' in
  stuck s → ewp (entra_user_get (U := U) domain machine_key id_ old) Q Q s.
Proof.
  intros Q Hs. unfold entra_user_get. apply ewp_bind, delayed_init_stuck; [done|]. intros s1 Hs1.
  unfold use_cached. eapply ewp_stuck; [done|apply net_down_straight|apply keeps_net_down|]. by intros _ s2 Hs2.
Qed.

Lemma online_init_stuck account service nhp s :
  let Q r s' := r = outage ∧ stuck s' in
  stuck s → ewp (entra_online_auth_init (U := U) domain account service nhp true) Q Q s.
Proof.
  intros Q Hs. unfold entra_online_auth_init.
  eapply ewp_ticked; [reflexivity|apply ewp_fetch_hello_key|intros key s1 Ht1 _].
  eapply (ewp_ticked _ _ (λ _, True)); [exact Ht1|done|intros cfg s2 Ht2 _].
  eapply (ewp_ticked _ _ (λ _, True)); [exact Ht2| |intros needed s3 Ht3 _].
  { destruct (get_apply_policy _); [|by apply ewp_ret]. apply ewp_bind.
    eapply ewp_mono; [apply ewp_is_intune_enrolled|by intros b s3 [Ht3 _]|done]. }
  eapply ewp_ticked; [exact Ht3|apply ewp_is_domain_joined|intros joined s4 Ht4 _].
  eapply (ewp_ticked _ _ (λ _, True)); [exact Ht4|done|intros c s5 Ht5 _]. rewrite orb_true_r.
  assert (stuck s5) as Hs5.
  { destruct Ht5 as (_ & _ & Ha & Hi & Hm & _), Hs as [Hs1 Hs2]. split; [by rewrite Hi|].
    unfold range_taken in *. by rewrite Ha, Hm. }
  unfold directory_init. apply ewp_bind, delayed_init_stuck; [done|]. intros s6 Hs6.
  eapply ewp_stuck; [done|apply net_down_straight|apply keeps_net_down|]. by intros _ s7 Hs7.
Qed.

(** A domain whose range begins inside the range of a domain initialised before it
    never starts: while the network is up, its users are not refreshed, a full sign-in
    is refused with a message about a network outage, and the state stays that way.
    Two domains of different tenants without an [idmap_range] of their own are such a
    pair, since both get the default range. *)
Theorem second_domain_never_starts s :
  stuck s →
  (∀ id_ old r s', run_em (entra_user_get (U := U) domain machine_key id_ old) s = (Some (Ok r), s') →
     r = UserTokenState_UseCached ∧ stuck s') ∧
  (∀ account service nhp r s',
     run_em (entra_online_auth_init (U := U) domain account service nhp true) s = (Some (Ok r), s') →
     r = outage ∧ stuck s').
Proof.
  intros Hs. split.
  - intros id_ old r s'. exact (ewp_run _ _ _ _ _ (user_get_stuck id_ old s Hs)).
  - intros account service nhp r s'. exact (ewp_run _ _ _ _ _ (online_init_stuck account service nhp s Hs)).
Qed.

End ranges.
