(* ===== verification/EntraStepTheorems.v ===== *)
(** * Properties of an online login step

    What a user has shown when a step of the Entra ID provider lets him in, or asks him
    to set up a PIN. *)
From stdpp Require Import base gmap strings list fin_maps.
From Stdlib Require Import ZArith Lia Ascii.
From S2P Require Import Prelude Proto Interface Db Runtime Caches Idmap UserMap Config Hello HelloTheorems Pam Daemon Entra EntraUser EntraInit EntraDevice EntraStep EntraTheorems.

Open Scope rust_scope.

(** ** More rules *)

Section rules.
Context {X : Ext} {C : Crypto} {HO : HelloOps} {E : Env} {HE : HelloEnv} {UNI : Unistring}.
Context {INI : IniFile} {G : GeneratedConfig} {PC : PamConfig} {EC : EntraConfig} {H : Host} {F : Federation} {T : TextOps}.
Context {U : Type} {EE : EntraEnv U} {EF : EntraFlow U} {EL : EntraLogin U}.

Lemma ensures_net {R A} (f : U → A * U) (K : R → Prop) : ensures (net f) (λ a, ∃ u u', f u = (a, u')) K.
Proof. intros s. unfold ewp, net. destruct (f (e_net s)) as [a u] eqn:Hf. eauto. Qed.

Lemma ensures_net_tpm {R A} (f : Hsm → U → A * Hsm * U) (K : R → Prop) :
  ensures (net_tpm f) (λ a, ∃ h u h' u', f h u = (a, h', u')) K.
Proof. intros s. unfold ewp, net_tpm. destruct (f _ _) as [[a h] u] eqn:Hf. eauto 6. Qed.

Lemma ensures_hello {R A} (m : HM R A) (K : R → Prop) : no_return K m → ensures (U := U) (hello m) (λ _, True) K.
Proof. intros Hm s. unfold ewp, hello. destruct (m _) as [[a|[]] h] eqn:Em; try done. by eapply Hm. Qed.

Lemma ensures_config {R} (K : R → Prop) : ensures (U := U) get_config (λ _, True) K.
Proof. done. Qed.

Lemma ensures_put {R} h (K : R → Prop) : ensures (U := U) (put_handler h) (λ _, True) K.
Proof. done. Qed.

Lemma ensures_ok {R A} e (r : result A unit) (K : R → Prop) : ensures (U := U) (e_ok e r) (λ a, r = Ok a) K.
Proof. by destruct r. Qed.

Lemma ensures_any_bind {R A B} (m : EM U R A) (k : A → EM U R B) (Q : B → Prop) K :
  ensures m (λ _, True) K → (∀ a, ensures (k a) Q K) → ensures (a ← m; k a) Q K.
Proof. intros Hm Hk. eapply ensures_bind; [exact Hm|auto]. Qed.

Lemma ensures_weaken {R A} (m : EM U R A) (Q : A → Prop) K : ensures m Q K → ensures m (λ _, True) K.
Proof. intros Hm. by eapply ensures_mono. Qed.

Lemma ensures_with_client {R A} (m : EM U R A) (Q : A → Prop) K : ensures m Q K → ensures (with_client m) Q K.
Proof. intros Hm. eapply ensures_match_client; [done|]. intros a Ha. by apply ensures_ret. Qed.

Lemma ensures_match_any {R A B} (m : EM U R A) (k : A → EM U R B) (Q : B → Prop) K :
  ensures m (λ _, True) K → (∀ a, ensures (k a) Q K) → ensures (match_client m k) Q K.
Proof. intros Hm Hk. eapply ensures_match_client; [exact Hm|auto]. Qed.

Lemma ensures_attempt_any {R A} (m : EM U A A) (K : R → Prop) : ensures (attempt m) (λ _, True) K.
Proof. apply ensures_straight, straight_attempt. Qed.

End rules.

(** ** Linux Hello, for any condition on the answers *)

Section answers.
Context {X : Ext} {C : Crypto} {HO : HelloOps} {E : Env} {HE : HelloEnv} {UNI : Unistring}.
Context {INI : IniFile} {G : GeneratedConfig} {PC : PamConfig} {EC : EntraConfig} {H : Host} {F : Federation} {T : TextOps}.
Context {U : Type} (mk : MachineKey) (account : string).

Notation Answer := (AuthResult * AuthCacheAction)%type.

(** A condition that every refusal meets, and every request but that for a new PIN. *)
Definition lenient (K : Answer → Prop) : Prop :=
  (∀ msg action, K (AuthResult_Denied msg, action)) ∧
  (∀ req action, (∀ msg, req ≠ AuthRequest_SetupPin msg) → K (AuthResult_Next req, action)).

Context (K : Answer → Prop) (HK : lenient K).

Lemma lenient_denied {A} (Q : A → Prop) msg : ensures (U := U) (denied (A := A) msg) Q K.
Proof. apply ensures_return, HK. Qed.

Lemma lenient_next {A} (Q : A → Prop) req :
  (∀ msg, req ≠ AuthRequest_SetupPin msg) → ensures (U := U) (next (A := A) req) Q K.
Proof. intros Hr. by apply ensures_return, HK. Qed.

Lemma lenient_setup cred : ensures (U := U) (hello (setup_hello_totp account cred mk)) (λ p, K p.2) K.
Proof.
  intros s. unfold ewp, hello.
  assert (no_return K (setup_hello_totp (R := Answer) account cred mk)) as Hn by (unfold setup_hello_totp; hello_walk).
  destruct (setup_hello_totp _ _ _ _) as [[p|[]] h] eqn:Es; try done; [|by eapply Hn].
  unfold setup_hello_totp in Es. hello_split Es. injection Es as <- <-. by apply HK.
Qed.

Lemma lenient_totp_or {A} (Q : A → Prop) cred t :
  K (AuthResult_Success t, AuthCacheAction_None) → ensures (U := U) (hello_totp_or mk account (A := A) cred t) Q K.
Proof.
  intros Ht. unfold hello_totp_or. apply ensures_any_bind; [done|intros cfg].
  destruct (check_hello_totp_enabled cfg); [|by apply ensures_return].
  apply ensures_any_bind; [apply ensures_hello, totp_setup_no_return|intros []].
  { apply ensures_any_bind; [done|intros _]. by apply lenient_next. }
  eapply ensures_bind; [apply lenient_setup|intros [h ans] Ha]. apply ensures_any_bind; [done|].
  intros _. by apply ensures_return.
Qed.

Lemma lenient_bad_pin {A} (Q : A → Prop) suffix : ensures (U := U) (bad_pin account (A := A) suffix) Q K.
Proof.
  unfold bad_pin. apply ensures_any_bind; [done|intros cfg]. apply ensures_any_bind; [|intros _; apply lenient_denied].
  apply ensures_hello, bad_pin_no_return. intros msg. apply HK.
Qed.

End answers.

(** ** What was shown *)

Section evidence.
Context {X : Ext} {C : Crypto} {HO : HelloOps} {E : Env} {HE : HelloEnv} {UNI : Unistring}.
Context {INI : IniFile} {G : GeneratedConfig} {PC : PamConfig} {EC : EntraConfig} {H : Host} {F : Federation} {T : TextOps}.
Context {U : Type} {EE : EntraEnv U} {EF : EntraFlow U} {EL : EntraLogin U}.
Context (domain : string) (mk : MachineKey) (account : string) (old : UserToken) (service : string) (nhp : bool).
Context (handler : AuthCredHandler) (req : PamAuthRequest) (before : HState).

Notation Answer := (AuthResult * AuthCacheAction)%type.

(** The token's user is the account, by name or by an alias of its domain. *)
Definition same_account (spn : string) : Prop :=
  to_lowercase account = to_lowercase spn ∨
  ∃ l1 d1 l2 d2 al, split_username account = Some (l1, d1) ∧ split_username spn = Some (l2, d2) ∧
    to_lowercase l1 = to_lowercase l2 ∧ (domains_are_aliases url_ok d1 d2 al).1 = true.

(** [t] was made for the account from a token of the directory for the same user. *)
Definition validated_user (token : UnixUserToken) (t : UserToken) : Prop :=
  built_for (to_lowercase account) None t ∧ token_uuid token = Some (t_uuid t) ∧
  token_access token ≠ None ∧ ∃ spn, token_spn token = Some spn ∧ same_account spn.

(** The passwords a step may try: the one given, and the one a change of password failed for. *)
Definition passwords : list string :=
  match req with
  | PamAuthRequest_Password cred =>
      cred :: match handler with AuthCredHandler_ChangePassword old_cred => [old_cred] | _ => [] end
  | _ => []
  end.

(** The directory takes the password, be it with a demand for a second factor. *)
Definition password_good (r : result UnixUserToken MsalError) : bool :=
  match r with
  | Ok _ => true
  | Err MsalError_MFARequired => true
  | Err (MsalError_AADSTSError code _) => mfa_code code
  | Err _ => false
  end.

(** What is passed on to the flow. *)
Definition flow_input : option (option string * option Z) :=
  match req with
  | PamAuthRequest_MFACode cred => Some (Some cred, None)
  | PamAuthRequest_Fido assertion => Some (Some assertion, None)
  | PamAuthRequest_MFAPoll n => Some (None, Some n)
  | _ => None
  end.

(** The user has shown a secret: a PIN the TPM takes for the account's key, a password
    the directory takes, the second factor of the flow in progress, or a TOTP code after
    the PIN; or a PIN is being set up, after an earlier step of these. *)
Inductive proven : Prop :=
| proven_pin cred sk : req = PamAuthRequest_Pin cred → pin_accepted before account cred mk sk → proven
| proven_setup token pin :
    handler = AuthCredHandler_SetupPin (Some token) → req = PamAuthRequest_SetupPin pin → proven
| proven_password cred h u r h' u' :
    cred ∈ passwords →
    token_by_username_password account cred [] (Some "https://graph.microsoft.com") mk h u = (r, h', u') →
    password_good r = true → proven
| proven_flow flow password extra pin data poll u token flow' u' :
    handler = AuthCredHandler_MFA flow password extra pin → flow_input = Some (data, poll) →
    token_by_mfa_flow account data poll flow u = ((Ok token, flow'), u') → proven
| proven_totp pin pending code sk sealed s1 s2 :
    handler = AuthCredHandler_HelloTOTP pin pending → req = PamAuthRequest_HelloTOTP code →
    pin_accepted before account pin mk sk →
    (pending = Some sealed ∨ h_keys before !! fetch_hello_totp_key_tag account ≫= sealed_from_slice = Some sealed) →
    check_totp (R := Answer) sk sealed code s1 = (inl true, s2) → proven.

(** The user may be let in as [t]: a token validated now, or, with Linux Hello, the one of
    the cache. *)
Definition hello_request : Prop :=
  ∃ c, req = PamAuthRequest_Pin c ∨ req = PamAuthRequest_SetupPin c ∨ req = PamAuthRequest_HelloTOTP c.

Definition granted (t : UserToken) : Prop :=
  (∃ token, validated_user token t) ∨ (t = old ∧ hello_request).

(** The answers a step may give. *)
Definition admits (r : Answer) : Prop :=
  match r.1 with
  | AuthResult_Success t => proven ∧ granted t
  | AuthResult_Next (AuthRequest_SetupPin _) => proven
  | _ => True
  end.

(** A computation whose early answers are admitted; and one that always leaves. *)
Notation ok m := (ensures (U := U) m (λ _, True) admits).
Notation leaves Q m := (ensures (U := U) m Q admits).

(** *** Answers *)

Lemma ok_net_down {R} (K : R → Prop) : ensures (U := U) net_down (λ _, True) K.
Proof. apply ensures_straight, net_down_straight. Qed.

Lemma ok_outage {A} (Q : A → Prop) : leaves Q (network_down (A := A)).
Proof. by apply ensures_any_bind; [apply ok_net_down|]. Qed.

Lemma ok_check_new_device {A} (Q : A → Prop) e : leaves Q (check_new_device_enrollment_required domain (A := A) e).
Proof.
  unfold check_new_device_enrollment_required. destruct (_ || _); [|done].
  apply ensures_any_bind; [apply ensures_hello; hello_walk|]. intros [_|_]; [|done].
  apply ensures_any_bind; [apply ensures_hello; hello_walk|]. by intros [_|_].
Qed.

Lemma ok_net_down_check {A} (Q : A → Prop) (r : result A MsalError) other :
  (∀ a, r = Ok a → Q a) → (∀ e, r = Err e → leaves Q (other e)) → leaves Q (step_net_down_check domain r other).
Proof.
  intros Ha Ho. destruct r as [a|[]]; simpl; try (by apply Ho); [by apply ensures_ret, Ha| |].
  - apply ok_check_new_device.
  - apply ok_outage.
Qed.

(** *** The token of a step *)

Lemma same_user_sound {R} spn (K : R → Prop) :
  ensures (U := U) (same_user account spn) (λ b, b = true → same_account spn) K.
Proof.
  unfold same_user. destruct (String.eqb_spec (to_lowercase account) (to_lowercase spn)) as [He|_].
  { apply ensures_ret. by left. }
  eapply ensures_bind; [apply ensures_some|intros [l1 d1] H1]. eapply ensures_bind; [apply ensures_some|intros [l2 d2] H2].
  eapply (ensures_bind _ _ (λ b, ∃ al, (domains_are_aliases url_ok d1 d2 al).1 = b)).
  { intros s. unfold ewp, alias_io. simpl. destruct (domains_are_aliases _ _ _ _) as [b al] eqn:Hd. exists (e_alias s). by rewrite Hd. }
  intros b [al Hal]. apply ensures_ret. simpl. intros [Hl Hb]%andb_true_iff. right.
  exists l1, d1, l2, d2, al. split_and!; [done..| |by rewrite Hal]. by apply String.eqb_eq.
Qed.

Lemma token_validate_user token :
  let Q r := match r with
             | AuthResult_Success t => validated_user token t
             | AuthResult_Denied _ => True
             | AuthResult_Next _ => False
             end in
  ensures (U := U) (token_validate domain account token None) Q Q.
Proof.
  intros Q. unfold token_validate. destruct (token_access token) as [acc|] eqn:Ha; [|apply ensures_fail].
  eapply ensures_bind; [apply ensures_some|intros spn Hspn].
  eapply ensures_bind; [apply same_user_sound|intros [] Hs]; [|by apply ensures_ret]. skip.
  eapply ensures_bind; [apply user_token_built|intros t [Hb Hu]]. apply ensures_ret.
  split_and!; [done..|by rewrite Ha|]. exists spn. auto.
Qed.

Lemma ok_validated {A} (Q : A → Prop) token (k : UserToken → EM U Answer A) :
  (∀ t, validated_user token t → leaves Q (k t)) → leaves Q (validated domain account token k).
Proof.
  intros Hk. eapply ensures_bind; [apply ensures_attempt, token_validate_user|].
  intros [[t|msg|]|e]; simpl; [apply Hk|done..].
Qed.

(** Walk through a computation that admits whatever it answers. *)
Ltac ok_step :=
  first
  [ progress intros
  | done
  | solve [eauto 3]
  | apply ensures_any_bind | apply ensures_match_any | apply ensures_with_client
  | apply ensures_attempt_any | apply ok_net_down | apply ok_outage | apply ok_check_new_device
  | apply ok_net_down_check | apply ok_validated
  | apply ensures_straight; solve [straight_tac]
  | apply ensures_hello; solve [hello_walk]
  | eapply ensures_weaken; first [apply ensures_some|apply ensures_ok|apply ensures_net|apply ensures_net_tpm]
  | case_match ].
Ltac ok_walk := repeat ok_step.

(** *** The device *)

Lemma ok_intune_step token : ok (intune_enroll_step domain mk token).
Proof. unfold intune_enroll_step, record_config. ok_walk. Qed.

Lemma ok_enrolled_token token : ok (enroll_and_obtain_enrolled_token domain mk token).
Proof.
  unfold enroll_and_obtain_enrolled_token.
  apply ensures_any_bind; [apply ensures_straight, is_domain_joined_straight|intros joined].
  apply ensures_any_bind.
  { destruct joined; simpl.
    - unfold is_intune_enrolled. pose proof (ok_intune_step token). ok_walk.
    - unfold join_domain, record_config. ok_walk. }
  intros _. unfold obtain_enrolled_token, by_refresh_token, deny_error. ok_walk.
Qed.

(** *** Linux Hello *)

Lemma ok_request_reauth {A} (Q : A → Prop) pin : leaves Q (request_reauth account service (A := A) pin).
Proof.
  unfold request_reauth, await_reauth, passwordless_request, poll_flow. ok_walk.
Qed.

Lemma admits_lenient : lenient admits.
Proof. split; [done|]. intros [] action Hr; try done. by destruct (Hr msg). Qed.

Lemma ok_bad_pin {A} (Q : A → Prop) suffix : leaves Q (bad_pin account (A := A) suffix).
Proof. apply lenient_bad_pin, admits_lenient. Qed.

Lemma ok_memory_entry : ok (memory_entry account).
Proof. unfold memory_entry. ok_walk. Qed.

Lemma ok_refresh_cache_entry key cred : ok (refresh_cache_entry mk account key cred).
Proof. unfold refresh_cache_entry, sealed_refresh_token. pose proof ok_memory_entry. ok_walk. Qed.

Lemma ok_seal_token key cred token : ok (seal_token mk account key cred token).
Proof. unfold seal_token. ok_walk. Qed.

Section shown.
Hypothesis Hp : proven.

Lemma ok_hello_totp_or {A} (Q : A → Prop) cred t : granted t → leaves Q (hello_totp_or mk account (A := A) cred t).
Proof. intros Ht. by apply lenient_totp_or; [apply admits_lenient|]. Qed.

Lemma ok_offline {A} (Q : A → Prop) cred : hello_request → leaves Q (hello_offline mk account old (A := A) cred).
Proof.
  intros Hr. apply ensures_any_bind; [apply ok_net_down|intros _]. apply ok_hello_totp_or. by right.
Qed.

Lemma ok_hello_key_token key cred cid scopes :
  hello_request → ok (hello_key_token domain mk account old key cred cid scopes).
Proof.
  intros Hr. assert (granted old) as Ho by by right.
  unfold hello_key_token, retry_hello_key, by_hello_key, good_pin, bad_pin_error. repeat first [apply ok_bad_pin|by apply ok_offline|by apply ok_hello_totp_or|ok_step].
Qed.

Lemma ok_good_pin token : ok (good_pin account token).
Proof. unfold good_pin. ok_walk. Qed.

Lemma ok_forget_and_reauth {A} (Q : A → Prop) tag cred : leaves Q (forget_and_reauth account service (A := A) tag cred).
Proof. unfold forget_and_reauth. repeat first [apply ok_request_reauth|ok_step]. Qed.

Ltac token_walk := repeat first
  [ apply ok_forget_and_reauth | apply ok_good_pin | by apply ok_offline | by apply ok_hello_totp_or; right
  | ok_step ].

Lemma ok_prt_token prt cred cid scopes :
  hello_request → ok (prt_token domain mk account old service prt cred cid scopes).
Proof. intros Hr. unfold prt_token, exchange_prt. token_walk. Qed.

Lemma ok_refresh_token_token t cred : hello_request → ok (refresh_token_token mk account old service t cred).
Proof. intros Hr. unfold refresh_token_token. token_walk. Qed.

Lemma ok_decoupled_token key cred cid scopes :
  hello_request → ok (decoupled_token domain mk account old service key cred cid scopes).
Proof.
  intros Hr. apply ensures_any_bind; [apply ok_refresh_cache_entry|intros [[]|]];
    [by apply ok_prt_token|by apply ok_refresh_token_token|apply ok_request_reauth].
Qed.

Lemma ok_hello_sign_in {A} (Q : A → Prop) key kt cred :
  hello_request → leaves Q (hello_sign_in domain mk account old service (A := A) key kt cred).
Proof.
  intros Hr. apply ensures_any_bind; [done|intros cfg]. destruct (app_and_scopes _ _) as [cid scopes].
  apply ensures_any_bind; [destruct kt; [by apply ok_hello_key_token|by apply ok_decoupled_token]|intros token].
  apply ensures_any_bind; [apply ok_seal_token|intros _].
  apply ensures_any_bind; [unfold is_intune_enrolled; ok_walk|intros enrolled].
  apply ensures_any_bind; [destruct enrolled; [done|apply ok_intune_step]|intros _].
  eapply ensures_bind; [apply ensures_attempt, token_validate_user|].
  intros [[t|msg|]|e] Ht; simpl; [|done..]. apply ok_hello_totp_or. left. eauto.
Qed.

(** *** Passwords and second factors *)

Lemma ok_maybe_prompt {A} (Q : A → Prop) token t action :
  granted t → leaves Q (maybe_prompt_setup_pin account nhp token t action).
Proof.
  intros Ht. unfold maybe_prompt_setup_pin. apply ensures_any_bind; [done|intros cfg].
  apply ensures_any_bind; [apply ensures_hello; hello_walk|intros key].
  destruct (_ && _); [|by intros s]. apply ensures_any_bind; [done|intros _]. by intros s.
Qed.

Lemma ok_password_only {A} (Q : A → Prop) token cred :
  leaves Q (password_only_success domain account nhp token cred).
Proof.
  apply ok_validated. intros t Ht. apply ensures_any_bind; [unfold hash_action; ok_walk|intros action].
  apply ok_maybe_prompt. left. eauto.
Qed.

Lemma ok_prt_signin cred : ok (prt_signin_frequency_check domain mk account nhp cred).
Proof.
  apply ensures_any_bind.
  - unfold try_prt_signin_frequency_check, signin_frequency_exchange, exchange_prt. ok_walk.
  - intros [[token|]|]; [apply ok_password_only|done..].
Qed.

Lemma ok_mfa_finish {A} (Q : A → Prop) token token2 pin :
  leaves Q (mfa_finish domain mk account nhp token token2 pin).
Proof.
  apply ok_validated. intros t Ht. assert (granted t) as Hg by (left; eauto).
  apply ensures_any_bind.
  { unfold reseal_prt_with_existing_hello_key_on_success, seal_prt_with_existing_hello_key. ok_walk. }
  intros _. apply ensures_any_bind; [done|intros cfg]. destruct (_ || _); [by intros s|].
  apply ensures_any_bind; [apply ensures_hello; hello_walk|intros key]. destruct (is_ok key); [by intros s|].
  apply ensures_any_bind; [done|intros _]. by intros s.
Qed.

End shown.

Lemma ok_second_factor {A} (Q : A → Prop) resp cred pin :
  leaves Q (nested_auth_handle_mfa_resp resp cred pin).
Proof. unfold nested_auth_handle_mfa_resp, second_factor, hash_action. ok_walk. Qed.

Lemma by_password_shown {R} cred (K : R → Prop) :
  cred ∈ passwords →
  ensures (U := U) (by_password mk account cred) (λ r, password_good r = true → proven) K.
Proof.
  intros Hc. eapply ensures_mono; [apply ensures_net_tpm| |done]. intros r (h & u & h' & u' & Hr) Hg.
  by eapply proven_password.
Qed.

Lemma ok_try_password cred : cred ∈ passwords → ok (try_password domain mk account nhp cred).
Proof.
  intros Hc. eapply ensures_bind; [by apply ensures_with_client, by_password_shown|].
  intros [token|e] Hr; simpl in Hr.
  - apply ensures_any_bind; [apply ok_enrolled_token|intros token2]. by apply ok_password_only, Hr.
  - destruct e; try done; [|by apply ok_prt_signin, Hr].
    destruct (mfa_code code) eqn:Hm; [by apply ok_prt_signin, Hr|done].
Qed.

Lemma ok_password_first opts joined cred :
  cred ∈ passwords → leaves admits (password_first_arm domain mk account nhp opts joined cred).
Proof.
  intros Hc. unfold password_first_arm. apply ensures_any_bind.
  - destruct joined; [|done]. apply ensures_any_bind; [by apply ok_try_password|done].
  - intros opts'. apply ensures_any_bind; [|intros flow; apply ok_second_factor].
    unfold password_first_flow, start_mfa, put_options. ok_walk.
Qed.

Lemma change_password_shown cred :
  req = PamAuthRequest_Password cred → leaves (λ c, c ∈ passwords) (change_password domain account handler cred).
Proof.
  intros Hq. assert (cred ∈ passwords) as Hin by (unfold passwords; rewrite Hq; set_solver).
  unfold change_password. destruct handler eqn:Hh; try by apply ensures_ret.
  assert (old_cred ∈ passwords) as Ho by (unfold passwords; rewrite Hq, Hh; set_solver).
  apply ensures_match_any; [ok_walk|]. intros [[]|[]]; try by apply ensures_ret.
  - apply ok_check_new_device.
  - apply ok_outage.
Qed.

Lemma sfa_token_shown cred e : cred ∈ passwords → leaves (λ _, proven) (sfa_token domain mk account cred e).
Proof.
  intros Hc. unfold sfa_token. apply ensures_any_bind; [ok_walk|intros _].
  apply ensures_any_bind; [apply ensures_straight, is_domain_joined_straight|intros []]; [|done].
  eapply ensures_bind; [by apply ensures_with_client, by_password_shown|intros r Hr].
  apply ok_net_down_check; [intros a ->; by apply Hr|]. by intros [] _.
Qed.

Lemma ok_password cred :
  req = PamAuthRequest_Password cred → leaves admits (password_arm domain mk account service handler cred).
Proof.
  intros Hq. eapply ensures_bind; [by apply change_password_shown|intros c Hc]. simpl.
  apply ensures_any_bind; [done|intros cfg]. apply ensures_any_bind; [unfold start_mfa; ok_walk|intros mresp].
  apply ensures_any_bind; [|intros resp; apply ok_second_factor].
  apply ok_net_down_check; [done|intros e _]. unfold sfa_fallback.
  eapply (ensures_bind _ _ (λ _, proven)); [destruct (match pending_pin handler with Some _ => _ | None => _ end);
    [by apply sfa_token_shown|done]|intros token Hp].
  apply ensures_any_bind; [apply ok_enrolled_token|intros token2].
  apply ok_validated. intros t Ht s. split; [done|]. left. eauto.
Qed.

Lemma mfa_flow_shown flow password extra pin data poll other :
  handler = AuthCredHandler_MFA flow password extra pin → flow_input = Some (data, poll) →
  (∀ e, leaves (λ _, proven) (other e)) →
  leaves (λ _, proven) (mfa_flow_token domain account flow password extra pin data poll other).
Proof.
  intros Hh Hf Ho. eapply (ensures_match_client _ _ (λ r, ∀ token, r = Ok token → proven)).
  - eapply ensures_bind; [apply ensures_net|intros [r flow'] (u & u' & Hr)].
    apply ensures_any_bind; [done|intros _]. apply ensures_ret. intros token ->. by eapply proven_flow.
  - intros r Hr. by apply ok_net_down_check.
Qed.

Lemma ok_mfa_data flow password extra pin data :
  handler = AuthCredHandler_MFA flow password extra pin → flow_input = Some (Some data, None) →
  leaves admits (mfa_data_arm domain mk account nhp flow password extra pin data).
Proof.
  intros Hh Hf. eapply ensures_bind; [apply mfa_flow_shown; [done..|]|intros token Hp].
  - intros []; by destruct password.
  - apply ensures_any_bind; [apply ok_enrolled_token|intros token2]. by apply ok_mfa_finish.
Qed.

Lemma ok_mfa_poll flow password extra pin n :
  handler = AuthCredHandler_MFA flow password extra pin → flow_input = Some (None, Some n) →
  leaves admits (mfa_poll_arm domain mk account nhp flow password extra pin n).
Proof.
  intros Hh Hf. unfold mfa_poll_arm. destruct (_ <? _); [done|].
  eapply ensures_bind; [apply mfa_flow_shown; [done..|]|intros token Hp].
  - intros []; by destruct password.
  - eapply ensures_bind; [apply ensures_some|intros tenant _].
    apply ensures_any_bind; [destruct (String.eqb _ _); [done|apply ok_enrolled_token]|intros token2].
    by apply ok_mfa_finish.
Qed.

(** *** The whole step *)

(** The key is loaded before any other request. *)
Lemma auth_admits key kt cred s :
  hello_request →
  (∀ pin sk, pin_value_new cred = Some pin →
     (ms_hello_key_load mk key pin (h_tpm (e_hello s))).1 = Some sk → proven) →
  ewp (auth_and_validate_hello_key domain mk account old service (A := Answer) key kt cred)
    (λ a _, admits a) (λ r _, admits r) s.
Proof.
  intros Hr Hload. unfold auth_and_validate_hello_key. apply ewp_bind. unfold ewp at 1.
  destruct (pin_value_new cred) as [pin|]; [|done]. simpl. apply ewp_bind. unfold ewp at 1, hello, with_tpm.
  destruct (ms_hello_key_load _ _ _ _) as [[sk|] h] eqn:Hl; simpl; [|apply ok_bad_pin].
  apply ok_hello_sign_in; [|done]. eapply Hload; [done|]. by rewrite Hl.
Qed.

Lemma pin_admits cred s :
  req = PamAuthRequest_Pin cred → e_hello s = before →
  ewp (pin_arm domain mk account old service cred) (λ a _, admits a) (λ r _, admits r) s.
Proof.
  intros Hq Hb. unfold pin_arm. apply ewp_bind. unfold ewp at 1, hello.
  destruct (fetch_hello_key_or_fail account (e_hello s)) as [[k|[]] h] eqn:Hf; simpl; try done.
  2: { assert (no_return (λ _, False) (fetch_hello_key_or_fail (R := Answer) account)) as Hn by hello_walk.
       by apply Hn in Hf. }
  apply fetch_inv in Hf as [(T1 & T2 & T3) Hk]. destruct k as [key kt]. apply auth_admits; [by exists cred; left|].
  simpl. rewrite T3, Hb. intros pin sk Hp Hl. apply (proven_pin cred sk); [done|]. exists key, pin. by rewrite <- Hb at 1.
Qed.

Lemma setup_pin_admits token pin :
  handler = AuthCredHandler_SetupPin token → req = PamAuthRequest_SetupPin pin →
  leaves admits (setup_pin_arm domain mk account old service token pin).
Proof.
  intros Hh Hq. unfold setup_pin_arm. destruct token as [token|]; [|done].
  assert (proven) as Hp by (by eapply proven_setup).
  eapply (ensures_bind _ _ (λ _, True)).
  { destruct (default _ _); ok_walk. by intros s. }
  intros [key kt] _. apply ensures_any_bind; [ok_walk|intros r]. apply ensures_any_bind; [ok_walk|intros _].
  intros s. apply auth_admits; [|done]. exists pin. auto.
Qed.

Lemma admits_denied msg action : admits (AuthResult_Denied msg, action).
Proof. done. Qed.
#[local] Hint Resolve admits_denied : hello.

Lemma totp_admits hp pending code (s : EState U) :
  handler = AuthCredHandler_HelloTOTP hp pending → req = PamAuthRequest_HelloTOTP code → e_hello s = before →
  ewp (hello (handle_hello_pin_totp_auth (as_config (e_alias s)) account old code hp mk pending
                (λ r, (r, AuthCacheAction_None)))) (λ a _, admits a) (λ r _, admits r) s.
Proof.
  intros Hh Hq Hb. unfold ewp, hello.
  set (m := handle_hello_pin_totp_auth _ _ _ _ _ _ _ _).
  assert (no_return admits m) as Hn by (unfold m, handle_hello_pin_totp_auth, check_totp, handle_hello_bad_pin_count; hello_walk).
  destruct (m (e_hello s)) as [[r|[]] h] eqn:Hm; try done; [|by eapply Hn].
  apply totp_auth_inv in Hm as [->|(-> & sk & sealed & s1 & s2 & Hp & Hd & Hc)]; [done|]. rewrite Hb in Hp, Hd.
  split; [by eapply proven_totp|]. right. split; [done|]. exists code. auto.
Qed.

Lemma arms_admit s :
  e_hello s = before →
  ewp (online_arms domain mk account old service nhp handler req) (λ a _, admits a) (λ r _, admits r) s.
Proof.
  intros Hb. unfold online_arms, fido_arm.
  destruct req as [cred|cred|cred|n|pin|cred|assertion|] eqn:Hq;
    destruct handler eqn:Hh; try done; rewrite <- ?Hh;
    try (by apply pin_admits); try (by apply ok_password); try (eapply ok_mfa_data; [exact Hh|by unfold flow_input; rewrite Hq]).
  - apply ok_password_first. unfold passwords. rewrite Hq. set_solver.
  - apply ewp_bind. unfold ewp at 1. cbn [get_config]. exact (totp_admits _ _ _ _ Hh Hq Hb).
  - eapply ok_mfa_poll; [exact Hh|by unfold flow_input; rewrite Hq].
  - by apply setup_pin_admits.
Qed.

End evidence.

(** ** No entry without a proof *)

Section entry.
Context {X : Ext} {C : Crypto} {HO : HelloOps} {E : Env} {HE : HelloEnv} {UNI : Unistring}.
Context {INI : IniFile} {G : GeneratedConfig} {PC : PamConfig} {EC : EntraConfig} {H : Host} {F : Federation} {T : TextOps}.
Context {U : Type} {EE : EntraEnv U} {EF : EntraFlow U} {EL : EntraLogin U}.
Context (domain : string) (mk : MachineKey) (account : string) (old : UserToken) (service : string) (nhp : bool).

(** Initialising the provider touches neither the keys, nor the TPM, nor the handler. *)
Definition keeps_session {R A} (m : EM U R A) : Prop :=
  ∀ s, e_hello (m s).2 = e_hello s ∧ e_handler (m s).2 = e_handler s.

Lemma keeps_session_bind {R A B} (m : EM U R A) (k : A → EM U R B) :
  keeps_session m → (∀ a, keeps_session (k a)) → keeps_session (a ← m; k a).
Proof.
  intros Hm Hk s. specialize (Hm s). unfold mbind, EM_bind. destruct (m s) as [[a|e] s1]; [|done].
  simpl in Hm. destruct Hm as [<- <-]. apply Hk.
Qed.

Lemma keeps_session_net {R A} (f : U → A * U) : keeps_session (R := R) (net f).
Proof. intros s. unfold net. by destruct (f _). Qed.
Lemma keeps_session_some {R A} e (o : option A) : keeps_session (R := R) (e_some e o).
Proof. by destruct o. Qed.
Lemma keeps_session_idmap {R A} (f : Idmap → Idmap * A) : keeps_session (R := R) (idmap_io f).
Proof. intros s. unfold idmap_io. by destruct (f _). Qed.
Lemma keeps_session_alias {R A} (f : AliasState → A * AliasState) : keeps_session (R := R) (alias_io f).
Proof. intros s. unfold alias_io. by destruct (f _). Qed.

Lemma first_init_keeps : keeps_session (first_init domain).
Proof.
  unfold first_init.
  repeat first [apply keeps_session_net|apply keeps_session_some|apply keeps_session_idmap|apply keeps_session_alias
               |progress intros|apply keeps_session_bind|done|case_match].
Qed.

Lemma delayed_init_keeps {R} : keeps_session (R := R) (delayed_init domain).
Proof.
  intros s. unfold delayed_init. destruct (e_init s); [done|]. pose proof (first_init_keeps s) as Hf.
  unfold mbind, EM_bind, attempt. by destruct (first_init domain s) as [[[]|[]] s1].
Qed.

Lemma step_admits req s :
  let Q r s' := admits mk account old (e_handler s) req (e_hello s) r in
  ewp (entra_online_auth_step (U := U) domain mk account old service nhp req) Q Q s.
Proof.
  intros Q. unfold entra_online_auth_step. apply ewp_bind, ewp_straight; [apply delayed_init_straight|].
  intros init s1 Hi. destruct (delayed_init_keeps (R := AuthResult * AuthCacheAction) s) as [Hh Hc].
  rewrite Hi in Hh, Hc. simpl in *. destruct init.
  - apply ewp_bind. unfold ewp at 1. cbn [get_handler]. rewrite Hc. by apply arms_admit.
  - apply (ok_outage mk account old (e_handler s) req (e_hello s) (admits mk account old (e_handler s) req (e_hello s))).
Qed.

(** C3. Nobody gets in online without a proof. A step of an online login succeeds only if
    the user has shown a PIN that the TPM takes for the account's Hello key, a password
    that the directory takes, the second factor of the flow in progress, or a TOTP code
    after such a PIN, or is setting up a PIN; and then the token given is one validated
    for the same user, or, with Linux Hello only, the one of the cache. And a PIN is asked
    to be set up only after such a proof. *)
Theorem online_success_needs_proof req s r action s' :
  run_em (entra_online_auth_step (U := U) domain mk account old service nhp req) s = (Some (Ok (r, action)), s') →
  (∀ t, r = AuthResult_Success t →
     proven mk account (e_handler s) req (e_hello s) ∧ granted account old req t) ∧
  (∀ msg, r = AuthResult_Next (AuthRequest_SetupPin msg) → proven mk account (e_handler s) req (e_hello s)).
Proof.
  intros Hr. pose proof (ewp_run _ _ _ _ _ (step_admits req s) Hr) as Ha.
  split; [intros t ->|intros msg ->]; exact Ha.
Qed.

End entry.
