(* ===== verification/EntraLocks.v ===== *)
(** * The lock of the client application

    A step of an online login takes the lock of its client application many times, and
    some matches keep it while their arms run. When a step waits for ever, and that it
    does not otherwise; and what becomes of a device that the directory does not know yet. *)
From stdpp Require Import base gmap strings list fin_maps.
From Stdlib Require Import ZArith Lia Ascii.
From S2P Require Import Prelude Proto Interface Db Runtime Caches Idmap UserMap Config Hello HelloTheorems Pam Daemon Entra EntraUser EntraInit EntraDevice EntraStep EntraTheorems EntraStepTheorems.

Open Scope rust_scope.

(** ** Computations of [Hello] never wait *)

Section patient.
Context {X : Ext} {C : Crypto} {HO : HelloOps} {E : Env} {HE : HelloEnv}.
Context {INI : IniFile} {G : GeneratedConfig}.

Definition no_hang {R A} (m : HM R A) : Prop := ∀ s, (m s).1 ≠ inr Hang.

Lemma no_hang_bind {R A B} (m : HM R A) (k : A → HM R B) : no_hang m → (∀ a, no_hang (k a)) → no_hang (m ≫= k).
Proof.
  intros Hm Hk s. specialize (Hm s). unfold mbind, HM_bind. destruct (m s) as [[a|e] s1]; [apply Hk|]. simpl in *. congruence.
Qed.
Lemma no_hang_ret {R A} (a : A) : no_hang (R := R) (mret a).
Proof. done. Qed.
Lemma no_hang_fail {R A} e : no_hang (R := R) (A := A) (fail e).
Proof. done. Qed.
Lemma no_hang_return {R A} (r : R) : no_hang (A := A) (return_ r).
Proof. done. Qed.
Lemma no_hang_or_fail {R A} e (o : option A) : no_hang (R := R) (or_fail e o).
Proof. by destruct o. Qed.
Lemma no_hang_draw {R A} (o : nat → A) : no_hang (R := R) (hdraw o).
Proof. done. Qed.
Lemma no_hang_tpm {R A} (f : Hsm → A * Hsm) : no_hang (R := R) (with_tpm f).
Proof. intros s. unfold with_tpm. by destruct (f _). Qed.
Lemma no_hang_get {R K} (f : bytes → option K) tag : no_hang (R := R) (ks_get f tag).
Proof. done. Qed.
Lemma no_hang_insert {R K} (f : K → option bytes) tag k : no_hang (R := R) (ks_insert f tag k).
Proof. intros s. unfold ks_insert. by repeat case_match. Qed.
Lemma no_hang_delete {R} tag : no_hang (R := R) (ks_delete tag).
Proof. intros s. unfold ks_delete. by case_match. Qed.
Lemma no_hang_client {R} : no_hang (R := R) get_client.
Proof. done. Qed.
Lemma no_hang_mod {R} f : no_hang (R := R) (mod_client f).
Proof. done. Qed.
Lemma no_hang_plus {R} t d : no_hang (R := R) (plus_secs t d).
Proof. intros s. unfold plus_secs. by case_match. Qed.

End patient.

Create HintDb patient discriminated.
#[export] Hint Resolve no_hang_ret no_hang_fail no_hang_return no_hang_or_fail no_hang_draw no_hang_tpm no_hang_get
  no_hang_insert no_hang_delete no_hang_client no_hang_mod no_hang_plus : patient.

Ltac patient_walk :=
  repeat first
    [ progress intros
    | solve [eauto with patient]
    | apply no_hang_bind
    | progress (unfold add, system_now, ok_or_fail, increment_bad_pin_count, reset_bad_pin_count,
        fetch_hello_key, fetch_hello_key_or_fail)
    | case_match ].

Section more.
Context {X : Ext} {C : Crypto} {HO : HelloOps} {E : Env} {HE : HelloEnv}.
Context {INI : IniFile} {G : GeneratedConfig}.

Lemma stale_no_hang {R A} (l : list (string * (A * SystemTime))) : no_hang (R := R) (stale l).
Proof. induction l as [|[k [a iat]] l IH]; simpl; patient_walk. Qed.

Lemma refresh_token_no_hang {R} account : no_hang (R := R) (refresh_token account).
Proof. unfold refresh_token, purge. pose proof (@stale_no_hang). patient_walk. Qed.

Lemma bad_pin_no_hang {R} cfg account (f : string → R) : no_hang (handle_hello_bad_pin_count cfg account f).
Proof. unfold handle_hello_bad_pin_count. patient_walk. Qed.

Lemma setup_totp_no_hang {R} account pin mk : no_hang (R := R) (setup_hello_totp account pin mk).
Proof. unfold setup_hello_totp. patient_walk. Qed.

Lemma totp_auth_no_hang {R} cfg account token cred pin mk pending (f : AuthResult → R) :
  no_hang (handle_hello_pin_totp_auth cfg account token cred pin mk pending f).
Proof. unfold handle_hello_pin_totp_auth, check_totp. pose proof (@bad_pin_no_hang R cfg account). patient_walk. Qed.

Lemma seal_existing_no_hang {R} account token key pin mk :
  no_hang (R := R) (seal_prt_with_existing_hello_key account token key pin mk).
Proof. unfold seal_prt_with_existing_hello_key. patient_walk. Qed.

Lemma totp_setup_no_hang {R} account : no_hang (R := R) (check_hello_totp_setup account).
Proof. unfold check_hello_totp_setup. patient_walk. Qed.

Lemma create_key_no_hang {R} cred mk e : no_hang (R := R) (create_decoupled_hello_key cred mk e).
Proof. unfold create_decoupled_hello_key. patient_walk. Qed.

End more.

#[export] Hint Resolve refresh_token_no_hang bad_pin_no_hang setup_totp_no_hang totp_auth_no_hang
  seal_existing_no_hang totp_setup_no_hang create_key_no_hang : patient.

(** ** Taking the lock *)

Section locks.
Context {X : Ext} {C : Crypto} {HO : HelloOps} {E : Env} {HE : HelloEnv} {UNI : Unistring}.
Context {INI : IniFile} {G : GeneratedConfig} {PC : PamConfig} {EC : EntraConfig} {H : Host} {F : Federation} {T : TextOps}.
Context {U : Type} {EE : EntraEnv U} {EF : EntraFlow U} {EL : EntraLogin U}.
Context (blocked : Prop).

(** The computation leaves the lock alone; or takes it and gives it back. In both cases it
    does not wait for ever, unless [blocked]. *)
Definition lockless {R A} (m : EM U R A) : Prop :=
  ∀ s, blocked ∨ (m s).1 ≠ inr Hang ∧ e_locked (m s).2 = e_locked s.
Definition returns {R A} (m : EM U R A) : Prop :=
  ∀ s, e_locked s = false → blocked ∨ (m s).1 ≠ inr Hang ∧ e_locked (m s).2 = false.

Lemma lockless_returns {R A} (m : EM U R A) : lockless m → returns m.
Proof. intros Hm s Hs. specialize (Hm s). by rewrite Hs in Hm. Qed.

Lemma lockless_bind {R A B} (m : EM U R A) (k : A → EM U R B) (P : A → Prop) :
  lockless m → ensures m P (λ _, True) → (∀ a, P a → lockless (k a)) → lockless (a ← m; k a).
Proof.
  intros Hm HP Hk s. destruct (Hm s) as [?|[Hn Hl]]; [by left|]. specialize (HP s). unfold ewp in HP.
  unfold mbind, EM_bind. destruct (m s) as [[a|e] s1]; simpl in *; [|right; split; [congruence|done]].
  rewrite <- Hl. by apply Hk.
Qed.

Lemma returns_bind {R A B} (m : EM U R A) (k : A → EM U R B) (P : A → Prop) :
  returns m → ensures m P (λ _, True) → (∀ a, P a → returns (k a)) → returns (a ← m; k a).
Proof.
  intros Hm HP Hk s Hs. destruct (Hm s Hs) as [?|[Hn Hl]]; [by left|]. specialize (HP s). unfold ewp in HP.
  unfold mbind, EM_bind. destruct (m s) as [[a|e] s1]; simpl in *; [|right; split; [congruence|done]].
  by apply Hk.
Qed.

Lemma ensures_true {R A} (m : EM U R A) : ensures m (λ _, True) (λ _, True).
Proof. intros s. by apply ewp_any. Qed.

Lemma lockless_bind_any {R A B} (m : EM U R A) (k : A → EM U R B) :
  lockless m → (∀ a, lockless (k a)) → lockless (a ← m; k a).
Proof. intros Hm Hk. eapply lockless_bind; [done|apply ensures_true|auto]. Qed.

Lemma returns_bind_any {R A B} (m : EM U R A) (k : A → EM U R B) :
  returns m → (∀ a, returns (k a)) → returns (a ← m; k a).
Proof. intros Hm Hk. eapply returns_bind; [done|apply ensures_true|auto]. Qed.

(** The arms of a match that keeps the lock do not take it again. *)
Lemma returns_match {R A B} (m : EM U R A) (k : A → EM U R B) (P : A → Prop) :
  lockless m → ensures m P (λ _, True) → (∀ a, P a → lockless (k a)) → returns (match_client m k).
Proof.
  intros Hm HP Hk s Hs. unfold match_client. rewrite Hs.
  destruct (lockless_bind m k P Hm HP Hk (set_locked true s)) as [?|[Hn Hl]]; [by left|right].
  by destruct ((a ← m; k a) (set_locked true s)) as [r s1].
Qed.

Lemma returns_match_any {R A B} (m : EM U R A) (k : A → EM U R B) :
  lockless m → (∀ a, lockless (k a)) → returns (match_client m k).
Proof. intros Hm Hk. eapply returns_match; [done|apply ensures_true|auto]. Qed.

Lemma lockless_ret {R A} (a : A) : lockless (R := R) (mret a).
Proof. by right. Qed.
Lemma lockless_fail {R A} e : lockless (R := R) (A := A) (e_fail e).
Proof. by right. Qed.
Lemma lockless_return {R A} (r : R) : lockless (A := A) (e_return r).
Proof. by right. Qed.
Lemma lockless_panic {R A} : lockless (R := R) (A := A) e_panic.
Proof. by right. Qed.
Lemma lockless_some {R A} e (o : option A) : lockless (R := R) (e_some e o).
Proof. destruct o; by right. Qed.
Lemma lockless_ok {R A} e (r : result A unit) : lockless (R := R) (e_ok e r).
Proof. destruct r; by right. Qed.
Lemma lockless_net {R A} (f : U → A * U) : lockless (R := R) (net f).
Proof. intros s. right. unfold net. by destruct (f _). Qed.
Lemma lockless_net_tpm {R A} (f : Hsm → U → A * Hsm * U) : lockless (R := R) (net_tpm f).
Proof. intros s. right. unfold net_tpm. by destruct (f _ _) as [[]]. Qed.
Lemma lockless_config {R} : lockless (R := R) get_config.
Proof. by right. Qed.
Lemma lockless_idmap {R} : lockless (R := R) get_idmap.
Proof. by right. Qed.
Lemma lockless_handler {R} : lockless (R := R) get_handler.
Proof. by right. Qed.
Lemma lockless_put {R} h : lockless (R := R) (put_handler h).
Proof. by right. Qed.
Lemma lockless_alias {R A} (f : AliasState → A * AliasState) : lockless (R := R) (alias_io f).
Proof. intros s. right. unfold alias_io. by destruct (f _). Qed.
Lemma lockless_idmap_io {R A} (f : Idmap → Idmap * A) : lockless (R := R) (idmap_io f).
Proof. intros s. right. unfold idmap_io. by destruct (f _). Qed.
Lemma lockless_hello {R A} (m : HM R A) : no_hang m → lockless (hello m).
Proof. intros Hm s. right. specialize (Hm (e_hello s)). unfold hello. by destruct (m _). Qed.

Lemma lockless_attempt {R A} (m : EM U A A) : lockless m → lockless (R := R) (attempt m).
Proof.
  intros Hm s. destruct (Hm s) as [?|[Hn Hl]]; [by left|right]. unfold attempt.
  by destruct (m s) as [[a|[]] s1].
Qed.
Lemma returns_attempt {R A} (m : EM U A A) : returns m → returns (R := R) (attempt m).
Proof.
  intros Hm s Hs. destruct (Hm s Hs) as [?|[Hn Hl]]; [by left|right]. unfold attempt.
  by destruct (m s) as [[a|[]] s1].
Qed.

Lemma lockless_set_init {R} : lockless (R := R) set_init.
Proof. by right. Qed.

End locks.

Create HintDb locks discriminated.
#[export] Hint Resolve lockless_ret lockless_fail lockless_return lockless_panic lockless_some lockless_ok lockless_net
  lockless_net_tpm lockless_config lockless_idmap lockless_handler lockless_put lockless_alias lockless_idmap_io
  lockless_set_init : locks.

(** Walk through a computation, looking for waits. *)
Ltac lock_step :=
  first
  [ progress intros
  | solve [eauto 2 with locks nocore]
  | match goal with
    | |- lockless _ (hello _) => apply lockless_hello; solve [patient_walk]
    | |- lockless _ (_ ≫= _) => apply lockless_bind_any
    | |- lockless _ (attempt _) => apply lockless_attempt
    | |- returns _ (_ ≫= _) => apply returns_bind_any
    | |- returns _ (match_client _ _) => apply returns_match_any
    | |- returns _ (with_client _) => apply returns_match_any
    | |- returns _ (attempt _) => apply returns_attempt
    | |- lockless _ (match ?x with _ => _ end) => destruct x
    | |- returns _ (match ?x with _ => _ end) => destruct x
    | |- returns _ _ => apply lockless_returns; solve [eauto 2 with locks nocore]
    | |- returns _ (hello _) => apply lockless_returns, lockless_hello; solve [patient_walk]
    | |- returns _ (e_return _) => apply lockless_returns, lockless_return
    end ].
Ltac lock_walk := repeat lock_step.

(** ** The parts of a step *)

Section step_locks.
Context {X : Ext} {C : Crypto} {HO : HelloOps} {E : Env} {HE : HelloEnv} {UNI : Unistring}.
Context {INI : IniFile} {G : GeneratedConfig} {PC : PamConfig} {EC : EntraConfig} {H : Host} {F : Federation} {T : TextOps}.
Context {U : Type} {EE : EntraEnv U} {EF : EntraFlow U} {EL : EntraLogin U}.
Context (domain : string) (mk : MachineKey) (account : string) (old : UserToken) (service : string) (nhp : bool).

Notation Answer := (AuthResult * AuthCacheAction)%type.

(** The errors after which the request with a Hello key is made again. *)
Definition hello_retry (client_id : option string) (e : MsalError) : bool :=
  let edge := bool_decide (client_id = Some EDGE_BROWSER_CLIENT_ID) in
  negb (is_sspr_required e) &&
  match e with
  | MsalError_AcquireTokenFailed err => bool_decide (CONSENT_REQUIRED ∈ error_codes err) || edge
  | MsalError_AADSTSError _ _ => edge
  | _ => false
  end.

(** The answers of the directory after which a step asks for the lock it holds. *)
Inductive blocked : Prop :=
| blocked_hello key cred scopes cid h u e h' u' :
    token_by_hello_key account key scopes cid mk cred h u = (Err e, h', u') → hello_retry cid e = true → blocked
| blocked_prt prt scopes cid h u err h' u' h1 u1 token h1' u1' :
    exchange_prt_for_access_token prt scopes cid None None mk h u = (Err (MsalError_AcquireTokenFailed err), h', u') →
    CONSENT_REQUIRED ∈ error_codes err →
    exchange_prt_for_access_token prt [] None None None mk h1 u1 = (Ok token, h1', u1') → blocked
| blocked_flow cred opts method u u' :
    initiate_enrollment_mfa_flow account (Some cred) opts None method u = (Err MsalError_MFARequired, u') → blocked.

Notation free m := (lockless (U := U) blocked m).
Notation back m := (returns (U := U) blocked m).

Lemma free_denied {A} msg : free (denied (A := A) msg).
Proof. apply lockless_return. Qed.
Lemma free_next {A} r : free (next (A := A) r).
Proof. apply lockless_return. Qed.
Lemma free_answer {A} r : free (answer (A := A) r).
Proof. apply lockless_return. Qed.
Lemma free_deny_error {A} e : free (deny_error (A := A) e).
Proof. apply lockless_return. Qed.
Hint Resolve free_denied free_next free_answer free_deny_error : locks.

Lemma free_net_down {R} : free (net_down (R := R)).
Proof. unfold net_down, go_offline, set_cache_state. lock_walk. Qed.
Hint Resolve free_net_down : locks.

Lemma free_outage {A} : free (network_down (A := A)).
Proof. unfold network_down. lock_walk. Qed.

Lemma free_check_new_device {A} e : free (check_new_device_enrollment_required domain (A := A) e).
Proof. unfold check_new_device_enrollment_required. lock_walk. Qed.
Hint Resolve free_outage free_check_new_device : locks.

Lemma free_net_down_check {A} (r : result A MsalError) other :
  (∀ e, r = Err e → free (other e)) → free (step_net_down_check domain r other).
Proof. intros Ho. destruct r as [a|[]]; simpl; try (by apply Ho); lock_walk. Qed.

Lemma free_joined {R} : free (is_domain_joined (R := R) domain).
Proof.
  unfold is_domain_joined, fetch_loadable_transport_key_from_keystore, fetch_loadable_cert_key_from_keystore. lock_walk.
Qed.
Lemma free_enrolled {R} : free (is_intune_enrolled (R := R) domain).
Proof. unfold is_intune_enrolled. lock_walk. Qed.
Lemma free_record {R} l : free (record_config (R := R) domain l).
Proof. unfold record_config. lock_walk. Qed.
Lemma free_refresh {R} token scopes cid : free (by_refresh_token (R := R) mk token scopes cid).
Proof. apply lockless_net_tpm. Qed.
Hint Resolve free_joined free_enrolled free_record free_refresh : locks.

(** *** The device *)

Lemma free_enroll_with ep device attrs token : free (enroll_with domain mk ep device attrs token).
Proof. unfold enroll_with. lock_walk. Qed.
Hint Resolve free_enroll_with : locks.

Lemma back_intune_enroll device attrs token : back (intune_enroll domain mk device attrs token).
Proof. unfold intune_enroll. lock_walk. Qed.
Hint Resolve back_intune_enroll : locks.

Lemma back_intune_step token : back (intune_enroll_step domain mk token).
Proof. unfold intune_enroll_step. lock_walk. Qed.

Lemma back_join {R} token : back (join_domain (R := R) domain mk token).
Proof. unfold join_domain. lock_walk. Qed.
Hint Resolve back_intune_step back_join : locks.

Lemma back_net_down_check {A} (r : result A MsalError) other :
  (∀ e, r = Err e → back (other e)) → back (step_net_down_check domain r other).
Proof. intros Ho. destruct r as [a|[]]; simpl; try (by apply Ho); lock_walk. Qed.

Lemma back_obtain token : back (obtain_enrolled_token domain mk token).
Proof.
  unfold obtain_enrolled_token. lock_walk. apply back_net_down_check. intros e _. lock_walk.
  apply back_net_down_check. lock_walk.
Qed.
Hint Resolve back_obtain : locks.

Lemma back_enroll token : back (enroll_and_obtain_enrolled_token domain mk token).
Proof. unfold enroll_and_obtain_enrolled_token. lock_walk. Qed.

Hint Resolve back_enroll : locks.

(** *** Tokens *)

Lemma free_cache {R} : free (open_id_cache (R := R)).
Proof. unfold open_id_cache, look. lock_walk. Qed.
Hint Resolve free_cache : locks.

Lemma free_group_token g : free (group_token_from_directory_object g).
Proof.
  unfold group_token_from_directory_object, group_gid, number_of_sid, number_of_name, graph_tenant, idmap_number. lock_walk.
Qed.

Lemma free_group_tokens {R} l : free (group_tokens (R := R) l).
Proof. pose proof free_group_token. induction l as [|g l IH]; simpl; lock_walk; auto. Qed.
Hint Resolve free_group_tokens : locks.

Lemma free_user_token {R} value : free (user_token_from_unix_user_token (R := R) domain account value None).
Proof.
  unfold user_token_from_unix_user_token, user_details, user_numbers, mapped_uid, number_of_sid, number_of_name,
    tenant_uuid, graph_tenant, idmap_number, look. lock_walk.
Qed.
Hint Resolve free_user_token : locks.

Lemma free_validate token : free (token_validate domain account token None).
Proof. unfold token_validate, same_user. lock_walk. Qed.
Hint Resolve free_validate : locks.

Lemma back_validated {A} token (k : UserToken → EM U Answer A) :
  (∀ t, back (k t)) → back (validated domain account token k).
Proof. intros Hk. unfold validated. lock_walk; auto. Qed.

(** *** Linux Hello *)

Lemma free_totp_or {A} cred t : free (hello_totp_or mk account (A := A) cred t).
Proof. unfold hello_totp_or. lock_walk. Qed.
Hint Resolve free_totp_or : locks.

Lemma free_offline {A} cred : free (hello_offline mk account old (A := A) cred).
Proof. unfold hello_offline. lock_walk. Qed.

Lemma free_bad_pin {A} suffix : free (bad_pin account (A := A) suffix).
Proof. unfold bad_pin. lock_walk. Qed.

Lemma free_bad_pin_error {A} e : free (bad_pin_error account (A := A) e).
Proof. apply free_bad_pin. Qed.

Lemma free_good_pin token : free (good_pin account token).
Proof. unfold good_pin. lock_walk. Qed.
Hint Resolve free_offline free_bad_pin free_bad_pin_error free_good_pin : locks.

Lemma back_request_reauth {A} pin : back (request_reauth account service (A := A) pin).
Proof. unfold request_reauth, await_reauth. lock_walk. Qed.
Hint Resolve back_request_reauth : locks.

Lemma back_forget {A} tag cred : back (forget_and_reauth account service (A := A) tag cred).
Proof. unfold forget_and_reauth. lock_walk. Qed.

Lemma back_hello_key_token key cred cid scopes : back (hello_key_token domain mk account old key cred cid scopes).
Proof.
  unfold hello_key_token. eapply returns_match; [apply lockless_net_tpm|apply ensures_net_tpm|].
  intros [token|e] (h & u & h' & u' & Hr); [lock_walk|].
  pose proof (blocked_hello _ _ _ _ _ _ _ _ _ Hr) as Hb. unfold hello_retry in Hb.
  destruct (is_sspr_required e); simpl in Hb.
  { destruct e; lock_walk. }
  destruct e; try solve [lock_walk]; repeat case_bool_decide; try solve [lock_walk]; intros s; left; by apply Hb.
Qed.

Lemma free_memory_entry : free (memory_entry account).
Proof. unfold memory_entry. lock_walk. Qed.
Hint Resolve free_memory_entry : locks.

Lemma back_refresh_cache_entry key cred : back (refresh_cache_entry mk account key cred).
Proof. unfold refresh_cache_entry, sealed_refresh_token. lock_walk. Qed.
Hint Resolve back_forget back_refresh_cache_entry : locks.

Lemma back_prt_token prt cred cid scopes : back (prt_token domain mk account old service prt cred cid scopes).
Proof.
  unfold prt_token, exchange_prt. eapply returns_bind;
    [apply returns_match_any; [apply lockless_net_tpm|lock_walk]|apply ensures_with_client, ensures_net_tpm|].
  intros [token|e] (h & u & h' & u' & Hr); [lock_walk|].
  destruct (is_sspr_required e); [destruct e; lock_walk|].
  destruct e; try solve [lock_walk]. case_bool_decide as Hc; [|lock_walk].
  eapply returns_match; [apply lockless_net_tpm|apply ensures_net_tpm|].
  intros [token|e] (h1 & u1 & h1' & u1' & Hr1); [|lock_walk]. intros s. left. by eapply blocked_prt.
Qed.

Lemma back_refresh_token_token t cred : back (refresh_token_token mk account old service t cred).
Proof. unfold refresh_token_token. lock_walk. Qed.
Hint Resolve back_hello_key_token back_prt_token back_refresh_token_token : locks.

Lemma back_decoupled_token key cred cid scopes : back (decoupled_token domain mk account old service key cred cid scopes).
Proof. unfold decoupled_token. lock_walk. Qed.

Lemma back_seal_token key cred token : back (seal_token mk account key cred token).
Proof. unfold seal_token. lock_walk. Qed.
Hint Resolve back_decoupled_token back_seal_token : locks.

Lemma back_auth {A} key kt cred : back (auth_and_validate_hello_key domain mk account old service (A := A) key kt cred).
Proof. unfold auth_and_validate_hello_key, hello_sign_in, validate_hello. lock_walk. Qed.
Hint Resolve back_auth : locks.

(** *** Passwords and second factors *)

Lemma free_second_factor {A} resp cred pin : free (nested_auth_handle_mfa_resp (A := A) resp cred pin).
Proof. unfold nested_auth_handle_mfa_resp, second_factor, hash_action. lock_walk. Qed.

Lemma free_maybe_prompt {A} token t action : free (maybe_prompt_setup_pin account nhp (A := A) token t action).
Proof. unfold maybe_prompt_setup_pin. lock_walk. Qed.
Hint Resolve free_second_factor free_maybe_prompt : locks.

Lemma back_password_only {A} token cred : back (password_only_success domain account nhp (A := A) token cred).
Proof. apply back_validated. intros t. unfold hash_action. lock_walk. Qed.
Hint Resolve back_password_only : locks.

Lemma back_prt_signin cred : back (prt_signin_frequency_check domain mk account nhp cred).
Proof.
  unfold prt_signin_frequency_check, try_prt_signin_frequency_check, signin_frequency_exchange, exchange_prt. lock_walk.
Qed.
Hint Resolve back_prt_signin : locks.

Lemma free_ask_new {A} cred : free (ask_new_password (A := A) cred).
Proof. unfold ask_new_password. lock_walk. Qed.
Lemma free_by_password {R} cred : free (by_password (R := R) mk account cred).
Proof. apply lockless_net_tpm. Qed.
Lemma free_start_mfa {R} cred opts : free (start_mfa (R := R) account cred opts).
Proof. unfold start_mfa. lock_walk. Qed.
Hint Resolve free_ask_new free_by_password free_start_mfa : locks.

Lemma back_password_first_flow opts joined cred : back (password_first_flow domain account opts joined cred).
Proof.
  unfold password_first_flow. eapply (returns_match _ _ _ (λ r, r = Err MsalError_MFARequired → blocked)).
  - lock_walk.
  - apply ensures_any_bind; [done|intros cfg].
    eapply ensures_mono; [apply (ensures_net _ (λ _, True))| |done]. intros r (u & u' & Hr) ->. by eapply blocked_flow.
  - intros r Hr. apply free_net_down_check. intros e ->. destruct e; try solve [lock_walk]. intros s. left. by apply Hr.
Qed.
Hint Resolve back_password_first_flow : locks.

Lemma back_password_first opts joined cred : back (password_first_arm domain mk account nhp opts joined cred).
Proof. unfold password_first_arm, try_password, put_options. lock_walk. Qed.

Lemma back_change_password handler cred : back (change_password domain account handler cred).
Proof. unfold change_password. lock_walk. Qed.

Lemma back_sfa_token cred e : back (sfa_token domain mk account cred e).
Proof. unfold sfa_token. lock_walk. apply back_net_down_check. lock_walk. Qed.
Hint Resolve back_change_password back_sfa_token : locks.

Lemma back_password handler cred : back (password_arm domain mk account service handler cred).
Proof.
  unfold password_arm. lock_walk. apply back_net_down_check. intros e _. unfold sfa_fallback. lock_walk.
  apply back_validated. lock_walk.
Qed.

Lemma back_mfa_token flow password extra pin data poll other :
  (∀ e, free (other e)) → back (mfa_flow_token domain account flow password extra pin data poll other).
Proof. intros Ho. unfold mfa_flow_token. lock_walk. apply free_net_down_check. auto. Qed.

Lemma free_change_or_deny {A} password e : free (change_password_or_deny (A := A) password e).
Proof. unfold change_password_or_deny. lock_walk. Qed.
Hint Resolve free_change_or_deny : locks.

Lemma back_mfa_finish {A} token token2 pin : back (mfa_finish domain mk account nhp (A := A) token token2 pin).
Proof. apply back_validated. intros t. unfold reseal_prt_with_existing_hello_key_on_success. lock_walk. Qed.
Hint Resolve back_mfa_finish : locks.

Lemma back_mfa_data flow password extra pin data : back (mfa_data_arm domain mk account nhp flow password extra pin data).
Proof. apply returns_bind_any; [apply back_mfa_token|]; lock_walk. Qed.

Lemma back_mfa_poll flow password extra pin n : back (mfa_poll_arm domain mk account nhp flow password extra pin n).
Proof.
  unfold mfa_poll_arm. destruct (_ <? _); [lock_walk|]. apply returns_bind_any; [apply back_mfa_token|]; lock_walk.
Qed.

Lemma back_setup_pin token pin : back (setup_pin_arm domain mk account old service token pin).
Proof.
  unfold setup_pin_arm. lock_walk. apply back_net_down_check. lock_walk.
Qed.
Hint Resolve back_password_first back_password back_mfa_data back_mfa_poll back_setup_pin : locks.

Lemma free_delayed_init {R} : free (delayed_init (R := R) domain).
Proof.
  intros s. unfold delayed_init. destruct (e_init s); [by right|]. revert s.
  change (free (r ← attempt (first_init domain);
    match r with Ok _ => _ ← set_init (R := R); mret true | Err _ => mret false end)).
  unfold first_init. lock_walk.
Qed.
Hint Resolve free_delayed_init : locks.

Lemma back_step req : back (entra_online_auth_step domain mk account old service nhp req).
Proof. unfold entra_online_auth_step, online_arms, pin_arm, fido_arm. lock_walk. Qed.

(** *** Waiting for oneself *)

Lemma match_client_hangs {R A B} (m : EM U R A) (k : A → EM U R B) s : e_locked s = true → (match_client m k s).1 = inr Hang.
Proof. intros Hs. unfold match_client. by rewrite Hs. Qed.

Lemma hello_key_token_hangs key cred cid scopes s e h u :
  e_locked s = false →
  token_by_hello_key account key scopes cid mk cred (h_tpm (e_hello s)) (e_net s) = (Err e, h, u) →
  hello_retry cid e = true → (hello_key_token domain mk account old key cred cid scopes s).1 = inr Hang.
Proof.
  intros Hl Hr Hh. unfold hello_key_token. unfold match_client at 1. rewrite Hl.
  unfold mbind, EM_bind, by_hello_key, net_tpm. simpl. rewrite Hr.
  unfold hello_retry in Hh. apply andb_true_iff in Hh as [Hn%negb_true_iff Hh].
  match goal with |- context [match ?t with (r, s) => (r, set_locked false s) end] =>
    assert (t.1 = inr Hang) as Ht; [|by destruct t] end.
  destruct e; try discriminate Hh; rewrite Hn; revert Hh; repeat case_bool_decide; intros Hh; try discriminate Hh;
    by apply match_client_hangs.
Qed.

(** The three cases are real: a user with a Hello for Business key enters the right PIN,
    the directory answers the first request with a lack of consent (or, to the default
    application, with any refusal), and the step never answers, for it makes the second
    request while it holds the lock it waits for. *)
Theorem pin_retry_hangs cred key pin sk s h1 e h2 u :
  e_init s = true → e_locked s = false → key_fault (h_tick (e_hello s)) = false →
  h_keys (e_hello s) !! (to_lowercase account +:+ "/hello") ≫= hello_key_from_slice = Some key →
  pin_value_new cred = Some pin → ms_hello_key_load mk key pin (h_tpm (e_hello s)) = (Some sk, h1) →
  (let '(cid, scopes) := app_and_scopes domain (as_config (e_alias s)) in
   token_by_hello_key account key scopes cid mk cred h1 (e_net s) = (Err e, h2, u) ∧ hello_retry cid e = true) →
  run_em (entra_online_auth_step (U := U) domain mk account old service nhp (PamAuthRequest_Pin cred)) s
    = (None, (entra_online_auth_step (U := U) domain mk account old service nhp (PamAuthRequest_Pin cred) s).2).
Proof.
  intros Hi Hl Hf Hk Hp Hload Hr.
  assert ((entra_online_auth_step (U := U) domain mk account old service nhp (PamAuthRequest_Pin cred) s).1 = inr Hang) as Hh.
  2: { unfold run_em. by destruct (entra_online_auth_step _ _ _ _ _ _ _ s) as [r s'] eqn:Es; simpl in Hh; subst r. }
  unfold entra_online_auth_step, delayed_init, mbind, EM_bind. rewrite Hi. cbn [get_handler].
  replace (online_arms _ _ _ _ _ _ _ (PamAuthRequest_Pin cred)) with (pin_arm (U := U) domain mk account old service cred)
    by (by destruct (e_handler s)).
  unfold pin_arm, mbind, EM_bind, hello, fetch_hello_key_or_fail, fetch_hello_key, mbind, HM_bind, ks_get.
  rewrite Hf, Hk. simpl. unfold auth_and_validate_hello_key, mbind, EM_bind. rewrite Hp. simpl. unfold hello, with_tpm. simpl.
  rewrite Hload. simpl. unfold hello_sign_in, mbind, EM_bind. simpl.
  destruct (app_and_scopes _ _) as [cid scopes]. destruct Hr as [Hr Hretry].
  match goal with |- context [hello_key_token _ _ _ _ _ _ _ _ ?s0] =>
    pose proof (hello_key_token_hangs key cred cid scopes s0 e h2 u Hl Hr Hretry) as Hg;
    destruct (hello_key_token domain mk account old key cred cid scopes s0) as [r s'] end.
  simpl in Hg. by subst r.
Qed.

(** A user without a cached token is looked up while the lock is held. *)
Lemma lookup_hangs prt cache s e h1 u1 e2 h2 u2 :
  e_locked s = false →
  (let '(cid, scopes) := app_and_scopes domain (as_config (e_alias s)) in
   exchange_prt_for_access_token prt scopes cid None None mk (h_tpm (e_hello s)) (e_net s) = (Err (MsalError_AcquireTokenFailed e), h1, u1) ∧
   (CONSENT_REQUIRED ∈ error_codes e)) →
  exchange_prt_for_access_token prt [] None None None mk h1 u1 = (Err e2, h2, u2) →
  (token_by_prt (U := U) domain mk prt (fake_user domain mk account None cache) s).1 = inr Hang.
Proof.
  intros Hl Hr Hr2. unfold token_by_prt, mbind, EM_bind. simpl. destruct (app_and_scopes _ _) as [cid scopes].
  destruct Hr as [Hr Hc]. unfold with_client, match_client, mbind, EM_bind, exchange_prt, net_tpm. rewrite Hl. simpl. rewrite Hr. simpl.
  rewrite bool_decide_true by done. simpl. rewrite Hr2. done.
Qed.

(** ** A device the directory does not know yet *)

(** Where the directory does not know the device (as for some seconds after it has joined, while the
    directory replicates), the request after the join is not made again, contrary to
    what the code for that case says: the user is denied with the message that the
    device was removed, and the keys of the device, which may be the ones just made, are
    deleted. *)
Theorem new_device_dropped token s err h u :
  e_locked s = false → key_fault (h_tick (e_hello s)) = false → key_fault (S (h_tick (e_hello s))) = false →
  (let '(cid, scopes) := app_and_scopes domain (as_config (e_alias s)) in
   token_by_broker_refresh_token (token_refresh_token token) scopes cid mk (h_tpm (e_hello s)) (e_net s)
     = (Err (MsalError_AcquireTokenFailed err), h, u)) →
  DEVICE_AUTH_FAIL ∈ error_codes err →
  let '(r, s') := obtain_enrolled_token (U := U) domain mk token s in
  r = inr (Return (AuthResult_Denied ("Device has been removed from the domain. "
             +:+ msal_error_to_user_message (MsalError_AcquireTokenFailed err)), AuthCacheAction_None)) ∧
  h_keys (e_hello s') = delete (fetch_intune_key_tag domain) (delete (fetch_cert_key_tag domain) (h_keys (e_hello s))) ∧
  e_net s' = u.
Proof.
  intros Hl Hf1 Hf2 Hr Hd. unfold obtain_enrolled_token, mbind, EM_bind. simpl.
  destruct (app_and_scopes _ _) as [cid scopes]. unfold with_client, match_client, mbind, EM_bind, by_refresh_token, net_tpm.
  rewrite Hl. simpl. rewrite Hr. simpl. unfold check_new_device_enrollment_required.
  rewrite (bool_decide_true _ Hd), orb_true_r. unfold mbind, EM_bind, hello, ks_delete. simpl.
  rewrite Hf1. simpl. rewrite Hf2. done.
Qed.

End step_locks.
