(* ===== verification/EntraFrame.v ===== *)
(** * What a login step may touch

    A step of an online login writes only keys of its own account and of the device of
    its domain, counts bad PINs of its own account only, and leaves the cached tokens of
    the other accounts alone, but for those that have expired. *)
From stdpp Require Import base gmap strings list fin_maps.
From Stdlib Require Import ZArith Lia Ascii.
From S2P Require Import Prelude Proto Interface Db Runtime Caches Idmap UserMap Config Hello HelloTheorems Pam Daemon Entra EntraUser EntraInit EntraDevice EntraStep EntraTheorems EntraStepTheorems.

Open Scope rust_scope.

Section frame.
Context {X : Ext} {C : Crypto} {HO : HelloOps} {E : Env} {HE : HelloEnv}.
Context {INI : IniFile} {G : GeneratedConfig}.
Context (domain account : string).

(** The tags of the account's keys and of the device's. *)
Definition own_tags : list string :=
  [fetch_hello_key_tag account true; fetch_hello_key_tag account false; fetch_hello_prt_key_tag account;
   fetch_hello_refresh_token_key_tag account; fetch_hello_totp_key_tag account;
   fetch_cert_key_tag domain; fetch_intune_key_tag domain; fetch_tranport_key_tag domain].

(** An entry of a cache that is not the account's stays as it is, unless it is dropped; and it
    is dropped only when more than a day had passed since it was cached, by the clock as read
    at a moment between [n] and [n']. *)
Definition kept_or_expired {A} (n n' : nat) (m m' : gmap string (A * SystemTime)) : Prop :=
  ∀ a, a ≠ to_lowercase account →
    m' !! a = m !! a ∨ m' !! a = None ∧ ∃ x iat, m !! a = Some (x, iat) ∧ outlived n n' iat.

Record own_client (n n' : nat) (c c' : HelloClient) : Prop := {
  own_counter : ∀ a, a ≠ account → counter c' !! a = counter c !! a;
  own_prts : kept_or_expired n n' (refresh_cache c) (refresh_cache c');
  own_tokens : kept_or_expired n n' (refresh_token_cache c) (refresh_token_cache c')
}.

Definition own (s s' : HState) : Prop :=
  (h_tick s ≤ h_tick s')%nat ∧
  (∀ tag, tag ∉ own_tags → h_keys s' !! tag = h_keys s !! tag) ∧
  own_client (h_tick s) (h_tick s') (h_client s) (h_client s').

Lemma outlived_weaken n1 n2 n1' n2' iat :
  (n1' ≤ n1)%nat → (n2 ≤ n2')%nat → outlived n1 n2 iat → outlived n1' n2' iat.
Proof. intros H1 H2 (i & Hi & Hc). exists i. split; [lia|done]. Qed.

Lemma kept_trans {A} n1 n2 n3 (m1 m2 m3 : gmap string (A * SystemTime)) :
  (n1 ≤ n2)%nat → (n2 ≤ n3)%nat →
  kept_or_expired n1 n2 m1 m2 → kept_or_expired n2 n3 m2 m3 → kept_or_expired n1 n3 m1 m3.
Proof.
  intros L1 L2 H1 H2 a Ha.
  destruct (H1 a Ha) as [E1|[E1 (x & iat & Ex & Ho)]], (H2 a Ha) as [E2|[E2 (y & iat' & Ey & Ho')]]; rewrite ?E2.
  - by left.
  - right. split; [done|]. exists y, iat'. rewrite <- E1. split; [done|]. refine (outlived_weaken _ _ _ _ _ _ _ Ho'); lia.
  - right. split; [done|]. exists x, iat. split; [done|]. refine (outlived_weaken _ _ _ _ _ _ _ Ho); lia.
  - congruence.
Qed.

Lemma kept_refl {A} n n' (m : gmap string (A * SystemTime)) : kept_or_expired n n' m m.
Proof. intros a _. by left. Qed.

#[export] Instance own_preorder : PreOrder own.
Proof.
  split.
  - intros s. split; [done|]. split; [done|]. split; [done|apply kept_refl..].
  - intros s1 s2 s3 (L1 & K1 & [C1 P1 T1]) (L2 & K2 & [C2 P2 T2]). split; [lia|].
    split; [intros tag Ht; by rewrite K2, K1|].
    split; [intros a Ha; by rewrite C2, C1|by eapply kept_trans..].
Qed.

(** A step that writes neither to the key store nor to the client. *)
Lemma own_idle s s' :
  (h_tick s ≤ h_tick s')%nat → h_keys s' = h_keys s → h_client s' = h_client s → own s s'.
Proof. intros L K Cl. split; [done|]. rewrite K, Cl. split; [done|]. split; [done|apply kept_refl..]. Qed.

(** ** Computations of [Hello] *)

Definition keeps_to {R A} (m : HM R A) : Prop := ∀ s, own s (m s).2.

Lemma keeps_to_bind {R A B} (m : HM R A) (k : A → HM R B) : keeps_to m → (∀ a, keeps_to (k a)) → keeps_to (m ≫= k).
Proof.
  intros Hm Hk s. specialize (Hm s). unfold mbind, HM_bind. destruct (m s) as [[a|e] s1]; [|done].
  etrans; [exact Hm|apply Hk].
Qed.
Lemma keeps_to_ret {R A} (a : A) : keeps_to (R := R) (mret a).
Proof. intros s. reflexivity. Qed.
Lemma keeps_to_fail {R A} e : keeps_to (R := R) (A := A) (fail e).
Proof. intros s. reflexivity. Qed.
Lemma keeps_to_return {R A} (r : R) : keeps_to (A := A) (return_ r).
Proof. intros s. reflexivity. Qed.
Lemma keeps_to_or_fail {R A} e (o : option A) : keeps_to (R := R) (or_fail e o).
Proof. intros s. by destruct o. Qed.
Lemma keeps_to_draw {R A} (o : nat → A) : keeps_to (R := R) (hdraw o).
Proof. intros s. apply own_idle; simpl; [lia|done..]. Qed.
Lemma keeps_to_tpm {R A} (f : Hsm → A * Hsm) : keeps_to (R := R) (with_tpm f).
Proof. intros s. unfold with_tpm. destruct (f _). by apply own_idle. Qed.
Lemma keeps_to_get {R K} (f : bytes → option K) tag : keeps_to (R := R) (ks_get f tag).
Proof. intros s. apply own_idle; simpl; [lia|done..]. Qed.
Lemma keeps_to_client {R} : keeps_to (R := R) get_client.
Proof. intros s. reflexivity. Qed.
Lemma keeps_to_plus {R} t d : keeps_to (R := R) (plus_secs t d).
Proof. intros s. unfold plus_secs. by case_match. Qed.

Lemma keeps_to_insert {R K} (f : K → option bytes) tag k : tag ∈ own_tags → keeps_to (R := R) (ks_insert f tag k).
Proof.
  intros Ht s. unfold ks_insert. destruct (f k); [|reflexivity].
  destruct (key_fault _); simpl; [apply own_idle; simpl; [lia|done..]|].
  split; [simpl; lia|]. split; [|split; [done|apply kept_refl..]].
  intros tag' Ht'. simpl. rewrite lookup_insert_ne; [done|]. by intros ->.
Qed.
Lemma keeps_to_delete {R} tag : tag ∈ own_tags → keeps_to (R := R) (ks_delete tag).
Proof.
  intros Ht s. unfold ks_delete. destruct (key_fault _); simpl; [apply own_idle; simpl; [lia|done..]|].
  split; [simpl; lia|]. split; [|split; [done|apply kept_refl..]].
  intros tag' Ht'. simpl. rewrite lookup_delete_ne; [done|]. by intros ->.
Qed.
Lemma keeps_to_mod {R} f : (∀ n c, own_client n n c (f c)) → keeps_to (R := R) (mod_client f).
Proof. intros Hf s. split; [done|]. split; [done|]. apply Hf. Qed.

Lemma own_set_state n st c : own_client n n c (set_state st c).
Proof. split; [done|apply kept_refl..]. Qed.

Lemma keeps_to_increment {R} : keeps_to (R := R) (increment_bad_pin_count account).
Proof.
  apply keeps_to_mod. intros n c. split; [|apply kept_refl..]. intros a Ha. simpl. by rewrite lookup_insert_ne.
Qed.
Lemma keeps_to_reset {R} : keeps_to (R := R) (reset_bad_pin_count account).
Proof.
  apply keeps_to_mod. intros n c. split; [|apply kept_refl..]. intros a Ha. simpl. by rewrite lookup_insert_ne.
Qed.

Lemma kept_insert {A} n n' (m : gmap string (A * SystemTime)) x :
  kept_or_expired n n' m (<[to_lowercase account := x]> m).
Proof. intros a Ha. left. by rewrite lookup_insert_ne. Qed.

Lemma keeps_to_add {R} entry : keeps_to (R := R) (Hello.add account entry).
Proof.
  apply keeps_to_bind; [apply keeps_to_draw|intros t]. apply keeps_to_mod. intros n c.
  destruct entry; (split; [done|..]); simpl; first [apply kept_refl|apply kept_insert].
Qed.

(** The entries that [purge] reports stale are the expired ones. *)
Lemma kept_remove {A} n n' ks (m : gmap string (A * SystemTime)) :
  (∀ k, k ∈ ks → ∃ a iat, (k, (a, iat)) ∈ map_to_list m ∧ outlived n n' iat) →
  kept_or_expired n n' m (remove_all ks m).
Proof.
  intros Hk a _. rewrite remove_all_lookup. case_decide as Ha; [right|by left]. split; [done|].
  destruct (Hk a Ha) as (x & iat & Hm%elem_of_map_to_list & Ho). by exists x, iat.
Qed.

Lemma stale_idle {R A} (l : list (string * (A * SystemTime))) s :
  (h_tick s ≤ h_tick (stale (R := R) l s).2)%nat ∧ HelloTheorems.ticked s (stale (R := R) l s).2.
Proof.
  revert s. induction l as [|[k [a iat]] l IH]; intros s; simpl; [done|].
  unfold mbind, HM_bind, plus_secs. destruct (_ <=? i64_max); [|done]. simpl.
  specialize (IH (Build_HState (S (h_tick s)) (h_client s) (h_keys s) (h_tpm s))).
  destruct (stale l _) as [[ks|e] s1]; simpl in *; split; (lia || apply IH).
Qed.

Lemma keeps_to_stale {R A} (l : list (string * (A * SystemTime))) : keeps_to (R := R) (stale l).
Proof. intros s. destruct (stale_idle (R := R) l s) as [L (T1 & T2 & T3)]. by apply own_idle. Qed.

(** Each of the two halves of [purge]. *)
Lemma keeps_to_sweep {R A} (get : HelloClient → gmap string (A * SystemTime))
  (set_ : gmap string (A * SystemTime) → HelloClient → HelloClient) m s :
  get (h_client s) = m →
  (∀ n n' c ks, kept_or_expired n n' (get c) (remove_all ks (get c)) →
     own_client n n' c (set_ (remove_all ks (get c)) c)) →
  own s ((ks ← stale (R := R) (map_to_list m); mod_client (λ c, set_ (remove_all ks (get c)) c)) s).2.
Proof.
  intros Hm Hset. unfold mbind, HM_bind. destruct (stale_idle (R := R) (map_to_list m) s) as [L (T1 & T2 & T3)].
  destruct (stale _ s) as [[ks|e] s1] eqn:Es; simpl in *; [|by apply own_idle].
  destruct (stale_spec _ _ _ _ Es) as (_ & _ & Hks & _). split; [done|]. simpl. split; [by rewrite T2|].
  rewrite T1. apply Hset, kept_remove. by rewrite Hm.
Qed.

Lemma keeps_to_purge {R} : keeps_to (R := R) purge.
Proof.
  intros s. pose proof (keeps_to_sweep (R := R) refresh_cache set_refresh_cache _ s eq_refl) as H1.
  assert (∀ s1, refresh_token_cache (h_client s1) = refresh_token_cache (h_client s) → own s1
    ((ks ← stale (R := R) (map_to_list (refresh_token_cache (h_client s)));
      mod_client (λ c, set_refresh_token_cache (remove_all ks (refresh_token_cache c)) c)) s1).2) as H2.
  { intros s1 Hs1. apply (keeps_to_sweep refresh_token_cache); [done|]. intros n n' c ks Hk.
    split; [done|apply kept_refl|done]. }
  unfold purge, get_client. unfold mbind, HM_bind in *. simpl.
  destruct (stale_idle (R := R) (map_to_list (refresh_cache (h_client s))) s) as [L (T1 & T2 & T3)].
  destruct (stale _ s) as [[ks|e] s1] eqn:Es; simpl in *; [|by apply own_idle].
  etrans; [apply H1|apply H2; simpl; by rewrite T1].
  intros n n' c ks' Hk. split; [done|done|apply kept_refl].
Qed.

End frame.

Create HintDb frame discriminated.
#[export] Hint Resolve keeps_to_ret keeps_to_fail keeps_to_return keeps_to_or_fail keeps_to_draw keeps_to_tpm keeps_to_get
  keeps_to_client keeps_to_plus keeps_to_increment keeps_to_reset keeps_to_add keeps_to_purge : frame.

Ltac own_tag := unfold own_tags; rewrite !elem_of_cons; tauto.

Ltac frame_walk :=
  repeat first
    [ progress intros
    | solve [eauto 2 with frame nocore]
    | apply keeps_to_bind
    | apply keeps_to_insert; own_tag
    | apply keeps_to_delete; own_tag
    | progress (unfold system_now, ok_or_fail, fetch_hello_key, fetch_hello_key_or_fail)
    | case_match ].

Section operations.
Context {X : Ext} {C : Crypto} {HO : HelloOps} {E : Env} {HE : HelloEnv}.
Context {INI : IniFile} {G : GeneratedConfig}.
Context (domain account : string).

Lemma keeps_refresh_token {R} : keeps_to (R := R) domain account (refresh_token account).
Proof. unfold refresh_token. frame_walk. Qed.

Lemma keeps_bad_pin {R} cfg (f : string → R) : keeps_to domain account (handle_hello_bad_pin_count cfg account f).
Proof. unfold handle_hello_bad_pin_count. frame_walk. Qed.
#[local] Hint Resolve keeps_bad_pin : frame.

Lemma keeps_setup_totp {R} pin mk : keeps_to (R := R) domain account (setup_hello_totp account pin mk).
Proof. unfold setup_hello_totp. frame_walk. Qed.

Lemma keeps_totp_auth {R} cfg token cred pin mk pending (f : AuthResult → R) :
  keeps_to domain account (handle_hello_pin_totp_auth cfg account token cred pin mk pending f).
Proof. unfold handle_hello_pin_totp_auth, check_totp. frame_walk. Qed.

Lemma keeps_seal_existing {R} token key pin mk :
  keeps_to (R := R) domain account (seal_prt_with_existing_hello_key account token key pin mk).
Proof. unfold seal_prt_with_existing_hello_key. frame_walk. Qed.

Lemma keeps_totp_setup {R} : keeps_to (R := R) domain account (check_hello_totp_setup account).
Proof. unfold check_hello_totp_setup. frame_walk. Qed.

Lemma keeps_create_key {R} cred mk e : keeps_to (R := R) domain account (create_decoupled_hello_key cred mk e).
Proof. unfold create_decoupled_hello_key. frame_walk. Qed.

Lemma keeps_insert_hello {R} amr key :
  keeps_to (R := R) domain account (ks_insert hello_key_to_vec (fetch_hello_key_tag account amr) key).
Proof. destruct amr; frame_walk. Qed.

Lemma keeps_set_state {R} st : keeps_to (R := R) domain account (mod_client (set_state st)).
Proof. apply keeps_to_mod. intros n c. apply own_set_state. Qed.

End operations.

#[export] Hint Resolve keeps_refresh_token keeps_bad_pin keeps_setup_totp keeps_totp_auth keeps_seal_existing
  keeps_totp_setup keeps_create_key keeps_insert_hello keeps_set_state : frame.

(** ** Computations of the provider *)

Section provider.
Context {X : Ext} {C : Crypto} {HO : HelloOps} {E : Env} {HE : HelloEnv} {UNI : Unistring}.
Context {INI : IniFile} {G : GeneratedConfig} {PC : PamConfig} {EC : EntraConfig} {H : Host} {F : Federation} {T : TextOps}.
Context {U : Type} {EE : EntraEnv U} {EF : EntraFlow U} {EL : EntraLogin U}.
Context (domain account : string).

Definition apart {R A} (m : EM U R A) : Prop := ∀ s, own domain account (e_hello s) (e_hello (m s).2).

Lemma apart_bind {R A B} (m : EM U R A) (k : A → EM U R B) : apart m → (∀ a, apart (k a)) → apart (a ← m; k a).
Proof.
  intros Hm Hk s. specialize (Hm s). unfold mbind, EM_bind. destruct (m s) as [[a|e] s1]; [|done].
  etrans; [exact Hm|apply Hk].
Qed.
Lemma apart_match {R A B} (m : EM U R A) (k : A → EM U R B) : apart m → (∀ a, apart (k a)) → apart (match_client m k).
Proof.
  intros Hm Hk s. unfold match_client. destruct (e_locked s); [reflexivity|].
  pose proof (apart_bind m k Hm Hk (set_locked true s)) as Hb.
  by destruct ((a ← m; k a) (set_locked true s)) as [r s1].
Qed.
Lemma apart_attempt {R A} (m : EM U A A) : apart m → apart (R := R) (attempt m).
Proof. intros Hm s. specialize (Hm s). unfold attempt. by destruct (m s) as [[a|[]] s1]. Qed.
Lemma apart_hello {R A} (m : HM R A) : keeps_to domain account m → apart (hello m).
Proof. intros Hm s. specialize (Hm (e_hello s)). unfold hello. by destruct (m _). Qed.
Lemma apart_ret {R A} (a : A) : apart (R := R) (mret a).
Proof. intros s. reflexivity. Qed.
Lemma apart_fail {R A} e : apart (R := R) (A := A) (e_fail e).
Proof. intros s. reflexivity. Qed.
Lemma apart_return {R A} (r : R) : apart (A := A) (e_return r).
Proof. intros s. reflexivity. Qed.
Lemma apart_panic {R A} : apart (R := R) (A := A) e_panic.
Proof. intros s. reflexivity. Qed.
Lemma apart_some {R A} e (o : option A) : apart (R := R) (e_some e o).
Proof. intros s. by destruct o. Qed.
Lemma apart_ok {R A} e (r : result A unit) : apart (R := R) (e_ok e r).
Proof. intros s. by destruct r. Qed.
Lemma apart_net {R A} (f : U → A * U) : apart (R := R) (net f).
Proof. intros s. unfold net. by destruct (f _). Qed.
Lemma apart_net_tpm {R A} (f : Hsm → U → A * Hsm * U) : apart (R := R) (net_tpm f).
Proof.
  intros s. unfold net_tpm. destruct (f _ _) as [[a h] u]. by apply own_idle.
Qed.
Lemma apart_config {R} : apart (R := R) get_config.
Proof. intros s. reflexivity. Qed.
Lemma apart_idmap {R} : apart (R := R) get_idmap.
Proof. intros s. reflexivity. Qed.
Lemma apart_handler {R} : apart (R := R) get_handler.
Proof. intros s. reflexivity. Qed.
Lemma apart_put {R} h : apart (R := R) (put_handler h).
Proof. intros s. reflexivity. Qed.
Lemma apart_alias {R A} (f : AliasState → A * AliasState) : apart (R := R) (alias_io f).
Proof. intros s. unfold alias_io. by destruct (f _). Qed.
Lemma apart_idmap_io {R A} (f : Idmap → Idmap * A) : apart (R := R) (idmap_io f).
Proof. intros s. unfold idmap_io. by destruct (f _). Qed.
Lemma apart_set_init {R} : apart (R := R) set_init.
Proof. intros s. reflexivity. Qed.

End provider.

#[export] Hint Resolve apart_ret apart_fail apart_return apart_panic apart_some apart_ok apart_net apart_net_tpm
  apart_config apart_idmap apart_handler apart_put apart_alias apart_idmap_io apart_set_init : frame.

Ltac apart_step :=
  first
  [ progress intros
  | solve [eauto 2 with frame nocore]
  | match goal with
    | |- apart _ _ (hello _) => apply apart_hello; solve [frame_walk]
    | |- apart _ _ (_ ≫= _) => apply apart_bind
    | |- apart _ _ (attempt _) => apply apart_attempt
    | |- apart _ _ (match_client _ _) => apply apart_match
    | |- apart _ _ (with_client _) => apply apart_match
    | |- apart _ _ (match ?x with _ => _ end) => destruct x
    | |- apart _ _ (e_return _) => apply apart_return
    end ].
Ltac apart_walk := repeat apart_step.

(** ** The step *)

Section step_frame.
Context {X : Ext} {C : Crypto} {HO : HelloOps} {E : Env} {HE : HelloEnv} {UNI : Unistring}.
Context {INI : IniFile} {G : GeneratedConfig} {PC : PamConfig} {EC : EntraConfig} {H : Host} {F : Federation} {T : TextOps}.
Context {U : Type} {EE : EntraEnv U} {EF : EntraFlow U} {EL : EntraLogin U}.
Context (domain : string) (mk : MachineKey) (account : string) (old : UserToken) (service : string) (nhp : bool).

Notation mine m := (apart (U := U) domain account m).

Lemma mine_denied {A} msg : mine (denied (A := A) msg).
Proof. apply apart_return. Qed.
Lemma mine_next {A} r : mine (next (A := A) r).
Proof. apply apart_return. Qed.
Lemma mine_answer {A} r : mine (answer (A := A) r).
Proof. apply apart_return. Qed.
Lemma mine_deny_error {A} e : mine (deny_error (A := A) e).
Proof. apply apart_return. Qed.
#[local] Hint Resolve mine_denied mine_next mine_answer mine_deny_error : frame.

Lemma mine_net_down {R} : mine (net_down (R := R)).
Proof. unfold net_down, go_offline, set_cache_state. apart_walk. Qed.
#[local] Hint Resolve mine_net_down : frame.
Lemma mine_outage {A} : mine (network_down (A := A)).
Proof. unfold network_down. apart_walk. Qed.
Lemma mine_check_new_device {A} e : mine (check_new_device_enrollment_required domain (A := A) e).
Proof. unfold check_new_device_enrollment_required. apart_walk. Qed.
#[local] Hint Resolve mine_outage mine_check_new_device : frame.
Lemma mine_net_down_check {A} (r : result A MsalError) other :
  (∀ e, mine (other e)) → mine (step_net_down_check domain r other).
Proof. intros Ho. destruct r as [a|[]]; simpl; try (by apply Ho); apart_walk. Qed.

Lemma mine_joined {R} : mine (is_domain_joined (R := R) domain).
Proof.
  unfold is_domain_joined, fetch_loadable_transport_key_from_keystore, fetch_loadable_cert_key_from_keystore. apart_walk.
Qed.
Lemma mine_enrolled {R} : mine (is_intune_enrolled (R := R) domain).
Proof. unfold is_intune_enrolled. apart_walk. Qed.
Lemma mine_record {R} l : mine (record_config (R := R) domain l).
Proof. unfold record_config. apart_walk. Qed.
Lemma mine_refresh {R} token scopes cid : mine (by_refresh_token (R := R) mk token scopes cid).
Proof. apply apart_net_tpm. Qed.
#[local] Hint Resolve mine_joined mine_enrolled mine_record mine_refresh : frame.

Lemma mine_intune_enroll device attrs token : mine (intune_enroll domain mk device attrs token).
Proof. unfold intune_enroll, enroll_with. apart_walk. Qed.
#[local] Hint Resolve mine_intune_enroll : frame.
Lemma mine_intune_step token : mine (intune_enroll_step domain mk token).
Proof. unfold intune_enroll_step. apart_walk. Qed.
Lemma mine_join {R} token : mine (join_domain (R := R) domain mk token).
Proof. unfold join_domain. apart_walk. Qed.
#[local] Hint Resolve mine_intune_step mine_join : frame.
Lemma mine_obtain token : mine (obtain_enrolled_token domain mk token).
Proof. unfold obtain_enrolled_token. repeat first [apply mine_net_down_check|apart_step]. Qed.
#[local] Hint Resolve mine_obtain : frame.
Lemma mine_enroll token : mine (enroll_and_obtain_enrolled_token domain mk token).
Proof. unfold enroll_and_obtain_enrolled_token. apart_walk. Qed.

Lemma mine_cache {R} : mine (open_id_cache (R := R)).
Proof. unfold open_id_cache, look. apart_walk. Qed.
#[local] Hint Resolve mine_enroll mine_cache : frame.
Lemma mine_group_tokens {R} l : mine (group_tokens (R := R) l).
Proof.
  induction l as [|g l IH]; simpl; [apart_walk|]. apply apart_bind; [apply apart_attempt|intros r; apart_walk; auto].
  unfold group_token_from_directory_object, group_gid, number_of_sid, number_of_name, graph_tenant, idmap_number. apart_walk.
Qed.
#[local] Hint Resolve mine_group_tokens : frame.
Lemma mine_validate token : mine (token_validate domain account token None).
Proof.
  unfold token_validate, same_user, user_token_from_unix_user_token, user_details, user_numbers, mapped_uid,
    number_of_sid, number_of_name, tenant_uuid, graph_tenant, idmap_number, look. apart_walk.
Qed.
#[local] Hint Resolve mine_validate : frame.
Lemma mine_validated {A} token (k : UserToken → EM U (AuthResult * AuthCacheAction) A) :
  (∀ t, mine (k t)) → mine (validated domain account token k).
Proof. intros Hk. unfold validated. apart_walk; auto. Qed.

Lemma mine_totp_or {A} cred t : mine (hello_totp_or mk account (A := A) cred t).
Proof. unfold hello_totp_or. apart_walk. Qed.
Lemma mine_bad_pin {A} suffix : mine (bad_pin account (A := A) suffix).
Proof. unfold bad_pin. apart_walk. Qed.
Lemma mine_bad_pin_error {A} e : mine (bad_pin_error account (A := A) e).
Proof. apply mine_bad_pin. Qed.
Lemma mine_good_pin token : mine (good_pin account token).
Proof. unfold good_pin. apart_walk. Qed.
Lemma mine_request_reauth {A} pin : mine (request_reauth account service (A := A) pin).
Proof. unfold request_reauth, await_reauth. apart_walk. Qed.
#[local] Hint Resolve mine_totp_or mine_bad_pin mine_bad_pin_error mine_good_pin mine_request_reauth : frame.
Lemma mine_offline {A} cred : mine (hello_offline mk account old (A := A) cred).
Proof. unfold hello_offline. apart_walk. Qed.
#[local] Hint Resolve mine_offline : frame.

Lemma mine_hello_key_token key cred cid scopes : mine (hello_key_token domain mk account old key cred cid scopes).
Proof. unfold hello_key_token, retry_hello_key, by_hello_key. apart_walk. Qed.
Lemma mine_refresh_cache_entry key cred : mine (refresh_cache_entry mk account key cred).
Proof. unfold refresh_cache_entry, sealed_refresh_token, memory_entry. apart_walk. Qed.
Lemma mine_prt_token prt cred cid scopes : mine (prt_token domain mk account old service prt cred cid scopes).
Proof. unfold prt_token, exchange_prt, forget_and_reauth. apart_walk. Qed.
Lemma mine_refresh_token_token t cred : mine (refresh_token_token mk account old service t cred).
Proof. unfold refresh_token_token, forget_and_reauth. apart_walk. Qed.
Lemma mine_seal_token key cred token : mine (seal_token mk account key cred token).
Proof. unfold seal_token. apart_walk. Qed.
#[local] Hint Resolve mine_hello_key_token mine_refresh_cache_entry mine_prt_token mine_refresh_token_token mine_seal_token : frame.
Lemma mine_auth {A} key kt cred : mine (auth_and_validate_hello_key domain mk account old service (A := A) key kt cred).
Proof. unfold auth_and_validate_hello_key, hello_sign_in, decoupled_token, validate_hello. apart_walk. Qed.
#[local] Hint Resolve mine_auth : frame.

Lemma mine_second_factor {A} resp cred pin : mine (nested_auth_handle_mfa_resp (A := A) resp cred pin).
Proof. unfold nested_auth_handle_mfa_resp, second_factor, hash_action. apart_walk. Qed.
Lemma mine_password_only {A} token cred : mine (password_only_success domain account nhp (A := A) token cred).
Proof. apply mine_validated. intros t. unfold hash_action, maybe_prompt_setup_pin. apart_walk. Qed.
#[local] Hint Resolve mine_second_factor mine_password_only : frame.
Lemma mine_prt_signin cred : mine (prt_signin_frequency_check domain mk account nhp cred).
Proof.
  unfold prt_signin_frequency_check, try_prt_signin_frequency_check, signin_frequency_exchange, exchange_prt. apart_walk.
Qed.
Lemma mine_by_password {R} cred : mine (by_password (R := R) mk account cred).
Proof. apply apart_net_tpm. Qed.
Lemma mine_start_mfa {R} cred opts : mine (start_mfa (R := R) account cred opts).
Proof. unfold start_mfa. apart_walk. Qed.
Lemma mine_ask_new {A} cred : mine (ask_new_password (A := A) cred).
Proof. unfold ask_new_password. apart_walk. Qed.
#[local] Hint Resolve mine_prt_signin mine_by_password mine_start_mfa mine_ask_new : frame.

Ltac checked_walk :=
  repeat first [solve [eauto 2 with frame nocore]|apply mine_net_down_check|apply mine_validated|apart_step].

Lemma mine_password_first opts joined cred : mine (password_first_arm domain mk account nhp opts joined cred).
Proof. unfold password_first_arm, try_password, password_first_flow, put_options. checked_walk. Qed.
Lemma mine_password handler cred : mine (password_arm domain mk account service handler cred).
Proof. unfold password_arm, change_password, sfa_fallback, sfa_token. checked_walk. Qed.
Lemma mine_change_or_deny {A} password e : mine (change_password_or_deny (A := A) password e).
Proof. unfold change_password_or_deny. apart_walk. Qed.
Lemma mine_mfa_finish {A} token token2 pin : mine (mfa_finish domain mk account nhp (A := A) token token2 pin).
Proof. apply mine_validated. intros t. unfold reseal_prt_with_existing_hello_key_on_success. apart_walk. Qed.
#[local] Hint Resolve mine_password_first mine_password mine_change_or_deny mine_mfa_finish : frame.
Lemma mine_mfa_data flow password extra pin data : mine (mfa_data_arm domain mk account nhp flow password extra pin data).
Proof. unfold mfa_data_arm, mfa_flow_token. checked_walk. Qed.
Lemma mine_mfa_poll flow password extra pin n : mine (mfa_poll_arm domain mk account nhp flow password extra pin n).
Proof. unfold mfa_poll_arm, mfa_flow_token. checked_walk. Qed.
Lemma mine_setup_pin token pin : mine (setup_pin_arm domain mk account old service token pin).
Proof. unfold setup_pin_arm. checked_walk. Qed.
#[local] Hint Resolve mine_mfa_data mine_mfa_poll mine_setup_pin : frame.

Lemma mine_delayed_init {R} : mine (delayed_init (R := R) domain).
Proof.
  intros s. destruct (delayed_init_keeps domain (R := R) s) as [-> _]. reflexivity.
Qed.
#[local] Hint Resolve mine_delayed_init : frame.

Lemma mine_step req : mine (entra_online_auth_step domain mk account old service nhp req).
Proof. unfold entra_online_auth_step, online_arms, pin_arm, fido_arm. apart_walk. Qed.

(** C12. A login touches nothing of another user: whatever the request and whatever the
    directory answers, a step of an online login changes only the five keys of its own
    account and the three of the device, only its own count of bad PINs, and of the
    cached tokens only its own; another user's token is dropped only when, by the clock as
    read during the step, it was cached more than a day ago. *)
Theorem login_step_isolated req s :
  let s' := (entra_online_auth_step (U := U) domain mk account old service nhp req s).2 in
  (∀ tag, tag ∉ own_tags domain account → h_keys (e_hello s') !! tag = h_keys (e_hello s) !! tag) ∧
  own_client account (h_tick (e_hello s)) (h_tick (e_hello s')) (h_client (e_hello s)) (h_client (e_hello s')).
Proof. apply mine_step. Qed.

End step_frame.
