(* ===== verification/EntraPanics.v ===== *)
(** * A step of an online login does not panic

    Two things could make a step panic: a date that overflows when a day (or the pause
    before the next probe) is added to it, and the arithmetic on the numbers of users and
    groups. Neither happens while the clock and the dates of the caches leave room for a
    day and the ranges of numbers fit their 32 bits, and a step keeps it so. With what
    [EntraLocks] shows of the lock, a step then always answers. *)
From stdpp Require Import base gmap strings list fin_maps.
From Stdlib Require Import ZArith Lia Ascii.
From S2P Require Import Prelude Proto Interface Db Runtime Caches Idmap UserMap Config Hello HelloTheorems Pam Daemon DaemonTheorems Entra EntraUser EntraInit EntraDevice EntraStep EntraTheorems EntraStepTheorems EntraLocks.

Open Scope rust_scope.

(** ** Numbers *)

(** The ranges of a map of numbers, which the code keeps as [u32]. *)
Definition ranges_fit (m : Idmap) : Prop := map_Forall (λ _ r, in_u32 r.1 ∧ in_u32 r.2) (ranges m).

(** An identifier has a last sub-authority. *)
Definition sid_fits (r : result AadSid IdmapError) : Prop := ∀ sid, r = Ok sid → rid sid ≠ None.

Lemma object_sid_fits `{X : Ext} (id : Uuid) : sid_fits (from_object_id id).
Proof.
  intros sid. unfold from_object_id. repeat (case_match; try done). by intros [= <-].
Qed.

Lemma object_number_fits m tenant sid :
  ranges_fit m → rid sid ≠ None → object_id_to_unix_id m tenant sid ≠ None.
Proof.
  intros Hm Hr. unfold object_id_to_unix_id. destruct (rid sid) as [[r|e]|]; [simpl|done|done].
  destruct (ranges m !! tenant) as [[lo hi]|] eqn:El; [|done]. destruct (Hm _ _ El) as [Hlo Hhi]. simpl in *.
  unfold saturating_sub. destruct (Z.eqb_spec (Z.max 0 (hi - lo)) 0); [done|].
  unfold u32_add. pose proof (Z.mod_pos_bound r (Z.max 0 (hi - lo))).
  destruct (Z.leb_spec (r mod Z.max 0 (hi - lo) + lo) u32_max); [done|]. unfold in_u32 in *. lia.
Qed.

Lemma ranges_fit_add m name tenant range :
  ranges_fit m → in_u32 range.1 → in_u32 range.2 → ranges_fit (add_gen_domain m name tenant range).1.
Proof.
  intros Hm H1 H2. unfold add_gen_domain. destruct (ranges m !! tenant); [done|].
  do 2 (destruct (negb _); [done|]). unfold ranges_fit. case_match; simpl; by apply map_Forall_insert_2.
Qed.

(** ** Computations of [Hello] *)

Section hello_panics.
Context {X : Ext} {C : Crypto} {HO : HelloOps} {E : Env} {HE : HelloEnv}.
Context {INI : IniFile} {G : GeneratedConfig}.

(** A date to which a day can be added. *)
Definition in_time (t : SystemTime) : Prop := (t + CACHE_SECS * NS) / NS ≤ i64_max.

Definition timely (s : HState) : Prop :=
  map_Forall (λ _ e, in_time e.2) (refresh_cache (h_client s)) ∧
  map_Forall (λ _ e, in_time e.2) (refresh_token_cache (h_client s)).

Context (Hclock : ∀ n, in_time (clock n)).

Definition no_panic {R A} (m : HM R A) : Prop := ∀ s, timely s → (m s).1 ≠ inr Panic ∧ timely (m s).2.

Lemma no_panic_bind {R A B} (m : HM R A) (k : A → HM R B) : no_panic m → (∀ a, no_panic (k a)) → no_panic (m ≫= k).
Proof.
  intros Hm Hk s Hs. specialize (Hm s Hs). unfold mbind, HM_bind.
  destruct (m s) as [[a|e] s1]; simpl in *; [apply Hk, Hm|]. destruct Hm; split; [congruence|done].
Qed.
Lemma no_panic_ret {R A} (a : A) : no_panic (R := R) (mret a).
Proof. done. Qed.
Lemma no_panic_fail {R A} e : no_panic (R := R) (A := A) (fail e).
Proof. done. Qed.
Lemma no_panic_return {R A} (r : R) : no_panic (A := A) (return_ r).
Proof. done. Qed.
Lemma no_panic_or_fail {R A} e (o : option A) : no_panic (R := R) (or_fail e o).
Proof. by destruct o. Qed.
Lemma no_panic_draw {R A} (o : nat → A) : no_panic (R := R) (hdraw o).
Proof. done. Qed.
Lemma no_panic_tpm {R A} (f : Hsm → A * Hsm) : no_panic (R := R) (with_tpm f).
Proof. intros s. unfold with_tpm. by destruct (f _). Qed.
Lemma no_panic_get {R K} (f : bytes → option K) tag : no_panic (R := R) (ks_get f tag).
Proof. done. Qed.
Lemma no_panic_insert {R K} (f : K → option bytes) tag k : no_panic (R := R) (ks_insert f tag k).
Proof. intros s. unfold ks_insert. destruct (f k); [by destruct (key_fault _)|done]. Qed.
Lemma no_panic_delete {R} tag : no_panic (R := R) (ks_delete tag).
Proof. intros s. unfold ks_delete. by destruct (key_fault _). Qed.
Lemma no_panic_client {R} : no_panic (R := R) get_client.
Proof. done. Qed.
Lemma no_panic_increment {R} a : no_panic (R := R) (increment_bad_pin_count a).
Proof. done. Qed.
Lemma no_panic_reset {R} a : no_panic (R := R) (reset_bad_pin_count a).
Proof. done. Qed.
Lemma no_panic_set_state {R} st : no_panic (R := R) (mod_client (set_state st)).
Proof. done. Qed.

Lemma no_panic_add {R} a entry : no_panic (R := R) (Hello.add a entry).
Proof.
  intros s [H1 H2]. unfold Hello.add, system_now, hdraw, mod_client, mbind, HM_bind. simpl. split; [done|].
  destruct entry; split; simpl; try done; (apply map_Forall_insert_2; [apply Hclock|done]).
Qed.

Lemma timely_remove {A} ks (m : gmap string (A * SystemTime)) :
  map_Forall (λ _ e, in_time e.2) m → map_Forall (λ _ e, in_time e.2) (remove_all ks m).
Proof. intros Hm k e. rewrite remove_all_lookup. case_decide; [done|]. apply Hm. Qed.

Lemma no_panic_stale {R A} (l : list (string * (A * SystemTime))) :
  Forall (λ e, in_time e.2.2) l → no_panic (R := R) (stale l).
Proof.
  induction 1 as [|[k [a iat]] l Hi _ IH]; [done|]. intros s Hs. simpl in *.
  unfold mbind, HM_bind, plus_secs. unfold in_time in Hi. apply Z.leb_le in Hi. rewrite Hi. simpl.
  destruct (IH (Build_HState (S (h_tick s)) (h_client s) (h_keys s) (h_tpm s)) Hs) as [Hn Ht].
  destruct (stale l _) as [[ks|e] s1]; simpl in *; [done|]. split; [congruence|done].
Qed.

Lemma timely_list {A} (m : gmap string (A * SystemTime)) :
  map_Forall (λ _ e, in_time e.2) m → Forall (λ e, in_time e.2.2) (map_to_list m).
Proof. intros Hm%map_Forall_to_list. eapply Forall_impl; [exact Hm|]. by intros [k e]. Qed.

Lemma no_panic_purge {R} : no_panic (R := R) purge.
Proof.
  intros s Hs. pose proof Hs as [H1 H2]. revert s Hs H1 H2.
  assert (∀ c, Forall (λ e, in_time e.2.2) (map_to_list (refresh_cache c)) →
    Forall (λ e, in_time e.2.2) (map_to_list (refresh_token_cache c)) → no_panic (R := R)
     (remove_list ← stale (map_to_list (refresh_cache c));
      _ ← mod_client (λ c, set_refresh_cache (remove_all remove_list (refresh_cache c)) c);
      remove_list ← stale (map_to_list (refresh_token_cache c));
      mod_client (λ c, set_refresh_token_cache (remove_all remove_list (refresh_token_cache c)) c))) as Hc.
  { intros c F1 F2. apply no_panic_bind; [by apply no_panic_stale|intros l]. apply no_panic_bind.
    { intros s [H1 H2]. split; [done|]. split; [by apply timely_remove|done]. }
    intros _. apply no_panic_bind; [by apply no_panic_stale|intros l'].
    intros s [H1 H2]. split; [done|]. split; [done|by apply timely_remove]. }
  intros s Hs H1 H2. apply (Hc (h_client s)); [by apply timely_list..|done].
Qed.

End hello_panics.

Create HintDb calm discriminated.
#[export] Hint Resolve no_panic_ret no_panic_fail no_panic_return no_panic_or_fail no_panic_draw no_panic_tpm no_panic_get
  no_panic_insert no_panic_delete no_panic_client no_panic_increment no_panic_reset no_panic_set_state no_panic_add
  no_panic_purge : calm.

Ltac calm_walk :=
  repeat first
    [ progress intros
    | solve [eauto 3 with calm nocore]
    | apply no_panic_bind
    | progress (unfold system_now, ok_or_fail, fetch_hello_key, fetch_hello_key_or_fail)
    | case_match ].

Section hello_operations.
Context {X : Ext} {C : Crypto} {HO : HelloOps} {E : Env} {HE : HelloEnv}.
Context {INI : IniFile} {G : GeneratedConfig}.
Context (Hclock : ∀ n, in_time (clock n)).

Lemma calm_refresh_token {R} a : no_panic (R := R) (refresh_token a).
Proof. unfold refresh_token. calm_walk. Qed.
Lemma calm_bad_pin {R} cfg a (f : string → R) : no_panic (handle_hello_bad_pin_count cfg a f).
Proof. unfold handle_hello_bad_pin_count. calm_walk. Qed.
Lemma calm_setup_totp {R} a pin mk : no_panic (R := R) (setup_hello_totp a pin mk).
Proof. unfold setup_hello_totp. calm_walk. Qed.
#[local] Hint Resolve calm_bad_pin : calm.
Lemma calm_totp_auth {R} cfg a token cred pin mk pending (f : AuthResult → R) :
  no_panic (handle_hello_pin_totp_auth cfg a token cred pin mk pending f).
Proof. unfold handle_hello_pin_totp_auth, check_totp. calm_walk. Qed.
Lemma calm_seal_existing {R} a token key pin mk :
  no_panic (R := R) (seal_prt_with_existing_hello_key a token key pin mk).
Proof. unfold seal_prt_with_existing_hello_key. calm_walk. Qed.
Lemma calm_totp_setup {R} a : no_panic (R := R) (check_hello_totp_setup a).
Proof. unfold check_hello_totp_setup. calm_walk. Qed.
Lemma calm_create_key {R} cred mk e : no_panic (R := R) (create_decoupled_hello_key cred mk e).
Proof. unfold create_decoupled_hello_key. calm_walk. Qed.

End hello_operations.

#[export] Hint Resolve calm_refresh_token calm_bad_pin calm_setup_totp calm_totp_auth calm_seal_existing
  calm_totp_setup calm_create_key : calm.

(** ** Computations of the provider *)

Section provider_panics.
Context {X : Ext} {C : Crypto} {HO : HelloOps} {E : Env} {HE : HelloEnv} {UNI : Unistring}.
Context {INI : IniFile} {G : GeneratedConfig} {PC : PamConfig} {EC : EntraConfig} {H : Host} {F : Federation} {T : TextOps}.
Context {U : Type} {EE : EntraEnv U} {EF : EntraFlow U} {EL : EntraLogin U}.
Context (Hclock : ∀ n, in_time (clock n)).

(** What keeps the provider from panicking. *)
Definition in_range (s : EState U) : Prop := timely (e_hello s) ∧ ranges_fit (e_idmap s).

Definition sturdy {R A} (m : EM U R A) : Prop := ∀ s, in_range s → (m s).1 ≠ inr Panic ∧ in_range (m s).2.

Lemma sturdy_bind {R A B} (m : EM U R A) (k : A → EM U R B) : sturdy m → (∀ a, sturdy (k a)) → sturdy (a ← m; k a).
Proof.
  intros Hm Hk s Hs. specialize (Hm s Hs). unfold mbind, EM_bind.
  destruct (m s) as [[a|e] s1]; simpl in *; [apply Hk, Hm|]. destruct Hm; split; [congruence|done].
Qed.
Lemma sturdy_match {R A B} (m : EM U R A) (k : A → EM U R B) : sturdy m → (∀ a, sturdy (k a)) → sturdy (match_client m k).
Proof.
  intros Hm Hk s Hs. unfold match_client. destruct (e_locked s); [done|].
  pose proof (sturdy_bind m k Hm Hk (set_locked true s) Hs) as Hb.
  by destruct ((a ← m; k a) (set_locked true s)) as [r s1].
Qed.
Lemma sturdy_attempt {R A} (m : EM U A A) : sturdy m → sturdy (R := R) (attempt m).
Proof. intros Hm s Hs. specialize (Hm s Hs). unfold attempt. destruct (m s) as [[a|[]] s1], Hm; simpl in *; congruence || done. Qed.
Lemma sturdy_hello {R A} (m : HM R A) : no_panic m → sturdy (hello m).
Proof.
  intros Hm s [H1 H2]. specialize (Hm (e_hello s) H1). unfold hello. destruct (m _) as [r h], Hm. by split; [|split].
Qed.
Lemma sturdy_ret {R A} (a : A) : sturdy (R := R) (mret a).
Proof. done. Qed.
Lemma sturdy_fail {R A} e : sturdy (R := R) (A := A) (e_fail e).
Proof. done. Qed.
Lemma sturdy_return {R A} (r : R) : sturdy (A := A) (e_return r).
Proof. done. Qed.
Lemma sturdy_some {R A} e (o : option A) : sturdy (R := R) (e_some e o).
Proof. by destruct o. Qed.
Lemma sturdy_ok {R A} e (r : result A unit) : sturdy (R := R) (e_ok e r).
Proof. by destruct r. Qed.
Lemma sturdy_net {R A} (f : U → A * U) : sturdy (R := R) (net f).
Proof. intros s Hs. unfold net. by destruct (f _). Qed.
Lemma sturdy_net_tpm {R A} (f : Hsm → U → A * Hsm * U) : sturdy (R := R) (net_tpm f).
Proof. intros s Hs. unfold net_tpm. by destruct (f _ _) as [[a h] u]. Qed.
Lemma sturdy_config {R} : sturdy (R := R) get_config.
Proof. done. Qed.
Lemma sturdy_handler {R} : sturdy (R := R) get_handler.
Proof. done. Qed.
Lemma sturdy_put {R} h : sturdy (R := R) (put_handler h).
Proof. done. Qed.
Lemma sturdy_alias {R A} (f : AliasState → A * AliasState) : sturdy (R := R) (alias_io f).
Proof. intros s Hs. unfold alias_io. by destruct (f _). Qed.
Lemma sturdy_set_init {R} : sturdy (R := R) set_init.
Proof. done. Qed.

(** The two places that could panic. *)
Lemma sturdy_net_down {R} : sturdy (net_down (R := R)).
Proof.
  intros s Hs. unfold net_down, go_offline, set_cache_state, hello, mbind, EM_bind. simpl.
  pose proof (Hclock (h_tick (e_hello s))) as Ht. unfold in_time, CACHE_SECS, NS in Ht. unfold plus_secs.
  replace (_ <=? i64_max) with true; [done|]. symmetry. apply Z.leb_le. etrans; [|exact Ht].
  apply Z.div_le_mono; [done|]. unfold OFFLINE_NEXT_CHECK, NS. simpl. lia.
Qed.

Lemma sturdy_number_of_sid {R} sid : sid_fits sid → sturdy (number_of_sid (R := R) sid).
Proof.
  intros Hsid. unfold number_of_sid, graph_tenant. apply sturdy_bind.
  { apply sturdy_bind; [apply sturdy_net|intros o; apply sturdy_some]. }
  intros t s Hs. destruct sid as [sid|e]; [|done]. unfold mbind, EM_bind. simpl.
  unfold idmap_number. destruct (object_id_to_unix_id _ _ _) as [[]|] eqn:Eo; [done|done|].
  exfalso. revert Eo. apply object_number_fits; [apply Hs|]. by apply Hsid.
Qed.

Lemma sturdy_number_of_name {R} input : sturdy (number_of_name (R := R) input).
Proof.
  unfold number_of_name, graph_tenant. apply sturdy_bind.
  { apply sturdy_bind; [apply sturdy_net|intros o; apply sturdy_some]. }
  intros t s Hs. unfold mbind, EM_bind. simpl. by destruct (gen_to_unix _ _ _).
Qed.

Lemma sturdy_add_domain {R} domain tenant range :
  in_u32 range.1 → in_u32 range.2 → sturdy (R := R) (idmap_io (λ m, add_gen_domain m domain tenant range)).
Proof.
  intros H1 H2 s [Hs Hm]. unfold idmap_io. pose proof (ranges_fit_add _ domain tenant _ Hm H1 H2) as Hr.
  by destruct (add_gen_domain _ _ _ _).
Qed.

End provider_panics.

#[export] Hint Resolve sturdy_ret sturdy_fail sturdy_return sturdy_some sturdy_ok sturdy_net sturdy_net_tpm sturdy_config sturdy_handler
  sturdy_put sturdy_alias sturdy_set_init sturdy_net_down sturdy_number_of_name : calm.

Ltac sturdy_step :=
  first
  [ progress intros
  | solve [eauto 2 with calm nocore]
  | match goal with
    | |- sturdy (hello _) => apply sturdy_hello; solve [calm_walk]
    | |- sturdy (_ ≫= _) => apply sturdy_bind
    | |- sturdy (attempt _) => apply sturdy_attempt
    | |- sturdy (match_client _ _) => apply sturdy_match
    | |- sturdy (with_client _) => apply sturdy_match
    | |- sturdy (number_of_sid (from_object_id _)) => apply sturdy_number_of_sid, object_sid_fits
    | |- sturdy (match ?x with _ => _ end) => destruct x
    | |- sturdy (e_return _) => apply sturdy_return
    end ].
Ltac step_walk := repeat sturdy_step.

(** ** The step *)

Section step_panics.
Context {X : Ext} {C : Crypto} {HO : HelloOps} {E : Env} {HE : HelloEnv} {UNI : Unistring}.
Context {INI : IniFile} {G : GeneratedConfig} {PC : PamConfig} {EC : EntraConfig} {H : Host} {F : Federation} {T : TextOps}.
Context {U : Type} {EE : EntraEnv U} {EF : EntraFlow U} {EL : EntraLogin U}.
Context (domain : string) (mk : MachineKey) (account : string) (old : UserToken) (service : string) (nhp : bool).

Context (Hclock : ∀ n, in_time (clock n)).

Lemma sturdy_denied {A} msg : sturdy (U := U) (denied (A := A) msg).
Proof. apply sturdy_return. Qed.
Lemma sturdy_next {A} r : sturdy (U := U) (next (A := A) r).
Proof. apply sturdy_return. Qed.
Lemma sturdy_answer {A} r : sturdy (U := U) (answer (A := A) r).
Proof. apply sturdy_return. Qed.
Lemma sturdy_deny_error {A} e : sturdy (U := U) (deny_error (A := A) e).
Proof. apply sturdy_return. Qed.
#[local] Hint Resolve sturdy_denied sturdy_next sturdy_answer sturdy_deny_error : calm.

Lemma sturdy_outage {A} : sturdy (U := U) (network_down (A := A)).
Proof. unfold network_down. step_walk. Qed.
Lemma sturdy_check_new_device {A} e : sturdy (U := U) (check_new_device_enrollment_required domain (A := A) e).
Proof. unfold check_new_device_enrollment_required. step_walk. Qed.
#[local] Hint Resolve sturdy_outage sturdy_check_new_device : calm.
Lemma sturdy_net_down_check {A} (r : result A MsalError) other :
  (∀ e, sturdy (U := U) (other e)) → sturdy (U := U) (step_net_down_check domain r other).
Proof. intros Ho. destruct r as [a|[]]; simpl; try (by apply Ho); step_walk. Qed.

Lemma sturdy_joined {R} : sturdy (U := U) (is_domain_joined (R := R) domain).
Proof.
  unfold is_domain_joined, fetch_loadable_transport_key_from_keystore, fetch_loadable_cert_key_from_keystore. step_walk.
Qed.
Lemma sturdy_enrolled {R} : sturdy (U := U) (is_intune_enrolled (R := R) domain).
Proof. unfold is_intune_enrolled. step_walk. Qed.
Lemma sturdy_record {R} l : sturdy (U := U) (record_config (R := R) domain l).
Proof. unfold record_config. step_walk. Qed.
Lemma sturdy_refresh {R} token scopes cid : sturdy (U := U) (by_refresh_token (R := R) mk token scopes cid).
Proof. apply sturdy_net_tpm. Qed.
#[local] Hint Resolve sturdy_joined sturdy_enrolled sturdy_record sturdy_refresh : calm.

Lemma sturdy_intune_enroll device attrs token : sturdy (U := U) (intune_enroll domain mk device attrs token).
Proof. unfold intune_enroll, enroll_with. step_walk. Qed.
#[local] Hint Resolve sturdy_intune_enroll : calm.
Lemma sturdy_intune_step token : sturdy (U := U) (intune_enroll_step domain mk token).
Proof. unfold intune_enroll_step. step_walk. Qed.
Lemma sturdy_join {R} token : sturdy (U := U) (join_domain (R := R) domain mk token).
Proof. unfold join_domain. step_walk. Qed.
#[local] Hint Resolve sturdy_intune_step sturdy_join : calm.
Lemma sturdy_obtain token : sturdy (U := U) (obtain_enrolled_token domain mk token).
Proof. unfold obtain_enrolled_token. repeat first [apply sturdy_net_down_check|sturdy_step]. Qed.
#[local] Hint Resolve sturdy_obtain : calm.
Lemma sturdy_enroll token : sturdy (U := U) (enroll_and_obtain_enrolled_token domain mk token).
Proof. unfold enroll_and_obtain_enrolled_token. step_walk. Qed.

Lemma sturdy_cache {R} : sturdy (U := U) (open_id_cache (R := R)).
Proof. unfold open_id_cache, look. step_walk. Qed.
#[local] Hint Resolve sturdy_enroll sturdy_cache : calm.
Lemma sturdy_group_tokens {R} l : sturdy (U := U) (group_tokens (R := R) l).
Proof.
  induction l as [|g l IH]; simpl; [step_walk|]. apply sturdy_bind; [apply sturdy_attempt|intros r; step_walk; auto].
  unfold group_token_from_directory_object, group_gid. step_walk.
Qed.
#[local] Hint Resolve sturdy_group_tokens : calm.
Lemma sturdy_validate token : sturdy (U := U) (token_validate domain account token None).
Proof.
  unfold token_validate, same_user, user_token_from_unix_user_token, user_details, user_numbers, mapped_uid,
    tenant_uuid, graph_tenant, look. step_walk.
Qed.
#[local] Hint Resolve sturdy_validate : calm.
Lemma sturdy_validated {A} token (k : UserToken → EM U (AuthResult * AuthCacheAction) A) :
  (∀ t, sturdy (U := U) (k t)) → sturdy (U := U) (validated domain account token k).
Proof. intros Hk. unfold validated. step_walk; auto. Qed.

Lemma sturdy_totp_or {A} cred t : sturdy (U := U) (hello_totp_or mk account (A := A) cred t).
Proof. unfold hello_totp_or. step_walk. Qed.
Lemma sturdy_bad_pin {A} suffix : sturdy (U := U) (bad_pin account (A := A) suffix).
Proof. unfold bad_pin. step_walk. Qed.
Lemma sturdy_bad_pin_error {A} e : sturdy (U := U) (bad_pin_error account (A := A) e).
Proof. apply sturdy_bad_pin. Qed.
Lemma sturdy_good_pin token : sturdy (U := U) (good_pin account token).
Proof. unfold good_pin. step_walk. Qed.
Lemma sturdy_request_reauth {A} pin : sturdy (U := U) (request_reauth account service (A := A) pin).
Proof. unfold request_reauth, await_reauth. step_walk. Qed.
#[local] Hint Resolve sturdy_totp_or sturdy_bad_pin sturdy_bad_pin_error sturdy_good_pin sturdy_request_reauth : calm.
Lemma sturdy_offline {A} cred : sturdy (U := U) (hello_offline mk account old (A := A) cred).
Proof. unfold hello_offline. step_walk. Qed.
#[local] Hint Resolve sturdy_offline : calm.

Lemma sturdy_hello_key_token key cred cid scopes : sturdy (U := U) (hello_key_token domain mk account old key cred cid scopes).
Proof. unfold hello_key_token, retry_hello_key, by_hello_key. step_walk. Qed.
Lemma sturdy_refresh_cache_entry key cred : sturdy (U := U) (refresh_cache_entry mk account key cred).
Proof. unfold refresh_cache_entry, sealed_refresh_token, memory_entry. step_walk. Qed.
Lemma sturdy_prt_token prt cred cid scopes : sturdy (U := U) (prt_token domain mk account old service prt cred cid scopes).
Proof. unfold prt_token, exchange_prt, forget_and_reauth. step_walk. Qed.
Lemma sturdy_refresh_token_token t cred : sturdy (U := U) (refresh_token_token mk account old service t cred).
Proof. unfold refresh_token_token, forget_and_reauth. step_walk. Qed.
Lemma sturdy_seal_token key cred token : sturdy (U := U) (seal_token mk account key cred token).
Proof. unfold seal_token. step_walk. Qed.
#[local] Hint Resolve sturdy_hello_key_token sturdy_refresh_cache_entry sturdy_prt_token sturdy_refresh_token_token sturdy_seal_token : calm.
Lemma sturdy_auth {A} key kt cred : sturdy (U := U) (auth_and_validate_hello_key domain mk account old service (A := A) key kt cred).
Proof. unfold auth_and_validate_hello_key, hello_sign_in, decoupled_token, validate_hello. step_walk. Qed.
#[local] Hint Resolve sturdy_auth : calm.

Lemma sturdy_second_factor {A} resp cred pin : sturdy (U := U) (nested_auth_handle_mfa_resp (A := A) resp cred pin).
Proof. unfold nested_auth_handle_mfa_resp, second_factor, hash_action. step_walk. Qed.
Lemma sturdy_password_only {A} token cred : sturdy (U := U) (password_only_success domain account nhp (A := A) token cred).
Proof. apply sturdy_validated. intros t. unfold hash_action, maybe_prompt_setup_pin. step_walk. Qed.
#[local] Hint Resolve sturdy_second_factor sturdy_password_only : calm.
Lemma sturdy_prt_signin cred : sturdy (U := U) (prt_signin_frequency_check domain mk account nhp cred).
Proof.
  unfold prt_signin_frequency_check, try_prt_signin_frequency_check, signin_frequency_exchange, exchange_prt. step_walk.
Qed.
Lemma sturdy_by_password {R} cred : sturdy (U := U) (by_password (R := R) mk account cred).
Proof. apply sturdy_net_tpm. Qed.
Lemma sturdy_start_mfa {R} cred opts : sturdy (U := U) (start_mfa (R := R) account cred opts).
Proof. unfold start_mfa. step_walk. Qed.
Lemma sturdy_ask_new {A} cred : sturdy (U := U) (ask_new_password (A := A) cred).
Proof. unfold ask_new_password. step_walk. Qed.
#[local] Hint Resolve sturdy_prt_signin sturdy_by_password sturdy_start_mfa sturdy_ask_new : calm.

Ltac checked_walk :=
  repeat first [solve [eauto 2 with calm nocore]|apply sturdy_net_down_check|apply sturdy_validated|sturdy_step].

Lemma sturdy_password_first opts joined cred : sturdy (U := U) (password_first_arm domain mk account nhp opts joined cred).
Proof. unfold password_first_arm, try_password, password_first_flow, put_options. checked_walk. Qed.
Lemma sturdy_password handler cred : sturdy (U := U) (password_arm domain mk account service handler cred).
Proof. unfold password_arm, change_password, sfa_fallback, sfa_token. checked_walk. Qed.
Lemma sturdy_change_or_deny {A} password e : sturdy (U := U) (change_password_or_deny (A := A) password e).
Proof. unfold change_password_or_deny. step_walk. Qed.
Lemma sturdy_mfa_finish {A} token token2 pin : sturdy (U := U) (mfa_finish domain mk account nhp (A := A) token token2 pin).
Proof. apply sturdy_validated. intros t. unfold reseal_prt_with_existing_hello_key_on_success. step_walk. Qed.
#[local] Hint Resolve sturdy_password_first sturdy_password sturdy_change_or_deny sturdy_mfa_finish : calm.
Lemma sturdy_mfa_data flow password extra pin data : sturdy (U := U) (mfa_data_arm domain mk account nhp flow password extra pin data).
Proof. unfold mfa_data_arm, mfa_flow_token. checked_walk. Qed.
Lemma sturdy_mfa_poll flow password extra pin n : sturdy (U := U) (mfa_poll_arm domain mk account nhp flow password extra pin n).
Proof. unfold mfa_poll_arm, mfa_flow_token. checked_walk. Qed.
Lemma sturdy_setup_pin token pin : sturdy (U := U) (setup_pin_arm domain mk account old service token pin).
Proof. unfold setup_pin_arm. checked_walk. Qed.
#[local] Hint Resolve sturdy_mfa_data sturdy_mfa_poll sturdy_setup_pin : calm.

Lemma idmap_range_fits cfg : in_u32 (get_idmap_range cfg domain).1 ∧ in_u32 (get_idmap_range cfg domain).2.
Proof. unfold get_idmap_range. case_match; [by apply parse_range_u32|done]. Qed.

Lemma sturdy_delayed_init {R} : sturdy (U := U) (delayed_init (R := R) domain).
Proof.
  intros s. unfold delayed_init. destruct (e_init s); [done|]. revert s.
  change (sturdy (U := U) (r ← attempt (first_init domain);
    match r with Ok _ => _ ← set_init (R := R); mret true | Err _ => mret false end)).
  unfold first_init. step_walk. apply sturdy_add_domain; apply idmap_range_fits.
Qed.
#[local] Hint Resolve sturdy_delayed_init : calm.

Lemma sturdy_online_step req : sturdy (U := U) (entra_online_auth_step domain mk account old service nhp req).
Proof. unfold entra_online_auth_step, online_arms, pin_arm, fido_arm. step_walk. Qed.

(** C14. A step of an online login always gives an answer, a result or an error, and gives the
    client back, as long as the clock and the dates of the cached tokens leave room for a day
    more and the ranges of numbers fit 32 bits, all of which it keeps up; unless the directory
    answers in one of three ways: a request with the Hello key fails with an error after which
    it is made again, a PRT is taken only without scopes, or the flow after a password says
    that MFA is required. *)
Theorem step_returns req s :
  e_locked s = false → in_range s → ¬ blocked (U := U) mk account →
  let run := run_em (entra_online_auth_step (U := U) domain mk account old service nhp req) s in
  (∃ answer, run.1 = Some answer) ∧ e_locked run.2 = false ∧ in_range run.2.
Proof.
  intros Hl Hs Hb run. unfold run, run_em. destruct (sturdy_online_step req s Hs) as [Hp Hr].
  destruct (back_step domain mk account old service nhp req s Hl) as [?|[Hh Hl']]; [done|].
  destruct (entra_online_auth_step _ _ _ _ _ _ _ s) as [[a|[]] s1]; simpl in *; split_and!; try done; by eexists.
Qed.

End step_panics.
