(* ===== verification/EntraModels.v ===== *)
(** * A directory for the Entra ID provider

    Instances of the classes of [Entra], [EntraInit] and [EntraDevice] on which the properties of the
    provider are evaluated: a token of the models is the UPN of its user, the directory
    knows every user and gives prepared groups, and the network is up. *)
From stdpp Require Import base gmap strings list fin_maps.
From Stdlib Require Import ZArith Lia Ascii.
From S2P Require Import Prelude Proto Interface Db Runtime Caches Idmap IdmapTheorems UserMap Config ConfigTheorems Models ResolverModels Hello HelloTheorems Pam PamAuth PamFacts PamModels Entra EntraUser EntraInit EntraDevice EntraStep EntraTheorems.

Open Scope rust_scope.

(** The tenant of the directory, the groups it lists for a user, and what it answers to a
    sign-in and to a request with a refresh token. *)
Record Directory := {
  dir_tenant : string;
  dir_groups : option (list DirectoryObject);
  dir_sign_in : result (@UnixUserToken model_ext) MsalError;
  dir_exchange : result (@UnixUserToken model_ext) MsalError
}.

#[export] Instance model_entra : EntraEnv Directory := {|
  uuid_parse s := Z.to_N <$> parse_uint u64_max s;
  uuid_new_v4 d := (4%N, d);
  token_uuid _ := Some 5%N;
  token_access t := Some t;
  token_display _ := "Doe, Alice";
  token_amr_ngcmfa _ := Some true;
  token_type _ := "Bearer";
  graph_tenant_id d := (Some (dir_tenant d), d);
  graph_authority_host d := (Some "login.microsoftonline.com", d);
  graph_graph_url d := (Some "https://graph.microsoft.com", d);
  request_user_groups_by_user_id _ _ d := (dir_groups d, d);
  fetch_user_extension_attributes _ _ _ d := (None, d);
  request_user _ _ d := (None, d);
  client_set_authority _ d := (true, d);
  probe_client _ d := (true, d);
  http_get_success _ d := (true, d);
  UserInit := unit;
  init_exists _ := true;
  init_passwordless _ := false;
  check_user_exists _ _ d := (Ok tt, d);
  resolve_nametosid _ _ h d := (None, h, d);
  exchange_prt_for_access_token _ _ _ _ _ _ h d := (Err MsalError_Other, h, d);
  exchange_prt_for_prt _ _ h d := (Err MsalError_Other, h, d);
  entra_public_client _ _ d := (true, d);
  public_token_by_refresh_token t _ d := (Ok t, d);
  ClientCredential := unit;
  credential_from_secret _ := tt;
  LoadableRsaKey := unit;
  RsaKey := unit;
  Certificate := unit;
  LoadableEnrolmentKey := unit;
  rsa_key_from_slice _ := Some tt;
  enrolment_key_from_slice _ := Some tt;
  rsa_key_load _ _ h := (None, h);
  certificate_from_der _ := None;
  certificate_common_name _ := None;
  credential_from_certificate _ _ := tt;
  secret_json _ := None;
  machine_unseal _ _ h := (None, h);
  confidential_client _ _ _ _ _ d := (false, d);
  confidential_token _ h d := (None, h, d);
  fetch_cloud_tgt _ _ h d := (None, h, d);
  fetch_ad_tgt _ _ h d := (None, h, d);
  prt_top_level_names _ _ h d := (None, h, d);
  prt_sso_cookie _ _ _ h d := (None, h, d);
  thread_sleep _ d := d;
  local_passwd _ := None;
  id_cache_faults := Build_OpenFaults false false false false;
  id_cache_file _ := None;
  read_text_file _ _ := None
|}.

#[export] Instance model_entra_config : EntraConfig := {|
  get_enable_hello _ := true;
  get_allow_remote_hello _ := false;
  get_allow_console_password_only _ := true;
  get_enable_experimental_mfa _ := true;
  get_enable_experimental_passwordless_fido _ := false;
  get_enable_passwordless_security_key _ := false;
  get_enable_passwordless_qr_bluetooth _ := false
|}.

#[export] Instance model_flow : EntraFlow Directory := {|
  opt_passwordless := tt;
  opt_fido := tt;
  opt_passwordless_fido := tt;
  opt_passwordless_security_key := tt;
  opt_passwordless_qr_bluetooth := tt;
  opt_force_mfa := tt;
  opt_remote_session := tt;
  flow_msg _ := "Confirm the sign-in";
  flow_polling_interval _ := None;
  flow_fido_challenge _ := None;
  flow_fido_allow_list _ := None;
  flow_has_physical_security_key _ := false;
  flow_has_cross_device_passkey _ := false;
  initiate_enrollment_mfa_flow _ _ _ _ _ d := (Ok (None, None), d);
  initiate_enrollment_device_flow _ d := (Ok (None, None), d)
|}.

(** Logins, with the answer to a request by a Hello key. *)
Definition login_with (by_hello : Directory → result (@UnixUserToken model_ext) MsalError) : EntraLogin Directory := {|
  DEVICE_AUTH_FAIL := 50155;
  auth_option_eqb _ _ := true;
  opt_no_dag_fallback := tt;
  flow_max_poll_attempts _ := None;
  flow_mfa_method _ := None;
  token_tenant_id _ := Some "1";
  token_set_prt _ t := t;
  msal_error_debug _ := "error";
  token_by_broker_refresh_token _ _ _ _ h d := (dir_exchange d, h, d);
  token_by_hello_key _ _ _ _ _ _ h d := (by_hello d, h, d);
  token_by_username_password _ _ _ _ _ h d := (dir_sign_in d, h, d);
  token_by_mfa_flow _ _ _ f d := ((dir_sign_in d, f), d);
  handle_password_change _ _ _ d := (Ok tt, d);
  provision_hello_key _ _ pin h d := (Ok pin, h, d);
  exchange_prt_for_prt_in_time _ _ h d := (None, h, d);
  EnrollAttrs := unit;
  enroll_attrs_new _ _ := Some tt;
  enroll_device _ _ _ h d := (Ok (tt, tt, "d1"), h, d);
  rsa_key_to_vec _ := Some [];
  enrolment_key_to_vec _ := Some [];
  ServiceEndpoints := unit;
  intune_service_endpoints _ d := (Some tt, d);
  fetch_intune_portal_versions _ d := (None, d);
  IntuneForLinux := unit;
  intune_for_linux _ _ _ _ d := (Some tt, d);
  intune_enroll_device _ _ _ _ _ h d := (Some (tt, "i1"), h, d);
  server_config_writable d := (true, d)
|}.

#[export] Instance model_login : EntraLogin Directory := login_with dir_sign_in.

#[local] Existing Instance model_unistring.

(** Alice's refresh token is cached; the directory puts her into a group of admins and one
    that bears Bob's UPN. *)
Definition alice_upn : string := "alice@example.com".

Definition alice_client : HelloClient :=
  Build_HelloClient ∅ {[ alice_upn := (alice_upn, model_clock 0) ]} ∅ CacheState_Online.

Definition sample_directory : Directory := {|
  dir_tenant := "1";
  dir_groups := Some [{| do_id := "7"; do_display_name := Some "admins"; do_extension_attrs := ∅ |};
                      {| do_id := "8"; do_display_name := Some "bob@example.com"; do_extension_attrs := ∅ |}];
  dir_sign_in := Ok "Alice@Example.com";
  dir_exchange := Ok "Alice@Example.com"
|}.

Definition entra_state (c : HelloClient) (k : Keys) : EState Directory := {|
  e_hello := Build_HState 0 c k sample_tpm; e_init := false; e_idmap := Idmap_new; e_alias := sample_aliases;
  e_net := sample_directory; e_handler := AuthCredHandler_None; e_locked := false
|}.

Notation alice_get := (run_em (entra_user_get (U := Directory) "example.com" sample_mk (Id_Name alice_upn) None)
                         (entra_state alice_client ∅)).

Example alice_get_runs :
  match alice_get.1 with
  | Some (Ok (UserTokenState_Update t)) => Some (t_spn t, t_displayname t, g_name <$> t_groups t)
  | _ => None
  end = Some (alice_upn, "Alice Doe", ["admins"; alice_upn]).
Proof. reflexivity. Qed.

Definition is_update (r : UserTokenState) : bool := match r with UserTokenState_Update _ => true | _ => false end.

Lemma alice_get_update : match (alice_get).1 with Some (Ok a) => is_update a | _ => false end = true.
Proof. reflexivity. Qed.

Lemma user_get_keeps_user_witness :
  ∃ t, (alice_get).1 = Some (Ok (UserTokenState_Update t)) ∧ to_lowercase (t_spn t) = alice_upn ∧
    upn_groups_own alice_upn (t_groups t).
Proof.
  pose proof alice_get_update as Hu. destruct alice_get as [[[r|]|] s'] eqn:Hr; [|discriminate Hu..].
  pose proof (user_get_keeps_user "example.com" sample_mk (Id_Name alice_upn) None _ _ _ Hr) as Ha.
  destruct r as [| |t]; [discriminate Hu..|]. exists t. split; [reflexivity|].
  destruct Ha as (Hs & Hg & _). split; [exact Hs|]. apply Hg. intros g Hin. destruct (not_elem_of_nil _ Hin).
Defined.

Definition alice_token : @UnixUserToken model_ext := "Alice@Example.com".
Definition bob_token : @UnixUserToken model_ext := "bob@example.com".

Notation alice_validate token :=
  (run_em (token_validate (U := Directory) "example.com" alice_upn token None)
     {| e_hello := Build_HState 0 alice_client ∅ sample_tpm; e_init := true;
        e_idmap := (add_gen_domain Idmap_new "example.com" "1" DEFAULT_IDMAP_RANGE).1; e_alias := sample_aliases;
        e_net := sample_directory; e_handler := AuthCredHandler_None; e_locked := false |}).

Definition is_success (r : AuthResult) : bool := match r with AuthResult_Success _ => true | _ => false end.

(** Another user's token of the same tenant is refused. *)
Example bob_refused :
  match (alice_validate bob_token).1 with Some (Ok (AuthResult_Denied m)) => Some m | _ => None end
  = Some "Authenticated user 5 does not match requested user".
Proof. reflexivity. Qed.

Lemma alice_validate_success : match (alice_validate alice_token).1 with Some (Ok a) => is_success a | _ => false end = true.
Proof. reflexivity. Qed.

Lemma token_validate_same_user_witness :
  ∃ t, (alice_validate alice_token).1 = Some (Ok (AuthResult_Success t)) ∧ t_spn t = alice_upn ∧
    ∃ spn, token_spn alice_token = Some spn.
Proof.
  pose proof alice_validate_success as Hu.
  destruct (alice_validate alice_token) as [[[r|]|] s'] eqn:Hr; [|discriminate Hu..].
  destruct r as [t| |]; [|discriminate Hu..]. exists t. split; [reflexivity|].
  destruct (token_validate_same_user "example.com" alice_upn alice_token None _ _ _ Hr)
    as ((_ & Hs & _) & _ & _ & spn & Hspn & _). split; [exact Hs|]. exists spn. exact Hspn.
Defined.

(** A joined device with Alice's Hello key. *)
Definition bound_keys : Keys :=
  {[ "alice@example.com/hello" := enc ("271828" : string); "example.com/transport" := [];
     "example.com/certificate" := []; "example.com/intune" := [] ]}.

Definition bound_state : EState Directory := {|
  e_hello := Build_HState 0 alice_client bound_keys sample_tpm; e_init := true; e_idmap := Idmap_new;
  e_alias := as_set (as_set sample_aliases "example.com" "device_id" "d1") "example.com" "intune_device_id" "i1";
  e_net := sample_directory; e_handler := AuthCredHandler_None; e_locked := false
|}.

Notation bound_init force :=
  (run_em (entra_online_auth_init (U := Directory) "example.com" alice_upn "login" false force) bound_state).

Definition is_pin (p : AuthRequest * AuthCredHandler) : bool :=
  match p.1 with AuthRequest_Pin => true | _ => false end.

Lemma bound_init_pin : match (bound_init false).1 with Some (Ok a) => is_pin a | _ => false end = true.
Proof. reflexivity. Qed.

Lemma pin_only_on_bound_device_witness :
  match (bound_init true).1 with Some (Ok p) => is_pin p | _ => true end = false ∧
  ∃ h, (bound_init false).1 = Some (Ok (AuthRequest_Pin, h)) ∧
    pin_allowed "example.com" alice_upn "login" false false bound_state (bound_init false).2.
Proof.
  split; [reflexivity|]. pose proof bound_init_pin as Hp.
  destruct (bound_init false) as [[[[req h]|]|] s'] eqn:Hr; [|discriminate Hp..].
  destruct req; try discriminate Hp. exists h. split; [reflexivity|].
  exact (pin_only_on_bound_device "example.com" alice_upn "login" false false bound_state h _ Hr).
Defined.

(** The domain [example.com] is initialised with the default range; the directory of
    [example.org] answers, and the network is up. *)
Definition second_state : EState Directory := {|
  e_hello := Build_HState 0 alice_client ∅ sample_tpm; e_init := false;
  e_idmap := (add_gen_domain Idmap_new "example.com" "2" DEFAULT_IDMAP_RANGE).1; e_alias := sample_aliases;
  e_net := sample_directory; e_handler := AuthCredHandler_None; e_locked := false
|}.

Lemma second_domain_never_starts_witness :
  get_idmap_range sample_config "example.org" = DEFAULT_IDMAP_RANGE ∧
  (run_em (entra_online_auth_init (U := Directory) "example.org" "carol@example.org" "login" false true)
     second_state).1 = Some (Ok outage) ∧
  ∀ r s', run_em (entra_online_auth_init (U := Directory) "example.org" "carol@example.org" "login" false true)
     second_state = (Some (Ok r), s') → r = outage ∧ stuck "example.org" s'.
Proof.
  split; [reflexivity|]. split; [reflexivity|].
  apply (second_domain_never_starts "example.org" sample_mk second_state).
  split; [reflexivity|]. eexists. split; [by apply list_elem_of_singleton|]. split; [reflexivity|].
  split; intros Hx; discriminate Hx.
Defined.
