(* ===== verification/EntraStepModels.v ===== *)
(** * Logins with the directory of the models

    The properties of an online login step, evaluated: Alice signs in with her PIN, the
    directory refuses her in the ways that matter, and her new device is not known yet. *)
From stdpp Require Import base gmap strings list fin_maps.
From Stdlib Require Import ZArith Lia Ascii.
From S2P Require Import Prelude Proto Interface Db Runtime Caches Idmap IdmapTheorems UserMap Config ConfigTheorems Models ResolverModels Hello HelloTheorems Pam PamAuth PamFacts PamModels Daemon Entra EntraUser EntraInit EntraDevice EntraStep EntraTheorems EntraStepTheorems EntraLocks EntraFrame EntraPanics EntraModels.

Open Scope rust_scope.

#[local] Existing Instance model_unistring.

Definition alice_cached : UserToken := {|
  t_name := alice_upn; t_spn := alice_upn; t_uuid := 5%N; t_real_gidnumber := None; t_gidnumber := 7;
  t_displayname := "Alice"; t_shell := None; t_groups := []; t_tenant_id := None; t_valid := true
|}.

(** Alice's joined and enrolled device, with what the directory answers to a sign-in and to
    a refresh token. *)
Definition login_state (sign_in exchange : result (@UnixUserToken model_ext) MsalError) (ch : AuthCredHandler)
  : EState Directory := {|
  e_hello := Build_HState 0 alice_client bound_keys sample_tpm; e_init := true;
  e_idmap := (add_gen_domain Idmap_new "example.com" "1" DEFAULT_IDMAP_RANGE).1;
  e_alias := as_set (as_set sample_aliases "example.com" "device_id" "d1") "example.com" "intune_device_id" "i1";
  e_net := {| dir_tenant := "1"; dir_groups := None; dir_sign_in := sign_in; dir_exchange := exchange |};
  e_handler := ch; e_locked := false
|}.

Notation signed_in := (Ok alice_token : result (@UnixUserToken model_ext) MsalError).

Notation step_of req :=
  (entra_online_auth_step (U := Directory) "example.com" sample_mk alice_upn alice_cached "login" false req).

(** What a step answers, for a reader. *)
Definition told (r : option (result (AuthResult * AuthCacheAction) IdpError)) : option string :=
  match r with
  | Some (Ok (AuthResult_Success t, _)) => Some ("in as " +:+ t_displayname t)
  | Some (Ok (AuthResult_Denied msg, _)) => Some msg
  | Some (Ok (AuthResult_Next AuthRequest_Password, _)) => Some "password?"
  | Some (Ok (AuthResult_Next (AuthRequest_SetupPin _), _)) => Some "new PIN?"
  | Some (Ok (AuthResult_Next (AuthRequest_MFAPoll _ _), _)) => Some "confirm?"
  | _ => None
  end.

Notation login sign_in ch req := (told (run_em (step_of req) (login_state sign_in signed_in ch)).1).

(** With the PIN; with a wrong one; with the network gone, from the cache; with a token of
    somebody else. *)
Example pin_logins :
  (login signed_in AuthCredHandler_None (PamAuthRequest_Pin "271828"),
   login signed_in AuthCredHandler_None (PamAuthRequest_Pin "000000"),
   login (Err MsalError_RequestFailed) AuthCredHandler_None (PamAuthRequest_Pin "271828"),
   login (Err MsalError_RequestFailed) AuthCredHandler_None (PamAuthRequest_Pin "000000"),
   login (Ok bob_token) AuthCredHandler_None (PamAuthRequest_Pin "271828"))
  = (Some "in as Alice Doe", Some HELLO_PIN_FAILED, Some "in as Alice", Some HELLO_PIN_FAILED,
     Some "Authenticated user 5 does not match requested user").
Proof. reflexivity. Qed.

(** With a password on the console, and with a password and a second factor. *)
Example password_logins :
  (login signed_in (AuthCredHandler_PasswordFirst [] true) (PamAuthRequest_Password "secret"),
   login signed_in AuthCredHandler_None (PamAuthRequest_Password "secret"),
   login signed_in (AuthCredHandler_MFA (None, None) (Some "secret") None None) (PamAuthRequest_MFAPoll 1),
   login (Err MsalError_Other) (AuthCredHandler_MFA (None, None) (Some "secret") None None) (PamAuthRequest_MFAPoll 1),
   login signed_in (AuthCredHandler_MFA (None, None) (Some "secret") None None) (PamAuthRequest_MFAPoll 181))
  = (Some "in as Alice Doe", Some "confirm?", Some "in as Alice Doe",
     Some "Authentication failed. Please contact your administrator.",
     Some "Authentication timed out. Please try again.").
Proof. reflexivity. Qed.

Definition lets_in (r : option (result (AuthResult * AuthCacheAction) IdpError)) : bool :=
  match r with Some (Ok (AuthResult_Success _, _)) => true | _ => false end.

Notation pin_run := (run_em (step_of (PamAuthRequest_Pin "271828")) (login_state signed_in signed_in AuthCredHandler_None)).

Lemma pin_run_in : lets_in (pin_run).1 = true.
Proof. reflexivity. Qed.

Lemma online_success_needs_proof_witness :
  ∃ t action, (pin_run).1 = Some (Ok (AuthResult_Success t, action)) ∧
    proven sample_mk alice_upn AuthCredHandler_None (PamAuthRequest_Pin "271828")
      (Build_HState 0 alice_client bound_keys sample_tpm) ∧
    granted alice_upn alice_cached (PamAuthRequest_Pin "271828") t.
Proof.
  pose proof pin_run_in as Hin. destruct pin_run as [[[[r action]|]|] s'] eqn:Hr; [|discriminate Hin..].
  destruct r as [t| |]; [|discriminate Hin..]. exists t, action. split; [reflexivity|].
  exact (proj1 (online_success_needs_proof "example.com" sample_mk alice_upn alice_cached "login" false
                  (PamAuthRequest_Pin "271828") _ _ _ _ Hr) t eq_refl).
Defined.

(** The directory asks for consent. *)
Definition no_consent : result (@UnixUserToken model_ext) MsalError :=
  Err (MsalError_AcquireTokenFailed {| error_codes := [CONSENT_REQUIRED]; error_description := "AADSTS65002" |}).

Definition sample_pin : @PinValue model_ext model_crypto model_hello := "271828".
Definition opened_key : @StorageKey model_ext model_crypto model_hello := tt.
Notation tpm_after := (ms_hello_key_load sample_mk sample_key sample_pin sample_tpm).2.

Lemma pin_retry_hangs_witness :
  (run_em (step_of (PamAuthRequest_Pin "271828")) (login_state no_consent signed_in AuthCredHandler_None)).1 = None.
Proof.
  rewrite (pin_retry_hangs "example.com" sample_mk alice_upn alice_cached "login" false "271828" sample_key sample_pin opened_key
             (login_state no_consent signed_in AuthCredHandler_None) tpm_after
             (MsalError_AcquireTokenFailed {| error_codes := [CONSENT_REQUIRED]; error_description := "AADSTS65002" |})
             tpm_after (e_net (login_state no_consent signed_in AuthCredHandler_None)));
    [reflexivity..|]. split; reflexivity.
Defined.

(** The directory does not know the device of [login_state]. *)
Definition unknown_device : result (@UnixUserToken model_ext) MsalError :=
  Err (MsalError_AcquireTokenFailed {| error_codes := [50155]; error_description := "AADSTS50155" |}).

Notation first_login :=
  (obtain_enrolled_token (U := Directory) "example.com" sample_mk alice_token
     (login_state signed_in unknown_device AuthCredHandler_None)).

Lemma new_device_dropped_witness :
  is_Some (bound_keys !! "example.com/certificate") ∧
  h_keys (e_hello (first_login).2) !! "example.com/certificate" = None ∧
  ∃ msg, (first_login).1 = inr (Return (AuthResult_Denied msg, AuthCacheAction_None)).
Proof.
  split; [eexists; reflexivity|].
  pose proof (new_device_dropped "example.com" sample_mk alice_token
                (login_state signed_in unknown_device AuthCredHandler_None)
                {| error_codes := [50155]; error_description := "AADSTS50155" |} sample_tpm
                (e_net (login_state signed_in unknown_device AuthCredHandler_None))
                eq_refl eq_refl eq_refl eq_refl (proj2 (list_elem_of_singleton 50155 50155) eq_refl)) as Hd.
  destruct first_login as [r s']. destruct Hd as (Hr & Hk & _). split.
  - simpl. rewrite Hk. reflexivity.
  - eexists. exact Hr.
Defined.

(** A directory that never asks for a second request. *)
Section calm.
#[local] Instance calm_login : EntraLogin Directory := login_with (λ _, signed_in).

Lemma calm_unblocked : ¬ blocked (U := Directory) sample_mk alice_upn.
Proof.
  intros [? ? ? ? ? ? ? ? ? Hr _|? ? ? ? ? ? ? ? ? ? ? ? ? Hr _ _|? ? ? ? ? Hr]; discriminate Hr.
Qed.

Lemma model_clock_in_time n : in_time (clock n).
Proof. by vm_compute. Qed.

Lemma login_in_range sign_in exchange ch : in_range (login_state sign_in exchange ch).
Proof. split; [split|]; apply (bool_decide_unpack _); vm_compute; exact I. Qed.

Lemma step_returns_witness :
  let s := login_state no_consent signed_in (AuthCredHandler_PasswordFirst [] true) in
  let run := run_em (entra_online_auth_step (U := Directory) "example.com" sample_mk alice_upn alice_cached "login" false
               (PamAuthRequest_Password "secret")) s in
  (∃ answer, run.1 = Some answer) ∧ e_locked run.2 = false.
Proof.
  intros s run.
  destruct (step_returns "example.com" sample_mk alice_upn alice_cached "login" false model_clock_in_time
              (PamAuthRequest_Password "secret") s eq_refl (login_in_range _ _ _) calm_unblocked)
    as (Ha & Hl & _).
  split; [exact Ha|exact Hl].
Defined.

End calm.
