(* ===== verification/EntraMulti.v ===== *)
(** * Several domains behind one provider: [HimmelblauMultiProvider]

    [src/common/src/idprovider/himmelblau.rs]: an account is routed by its domain to one of
    the providers configured at start, or by an alias of the same tenant, and never to a
    new one. The providers share the configuration and the id map. A provider with what it
    shares is the class [PartOps]; [entra_part] is the Entra ID provider of this
    development, and [multi_provider] the provider the resolver runs on. *)
From stdpp Require Import base gmap strings list fin_maps.
From Stdlib Require Import ZArith Lia Ascii.
From S2P Require Import Prelude Proto Interface Db Runtime Caches Idmap UserMap Config Hello Pam Entra EntraUser EntraInit EntraDevice EntraStep.

Open Scope rust_scope.

(** The methods of a provider, over its own and the shared state together. *)
Class PartOps `{X : Ext} `{C : Crypto} (St : Type) : Type := {
  part_check_online : SystemTime → TpmCall St bool;
  part_user_get : Id → option UserToken → MachineKey → FullCall St (result UserTokenState IdpError);
  part_user_access : Id → list string → option UserToken → option string → option string → option string →
    MachineKey → FullCall St (result UnixUserToken IdpError);
  part_user_tgts : Id → option UserToken → MachineKey → FullCall St Tgts;
  part_user_prt_cookie : Id → option UserToken → option string → MachineKey → FullCall St (result string IdpError);
  part_change_auth_token : string → UnixUserToken → string → MachineKey → FullCall St (result bool IdpError);
  part_online_auth_init : string → option UserToken → string → bool → bool → MachineKey →
    FullCall St (result (AuthRequest * AuthCredHandler) IdpError);
  part_online_auth_step : string → UserToken → string → bool → AuthCredHandler → PamAuthRequest → MachineKey →
    FullCall St (AuthCredHandler * result (AuthResult * AuthCacheAction) IdpError);
  part_offline_auth_init : string → option UserToken → bool → KsCall St (result (AuthRequest * AuthCredHandler) IdpError);
  part_offline_auth_step : string → UserToken → AuthCredHandler → PamAuthRequest → MachineKey → bool →
    FullCall St (AuthCredHandler * result AuthResult IdpError);
  part_get_cachestate : option string → KsCall St CacheState;
  part_offline_break_glass : option Z → PCall St (result unit IdpError);
  part_export_broker_prts : PCall St (option bytes);
  part_import_broker_prts : bytes → PCall St (option unit)
}.

(** serde_json at [HashMap<String, Vec<u8>>]. *)
Class BlobCodec : Type := {
  blobs_to_vec : gmap string bytes → option bytes;
  blobs_from_slice : bytes → option (gmap string bytes)
}.

Section multi.
Context {X : Ext} {C : Crypto} {I : IniFile} {F : Federation} {T : TextOps} {BC : BlobCodec}.

(** What the providers share: the configuration, and the rest. *)
Context {Sh Co Ce : Type} (sh_alias : Sh → AliasState) (sh_set_alias : AliasState → Sh → Sh).
Context {OP : PartOps (Co * Sh)} {EP : PartOps (Ce * Sh)}.

Inductive Providers := Providers_Oidc (c : Co) | Providers_Himmelblau (c : Ce).

Record MultiState := { mp_providers : gmap string Providers; mp_shared : Sh }.

(** A call that may use [W]: the key store, the TPM, both or neither. *)
Definition WCall (W St A : Type) : Type := nat → St → W → A * St * W.

Definition of_full {St A} (f : FullCall St A) : WCall (Keys * Hsm) St A := λ n st w,
  let '(a, st', k, h) := f n st w.1 w.2 in (a, st', (k, h)).
Definition to_full {St A} (f : WCall (Keys * Hsm) St A) : FullCall St A := λ n st k h,
  let '(a, st', w) := f n st (k, h) in (a, st', w.1, w.2).
Definition of_plain {St A} (f : PCall St A) : WCall unit St A := λ n st w,
  let '(a, st') := f n st in (a, st', w).
Definition to_plain {St A} (f : WCall unit St A) : PCall St A := λ n st,
  let '(a, st', _) := f n st tt in (a, st').

(** ** Routing *)

(** [idp_get_domain_for_account!] *)
Definition idp_get_domain_for_account (account_id : string) (st : MultiState) : result string IdpError :=
  match get_oidc_issuer_url (as_config (sh_alias (mp_shared st))) url_ok with
  | Some _ => Ok "oidc"
  | None =>
      match split_username account_id with
      | Some (_, domain) => Ok domain
      | None => Err (IdpError_NotFound "domain" ("account_id: " +:+ account_id))
      end
  end.

(** [find_provider!]: the domain's provider, or the one of the domain it is an alias of. *)
Definition find_provider (domain : string) (st : MultiState) : result (string * Providers) IdpError * MultiState :=
  let missing := IdpError_NotFound ("domain: " +:+ domain) "providers" in
  match mp_providers st !! domain with
  | Some provider => (Ok (domain, provider), st)
  | None =>
      let '(primary_domain, al) := get_primary_domain_from_alias url_ok domain (sh_alias (mp_shared st)) in
      let st := {| mp_providers := mp_providers st; mp_shared := sh_set_alias al (mp_shared st) |} in
      (match primary_domain with
       | Some primary =>
           match mp_providers st !! primary with
           | Some provider => Ok (primary, provider)
           | None => Err missing
           end
       | None => Err missing
       end, st)
  end.

(** Run a method on the provider of [domain]. *)
Definition on_provider {W A} (fo : WCall W (Co * Sh) A) (fe : WCall W (Ce * Sh) A) (domain : string)
  (provider : Providers) : WCall W MultiState A := λ n st w,
  match provider with
  | Providers_Oidc c =>
      let '(a, (c, sh), w) := fo n (c, mp_shared st) w in
      (a, {| mp_providers := <[domain := Providers_Oidc c]> (mp_providers st); mp_shared := sh |}, w)
  | Providers_Himmelblau c =>
      let '(a, (c, sh), w) := fe n (c, mp_shared st) w in
      (a, {| mp_providers := <[domain := Providers_Himmelblau c]> (mp_providers st); mp_shared := sh |}, w)
  end.

(** The common body of the methods: route by the account, or fail. *)
Definition dispatch {W A} (account_id : string) (fo : WCall W (Co * Sh) A) (fe : WCall W (Ce * Sh) A)
  (err : IdpError → A) : WCall W MultiState A := λ n st w,
  match idp_get_domain_for_account account_id st with
  | Err e => (err e, st, w)
  | Ok domain =>
      match find_provider domain st with
      | (Err e, st) => (err e, st, w)
      | (Ok (d, provider), st) => on_provider fo fe d provider n st w
      end
  end.

(** Every provider in turn, until one gives a result. The order is that of the map. *)
Fixpoint each {W A} (fo : WCall W (Co * Sh) (option A)) (fe : WCall W (Ce * Sh) (option A)) (last : A)
  (ds : list string) : WCall W MultiState A := λ n st w,
  match ds with
  | [] => (last, st, w)
  | d :: ds =>
      match mp_providers st !! d with
      | None => each fo fe last ds n st w
      | Some provider =>
          match on_provider fo fe d provider n st w with
          | (Some a, st, w) => (a, st, w)
          | (None, st, w) => each fo fe last ds n st w
          end
      end
  end.

Definition each_provider {W A} (fo : WCall W (Co * Sh) (option A)) (fe : WCall W (Ce * Sh) (option A)) (last : A)
  : WCall W MultiState A := λ n st w, each fo fe last (map_to_list (mp_providers st)).*1 n st w.

(** ** The methods *)

Definition on_result {W St A B} (f : A → B) (c : WCall W St A) : WCall W St B := λ n st w,
  let '(a, st, w) := c n st w in (f a, st, w).

Definition multi_offline_break_glass (ttl : option Z) : PCall MultiState (result unit IdpError) :=
  let stop r := match r with Ok _ => None | Err e => Some (Err e) end in
  to_plain (each_provider (on_result stop (of_plain (part_offline_break_glass ttl)))
              (on_result stop (of_plain (part_offline_break_glass ttl))) (Ok tt)).

Definition multi_check_online (now : SystemTime) : TpmCall MultiState bool :=
  let stop (b : bool) := if b then None else Some false in
  each_provider (on_result stop (part_check_online now)) (on_result stop (part_check_online now)) true.

Definition multi_user_access (id_ : Id) (scopes : list string) (old_token : option UserToken)
  (client_id redirect_uri req_cnf : option string) (mk : MachineKey) : FullCall MultiState (result UnixUserToken IdpError) :=
  to_full (dispatch (account_of id_ old_token)
    (of_full (part_user_access id_ scopes old_token client_id redirect_uri req_cnf mk))
    (of_full (part_user_access id_ scopes old_token client_id redirect_uri req_cnf mk)) Err).

Definition multi_user_tgts (id_ : Id) (old_token : option UserToken) (mk : MachineKey) : FullCall MultiState Tgts :=
  to_full (dispatch (account_of id_ old_token) (of_full (part_user_tgts id_ old_token mk))
    (of_full (part_user_tgts id_ old_token mk)) (λ _, (None, None, None, None))).

Definition multi_user_prt_cookie (id_ : Id) (old_token : option UserToken) (sso_nonce : option string) (mk : MachineKey)
  : FullCall MultiState (result string IdpError) :=
  to_full (dispatch (account_of id_ old_token) (of_full (part_user_prt_cookie id_ old_token sso_nonce mk))
    (of_full (part_user_prt_cookie id_ old_token sso_nonce mk)) Err).

Definition multi_change_auth_token (account_id : string) (token : UnixUserToken) (new_tok : string) (mk : MachineKey)
  : FullCall MultiState (result bool IdpError) :=
  to_full (dispatch account_id (of_full (part_change_auth_token account_id token new_tok mk))
    (of_full (part_change_auth_token account_id token new_tok mk)) Err).

Definition multi_user_get (id_ : Id) (old_token : option UserToken) (mk : MachineKey)
  : FullCall MultiState (result UserTokenState IdpError) :=
  to_full (dispatch (account_of id_ old_token) (of_full (part_user_get id_ old_token mk))
    (of_full (part_user_get id_ old_token mk)) Err).

Definition multi_online_auth_init (account_id : string) (token : option UserToken) (service : string)
  (no_hello_pin force_reauth : bool) (mk : MachineKey) : FullCall MultiState (result (AuthRequest * AuthCredHandler) IdpError) :=
  to_full (dispatch account_id
    (of_full (part_online_auth_init account_id token service no_hello_pin force_reauth mk))
    (of_full (part_online_auth_init account_id token service no_hello_pin force_reauth mk)) Err).

Definition multi_online_auth_step (account_id : string) (old_token : UserToken) (service : string) (no_hello_pin : bool)
  (cred_handler : AuthCredHandler) (req : PamAuthRequest) (mk : MachineKey)
  : FullCall MultiState (AuthCredHandler * result (AuthResult * AuthCacheAction) IdpError) :=
  to_full (dispatch account_id
    (of_full (part_online_auth_step account_id old_token service no_hello_pin cred_handler req mk))
    (of_full (part_online_auth_step account_id old_token service no_hello_pin cred_handler req mk))
    (λ e, (cred_handler, Err e))).

Definition multi_offline_auth_init (account_id : string) (token : option UserToken) (no_hello_pin : bool)
  : KsCall MultiState (result (AuthRequest * AuthCredHandler) IdpError) :=
  dispatch account_id (part_offline_auth_init account_id token no_hello_pin)
    (part_offline_auth_init account_id token no_hello_pin) Err.

Definition multi_offline_auth_step (account_id : string) (token : UserToken) (cred_handler : AuthCredHandler)
  (req : PamAuthRequest) (mk : MachineKey) (online_at_init : bool)
  : FullCall MultiState (AuthCredHandler * result AuthResult IdpError) :=
  to_full (dispatch account_id
    (of_full (part_offline_auth_step account_id token cred_handler req mk online_at_init))
    (of_full (part_offline_auth_step account_id token cred_handler req mk online_at_init))
    (λ e, (cred_handler, Err e))).

Definition multi_get_cachestate (account_id : option string) : KsCall MultiState CacheState :=
  match account_id with
  | Some a => dispatch a (part_get_cachestate (Some a)) (part_get_cachestate (Some a)) (λ _, CacheState_Offline)
  | None =>
      let stop s := match s with CacheState_Online => None | s => Some s end in
      each_provider (on_result stop (part_get_cachestate None)) (on_result stop (part_get_cachestate None))
        CacheState_Online
  end.

(** [p.export_broker_prts().await?] for every Entra ID provider. *)
Fixpoint export_each (ds : list string) (n : nat) (st : MultiState) (all : gmap string bytes)
  : option (gmap string bytes) * MultiState :=
  match ds with
  | [] => (Some all, st)
  | d :: ds =>
      match mp_providers st !! d with
      | Some (Providers_Himmelblau c) =>
          let '(data, (c, sh)) := part_export_broker_prts n (c, mp_shared st) in
          let st := {| mp_providers := <[d := Providers_Himmelblau c]> (mp_providers st); mp_shared := sh |} in
          match data with
          | Some data => export_each ds n st (<[d := data]> all)
          | None => (None, st)
          end
      | _ => export_each ds n st all
      end
  end.

Definition multi_export_broker_prts : PCall MultiState (option bytes) := λ n st,
  let '(all, st) := export_each (map_to_list (mp_providers st)).*1 n st ∅ in
  (all ≫= blobs_to_vec, st).

(** A provider that refuses its part is logged and left alone. *)
Fixpoint import_each (blobs : list (string * bytes)) (n : nat) (st : MultiState) : MultiState :=
  match blobs with
  | [] => st
  | (d, blob) :: blobs =>
      match mp_providers st !! d with
      | Some (Providers_Himmelblau c) =>
          let '(_, (c, sh)) := part_import_broker_prts blob n (c, mp_shared st) in
          import_each blobs n {| mp_providers := <[d := Providers_Himmelblau c]> (mp_providers st); mp_shared := sh |}
      | _ => import_each blobs n st
      end
  end.

Definition multi_import_broker_prts (data : bytes) : PCall MultiState (option unit) := λ n st,
  match blobs_from_slice data with
  | None => (None, st)
  | Some all => (Some tt, import_each (map_to_list all) n st)
  end.

(** The trait's default [configure_hsm_keys] does nothing; groups are not listed. *)
Definition multi_provider : IdProvider := {|
  Client := MultiState;
  configure_hsm_keys _ := λ _ c k h, (Ok tt, c, k, h);
  Runtime.check_online := multi_check_online;
  unix_user_get := multi_user_get;
  Runtime.unix_user_access := multi_user_access;
  unix_user_tgts := multi_user_tgts;
  unix_user_prt_cookie := multi_user_prt_cookie;
  prov_change_auth_token := multi_change_auth_token;
  unix_user_online_auth_init := multi_online_auth_init;
  unix_user_online_auth_step := multi_online_auth_step;
  unix_user_offline_auth_init := multi_offline_auth_init;
  unix_user_offline_auth_step := multi_offline_auth_step;
  unix_group_get _ := λ _ c h, (Err IdpError_BadRequest, c, h);
  prov_get_cachestate := multi_get_cachestate;
  prov_offline_break_glass := multi_offline_break_glass;
  prov_export_broker_prts := multi_export_broker_prts;
  prov_import_broker_prts := multi_import_broker_prts
|}.

End multi.

(** ** The Entra ID provider as a part *)

Section part.
Context {X : Ext} {C : Crypto} {HO : HelloOps} {E : Env} {HE : HelloEnv} {UNI : Unistring} {IH : Inhabited Hsm}.
Context {I : IniFile} {G : GeneratedConfig} {PC : PamConfig} {EC : EntraConfig} {H : Host} {F : Federation} {T : TextOps}.
Context {U : Type} {EE : EntraEnv U} {EF : EntraFlow U} {EL : EntraLogin U}.

(** What the providers share, and the fields of a [HimmelblauProvider]: its own clients
    and what they talk to are [U]. *)
Record Shared := { sh_idmap : Idmap; sh_config : AliasState }.

Definition set_sh_config (al : AliasState) (sh : Shared) : Shared :=
  {| sh_idmap := sh_idmap sh; sh_config := al |}.

Record EntraProvider := { ep_domain : string; ep_client : HelloClient; ep_init : bool; ep_net : U }.

(** [HimmelblauProvider::new] *)
Definition entra_provider_new (domain : string) (u : U) (now : SystemTime) : EntraProvider :=
  {| ep_domain := domain; ep_client := hello_client_new (CacheState_OfflineNextCheck now); ep_init := false; ep_net := u |}.

Definition put_client (ep : EntraProvider) (c : HelloClient) : EntraProvider :=
  {| ep_domain := ep_domain ep; ep_client := c; ep_init := ep_init ep; ep_net := ep_net ep |}.

Definition Part : Type := EntraProvider * Shared.

Definition part_state (n : nat) (st : Part) (k : Keys) (h : Hsm) : EState U :=
  {| e_hello := Build_HState n (ep_client st.1) k h; e_init := ep_init st.1; e_idmap := sh_idmap st.2;
     e_alias := sh_config st.2; e_net := ep_net st.1;
     e_handler := AuthCredHandler_None; e_locked := false |}.

Definition after (st : Part) (s : EState U) : Part :=
  ({| ep_domain := ep_domain st.1; ep_client := h_client (e_hello s); ep_init := e_init s; ep_net := e_net s |},
   {| sh_idmap := e_idmap s; sh_config := e_alias s |}).

(** A call. The error stands for one that does not return: a panic, which needs a clock or
    a range at the end of its type, or a wait for a lock the call holds itself. *)
Definition em_call {R} (m : string → EM U R R) : FullCall Part (result R IdpError) := λ n st k h,
  let '(r, s) := run_em (m (ep_domain st.1)) (part_state n st k h) in
  (default (Err IdpError_BadRequest) r, after st s, h_keys (e_hello s), h_tpm (e_hello s)).

(** A step of a login: the handler goes in with the state and comes out with it. *)
Definition online_step_call (account_id : string) (old_token : UserToken) (service : string) (no_hello_pin : bool)
  (cred_handler : AuthCredHandler) (req : PamAuthRequest) (mk : MachineKey)
  : FullCall Part (AuthCredHandler * result (AuthResult * AuthCacheAction) IdpError) := λ n st k h,
  let '(r, s) := run_em (entra_online_auth_step (ep_domain st.1) mk account_id old_token service no_hello_pin req)
                   (set_handler cred_handler (part_state n st k h)) in
  ((e_handler s, default (Err IdpError_BadRequest) r), after st s, h_keys (e_hello s), h_tpm (e_hello s)).

Definition entra_part : PartOps Part := {|
  part_check_online now := λ n st h,
    let '(r, st, _, h) := em_call (λ d, entra_check_online d now) n st ∅ h in
    (match r with Ok b => b | Err _ => false end, st, h);
  part_user_get id_ old mk := em_call (λ d, entra_user_get d mk id_ old);
  part_user_access id_ scopes old cid uri cnf mk := em_call (λ d, entra_user_access d mk id_ scopes old cid uri cnf);
  part_user_tgts id_ old mk := λ n st k h,
    let '(r, st, k, h) := em_call (λ d, entra_user_tgts d mk id_ old) n st k h in
    (match r with Ok t => t | Err _ => (None, None, None, None) end, st, k, h);
  part_user_prt_cookie id_ old nonce mk := em_call (λ d, entra_user_prt_cookie d mk id_ old nonce);
  part_change_auth_token a t new mk := em_call (λ d, entra_change_auth_token d mk a t new);
  part_online_auth_init a _ svc nhp fr _ := em_call (λ d, entra_online_auth_init d a svc nhp fr);
  part_online_auth_step := online_step_call;
  part_offline_auth_init a _ nhp := λ n st k,
    let '(r, s) := run_hm (offline_auth_init (as_config (sh_config st.2)) true a nhp)
                     (Build_HState n (ep_client st.1) k inhabitant) in
    (hm_result r, (put_client st.1 (h_client s), st.2), h_keys s);
  part_offline_auth_step a t ch req mk _ := λ n st k h,
    let '(r, s) := run_hm (offline_auth_step (as_config (sh_config st.2)) load_cached_prt a t ch req mk)
                     (Build_HState n (ep_client st.1) k h) in
    ((ch, hm_result r), (put_client st.1 (h_client s), st.2),
     h_keys s, h_tpm s);
  part_get_cachestate _ := λ _ st k, (state (ep_client st.1), st, k);
  part_offline_break_glass ttl := λ n st,
    let '(r, s) := run_hm (offline_break_glass (as_config (sh_config st.2)) ttl)
                     (Build_HState n (ep_client st.1) ∅ inhabitant) in
    (hm_result r, (put_client st.1 (h_client s), st.2));
  part_export_broker_prts := λ _ st, (export_broker_prts (ep_client st.1), st);
  part_import_broker_prts data := λ n st,
    let '(r, s) := run_hm (import_broker_prts data) (Build_HState n (ep_client st.1) ∅ inhabitant) in
    (match r with Some (Ok o) => o | _ => None end,
     (put_client st.1 (h_client s), st.2))
|}.

End part.

(** ** Starting the providers *)

(** The constructors of the graph client and of the broker's client application, and the
    keys of the device the latter is given. *)
Class EntraStart `{X : Ext} `{C : Crypto} (U : Type) `{EE : @EntraEnv X C U} : Type := {
  Graph : Type;
  BrokerClientApplication : Type;
  graph_new : string → string → string → option string → option string → Z → list IpVersion → option Graph;
  broker_client_new : option string → Z → list IpVersion → option BrokerClientApplication;
  clients : BrokerClientApplication → Graph → U;
  set_transport_key : option LoadableRsaKey → U → U;
  set_cert_key : option LoadableEnrolmentKey → U → U
}.

Section start.
Context {X : Ext} {C : Crypto} {HO : HelloOps} {E : Env} {HE : HelloEnv} {IH : Inhabited Hsm}.
Context {I : IniFile} {G : GeneratedConfig} {PC : PamConfig} {F : Federation} {T : TextOps}.
Context {U : Type} {EE : EntraEnv U} {ES : EntraStart U}.

(** The keys of the device that can be read; the counter tells the accesses apart. *)
Definition load_device_keys (domain : string) (keystore : Keys) (n : nat) (u : U) : U * nat :=
  let s := Build_HState n (hello_client_new CacheState_Offline) keystore inhabitant in
  let '(transport_key, s) := run_hm (fetch_loadable_transport_key_from_keystore domain) s in
  let u := match transport_key with Some (Ok (Ok key)) => set_transport_key key u | _ => u end in
  let '(cert_key, s) := run_hm (fetch_loadable_cert_key_from_keystore domain) s in
  (match cert_key with Some (Ok (Ok key)) => set_cert_key key u | _ => u end, h_tick s).

Definition graph_for (cfg : HimmelblauConfig) (domain : string) : option Graph :=
  graph_new (get_odc_provider cfg domain) domain (get_authority_host cfg domain) (get_tenant_id cfg domain)
    (get_graph_url cfg domain) (get_request_timeout (config cfg)) (get_ip_versions cfg).

(** A domain whose graph client cannot be made is skipped; a failing client application
    ends the start. *)
Fixpoint add_providers {Co} (cfg : HimmelblauConfig) (keystore : Keys) (domains : list string) (n : nat)
  (providers : gmap string (Providers (Co := Co) (Ce := EntraProvider (U := U))))
  : option (gmap string (Providers (Co := Co) (Ce := EntraProvider (U := U)))) :=
  match domains with
  | [] => Some providers
  | domain :: domains =>
      match graph_for cfg domain with
      | None => add_providers cfg keystore domains n providers
      | Some graph =>
          match broker_client_new (get_app_id cfg domain) (get_request_timeout (config cfg)) (get_ip_versions cfg) with
          | None => None
          | Some app =>
              let '(u, n') := load_device_keys domain keystore (S n) (clients app graph) in
              add_providers cfg keystore domains n'
                (<[domain := Providers_Himmelblau (entra_provider_new domain u (clock n))]> providers)
          end
      end
  end.

(** [HimmelblauMultiProvider::new]; [oidc_new] is [OidcProvider::new], and the task that
    clears the cookies is left out. *)
Definition multi_new {Co} (oidc_new : HimmelblauConfig → option Co) (files : string → option string)
  (config_filename : string) (keystore : Keys) (n : nat)
  : option (MultiState (Sh := Shared) (Co := Co) (Ce := EntraProvider (U := U))) :=
  match config_new files (Some config_filename) with
  | Err _ => None
  | Ok cfg =>
      providers ← match get_oidc_issuer_url cfg url_ok with
                  | None => add_providers cfg keystore (get_configured_domains cfg) n ∅
                  | Some _ => c ← oidc_new cfg; Some {[ "oidc" := Providers_Oidc c ]}
                  end;
      if bool_decide (providers = ∅) then None
      else Some {| mp_providers := providers;
                   mp_shared := {| sh_idmap := Idmap_new;
                                   sh_config := {| as_config := cfg; as_written := []; as_requests := 0 |} |} |}
  end.

End start.
