(* ===== verification/EntraMultiTheorems.v ===== *)
(** * Properties of the providers behind one

    An account reaches only a provider that was configured at start, the set of these never
    changes, and the multi provider is online when each of its providers is. *)
From stdpp Require Import base gmap strings list fin_maps.
From Stdlib Require Import ZArith Lia Ascii.
From S2P Require Import Prelude Proto Interface Db DbSpec DbFacts Models Runtime Resolver ResolverLogic ResolverFacts ResolverModels ResolverTheorems Caches Idmap UserMap Config ConfigTheorems IdmapTheorems Hello HelloTheorems Pam PamAuth PamFacts PamModels Entra EntraUser EntraInit EntraDevice EntraStep EntraTheorems EntraStepTheorems EntraLocks EntraFrame EntraModels EntraStepModels EntraMulti.

Open Scope rust_scope.

(** ** Routing *)

Section routing.
Context {X : Ext} {C : Crypto} {I : IniFile} {F : Federation} {T : TextOps} {BC : BlobCodec}.
Context {Sh Co Ce : Type} (sh_alias : Sh → AliasState) (sh_set_alias : AliasState → Sh → Sh).
Context {OP : PartOps (Co * Sh)} {EP : PartOps (Ce * Sh)}.

Notation State := (MultiState (Sh := Sh) (Co := Co) (Ce := Ce)).
Implicit Types st : State.

(** The account is served by [d]: the domain of its UPN (or the one OIDC domain), or the
    configured domain that one is an alias of. *)
Definition routes (account_id : string) st (d : string) : Prop :=
  ∃ domain, idp_get_domain_for_account sh_alias account_id st = Ok domain ∧
    (d = domain ∨
     (mp_providers st !! domain = None ∧
      (get_primary_domain_from_alias url_ok domain (sh_alias (mp_shared st))).1 = Some d)).

Definition kind_of (p : Providers (Co := Co) (Ce := Ce)) : bool :=
  match p with Providers_Oidc _ => true | Providers_Himmelblau _ => false end.

(** Only the entry of [d] may differ, and it stays a provider of its kind. *)
Definition only_changes (d : string) st st' : Prop :=
  (∀ d', d' ≠ d → mp_providers st' !! d' = mp_providers st !! d') ∧
  kind_of <$> (mp_providers st' !! d) = kind_of <$> (mp_providers st !! d).

Lemma on_provider_changes {W A} (fo : WCall W (Co * Sh) A) (fe : WCall W (Ce * Sh) A) d p n st w :
  mp_providers st !! d = Some p → only_changes d st (on_provider fo fe d p n st w).1.2.
Proof.
  intros Hp. unfold on_provider.
  destruct p; [destruct (fo _ _ _) as [[? []]]|destruct (fe _ _ _) as [[? []]]];
    (split; simpl; [intros d' Hd; by rewrite lookup_insert_ne|by rewrite lookup_insert_eq, Hp]).
Qed.

Lemma find_provider_cases domain st :
  let '(r, st') := find_provider sh_alias sh_set_alias domain st in
  mp_providers st' = mp_providers st ∧
  match r with
  | Ok (d, p) => mp_providers st !! d = Some p ∧
      (d = domain ∨ mp_providers st !! domain = None ∧
         (get_primary_domain_from_alias url_ok domain (sh_alias (mp_shared st))).1 = Some d)
  | Err e => e = IdpError_NotFound ("domain: " +:+ domain) "providers"
  end.
Proof.
  unfold find_provider. destruct (mp_providers st !! domain) eqn:Hd; [by auto|].
  destruct (get_primary_domain_from_alias _ _ _) as [[primary|] al]; [|done]. simpl.
  destruct (mp_providers st !! primary) eqn:Hp; [|done]. auto.
Qed.

Lemma on_provider_dom {W A} (fo : WCall W (Co * Sh) A) (fe : WCall W (Ce * Sh) A) d p n st w :
  mp_providers st !! d = Some p →
  dom (mp_providers (on_provider fo fe d p n st w).1.2) = dom (mp_providers st).
Proof.
  intros Hp. destruct (on_provider_changes fo fe d p n st w Hp) as [Hne He].
  apply set_eq. intros d'. rewrite !elem_of_dom. destruct (decide (d' = d)) as [->|Hn]; [|by rewrite Hne].
  by rewrite <- (fmap_is_Some kind_of), He, fmap_is_Some.
Qed.

Lemma dispatch_dom {W A} account_id (fo : WCall W (Co * Sh) A) (fe : WCall W (Ce * Sh) A) err n st w :
  dom (mp_providers (dispatch sh_alias sh_set_alias account_id fo fe err n st w).1.2) = dom (mp_providers st).
Proof.
  unfold dispatch. destruct (idp_get_domain_for_account _ _ _) as [domain|]; [|done].
  pose proof (find_provider_cases domain st) as Hf.
  destruct (find_provider _ _ _ _) as [[[d p]|e] st1]; destruct Hf as [Hs Hf]; [|by rewrite <- Hs].
  rewrite on_provider_dom by (by rewrite Hs; apply Hf). by rewrite Hs.
Qed.

Lemma each_dom {W A} (fo : WCall W (Co * Sh) (option A)) (fe : WCall W (Ce * Sh) (option A)) last ds n st w :
  dom (mp_providers (each fo fe last ds n st w).1.2) = dom (mp_providers st).
Proof.
  revert st w. induction ds as [|d ds IH]; intros st w; [done|]. simpl.
  destruct (mp_providers st !! d) as [p|] eqn:Hp; [|apply IH].
  pose proof (on_provider_dom fo fe d p n st w Hp) as Hd.
  destruct (on_provider fo fe d p n st w) as [[[a|] st1] w1]; [done|]. by rewrite IH.
Qed.

(** No request introduces a tenant: a method runs on a provider that was configured at
    start, the one of the account's domain or of the configured domain it is an alias of,
    and changes no other provider; an account that no configured domain serves gets an
    error, and neither a provider, nor the keys, nor the TPM are touched. *)
Theorem dispatch_configured {W A} account_id (fo : WCall W (Co * Sh) A) (fe : WCall W (Ce * Sh) A) err n st w :
  let '(a, st', w') := dispatch sh_alias sh_set_alias account_id fo fe err n st w in
  dom (mp_providers st') = dom (mp_providers st) ∧
  ((∃ d, d ∈ dom (mp_providers st) ∧ routes account_id st d ∧ only_changes d st st') ∨
   ((∀ d, d ∈ dom (mp_providers st) → ¬ routes account_id st d) ∧
    ∃ e, a = err e ∧ mp_providers st' = mp_providers st ∧ w' = w)).
Proof.
  unfold dispatch, routes. destruct (idp_get_domain_for_account _ _ _) as [domain|e] eqn:Hd.
  2: { split; [done|]. right. split; [|eauto]. intros d _ (? & [=] & _). }
  pose proof (find_provider_cases domain st) as Hf.
  destruct (find_provider _ _ _ _) as [[[d p]|e] st1] eqn:Ef; destruct Hf as [Hs Hf].
  - destruct Hf as [Hp Hr]. pose proof Hp as Hp1. rewrite <- Hs in Hp1.
    pose proof (on_provider_changes fo fe d p n st1 w Hp1) as Hc. pose proof (on_provider_dom fo fe d p n st1 w Hp1) as Hdom.
    destruct (on_provider _ _ _ _ _ _ _) as [[a st'] w']. unfold only_changes in *. simpl in *. rewrite Hs in *.
    split; [done|]. left. exists d. split; [by eapply elem_of_dom_2|]. eauto.
  - split; [by rewrite Hs|]. right. split; [|eauto]. intros d [p Hp]%elem_of_dom (? & [= <-] & Hr).
    unfold find_provider in Ef. destruct (mp_providers st !! domain) eqn:Hdom; [done|].
    destruct Hr as [->|[_ Hr]]; [congruence|].
    destruct (get_primary_domain_from_alias _ _ _) as [o al]. simpl in *. subst o. by rewrite Hp in Ef.
Qed.

End routing.

(** ** The state of the network *)

(** A provider that found the network up says so afterwards, whatever the others did. *)
Class OnlineLaws `{X : Ext} `{C : Crypto} {Cl Sh : Type} (OP : PartOps (Cl * Sh)) : Prop := {
  online_after_check now n c sh h c' sh' h' :
    part_check_online now n (c, sh) h = (true, (c', sh'), h') →
    ∀ n' sh'' k, part_get_cachestate None n' (c', sh'') k = (CacheState_Online, (c', sh''), k)
}.

Section online.
Context {X : Ext} {C : Crypto} {I : IniFile} {F : Federation} {T : TextOps} {BC : BlobCodec}.
Context {Sh Co Ce : Type} (sh_alias : Sh → AliasState) (sh_set_alias : AliasState → Sh → Sh).
Context {OP : PartOps (Co * Sh)} {EP : PartOps (Ce * Sh)} {OL : OnlineLaws OP} {EL : OnlineLaws EP}.

Notation State := (MultiState (Sh := Sh) (Co := Co) (Ce := Ce)).
Implicit Types st : State.

(** The provider says that it is online, and nothing changes by asking. *)
Definition says_online (p : Providers (Co := Co) (Ce := Ce)) : Prop :=
  match p with
  | Providers_Oidc c => ∀ n sh k, part_get_cachestate None n (c, sh) k = (CacheState_Online, (c, sh), k)
  | Providers_Himmelblau c => ∀ n sh k, part_get_cachestate None n (c, sh) k = (CacheState_Online, (c, sh), k)
  end.

Definition online_at st (d : string) : Prop := ∃ p, mp_providers st !! d = Some p ∧ says_online p.

Notation checking now := (on_result (λ b : bool, if b then None else Some false) (part_check_online now)).
Notation check now :=
  (on_provider (checking now)
     (checking now)).

Lemma check_one_online now d p n st h st' h' :
  check now d p n st h = (None, st', h') → online_at st' d.
Proof.
  unfold on_provider, on_result, online_at. destruct p as [c|c].
  all: destruct (part_check_online now n _ h) as [[[] [c' sh']] h1] eqn:Hc; intros [= <- <-].
  all: simpl; rewrite lookup_insert_eq; eexists; (split; [done|]); simpl; by eapply online_after_check.
Qed.

Lemma each_online now ds n st h st' h' :
  each (checking now)
    (checking now) true ds n st h
    = (true, st', h') →
  (∀ d, online_at st d ∨ d ∈ ds → is_Some (mp_providers st !! d) → online_at st' d) ∧
  dom (mp_providers st') = dom (mp_providers st).
Proof.
  revert st h. induction ds as [|d0 ds IH]; intros st h; simpl.
  { intros [= <- <-]. split; [|done]. set_solver. }
  destruct (mp_providers st !! d0) as [p|] eqn:Hp.
  2: { intros He. destruct (IH _ _ He) as [Ho Hd]. split; [|done]. intros d Hin Hs. apply Ho; [|done].
       destruct Hin as [|[->|]%elem_of_cons]; [by left| |by right]. by rewrite Hp in Hs; destruct Hs. }
  pose proof (on_provider_changes (checking now)
    (checking now) d0 p n st h Hp) as [Hne He].
  destruct (check now d0 p n st h) as [[[b|] st1] h1] eqn:Hc; simpl in Hne, He.
  { intros [= -> <- <-]. revert Hc. unfold on_provider, on_result.
    destruct p; destruct (part_check_online _ _ _ _) as [[[] []]]; discriminate. }
  intros Hr. destruct (IH _ _ Hr) as [Ho Hd]. pose proof (check_one_online _ _ _ _ _ _ _ _ Hc) as H0.
  assert (is_Some (mp_providers st1 !! d0)) as Hs0 by (destruct H0 as (? & ? & _); eauto).
  split.
  - intros d Hin Hs. destruct (decide (d = d0)) as [->|Hn]; [by apply Ho; [left|]|].
    apply Ho; [|by rewrite Hne]. destruct Hin as [(q & Hq & Hon)|[->|]%elem_of_cons]; [|done|by right].
    left. exists q. by rewrite Hne.
  - rewrite Hd. pose proof (on_provider_dom (checking now) (checking now) d0 p n st h Hp) as H1. by rewrite Hc in H1.
Qed.

Lemma each_cachestate ds n st k :
  (∀ d, d ∈ ds → online_at st d) →
  each (on_result (λ s, match s with CacheState_Online => None | s => Some s end) (part_get_cachestate None))
    (on_result (λ s, match s with CacheState_Online => None | s => Some s end) (part_get_cachestate None))
    CacheState_Online ds n st k = (CacheState_Online, st, k).
Proof.
  induction ds as [|d ds IH]; [done|]. intros Hall. simpl.
  destruct (Hall d ltac:(set_solver)) as (p & Hp & Hon). rewrite Hp.
  assert (<[d:=p]> (mp_providers st) = mp_providers st) as Hi by (by apply insert_id).
  unfold on_provider at 1, on_result. destruct st as [ps sh]; simpl in *.
  destruct p; simpl in Hon; rewrite Hon, Hi; apply IH; set_solver.
Qed.

(** The provider is online only when every domain is: once [check_online] of the
    several domains has answered yes, each of them reports that it is online, and so does
    the whole. *)
Theorem multi_online_all now n st h st' h' :
  multi_check_online now n st h = (true, st', h') →
  (∀ d, d ∈ dom (mp_providers st) → online_at st' d) ∧
  ∀ n' k, multi_get_cachestate sh_alias sh_set_alias None n' st' k = (CacheState_Online, st', k).
Proof.
  intros Hr. unfold multi_check_online, each_provider in Hr.
  destruct (each_online _ _ _ _ _ _ _ Hr) as [Ho Hd].
  assert (∀ d, d ∈ dom (mp_providers st) → online_at st' d) as Hall.
  { intros d Hin. pose proof Hin as [p Hp]%elem_of_dom. apply Ho; [right|by eauto].
    apply list_elem_of_fmap. exists (d, p). split; [done|]. by apply elem_of_map_to_list. }
  split; [done|]. intros n' k. apply each_cachestate. intros d [[d' p] [-> Hin]]%list_elem_of_fmap.
  apply Hall. rewrite <- Hd. apply elem_of_map_to_list in Hin. by apply elem_of_dom_2 in Hin.
Qed.

End online.

(** ** The Entra ID provider keeps the laws *)

Section laws.
Context {X : Ext} {C : Crypto} {HO : HelloOps} {E : Env} {HE : HelloEnv} {UNI : Unistring} {IH : Inhabited Hsm}.
Context {INI : IniFile} {G : GeneratedConfig} {PC : PamConfig} {EC : EntraConfig} {H : Host} {F : Federation} {T : TextOps}.
Context {U : Type} {EE : EntraEnv U} {EF : EntraFlow U} {EL : EntraLogin U}.

Lemma check_online_up {R} domain t (K : R → EState U → Prop) s :
  ewp (entra_check_online domain t) (λ b s', b = true → state (h_client (e_hello s')) = CacheState_Online) K s.
Proof.
  unfold entra_check_online. apply ewp_bind. unfold ewp at 1. simpl.
  destruct (state (h_client (e_hello s))) as [| |at_time] eqn:Hs; [by apply ewp_ret..|].
  destruct (_ <=? _); [apply probe_online_up|by apply ewp_ret].
Qed.

#[export] Instance entra_online_laws : OnlineLaws (Sh := Shared) entra_part.
Proof.
  split. intros now n c sh h c' sh' h'. simpl. unfold em_call.
  destruct (run_em _ _) as [o s'] eqn:Hr. destruct o as [[b|e]|]; simpl; [|done..].
  intros [= -> <- <- <-] n' sh'' k. simpl.
  pose proof (ewp_run _ _ _ _ _ (check_online_up _ _ _ _) Hr eq_refl) as ->. done.
Qed.

(** A host without an OIDC provider. *)
Definition no_oidc : PartOps (Empty_set * Shared).
Proof. split; intros; intros ? []; by destruct e. Defined.

#[export] Instance no_oidc_online : OnlineLaws no_oidc.
Proof. by split; intros ?? []. Qed.

End laws.

(** ** A host with one domain *)

#[local] Existing Instance model_unistring.

Section host.

#[local] Instance host_blobs : BlobCodec := {| blobs_to_vec _ := None; blobs_from_slice _ := None |}.
#[local] Existing Instance no_oidc.
#[local] Instance host_entra : PartOps (Part (U := Directory)) := entra_part.

Definition host_state : MultiState (Sh := Shared) (Co := Empty_set) (Ce := EntraProvider (U := Directory)) := {|
  mp_providers := {[ "example.com" := Providers_Himmelblau (entra_provider_new "example.com" sample_directory 0) ]};
  mp_shared := {| sh_idmap := Idmap_new; sh_config := sample_aliases |}
|}.

Notation host_check := (multi_check_online 5 0%nat host_state sample_tpm).

Lemma multi_online_all_witness :
  host_check.1.1 = true ∧ online_at host_check.1.2 "example.com".
Proof.
  split; [reflexivity|]. destruct host_check as [[b st'] h'] eqn:Hc.
  assert (b = true) as -> by (transitivity host_check.1.1; [rewrite Hc; reflexivity|reflexivity]).
  apply (multi_online_all sh_config set_sh_config 5 0%nat host_state sample_tpm st' h' Hc).
  apply elem_of_dom. exists (Providers_Himmelblau (entra_provider_new "example.com" sample_directory 0)). reflexivity.
Defined.

Definition alice_user : UserToken := {|
  t_name := alice_upn; t_spn := alice_upn; t_uuid := 5%N; t_real_gidnumber := None; t_gidnumber := 7;
  t_displayname := "Alice"; t_shell := None; t_groups := []; t_tenant_id := None; t_valid := true
|}.

End host.

(** ** The tenants of a running daemon *)

Section tenants.
Context {X : Ext} {C : Crypto} {HO : HelloOps} {E : Env} {HE : HelloEnv} {INH : Inhabited Hsm} {BC : BlobCodec}.
Context {INI : IniFile} {G : GeneratedConfig} {PC : PamConfig} {F : Federation} {T : TextOps}.
Context {U : Type} {EE : EntraEnv U} {ES : EntraStart U} {Co : Type}.
Context {OP : PartOps (Co * Shared)} {EP : PartOps (EntraProvider (U := U) * Shared)}.

Notation State := (MultiState (Sh := Shared) (Co := Co) (Ce := EntraProvider (U := U))).
Implicit Types (st : State) (old : option UserToken) (tok : UserToken) (mk : MachineKey) (ch : AuthCredHandler).

(** A method of the provider was called, on any arguments and with any keys and TPM. *)
Inductive multi_step : State → State → Prop :=
| step_break_glass ttl n st : multi_step st (multi_offline_break_glass ttl n st).2
| step_check_online now n st h : multi_step st (multi_check_online now n st h).1.2
| step_access id_ scopes old cid uri cnf mk n st k h :
    multi_step st (multi_user_access sh_config set_sh_config id_ scopes old cid uri cnf mk n st k h).1.1.2
| step_tgts id_ old mk n st k h : multi_step st (multi_user_tgts sh_config set_sh_config id_ old mk n st k h).1.1.2
| step_cookie id_ old nonce mk n st k h :
    multi_step st (multi_user_prt_cookie sh_config set_sh_config id_ old nonce mk n st k h).1.1.2
| step_change a t new mk n st k h :
    multi_step st (multi_change_auth_token sh_config set_sh_config a t new mk n st k h).1.1.2
| step_get id_ old mk n st k h : multi_step st (multi_user_get sh_config set_sh_config id_ old mk n st k h).1.1.2
| step_online_init a old svc nhp fr mk n st k h :
    multi_step st (multi_online_auth_init sh_config set_sh_config a old svc nhp fr mk n st k h).1.1.2
| step_online_step a tok svc nhp ch req mk n st k h :
    multi_step st (multi_online_auth_step sh_config set_sh_config a tok svc nhp ch req mk n st k h).1.1.2
| step_offline_init a old nhp n st k :
    multi_step st (multi_offline_auth_init sh_config set_sh_config a old nhp n st k).1.2
| step_offline_step a tok ch req mk b n st k h :
    multi_step st (multi_offline_auth_step sh_config set_sh_config a tok ch req mk b n st k h).1.1.2
| step_cachestate a n st k : multi_step st (multi_get_cachestate sh_config set_sh_config a n st k).1.2
| step_export n st : multi_step st (multi_export_broker_prts n st).2
| step_import data n st : multi_step st (multi_import_broker_prts data n st).2.

Lemma to_full_dom {A} (f : WCall (Keys * Hsm) State A) n st k h :
  (∀ w, dom (mp_providers (f n st w).1.2) = dom (mp_providers st)) →
  dom (mp_providers (to_full f n st k h).1.1.2) = dom (mp_providers st).
Proof. intros Hf. specialize (Hf (k, h)). unfold to_full. by destruct (f n st (k, h)) as [[]]. Qed.

Lemma insert_dom (ps : gmap string (Providers (Co := Co) (Ce := EntraProvider (U := U)))) d p q :
  ps !! d = Some p → dom (<[d:=q]> ps) = dom ps.
Proof. intros Hd. rewrite dom_insert_L. apply elem_of_dom_2 in Hd. set_solver. Qed.

Lemma export_each_dom ds n st all : dom (mp_providers (export_each ds n st all).2) = dom (mp_providers st).
Proof.
  revert st all. induction ds as [|d ds IH]; intros st all; [done|]. simpl.
  destruct (mp_providers st !! d) as [[c|c]|] eqn:Hd; [apply IH| |apply IH].
  destruct (part_export_broker_prts _ _) as [data [c' sh']].
  destruct data; [rewrite IH|]; by eapply insert_dom.
Qed.

Lemma import_each_dom blobs n st : dom (mp_providers (import_each blobs n st)) = dom (mp_providers st).
Proof.
  revert st. induction blobs as [|[d blob] blobs IH]; intros st; [done|]. simpl.
  destruct (mp_providers st !! d) as [[c|c]|] eqn:Hd; [apply IH| |apply IH].
  destruct (part_import_broker_prts _ _ _) as [? [c' sh']]. rewrite IH. by eapply insert_dom.
Qed.

Lemma multi_step_dom st st' : multi_step st st' → dom (mp_providers st') = dom (mp_providers st).
Proof.
  intros []; try (apply to_full_dom; intros ?); try apply dispatch_dom; try apply each_dom.
  - unfold multi_offline_break_glass, to_plain, each_provider.
    match goal with |- context [each ?a ?b ?c ?d ?e ?f ?g] => pose proof (each_dom a b c d e f g) as Hd;
      destruct (each a b c d e f g) as [[]] end. done.
  - destruct a; [apply dispatch_dom|apply each_dom].
  - unfold multi_export_broker_prts. pose proof (export_each_dom (map_to_list (mp_providers st0)).*1 n st0 ∅) as Hd.
    by destruct (export_each _ _ _ _).
  - unfold multi_import_broker_prts. destruct (blobs_from_slice _); [apply import_each_dom|done].
Qed.

Lemma add_providers_dom cfg keystore domains n ps ps' :
  add_providers (U := U) (Co := Co) cfg keystore domains n ps = Some ps' →
  dom ps' = dom ps ∪ list_to_set (List.filter (λ d, bool_decide (is_Some (graph_for cfg d))) domains).
Proof.
  revert n ps. induction domains as [|d ds IH]; intros n ps; cbn [add_providers List.filter];
    [intros [= <-]; set_solver|].
  destruct (graph_for cfg d) as [g|] eqn:Hg.
  - rewrite bool_decide_true by eauto. destruct (broker_client_new _ _ _) as [app|]; [|done].
    match goal with |- context [load_device_keys ?a ?b ?c ?u] => destruct (load_device_keys a b c u) as [u0 n1] end.
    intros Hr. rewrite (IH _ _ Hr), dom_insert_L. set_solver.
  - rewrite bool_decide_false by (by intros []). apply IH.
Qed.

(** The domains a configuration may serve. *)
Definition may_serve (cfg : HimmelblauConfig) : gset string :=
  match get_oidc_issuer_url cfg url_ok with
  | Some _ => {["oidc"]}
  | None => list_to_set (List.filter (λ d, bool_decide (is_Some (graph_for (U := U) cfg d))) (get_configured_domains cfg))
  end.

(** The tenants are fixed when the daemon starts: the providers made by [new] are those of
    the configured domains whose graph client can be made (or the one OIDC provider),
    there is at least one, and after any sequence of calls of the provider's methods,
    on whatever accounts, they are the same. *)
Theorem tenants_fixed (oidc_new : HimmelblauConfig → option Co) files filename keystore n st st' :
  multi_new oidc_new files filename keystore n = Some st → rtc multi_step st st' →
  dom (mp_providers st') = may_serve (as_config (sh_config (mp_shared st))) ∧ dom (mp_providers st') ≠ ∅.
Proof.
  intros Hn Hs. assert (dom (mp_providers st') = dom (mp_providers st)) as ->.
  { clear Hn. induction Hs as [|st st1 st2 H1 _ IHs]; [done|]. rewrite IHs. by apply multi_step_dom. }
  unfold multi_new in Hn. destruct (config_new _ _) as [cfg|]; [|done].
  destruct (match get_oidc_issuer_url cfg url_ok with Some _ => _ | None => _ end) as [ps|] eqn:Hp; [|done].
  simpl in Hn. case_bool_decide as He; [done|]. injection Hn as <-. simpl.
  split; [|by intros Hd%dom_empty_inv_L]. unfold may_serve.
  destruct (get_oidc_issuer_url cfg url_ok).
  - destruct (oidc_new cfg); [|done]. injection Hp as <-. apply dom_singleton_L.
  - rewrite (add_providers_dom _ _ _ _ _ _ Hp). set_solver.
Qed.

End tenants.

(** The directory of [example.org] cannot be reached at the start. *)
#[local] Instance host_start : EntraStart Directory := {|
  Graph := Directory;
  BrokerClientApplication := unit;
  graph_new _ domain _ _ _ _ _ := if String.eqb domain "example.org" then None else Some sample_directory;
  broker_client_new _ _ _ := Some tt;
  clients _ g := g;
  set_transport_key _ d := d;
  set_cert_key _ d := d
|}.

Definition conf_files (f : string) : option string :=
  if String.eqb f "himmelblau.conf" then Some "example.com, example.org, example.net" else None.

Notation started := (multi_new (U := Directory) (Co := Empty_set) (λ _, None) conf_files "himmelblau.conf" ∅ 0%nat).
#[local] Instance tenant_blobs : BlobCodec := {| blobs_to_vec _ := None; blobs_from_slice _ := None |}.
#[local] Instance tenant_oidc : PartOps (Empty_set * Shared) := no_oidc.
#[local] Instance tenant_entra : PartOps (Part (U := Directory)) := entra_part.

Lemma started_domains :
  match started with Some st => bool_decide (dom (mp_providers st) = {["example.com"; "example.net"]}) | None => false end = true.
Proof. reflexivity. Qed.

(** An account of a tenant that is not configured, and one of a tenant that is. *)
Lemma tenants_fixed_witness :
  ∃ st, started = Some st ∧
    let st1 := (multi_user_get sh_config set_sh_config (Id_Name "eve@evil.example") None sample_mk 0%nat st ∅ sample_tpm).1.1.2 in
    let st2 := (multi_user_get sh_config set_sh_config (Id_Name alice_upn) None sample_mk 1%nat st1 ∅ sample_tpm).1.1.2 in
    dom (mp_providers st2) = {["example.com"; "example.net"]}.
Proof.
  pose proof started_domains as Hd. destruct started as [st|] eqn:Hs; [|discriminate Hd]. apply bool_decide_eq_true in Hd.
  exists st. split; [reflexivity|]. intros st1 st2.
  assert (rtc multi_step st st2) as Hr.
  { eapply rtc_l; [exact (step_get (Id_Name "eve@evil.example") None sample_mk 0%nat st ∅ sample_tpm)|].
    apply rtc_once. exact (step_get (Id_Name alice_upn) None sample_mk 1%nat st1 ∅ sample_tpm). }
  rewrite (proj1 (tenants_fixed (λ _, None) conf_files "himmelblau.conf" ∅ 0%nat st st2 Hs Hr)).
  rewrite <- (proj1 (tenants_fixed (λ _, None) conf_files "himmelblau.conf" ∅ 0%nat st st Hs (rtc_refl _ _))). exact Hd.
Defined.
