(* ===== verification/Oidc.v ===== *)
(** * The OIDC provider: the orchestrator and the client application

    [src/common/src/idprovider/openidconnect.rs]: the protocol spoken with the orchestrator
    of browser logins (its messages, its codec, the mapping between its inputs and the
    prompts of PAM), the device flow, and [OidcApplication], the client of the OpenID
    provider. A computation is one of [Entra]'s monad [EM] over the world [OidcWorld]: the
    client, once discovered, and the network behind the class [OidcEnv]. *)
From stdpp Require Import base gmap strings list fin_maps.
From Stdlib Require Import ZArith Lia Ascii.
From S2P Require Import Prelude Proto Interface Db Runtime Caches Idmap UserMap Config Hello Pam Entra.

Open Scope rust_scope.

(** ** Messages of the orchestrator *)

Inductive OrchestratorInputType := OrchText | OrchPassword | OrchOtp | OrchConfirmation.

#[export] Instance OrchestratorInputType_eq_dec : EqDecision OrchestratorInputType.
Proof. solve_decision. Defined.

Record OrchestratorProvidedInput := { oi_name : string; oi_value : string }.

Record OrchestratorRequiredInput := {
  ri_name : string; ri_input_type : OrchestratorInputType; ri_prompt : option string; ri_optional : bool
}.

Record OrchestratorTokenBundle := {
  tb_access_token : option string; tb_id_token : option string;
  tb_refresh_token : option string; tb_authorization_code : option string
}.

Inductive OrchestratorCommand :=
| OrchestratorCommand_StartSession (session_id : string)
    (provider username issuer_url dag_auth_url dag_user_code : option string)
| OrchestratorCommand_NextStep (session_id : string) (provided_inputs : list OrchestratorProvidedInput).

Inductive OrchestratorResponse :=
| OrchestratorResponse_NextStep (session_id : string) (required_inputs : list OrchestratorRequiredInput)
    (message : option string)
| OrchestratorResponse_SessionComplete (session_id : string) (success : bool) (tokens : OrchestratorTokenBundle)
| OrchestratorResponse_SessionError (session_id error : string)
| OrchestratorResponse_Error (error : string)
| OrchestratorResponse_Ack (session_id : option string) (message : string)
| OrchestratorResponse_SessionStatus (session_id provider state : string) (detail : option string)
| OrchestratorResponse_Pong (protocol_version : string).

Record OrchestratorFlowState := {
  fs_session_id : string; fs_required_inputs : list OrchestratorRequiredInput; fs_dag_json : option string
}.

Inductive OidcMfaExtraData :=
| OidcMfaExtraData_DeviceFlow (dag_json : string)
| OidcMfaExtraData_Orchestrator (state : OrchestratorFlowState).

Record OidcOrchestratorConfig := {
  oc_enabled : bool; oc_socket_path : string; oc_provider : option string;
  oc_timeout : Z; oc_poll_interval_secs : Z
}.

Definition orchestrator_input_type_label (t : OrchestratorInputType) : string :=
  match t with
  | OrchText => "text" | OrchPassword => "password" | OrchOtp => "otp" | OrchConfirmation => "confirmation"
  end.

(** The inputs as they are logged: names and kinds, no values. *)
Definition orchestrator_required_inputs_summary (required_inputs : list OrchestratorRequiredInput) : list string :=
  (λ input, ri_name input +:+ ":" +:+ orchestrator_input_type_label (ri_input_type input) +:+ ":"
              +:+ (if ri_optional input then "optional" else "required")) <$> required_inputs.

Definition orchestrator_provided_input_names (provided_inputs : list OrchestratorProvidedInput) : list string :=
  oi_name <$> provided_inputs.

Definition pam_auth_request_kind (r : PamAuthRequest) : string :=
  match r with
  | PamAuthRequest_Password _ => "password"
  | PamAuthRequest_MFACode _ => "mfa_code"
  | PamAuthRequest_MFAPoll _ => "mfa_poll"
  | PamAuthRequest_Pin _ => "pin"
  | PamAuthRequest_SetupPin _ => "setup_pin"
  | PamAuthRequest_HelloTOTP _ => "hello_totp"
  | PamAuthRequest_Fido _ => "fido"
  | PamAuthRequest_FidoUnavailable => "fido_unavailable"
  end.

Definition auth_request_kind (r : AuthRequest) : string :=
  match r with
  | AuthRequest_Password => "password"
  | AuthRequest_MFACode _ => "mfa_code"
  | AuthRequest_HelloTOTP _ => "hello_totp"
  | AuthRequest_MFAPoll _ _ => "mfa_poll"
  | AuthRequest_MFAPollWait => "mfa_poll_wait"
  | AuthRequest_SetupPin _ => "setup_pin"
  | AuthRequest_Pin => "pin"
  | AuthRequest_Fido _ _ _ _ => "fido"
  | AuthRequest_ChangePassword _ => "change_password"
  | AuthRequest_InitDenied _ => "init_denied"
  end.

(** ** Prompts and inputs *)

Definition is_input (kinds : list OrchestratorInputType) (input : OrchestratorRequiredInput) : bool :=
  bool_decide (ri_input_type input ∈ kinds).

(** What the user is asked: a password first, then a code or a text, then a confirmation;
    without inputs he waits. *)
Definition auth_request_from_orchestrator_inputs (required_inputs : list OrchestratorRequiredInput)
  (poll_interval_secs : Z) : AuthRequest :=
  if existsb (is_input [OrchPassword]) required_inputs then AuthRequest_Password
  else
    match List.find (is_input [OrchOtp; OrchText]) required_inputs with
    | Some input => AuthRequest_MFACode (default ("Enter value for " +:+ ri_name input) (ri_prompt input))
    | None =>
        match List.find (is_input [OrchConfirmation]) required_inputs with
        | Some input =>
            AuthRequest_MFAPoll
              (default "Approve sign-in in your authenticator app, then wait..." (ri_prompt input)) poll_interval_secs
        | None => AuthRequest_MFAPoll "Waiting for browser authentication to complete..." poll_interval_secs
        end
    end.

(** The input an answer is for: the first of its kind, or the only one. *)
Definition input_target (kinds : list OrchestratorInputType) (required_inputs : list OrchestratorRequiredInput)
  : option OrchestratorRequiredInput :=
  match List.find (is_input kinds) required_inputs with
  | Some input => Some input
  | None => match required_inputs with [input] => Some input | _ => None end
  end.

Definition provide (kinds : list OrchestratorInputType) (required_inputs : list OrchestratorRequiredInput)
  (cred : string) : result (list OrchestratorProvidedInput) IdpError :=
  match input_target kinds required_inputs with
  | Some target => Ok [{| oi_name := ri_name target; oi_value := cred |}]
  | None => Err IdpError_BadRequest
  end.

Definition orchestrator_inputs_from_pam_request (pam_next_req : PamAuthRequest)
  (required_inputs : list OrchestratorRequiredInput) : result (list OrchestratorProvidedInput) IdpError :=
  match pam_next_req with
  | PamAuthRequest_MFAPoll _ =>
      Ok ((λ input, {| oi_name := ri_name input; oi_value := "true" |}) <$>
            List.filter (is_input [OrchConfirmation]) required_inputs)
  | PamAuthRequest_Password cred => provide [OrchPassword] required_inputs cred
  | PamAuthRequest_MFACode cred => provide [OrchOtp; OrchText] required_inputs cred
  | _ => Err IdpError_BadRequest
  end.

(** ** Data of the crates [openidconnect] and [oauth2] *)

(** [DeviceAuthorizationResponse]; durations in seconds. *)
Record DeviceAuth := {
  da_device_code : string; da_user_code : string; da_verification_uri : string;
  da_verification_uri_complete : option string; da_expires_in : Z; da_interval : Z
}.

Record OidcTokenResponse := {
  or_access_token : string; or_refresh_token : option string; or_id_token : option string;
  or_scopes : option (list string); or_expires_in : option Z; or_token_type : string
}.

Record UserInfo := {
  ui_preferred_username : option string; ui_email : option string; ui_subject : string; ui_name : option string
}.

(** The variants of [MsalError] that this provider makes. *)
Inductive OidcError :=
| OidcError_InvalidParse (text : string)
| OidcError_RequestFailed (text : string)
| OidcError_GeneralFailure (text : string)
| OidcError_MFAPollContinue.

Record OidcIdTokenPayload := {
  ip_name : option string; ip_oid : option string; ip_preferred_username : option string;
  ip_puid : option string; ip_tenant_region_scope : option string; ip_tid : option string
}.

Record IdToken := {
  it_name : string; it_oid : string; it_preferred_username : option string; it_puid : option string;
  it_tenant_region_scope : option string; it_tid : string; it_raw : option string
}.

(** The fields of the [UnixUserToken] made from a token response. *)
Record UnixTokenParts := {
  up_token_type : string; up_scope : option string; up_expires_in : Z; up_ext_expires_in : Z;
  up_access_token : option string; up_refresh_token : string; up_id_token : IdToken
}.

(** What a POST of the HTTP client gives: an error before the status or in the body, with
    its text, or whether the status is a success, and the body. *)
Inductive PostOutcome :=
| Post_SendFailed (e : string)
| Post_BodyFailed (e : string)
| Post_Done (success : bool) (body : bytes).

(** A request for a device code that failed: over HTTP, with the text, or otherwise. *)
Inductive DeviceCodeError := DeviceCode_Request (resp : string) | DeviceCode_Other.

(** An exchange over the socket of the orchestrator: whether the command was sent in time,
    and what was received until the end of the stream, an error or the end of the time. *)
Record OrchIo := { io_sent : bool; io_chunks : list bytes }.

(** The parser of serde_json, whose error tells an input that is cut off. *)
Inductive ParseError := Parse_Eof | Parse_Invalid (text : string).

(** Getters of [config_gen.rs]. *)
Class OidcConfig `{I : IniFile} : Type := {
  get_orchestrator_enabled : Ini → bool;
  get_orchestrator_socket : Ini → string;
  get_orchestrator_provider : Ini → option string;
  get_orchestrator_timeout_secs : Ini → Z;
  get_orchestrator_poll_secs : Ini → Z
}.

(** The crates the provider uses: [uuid], [base64], [serde_json], [reqwest],
    [openidconnect], [himmelblau], with the network in [N]. *)
Class OidcEnv `{X : Ext} (N : Type) : Type := {
  uuid_lit : string → Uuid;
  uuid_v5 : Uuid → string → Uuid;
  uuid_v4 : N → Uuid * N;
  url_safe_no_pad_decode : string → result bytes string;
  utf8_error : bytes → string;
  id_payload_from_str : string → result OidcIdTokenPayload string;
  unix_token_new : UnixTokenParts → UnixUserToken;
  extra_from_str : string → option OidcMfaExtraData;
  extra_to_string : OidcMfaExtraData → option string;
  dag_from_str : string → option DeviceAuth;
  dag_to_string : DeviceAuth → option string;
  orch_from_slice : bytes → result OrchestratorResponse ParseError;
  orch_to_vec : OrchestratorCommand → result bytes string;
  orch_connect : string → Z → N → bool * N;
  orch_exchange : Z → bytes → N → OrchIo * N;
  token_from_slice : bytes → result OidcTokenResponse string;
  oauth_error_from_slice : bytes → result (string * option string) string;
  oidc_error_display : OidcError → string;
  oidc_flow_new : string → option Z → option Z → MFAAuthContinue;
  oidc_flow_msg : MFAAuthContinue → string;
  oidc_flow_max_poll_attempts : MFAAuthContinue → option Z;
  oidc_flow_polling_interval : MFAAuthContinue → option Z;
  oidc_flow_set_polling_interval : option Z → MFAAuthContinue → MFAAuthContinue;
  HttpClient : Type;
  DeviceProviderMetadata : Type;
  DagClient : Type;
  issuer_url_ok : string → bool;
  http_client_build : Z → Z → N → option HttpClient * N;
  discover : string → HttpClient → N → option DeviceProviderMetadata * N;
  metadata_authorization_endpoint : DeviceProviderMetadata → string;
  metadata_issuer : DeviceProviderMetadata → string;
  metadata_device_endpoint : DeviceProviderMetadata → string;
  client_from_metadata : DeviceProviderMetadata → string → string → DagClient;
  client_token_uri : DagClient → option string;
  dag_client_id : DagClient → string;
  exchange_device_code : DagClient → list string → HttpClient → N → result DeviceAuth DeviceCodeError * N;
  http_post : HttpClient → string → list (string * string) → N → PostOutcome * N;
  client_user_info : DagClient → string → HttpClient → N → option UserInfo * N;
  oidc_probe_client : Z → N → bool * N;
  oidc_http_get : string → N → option bool * N;
  oidc_id_cache_faults : OpenFaults;
  oidc_id_cache_file : N → DbFile StaticTables
}.

Definition MAX_ORCHESTRATOR_RESPONSE_BYTES : Z := 384 * 1024.

Definition SLASH : ascii := "/"%char.
Definition DOT_CHAR : ascii := "."%char.

(** [str::trim_end_matches('/')] *)
Fixpoint trim_end_slash (s : string) : string :=
  match s with
  | EmptyString => EmptyString
  | String c s =>
      match trim_end_slash s with
      | EmptyString => if Ascii.eqb c SLASH then EmptyString else String c EmptyString
      | t => String c t
      end
  end.

Section oidc.
Context {X : Ext} {C : Crypto} {HO : HelloOps} {E : Env} {HE : HelloEnv} {UNI : Unistring}.
Context {I : IniFile} {G : GeneratedConfig} {PC : PamConfig} {OC : OidcConfig} {H : Host} {F : Federation} {T : TextOps}.
Context {N : Type} {OE : OidcEnv N}.

(** ** The codec *)

(** [Decoder::decode]: the message, if the buffer holds one, and the buffer after it. *)
Definition orchestrator_decode (src : bytes) : result (option OrchestratorResponse) string * bytes :=
  if MAX_ORCHESTRATOR_RESPONSE_BYTES <? Z.of_nat (length src) then
    (Err ("orchestrator response exceeds " +:+ uint_to_string MAX_ORCHESTRATOR_RESPONSE_BYTES +:+ " bytes (got "
            +:+ uint_to_string (Z.of_nat (length src)) +:+ ")"), [])
  else
    match orch_from_slice src with
    | Ok message => (Ok (Some message), [])
    | Err Parse_Eof => (Ok None, src)
    | Err (Parse_Invalid err) => (Err ("failed to decode orchestrator response: " +:+ err), [])
    end.

(** [Encoder::encode] *)
Definition orchestrator_encode (msg : OrchestratorCommand) (dst : bytes) : result bytes string :=
  match orch_to_vec msg with
  | Ok data => Ok (dst ++ data)
  | Err err => Err ("failed encoding orchestrator command: " +:+ err)
  end.

(** [Framed::next]: read, then decode what is there, until a message, an error, or the end
    of what arrives. *)
Fixpoint orchestrator_next (chunks : list bytes) (buf : bytes) : option OrchestratorResponse :=
  match chunks with
  | [] => None
  | chunk :: chunks =>
      match orchestrator_decode (buf ++ chunk) with
      | (Ok (Some message), _) => Some message
      | (Ok None, buf) => orchestrator_next chunks buf
      | (Err _, _) => None
      end
  end.

(** ** State *)

(** [OidcDelayedInit], and the world of a call: the client of [OidcApplication] and the
    network. *)
Record OidcDelayedInit := {
  od_client : DagClient; od_http_client : HttpClient;
  od_authorization_endpoint : string; od_openid_configuration_url : string
}.

Record OidcWorld := { ow_client : option OidcDelayedInit; ow_net : N }.

Definition onet {R A} (f : N → A * N) : EM OidcWorld R A :=
  net (λ w, let '(a, n) := f (ow_net w) in (a, {| ow_client := ow_client w; ow_net := n |})).

Definition get_oidc_client {R} : EM OidcWorld R (option OidcDelayedInit) := look ow_client.

Definition put_oidc_client {R} (c : OidcDelayedInit) : EM OidcWorld R unit :=
  net (λ w, (tt, {| ow_client := Some c; ow_net := ow_net w |})).

(** ** The orchestrator *)

(** [orchestrator_send_command]; every failure is [BadRequest]. *)
Definition orchestrator_send_command {R} (cfg : OidcOrchestratorConfig) (command : OrchestratorCommand)
  : EM OidcWorld R (result OrchestratorResponse IdpError) :=
  connected ← onet (orch_connect (oc_socket_path cfg) (oc_timeout cfg));
  if connected : bool then
    match orchestrator_encode command [] with
    | Err _ => mret (Err IdpError_BadRequest)
    | Ok data =>
        io ← onet (orch_exchange (oc_timeout cfg) data);
        mret (if io_sent io then ok_or (orchestrator_next (io_chunks io) []) IdpError_BadRequest
              else Err IdpError_BadRequest)
    end
  else mret (Err IdpError_BadRequest).

(** A session that does not ask for a next step is not started. *)
Definition orchestrator_try_start {R} (cfg : OidcOrchestratorConfig) (account_id : string)
  (issuer_url dag_auth_url dag_user_code dag_json : option string) : EM OidcWorld R (option OidcMfaExtraData) :=
  session_id ← onet uuid_v4;
  response ← orchestrator_send_command cfg
    (OrchestratorCommand_StartSession (hyphenated session_id) (oc_provider cfg) (Some account_id) issuer_url
       dag_auth_url dag_user_code);
  mret (match response with
        | Ok (OrchestratorResponse_NextStep session_id required_inputs _) =>
            Some (OidcMfaExtraData_Orchestrator
              {| fs_session_id := session_id; fs_required_inputs := required_inputs; fs_dag_json := dag_json |})
        | _ => None
        end).

Definition orchestrator_continue {R} (cfg : OidcOrchestratorConfig) (state : OrchestratorFlowState)
  (provided_inputs : list OrchestratorProvidedInput) : EM OidcWorld R (result OrchestratorResponse IdpError) :=
  orchestrator_send_command cfg (OrchestratorCommand_NextStep (fs_session_id state) provided_inputs).

(** State of the form used before there was an orchestrator is that of a device flow. *)
Definition parse_oidc_mfa_extra_data (raw : string) : OidcMfaExtraData :=
  default (OidcMfaExtraData_DeviceFlow raw) (extra_from_str raw).

Definition serialize_oidc_mfa_extra_data {R} (extra : OidcMfaExtraData) : EM OidcWorld R string :=
  e_some IdpError_BadRequest (extra_to_string extra).

(** ** The device flow *)

(** [as_secs() as u32] *)
Definition secs_u32 (d : Z) : Z := wrap32 d.

Definition device_flow_msg (details : DeviceAuth) : string :=
  match da_verification_uri_complete details with
  | Some complete =>
      "Scan the QR code to continue sign-in, or open this link on another device:" +:+ NL +:+ complete +:+ NL
      +:+ "If you cannot scan, visit:" +:+ NL +:+ da_verification_uri details +:+ NL
      +:+ "And enter the code:" +:+ NL +:+ da_user_code details
  | None =>
      "Using a browser on another device, visit:" +:+ NL +:+ da_verification_uri details +:+ NL
      +:+ "And enter the code:" +:+ NL +:+ da_user_code details
  end.

Definition max_poll_attempts_of (details : DeviceAuth) : Z :=
  let polling_interval := secs_u32 (da_interval details) in
  if polling_interval =? 0 then 0 else secs_u32 (da_expires_in details) / polling_interval.

(** [polling_interval * 1000] wraps in a release build. *)
Definition polling_millis (details : DeviceAuth) : Z := wrap32 (secs_u32 (da_interval details) * 1000).

Definition mfa_from_oidc_device {R} (details : DeviceAuth) : EM OidcWorld R (MFAAuthContinue * string) :=
  dag_json ← e_some IdpError_BadRequest (dag_to_string details);
  mret (oidc_flow_new (device_flow_msg details) (Some (max_poll_attempts_of details)) (Some (polling_millis details)),
        dag_json).

(** ** Tokens *)

(** The payload of an id token: what is between its first two dots. *)
Definition id_token_payload (raw : string) : result OidcIdTokenPayload OidcError :=
  match (split_once DOT_CHAR raw).2 with
  | None => Err (OidcError_InvalidParse "Failed parsing id_token payload")
  | Some rest =>
      match url_safe_no_pad_decode (split_once DOT_CHAR rest).1 with
      | Err e => Err (OidcError_InvalidParse ("Failed parsing id_token: " +:+ e))
      | Ok b =>
          match string_from_utf8 b with
          | None => Err (OidcError_InvalidParse ("Failed parsing id_token: " +:+ utf8_error b))
          | Some payload_str =>
              result_map_err (λ e, OidcError_InvalidParse ("Failed parsing id_token from json: " +:+ e))
                (id_payload_from_str payload_str)
          end
      end
  end.

Definition id_token_of (raw : string) (payload : OidcIdTokenPayload) : IdToken := {|
  it_name := default "" (ip_name payload); it_oid := default "" (ip_oid payload);
  it_preferred_username := ip_preferred_username payload; it_puid := ip_puid payload;
  it_tenant_region_scope := ip_tenant_region_scope payload; it_tid := default "" (ip_tid payload); it_raw := Some raw
|}.

(** The parts of the [UnixUserToken]; [unix_token_new] puts them together. *)
Definition unix_token_parts (t : OidcTokenResponse) : result UnixTokenParts OidcError :=
  match or_refresh_token t with
  | None => Err (OidcError_InvalidParse "Missing refresh token")
  | Some refresh_token =>
      let scope := match or_scopes t with
                   | Some (s :: l) => Some (String.concat " " (s :: l))
                   | _ => None
                   end in
      let expires_in := match or_expires_in t with Some d => Z.min d u32_max | None => 0 end in
      match or_id_token t with
      | None => Err (OidcError_InvalidParse "Missing id_token")
      | Some raw =>
          result_map (λ payload, {|
            up_token_type := or_token_type t; up_scope := scope; up_expires_in := expires_in;
            up_ext_expires_in := expires_in; up_access_token := Some (or_access_token t);
            up_refresh_token := refresh_token; up_id_token := id_token_of raw payload |})
            (id_token_payload raw)
      end
  end.

Definition into_unix_user_token (t : OidcTokenResponse) : result UnixUserToken OidcError :=
  result_map unix_token_new (unix_token_parts t).

(** ** [OidcApplication] *)

Definition openid_configuration_url_of (m : DeviceProviderMetadata) : string :=
  trim_end_slash (metadata_issuer m) +:+ "/.well-known/openid-configuration".

(** Discovery; the client is stored at the end. *)
Definition app_delayed_init (domain : string) : EM OidcWorld unit unit :=
  init ← get_oidc_client;
  match init with
  | Some _ => mret tt
  | None =>
      cfg ← get_config;
      client_id ← e_some IdpError_BadRequest (get_app_id cfg domain);
      issuer_url ← e_some IdpError_BadRequest (get_oidc_issuer_url cfg url_ok);
      if issuer_url_ok issuer_url then
        let request_timeout := get_request_timeout (config cfg) in
        o ← onet (http_client_build (request_timeout / 2) request_timeout);
        http_client ← e_some IdpError_BadRequest o;
        o ← onet (discover issuer_url http_client);
        provider_metadata ← e_some IdpError_BadRequest o;
        put_oidc_client {|
          od_client := client_from_metadata provider_metadata client_id (metadata_device_endpoint provider_metadata);
          od_http_client := http_client;
          od_authorization_endpoint := metadata_authorization_endpoint provider_metadata;
          od_openid_configuration_url := openid_configuration_url_of provider_metadata |}
      else e_fail IdpError_BadRequest
  end.

Definition NOT_INITIALIZED {A} : result A OidcError := Err (OidcError_RequestFailed "OIDC client not initialized").

Definition DEVICE_SCOPES : list string := ["openid"; "profile"; "email"; "offline_access"].

Definition initiate_device_flow {R} : EM OidcWorld R (result DeviceAuth OidcError) :=
  client ← get_oidc_client;
  match client with
  | None => mret NOT_INITIALIZED
  | Some delayed_init =>
      r ← onet (exchange_device_code (od_client delayed_init) DEVICE_SCOPES (od_http_client delayed_init));
      mret (match r with
            | Ok details => Ok details
            | Err (DeviceCode_Request resp) =>
                Err (OidcError_RequestFailed ("HTTP error during device code request: " +:+ resp))
            | Err DeviceCode_Other => Err (OidcError_GeneralFailure "Failed to acquire device code")
            end)
  end.

(** The body the two requests for a token share; [what] names the request in the errors. *)
Definition post_token {R} (what : string) (body : string → list (string * string)) (on_error : string → OidcError)
  : EM OidcWorld R (result OidcTokenResponse OidcError) :=
  client ← get_oidc_client;
  match client with
  | None => mret NOT_INITIALIZED
  | Some delayed_init =>
      match client_token_uri (od_client delayed_init) with
      | None => mret (Err (OidcError_GeneralFailure "OIDC client missing token endpoint URL"))
      | Some token_url =>
          r ← onet (http_post (od_http_client delayed_init) token_url (body (dag_client_id (od_client delayed_init))));
          mret (match r with
                | Post_SendFailed e => Err (OidcError_GeneralFailure ("Failed to send " +:+ what +:+ " request: " +:+ e))
                | Post_BodyFailed e =>
                    Err (OidcError_GeneralFailure ("Failed to read " +:+ what +:+ " response body: " +:+ e))
                | Post_Done true b =>
                    result_map_err
                      (λ e, OidcError_GeneralFailure ("Failed to parse " +:+ what +:+ " response: " +:+ e))
                      (token_from_slice b)
                | Post_Done false b =>
                    match oauth_error_from_slice b with
                    | Err e => Err (OidcError_GeneralFailure ("Failed to parse " +:+ what +:+ " error response: " +:+ e))
                    | Ok (error, _) => Err (on_error error)
                    end
                end)
      end
  end.

(** RFC 8628: two errors mean that the user has not finished yet. *)
Definition device_flow_error (error : string) : OidcError :=
  if String.eqb error "authorization_pending" || String.eqb error "slow_down" then OidcError_MFAPollContinue
  else if String.eqb error "access_denied" then
    OidcError_GeneralFailure "User denied authorization during device flow"
  else if String.eqb error "expired_token" then OidcError_GeneralFailure "Device code expired during device flow"
  else OidcError_GeneralFailure ("Device flow failed with error: " +:+ error).

Definition device_token_body (flow : DeviceAuth) (client_id : string) : list (string * string) :=
  [("grant_type", "urn:ietf:params:oauth:grant-type:device_code");
   ("device_code", da_device_code flow); ("client_id", client_id)].

Definition acquire_token_by_device_flow {R} (flow : DeviceAuth) : EM OidcWorld R (result OidcTokenResponse OidcError) :=
  post_token "device access token" (device_token_body flow) device_flow_error.

Definition refresh_error (error : string) : OidcError :=
  if String.eqb error "invalid_grant" then OidcError_GeneralFailure "Refresh token rejected (invalid_grant)"
  else if String.eqb error "invalid_client" then
    OidcError_GeneralFailure "Client authentication failed (invalid_client)"
  else if String.eqb error "invalid_scope" then
    OidcError_GeneralFailure "Requested scope is invalid for refresh (invalid_scope)"
  else OidcError_GeneralFailure ("Refresh token grant failed with error: " +:+ error).

(** An empty scope is not sent. *)
Definition refresh_token_body (refresh_token : string) (scopes : list string) (client_id : string)
  : list (string * string) :=
  let scope := String.concat " " scopes in
  [("grant_type", "refresh_token"); ("refresh_token", refresh_token); ("client_id", client_id)]
  ++ (if String.eqb scope "" then [] else [("scope", scope)]).

Definition acquire_token_by_refresh_token {R} (refresh_token : string) (scopes : list string)
  : EM OidcWorld R (result OidcTokenResponse OidcError) :=
  post_token "refresh token" (refresh_token_body refresh_token scopes) refresh_error.

(** ** Users *)

Definition open_oidc_id_cache {R} : EM OidcWorld R (Opened * DbFile StaticTables) :=
  file ← onet (λ n, (oidc_id_cache_file n, n));
  let '(file, c) := StaticIdCache_new running_as_root false oidc_id_cache_faults file in
  e_some IdpError_BadRequest ((λ c, (c, file)) <$> c).

(** The uid and gid: of the static map, or one number made from the name. *)
Definition oidc_numbers {R} (tenant_id : Uuid) (account_id : string) : EM OidcWorld R (Z * Z) :=
  idmap_cache ← open_oidc_id_cache;
  match get_user_by_name idmap_cache.1 account_id idmap_cache.2 with
  | Some user => mret (su_uid user, su_gid user)
  | None =>
      idmap ← get_idmap;
      gid ← idmap_number (Some (gen_to_unix idmap (hyphenated tenant_id) account_id));
      mret (gid, gid)
  end.

Definition oidc_user_token (account_id : string) (object_id tenant_id : Uuid) (uid gid : Z) (displayname shell : string)
  : UserToken :=
  {| t_name := account_id; t_spn := account_id; t_uuid := object_id; t_real_gidnumber := Some uid;
     t_gidnumber := gid; t_displayname := displayname; t_shell := Some shell;
     t_groups := [{| g_name := account_id; g_spn := account_id; g_uuid := object_id; g_gidnumber := gid |}];
     t_tenant_id := Some tenant_id; t_valid := true |}.

Definition userinfo_account (userinfo : UserInfo) : option string :=
  match ui_preferred_username userinfo with Some name => Some name | None => ui_email userinfo end.

Definition user_token_from_oidc {R} (token : OidcTokenResponse) (shell : string) (tenant_id : Uuid)
  : EM OidcWorld R UserToken :=
  client ← get_oidc_client;
  delayed_init ← e_some IdpError_BadRequest client;
  o ← onet (client_user_info (od_client delayed_init) (or_access_token token) (od_http_client delayed_init));
  userinfo ← e_some IdpError_BadRequest o;
  account_id ← e_some IdpError_BadRequest (userinfo_account userinfo);
  let object_id := uuid_v5 tenant_id (ui_subject userinfo) in
  '(uid, gid) ← oidc_numbers tenant_id account_id;
  mret (oidc_user_token account_id object_id tenant_id uid gid
          (flip_displayname_comma (default "" (ui_name userinfo))) shell).

End oidc.

#[global] Arguments OidcWorld {X} N {OE}.
