(* ===== verification/OidcProvider.v ===== *)
(** * The OIDC provider: its methods and a step of an online login

    [OidcProvider] of [src/common/src/idprovider/openidconnect.rs]: initialisation, the
    probe of the network, users and access tokens, the first request of a login, and
    [unix_user_online_auth_step] with its macro [auth_and_validate_hello_key!] and its arms
    for the PIN, the device flow and the orchestrator. *)
From stdpp Require Import base gmap strings list fin_maps.
From Stdlib Require Import ZArith Lia Ascii.
From S2P Require Import Prelude Proto Interface Db Runtime Caches Idmap UserMap Config Hello Pam Daemon Entra EntraUser EntraInit EntraDevice EntraStep Oidc.

Open Scope rust_scope.

Definition OIDC_DEFAULT_POLL_ATTEMPTS : Z := 180.
Definition SESSION_CORRUPTED : string := "Authentication session corrupted. Please try again.".
Definition SESSION_DATA_CORRUPTED : string := "Session data corrupted. Please sign in again.".
Definition UNEXPECTED_STEP : string := "Unexpected authentication step. Please try signing in again.".
Definition POLL_TIMED_OUT : string := "Authentication timed out. Please try again.".

Section provider.
Context {X : Ext} {C : Crypto} {HO : HelloOps} {E : Env} {HE : HelloEnv} {UNI : Unistring}.
Context {I : IniFile} {G : GeneratedConfig} {PC : PamConfig} {EC : EntraConfig} {OC : OidcConfig} {H : Host} {F : Federation} {T : TextOps}.
Context {N : Type} {OE : OidcEnv N}.
Notation OM := (EM (OidcWorld N)).
Variable domain : string.

(** ** Initialisation and the network *)

Definition HIMMELBLAU_OIDC_NAMESPACE : Uuid := uuid_lit "e669513b-1345-4853-96a7-596243184319".

Definition oidc_tenant_id {R} : OM R Uuid :=
  cfg ← get_config;
  issuer ← e_some IdpError_BadRequest (get_oidc_issuer_url cfg url_ok);
  mret (uuid_v5 HIMMELBLAU_OIDC_NAMESPACE issuer).

Definition oidc_first_init : OM unit unit :=
  tenant_id ← oidc_tenant_id;
  cfg ← get_config;
  let range := get_idmap_range cfg domain in
  r ← idmap_io (λ m, add_gen_domain m domain (hyphenated tenant_id) range);
  match r with
  | Err _ => e_fail IdpError_BadRequest
  | Ok _ => app_delayed_init domain
  end.

(** [self.delayed_init().await.is_ok()] *)
Definition oidc_delayed_init {R} : OM R bool :=
  init ← get_oidc_client;
  match init with
  | Some _ => mret true
  | None => r ← attempt oidc_first_init; mret (is_ok r)
  end.

(** The probe: the authorization endpoint, and the configuration if that one answers with
    an error. *)
Definition oidc_probe {R} (now : SystemTime) (authorization_endpoint openid_configuration_url : string) : OM R bool :=
  let online := _ ← set_cache_state CacheState_Online; mret true in
  let offline := _ ← go_offline now; mret false in
  cfg ← get_config;
  built ← onet (oidc_probe_client (get_request_timeout (config cfg)));
  if built : bool then
    r ← onet (oidc_http_get authorization_endpoint);
    match r with
    | Some true => online
    | None => offline
    | Some false =>
        r ← onet (oidc_http_get openid_configuration_url);
        match r with
        | Some true => online
        | _ => offline
        end
    end
  else offline.

Definition oidc_attempt_online {R} (now : SystemTime) : OM R bool :=
  init ← oidc_delayed_init;
  if init : bool then
    client ← get_oidc_client;
    match client with
    | Some init => oidc_probe now (od_authorization_endpoint init) (od_openid_configuration_url init)
    | None => _ ← go_offline now; mret false
    end
  else _ ← net_down; mret false.

(** [impl_check_online!] *)
Definition oidc_check_online {R} (now : SystemTime) : OM R bool :=
  c ← hello get_client;
  match state c with
  | CacheState_Online => mret true
  | CacheState_OfflineNextCheck at_time => if at_time <=? now then oidc_attempt_online now else mret false
  | CacheState_Offline => mret false
  end.

(** ** Users and their tokens *)

(** [unix_user_get]: the directory is not asked, so every name is a user. *)
Definition oidc_user_get (id_ : Id) (token : option UserToken) : OM UserTokenState UserTokenState :=
  init ← oidc_delayed_init;
  if init : bool then
    match (match id_, token with
           | Id_Name account_id, _ => Some account_id
           | _, Some tok => Some (t_name tok)
           | _, None => None
           end) with
    | None => mret UserTokenState_UseCached
    | Some account_id =>
        let displayname := flip_displayname_comma (match token with Some tok => t_displayname tok | None => "" end) in
        tenant_id ← oidc_tenant_id;
        object_id ← (match token with Some tok => mret (t_uuid tok) | None => onet uuid_v4 end);
        '(uid, gid) ← oidc_numbers tenant_id account_id;
        cfg ← get_config;
        mret (UserTokenState_Update
          (oidc_user_token account_id object_id tenant_id uid gid displayname (get_shell cfg None)))
    end
  else _ ← net_down; mret UserTokenState_UseCached.

(** [oidc_refresh_token_token_fetch!] *)
Definition oidc_refresh_token_token_fetch {R} (refresh_token : string) (scopes : list string) : OM R UnixUserToken :=
  let scopes := List.filter (λ s, negb (String.eqb s "https://graph.microsoft.com/.default")) scopes in
  r ← acquire_token_by_refresh_token refresh_token scopes;
  match r with
  | Ok token => match into_unix_user_token token with Ok t => mret t | Err _ => e_fail IdpError_BadRequest end
  | Err _ => e_fail IdpError_BadRequest
  end.

Definition oidc_user_access (id_ : Id) (scopes : list string) (old_token : option UserToken)
  : OM UnixUserToken UnixUserToken :=
  init ← oidc_delayed_init;
  if init : bool then
    t ← hello system_now;
    online ← oidc_check_online t;
    if online : bool then
      entry ← hello (refresh_token (account_of id_ old_token));
      match entry with
      | RefreshCacheEntry_Prt _ => e_fail IdpError_BadRequest
      | RefreshCacheEntry_RefreshToken tok => oidc_refresh_token_token_fetch tok scopes
      end
    else e_fail IdpError_BadRequest
  else e_fail IdpError_BadRequest.

Variable machine_key : MachineKey.

(** [change_auth_token], with [impl_change_auth_token!] *)
Definition oidc_change_auth_token (account_id : string) (token : UnixUserToken) (new_tok : string) : OM bool bool :=
  init ← oidc_delayed_init;
  if init : bool then
    t ← hello system_now;
    online ← oidc_check_online t;
    if online : bool then
      spn ← e_some IdpError_BadRequest (token_spn token);
      if String.eqb (to_lowercase account_id) (to_lowercase spn) then
        hello_key ← hello (create_decoupled_hello_key new_tok machine_key IdpError_Tpm);
        r ← hello (ks_insert hello_key_to_vec (fetch_hello_key_tag account_id false) hello_key);
        _ ← hello (ok_or_fail IdpError_Tpm r);
        mret true
      else e_fail IdpError_BadRequest
    else e_fail IdpError_BadRequest
  else e_fail IdpError_BadRequest.

(** The user of the token, if he is the one asked for; his refresh token is cached. *)
Definition oidc_mismatch_msg (t : UserToken) : string :=
  "Authenticated user " +:+ hyphenated (t_uuid t) +:+ " does not match requested user".

Definition oidc_token_validate (account_id : string) (token : OidcTokenResponse) : OM AuthResult AuthResult :=
  tenant_id ← oidc_tenant_id;
  cfg ← get_config;
  token2 ← user_token_from_oidc token (get_shell cfg None) tenant_id;
  if String.eqb (to_lowercase account_id) (to_lowercase (t_name token2)) then
    _ ← (match or_refresh_token token with
         | Some tok => hello (Hello.add account_id (RefreshCacheEntry_RefreshToken tok))
         | None => mret tt
         end);
    mret (AuthResult_Success token2)
  else mret (AuthResult_Denied (oidc_mismatch_msg token2)).

(** ** The first request *)

Definition orchestrator_config {R} : OM R OidcOrchestratorConfig :=
  cfg ← get_config;
  let c := config cfg in
  mret {| oc_enabled := get_orchestrator_enabled c; oc_socket_path := get_orchestrator_socket c;
          oc_provider := get_orchestrator_provider c; oc_timeout := Z.max 1 (get_orchestrator_timeout_secs c);
          oc_poll_interval_secs := Z.max 1 (get_orchestrator_poll_secs c) |}.

(** [u32::saturating_mul(1000)] *)
Definition saturating_millis (secs : Z) : Z := Z.min u32_max (secs * 1000).

Notation Begun := (AuthRequest * AuthCredHandler)%type.

Definition maybe_start_orchestrator_flow {R} (account_id : string) (dag_details : DeviceAuth) : OM R (option Begun) :=
  ocfg ← orchestrator_config;
  if oc_enabled ocfg then
    let dag_auth_url := default (da_verification_uri dag_details) (da_verification_uri_complete dag_details) in
    '(_, dag_json) ← mfa_from_oidc_device dag_details;
    cfg ← get_config;
    extra_data ← orchestrator_try_start ocfg account_id (get_oidc_issuer_url cfg url_ok) (Some dag_auth_url)
      (Some (da_user_code dag_details)) (Some dag_json);
    match extra_data with
    | Some (OidcMfaExtraData_Orchestrator state) =>
        let auth_request :=
          auth_request_from_orchestrator_inputs (fs_required_inputs state) (oc_poll_interval_secs ocfg) in
        serialized ← serialize_oidc_mfa_extra_data (OidcMfaExtraData_Orchestrator state);
        mret (Some (auth_request,
          AuthCredHandler_MFA (oidc_flow_new "" None (Some (saturating_millis (oc_poll_interval_secs ocfg))))
            None (Some serialized) None))
    | _ => mret None
    end
  else mret None.

Definition oidc_device_init (account_id : string) : OM Begun Begun :=
  r ← initiate_device_flow;
  match r with
  | Err _ => e_fail IdpError_BadRequest
  | Ok device_flow =>
      orchestrator_flow ← maybe_start_orchestrator_flow account_id device_flow;
      match orchestrator_flow with
      | Some begun => mret begun
      | None =>
          '(flow, dag_json) ← mfa_from_oidc_device device_flow;
          extra_data ← serialize_oidc_mfa_extra_data (OidcMfaExtraData_DeviceFlow dag_json);
          mret (AuthRequest_MFAPoll (oidc_flow_msg flow) (default 5000 (oidc_flow_polling_interval flow) / 1000),
                AuthCredHandler_MFA flow None (Some extra_data) None)
      end
  end.

Definition oidc_online_auth_init (account_id service : string) (no_hello_pin force_reauth : bool) : OM Begun Begun :=
  init ← oidc_delayed_init;
  if init : bool then
    hello_key ← hello (fetch_hello_key account_id);
    cfg ← get_config;
    c ← hello get_client;
    if negb (is_ok hello_key)
       || negb (get_enable_hello (config cfg))
       || (is_remote_service cfg service && negb (check_hello_totp_enabled cfg) && negb (get_allow_remote_hello (config cfg)))
       || (get_hello_pin_retry_count (config cfg) <? bad_pin_count account_id c)
       || no_hello_pin || force_reauth
    then oidc_device_init account_id
    else
      t ← hello system_now;
      online ← oidc_attempt_online t;
      if online : bool then mret (AuthRequest_Pin, AuthCredHandler_None) else e_fail IdpError_BadRequest
  else _ ← net_down; mret outage.

(** ** A step of an online login *)

Variables (account_id : string) (old_token : UserToken) (no_hello_pin : bool).

Notation Answer := (AuthResult * AuthCacheAction)%type.

(** *** The Hello PIN *)

Definition memory_refresh_token : OM Answer string :=
  entry ← memory_entry account_id;
  match entry with
  | Some (RefreshCacheEntry_RefreshToken tok) => mret tok
  | Some _ => denied SESSION_DATA_CORRUPTED
  | None => denied SESSION_EXPIRED
  end.

(** The refresh token sealed for the PIN, or the one of the memory cache. *)
Definition oidc_refresh_token (hello_key : LoadableMsHelloKey) (cred : string)
  (entry : result (option SealedData) unit) : OM Answer string :=
  match entry with
  | Ok (Some sealed) =>
      pin ← e_some IdpError_Tpm (pin_value_new cred);
      o ← hello (with_tpm (ms_hello_key_load machine_key hello_key pin));
      storage_key ← e_some IdpError_Tpm o;
      o ← hello (with_tpm (unseal_data storage_key sealed));
      match o with
      | Some b => e_some IdpError_Tpm (string_from_utf8 b)
      | None => memory_refresh_token
      end
  | _ => memory_refresh_token
  end.

(** The decoupled key goes, and the user has to sign in anew. *)
Definition drop_hello_key {A} : OM Answer A :=
  r ← hello (ks_delete (fetch_hello_key_tag account_id false));
  _ ← e_ok IdpError_Tpm r;
  denied SESSION_EXPIRED.

(** The refresh token is exchanged for an access token. *)
Definition oidc_exchange (cred refresh_token : string) : OM Answer OidcTokenResponse :=
  r ← acquire_token_by_refresh_token refresh_token [];
  match r with
  | Ok token => _ ← hello (reset_bad_pin_count account_id); mret token
  | Err (OidcError_RequestFailed _) => hello_offline machine_key account_id old_token cred
  | Err _ =>
      r ← hello (ks_delete (fetch_hello_refresh_token_key_tag account_id));
      _ ← e_ok IdpError_Tpm r;
      r ← hello (ks_delete (fetch_hello_key_tag account_id false));
      _ ← e_ok IdpError_Tpm r;
      _ ← hello (reset_bad_pin_count account_id);
      denied SESSION_EXPIRED
  end.

Definition oidc_hello_token (hello_key : LoadableMsHelloKey) (keytype : KeyType) (cred : string)
  : OM Answer OidcTokenResponse :=
  entry ← hello (ks_get sealed_from_slice (fetch_hello_refresh_token_key_tag account_id));
  match keytype with
  | KeyType_Decoupled => tok ← oidc_refresh_token hello_key cred entry; oidc_exchange cred tok
  | KeyType_Hello => drop_hello_key
  end.

(** The refresh token of the response is sealed for the PIN. *)
Definition oidc_seal (hello_key : LoadableMsHelloKey) (pin : PinValue) (token : OidcTokenResponse) : OM Answer unit :=
  o ← hello (with_tpm (ms_hello_key_load machine_key hello_key pin));
  storage_key ← e_some IdpError_Tpm o;
  match or_refresh_token token with
  | None => denied "Authentication incomplete. Please try again."
  | Some tok =>
      tenant_id ← oidc_tenant_id;
      cfg ← get_config;
      _ ← user_token_from_oidc token (get_shell cfg None) tenant_id;
      o ← hello (with_tpm (seal_data storage_key (String.list_byte_of_string tok)));
      sealed ← e_some IdpError_Tpm o;
      r ← hello (ks_insert sealed_to_vec (fetch_hello_refresh_token_key_tag account_id) sealed);
      e_ok IdpError_Tpm r
  end.

Definition oidc_validate_hello {A} (cred : string) (token : OidcTokenResponse) : OM Answer A :=
  r ← attempt (oidc_token_validate account_id token);
  match r with
  | Ok (AuthResult_Success t) => hello_totp_or machine_key account_id cred t
  | Ok (AuthResult_Next _) => denied UNEXPECTED_STEP
  | Ok r => answer r
  | Err e => e_fail e
  end.

(** [auth_and_validate_hello_key!] *)
Definition oidc_auth_and_validate {A} (hello_key : LoadableMsHelloKey) (keytype : KeyType) (cred : string) : OM Answer A :=
  pin ← e_some IdpError_Tpm (pin_value_new cred);
  o ← hello (with_tpm (ms_hello_key_load machine_key hello_key pin));
  match o with
  | None => bad_pin account_id ""
  | Some _ =>
      token ← oidc_hello_token hello_key keytype cred;
      _ ← oidc_seal hello_key pin token;
      oidc_validate_hello cred token
  end.

Definition oidc_setup_pin_arm (cred : string) : OM Answer Answer :=
  hello_key ← hello (create_decoupled_hello_key cred machine_key IdpError_Tpm);
  r ← hello (ks_insert hello_key_to_vec (fetch_hello_key_tag account_id false) hello_key);
  _ ← e_ok IdpError_Tpm r;
  oidc_auth_and_validate hello_key KeyType_Decoupled cred.

Definition oidc_pin_arm (cred : string) : OM Answer Answer :=
  '(hello_key, keytype) ← hello (fetch_hello_key_or_fail account_id);
  oidc_auth_and_validate hello_key keytype cred.

(** *** The device flow and the orchestrator *)

(** A token was obtained: the user is in, or sets up a PIN first. *)
Definition finalize_mfa_success {A} (token : OidcTokenResponse) : OM Answer A :=
  r ← attempt (oidc_token_validate account_id token);
  match r with
  | Ok (AuthResult_Success token2) =>
      cfg ← get_config;
      if negb (get_enable_hello (config cfg)) || no_hello_pin then answer (AuthResult_Success token2)
      else
        _ ← put_handler (AuthCredHandler_SetupPin None);
        next (AuthRequest_SetupPin MFA_SETUP_PIN_MSG)
  | Ok r => answer r
  | Err e => e_fail e
  end.

(** One poll of the token endpoint; it always leaves the function. *)
Definition poll_device_flow {A} (flow : DeviceAuth) : OM Answer A :=
  r ← acquire_token_by_device_flow flow;
  match r with
  | Ok token => finalize_mfa_success token
  | Err OidcError_MFAPollContinue => next AuthRequest_MFAPollWait
  | Err e => denied ("Authentication failed: " +:+ oidc_error_display e)
  end.

Definition polls_left (flow : MFAAuthContinue) (poll_attempt : Z) : bool :=
  poll_attempt <=? default OIDC_DEFAULT_POLL_ATTEMPTS (oidc_flow_max_poll_attempts flow).

Definition device_flow_arm (flow : MFAAuthContinue) (dag_json : string) (req : PamAuthRequest) : OM Answer Answer :=
  match req with
  | PamAuthRequest_MFAPoll poll_attempt =>
      if polls_left flow poll_attempt then
        match dag_from_str dag_json with
        | Some details => poll_device_flow details
        | None => denied SESSION_CORRUPTED
        end
      else denied POLL_TIMED_OUT
  | _ => denied UNEXPECTED_STEP
  end.

(** Store the state of the next step in the handler, and ask. *)
Definition orchestrator_wait (ocfg : OidcOrchestratorConfig) (flow : MFAAuthContinue)
  (password reauth_hello_pin : option string) (extra : OidcMfaExtraData) (req : AuthRequest) : OM Answer Answer :=
  serialized ← serialize_oidc_mfa_extra_data extra;
  _ ← put_handler (AuthCredHandler_MFA
        (oidc_flow_set_polling_interval (Some (saturating_millis (oc_poll_interval_secs ocfg))) flow)
        password (Some serialized) reauth_hello_pin);
  next req.

(** The session is over: with the device flow, or with the refresh token it brings. *)
Definition orchestrator_complete (dag_flow : option DeviceAuth) (success : bool) (tokens : OrchestratorTokenBundle)
  : OM Answer Answer :=
  if success then
    match dag_flow with
    | Some flow_state => poll_device_flow flow_state
    | None =>
        match tb_refresh_token tokens with
        | None => denied "Authentication did not return a refresh token. Please try again."
        | Some tok =>
            r ← acquire_token_by_refresh_token tok [];
            match r with
            | Ok token => finalize_mfa_success token
            | Err _ => denied "Authentication flow completed but token exchange failed. Please try again."
            end
        end
    end
  else denied "Authentication failed in browser flow.".

(** The answer of the user goes to the orchestrator. *)
Definition orchestrator_step (ocfg : OidcOrchestratorConfig) (flow : MFAAuthContinue)
  (password reauth_hello_pin : option string) (state : OrchestratorFlowState) (dag_flow : option DeviceAuth)
  (req : PamAuthRequest) : OM Answer Answer :=
  match orchestrator_inputs_from_pam_request req (fs_required_inputs state) with
  | Err _ => denied UNEXPECTED_STEP
  | Ok provided_inputs =>
      r ← orchestrator_continue ocfg state provided_inputs;
      match r with
      | Ok (OrchestratorResponse_NextStep session_id required_inputs _) =>
          orchestrator_wait ocfg flow password reauth_hello_pin
            (OidcMfaExtraData_Orchestrator
               {| fs_session_id := session_id; fs_required_inputs := required_inputs; fs_dag_json := fs_dag_json state |})
            (auth_request_from_orchestrator_inputs required_inputs (oc_poll_interval_secs ocfg))
      | Ok (OrchestratorResponse_SessionComplete _ success tokens) => orchestrator_complete dag_flow success tokens
      | Ok (OrchestratorResponse_SessionError _ error) => denied ("Authentication failed: " +:+ error)
      | Ok (OrchestratorResponse_Error error) => denied ("Authentication failed: " +:+ error)
      | Ok _ => denied "Authentication session returned an unexpected state. Please try again."
      | Err _ =>
          match fs_dag_json state with
          | Some dag_json =>
              orchestrator_wait ocfg flow password reauth_hello_pin (OidcMfaExtraData_DeviceFlow dag_json)
                AuthRequest_MFAPollWait
          | None => denied "Browser authentication backend unavailable. Please try again."
          end
      end
  end.

(** A poll looks at the token endpoint first. *)
Definition orchestrator_arm (flow : MFAAuthContinue) (password reauth_hello_pin : option string)
  (state : OrchestratorFlowState) (req : PamAuthRequest) : OM Answer Answer :=
  ocfg ← orchestrator_config;
  dag_flow ← (match fs_dag_json state with
              | Some raw => match dag_from_str raw with
                            | Some flow_state => mret (Some flow_state)
                            | None => denied SESSION_CORRUPTED
                            end
              | None => mret None
              end);
  _ ← (match req with
       | PamAuthRequest_MFAPoll poll_attempt =>
           if polls_left flow poll_attempt then
             match dag_flow with
             | Some flow_state => poll_device_flow flow_state
             | None => mret tt
             end
           else denied POLL_TIMED_OUT
       | _ => mret tt
       end);
  orchestrator_step ocfg flow password reauth_hello_pin state dag_flow req.

Definition oidc_mfa_arm (flow : MFAAuthContinue) (password extra_data reauth_hello_pin : option string)
  (req : PamAuthRequest) : OM Answer Answer :=
  match extra_data with
  | None => denied "Authentication session data missing. Please try again."
  | Some stored_state =>
      match parse_oidc_mfa_extra_data stored_state with
      | OidcMfaExtraData_DeviceFlow dag_json => device_flow_arm flow dag_json req
      | OidcMfaExtraData_Orchestrator state => orchestrator_arm flow password reauth_hello_pin state req
      end
  end.

(** [match (&mut *cred_handler, pam_next_req)] *)
Definition oidc_arms (handler : AuthCredHandler) (req : PamAuthRequest) : OM Answer Answer :=
  match handler, req with
  | AuthCredHandler_SetupPin _, PamAuthRequest_SetupPin cred => oidc_setup_pin_arm cred
  | _, PamAuthRequest_Pin cred => oidc_pin_arm cred
  | AuthCredHandler_MFA flow password extra_data reauth_hello_pin, req =>
      oidc_mfa_arm flow password extra_data reauth_hello_pin req
  | AuthCredHandler_HelloTOTP hello_pin pending, PamAuthRequest_HelloTOTP cred =>
      cfg ← get_config;
      hello (handle_hello_pin_totp_auth cfg account_id old_token cred hello_pin machine_key pending
               (λ r, (r, AuthCacheAction_None)))
  | _, _ => denied UNEXPECTED_STEP
  end.

Definition oidc_online_auth_step (req : PamAuthRequest) : OM Answer Answer :=
  init ← oidc_delayed_init;
  if init : bool then handler ← get_handler; oidc_arms handler req
  else _ ← net_down; denied NETWORK_OUTAGE.

End provider.
