(* ===== verification/OidcTheorems.v ===== *)
(** * Properties of the orchestrator's protocol, the device flow and the initialisation

    What the user is asked and what is sent for his answer, how a response is read from a
    socket, how often a device flow is polled, and what a failed discovery does to the
    OIDC provider. *)
From stdpp Require Import base gmap strings list fin_maps.
From Stdlib Require Import ZArith Lia Ascii.
From S2P Require Import Prelude Proto Interface Db Runtime Caches Idmap UserMap Config Hello HelloTheorems Pam Daemon Resolver Entra EntraUser EntraInit EntraDevice EntraStep EntraTheorems EntraStepTheorems Oidc OidcProvider.

Open Scope rust_scope.

(** ** Prompts and answers *)

(** The answer PAM gives to a request, and the kinds of input it is meant for. *)
Inductive answers : AuthRequest → PamAuthRequest → list OrchestratorInputType → string → Prop :=
| answers_password cred : answers AuthRequest_Password (PamAuthRequest_Password cred) [OrchPassword] cred
| answers_code msg cred : answers (AuthRequest_MFACode msg) (PamAuthRequest_MFACode cred) [OrchOtp; OrchText] cred
| answers_poll msg secs n : answers (AuthRequest_MFAPoll msg secs) (PamAuthRequest_MFAPoll n) [OrchConfirmation] "true".

Lemma find_input kinds inputs input :
  List.find (is_input kinds) inputs = Some input → input ∈ inputs ∧ ri_input_type input ∈ kinds.
Proof.
  intros [Hin Hk]%find_some. split; [by apply list_elem_of_In|]. by apply bool_decide_eq_true in Hk.
Qed.

Lemma provide_found kinds inputs input cred :
  List.find (is_input kinds) inputs = Some input →
  provide kinds inputs cred = Ok [{| oi_name := ri_name input; oi_value := cred |}].
Proof. intros Hf. unfold provide, input_target. by rewrite Hf. Qed.

(** The first input of the kinds, if there is one. *)
Lemma existsb_find kinds inputs :
  existsb (is_input kinds) inputs = true → ∃ input, List.find (is_input kinds) inputs = Some input.
Proof.
  intros (x & Hx & Hk)%existsb_exists. destruct (List.find _ inputs) as [i|] eqn:Hf; [eauto|].
  by rewrite (find_none _ _ Hf x Hx) in Hk.
Qed.

(** A prompt comes from the first input of its kind, or there is nothing to ask. *)
Lemma prompt_source inputs secs req kinds cred :
  answers (auth_request_from_orchestrator_inputs inputs secs) req kinds cred →
  (∃ input, List.find (is_input kinds) inputs = Some input) ∨ ∃ n, req = PamAuthRequest_MFAPoll n.
Proof.
  unfold auth_request_from_orchestrator_inputs. destruct (existsb _ inputs) eqn:He.
  { intros Ha. inversion Ha; subst. left. by apply existsb_find. }
  destruct (List.find (is_input [OrchOtp; OrchText]) inputs) as [i|] eqn:Hf.
  { intros Ha. inversion Ha; subst. eauto. }
  destruct (List.find (is_input [OrchConfirmation]) inputs); intros Ha; inversion Ha; subst; eauto.
Qed.

(** A poll confirms all confirmations. *)
Lemma poll_confirms n inputs :
  ∃ provided, orchestrator_inputs_from_pam_request (PamAuthRequest_MFAPoll n) inputs = Ok provided ∧
    (∀ p, p ∈ provided → oi_value p = "true" ∧
       ∃ input, input ∈ inputs ∧ ri_name input = oi_name p ∧ ri_input_type input ∈ [OrchConfirmation]) ∧
    orchestrator_provided_input_names provided = ri_name <$> List.filter (is_input [OrchConfirmation]) inputs.
Proof.
  simpl. eexists. split; [done|]. split; [|by unfold orchestrator_provided_input_names; rewrite <- list_fmap_compose].
  intros p (i & -> & (Hi & Hb)%list_elem_of_In%filter_In)%list_elem_of_fmap. split; [done|]. exists i.
  split; [by apply list_elem_of_In|]. split; [done|]. by apply bool_decide_eq_true in Hb.
Qed.

(** The orchestrator's inputs and the prompts of PAM fit together: whatever inputs are
    required, the answer to the prompt chosen for them is always accepted (it never ends in
    "unexpected authentication step"), and it is sent only to required inputs of the kind
    the prompt was for, so a password never goes to another field; a password or a code is
    sent exactly once, and a poll confirms all confirmations and nothing else. *)
Theorem orchestrator_prompt_answered inputs secs req kinds cred :
  answers (auth_request_from_orchestrator_inputs inputs secs) req kinds cred →
  ∃ provided, orchestrator_inputs_from_pam_request req inputs = Ok provided ∧
    (∀ p, p ∈ provided → oi_value p = cred ∧
       ∃ input, input ∈ inputs ∧ ri_name input = oi_name p ∧ ri_input_type input ∈ kinds) ∧
    match req with
    | PamAuthRequest_MFAPoll _ =>
        orchestrator_provided_input_names provided = ri_name <$> List.filter (is_input [OrchConfirmation]) inputs
    | _ => length provided = 1%nat
    end.
Proof.
  intros Ha. destruct (prompt_source _ _ _ _ _ Ha) as [[input Hf]|[n ->]].
  - destruct (find_input _ _ _ Hf) as [Hin Hk]. destruct Ha; [..|apply poll_confirms].
    all: simpl; eexists; split; [by apply provide_found|]; split; [|done].
    all: intros p Hp; apply list_elem_of_singleton in Hp as ->; eauto.
  - inversion Ha; subst. apply poll_confirms.
Qed.

(** ** Reading a response *)

Section codec.
Context {X : Ext} {N : Type} {OE : OidcEnv N}.

(** serde_json on a message that is cut off anywhere. *)
Definition json_message (data : bytes) (m : OrchestratorResponse) : Prop :=
  orch_from_slice data = Ok m ∧ ∀ p q, data = p ++ q → q ≠ [] → orch_from_slice p = Err Parse_Eof.

Definition fits (data : bytes) : Prop := Z.of_nat (length data) ≤ MAX_ORCHESTRATOR_RESPONSE_BYTES.

Lemma fits_app p q : fits (p ++ q) → fits p.
Proof. unfold fits. rewrite length_app. lia. Qed.

Lemma decode_fits src : fits src →
  orchestrator_decode src =
    match orch_from_slice src with
    | Ok message => (Ok (Some message), [])
    | Err Parse_Eof => (Ok None, src)
    | Err (Parse_Invalid err) => (Err ("failed to decode orchestrator response: " +:+ err), [])
    end.
Proof. intros Hf. unfold orchestrator_decode. by rewrite (proj2 (Z.ltb_ge _ _) Hf). Qed.

Lemma decode_large src : ¬ fits src → ∃ e, orchestrator_decode src = (Err e, []).
Proof. intros Hf. unfold orchestrator_decode. rewrite (proj2 (Z.ltb_lt _ _)); [eauto|]. unfold fits in Hf. lia. Qed.

Lemma next_reads data m chunks buf :
  json_message data m → fits data → chunks ≠ [] → buf ++ concat chunks = data →
  (∀ c, c ∈ chunks → c ≠ []) → orchestrator_next chunks buf = Some m.
Proof.
  intros [Hm Hp] Hf. revert buf. induction chunks as [|c chunks IH]; intros buf Hn Hd Hc; [done|]. simpl.
  simpl in Hd. rewrite app_assoc in Hd. destruct chunks as [|c' chunks].
  - simpl in Hd. rewrite app_nil_r in Hd. rewrite Hd, decode_fits by done. by rewrite Hm.
  - rewrite decode_fits by (rewrite <- Hd in Hf; by apply fits_app in Hf).
    rewrite (Hp _ _ (eq_sym Hd)); [apply IH; [done..|set_solver]|].
    intros He. apply (Hc c'); [set_solver|]. simpl in He. by apply app_eq_nil in He as [-> _].
Qed.

Lemma next_refuses data chunks buf :
  ¬ fits data → (∀ p q, data = p ++ q → q ≠ [] → orch_from_slice p = Err Parse_Eof) →
  buf ++ concat chunks = data → (∀ c, c ∈ chunks → c ≠ []) → orchestrator_next chunks buf = None.
Proof.
  intros Hf Hp. revert buf. induction chunks as [|c chunks IH]; intros buf Hd Hc; [done|]. simpl.
  simpl in Hd. rewrite app_assoc in Hd. destruct (decide (fits (buf ++ c))) as [Hs|Hl].
  - rewrite decode_fits by done. rewrite (Hp _ _ (eq_sym Hd)); [apply IH; [done|set_solver]|].
    intros He. rewrite He, app_nil_r in Hd. by rewrite Hd in Hs.
  - by destruct (decode_large _ Hl) as [e ->].
Qed.

(** C35. A response of the orchestrator is read as it was sent, however the socket cuts it
    into pieces, as long as it has at most 384 KiB; a longer one is refused, whatever it
    holds, so that no more than that is ever parsed. *)
Theorem orchestrator_response_read data m chunks :
  json_message data m → concat chunks = data → chunks ≠ [] → (∀ c, c ∈ chunks → c ≠ []) →
  orchestrator_next chunks [] = if bool_decide (Z.of_nat (length data) ≤ 384 * 1024) then Some m else None.
Proof.
  intros Hm Hd Hn Hc. case_bool_decide as Hl; [by eapply next_reads|].
  eapply next_refuses; [exact Hl|apply Hm|done..].
Qed.

End codec.

(** ** A failed discovery *)

Section init.
Context {X : Ext} {C : Crypto} {HO : HelloOps} {E : Env} {HE : HelloEnv} {UNI : Unistring}.
Context {INI : IniFile} {G : GeneratedConfig} {PC : PamConfig} {EC : EntraConfig} {OC : OidcConfig} {H : Host} {F : Federation} {T : TextOps}.
Context {N : Type} {OE : OidcEnv N}.
Context (domain : string).

Notation State := (EState (OidcWorld N)).
Implicit Types s : State.

(** The name under which the provider enters the id map. *)
Definition oidc_tenant (s : State) : option string :=
  hyphenated ∘ uuid_v5 HIMMELBLAU_OIDC_NAMESPACE <$> get_oidc_issuer_url (as_config (e_alias s)) url_ok.

(** There is no client, and the tenant has been entered into the id map. *)
Definition init_stuck (s : State) : Prop :=
  ow_client (e_net s) = None ∧ ∃ tenant, oidc_tenant s = Some tenant ∧ is_Some (ranges (e_idmap s) !! tenant).

(** What [init_stuck] looks at. *)
Definition same_init (s s' : State) : Prop :=
  ow_client (e_net s') = ow_client (e_net s) ∧ e_idmap s' = e_idmap s ∧ e_alias s' = e_alias s.

Lemma stuck_same s s' : same_init s s' → init_stuck s → init_stuck s'.
Proof. intros (Hc & Hi & Ha). unfold init_stuck, oidc_tenant. by rewrite Hc, Hi, Ha. Qed.

#[local] Instance same_init_preorder : PreOrder same_init.
Proof.
  split; [done|]. intros s1 s2 s3 (A1 & A2 & A3) (B1 & B2 & B3). unfold same_init. by rewrite B1, B2, B3.
Qed.

(** Computations that leave it alone. *)
Definition inert {R A} (m : EM (OidcWorld N) R A) : Prop := ∀ s, same_init s (m s).2.

Lemma inert_bind {R A B} (m : EM (OidcWorld N) R A) (k : A → EM (OidcWorld N) R B) :
  inert m → (∀ a, inert (k a)) → inert (a ← m; k a).
Proof.
  intros Hm Hk s. specialize (Hm s). unfold mbind, EM_bind. destruct (m s) as [[a|e] s1]; [|done].
  etrans; [exact Hm|apply Hk].
Qed.
Lemma inert_ret {R A} (a : A) : inert (R := R) (mret a).
Proof. done. Qed.
Lemma inert_fail {R A} e : inert (R := R) (A := A) (e_fail e).
Proof. done. Qed.
Lemma inert_return {R A} (r : R) : inert (A := A) (e_return r).
Proof. done. Qed.
Lemma inert_some {R A} e (o : option A) : inert (R := R) (e_some e o).
Proof. by destruct o. Qed.
Lemma inert_hello {R A} (m : HM R A) : inert (hello m).
Proof. intros s. unfold hello. by destruct (m _). Qed.
Lemma inert_onet {R A} (f : N → A * N) : inert (R := R) (onet f).
Proof. intros s. unfold onet, net. by destruct (f _). Qed.

Lemma net_down_inert {R} : inert (R := R) net_down.
Proof. unfold net_down, go_offline, set_cache_state. repeat first [apply inert_bind|apply inert_hello|intros ?]. Qed.

(** *** In this state nothing ever initialises *)

Lemma stuck_delayed_init {R} s : init_stuck s → oidc_delayed_init (R := R) domain s = (inl false, s).
Proof.
  intros (Hc & tenant & Ht & [r Hr]). destruct s as [eh ei em ea [ec en] ehd el]. cbn in *. subst ec.
  unfold oidc_tenant in Ht. cbn in Ht.
  unfold oidc_delayed_init, get_oidc_client, look, net, mbind, EM_bind. cbn.
  unfold attempt, oidc_first_init, oidc_tenant_id, get_config, mbind, EM_bind. cbn.
  destruct (get_oidc_issuer_url _ _) as [url|]; [|done]. cbn in Ht. injection Ht as <-. cbn.
  unfold idmap_io, add_gen_domain. cbn. by rewrite Hr.
Qed.

Lemma stuck_bind {R A} s (k : bool → EM (OidcWorld N) R A) :
  init_stuck s → (init ← oidc_delayed_init domain; k init) s = k false s.
Proof. intros Hs. unfold mbind, EM_bind. by rewrite stuck_delayed_init. Qed.

Lemma net_down_then {R A} (a : A) s :
  (∃ s', (_ ← net_down (R := R); mret a) s = (inl a, s')) ∨ ∃ s', (_ ← net_down (R := R); mret a) s = (inr Panic, s').
Proof.
  unfold net_down, go_offline, set_cache_state, system_now, hdraw, plus_secs, mod_client, hello, mbind, EM_bind. cbn.
  destruct (_ <=? _); cbn; eauto.
Qed.

(** *** How the state comes about *)

Lemma app_init_inert s e s' : app_delayed_init domain s = (inr (Fail e), s') → same_init s s'.
Proof.
  unfold app_delayed_init, get_oidc_client, look, net, onet, put_oidc_client, get_config, e_some, mbind, EM_bind. cbn.
  destruct (ow_client _); [done|]. destruct (get_app_id _ _); cbn; [|by intros [= <- <-]].
  destruct (get_oidc_issuer_url _ _); cbn; [|by intros [= <- <-]]. destruct (issuer_url_ok _); [|by intros [= <- <-]].
  unfold net. cbn. destruct (http_client_build _ _ _) as [[hc|] n1]; cbn; [|by intros [= <- <-]].
  destruct (discover _ _ _) as [[pm|] n2]; cbn; [done|]. by intros [= <- <-].
Qed.

Lemma app_init_exits s r s' : app_delayed_init domain s = (inr r, s') → ∃ e, r = Fail e.
Proof.
  unfold app_delayed_init, get_oidc_client, look, net, onet, put_oidc_client, get_config, e_some, mbind, EM_bind. cbn.
  destruct (ow_client _); [done|]. destruct (get_app_id _ _); cbn; [|intros [= <- <-]; by eexists].
  destruct (get_oidc_issuer_url _ _); cbn; [|intros [= <- <-]; by eexists].
  destruct (issuer_url_ok _); [|intros [= <- <-]; by eexists].
  unfold net. cbn. destruct (http_client_build _ _ _) as [[hc|] n1]; cbn; [|intros [= <- <-]; by eexists].
  destruct (discover _ _ _) as [[pm|] n2]; cbn; [done|]. intros [= <- <-]; by eexists.
Qed.

Lemma add_registers m tenant range :
  cstring_ok domain = true → cstring_ok tenant = true → is_Some (ranges (add_gen_domain m domain tenant range).1 !! tenant).
Proof.
  intros Hd Ht. unfold add_gen_domain. destruct (ranges m !! tenant) eqn:Hr; [simpl; by rewrite Hr|]. rewrite Hd, Ht. simpl.
  destruct (sss_idmap_add_gen_domain_ex _ _ _ _); simpl; by rewrite lookup_insert_eq.
Qed.

Lemma failed_init_stuck s s' tenant :
  ow_client (e_net s) = None → oidc_tenant s = Some tenant → cstring_ok domain = true → cstring_ok tenant = true →
  oidc_delayed_init (R := unit) domain s = (inl false, s') → init_stuck s'.
Proof.
  intros Hc Ht Hd Hn. destruct s as [eh ei em ea [ec en] ehd el]. cbn in Hc, Ht. subst ec.
  unfold oidc_tenant in Ht. cbn in Ht. destruct (get_oidc_issuer_url _ _) as [url|] eqn:Hu; [|done]. cbn in Ht. injection Ht as <-.
  unfold oidc_delayed_init, get_oidc_client, look, net, mbind, EM_bind. cbn.
  unfold attempt, oidc_first_init, oidc_tenant_id, get_config, mbind, EM_bind. cbn. rewrite Hu. cbn. unfold idmap_io. cbn.
  pose proof (add_registers em (hyphenated (uuid_v5 HIMMELBLAU_OIDC_NAMESPACE url)) (get_idmap_range (as_config ea) domain) Hd Hn) as Hr.
  destruct (add_gen_domain _ _ _ _) as [m' [[]|err]]; cbn in *.
  - match goal with |- context [app_delayed_init domain ?s1] => destruct (app_delayed_init domain s1) as [[[]|x] s2] eqn:Ha end; [done|].
    destruct (app_init_exits _ _ _ Ha) as [e ->]. apply app_init_inert in Ha. intros [= <-].
    apply (stuck_same _ _ Ha). split; [done|]. exists (hyphenated (uuid_v5 HIMMELBLAU_OIDC_NAMESPACE url)). unfold oidc_tenant. cbn. by rewrite Hu.
  - intros [= <-]. split; [done|]. exists (hyphenated (uuid_v5 HIMMELBLAU_OIDC_NAMESPACE url)). unfold oidc_tenant. cbn. by rewrite Hu.
Qed.

(** *** The provider afterwards *)

(** A method of the provider was called, or the rest of the world moved on: the network,
    the clock, the keys and the state of the session are then any. *)
Inductive oidc_step : State → State → Prop :=
| oidc_step_get id_ token s : oidc_step s (oidc_user_get domain id_ token s).2
| oidc_step_access id_ scopes old s : oidc_step s (oidc_user_access domain id_ scopes old s).2
| oidc_step_change mk a token new s : oidc_step s (oidc_change_auth_token domain mk a token new s).2
| oidc_step_online now s : oidc_step s (oidc_check_online (R := unit) domain now s).2
| oidc_step_init a svc nhp fr s : oidc_step s (oidc_online_auth_init domain a svc nhp fr s).2
| oidc_step_login mk a old nhp req s : oidc_step s (oidc_online_auth_step domain mk a old nhp req s).2
| oidc_step_world s h hd n :
    oidc_step s (set_handler hd (set_hello h (set_net {| ow_client := ow_client (e_net s); ow_net := n |} s))).

Lemma inert_stuck {R A} (m : EM (OidcWorld N) R A) s : inert m → init_stuck s → init_stuck (m s).2.
Proof. intros Hm. apply stuck_same, Hm. Qed.

Lemma stuck_attempt_online {R} now s : init_stuck s → init_stuck (oidc_attempt_online (R := R) domain now s).2.
Proof.
  intros Hs. unfold oidc_attempt_online. rewrite stuck_bind by done. apply inert_stuck; [|done].
  apply inert_bind; [apply net_down_inert|intros _; apply inert_ret].
Qed.

Lemma oidc_step_stuck s s' : oidc_step s s' → init_stuck s → init_stuck s'.
Proof.
  intros [] Hs; unfold oidc_user_get, oidc_user_access, oidc_change_auth_token, oidc_online_auth_init, oidc_online_auth_step;
    rewrite ?stuck_bind by done; try (by apply inert_stuck).
  - apply inert_stuck; [|done]. apply inert_bind; [apply net_down_inert|intros _; apply inert_ret].
  - unfold oidc_check_online. unfold mbind at 1, EM_bind at 1. cbn.
    destruct (state _); [by apply inert_stuck; [apply inert_ret|]..|].
    destruct (_ <=? _); [by apply stuck_attempt_online|]. by apply inert_stuck; [apply inert_ret|].
  - apply inert_stuck; [|done]. apply inert_bind; [apply net_down_inert|intros _; apply inert_ret].
  - apply inert_stuck; [|done]. apply inert_bind; [apply net_down_inert|intros _; apply inert_return].
  - by apply (stuck_same s0).
Qed.

(** C36. A discovery that fails is never made up for. If the OpenID provider cannot be
    reached when the OIDC provider is first used, then after any further calls, and with
    any later network, it is still not initialised: the tenant has already been entered
    into the id map, and entering it again is refused before the discovery is tried again.
    No login can begin any more, and no user is looked up, until the daemon restarts. *)
Theorem oidc_init_never_recovers s s1 s2 tenant :
  ow_client (e_net s) = None → oidc_tenant s = Some tenant → cstring_ok domain = true → cstring_ok tenant = true →
  oidc_delayed_init (R := unit) domain s = (inl false, s1) → rtc oidc_step s1 s2 →
  oidc_delayed_init (R := unit) domain s2 = (inl false, s2) ∧
  (∀ a svc nhp fr r s3, run_em (oidc_online_auth_init domain a svc nhp fr) s2 = (Some r, s3) → r = Ok outage) ∧
  (∀ id_ token r s3, run_em (oidc_user_get domain id_ token) s2 = (Some r, s3) → r = Ok UserTokenState_UseCached).
Proof.
  intros Hc Ht Hd Hn Hf Hr.
  assert (init_stuck s2) as Hs.
  { pose proof (failed_init_stuck _ _ _ Hc Ht Hd Hn Hf) as H1. clear Hf. induction Hr; eauto using oidc_step_stuck. }
  split; [by apply stuck_delayed_init|]. split.
  - intros a svc nhp fr r s3. unfold run_em, oidc_online_auth_init. rewrite stuck_bind by done.
    destruct (net_down_then (R := AuthRequest * AuthCredHandler) outage s2) as [[s' ->]|[s' ->]]; [by intros [= <- <-]|done].
  - intros id_ token r s3. unfold run_em, oidc_user_get. rewrite stuck_bind by done.
    destruct (net_down_then (R := UserTokenState) UserTokenState_UseCached s2) as [[s' ->]|[s' ->]]; [by intros [= <- <-]|done].
Qed.

End init.

(** ** Polls of the device flow *)

(** The fields of [MFAAuthContinue] are those it was made with. *)
Class FlowLaws `{OE : OidcEnv} : Prop := {
  flow_new_max msg m i : oidc_flow_max_poll_attempts (oidc_flow_new msg m i) = m;
  flow_new_interval msg m i : oidc_flow_polling_interval (oidc_flow_new msg m i) = i;
  flow_set_max i f : oidc_flow_max_poll_attempts (oidc_flow_set_polling_interval i f) = oidc_flow_max_poll_attempts f
}.

Section polls.
Context {X : Ext} {C : Crypto} {HO : HelloOps} {E : Env} {HE : HelloEnv} {UNI : Unistring}.
Context {INI : IniFile} {G : GeneratedConfig} {PC : PamConfig} {EC : EntraConfig} {OC : OidcConfig} {H : Host} {F : Federation} {T : TextOps}.
Context {N : Type} {OE : OidcEnv N} {FL : FlowLaws}.
Context (domain : string) (mk : MachineKey) (account : string) (old : UserToken) (nhp : bool).
Implicit Types s : EState (OidcWorld N).

Lemma secs_u32_id d : in_u32 d → secs_u32 d = d.
Proof. unfold in_u32, u32_max, secs_u32, wrap32. intros Hd. apply Z.mod_small. lia. Qed.

Lemma poll_budget d n :
  in_u32 (da_interval d) → in_u32 (da_expires_in d) → 0 < da_interval d →
  (n <=? max_poll_attempts_of d) = (n * da_interval d <=? da_expires_in d).
Proof.
  intros Hi He Hp. unfold max_poll_attempts_of. rewrite !secs_u32_id by done.
  destruct (Z.eqb_spec (da_interval d) 0) as [Hz|_]; [lia|]. apply eq_bool_prop_intro. rewrite !Is_true_true, !Z.leb_le.
  split; intros Hn.
  - pose proof (Z.mul_div_le (da_expires_in d) (da_interval d) Hp).
    pose proof (Z.mul_le_mono_nonneg_r _ _ (da_interval d) ltac:(lia) Hn). lia.
  - apply Z.div_le_lower_bound; lia.
Qed.

(** A device flow is polled exactly as long as its code lives: the poll with number [n]
    (the first one has number 0) of a flow begun for a response of the provider asks the
    token endpoint if and only if it is the first one or [n] times the interval, which is
    not zero, is within the lifetime of the code; a later one is refused without any
    request. With an interval of zero only the first poll is made, and already the second
    one is taken for a timeout, however long the code lives. *)
Theorem device_poll_bounded d flow dag_json n s s1 s2 :
  in_u32 (da_interval d) → in_u32 (da_expires_in d) → 0 ≤ n →
  mfa_from_oidc_device (R := unit) d s = (inl (flow, dag_json), s1) →
  let in_time := (n =? 0) || ((0 <? da_interval d) && (n * da_interval d <=? da_expires_in d)) in
  device_flow_arm account nhp flow dag_json (PamAuthRequest_MFAPoll n) s2 =
    if in_time then match dag_from_str dag_json with
                    | Some details => poll_device_flow account nhp details s2
                    | None => denied SESSION_CORRUPTED s2
                    end
    else (inr (Hello.Return (AuthResult_Denied POLL_TIMED_OUT, AuthCacheAction_None)), s2).
Proof.
  intros Hi He Hn Hm. unfold mfa_from_oidc_device, mbind, EM_bind, e_some in Hm.
  destruct (dag_to_string d) as [json|]; [|done]. injection Hm as <- <- <-. simpl.
  unfold polls_left. rewrite flow_new_max. simpl. unfold in_u32 in Hi, He.
  destruct (Z.ltb_spec 0 (da_interval d)) as [Hp|Hz]; simpl.
  - rewrite poll_budget by done. replace ((n =? 0) || _) with (n * da_interval d <=? da_expires_in d)
      by (destruct (Z.eqb_spec n 0) as [->|]; simpl; [apply Z.leb_le; lia|done]).
    destruct (_ <=? _); [|done]. by destruct (dag_from_str json).
  - assert (da_interval d = 0) as H0 by lia. unfold max_poll_attempts_of. rewrite H0. simpl. rewrite orb_false_r.
    replace (n <=? 0) with (n =? 0) by (destruct (Z.eqb_spec n 0) as [->|]; symmetry; [done|apply Z.leb_gt; lia]).
    destruct (n =? 0); [|done]. by destruct (dag_from_str json).
Qed.

End polls.

(** ** Numbers of the static map *)

Section numbers.
Context {X : Ext} {C : Crypto} {HO : HelloOps} {E : Env} {HE : HelloEnv} {UNI : Unistring}.
Context {INI : IniFile} {G : GeneratedConfig} {PC : PamConfig} {EC : EntraConfig} {OC : OidcConfig} {H : Host} {F : Federation} {T : TextOps}.
Context {N : Type} {OE : OidcEnv N}.
Context (domain : string).

(** The entry of the static map, however the network is. *)
Definition static_entry (account : string) (u : StaticUser) : Prop :=
  ∀ n, let '(file, c) := StaticIdCache_new running_as_root false oidc_id_cache_faults (oidc_id_cache_file n) in
       match c with Some c => get_user_by_name c account file = Some u | None => True end.

Lemma oidc_numbers_static {R} tenant account u (K : R → Prop) :
  static_entry account u → ensures (U := OidcWorld N) (oidc_numbers tenant account) (λ p, p = (su_uid u, su_gid u)) K.
Proof.
  intros Hu s. unfold oidc_numbers, open_oidc_id_cache, onet, net, mbind, EM_bind, ewp. cbn.
  specialize (Hu (ow_net (e_net s))). destruct (StaticIdCache_new _ _ _ _) as [file [c|]]; cbn; [|done]. by rewrite Hu.
Qed.

Lemma oidc_tenant_straight {R} : straight (U := OidcWorld N) (R := R) oidc_tenant_id.
Proof. unfold oidc_tenant_id. straight_tac. Qed.

Lemma straight_onet {R A} (f : N → A * N) : straight (R := R) (onet f).
Proof. apply straight_net. Qed.

Lemma oidc_init_straight {R} : straight (U := OidcWorld N) (R := R) (oidc_delayed_init domain).
Proof. unfold oidc_delayed_init, get_oidc_client. straight_tac. Qed.

Lemma oidc_user_get_static account u token :
  static_entry account u →
  let Q r := ∀ t, r = UserTokenState_Update t → t_gidnumber t = su_gid u ∧ t_real_gidnumber t = Some (su_uid u) in
  ensures (U := OidcWorld N) (oidc_user_get domain (Id_Name account) token) Q Q.
Proof.
  intros Hu Q. eapply ensures_bind; [apply ensures_straight, oidc_init_straight|intros [] _].
  - eapply ensures_bind; [apply ensures_straight, oidc_tenant_straight|intros tenant _].
    eapply (ensures_bind _ _ (λ _, True)); [destruct token; [done|apply ensures_straight, straight_onet]|intros oid _].
    eapply ensures_bind; [by apply oidc_numbers_static|intros [uid gid] [= -> ->]].
    skip. apply ensures_ret. by intros t [= <-].
  - eapply ensures_bind; [apply ok_net_down|intros _ _]. by apply ensures_ret.
Qed.

(** The OIDC provider swaps the two numbers of a user of the static id map: for a user
    mapped to a uid and a gid, the token it makes gives NSS the gid as the uid and the uid
    as the gid. *)
Theorem oidc_static_ids_swapped {SD : Serde} {P : IdProvider} {L : LruCache} (res : Resolver) account u token s t s' :
  static_entry account u →
  run_em (U := OidcWorld N) (oidc_user_get domain (Id_Name account) token) s = (Some (Ok (UserTokenState_Update t)), s') →
  nu_uid (nss_user res t) = su_gid u ∧ nu_gid (nss_user res t) = su_uid u.
Proof.
  intros Hu Hr. destruct (ensures_run _ _ _ _ _ (oidc_user_get_static account u token Hu) Hr t eq_refl) as [Hg Hn].
  simpl. by rewrite Hn, Hg.
Qed.

End numbers.
