(* ===== verification/OidcStepTheorems.v ===== *)
(** * Properties of a login with the OIDC provider

    What a user has shown when a step of the OIDC provider lets him in; what a step may
    touch; that it always returns; and what an outage costs him. *)
From stdpp Require Import base gmap strings list fin_maps.
From Stdlib Require Import ZArith Lia Ascii.
From S2P Require Import Prelude Proto Interface Db Runtime Caches Idmap UserMap Config Hello HelloTheorems Pam Daemon Entra EntraUser EntraInit EntraDevice EntraStep EntraTheorems EntraStepTheorems EntraLocks EntraFrame Oidc OidcProvider OidcTheorems.

Open Scope rust_scope.

(** ** What was shown *)

Section evidence.
Context {X : Ext} {C : Crypto} {HO : HelloOps} {E : Env} {HE : HelloEnv} {UNI : Unistring}.
Context {INI : IniFile} {G : GeneratedConfig} {PC : PamConfig} {EC : EntraConfig} {OC : OidcConfig} {H : Host} {F : Federation} {T : TextOps}.
Context {N : Type} {OE : OidcEnv N}.
Context (domain : string) (mk : MachineKey) (account : string) (old : UserToken) (nhp : bool).
Context (handler : AuthCredHandler) (req : PamAuthRequest) (before : HState).

Notation Answer := (AuthResult * AuthCacheAction)%type.
Notation World := (OidcWorld N).

(** The token endpoint answered a request with this body by the token. *)
Definition redeemed (body : string → list (string * string)) (token : OidcTokenResponse) : Prop :=
  ∃ client url n n' b, client_token_uri (od_client client) = Some url ∧
    http_post (od_http_client client) url (body (dag_client_id (od_client client))) n = (Post_Done true b, n') ∧
    token_from_slice b = Ok token.

(** [t] was made from what the provider tells about the user of the token, and that user
    bears the name of the account. *)
Definition oidc_user (token : OidcTokenResponse) (t : UserToken) : Prop :=
  ∃ client info n n' name,
    client_user_info (od_client client) (or_access_token token) (od_http_client client) n = (Some info, n') ∧
    userinfo_account info = Some name ∧ to_lowercase account = to_lowercase name ∧ t_name t = name ∧ t_spn t = name.

(** The state kept in the handler. *)
Definition stored (extra : OidcMfaExtraData) : Prop :=
  ∃ flow password raw pin, handler = AuthCredHandler_MFA flow password (Some raw) pin ∧
    parse_oidc_mfa_extra_data raw = extra.

Definition stored_dag (d : DeviceAuth) : Prop :=
  ∃ json, dag_from_str json = Some d ∧
    (stored (OidcMfaExtraData_DeviceFlow json) ∨
     ∃ st, stored (OidcMfaExtraData_Orchestrator st) ∧ fs_dag_json st = Some json).

(** A PIN the TPM takes for the account's key; the end of the device flow begun for this
    login; the end of its browser session, with a refresh token that is worth something;
    or a TOTP code after a PIN. *)
Inductive oidc_shown : Prop :=
| oidc_shown_pin cred sk : req = PamAuthRequest_Pin cred → pin_accepted before account cred mk sk → oidc_shown
| oidc_shown_device d token t :
    stored_dag d → redeemed (device_token_body d) token → oidc_user token t → oidc_shown
| oidc_shown_browser st chunks sid bundle tok token t :
    stored (OidcMfaExtraData_Orchestrator st) → fs_dag_json st = None →
    orchestrator_next chunks [] = Some (OrchestratorResponse_SessionComplete sid true bundle) →
    tb_refresh_token bundle = Some tok → redeemed (refresh_token_body tok []) token → oidc_user token t → oidc_shown
| oidc_shown_totp pin pending code sk sealed s1 s2 :
    handler = AuthCredHandler_HelloTOTP pin pending → req = PamAuthRequest_HelloTOTP code →
    pin_accepted before account pin mk sk →
    (pending = Some sealed ∨ h_keys before !! fetch_hello_totp_key_tag account ≫= sealed_from_slice = Some sealed) →
    check_totp (R := Answer) sk sealed code s1 = (inl true, s2) → oidc_shown.

(** The user shows one of these now, or sets up a PIN. *)
Definition sets_up_pin : Prop :=
  ∃ token pin, handler = AuthCredHandler_SetupPin token ∧ req = PamAuthRequest_SetupPin pin.

Definition oidc_proven : Prop := oidc_shown ∨ sets_up_pin.

Definition oidc_granted (t : UserToken) : Prop := (∃ token, oidc_user token t) ∨ (t = old ∧ hello_request req).

Definition oidc_admits (r : Answer) : Prop :=
  match r.1 with
  | AuthResult_Success t => oidc_proven ∧ oidc_granted t
  | AuthResult_Next (AuthRequest_SetupPin _) => oidc_proven
  | _ => True
  end.

Lemma oidc_admits_lenient : lenient oidc_admits.
Proof. split; [done|]. intros [] action Hr; try done. by destruct (Hr msg). Qed.

Notation leaves Q m := (ensures (U := World) m Q oidc_admits).
Notation ok m := (leaves (λ _, True) m).

(** *** Requests *)

Lemma ensures_onet {R A} (f : N → A * N) (K : R → Prop) : ensures (onet f) (λ a, ∃ n n', f n = (a, n')) K.
Proof. intros s. unfold ewp, onet, net. destruct (f _) as [a n] eqn:Hf. eauto. Qed.

Lemma ensures_client {R} (K : R → Prop) : ensures (U := World) get_oidc_client (λ _, True) K.
Proof. by intros s. Qed.

Lemma post_token_sound {R} what body err (K : R → Prop) :
  ensures (U := World) (post_token what body err) (λ r, ∀ token, r = Ok token → redeemed body token) K.
Proof.
  unfold post_token. eapply ensures_bind; [apply ensures_client|intros [client|] _]; [|by apply ensures_ret].
  destruct (client_token_uri _) as [url|] eqn:Hu; [|by apply ensures_ret].
  eapply ensures_bind; [apply ensures_onet|intros r (n & n' & Hr)]. apply ensures_ret. intros token Ht.
  destruct r as [e|e|[] b]; try discriminate Ht.
  - destruct (token_from_slice b) as [tok|] eqn:Hb; [|done]. injection Ht as <-. by exists client, url, n, n', b.
  - by destruct (oauth_error_from_slice b) as [[]|].
Qed.

Lemma user_token_named {R} token shell tenant (K : R → Prop) :
  ensures (U := World) (user_token_from_oidc token shell tenant)
    (λ t, ∃ client info n n' name,
       client_user_info (od_client client) (or_access_token token) (od_http_client client) n = (Some info, n') ∧
       userinfo_account info = Some name ∧ t_name t = name ∧ t_spn t = name) K.
Proof.
  unfold user_token_from_oidc. eapply ensures_bind; [apply ensures_client|intros client _].
  eapply ensures_bind; [apply ensures_some|intros di ->]. eapply ensures_bind; [apply ensures_onet|intros o (n & n' & Ho)].
  eapply ensures_bind; [apply ensures_some|intros info ->]. eapply ensures_bind; [apply ensures_some|intros name Hn].
  eapply (ensures_bind _ _ (λ _, True)).
  - apply ensures_straight. unfold oidc_numbers, open_oidc_id_cache, idmap_number, onet. straight_tac.
  - intros [uid gid] _. apply ensures_ret. by exists di, info, n, n', name.
Qed.

Lemma oidc_validate_user token :
  let Q r := match r with
             | AuthResult_Success t => oidc_user token t
             | AuthResult_Denied _ => True
             | AuthResult_Next _ => False
             end in
  ensures (U := World) (oidc_token_validate account token) Q Q.
Proof.
  intros Q. unfold oidc_token_validate. eapply ensures_bind; [apply ensures_straight, oidc_tenant_straight|intros tenant _].
  skip. eapply ensures_bind; [apply user_token_named|intros t (c & info & n & n' & name & Hi & Hn & Ht & Hs)].
  destruct (String.eqb_spec (to_lowercase account) (to_lowercase (t_name t))) as [He|]; [|by apply ensures_ret].
  eapply (ensures_bind _ _ (λ _, True)); [destruct (or_refresh_token token); [apply ensures_straight, straight_add|done]|].
  intros _ _. apply ensures_ret. exists c, info, n, n', name. by rewrite <- Ht at 2.
Qed.

(** *** Linux Hello *)

Lemma oidc_ok_memory : ok (memory_refresh_token account).
Proof.
  unfold memory_refresh_token, memory_entry. eapply ensures_bind.
  - eapply ensures_bind; [apply ensures_attempt_any|intros r _]. by apply (ensures_ret _ (λ _, True)).
  - intros [[]|] _; [apply lenient_denied, oidc_admits_lenient|done|apply lenient_denied, oidc_admits_lenient].
Qed.

Lemma oidc_ok_refresh_token key cred entry : ok (oidc_refresh_token mk account key cred entry).
Proof.
  unfold oidc_refresh_token. destruct entry as [[sealed|]|]; [|apply oidc_ok_memory..].
  eapply ensures_bind; [apply ensures_some|intros pin _].
  apply ensures_any_bind; [apply ensures_hello; hello_walk|intros o].
  eapply ensures_bind; [apply ensures_some|intros sk _].
  apply ensures_any_bind; [apply ensures_hello; hello_walk|intros [b|]]; [|apply oidc_ok_memory].
  eapply ensures_weaken, ensures_some.
Qed.

Lemma oidc_ok_drop {A} (Q : A → Prop) : leaves Q (drop_hello_key account (A := A)).
Proof.
  unfold drop_hello_key. apply ensures_any_bind; [apply ensures_hello; hello_walk|intros r].
  apply ensures_any_bind; [eapply ensures_weaken, ensures_ok|intros _]. apply lenient_denied, oidc_admits_lenient.
Qed.

Lemma oidc_ok_seal key pin token : ok (oidc_seal mk account key pin token).
Proof.
  unfold oidc_seal. apply ensures_any_bind; [apply ensures_hello; hello_walk|intros o].
  eapply ensures_bind; [apply ensures_some|intros sk _]. destruct (or_refresh_token token) as [tok|].
  2: apply lenient_denied, oidc_admits_lenient.
  eapply ensures_bind; [apply ensures_straight, oidc_tenant_straight|intros tenant _]. skip.
  eapply ensures_bind; [apply user_token_named|intros t _].
  apply ensures_any_bind; [apply ensures_hello; hello_walk|intros o2].
  eapply ensures_bind; [apply ensures_some|intros sealed _].
  apply ensures_any_bind; [apply ensures_hello; hello_walk|intros r]. eapply ensures_weaken, ensures_ok.
Qed.

Section shown.
Hypothesis Hp : oidc_proven.

Lemma oidc_ok_totp_or {A} (Q : A → Prop) cred t : oidc_granted t → leaves Q (hello_totp_or mk account (A := A) cred t).
Proof. intros Ht. by apply lenient_totp_or; [apply oidc_admits_lenient|]. Qed.

Lemma oidc_ok_exchange cred tok : hello_request req → ok (oidc_exchange mk account old cred tok).
Proof.
  intros Hr. unfold oidc_exchange. eapply ensures_bind; [apply post_token_sound|intros [token|e] _].
  { apply ensures_any_bind; [apply ensures_hello; hello_walk|done]. }
  assert (ok (r ← hello (ks_delete (fetch_hello_refresh_token_key_tag account)); _ ← e_ok IdpError_Tpm r;
              r ← hello (ks_delete (fetch_hello_key_tag account false)); _ ← e_ok IdpError_Tpm r;
              _ ← hello (reset_bad_pin_count account); denied (A := OidcTokenResponse) SESSION_EXPIRED)) as Hd.
  { repeat first [apply ensures_any_bind; [first [apply ensures_hello; hello_walk|eapply ensures_weaken, ensures_ok]|intros ?]].
    apply lenient_denied, oidc_admits_lenient. }
  destruct e; try exact Hd. apply ensures_any_bind; [apply ok_net_down|intros _]. apply oidc_ok_totp_or. by right.
Qed.

Lemma oidc_ok_hello_token key kt cred : hello_request req → ok (oidc_hello_token mk account old key kt cred).
Proof.
  intros Hr. unfold oidc_hello_token. apply ensures_any_bind; [apply ensures_hello; hello_walk|intros entry].
  destruct kt; [apply oidc_ok_drop|]. apply ensures_any_bind; [apply oidc_ok_refresh_token|intros tok].
  by apply oidc_ok_exchange.
Qed.

Lemma oidc_ok_validate_hello {A} (Q : A → Prop) cred token : leaves Q (oidc_validate_hello mk account (A := A) cred token).
Proof.
  eapply ensures_bind; [apply ensures_attempt, oidc_validate_user|].
  intros [[t|msg|]|e] Ht; simpl; [|apply lenient_denied, oidc_admits_lenient|done..].
  apply oidc_ok_totp_or. left. eauto.
Qed.

End shown.

(** The key is loaded before anything is asked. *)
Lemma oidc_auth_admits key kt cred s :
  hello_request req →
  (∀ pin sk, pin_value_new cred = Some pin →
     (ms_hello_key_load mk key pin (h_tpm (e_hello s))).1 = Some sk → oidc_proven) →
  ewp (oidc_auth_and_validate (N := N) mk account old (A := Answer) key kt cred)
    (λ a _, oidc_admits a) (λ r _, oidc_admits r) s.
Proof.
  intros Hr Hload. unfold oidc_auth_and_validate. apply ewp_bind. unfold ewp at 1.
  destruct (pin_value_new cred) as [pin|]; [|done]. simpl. apply ewp_bind. unfold ewp at 1, hello, with_tpm.
  destruct (ms_hello_key_load _ _ _ _) as [[sk|] h] eqn:Hl; simpl; [|apply lenient_bad_pin, oidc_admits_lenient].
  assert (oidc_proven) as Hp by (eapply Hload; [done|by rewrite Hl]).
  match goal with |- ewp ?m _ _ ?s1 => assert (leaves oidc_admits m) as Hm; [|exact (Hm s1)] end.
  apply ensures_any_bind; [by apply oidc_ok_hello_token|intros token].
  apply ensures_any_bind; [apply oidc_ok_seal|intros _]. by apply oidc_ok_validate_hello.
Qed.

Lemma oidc_pin_admits cred s :
  req = PamAuthRequest_Pin cred → e_hello s = before →
  ewp (oidc_pin_arm (N := N) mk account old cred) (λ a _, oidc_admits a) (λ r _, oidc_admits r) s.
Proof.
  intros Hq Hb. unfold oidc_pin_arm. apply ewp_bind. unfold ewp at 1, hello.
  destruct (fetch_hello_key_or_fail account (e_hello s)) as [[k|[]] h] eqn:Hf; simpl; try done.
  2: { assert (no_return (λ _, False) (fetch_hello_key_or_fail (R := Answer) account)) as Hn by hello_walk.
       by apply Hn in Hf. }
  apply fetch_inv in Hf as [(T1 & T2 & T3) Hk]. destruct k as [key kt]. apply oidc_auth_admits; [by exists cred; left|].
  simpl. rewrite T3, Hb. intros pin sk Hp Hl. left. apply (oidc_shown_pin cred sk); [done|]. exists key, pin. by rewrite <- Hb at 1.
Qed.

Lemma oidc_setup_admits token pin :
  handler = AuthCredHandler_SetupPin token → req = PamAuthRequest_SetupPin pin →
  leaves oidc_admits (oidc_setup_pin_arm mk account old pin).
Proof.
  intros Hh Hq. unfold oidc_setup_pin_arm. assert (oidc_proven) as Hp by (right; by exists token, pin).
  apply ensures_any_bind; [apply ensures_hello; unfold create_decoupled_hello_key; hello_walk|intros key].
  apply ensures_any_bind; [apply ensures_hello; hello_walk|intros r].
  apply ensures_any_bind; [eapply ensures_weaken, ensures_ok|intros _].
  intros s. apply oidc_auth_admits; [|done]. exists pin. auto.
Qed.

(** *** The device flow and the orchestrator *)

Lemma oidc_ok_finalize {A} (Q : A → Prop) token :
  (∀ t, oidc_user token t → oidc_proven) → leaves Q (finalize_mfa_success account nhp (A := A) token).
Proof.
  intros Hp. eapply ensures_bind; [apply ensures_attempt, oidc_validate_user|].
  intros [[t|msg|]|e] Ht; [|apply ensures_return; done..|done].
  assert (oidc_admits (AuthResult_Success t, AuthCacheAction_None)) as Ha by (split; [by eapply Hp|left; eauto]).
  apply ensures_any_bind; [done|intros cfg]. destruct (_ || _); [by apply ensures_return|].
  apply ensures_any_bind; [done|intros _]. apply ensures_return. by eapply Hp.
Qed.

Lemma oidc_ok_poll {A} (Q : A → Prop) d : stored_dag d → leaves Q (poll_device_flow account nhp (A := A) d).
Proof.
  intros Hd. eapply ensures_bind; [apply post_token_sound|intros [token|e] Hr].
  - apply oidc_ok_finalize. intros t Ht. left. eapply oidc_shown_device; eauto.
  - destruct e; [apply lenient_denied, oidc_admits_lenient..|]. by apply lenient_next; [apply oidc_admits_lenient|].
Qed.

Lemma oidc_ok_device flow json :
  (∀ d, dag_from_str json = Some d → stored_dag d) → leaves oidc_admits (device_flow_arm account nhp flow json req).
Proof.
  intros Hd. unfold device_flow_arm. destruct req; try (apply lenient_denied, oidc_admits_lenient).
  destruct (polls_left _ _); [|apply lenient_denied, oidc_admits_lenient].
  destruct (dag_from_str json) as [d|] eqn:Hj; [by apply oidc_ok_poll, Hd|apply lenient_denied, oidc_admits_lenient].
Qed.

Lemma send_command_sound {R} ocfg command (K : R → Prop) :
  ensures (U := World) (orchestrator_send_command ocfg command)
    (λ r, ∀ m, r = Ok m → ∃ chunks, orchestrator_next chunks [] = Some m) K.
Proof.
  unfold orchestrator_send_command. eapply ensures_bind; [apply ensures_onet|intros [] _]; [|by apply ensures_ret].
  destruct (orchestrator_encode _ _); [|by apply ensures_ret].
  eapply ensures_bind; [apply ensures_onet|intros io _]. apply ensures_ret. intros m.
  destruct (io_sent io); [|done]. destruct (orchestrator_next _ _) as [m'|] eqn:Hn; [|done]. intros [= <-]. eauto.
Qed.

Lemma oidc_ok_wait ocfg flow password pin extra r :
  (∀ msg, r ≠ AuthRequest_SetupPin msg) → leaves oidc_admits (orchestrator_wait ocfg flow password pin extra r).
Proof.
  intros Hr. eapply ensures_bind; [apply ensures_some|intros raw _]. apply ensures_any_bind; [done|intros _].
  by apply lenient_next; [apply oidc_admits_lenient|].
Qed.

Lemma prompt_not_setup inputs secs msg : auth_request_from_orchestrator_inputs inputs secs ≠ AuthRequest_SetupPin msg.
Proof. unfold auth_request_from_orchestrator_inputs. by repeat case_match. Qed.

Lemma oidc_ok_complete st dag_flow chunks sid success bundle :
  stored (OidcMfaExtraData_Orchestrator st) → (fs_dag_json st = None ∨ ∃ d, dag_flow = Some d) →
  (∀ d, dag_flow = Some d → stored_dag d) →
  orchestrator_next chunks [] = Some (OrchestratorResponse_SessionComplete sid success bundle) →
  leaves oidc_admits (orchestrator_complete account nhp dag_flow success bundle).
Proof.
  intros Hst Hn Hd Hm. unfold orchestrator_complete. destruct success; [|apply lenient_denied, oidc_admits_lenient].
  destruct dag_flow as [d|]; [by apply oidc_ok_poll, Hd|].
  destruct (tb_refresh_token bundle) as [tok|] eqn:Ht; [|apply lenient_denied, oidc_admits_lenient].
  eapply ensures_bind; [apply post_token_sound|intros [token|e] Hr]; [|apply lenient_denied, oidc_admits_lenient].
  apply oidc_ok_finalize. intros t Hu. destruct Hn as [Hn|[? ?]]; [|done]. left. eapply oidc_shown_browser; eauto.
Qed.

Lemma oidc_ok_step ocfg flow password pin st dag_flow :
  stored (OidcMfaExtraData_Orchestrator st) → (fs_dag_json st = None ∨ ∃ d, dag_flow = Some d) →
  (∀ d, dag_flow = Some d → stored_dag d) →
  leaves oidc_admits (orchestrator_step account nhp ocfg flow password pin st dag_flow req).
Proof.
  intros Hst Hn Hd. unfold orchestrator_step.
  destruct (orchestrator_inputs_from_pam_request _ _) as [provided|]; [|apply lenient_denied, oidc_admits_lenient].
  eapply ensures_bind; [apply send_command_sound|intros [m|e] Hr].
  - destruct (Hr m eq_refl) as [chunks Hc]. destruct m; try (apply lenient_denied, oidc_admits_lenient).
    + apply oidc_ok_wait. intros msg. apply prompt_not_setup.
    + by eapply oidc_ok_complete.
  - destruct (fs_dag_json st); [by apply oidc_ok_wait|apply lenient_denied, oidc_admits_lenient].
Qed.

Lemma oidc_ok_orchestrator flow password pin st :
  stored (OidcMfaExtraData_Orchestrator st) →
  leaves oidc_admits (orchestrator_arm account nhp flow password pin st req).
Proof.
  intros Hst. unfold orchestrator_arm. apply ensures_any_bind; [done|intros ocfg].
  eapply (ensures_bind _ _ (λ dag_flow, (fs_dag_json st = None ∨ ∃ d, dag_flow = Some d) ∧
                                         ∀ d, dag_flow = Some d → stored_dag d)).
  - destruct (fs_dag_json st) as [raw|] eqn:Hj; [|by apply ensures_ret; split; [left|]].
    destruct (dag_from_str raw) as [d|] eqn:Hd; [|apply lenient_denied, oidc_admits_lenient].
    apply ensures_ret. split; [eauto|]. intros ? [= <-]. exists raw. eauto.
  - intros dag_flow [Hn Hd]. apply ensures_any_bind; [|intros _; by apply oidc_ok_step].
    destruct req; try by apply ensures_ret. destruct (polls_left _ _); [|apply lenient_denied, oidc_admits_lenient].
    destruct dag_flow as [d|]; [by apply oidc_ok_poll, Hd|by apply ensures_ret].
Qed.

Lemma oidc_ok_mfa flow password extra pin :
  handler = AuthCredHandler_MFA flow password extra pin → leaves oidc_admits (oidc_mfa_arm account nhp flow password extra pin req).
Proof.
  intros Hh. unfold oidc_mfa_arm. destruct extra as [raw|]; [|apply lenient_denied, oidc_admits_lenient].
  destruct (parse_oidc_mfa_extra_data raw) as [json|st] eqn:Hr.
  - apply oidc_ok_device. intros d Hd. exists json. split; [done|]. left. by exists flow, password, raw, pin.
  - apply oidc_ok_orchestrator. by exists flow, password, raw, pin.
Qed.

(** *** The whole step *)

Lemma oidc_totp_admits hp pending code (s : EState World) :
  handler = AuthCredHandler_HelloTOTP hp pending → req = PamAuthRequest_HelloTOTP code → e_hello s = before →
  ewp (hello (handle_hello_pin_totp_auth (as_config (e_alias s)) account old code hp mk pending
                (λ r, (r, AuthCacheAction_None)))) (λ a _, oidc_admits a) (λ r _, oidc_admits r) s.
Proof.
  intros Hh Hq Hb. unfold ewp, hello.
  set (m := handle_hello_pin_totp_auth _ _ _ _ _ _ _ _).
  assert (∀ msg action, oidc_admits (AuthResult_Denied msg, action)) as Hd by done.
  assert (no_return oidc_admits m) as Hn by (unfold m, handle_hello_pin_totp_auth, check_totp, handle_hello_bad_pin_count; hello_walk).
  destruct (m (e_hello s)) as [[r|[]] h] eqn:Hm; try done; [|by eapply Hn].
  apply totp_auth_inv in Hm as [->|(-> & sk & sealed & s1 & s2 & Hp & Hdd & Hc)]; [done|]. rewrite Hb in Hp, Hdd.
  split; [left; by eapply oidc_shown_totp|]. right. split; [done|]. exists code. auto.
Qed.

Lemma oidc_arms_admit (s : EState World) :
  e_hello s = before →
  ewp (oidc_arms mk account old nhp handler req) (λ a _, oidc_admits a) (λ r _, oidc_admits r) s.
Proof.
  intros Hb. unfold oidc_arms.
  destruct req as [cred|cred|cred|n|pin|cred|assertion|] eqn:Hq;
    destruct handler eqn:Hh; rewrite <- ?Hq, <- ?Hh; try (by apply oidc_pin_admits);
    try (apply oidc_ok_mfa; exact Hh); try (apply lenient_denied, oidc_admits_lenient).
  - apply ewp_bind. unfold ewp at 1. cbn [get_config]. exact (oidc_totp_admits _ _ _ _ Hh Hq Hb).
  - by eapply oidc_setup_admits.
Qed.

End evidence.

(** ** No entry without a proof *)

Section entry.
Context {X : Ext} {C : Crypto} {HO : HelloOps} {E : Env} {HE : HelloEnv} {UNI : Unistring}.
Context {INI : IniFile} {G : GeneratedConfig} {PC : PamConfig} {EC : EntraConfig} {OC : OidcConfig} {H : Host} {F : Federation} {T : TextOps}.
Context {N : Type} {OE : OidcEnv N}.
Context (domain : string) (mk : MachineKey) (account : string) (old : UserToken) (nhp : bool).

Lemma keeps_session_attempt {R A} (m : EM (OidcWorld N) A A) : keeps_session m → keeps_session (R := R) (attempt m).
Proof. intros Hm s. specialize (Hm s). unfold attempt. by destruct (m s) as [[a|[]] s1]. Qed.

Lemma oidc_init_keeps {R} : keeps_session (U := OidcWorld N) (R := R) (oidc_delayed_init domain).
Proof.
  apply keeps_session_bind; [apply keeps_session_net|intros [c|]]; [done|].
  apply keeps_session_bind; [apply keeps_session_attempt|done].
  unfold oidc_first_init, oidc_tenant_id, app_delayed_init, get_oidc_client, look, onet, put_oidc_client.
  repeat first [apply keeps_session_net|apply keeps_session_some|apply keeps_session_idmap
               |progress intros|apply keeps_session_bind|done|case_match].
Qed.

Lemma oidc_step_admits req s :
  let Q r s' := oidc_admits mk account old (e_handler s) req (e_hello s) r in
  ewp (oidc_online_auth_step (N := N) domain mk account old nhp req) Q Q s.
Proof.
  intros Q. unfold oidc_online_auth_step. apply ewp_bind, ewp_straight; [apply oidc_init_straight|].
  intros init s1 Hi. destruct (oidc_init_keeps (R := AuthResult * AuthCacheAction) s) as [Hh Hc].
  rewrite Hi in Hh, Hc. simpl in *. destruct init.
  - apply ewp_bind. unfold ewp at 1. cbn [get_handler]. rewrite Hc. by apply oidc_arms_admit.
  - apply (ensures_any_bind _ _ (oidc_admits mk account old (e_handler s) req (e_hello s))
             (oidc_admits mk account old (e_handler s) req (e_hello s)) (ok_net_down _)).
    intros _. by apply ensures_return.
Qed.

(** C9. Nobody gets in with OpenID Connect without a proof. A step of an online login
    succeeds only if the user has shown a PIN that the TPM takes for the account's key, or
    has finished the device flow or the browser session that is kept for this login, so
    that the token endpoint gave a token whose user the provider names as the account, or
    gives a TOTP code after such a PIN, or is setting up a PIN; and the token given names
    the account, or, with Linux Hello only, is the one of the cache. And a PIN is asked to
    be set up only after such a proof. *)
Theorem oidc_success_needs_proof req s r action s' :
  run_em (oidc_online_auth_step (N := N) domain mk account old nhp req) s = (Some (Ok (r, action)), s') →
  (∀ t, r = AuthResult_Success t →
     oidc_proven (N := N) mk account (e_handler s) req (e_hello s) ∧ oidc_granted (N := N) account old req t) ∧
  (∀ msg, r = AuthResult_Next (AuthRequest_SetupPin msg) → oidc_proven (N := N) mk account (e_handler s) req (e_hello s)).
Proof.
  intros Hr. pose proof (ewp_run _ _ _ _ _ (oidc_step_admits req s) Hr) as Ha.
  split; [intros t ->|intros msg ->]; exact Ha.
Qed.

End entry.

(** ** What a step touches, and that it returns *)

Section frame.
Context {X : Ext} {C : Crypto} {HO : HelloOps} {E : Env} {HE : HelloEnv} {UNI : Unistring}.
Context {INI : IniFile} {G : GeneratedConfig} {PC : PamConfig} {EC : EntraConfig} {OC : OidcConfig} {H : Host} {F : Federation} {T : TextOps}.
Context {N : Type} {OE : OidcEnv N}.
Context (domain : string) (mk : MachineKey) (account : string) (old : UserToken) (nhp : bool).

Notation mine m := (apart (U := OidcWorld N) domain account m).

Lemma oidc_mine_onet {R A} (f : N → A * N) : mine (onet (R := R) f).
Proof. apply apart_net. Qed.
Lemma oidc_mine_client {R} : mine (get_oidc_client (R := R)).
Proof. apply apart_net. Qed.
#[local] Hint Resolve oidc_mine_onet oidc_mine_client mine_denied mine_next mine_answer mine_net_down mine_totp_or mine_bad_pin : frame.

Lemma oidc_mine_init {R} : mine (oidc_delayed_init (R := R) domain).
Proof. intros s. destruct (oidc_init_keeps domain (R := R) s) as [-> _]. reflexivity. Qed.
Lemma oidc_mine_tenant {R} : mine (oidc_tenant_id (R := R)).
Proof. unfold oidc_tenant_id. apart_walk. Qed.
Lemma oidc_mine_post {R} what body err : mine (post_token (R := R) what body err).
Proof. unfold post_token. apart_walk. Qed.
Lemma oidc_mine_numbers {R} tenant a : mine (oidc_numbers (R := R) tenant a).
Proof. unfold oidc_numbers, open_oidc_id_cache, idmap_number. apart_walk. Qed.
#[local] Hint Resolve oidc_mine_init oidc_mine_tenant oidc_mine_post oidc_mine_numbers : frame.
Lemma oidc_mine_user {R} token shell tenant : mine (user_token_from_oidc (R := R) token shell tenant).
Proof. unfold user_token_from_oidc. apart_walk. Qed.
#[local] Hint Resolve oidc_mine_user : frame.
Lemma oidc_mine_validate token : mine (oidc_token_validate account token).
Proof. unfold oidc_token_validate. apart_walk. Qed.
Lemma oidc_mine_memory : mine (memory_refresh_token account).
Proof. unfold memory_refresh_token, memory_entry. apart_walk. Qed.
#[local] Hint Resolve oidc_mine_validate oidc_mine_memory : frame.
Lemma oidc_mine_auth {A} key kt cred : mine (oidc_auth_and_validate mk account old (A := A) key kt cred).
Proof.
  unfold oidc_auth_and_validate, oidc_hello_token, oidc_refresh_token, oidc_exchange, drop_hello_key, oidc_seal,
    oidc_validate_hello, acquire_token_by_refresh_token, hello_offline. apart_walk.
Qed.
Lemma oidc_mine_finalize {A} token : mine (finalize_mfa_success account nhp (A := A) token).
Proof. unfold finalize_mfa_success. apart_walk. Qed.
#[local] Hint Resolve oidc_mine_auth oidc_mine_finalize : frame.
Lemma oidc_mine_poll {A} d : mine (poll_device_flow account nhp (A := A) d).
Proof. unfold poll_device_flow, acquire_token_by_device_flow. apart_walk. Qed.
Lemma oidc_mine_wait ocfg flow password pin extra r : mine (orchestrator_wait ocfg flow password pin extra r).
Proof. unfold orchestrator_wait, serialize_oidc_mfa_extra_data. apart_walk. Qed.
#[local] Hint Resolve oidc_mine_poll oidc_mine_wait : frame.
Lemma oidc_mine_mfa flow password extra pin req : mine (oidc_mfa_arm account nhp flow password extra pin req).
Proof.
  unfold oidc_mfa_arm, device_flow_arm, orchestrator_arm, orchestrator_config, orchestrator_step, orchestrator_continue,
    orchestrator_send_command, orchestrator_complete, acquire_token_by_refresh_token. apart_walk.
Qed.
#[local] Hint Resolve oidc_mine_mfa : frame.

(** C13. A login with OpenID Connect touches nothing of another user: whatever the request,
    the network and the orchestrator do, a step changes only keys of its own account (and
    of the device), only its own count of bad PINs, and of the cached tokens only its own;
    another user's token is dropped only when, by the clock as read during the step, it was
    cached more than a day ago. *)
Theorem oidc_step_isolated req s :
  let s' := (oidc_online_auth_step (N := N) domain mk account old nhp req s).2 in
  (∀ tag, tag ∉ own_tags domain account → h_keys (e_hello s') !! tag = h_keys (e_hello s) !! tag) ∧
  own_client account (h_tick (e_hello s)) (h_tick (e_hello s')) (h_client (e_hello s)) (h_client (e_hello s')).
Proof.
  assert (mine (oidc_online_auth_step domain mk account old nhp req)) as Hm; [|apply Hm].
  unfold oidc_online_auth_step, oidc_arms, oidc_setup_pin_arm, oidc_pin_arm. apart_walk.
Qed.

End frame.

(** ** An outage during a login with the PIN *)

Section outage.
Context {X : Ext} {C : Crypto} {HO : HelloOps} {E : Env} {HE : HelloEnv} {UNI : Unistring}.
Context {INI : IniFile} {G : GeneratedConfig} {PC : PamConfig} {EC : EntraConfig} {OC : OidcConfig} {H : Host} {F : Federation} {T : TextOps}.
Context {N : Type} {OE : OidcEnv N}.
Context (mk : MachineKey) (account : string) (old : UserToken).
Notation World := (OidcWorld N).
Implicit Types s : EState World.

(** The client has been made, and a request to its token endpoint does not get through. *)
Definition token_endpoint_down s : Prop :=
  ∃ client url, ow_client (e_net s) = Some client ∧ client_token_uri (od_client client) = Some url ∧
    ∀ body, ∃ e, (http_post (od_http_client client) url body (ow_net (e_net s))).1 = Post_SendFailed e.

Lemma post_fails {R} what body err s :
  token_endpoint_down s →
  ∃ e n', post_token (R := R) what body err s =
    (inl (Err (OidcError_GeneralFailure e)), set_net {| ow_client := ow_client (e_net s); ow_net := n' |} s).
Proof.
  intros (client & url & Hc & Hu & Hp).
  unfold post_token, get_oidc_client, look, onet, net, mbind, EM_bind. cbn. rewrite Hc, Hu. cbn.
  destruct (Hp (body (dag_client_id (od_client client)))) as [e He].
  destruct (http_post _ _ _ _) as [r n']. cbn in He. subst r. rewrite Hc. cbn. eauto.
Qed.

(** C37. An outage costs the user his PIN. When the token endpoint cannot be reached after
    the PIN was accepted, the login is not continued offline, as it is meant to be: the
    failure is taken for a refusal, the sealed refresh token and the Hello key of the
    account are deleted, the login is denied, and the provider still counts as online. *)
Theorem oidc_outage_unenrols cred tok s :
  token_endpoint_down s → (∀ n, key_fault n = false) →
  ∃ s', oidc_exchange mk account old cred tok s =
          (inr (Return (AuthResult_Denied SESSION_EXPIRED, AuthCacheAction_None)), s') ∧
    h_keys (e_hello s') = delete (fetch_hello_key_tag account false)
                            (delete (fetch_hello_refresh_token_key_tag account) (h_keys (e_hello s))) ∧
    state (h_client (e_hello s')) = state (h_client (e_hello s)).
Proof.
  intros Hd Hk. unfold oidc_exchange, acquire_token_by_refresh_token, mbind at 1, EM_bind at 1.
  destruct (post_fails (R := AuthResult * AuthCacheAction) "refresh token" (refresh_token_body tok []) refresh_error s Hd) as (e & n' & ->).
  unfold ks_delete, hello, e_ok, mbind, EM_bind. cbn. rewrite Hk. cbn. rewrite Hk. cbn. eexists. split; [reflexivity|]. done.
Qed.

End outage.
