(* ===== verification/OidcSession.v ===== *)
(** * A whole login with the OIDC provider

    The steps of a login share a credential handler. A PIN can be set up only with the
    handler that a finished device flow or browser session leaves behind, so that a login
    that succeeds has shown a secret in one of its steps. *)
From stdpp Require Import base gmap strings list fin_maps.
From Stdlib Require Import ZArith Lia Ascii.
From S2P Require Import Prelude Proto Interface Db Runtime Caches Idmap UserMap Config Hello HelloTheorems Pam Daemon Entra EntraUser EntraInit EntraDevice EntraStep EntraTheorems EntraStepTheorems EntraLocks EntraFrame Oidc OidcProvider OidcTheorems OidcStepTheorems.

Open Scope rust_scope.

Definition is_setup {X : Ext} (h : AuthCredHandler) : bool :=
  match h with AuthCredHandler_SetupPin _ => true | _ => false end.

(** ** Computations that do not let a PIN be set up *)

Section rules.
Context {X : Ext} {C : Crypto} {HO : HelloOps} {E : Env} {HE : HelloEnv} {UNI : Unistring}.
Context {INI : IniFile} {G : GeneratedConfig} {PC : PamConfig} {EC : EntraConfig} {H : Host} {F : Federation} {T : TextOps}.
Context {U : Type} (P : Prop).

(** The handler for a new PIN was there before, or [P] holds. *)
Definition setup_only {R A} (m : EM U R A) : Prop :=
  ∀ s, is_setup (e_handler (m s).2) = true → is_setup (e_handler s) = true ∨ P.

Lemma setup_only_bind_with {R A B} (m : EM U R A) (k : A → EM U R B) (Q : A → Prop) :
  setup_only m → ensures m Q (λ _, True) → (∀ a, Q a → setup_only (k a)) → setup_only (a ← m; k a).
Proof.
  intros Hm HQ Hk s. specialize (Hm s). specialize (HQ s). unfold ewp in HQ. unfold mbind, EM_bind.
  destruct (m s) as [[a|e] s1]; [|done]. intros Ha. destruct (Hk a HQ s1 Ha) as [H1|]; [by apply Hm|by right].
Qed.
Lemma setup_only_bind {R A B} (m : EM U R A) (k : A → EM U R B) :
  setup_only m → (∀ a, setup_only (k a)) → setup_only (a ← m; k a).
Proof. intros Hm Hk. eapply setup_only_bind_with; [done|apply ensures_true|auto]. Qed.
Lemma setup_only_attempt {R A} (m : EM U A A) : setup_only m → setup_only (R := R) (attempt m).
Proof. intros Hm s. specialize (Hm s). unfold attempt. by destruct (m s) as [[a|[]] s1]. Qed.
Lemma setup_only_hello {R A} (m : HM R A) : setup_only (hello m).
Proof. intros s. unfold hello. destruct (m _). by left. Qed.
Lemma setup_only_ret {R A} (a : A) : setup_only (R := R) (mret a).
Proof. by left. Qed.
Lemma setup_only_fail {R A} e : setup_only (R := R) (A := A) (e_fail e).
Proof. by left. Qed.
Lemma setup_only_return {R A} (r : R) : setup_only (A := A) (e_return r).
Proof. by left. Qed.
Lemma setup_only_panic {R A} : setup_only (R := R) (A := A) e_panic.
Proof. by left. Qed.
Lemma setup_only_some {R A} e (o : option A) : setup_only (R := R) (e_some e o).
Proof. destruct o; by left. Qed.
Lemma setup_only_ok {R A} e (r : result A unit) : setup_only (R := R) (e_ok e r).
Proof. destruct r; by left. Qed.
Lemma setup_only_net {R A} (f : U → A * U) : setup_only (R := R) (net f).
Proof. intros s. unfold net. destruct (f _). by left. Qed.
Lemma setup_only_config {R} : setup_only (R := R) get_config.
Proof. by left. Qed.
Lemma setup_only_idmap {R} : setup_only (R := R) get_idmap.
Proof. by left. Qed.
Lemma setup_only_idmap_io {R A} (f : Idmap → Idmap * A) : setup_only (R := R) (idmap_io f).
Proof. intros s. unfold idmap_io. destruct (f _). by left. Qed.
Lemma setup_only_handler {R} : setup_only (R := R) get_handler.
Proof. by left. Qed.
Lemma setup_only_put {R} h : is_setup h = false → setup_only (R := R) (put_handler h).
Proof. intros Hh s. cbn. by rewrite Hh. Qed.
Lemma setup_only_shown {R A} (m : EM U R A) : P → setup_only m.
Proof. intros HP s _. by right. Qed.

End rules.

Create HintDb setup discriminated.
#[export] Hint Resolve setup_only_ret setup_only_fail setup_only_return setup_only_panic setup_only_some setup_only_ok
  setup_only_net setup_only_config setup_only_idmap setup_only_idmap_io setup_only_handler setup_only_hello : setup.

Ltac setup_step :=
  first
  [ progress intros
  | solve [eauto 2 with setup nocore]
  | match goal with
    | |- setup_only _ (_ ≫= _) => apply setup_only_bind
    | |- setup_only _ (attempt _) => apply setup_only_attempt
    | |- setup_only _ (put_handler _) => by apply setup_only_put
    | |- setup_only _ (match ?x with _ => _ end) => destruct x
    | |- setup_only _ (e_return _) => apply setup_only_return
    end ].
Ltac setup_walk := repeat setup_step.

Section session.
Context {X : Ext} {C : Crypto} {HO : HelloOps} {E : Env} {HE : HelloEnv} {UNI : Unistring}.
Context {INI : IniFile} {G : GeneratedConfig} {PC : PamConfig} {EC : EntraConfig} {OC : OidcConfig} {H : Host} {F : Federation} {T : TextOps}.
Context {N : Type} {OE : OidcEnv N}.
Context (domain : string) (mk : MachineKey) (account : string) (old : UserToken) (nhp : bool).

Notation Answer := (AuthResult * AuthCacheAction)%type.
Notation State := (EState (OidcWorld N)).

Section step.
Context (handler : AuthCredHandler) (req : PamAuthRequest) (before : HState).
Notation shown := (oidc_shown (N := N) mk account handler req before).
Notation safe m := (setup_only (U := OidcWorld N) shown m).

Lemma safe_onet {R A} (f : N → A * N) : safe (onet (R := R) f).
Proof. apply setup_only_net. Qed.
Lemma safe_client {R} : safe (get_oidc_client (R := R)).
Proof. apply setup_only_net. Qed.
Lemma safe_denied {A} msg : safe (denied (A := A) msg).
Proof. apply setup_only_return. Qed.
Lemma safe_next {A} r : safe (next (A := A) r).
Proof. apply setup_only_return. Qed.
Lemma safe_answer {A} r : safe (answer (A := A) r).
Proof. apply setup_only_return. Qed.
Lemma safe_net_down {R} : safe (net_down (R := R)).
Proof. unfold net_down, go_offline, set_cache_state. setup_walk. Qed.
#[local] Hint Resolve safe_onet safe_client safe_denied safe_next safe_answer safe_net_down : setup.

Lemma totp_not_setup {R} cred :
  ensures (U := OidcWorld N) (hello (setup_hello_totp (R := R) account cred mk)) (λ p, is_setup p.1 = false) (λ _, True).
Proof.
  intros s. unfold ewp, hello. destruct (setup_hello_totp _ _ _ _) as [[p|[]] h] eqn:Es; try done.
  unfold setup_hello_totp in Es. hello_split Es. by injection Es as <- <-.
Qed.

Lemma safe_totp_or {A} cred t : safe (hello_totp_or mk account (A := A) cred t).
Proof.
  unfold hello_totp_or. apply setup_only_bind; [apply setup_only_config|intros cfg].
  destruct (check_hello_totp_enabled cfg); [|apply safe_answer].
  apply setup_only_bind; [apply setup_only_hello|intros []]; [setup_walk|].
  eapply setup_only_bind_with; [apply setup_only_hello|apply totp_not_setup|].
  intros [h ans] Hh. simpl in *. apply setup_only_bind; [by apply setup_only_put|intros _; apply setup_only_return].
Qed.
Lemma safe_bad_pin {A} suffix : safe (bad_pin account (A := A) suffix).
Proof. unfold bad_pin. setup_walk. Qed.
Lemma safe_tenant {R} : safe (oidc_tenant_id (R := R)).
Proof. unfold oidc_tenant_id. setup_walk. Qed.
Lemma safe_post {R} what body err : safe (post_token (R := R) what body err).
Proof. unfold post_token. setup_walk. Qed.
Lemma safe_numbers {R} tenant a : safe (oidc_numbers (R := R) tenant a).
Proof. unfold oidc_numbers, open_oidc_id_cache, idmap_number. setup_walk. Qed.
#[local] Hint Resolve safe_totp_or safe_bad_pin safe_tenant safe_post safe_numbers : setup.
Lemma safe_user {R} token shell tenant : safe (user_token_from_oidc (R := R) token shell tenant).
Proof. unfold user_token_from_oidc. setup_walk. Qed.
#[local] Hint Resolve safe_user : setup.
Lemma safe_validate token : safe (oidc_token_validate account token).
Proof. unfold oidc_token_validate. setup_walk. Qed.
Lemma safe_memory : safe (memory_refresh_token account).
Proof. unfold memory_refresh_token, memory_entry. setup_walk. Qed.
#[local] Hint Resolve safe_validate safe_memory : setup.
Lemma safe_auth {A} key kt cred : safe (oidc_auth_and_validate mk account old (A := A) key kt cred).
Proof.
  unfold oidc_auth_and_validate, oidc_hello_token, oidc_refresh_token, oidc_exchange, drop_hello_key, oidc_seal,
    oidc_validate_hello, acquire_token_by_refresh_token, hello_offline. setup_walk.
Qed.
#[local] Hint Resolve safe_auth : setup.

Lemma safe_finalize {A} token : (∀ t, oidc_user (N := N) account token t → shown) → safe (finalize_mfa_success account nhp (A := A) token).
Proof.
  intros Hs. unfold finalize_mfa_success.
  eapply setup_only_bind_with; [apply setup_only_attempt, safe_validate|apply ensures_attempt, oidc_validate_user|].
  intros [[t|msg|]|e] Ht; [by apply setup_only_shown, (Hs t)|setup_walk..].
Qed.

Lemma safe_poll {A} d : stored_dag handler d → safe (poll_device_flow account nhp (A := A) d).
Proof.
  intros Hd. unfold poll_device_flow. eapply setup_only_bind_with; [apply safe_post|apply post_token_sound|].
  intros [token|[]] Hr; [|setup_walk..]. apply safe_finalize. intros t Ht. eapply oidc_shown_device; eauto.
Qed.

Lemma safe_wait ocfg flow password pin extra r : safe (orchestrator_wait ocfg flow password pin extra r).
Proof. unfold orchestrator_wait, serialize_oidc_mfa_extra_data. setup_walk. Qed.
Lemma safe_send {R} ocfg command : safe (orchestrator_send_command (R := R) ocfg command).
Proof. unfold orchestrator_send_command. setup_walk. Qed.
#[local] Hint Resolve safe_wait safe_send : setup.

Lemma safe_complete st dag_flow chunks sid success bundle :
  stored handler (OidcMfaExtraData_Orchestrator st) → (fs_dag_json st = None ∨ ∃ d, dag_flow = Some d) →
  (∀ d, dag_flow = Some d → stored_dag handler d) →
  orchestrator_next chunks [] = Some (OrchestratorResponse_SessionComplete sid success bundle) →
  safe (orchestrator_complete account nhp dag_flow success bundle).
Proof.
  intros Hst Hn Hd Hm. unfold orchestrator_complete. destruct success; [|apply safe_denied].
  destruct dag_flow as [d|]; [by apply safe_poll, Hd|].
  destruct (tb_refresh_token bundle) as [tok|] eqn:Ht; [|apply safe_denied].
  eapply setup_only_bind_with; [apply safe_post|apply post_token_sound|intros [token|e] Hr]; [|apply safe_denied].
  apply safe_finalize. intros t Hu. destruct Hn as [Hn|[? ?]]; [|done]. eapply oidc_shown_browser; eauto.
Qed.

Lemma safe_orchestrator flow password pin st :
  stored handler (OidcMfaExtraData_Orchestrator st) → safe (orchestrator_arm account nhp flow password pin st req).
Proof.
  intros Hst. unfold orchestrator_arm, orchestrator_config. apply setup_only_bind; [setup_walk|intros ocfg].
  eapply (setup_only_bind_with _ _ _ (λ dag_flow, (fs_dag_json st = None ∨ ∃ d, dag_flow = Some d) ∧
                                            ∀ d, dag_flow = Some d → stored_dag handler d)).
  { setup_walk. }
  { destruct (fs_dag_json st) as [raw|] eqn:Hj; [|by apply ensures_ret; split; [left|]].
    destruct (dag_from_str raw) as [d|] eqn:Hd; [|by apply ensures_return].
    apply ensures_ret. split; [eauto|]. intros ? [= <-]. exists raw. eauto. }
  intros dag_flow [Hn Hd]. apply setup_only_bind.
  { assert (∀ d, dag_flow = Some d → safe (poll_device_flow account nhp (A := unit) d)) as Hpoll by (intros; apply safe_poll; auto).
    set (P := oidc_shown _ _ _ _ _) in *. clearbody P. setup_walk. by apply Hpoll. }
  intros _. unfold orchestrator_step. destruct (orchestrator_inputs_from_pam_request _ _) as [provided|]; [|apply safe_denied].
  eapply setup_only_bind_with; [apply safe_send|apply send_command_sound|intros [m|e] Hr]; [|setup_walk].
  destruct (Hr m eq_refl) as [chunks Hc]. destruct m; [setup_walk|by eapply safe_complete|setup_walk..].
Qed.

Lemma safe_mfa flow password extra pin :
  handler = AuthCredHandler_MFA flow password extra pin → safe (oidc_mfa_arm account nhp flow password extra pin req).
Proof.
  intros Hh. unfold oidc_mfa_arm. destruct extra as [raw|]; [|apply safe_denied].
  destruct (parse_oidc_mfa_extra_data raw) as [json|st] eqn:Hr.
  - assert (∀ d, dag_from_str json = Some d → safe (poll_device_flow account nhp (A := Answer) d)) as Hpoll.
    { intros d Hd. apply safe_poll. exists json. split; [done|]. left. by exists flow, password, raw, pin. }
    unfold device_flow_arm. set (P := oidc_shown _ _ _ _ _) in *. clearbody P.
    destruct req; try apply setup_only_return. destruct (polls_left _ _); [|apply setup_only_return].
    destruct (dag_from_str json); [by apply Hpoll|apply setup_only_return].
  - apply safe_orchestrator. by exists flow, password, raw, pin.
Qed.

Lemma safe_arms : safe (oidc_arms mk account old nhp handler req).
Proof.
  assert (∀ flow password extra pin, handler = AuthCredHandler_MFA flow password extra pin →
    safe (oidc_mfa_arm account nhp flow password extra pin req)) as Hm by (intros; by apply safe_mfa).
  assert (∀ key kt cred, safe (oidc_auth_and_validate mk account old (A := Answer) key kt cred)) as Ha by (intros; apply safe_auth).
  unfold oidc_arms, oidc_setup_pin_arm, oidc_pin_arm. set (P := oidc_shown _ _ _ _ _) in *. clearbody P.
  destruct handler eqn:Hh; destruct req eqn:Hq; try (by apply Hm); setup_walk; apply setup_only_return.
Qed.

End step.

(** ** Sessions *)

Lemma step_setup_only req (s : State) :
  is_setup (e_handler (oidc_online_auth_step domain mk account old nhp req s).2) = true →
  is_setup (e_handler s) = true ∨ oidc_shown (N := N) mk account (e_handler s) req (e_hello s).
Proof.
  unfold oidc_online_auth_step. destruct (oidc_init_keeps domain (R := Answer) s) as [_ Hc].
  unfold mbind at 1, EM_bind at 1. destruct (oidc_delayed_init domain s) as [[[]|e] s1]; simpl in Hc; [| |simpl; rewrite Hc; by left].
  - unfold mbind, EM_bind, get_handler. rewrite Hc. intros Ha.
    destruct (safe_arms (e_handler s) req (e_hello s) s1 Ha) as [H1|H1]; [left; by rewrite <- Hc|by right].
  - intros Ha. rewrite <- Hc.
    exact (setup_only_bind _ _ _ (safe_net_down (e_handler s1) req (e_hello s))
             (λ _, safe_denied (e_handler s1) req (e_hello s) _) s1 Ha).
Qed.

(** The first request of a login never leaves the handler for a new PIN. *)
Lemma init_not_setup svc nhp' force :
  let Q p := is_setup p.2 = false in
  ensures (U := OidcWorld N) (oidc_online_auth_init domain account svc nhp' force) Q Q.
Proof.
  intros Q. eapply ensures_bind; [apply ensures_straight, oidc_init_straight|intros [] _].
  2: { eapply ensures_bind; [apply ok_net_down|intros _ _]. by apply ensures_ret. }
  apply ensures_any_bind; [apply ensures_hello; hello_walk|intros key]. apply ensures_any_bind; [done|intros cfg].
  apply ensures_any_bind; [by apply ensures_straight, straight_client|intros c].
  destruct (_ || _).
  - unfold oidc_device_init. eapply ensures_bind; [apply ensures_straight|intros [d|] _]; [|..|apply ensures_fail].
    { unfold initiate_device_flow, get_oidc_client, onet. straight_tac. }
    eapply (ensures_bind _ _ (λ o, ∀ p, o = Some p → is_setup p.2 = false)).
    + unfold maybe_start_orchestrator_flow, orchestrator_config. skip. destruct (oc_enabled _); [|by apply ensures_ret].
      eapply ensures_bind; [apply ensures_straight; unfold mfa_from_oidc_device; straight_tac|intros [f j] _]. skip.
      eapply ensures_bind; [apply ensures_straight; unfold orchestrator_try_start, orchestrator_send_command, onet; straight_tac|].
      intros [[j'|st]|] _; [by apply ensures_ret| |by apply ensures_ret].
      eapply ensures_bind; [apply ensures_some|intros raw _]. apply ensures_ret. by intros p [= <-].
    + intros [p|] Hp; [by apply ensures_ret, Hp|].
      eapply ensures_bind; [apply ensures_straight; unfold mfa_from_oidc_device; straight_tac|intros [f j] _].
      eapply ensures_bind; [apply ensures_some|intros raw _]. by apply ensures_ret.
  - skip. eapply ensures_bind; [apply ensures_straight|intros [] _]; [|by apply ensures_ret|apply ensures_fail].
    unfold oidc_attempt_online, oidc_probe, get_oidc_client, go_offline, set_cache_state, net_down, onet.
    pose proof (@oidc_init_straight). straight_tac.
Qed.

(** The steps of a login so far, the last one first, with the state and the request of
    each. Between the steps only the handler is kept: the keys, the clock, the network and
    the caches may change in any way. *)
Inductive oidc_session : list (State * PamAuthRequest) → State → Prop :=
| oidc_session_begin svc nhp' force s0 s0' request handler s :
    run_em (oidc_online_auth_init domain account svc nhp' force) s0 = (Some (Ok (request, handler)), s0') →
    e_handler s = handler → oidc_session [] s
| oidc_session_step l s req s' :
    oidc_session l s → e_handler s' = e_handler (oidc_online_auth_step domain mk account old nhp req s).2 →
    oidc_session ((s, req) :: l) s'.

(** A proof in one of the steps. *)
Definition shown_in (l : list (State * PamAuthRequest)) : Prop :=
  ∃ s req, (s, req) ∈ l ∧ oidc_shown (N := N) mk account (e_handler s) req (e_hello s).

Lemma session_setup l s : oidc_session l s → is_setup (e_handler s) = true → shown_in l.
Proof.
  induction 1 as [svc nhp' force s0 s0' request handler s Hr Hh|l s req s' _ IHs Hh].
  - pose proof (ensures_run _ _ _ _ _ (init_not_setup svc nhp' force) Hr) as Hn. simpl in Hn. by rewrite Hh, Hn.
  - rewrite Hh. intros [Hs|Hs]%step_setup_only.
    + destruct (IHs Hs) as (s1 & r1 & Hin & Hp). exists s1, r1. split; [by apply list_elem_of_further|done].
    + exists s, req. split; [apply list_elem_of_here|done].
Qed.

(** C8. A login with OpenID Connect, from its first request to its success, shows a secret
    in one of its steps: a PIN the TPM takes for the account's key, the end of the device
    flow or of the browser session kept for it, with a token of the account's own user, or
    a TOTP code after a PIN. Setting up a PIN, which shows nothing by itself, is no way
    around it: only a step with such a proof leads there. *)
Theorem oidc_login_shows_secret l s req t action s' :
  oidc_session l s →
  run_em (oidc_online_auth_step (N := N) domain mk account old nhp req) s = (Some (Ok (AuthResult_Success t, action)), s') →
  shown_in ((s, req) :: l).
Proof.
  intros Hl Hr. pose proof (ewp_run _ _ _ _ _ (oidc_step_admits domain mk account old nhp req s) Hr) as [[Hp|(tok & pin & Hh & _)] _].
  - exists s, req. split; [apply list_elem_of_here|done].
  - destruct (session_setup _ _ Hl) as (s1 & r1 & Hin & Hp); [by rewrite Hh|].
    exists s1, r1. split; [by apply list_elem_of_further|done].
Qed.

End session.
