(* ===== verification/OidcMulti.v ===== *)
(** * The OIDC provider behind the routing

    [OidcProvider] as a part of [HimmelblauMultiProvider]: its state, its constructor and
    the table of its methods, and what the routing of [EntraMulti] gives for a host whose
    providers are those of this development. *)
From stdpp Require Import base gmap strings list fin_maps.
From Stdlib Require Import ZArith Lia Ascii.
From S2P Require Import Prelude Proto Interface Db DbSpec DbFacts Runtime Resolver ResolverLogic ResolverFacts ResolverTheorems Caches Idmap UserMap Config Hello HelloTheorems Pam Daemon Entra EntraUser EntraInit EntraDevice EntraStep EntraTheorems EntraStepTheorems EntraMulti EntraMultiTheorems Oidc OidcProvider OidcTheorems OidcStepTheorems.

Open Scope rust_scope.

Section part.
Context {X : Ext} {C : Crypto} {HO : HelloOps} {E : Env} {HE : HelloEnv} {UNI : Unistring} {INH : Inhabited Hsm}.
Context {INI : IniFile} {G : GeneratedConfig} {PC : PamConfig} {EC : EntraConfig} {OC : OidcConfig} {H : Host} {F : Federation} {T : TextOps}.
Context {N : Type} {OE : OidcEnv N}.

(** The fields of an [OidcProvider]; the configuration and the id map are shared. *)
Record OidcProvider := { op_domain : string; op_client : HelloClient; op_world : OidcWorld N }.

(** [OidcProvider::new] *)
Definition oidc_provider_new (domain : string) (n : N) (now : SystemTime) : OidcProvider :=
  {| op_domain := domain; op_client := hello_client_new (CacheState_OfflineNextCheck now);
     op_world := {| ow_client := None; ow_net := n |} |}.

Definition OPart : Type := OidcProvider * Shared.

Definition put_oidc_hello (op : OidcProvider) (c : HelloClient) : OidcProvider :=
  {| op_domain := op_domain op; op_client := c; op_world := op_world op |}.

(** Whether the provider is initialised is whether it has a client: the flag of the state
    is not used. *)
Definition oidc_state (n : nat) (st : OPart) (k : Keys) (h : Hsm) : EState (OidcWorld N) :=
  {| e_hello := Build_HState n (op_client st.1) k h; e_init := false; e_idmap := sh_idmap st.2;
     e_alias := sh_config st.2; e_net := op_world st.1;
     e_handler := AuthCredHandler_None; e_locked := false |}.

Definition oidc_after (st : OPart) (s : EState (OidcWorld N)) : OPart :=
  ({| op_domain := op_domain st.1; op_client := h_client (e_hello s); op_world := e_net s |},
   {| sh_idmap := e_idmap s; sh_config := e_alias s |}).

(** A call. The error stands for a panic, which needs a clock at the end of its range. *)
Definition oidc_call {R} (m : string → EM (OidcWorld N) R R) : FullCall OPart (result R IdpError) := λ n st k h,
  let '(r, s) := run_em (m (op_domain st.1)) (oidc_state n st k h) in
  (default (Err IdpError_BadRequest) r, oidc_after st s, h_keys (e_hello s), h_tpm (e_hello s)).

Definition oidc_step_call (account_id : string) (old_token : UserToken) (_ : string) (no_hello_pin : bool)
  (cred_handler : AuthCredHandler) (req : PamAuthRequest) (mk : MachineKey)
  : FullCall OPart (AuthCredHandler * result (AuthResult * AuthCacheAction) IdpError) := λ n st k h,
  let '(r, s) := run_em (oidc_online_auth_step (op_domain st.1) mk account_id old_token no_hello_pin req)
                   (set_handler cred_handler (oidc_state n st k h)) in
  ((e_handler s, default (Err IdpError_BadRequest) r), oidc_after st s, h_keys (e_hello s), h_tpm (e_hello s)).

(** There are no Kerberos tickets and no cookies; the PRTs to export are an empty object,
    and what is imported is ignored. *)
Definition oidc_part : PartOps OPart := {|
  part_check_online now := λ n st h,
    let '(r, st, _, h) := oidc_call (λ d, oidc_check_online d now) n st ∅ h in
    (match r with Ok b => b | Err _ => false end, st, h);
  part_user_get id_ old _ := oidc_call (λ d, oidc_user_get d id_ old);
  part_user_access id_ scopes old _ _ _ _ := oidc_call (λ d, oidc_user_access d id_ scopes old);
  part_user_tgts _ _ _ := λ _ st k h, ((None, None, None, None), st, k, h);
  part_user_prt_cookie _ _ _ _ := λ _ st k h, (Err IdpError_BadRequest, st, k, h);
  part_change_auth_token a t new mk := oidc_call (λ d, oidc_change_auth_token d mk a t new);
  part_online_auth_init a _ svc nhp fr _ := oidc_call (λ d, oidc_online_auth_init d a svc nhp fr);
  part_online_auth_step := oidc_step_call;
  part_offline_auth_init a _ nhp := λ n st k,
    let '(r, s) := run_hm (offline_auth_init (as_config (sh_config st.2)) false a nhp)
                     (Build_HState n (op_client st.1) k inhabitant) in
    (hm_result r, (put_oidc_hello st.1 (h_client s), st.2), h_keys s);
  part_offline_auth_step a t ch req mk _ := λ n st k h,
    let '(r, s) := run_hm (offline_auth_step (as_config (sh_config st.2)) load_cached_prt_no_op a t ch req mk)
                     (Build_HState n (op_client st.1) k h) in
    ((ch, hm_result r), (put_oidc_hello st.1 (h_client s), st.2), h_keys s, h_tpm s);
  part_get_cachestate _ := λ _ st k, (state (op_client st.1), st, k);
  part_offline_break_glass ttl := λ n st,
    let '(r, s) := run_hm (offline_break_glass (as_config (sh_config st.2)) ttl)
                     (Build_HState n (op_client st.1) ∅ inhabitant) in
    (hm_result r, (put_oidc_hello st.1 (h_client s), st.2));
  part_export_broker_prts := λ _ st, (Some (String.list_byte_of_string "{}"), st);
  part_import_broker_prts _ := λ _ st, (Some tt, st)
|}.

(** ** What the routing asks of a provider *)

Lemma oidc_probe_up {R} t ep url (K : R → EState (OidcWorld N) → Prop) s :
  ewp (oidc_probe t ep url) (λ b s', b = true → state (h_client (e_hello s')) = CacheState_Online) K s.
Proof.
  unfold oidc_probe. apply ewp_bind. unfold ewp at 1. cbn [get_config]. apply ewp_bind, ewp_straight; [apply straight_onet|].
  assert (∀ s1, ewp (_ ← go_offline t; mret false) (λ b s', b = true → state (h_client (e_hello s')) = CacheState_Online) K s1) as Hoff.
  { intros s1. apply ewp_bind, ewp_straight; [unfold go_offline, set_cache_state; straight_tac|]. intros _ s2 _. by apply ewp_ret. }
  intros [] s1 _; [|apply Hoff]. apply ewp_bind, ewp_straight; [apply straight_onet|].
  intros [[]|] s2 _; [done| |apply Hoff]. apply ewp_bind, ewp_straight; [apply straight_onet|].
  intros [[]|] s3 _; [done|apply Hoff..].
Qed.

Lemma oidc_check_up {R} domain t (K : R → EState (OidcWorld N) → Prop) s :
  ewp (oidc_check_online domain t) (λ b s', b = true → state (h_client (e_hello s')) = CacheState_Online) K s.
Proof.
  unfold oidc_check_online. apply ewp_bind. unfold ewp at 1. cbn [hello get_client].
  destruct (state (h_client (e_hello s))) as [| |at_time] eqn:Hs; [by apply ewp_ret..|].
  destruct (_ <=? _); [|by apply ewp_ret]. unfold oidc_attempt_online.
  apply ewp_bind, ewp_straight; [apply oidc_init_straight|]. intros [] s1 _.
  - apply ewp_bind. unfold ewp at 1. cbn. destruct (ow_client _) as [c|]; [apply oidc_probe_up|].
    apply ewp_bind, ewp_straight; [unfold go_offline, set_cache_state; straight_tac|]. intros _ s2 _. by apply ewp_ret.
  - apply ewp_bind, ewp_straight; [apply net_down_straight|]. intros _ s2 _. by apply ewp_ret.
Qed.

#[export] Instance oidc_online_laws : OnlineLaws (Sh := Shared) oidc_part.
Proof.
  split. intros now n c sh h c' sh' h'. simpl. unfold oidc_call.
  destruct (run_em _ _) as [o s'] eqn:Hr. destruct o as [[b|e]|]; simpl; [|done..].
  intros [= -> <- <- <-] n' sh'' k. simpl.
  pose proof (ewp_run _ _ _ _ _ (oidc_check_up _ _ _ _) Hr eq_refl) as ->. done.
Qed.

End part.

(** ** A login through the routing *)

Section login.
Context {X : Ext} {C : Crypto} {HO : HelloOps} {E : Env} {HE : HelloEnv} {UNI : Unistring} {INH : Inhabited Hsm} {BC : BlobCodec}.
Context {INI : IniFile} {G : GeneratedConfig} {PC : PamConfig} {EC : EntraConfig} {OC : OidcConfig} {H : Host} {F : Federation} {T : TextOps}.
Context {U N : Type} {EE : EntraEnv U} {EF : EntraFlow U} {EL : EntraLogin U} {OE : OidcEnv N}.

Notation State := (MultiState (Sh := Shared) (Co := OidcProvider (N := N)) (Ce := EntraProvider (U := U))).
#[local] Existing Instance entra_part.
#[local] Existing Instance oidc_part.

(** C7. The proof is asked for through the whole provider, whatever directory the host uses:
    when an online login step lets somebody in, the account was routed to a configured
    domain, and the user has shown a secret to that domain's provider, be it Entra ID or
    OpenID Connect, with its keys and TPM, and is let in as himself. *)
Theorem any_login_needs_proof account old service nhp ch req mk n (st : State) k h t action :
  (multi_online_auth_step sh_config set_sh_config account old service nhp ch req mk n st k h).1.1.1.2
    = Ok (AuthResult_Success t, action) →
  ∃ d p, mp_providers st !! d = Some p ∧ routes sh_config account st d ∧
    match p with
    | Providers_Oidc op =>
        oidc_proven (N := N) mk account ch req (Build_HState n (op_client op) k h) ∧ oidc_granted (N := N) account old req t
    | Providers_Himmelblau ep =>
        proven (U := U) mk account ch req (Build_HState n (ep_client ep) k h) ∧ granted (U := U) account old req t
    end.
Proof.
  unfold multi_online_auth_step, to_full, dispatch, routes.
  destruct (idp_get_domain_for_account _ _ _) as [domain|e] eqn:Hd; [|done].
  pose proof (find_provider_cases sh_config set_sh_config domain st) as Hf.
  destruct (find_provider _ _ _ _) as [[[d p]|e] st1]; destruct Hf as [Hs Hf]; [|done].
  destruct Hf as [Hp Hr]. intros Ha. exists d, p. split; [done|]. split; [by exists domain|].
  destruct p as [op|ep]; revert Ha; unfold on_provider, of_full; simpl.
  - unfold oidc_step_call. simpl.
    destruct (run_em _ _) as [[[[r a]|]|] s'] eqn:Hrun; simpl; [|done..]. intros [= -> ->].
    pose proof (ewp_run _ _ _ _ _ (oidc_step_admits _ _ _ _ _ _ _) Hrun) as Hadm. exact Hadm.
  - unfold online_step_call. simpl.
    destruct (run_em _ _) as [[[[r a]|]|] s'] eqn:Hrun; simpl; [|done..]. intros [= -> ->].
    pose proof (ewp_run _ _ _ _ _ (step_admits _ _ _ _ _ _ _ _) Hrun) as Hadm. exact Hadm.
Qed.

End login.

(** ** Refreshing a cached user *)

Section refresh.
Context {X : Ext} {SD : Serde} {SL : SerdeLaws SD} {C : Crypto} {L : LruCache} {HO : HelloOps} {E : Env} {HE : HelloEnv}.
Context {UNI : Unistring} {INH : Inhabited Hsm} {BC : BlobCodec}.
Context {INI : IniFile} {G : GeneratedConfig} {PC : PamConfig} {EC : EntraConfig} {OC : OidcConfig} {H : Host} {F : Federation} {T : TextOps}.
Context {U N : Type} {EE : EntraEnv U} {EF : EntraFlow U} {EL : EntraLogin U} {OE : OidcEnv N}.

Notation State := (MultiState (Sh := Shared) (Co := OidcProvider (N := N)) (Ce := EntraProvider (U := U))).
#[local] Existing Instance entra_part.
#[local] Existing Instance oidc_part.
#[local] Existing Instance multi_provider.
Notation W := (@World X C (multi_provider (Co := OidcProvider (N := N)) (Ce := EntraProvider (U := U)) sh_config set_sh_config) L).

(** The token that the provider [p] may give for the user of the cached token [tok] when it is
    asked for [id_]. Entra ID gives one of the same user, under the same display name; OpenID
    Connect one with the same object id, for the name that it is asked for, and turns the
    display name round at its comma. *)
Definition refreshed (id_ : Id) (tok t : UserToken) (p : Providers (Co := OidcProvider (N := N)) (Ce := EntraProvider (U := U)))
  : Prop :=
  match p with
  | Providers_Himmelblau _ =>
      to_lowercase (t_spn t) = to_lowercase (t_spn tok) ∧ t_displayname t = t_displayname tok
  | Providers_Oidc _ =>
      t_spn t = (match id_ with Id_Name name => name | _ => t_name tok end) ∧ t_uuid t = t_uuid tok ∧
      t_displayname t = flip_displayname_comma (t_displayname tok)
  end.

Lemma oidc_get_refreshed domain id_ tok op :
  let Q r := match r with
             | UserTokenState_UseCached => True
             | UserTokenState_NotFound => False
             | UserTokenState_Update t => refreshed id_ tok t (Providers_Oidc op)
             end in
  ensures (U := OidcWorld N) (oidc_user_get domain id_ (Some tok)) Q Q.
Proof.
  intros Q. eapply ensures_bind; [apply ensures_straight, oidc_init_straight|intros [] _].
  - assert (∀ name, name = (match id_ with Id_Name name => name | _ => t_name tok end) →
      ensures (U := OidcWorld N) (tenant_id ← oidc_tenant_id;
        object_id ← mret (t_uuid tok);
        '(uid, gid) ← oidc_numbers tenant_id name;
        cfg ← get_config;
        mret (UserTokenState_Update (oidc_user_token name object_id tenant_id uid gid
          (flip_displayname_comma (t_displayname tok)) (get_shell cfg None)))) Q Q) as Hn.
    { intros name Hname. eapply ensures_bind; [apply ensures_straight, oidc_tenant_straight|intros tenant _].
      apply (ensures_bind _ _ (λ oid, oid = t_uuid tok)); [by apply ensures_ret|intros oid ->].
      eapply (ensures_bind _ _ (λ _, True)); [|intros [uid gid] _; skip; by apply ensures_ret].
      unfold oidc_numbers, open_oidc_id_cache, idmap_number. apply ensures_straight. straight_tac. }
    destruct id_; by apply Hn.
  - eapply ensures_bind; [apply ok_net_down|intros _ _]. by apply ensures_ret.
Qed.

Lemma multi_get_refreshed id_ tok mk n (st : State) k h r :
  (multi_user_get sh_config set_sh_config id_ (Some tok) mk n st k h).1.1.1 = Ok r →
  match r with
  | UserTokenState_UseCached => True
  | UserTokenState_NotFound => False
  | UserTokenState_Update t =>
      ∃ d p, mp_providers st !! d = Some p ∧ routes sh_config (t_spn tok) st d ∧ refreshed id_ tok t p
  end.
Proof.
  unfold multi_user_get, to_full, dispatch, routes. change (account_of id_ (Some tok)) with (t_spn tok).
  destruct (idp_get_domain_for_account _ _ _) as [domain|e] eqn:Hd; [|done].
  pose proof (find_provider_cases sh_config set_sh_config domain st) as Hf.
  destruct (find_provider _ _ _ _) as [[[d p]|e] st1]; destruct Hf as [Hs Hf]; [|done].
  destruct Hf as [Hp Hr]. intros Ha.
  enough (match r with UserTokenState_UseCached => True | UserTokenState_NotFound => False
          | UserTokenState_Update t => refreshed id_ tok t p end) as Hg.
  { destruct r; [done..|]. exists d, p. split; [done|]. split; [by exists domain|done]. }
  destruct p as [op|ep]; revert Ha; unfold on_provider, of_full; simpl.
  - unfold oidc_call. destruct (run_em _ _) as [[[a|]|] s'] eqn:Hrun; simpl; [|done..]. intros [= ->].
    exact (ensures_run _ _ _ _ _ (oidc_get_refreshed _ _ _ op) Hrun).
  - unfold em_call. destruct (run_em _ _) as [[[a|]|] s'] eqn:Hrun; simpl; [|done..]. intros [= ->].
    pose proof (ensures_run _ _ _ _ _ (user_get_ensures _ _ _ _) Hrun) as Ha.
    destruct r as [| |t]; simpl in *; [done..|]. destruct Ha as (Hspn & _ & Hdn). auto.
Qed.

(** C16. A cached user survives a refresh through the whole stack, from the resolver over the
    routing to the provider of the domain, whatever the directory answers: if the refresh of a
    user with a cached token returns, the account is not remembered as absent, and what is
    given back is the cached token, or a new one from the provider of the domain that the
    account is routed to. From Entra ID that is a token of the same user under the same display
    name. From OpenID Connect it has the same object id and the name asked for, but the display
    name is turned round at its comma once more. *)
Theorem refresh_keeps_known (self : Resolver) id_ tok (w w' : W) r :
  settled w → refresh_usertoken self id_ (Some tok) w = Ret (Ok r) w' →
  w_nxcache w' = w_nxcache w ∧
  ∃ t, r = Some t ∧
    (t = tok ∨ ∃ d p, mp_providers (w_client w) !! d = Some p ∧ routes sh_config (t_spn tok) (w_client w) d ∧
       refreshed id_ tok t p).
Proof.
  intros Hw Hr. pose proof (settled_idle True _ Hw) as Hi. by_wp_eq Hr.
  apply wp_bind, (wp_provider_txn_absent self (or_introl I)); [exact (idle_held _ _ Hi)..|apply Hi|].
  intros a c k h cm w1 Hf Hev _ Hnx. pose proof (evolves_idle _ _ _ Hev Hi) as Hi1.
  destruct cm as [[]|e]; [|by destruct a as [[]|]; apply wp_ret].
  destruct a as [s|e]; [|apply wp_ret; intros [= <-]; by eauto].
  pose proof (multi_get_refreshed id_ tok (machine_key self) (S (w_tick w)) (w_client w)
    (hsm_data_t (disk (w_conn w))) (w_tpm w) s) as Hk. simpl in Hf. rewrite Hf in Hk. specialize (Hk eq_refl).
  destruct s as [| |t]; [apply wp_ret; intros [= <-]; by eauto|done|].
  apply wp_try, wp_set_cache_usertoken; [by left|done|..]; [|intros; discriminate].
  intros off n tb w2 t0 _ _ _ _ _ _ Hn2. apply wp_ret. intros [= <-]. split; [by rewrite Hn2|].
  eexists. split; [done|]. right. destruct Hk as (d & p & Hp & Hd & Hrf). exists d, p. split; [done|]. split; [done|].
  destruct p; unfold refreshed, stored_token, retain_groups, with_shell in *; by repeat case_match.
Qed.

End refresh.
