(* ===== verification/OidcModels.v ===== *)
(** * An OpenID provider for the models

    An instance of the class of [Oidc], and logins with it: the provider answers when the
    network is up, names one user, and grants the device flow once he has finished it. *)
From stdpp Require Import base gmap strings list fin_maps.
From Stdlib Require Import ZArith Lia Ascii.
From S2P Require Import Prelude Proto Interface Db DbSpec DbFacts Runtime Caches Idmap IdmapTheorems UserMap Config ConfigTheorems Models Resolver ResolverLogic ResolverFacts ResolverModels ResolverTheorems Hello HelloTheorems Pam PamAuth PamFacts PamModels Daemon Entra EntraUser EntraInit EntraDevice EntraStep EntraTheorems EntraStepTheorems EntraModels EntraStepModels EntraMulti EntraMultiTheorems Oidc OidcProvider OidcTheorems OidcStepTheorems OidcSession OidcMulti.

Open Scope rust_scope.

(** Whether the network is up, the user the provider names, and whether the device flow is
    finished. *)
Record OidcNet := { on_up : bool; on_user : string; on_done : bool }.

(** Bob has an entry in the static id map. *)
Definition bob_entry : StaticUser := {| su_name := "bob@example.com"; su_uid := 1001; su_gid := 2002 |}.

Definition token_bytes : bytes := String.list_byte_of_string "token".
Definition pong_bytes : bytes := String.list_byte_of_string "pong".

Definition sample_response : OidcTokenResponse := {|
  or_access_token := "access"; or_refresh_token := Some "refresh"; or_id_token := None; or_scopes := None;
  or_expires_in := Some 3600; or_token_type := "bearer"
|}.

Definition sample_dag : DeviceAuth := {|
  da_device_code := "code"; da_user_code := "ABCD"; da_verification_uri := "https://login.example.com/device";
  da_verification_uri_complete := None; da_expires_in := 900; da_interval := 5
|}.

Definition model_post (body : list (string * string)) (n : OidcNet) : PostOutcome :=
  if negb (on_up n) then Post_SendFailed "unreachable"
  else if existsb (λ kv, String.eqb kv.1 "device_code") body && negb (on_done n) then Post_Done false []
  else Post_Done true token_bytes.

#[export] Instance model_oidc : OidcEnv OidcNet := {|
  uuid_lit _ := 9%N;
  uuid_v5 u _ := u;
  uuid_v4 n := (4%N, n);
  url_safe_no_pad_decode s := Ok (String.list_byte_of_string s);
  utf8_error _ := "invalid utf-8";
  id_payload_from_str _ := Err "no payload";
  unix_token_new p := up_refresh_token p;
  extra_from_str s := match s with String "D" j => Some (OidcMfaExtraData_DeviceFlow j) | _ => None end;
  extra_to_string e := match e with OidcMfaExtraData_DeviceFlow j => Some (String "D" j) | _ => None end;
  dag_from_str s := if String.eqb s "code" then Some sample_dag else None;
  dag_to_string d := Some (da_device_code d);
  orch_from_slice b := if String.eqb (String.string_of_list_byte b) "pong" then Ok (OrchestratorResponse_Pong "1") else Err Parse_Eof;
  orch_to_vec _ := Ok [];
  orch_connect _ _ n := (false, n);
  orch_exchange _ _ n := ({| io_sent := true; io_chunks := [] |}, n);
  token_from_slice _ := Ok sample_response;
  oauth_error_from_slice _ := Ok ("authorization_pending", None);
  oidc_error_display _ := "error";
  oidc_flow_new _ m i := (m, i);
  oidc_flow_msg _ := "Visit the page";
  oidc_flow_max_poll_attempts f := f.1;
  oidc_flow_polling_interval f := f.2;
  oidc_flow_set_polling_interval i f := (f.1, i);
  HttpClient := unit;
  DeviceProviderMetadata := unit;
  DagClient := unit;
  issuer_url_ok _ := true;
  http_client_build _ _ n := (Some tt, n);
  discover _ _ n := (if on_up n then Some tt else None, n);
  metadata_authorization_endpoint _ := "https://login.example.com/authorize";
  metadata_issuer _ := "https://login.example.com/";
  metadata_device_endpoint _ := "https://login.example.com/device";
  client_from_metadata _ _ _ := tt;
  client_token_uri _ := Some "https://login.example.com/token";
  dag_client_id _ := "client";
  exchange_device_code _ _ _ n := (if on_up n then Ok sample_dag else Err DeviceCode_Other, n);
  http_post _ _ body n := (model_post body n, n);
  client_user_info _ _ _ n :=
    (Some {| ui_preferred_username := Some (on_user n); ui_email := None; ui_subject := "s"; ui_name := Some "Doe, Alice" |}, n);
  oidc_probe_client _ n := (true, n);
  oidc_http_get _ n := (if on_up n then Some true else None, n);
  oidc_id_cache_faults := Build_OpenFaults false false false false;
  oidc_id_cache_file _ := Some (Some (Build_StaticTables [bob_entry] []))
|}.

#[export] Instance model_flow_laws : FlowLaws (OE := model_oidc).
Proof. by split. Qed.

#[export] Instance model_oidc_config : OidcConfig := {|
  get_orchestrator_enabled _ := false;
  get_orchestrator_socket _ := "/run/orchestrator.sock";
  get_orchestrator_provider _ := None;
  get_orchestrator_timeout_secs _ := 10;
  get_orchestrator_poll_secs _ := 2
|}.

#[local] Existing Instance model_unistring.

Definition oidc_aliases : AliasState := Build_AliasState {|
  config := [("global", "oidc_issuer_url", "https://login.example.com"); ("global", "app_id", "client");
             ("oidc", "app_id", "client")];
  filename := DEFAULT_CONFIG_PATH
|} [] 0.

Definition online_net : OidcNet := {| on_up := true; on_user := "Alice@Example.com"; on_done := true |}.
Definition offline_net : OidcNet := {| on_up := false; on_user := "Alice@Example.com"; on_done := true |}.
Definition pending_net : OidcNet := {| on_up := true; on_user := "Alice@Example.com"; on_done := false |}.
Definition other_net : OidcNet := {| on_up := true; on_user := "mallory@example.com"; on_done := true |}.

(** A provider that has not been used, and one that is initialised and on which Alice has
    a PIN. *)
Definition fresh_oidc (n : OidcNet) : EState (OidcWorld OidcNet) := {|
  e_hello := Build_HState 0 (hello_client_new (CacheState_OfflineNextCheck 0)) ∅ sample_tpm; e_init := false;
  e_idmap := Idmap_new; e_alias := oidc_aliases; e_net := {| ow_client := None; ow_net := n |};
  e_handler := AuthCredHandler_None; e_locked := false
|}.

Definition ready_client : OidcDelayedInit (OE := model_oidc) := {|
  od_client := tt; od_http_client := tt; od_authorization_endpoint := "https://login.example.com/authorize";
  od_openid_configuration_url := "https://login.example.com/.well-known/openid-configuration"
|}.

Definition pin_keys : Keys := {[ "alice@example.com/hello_decoupled" := enc ("271828" : string) ]}.

Definition ready_oidc (n : OidcNet) (ch : AuthCredHandler) : EState (OidcWorld OidcNet) := {|
  e_hello := Build_HState 0 alice_client pin_keys sample_tpm; e_init := false;
  e_idmap := (add_gen_domain Idmap_new "oidc" "9" DEFAULT_IDMAP_RANGE).1; e_alias := oidc_aliases;
  e_net := {| ow_client := Some ready_client; ow_net := n |}; e_handler := ch; e_locked := false
|}.

Notation oidc_run req s :=
  (run_em (oidc_online_auth_step (N := OidcNet) "oidc" sample_mk alice_upn alice_cached false req) s).
Notation oidc_told req s := (told (oidc_run req s).1).

Definition flow_handler : AuthCredHandler := AuthCredHandler_MFA (Some 180, Some 5000) None (Some "Dcode") None.

(** With the PIN, a wrong PIN, and the PIN of Alice with a token of somebody else; the
    device flow, not yet finished, finished, finished by somebody else, and polled too
    often. *)
Example oidc_logins :
  (oidc_told (PamAuthRequest_Pin "271828") (ready_oidc online_net AuthCredHandler_None),
   oidc_told (PamAuthRequest_Pin "000000") (ready_oidc online_net AuthCredHandler_None),
   oidc_told (PamAuthRequest_Pin "271828") (ready_oidc other_net AuthCredHandler_None),
   oidc_told (PamAuthRequest_MFAPoll 1) (ready_oidc online_net flow_handler),
   oidc_told (PamAuthRequest_MFAPoll 1) (ready_oidc other_net flow_handler),
   oidc_told (PamAuthRequest_MFAPoll 181) (ready_oidc online_net flow_handler))
  = (Some "in as Alice Doe", Some HELLO_PIN_FAILED, Some "Authenticated user 9 does not match requested user",
     Some "new PIN?", Some "Authenticated user 9 does not match requested user", Some POLL_TIMED_OUT).
Proof. reflexivity. Qed.

Example oidc_pending :
  (oidc_run (PamAuthRequest_MFAPoll 1) (ready_oidc pending_net flow_handler)).1
  = Some (Ok (AuthResult_Next AuthRequest_MFAPollWait, AuthCacheAction_None)).
Proof. reflexivity. Qed.

(** ** The properties, evaluated *)

Definition password_input : OrchestratorRequiredInput :=
  {| ri_name := "pw"; ri_input_type := OrchPassword; ri_prompt := None; ri_optional := false |}.
Definition otp_input : OrchestratorRequiredInput :=
  {| ri_name := "otp"; ri_input_type := OrchOtp; ri_prompt := Some "Code: "; ri_optional := false |}.

Lemma orchestrator_prompt_answered_witness :
  auth_request_from_orchestrator_inputs [otp_input; password_input] 2 = AuthRequest_Password ∧
  ∃ provided, orchestrator_inputs_from_pam_request (PamAuthRequest_Password "secret") [otp_input; password_input] = Ok provided ∧
    length provided = 1%nat.
Proof.
  split; [reflexivity|].
  destruct (orchestrator_prompt_answered [otp_input; password_input] 2 (PamAuthRequest_Password "secret") [OrchPassword] "secret"
              (answers_password "secret")) as (provided & Hp & _ & Hl).
  exists provided. split; [exact Hp|exact Hl].
Defined.

Lemma pong_message : json_message pong_bytes (OrchestratorResponse_Pong "1").
Proof.
  split; [reflexivity|]. intros p q Hd Hq. unfold orch_from_slice, model_oidc.
  destruct (String.eqb_spec (String.string_of_list_byte p) "pong") as [He|]; [|done].
  assert (p = pong_bytes) as -> by (rewrite <- (String.list_byte_of_string_of_list_byte p), He; done).
  destruct Hq. apply (app_inv_head pong_bytes). by rewrite app_nil_r.
Qed.

Lemma orchestrator_response_read_witness :
  orchestrator_next [String.list_byte_of_string "po"; String.list_byte_of_string "ng"] [] = Some (OrchestratorResponse_Pong "1").
Proof.
  rewrite (orchestrator_response_read pong_bytes (OrchestratorResponse_Pong "1")).
  - reflexivity.
  - exact pong_message.
  - reflexivity.
  - discriminate.
  - intros c [->|[->|Hc%not_elem_of_nil]%elem_of_cons]%elem_of_cons; [discriminate..|destruct Hc].
Defined.

(** The network comes up after the first use. *)
Definition failed_oidc : EState (OidcWorld OidcNet) :=
  (oidc_delayed_init (R := unit) "oidc" (fresh_oidc offline_net)).2.
Definition recovered_oidc : EState (OidcWorld OidcNet) :=
  set_handler AuthCredHandler_None (set_hello (e_hello failed_oidc)
    (set_net {| ow_client := ow_client (e_net failed_oidc); ow_net := online_net |} failed_oidc)).

Lemma fresh_tenant : oidc_tenant (fresh_oidc offline_net) = Some "9".
Proof. reflexivity. Qed.

Lemma fresh_fails : oidc_delayed_init (R := unit) "oidc" (fresh_oidc offline_net) = (inl false, failed_oidc).
Proof. reflexivity. Qed.

Lemma oidc_init_never_recovers_witness :
  on_up (ow_net (e_net recovered_oidc)) = true ∧
  (oidc_delayed_init (R := unit) "oidc" (fresh_oidc online_net)).1 = inl true ∧
  (oidc_delayed_init (R := unit) "oidc" recovered_oidc).1 = inl false.
Proof.
  split; [reflexivity|]. split; [reflexivity|].
  rewrite (proj1 (oidc_init_never_recovers "oidc" (fresh_oidc offline_net) failed_oidc recovered_oidc "9"
    eq_refl fresh_tenant eq_refl eq_refl fresh_fails (rtc_once _ _ (oidc_step_world "oidc" failed_oidc _ _ _)))).
  reflexivity.
Defined.

Definition eager_dag : DeviceAuth := {|
  da_device_code := "code"; da_user_code := "ABCD"; da_verification_uri := "https://login.example.com/device";
  da_verification_uri_complete := None; da_expires_in := 900; da_interval := 0
|}.

Definition eager_flow : @MFAAuthContinue model_ext := (Some 0, Some 0).
Definition slow_flow : @MFAAuthContinue model_ext := (Some 180, Some 5000).

(** An interval of five seconds, and none. *)
Lemma device_poll_bounded_witness :
  told (run_em (device_flow_arm (N := OidcNet) alice_upn false eager_flow "code" (PamAuthRequest_MFAPoll 1))
    (ready_oidc online_net flow_handler)).1 = Some POLL_TIMED_OUT ∧
  told (run_em (device_flow_arm (N := OidcNet) alice_upn false slow_flow "code" (PamAuthRequest_MFAPoll 180))
    (ready_oidc online_net flow_handler)).1 = Some "new PIN?".
Proof.
  assert (in_u32 5 ∧ in_u32 0 ∧ in_u32 900) as (H5 & H0 & H9) by (unfold in_u32, u32_max; lia).
  split.
  - unfold run_em.
    rewrite (device_poll_bounded alice_upn false eager_dag eager_flow "code" 1 (fresh_oidc online_net) (fresh_oidc online_net)
      (ready_oidc online_net flow_handler) H0 H9 ltac:(lia) eq_refl). reflexivity.
  - unfold run_em.
    rewrite (device_poll_bounded alice_upn false sample_dag slow_flow "code" 180 (fresh_oidc online_net) (fresh_oidc online_net)
      (ready_oidc online_net flow_handler) H5 H9 ltac:(lia) eq_refl). reflexivity.
Defined.

(** Bob is mapped to uid 1001 and gid 2002. *)
Notation bob_get := (run_em (oidc_user_get (N := OidcNet) "oidc" (Id_Name "bob@example.com") None) (fresh_oidc online_net)).

Lemma bob_get_update : match (bob_get).1 with Some (Ok a) => is_update a | _ => false end = true.
Proof. reflexivity. Qed.

Lemma oidc_static_ids_swapped_witness :
  ∃ t, (bob_get).1 = Some (Ok (UserTokenState_Update t)) ∧
    nu_uid (nss_user model_resolver t) = 2002 ∧ nu_gid (nss_user model_resolver t) = 1001.
Proof.
  pose proof bob_get_update as Hu. destruct bob_get as [[[r|]|] s'] eqn:Hr; [|discriminate Hu..].
  destruct r as [| |t]; [discriminate Hu..|]. exists t. split; [reflexivity|].
  refine (oidc_static_ids_swapped "oidc" model_resolver "bob@example.com" bob_entry None _ t s' _ Hr).
  intros n. reflexivity.
Defined.

Notation oidc_pin_run := (oidc_run (PamAuthRequest_Pin "271828") (ready_oidc online_net AuthCredHandler_None)).

Lemma oidc_pin_run_in : lets_in (oidc_pin_run).1 = true.
Proof. reflexivity. Qed.

Lemma oidc_success_needs_proof_witness :
  ∃ t action, (oidc_pin_run).1 = Some (Ok (AuthResult_Success t, action)) ∧
    oidc_proven (N := OidcNet) sample_mk alice_upn AuthCredHandler_None (PamAuthRequest_Pin "271828")
      (Build_HState 0 alice_client pin_keys sample_tpm) ∧
    oidc_granted (N := OidcNet) alice_upn alice_cached (PamAuthRequest_Pin "271828") t.
Proof.
  pose proof oidc_pin_run_in as Hin. destruct oidc_pin_run as [[[[r action]|]|] s'] eqn:Hr; [|discriminate Hin..].
  destruct r as [t| |]; [|discriminate Hin..]. exists t, action. split; [reflexivity|].
  exact (proj1 (oidc_success_needs_proof "oidc" sample_mk alice_upn alice_cached false
                  (PamAuthRequest_Pin "271828") _ _ _ _ Hr) t eq_refl).
Defined.

(** A device flow that Alice finishes, and then a new PIN. *)
Definition begun_oidc : option (result (AuthRequest * AuthCredHandler) IdpError) * EState (OidcWorld OidcNet) :=
  run_em (oidc_online_auth_init (N := OidcNet) "oidc" alice_upn "login" false true) (ready_oidc online_net AuthCredHandler_None).
Definition polled_oidc : EState (OidcWorld OidcNet) :=
  (oidc_online_auth_step "oidc" sample_mk alice_upn alice_cached false (PamAuthRequest_MFAPoll 1) (ready_oidc online_net flow_handler)).2.
Notation setup_run := (oidc_run (PamAuthRequest_SetupPin "314159") polled_oidc).

Lemma begun_oidc_flow : begun_oidc.1 = Some (Ok (AuthRequest_MFAPoll "Visit the page" 5, flow_handler)).
Proof. reflexivity. Qed.

Lemma setup_run_in : lets_in (setup_run).1 = true.
Proof. reflexivity. Qed.

Lemma alice_session :
  oidc_session "oidc" sample_mk alice_upn alice_cached false
    [(ready_oidc online_net flow_handler, PamAuthRequest_MFAPoll 1)] polled_oidc.
Proof.
  apply oidc_session_step; [|reflexivity].
  apply (oidc_session_begin _ _ _ _ _ "login" false true (ready_oidc online_net AuthCredHandler_None) begun_oidc.2
           (AuthRequest_MFAPoll "Visit the page" 5) flow_handler); [|reflexivity].
  exact (pair_run _ _ begun_oidc_flow).
Qed.

Lemma oidc_login_shows_secret_witness :
  shown_in sample_mk alice_upn
    [(polled_oidc, PamAuthRequest_SetupPin "314159"); (ready_oidc online_net flow_handler, PamAuthRequest_MFAPoll 1)].
Proof.
  pose proof setup_run_in as Hin. destruct setup_run as [[[[r action]|]|] s'] eqn:Hr; [|discriminate Hin..].
  destruct r as [t| |]; [|discriminate Hin..].
  exact (oidc_login_shows_secret "oidc" sample_mk alice_upn alice_cached false _ polled_oidc
           (PamAuthRequest_SetupPin "314159") t action s' alice_session Hr).
Defined.

(** Alice gives her PIN during an outage: she is denied and her key is gone. *)
Lemma oidc_outage_unenrols_witness :
  told (oidc_run (PamAuthRequest_Pin "271828") (ready_oidc offline_net AuthCredHandler_None)).1 = Some SESSION_EXPIRED ∧
  h_keys (e_hello (oidc_run (PamAuthRequest_Pin "271828") (ready_oidc offline_net AuthCredHandler_None)).2)
    !! "alice@example.com/hello_decoupled" = None ∧
  ∃ s', oidc_exchange sample_mk alice_upn alice_cached "271828" alice_upn (ready_oidc offline_net AuthCredHandler_None) =
          (inr (Hello.Return (AuthResult_Denied SESSION_EXPIRED, AuthCacheAction_None)), s') ∧
        state (h_client (e_hello s')) = CacheState_Online.
Proof.
  split; [reflexivity|]. split; [reflexivity|].
  destruct (oidc_outage_unenrols sample_mk alice_upn alice_cached "271828" alice_upn (ready_oidc offline_net AuthCredHandler_None))
    as (s' & Hs & _ & Hst).
  - exists ready_client, "https://login.example.com/token". split; [reflexivity|]. split; [reflexivity|].
    intros body. exists "unreachable". reflexivity.
  - intros n. reflexivity.
  - exists s'. split; [exact Hs|exact Hst].
Defined.

(** ** A host with the OIDC provider *)

Section host.

#[local] Instance oidc_blobs : BlobCodec := {| blobs_to_vec _ := None; blobs_from_slice _ := None |}.
#[local] Instance host_oidc : PartOps (OidcProvider (N := OidcNet) * Shared) := oidc_part.
#[local] Instance host_entra_part : PartOps (Part (U := Directory)) := entra_part.

Definition oidc_host : MultiState (Sh := Shared) (Co := OidcProvider (N := OidcNet)) (Ce := EntraProvider (U := Directory)) := {|
  mp_providers := {[ "oidc" := Providers_Oidc
    {| op_domain := "oidc"; op_client := alice_client; op_world := e_net (ready_oidc online_net AuthCredHandler_None) |} ]};
  mp_shared := {| sh_idmap := e_idmap (ready_oidc online_net AuthCredHandler_None); sh_config := oidc_aliases |}
|}.

Notation oidc_host_login :=
  (multi_online_auth_step sh_config set_sh_config alice_upn alice_cached "login" false AuthCredHandler_None
     (PamAuthRequest_Pin "271828") sample_mk 0%nat oidc_host pin_keys sample_tpm).

Lemma oidc_host_login_in : match oidc_host_login.1.1.1.2 with Ok (AuthResult_Success _, _) => true | _ => false end = true.
Proof. reflexivity. Qed.

Lemma any_login_needs_proof_witness :
  ∃ t action, oidc_host_login.1.1.1.2 = Ok (AuthResult_Success t, action) ∧
    ∃ d p, mp_providers oidc_host !! d = Some p ∧ routes sh_config alice_upn oidc_host d.
Proof.
  pose proof oidc_host_login_in as Hin. destruct oidc_host_login.1.1.1.2 as [[[t| |] action]|] eqn:Hr; try discriminate Hin.
  exists t, action. split; [reflexivity|].
  destruct (any_login_needs_proof (U := Directory) (N := OidcNet) alice_upn alice_cached "login" false
              AuthCredHandler_None (PamAuthRequest_Pin "271828") sample_mk 0%nat oidc_host pin_keys sample_tpm t action Hr)
    as (d & p & Hp & Hd & _). exists d, p. split; [exact Hp|exact Hd].
Defined.

(** A host that has both kinds of provider: Alice, a cached user of Entra ID, is refreshed. *)
#[local] Instance both_provider : IdProvider :=
  multi_provider (Co := OidcProvider (N := OidcNet)) (Ce := EntraProvider (U := Directory)) sh_config set_sh_config.

Definition both_host : MultiState (Sh := Shared) (Co := OidcProvider (N := OidcNet)) (Ce := EntraProvider (U := Directory)) := {|
  mp_providers := {[ "example.com" := Providers_Himmelblau (entra_provider_new "example.com" sample_directory 0) ]};
  mp_shared := {| sh_idmap := Idmap_new; sh_config := sample_aliases |}
|}.

Definition both_world : World (P := both_provider) := Build_World (P := both_provider) 0%nat [] (Build_Conn migrated_db None) sample_tpm
  both_host ∅ (lru_new NXCACHE_SIZE) true.

Notation both_refresh := (refresh_usertoken model_resolver (Id_Name alice_upn) (Some alice_user) both_world).

Lemma both_refresh_ok : match both_refresh with Ret (Ok _) _ => true | _ => false end = true.
Proof. reflexivity. Qed.

Lemma refresh_keeps_known_witness :
  ∃ t w', both_refresh = Ret (Ok (Some t)) w' ∧
    (t = alice_user ∨ ∃ d p, mp_providers both_host !! d = Some p ∧ routes sh_config alice_upn both_host d ∧
       refreshed (Id_Name alice_upn) alice_user t p).
Proof.
  pose proof both_refresh_ok as Hu. destruct both_refresh as [[r|] w'| |] eqn:Hr; [|discriminate Hu..].
  assert (settled both_world) as Hw by (split; [reflexivity|split; [reflexivity|apply migrated_wf]]).
  destruct (refresh_keeps_known (U := Directory) (N := OidcNet) model_resolver (Id_Name alice_upn) alice_user
              both_world w' r Hw Hr) as (_ & t & -> & Ht).
  exists t, w'. split; [reflexivity|exact Ht].
Defined.

End host.

(** The display name of the cache is turned round again on every refresh. *)
Definition junior : UserToken := {|
  t_name := alice_upn; t_spn := alice_upn; t_uuid := 5%N; t_real_gidnumber := None; t_gidnumber := 7;
  t_displayname := flip_displayname_comma "King, Martin, Jr."; t_shell := None; t_groups := []; t_tenant_id := None; t_valid := true
|}.

Example oidc_refresh_renames :
  t_displayname junior = "Martin, Jr. King" ∧
  match (run_em (oidc_user_get (N := OidcNet) "oidc" (Id_Name alice_upn) (Some junior)) (fresh_oidc online_net)).1 with
  | Some (Ok (UserTokenState_Update t)) => Some (t_displayname t)
  | _ => None
  end = Some "Jr. King Martin".
Proof. split; reflexivity. Qed.

(** A name nobody has is a user all the same. *)
Example oidc_unknown_user :
  match (run_em (oidc_user_get (N := OidcNet) "oidc" (Id_Name "nobody-knows-me") None) (fresh_oidc online_net)).1 with
  | Some (Ok (UserTokenState_Update t)) => Some (t_name t)
  | _ => None
  end = Some "nobody-knows-me".
Proof. reflexivity. Qed.
