(* ===== verification/OrchTypes.v ===== *)
(** * The browser orchestrator: its protocol and its provider definitions

    [src/orchestrator/src/types.rs] (commands, responses and their limits) and
    [src/orchestrator/src/provider_definitions.rs] (the flows of a provider, their
    validation, the registry and the choice of a provider), with the built-in flow
    [providers/keycloak.json], and the text helpers of [flow.rs] and [podman.rs]. *)
From stdpp Require Import base gmap strings list fin_maps.
From Stdlib Require Import ZArith Lia Ascii.
From S2P Require Import Prelude Config Pam.

Open Scope rust_scope.

(** ** Text *)

(** [{:?}] of a [str]: quotes, backslashes and control characters are escaped; what is
    not ASCII is taken as printable. *)
Definition hex_digit (n : nat) : ascii := if Nat.ltb n 10 then ascii_of_nat (48 + n) else ascii_of_nat (87 + n).

Definition escape_char (c : ascii) : string :=
  let n := nat_of_ascii c in
  match n with
  | 0%nat => "\0"
  | 9%nat => "\t"
  | 10%nat => "\n"
  | 13%nat => "\r"
  | 34%nat | 92%nat => String "\"%char (String c "")
  | _ =>
      if Nat.ltb n 16 then "\u{" +:+ String (hex_digit n) "}"
      else if (Nat.ltb n 32 || Nat.eqb n 127)%bool then
        "\u{" +:+ String (hex_digit (Nat.div n 16)) (String (hex_digit (Nat.modulo n 16)) "}")
      else String c ""
  end.

Fixpoint escape_debug (s : string) : string :=
  match s with
  | EmptyString => ""
  | String c s => escape_char c +:+ escape_debug s
  end.

Definition DQ : string := String "034"%char "".
Definition debug_str (s : string) : string := DQ +:+ escape_debug s +:+ DQ.
Definition debug_strs (l : list string) : string := "[" +:+ String.concat ", " (debug_str <$> l) +:+ "]".
Definition debug_opt (o : option string) : string :=
  match o with Some s => "Some(" +:+ debug_str s +:+ ")" | None => "None" end.
Definition show_bool (b : bool) : string := if b then "true" else "false".

(** [s.chars().any(|ch| ch.is_control())]: the C0 and C1 controls of UTF-8 text. *)
Fixpoint has_control (s : string) : bool :=
  match s with
  | EmptyString => false
  | String c s' =>
      let n := nat_of_ascii c in
      (Nat.ltb n 32 || Nat.eqb n 127
       || (Nat.eqb n 194 && match s' with
                            | String d _ => let m := nat_of_ascii d in Nat.leb 128 m && Nat.ltb m 160
                            | EmptyString => false
                            end)
       || has_control s')%bool
  end.

(** [s.strip_prefix(p)] *)
Definition strip_prefix_str (p s : string) : option string :=
  if String.prefix p s then Some (String.substring (String.length p) (String.length s - String.length p) s) else None.

(** [s.replace(pat, by)] for a pattern that is not empty; [skip] characters belong to an
    occurrence that has been replaced. *)
Fixpoint replace_from (skip : nat) (pat by_ s : string) : string :=
  match s with
  | EmptyString => ""
  | String c s' =>
      match skip with
      | S n => replace_from n pat by_ s'
      | O => if String.prefix pat s then by_ +:+ replace_from (pred (String.length pat)) pat by_ s'
             else String c (replace_from 0 pat by_ s')
      end
  end.
Definition replace_str (pat by_ s : string) : string := replace_from 0 pat by_ s.

Definition with_context {A} (msg : string) (r : result A string) : result A string := result_map_err (λ _, msg) r.

Fixpoint each_ok {A} (f : A → result unit string) (l : list A) : result unit string :=
  match l with
  | [] => Ok tt
  | x :: l => let? _ := f x in each_ok f l
  end.

(** ** [types.rs] *)

Definition ORCHESTRATOR_PROTOCOL_VERSION : string := "0.1".
Definition MAX_SESSION_ID_LEN : Z := 128.
Definition MAX_PROVIDER_LEN : Z := 64.
Definition MAX_USERNAME_LEN : Z := 320.
Definition MAX_ISSUER_URL_LEN : Z := 2048.
Definition MAX_DAG_AUTH_URL_LEN : Z := 4096.
Definition MAX_DAG_USER_CODE_LEN : Z := 128.
Definition MAX_INPUT_NAME_LEN : Z := 64.
Definition MAX_INPUT_VALUE_LEN : Z := 8192.
Definition MAX_PROVIDED_INPUTS : Z := 32.

Inductive InputType := InputType_Text | InputType_Password | InputType_Otp | InputType_Confirmation.

#[export] Instance InputType_eq_dec : EqDecision InputType.
Proof. solve_decision. Defined.

Record RequiredInput := {
  rq_name : string; rq_input_type : InputType; rq_prompt : option string; rq_optional : bool
}.

Record ProvidedInput := { pi_name : string; pi_value : string }.

Record TokenBundle := {
  tk_access_token : option string; tk_id_token : option string;
  tk_refresh_token : option string; tk_authorization_code : option string
}.

Definition token_bundle_default : TokenBundle := Build_TokenBundle None None None None.

Inductive SessionState :=
| SessionState_InProgress | SessionState_WaitingForInput | SessionState_Completed | SessionState_Failed
| SessionState_Cancelled.

Inductive LogLevel := LogLevel_Debug | LogLevel_Info | LogLevel_Warn | LogLevel_Error.

Record SessionLogEntry := { le_timestamp_epoch_s : Z; le_level : LogLevel; le_message : string }.

Inductive FlowCommand :=
| FlowCommand_StartSession (session_id : string)
    (provider username issuer_url dag_auth_url dag_user_code : option string)
| FlowCommand_NextStep (session_id : string) (provided_inputs : list ProvidedInput)
| FlowCommand_CancelSession (session_id : string)
| FlowCommand_GetSessionStatus (session_id : string)
| FlowCommand_Ping.

Inductive FlowResponse :=
| FlowResponse_Ack (session_id : option string) (message : string)
| FlowResponse_NextStep (session_id : string) (required_inputs : list RequiredInput) (message : option string)
| FlowResponse_SessionStatus (session_id provider : string) (state : SessionState) (detail : option string)
    (logs : list SessionLogEntry)
| FlowResponse_SessionComplete (session_id : string) (success : bool) (tokens : TokenBundle)
    (metadata : gmap string string)
| FlowResponse_SessionError (session_id error : string)
| FlowResponse_Error (error : string)
| FlowResponse_Pong (protocol_version : string).

Definition validate_text_max (field value : string) (max_len : Z) : result unit string :=
  if max_len <? byte_len value then
    Err (field +:+ " exceeds max length " +:+ uint_to_string max_len +:+ " (got " +:+ uint_to_string (byte_len value) +:+ ")")
  else if has_control value then Err (field +:+ " contains control characters")
  else Ok tt.

Definition validate_required_text (field value : string) (max_len : Z) : result unit string :=
  if String.eqb (trim value) "" then Err (field +:+ " must not be empty")
  else validate_text_max field value max_len.

Definition validate_optional_text (field value : string) (max_len : Z) : result unit string :=
  if String.eqb (trim value) "" then Err (field +:+ " must not be empty when present")
  else validate_text_max field value max_len.

Definition validate_if_present (field : string) (value : option string) (max_len : Z) : result unit string :=
  match value with Some value => validate_optional_text field value max_len | None => Ok tt end.

Definition validate_provided (input : ProvidedInput) : result unit string :=
  let? _ := validate_required_text "provided_input.name" (pi_name input) MAX_INPUT_NAME_LEN in
  validate_text_max "provided_input.value" (pi_value input) MAX_INPUT_VALUE_LEN.

(** [FlowCommand::validate] *)
Definition validate_command (c : FlowCommand) : result unit string :=
  match c with
  | FlowCommand_StartSession session_id provider username issuer_url dag_auth_url dag_user_code =>
      let? _ := validate_required_text "session_id" session_id MAX_SESSION_ID_LEN in
      let? _ := validate_if_present "provider" provider MAX_PROVIDER_LEN in
      let? _ := validate_if_present "username" username MAX_USERNAME_LEN in
      let? _ := validate_if_present "issuer_url" issuer_url MAX_ISSUER_URL_LEN in
      let? _ := validate_if_present "dag_auth_url" dag_auth_url MAX_DAG_AUTH_URL_LEN in
      validate_if_present "dag_user_code" dag_user_code MAX_DAG_USER_CODE_LEN
  | FlowCommand_NextStep session_id provided_inputs =>
      let? _ := validate_required_text "session_id" session_id MAX_SESSION_ID_LEN in
      let n := Z.of_nat (length provided_inputs) in
      if MAX_PROVIDED_INPUTS <? n then
        Err ("provided_inputs contains " +:+ uint_to_string n +:+ " entries; max is " +:+ uint_to_string MAX_PROVIDED_INPUTS)
      else each_ok validate_provided provided_inputs
  | FlowCommand_CancelSession session_id | FlowCommand_GetSessionStatus session_id =>
      validate_required_text "session_id" session_id MAX_SESSION_ID_LEN
  | FlowCommand_Ping => Ok tt
  end.

Definition some_nonempty (o : option string) : bool :=
  match o with Some s => negb (String.eqb s "") | None => false end.

(** [FlowCommand::as_safe_string]: neither the values of inputs nor the urls and codes. *)
Definition command_as_safe_string (c : FlowCommand) : string :=
  match c with
  | FlowCommand_StartSession session_id provider username issuer_url dag_auth_url dag_user_code =>
      "start_session(session_id=" +:+ session_id +:+ ", provider=" +:+ debug_opt provider
      +:+ ", username_present=" +:+ show_bool (some_nonempty username)
      +:+ ", issuer_url_present=" +:+ show_bool (some_nonempty issuer_url)
      +:+ ", dag_auth_url_present=" +:+ show_bool (some_nonempty dag_auth_url)
      +:+ ", dag_user_code_present=" +:+ show_bool (match dag_user_code with Some _ => true | None => false end) +:+ ")"
  | FlowCommand_NextStep session_id provided_inputs =>
      "next_step(session_id=" +:+ session_id +:+ ", inputs=" +:+ debug_strs (pi_name <$> provided_inputs) +:+ ")"
  | FlowCommand_CancelSession session_id => "cancel_session(session_id=" +:+ session_id +:+ ")"
  | FlowCommand_GetSessionStatus session_id => "get_session_status(session_id=" +:+ session_id +:+ ")"
  | FlowCommand_Ping => "ping"
  end.

(** ** [provider_definitions.rs] *)

Record ProviderMatchers := {
  pm_issuer_contains : list string; pm_domains : list string; pm_url_contains : list string;
  pm_page_title_contains : list string; pm_dom_selectors : list string
}.

Record WaitCondition := { wc_selector : option string; wc_pattern : option string; wc_timeout_ms : option Z }.

Record ProviderInput := {
  in_name : string; in_input_type : InputType; in_prompt : option string; in_optional : bool
}.

Inductive ExtractTarget :=
| ExtractTarget_AccessToken | ExtractTarget_IdToken | ExtractTarget_RefreshToken | ExtractTarget_AuthorizationCode.

Inductive FlowAction :=
| FlowAction_Fill (selector input : string)
| FlowAction_Click (selector : string)
| FlowAction_Wait (millis : Z)
| FlowAction_Navigate (url : string)
| FlowAction_Extract (target : ExtractTarget) (source : string)
| FlowAction_Log (message : string).

Inductive BranchCondition :=
| BranchCondition_Always
| BranchCondition_InputPresent (input : string)
| BranchCondition_InputEquals (input value : string).

Record BranchRule := { br_condition : BranchCondition; br_goto_step : string }.

Record SuccessCondition := {
  sc_url_contains : option string; sc_dom_selector : option string; sc_token_key : option string
}.

Record ProviderStep := {
  ps_name : string; ps_optional : bool; ps_wait_for : option WaitCondition;
  ps_required_inputs : list ProviderInput; ps_actions : list FlowAction; ps_branches : list BranchRule;
  ps_success : option SuccessCondition
}.

Record ProviderDefinition := {
  pd_provider : string; pd_display_name : string; pd_matchers : option ProviderMatchers;
  pd_start_url : option string; pd_steps : list ProviderStep
}.

Definition validate_selector (selector : string) : result unit string :=
  let trimmed := trim selector in
  if String.eqb trimmed "" then Err "selector must not be empty"
  else if 256 <? byte_len trimmed then Err "selector exceeds maximum length"
  else if contains_char LF trimmed || contains_char CR trimmed then Err "selector must be single-line"
  else if contains_str trimmed "javascript:" then Err "selector contains forbidden javascript scheme"
  else Ok tt.

Definition validate_matchers (matchers : ProviderMatchers) : result unit string :=
  each_ok (λ selector, with_context "matcher dom_selector is invalid" (validate_selector selector))
    (pm_dom_selectors matchers).

Definition validate_action (action : FlowAction) : result unit string :=
  match action with
  | FlowAction_Fill selector _ | FlowAction_Click selector => validate_selector selector
  | _ => Ok tt
  end.

Definition validate_opt_selector (o : option string) : result unit string :=
  match o with Some selector => validate_selector selector | None => Ok tt end.

(** One step, with the names seen so far. *)
Definition validate_step (provider : string) (seen : gset string) (step : ProviderStep) : result (gset string) string :=
  let where_ := "provider '" +:+ provider +:+ "' step '" +:+ ps_name step +:+ "' contains invalid " in
  if String.eqb (trim (ps_name step)) "" then Err ("provider '" +:+ provider +:+ "' has a step with empty name")
  else if bool_decide (ps_name step ∈ seen) then
    Err ("provider '" +:+ provider +:+ "' contains duplicate step '" +:+ ps_name step +:+ "'")
  else
    let? _ := each_ok (λ action, with_context (where_ +:+ "selector") (validate_action action)) (ps_actions step) in
    let? _ := with_context (where_ +:+ "wait_for selector") (validate_opt_selector (ps_wait_for step ≫= wc_selector)) in
    let? _ := with_context (where_ +:+ "success selector") (validate_opt_selector (ps_success step ≫= sc_dom_selector)) in
    Ok ({[ps_name step]} ∪ seen).

Fixpoint validate_steps (provider : string) (seen : gset string) (steps : list ProviderStep)
  : result (gset string) string :=
  match steps with
  | [] => Ok seen
  | step :: steps => let? seen := validate_step provider seen step in validate_steps provider seen steps
  end.

Definition validate_branches (provider : string) (seen : gset string) (step : ProviderStep) : result unit string :=
  each_ok (λ branch,
      if bool_decide (br_goto_step branch ∈ seen) then Ok tt
      else Err ("provider '" +:+ provider +:+ "' step '" +:+ ps_name step +:+ "' branches to unknown step '"
                +:+ br_goto_step branch +:+ "'"))
    (ps_branches step).

Definition validate_provider_definition (definition : ProviderDefinition) : result unit string :=
  let provider := pd_provider definition in
  if String.eqb (trim provider) "" then Err "provider key must not be empty"
  else
    match pd_steps definition with
    | [] => Err ("provider '" +:+ provider +:+ "' has no steps in flow definition")
    | _ =>
        let? _ := match pd_matchers definition with
                  | Some matchers =>
                      with_context ("provider '" +:+ provider +:+ "' contains invalid matchers") (validate_matchers matchers)
                  | None => Ok tt
                  end in
        let? seen := validate_steps provider ∅ (pd_steps definition) in
        each_ok (validate_branches provider seen) (pd_steps definition)
    end.

(** *** [providers/keycloak.json] *)

Definition always (goto_step : string) : list BranchRule :=
  [{| br_condition := BranchCondition_Always; br_goto_step := goto_step |}].
Definition wait_selector (selector : string) : option WaitCondition :=
  Some {| wc_selector := Some selector; wc_pattern := None; wc_timeout_ms := None |}.
Definition code_in_url : option SuccessCondition :=
  Some {| sc_url_contains := Some "code="; sc_dom_selector := None; sc_token_key := None |}.

Definition totp_field : string :=
  "form#kc-totp-settings-form input#totp, form#kc-totp-settings-form input[name='totp']".
Definition totp_button : string :=
  "form#kc-totp-settings-form input#saveTOTPBtn, form#kc-totp-settings-form button#saveTOTPBtn, form#kc-totp-settings-form button[type='submit']".
Definition otp_field : string :=
  "form#kc-otp-login-form input#otp[name='otp'], form#kc-otp-login-form input[name='otp'][autocomplete='one-time-code'], input#otp[name='otp'], input[name='totp']".
Definition otp_button : string :=
  "form#kc-otp-login-form button#kc-login[name='login'][type='submit'], form#kc-otp-login-form button[type='submit'], button#kc-login".
Definition success_page : string := "#kc-info-message p.instruction".

Definition keycloak_steps : list ProviderStep := [
  {| ps_name := "login_with_username_password"; ps_optional := false; ps_wait_for := None;
     ps_required_inputs := [
       {| in_name := "username"; in_input_type := InputType_Text; in_prompt := None; in_optional := false |};
       {| in_name := "password"; in_input_type := InputType_Password; in_prompt := Some "Sign in to your account";
          in_optional := false |}];
     ps_actions := [FlowAction_Fill "input#username" "username"; FlowAction_Fill "input#password" "password";
                    FlowAction_Click "button#kc-login"; FlowAction_Wait 10000];
     ps_branches := always "setup_totp"; ps_success := code_in_url |};
  {| ps_name := "setup_totp"; ps_optional := true; ps_wait_for := wait_selector totp_field;
     ps_required_inputs := [
       {| in_name := "totp_setup_code"; in_input_type := InputType_Otp;
          in_prompt := Some ("Open your authenticator app and finish TOTP setup using this link:" +:+ NL
                             +:+ "{{browser:url}}" +:+ NL +:+ "Then enter the generated code.");
          in_optional := false |}];
     ps_actions := [FlowAction_Fill totp_field "totp_setup_code"; FlowAction_Click totp_button; FlowAction_Wait 10000];
     ps_branches := always "submit_otp"; ps_success := code_in_url |};
  {| ps_name := "submit_otp"; ps_optional := true; ps_wait_for := wait_selector otp_field;
     ps_required_inputs := [
       {| in_name := "otp"; in_input_type := InputType_Otp; in_prompt := None; in_optional := false |}];
     ps_actions := [FlowAction_Fill otp_field "otp"; FlowAction_Click otp_button; FlowAction_Wait 10000];
     ps_branches := always "grant_device_access_consent"; ps_success := code_in_url |};
  {| ps_name := "grant_device_access_consent"; ps_optional := true;
     ps_wait_for := wait_selector "#kc-oauth form[action*='/login-actions/consent'] button[name='accept']";
     ps_required_inputs := []; ps_actions := [FlowAction_Click "#kc-login"; FlowAction_Wait 10000];
     ps_branches := always "confirm_device_login_success"; ps_success := code_in_url |};
  {| ps_name := "confirm_device_login_success"; ps_optional := true; ps_wait_for := wait_selector success_page;
     ps_required_inputs := []; ps_actions := [FlowAction_Log "Checking for Keycloak device-login success page."];
     ps_branches := [];
     ps_success := Some {| sc_url_contains := None; sc_dom_selector := Some success_page; sc_token_key := None |} |}].

Definition keycloak : ProviderDefinition := {|
  pd_provider := "keycloak"; pd_display_name := "Keycloak";
  pd_matchers := Some {|
    pm_issuer_contains := ["/login-actions/"; "/realms/"]; pm_domains := [];
    pm_url_contains := ["/login-actions/"; "/realms/"]; pm_page_title_contains := ["Sign in to"];
    pm_dom_selectors := ["button#kc-login"; "form#kc-form-login"; "input#password"; "input#username"] |};
  pd_start_url := Some "$dag_auth_url"; pd_steps := keycloak_steps
|}.

(** *** The registry *)

(** serde_json on the three forms of an override file, and the [url] crate. *)
Class DefinitionOps : Type := {
  definition_from_str : string → option ProviderDefinition;
  definitions_from_str : string → option (list ProviderDefinition);
  wrapper_from_str : string → option (list ProviderDefinition);
  url_host_str : string → option string
}.

Definition BUILTIN_PROVIDER_KEYS : list string := ["keycloak"].

Section registry.
Context {DO : DefinitionOps} {I : IniFile}.

Definition parse_provider_override (raw : string) : result (list ProviderDefinition) string :=
  match definition_from_str raw with
  | Some single => Ok [single]
  | None =>
      match definitions_from_str raw with
      | Some l => Ok l
      | None =>
          match wrapper_from_str raw with
          | Some l => Ok l
          | None =>
              Err ("provider override file must be a provider object, provider array, or {" +:+ DQ +:+ "providers"
                   +:+ DQ +:+ ":[...]}")
          end
      end
  end.

Definition Registry : Type := gmap string ProviderDefinition.

(** Definitions of the override file: each is validated, a later one of the same key wins. *)
Fixpoint add_definitions (by_name : Registry) (l : list ProviderDefinition) : result Registry string :=
  match l with
  | [] => Ok by_name
  | definition :: l =>
      let? _ := validate_provider_definition definition in
      add_definitions (<[pd_provider definition := definition]> by_name) l
  end.

(** The built-in ones do not replace them. *)
Fixpoint add_builtin (by_name : Registry) (l : list ProviderDefinition) : result Registry string :=
  match l with
  | [] => Ok by_name
  | definition :: l =>
      let? _ := validate_provider_definition definition in
      add_builtin (match by_name !! pd_provider definition with
                   | Some _ => by_name
                   | None => <[pd_provider definition := definition]> by_name
                   end) l
  end.

(** [ProviderRegistry::load]: [override_path] is the path with the text read there, if it
    can be read. *)
Definition registry_load (override_path : option (string * option string)) : result Registry string :=
  let? definitions := match override_path with
                      | None => Ok []
                      | Some (path, None) => Err ("failed to read provider override file: " +:+ path)
                      | Some (_, Some raw) => parse_provider_override raw
                      end in
  let? by_name := add_definitions ∅ definitions in
  add_builtin by_name [keycloak].

(** Bytes of UTF-8 text beyond ASCII count as separators, as their characters do. *)
Definition is_ascii_alphanumeric (c : ascii) : bool :=
  let n := nat_of_ascii c in
  ((Nat.leb 48 n && Nat.leb n 57) || (Nat.leb 65 n && Nat.leb n 90) || (Nat.leb 97 n && Nat.leb n 122))%bool.

Definition UNDERSCORE : ascii := "_"%char.

Fixpoint normalize_from (last_was_sep : bool) (s : string) : string :=
  match s with
  | EmptyString => ""
  | String c s =>
      if is_ascii_alphanumeric c then String (ascii_lower c) (normalize_from false s)
      else if last_was_sep then normalize_from true s
      else String UNDERSCORE (normalize_from true s)
  end.

Fixpoint trim_start_underscore (s : string) : string :=
  match s with
  | String c s' => if Ascii.eqb c UNDERSCORE then trim_start_underscore s' else s
  | EmptyString => ""
  end.

Fixpoint trim_end_underscore (s : string) : string :=
  match s with
  | EmptyString => ""
  | String c s' =>
      match trim_end_underscore s' with
      | EmptyString => if Ascii.eqb c UNDERSCORE then "" else String c ""
      | t => String c t
      end
  end.

Definition normalize_provider_key (value : string) : option string :=
  let normalized := trim_end_underscore (trim_start_underscore (normalize_from false value)) in
  if String.eqb normalized "" then None else Some normalized.

Definition detect_builtin_provider (issuer_url : option string) : option string :=
  issuer_url ← issuer_url;
  let issuer := to_lowercase issuer_url in
  if contains_str issuer "keycloak" || contains_str issuer "/realms/" || contains_str issuer "/protocol/openid-connect"
  then Some "keycloak" else None.

Definition infer_provider_from_context (username issuer_url : option string) : option string :=
  match (issuer_url ← issuer_url; host ← url_host_str issuer_url; normalize_provider_key host) with
  | Some key => Some key
  | None => username ← username; '(_, domain) ← split_username username; normalize_provider_key domain
  end.

(** The definitions of the registry, in the order of the map. *)
Definition candidates (by_name : Registry) : list ProviderDefinition := (map_to_list by_name).*2.

Definition matches_url (url : string) (candidate : ProviderDefinition) : bool :=
  match pd_matchers candidate with
  | Some matchers =>
      existsb (contains_str url) (pm_issuer_contains matchers) || existsb (contains_str url) (pm_url_contains matchers)
  | None => false
  end.

Definition matches_domain (domain : string) (candidate : ProviderDefinition) : bool :=
  match pd_matchers candidate with
  | Some matchers => existsb (λ entry, String.eqb entry domain) (pm_domains matchers)
  | None => false
  end.

Definition registered (by_name : Registry) (provider : option string) : option string :=
  p ← provider; match by_name !! p with Some _ => Some p | None => None end.

Definition or_else {A} (o : option A) (k : option A) : option A := match o with Some a => Some a | None => k end.

(** [ProviderRegistry::detect_provider] *)
Definition detect_provider (by_name : Registry) (cfg : HimmelblauConfig)
  (requested_provider username issuer_url : option string) : string :=
  default "unknown"
    (or_else requested_provider
    (or_else (url ← issuer_url; pd_provider <$> List.find (matches_url url) (candidates by_name))
    (or_else (username ← username; '(_, domain) ← split_username username;
              or_else (ini_get (config cfg) domain "orchestrator_provider")
                (pd_provider <$> List.find (matches_domain domain) (candidates by_name)))
    (or_else (ini_get (config cfg) "global" "orchestrator_provider")
    (or_else (registered by_name (detect_builtin_provider issuer_url))
             (registered by_name (infer_provider_from_context username issuer_url))))))).

End registry.

(** ** References to an input, and urls in the log ([flow.rs]) *)

Definition is_secret_type (t : InputType) : bool :=
  match t with InputType_Password | InputType_Otp => true | _ => false end.

(** The inputs some step of the definition asks for as a password or a code. *)
Definition sensitive_input_names (definition : ProviderDefinition) : list string :=
  in_name <$> List.filter (λ i, is_secret_type (in_input_type i)) (pd_steps definition ≫= ps_required_inputs).

Definition action_references_input (input_name : string) (action : FlowAction) : bool :=
  match action with
  | FlowAction_Fill _ input => String.eqb input input_name
  | FlowAction_Extract _ source =>
      match strip_prefix_str "input:" source with Some s => String.eqb s input_name | None => false end
  | _ => false
  end.

Definition branch_references_input (input_name : string) (branch : BranchRule) : bool :=
  match br_condition branch with
  | BranchCondition_InputPresent input | BranchCondition_InputEquals input _ => String.eqb input input_name
  | BranchCondition_Always => false
  end.

Definition branches_reference_input (step : ProviderStep) (input_name : string) : bool :=
  existsb (branch_references_input input_name) (ps_branches step).

Definition step_references_input_after_action (step : ProviderStep) (current_action_index : nat) (input_name : string)
  : bool :=
  existsb (action_references_input input_name) (drop (current_action_index + 1) (ps_actions step))
  || branches_reference_input step input_name.

Definition step_references_input (step : ProviderStep) (input_name : string) : bool :=
  existsb (λ i, String.eqb (in_name i) input_name) (ps_required_inputs step)
  || existsb (action_references_input input_name) (ps_actions step)
  || branches_reference_input step input_name.

(** Whether nothing from the current action on needs the input again. *)
Definition unreferenced_from (definition : ProviderDefinition) (current_step_index current_action_index : nat)
  (input_name : string) : bool :=
  negb (existsb id (imap (λ step_index step,
    if Nat.ltb step_index current_step_index then false
    else if Nat.eqb step_index current_step_index then
      step_references_input_after_action step current_action_index input_name
    else step_references_input step input_name) (pd_steps definition))).

Definition QUESTION : ascii := "?"%char.
Definition HASH : ascii := "#"%char.

Definition redact_url_parameters (url : string) : string :=
  match split_once QUESTION url with
  | (_, None) => url
  | (base, Some query_and_fragment) =>
      match split_once HASH query_and_fragment with
      | (_, Some fragment) => base +:+ "?<redacted>#" +:+ fragment
      | (_, None) => base +:+ "?<redacted>"
      end
  end.

Definition debug_target (t : ExtractTarget) : string :=
  match t with
  | ExtractTarget_AccessToken => "AccessToken" | ExtractTarget_IdToken => "IdToken"
  | ExtractTarget_RefreshToken => "RefreshToken" | ExtractTarget_AuthorizationCode => "AuthorizationCode"
  end.

Definition summarize_action (action : FlowAction) : string :=
  match action with
  | FlowAction_Fill selector input => "fill selector='" +:+ selector +:+ "' input='" +:+ input +:+ "'"
  | FlowAction_Click selector => "click selector='" +:+ selector +:+ "'"
  | FlowAction_Wait millis => "wait " +:+ uint_to_string millis +:+ "ms"
  | FlowAction_Navigate url => "navigate url='" +:+ url +:+ "'"
  | FlowAction_Extract target source => "extract target='" +:+ debug_target target +:+ "' source='" +:+ source +:+ "'"
  | FlowAction_Log message => "log '" +:+ message +:+ "'"
  end.

(** ** Lengths *)

Lemma byte_len_append a b : byte_len (a +:+ b) = byte_len a + byte_len b.
Proof. unfold byte_len. rewrite length_append. lia. Qed.

Lemma byte_len_nonneg a : 0 ≤ byte_len a.
Proof. unfold byte_len. lia. Qed.
