(* ===== verification/OrchPodman.v ===== *)
(** * The browser orchestrator: containers and sessions

    [src/orchestrator/src/podman.rs] (the commands that start and remove a container, its
    directory, and the requests to the bridge inside it), the data and the log of a session
    ([session.rs]), and the monad the orchestrator is written in. *)
From stdpp Require Import base gmap strings list fin_maps.
From Stdlib Require Import ZArith Lia Ascii.
From S2P Require Import Prelude Config Pam OrchTypes.

Open Scope rust_scope.

(** ** Outcomes

    A call returns, fails with an error (the outermost context of an [anyhow::Error], which
    is what its text is), or waits for ever for a lock that is not given back. A loop that
    is cut off by its fuel has not come to an end. *)
Inductive Out (A : Type) : Type :=
| Done (a : A)
| Failed (e : string)
| Hung
| OutOfFuel.
Arguments Done {A} a.
Arguments Failed {A} e.
Arguments Hung {A}.
Arguments OutOfFuel {A}.

Definition OrcM (S A : Type) : Type := S → Out A * S.

#[export] Instance OrcM_ret S : MRet (OrcM S) := λ A a s, (Done a, s).
#[export] Instance OrcM_bind S : MBind (OrcM S) := λ A B k m s,
  match m s with
  | (Done a, s) => k a s
  | (Failed e, s) => (Failed e, s)
  | (Hung, s) => (Hung, s)
  | (OutOfFuel, s) => (OutOfFuel, s)
  end.

Definition o_fail {S A} (e : string) : OrcM S A := λ s, (Failed e, s).
Definition o_hang {S A} : OrcM S A := λ s, (Hung, s).
Definition o_get {S A} (f : S → A) : OrcM S A := λ s, (Done (f s), s).
Definition o_modify {S} (f : S → S) : OrcM S unit := λ s, (Done tt, f s).
Definition o_result {S A} (r : result A string) : OrcM S A :=
  match r with Ok a => mret a | Err e => o_fail e end.

(** [.await] with the result as a value, and [.with_context(..)]. *)
Definition o_attempt {S A} (m : OrcM S A) : OrcM S (result A string) := λ s,
  match m s with
  | (Done a, s) => (Done (Ok a), s)
  | (Failed e, s) => (Done (Err e), s)
  | (Hung, s) => (Hung, s)
  | (OutOfFuel, s) => (OutOfFuel, s)
  end.
Definition o_context {S A} (msg : string) (m : OrcM S A) : OrcM S A := λ s,
  match m s with
  | (Failed _, s) => (Failed msg, s)
  | r => r
  end.

(** A call on a part of the state. *)
Definition o_zoom {S T A} (get_ : S → T) (put : T → S → S) (m : OrcM T A) : OrcM S A := λ s,
  let '(r, t) := m (get_ s) in (r, put t s).

(** ** What is outside *)

Record ContainerInstance := {
  ci_id : string; ci_name : string; ci_session_dir : string; ci_bridge_socket_path : string
}.

Inductive BridgeAction :=
| BridgeAction_Fill (selector value : string)
| BridgeAction_Click (selector : string)
| BridgeAction_Navigate (url : string).

Inductive BridgeRequest :=
| BridgeRequest_Action (payload : BridgeAction)
| BridgeRequest_Extract (source : string)
| BridgeRequest_Success (success : SuccessCondition)
| BridgeRequest_Ping.

(** A JSON value, as far as the code looks at it: null, a string, or the text of another. *)
Inductive BridgeValue := BridgeValue_Null | BridgeValue_String (s : string) | BridgeValue_Other (text : string).

Record BridgeResponse := {
  bp_ok : bool; bp_error : option string; bp_pong : option bool; bp_success : option bool; bp_value : option BridgeValue
}.

(** What an exchange with the bridge came to. *)
Inductive BridgeIo :=
| BridgeIo_Timeout | BridgeIo_ConnectFailed | BridgeIo_WriteFailed | BridgeIo_ShutdownFailed | BridgeIo_ReadFailed
| BridgeIo_Read (response_bytes : list Byte.byte).

Record CommandOutput := { co_success : bool; co_code : option Z; co_stdout : string; co_stderr : string; co_status : string }.

Inductive FsResult := Fs_Ok | Fs_NotFound | Fs_Failed.

(** The host, with the containers and browsers on it: [W] is its state. *)
Class OrchEnv (W : Type) : Type := {
  bridge_to_vec : BridgeRequest → option (list Byte.byte);
  bridge_from_slice : list Byte.byte → option BridgeResponse;
  bridge_io : string → list Byte.byte → Z → W → BridgeIo * W;
  run_command : string → list string → W → result CommandOutput string * W;
  path_exists : string → W → bool;
  path_is_dir : string → W → bool;
  path_is_file : string → W → bool;
  fs_create_dir_all : string → W → FsResult * W;
  fs_set_permissions : string → Z → W → FsResult * W;
  fs_metadata : string → W → FsResult * W;
  fs_remove_dir_all : string → W → FsResult * W;
  fs_remove_file : string → W → FsResult * W;
  sleep_ms : Z → W → W;
  instant_now : W → Z * W;
  epoch_s_now : W → Z * W;
  process_id : Z
}.

(** An operation of the host. *)
Definition host {W A} (f : W → A * W) : OrcM W A := λ w, let '(a, w) := f w in (Done a, w).

(** [a.join(b)] for a relative [b]. *)
Definition path_join (a b : string) : string :=
  match last_char a with
  | None => b
  | Some c => if Ascii.eqb c "/"%char then a +:+ b else a +:+ "/" +:+ b
  end.

Definition sanitize_char (c : ascii) : ascii :=
  if is_ascii_alphanumeric c || Ascii.eqb c "-"%char || Ascii.eqb c UNDERSCORE then c else UNDERSCORE.

(** One underscore per character that is not allowed; a character of several bytes has
    one byte that begins it. *)
Definition is_continuation (c : ascii) : bool :=
  let n := nat_of_ascii c in (Nat.leb 128 n && Nat.ltb n 192)%bool.

Fixpoint sanitize (s : string) : string :=
  match s with
  | EmptyString => ""
  | String c s => if is_continuation c then sanitize s else String (sanitize_char c) (sanitize s)
  end.

Definition sanitize_container_name (session_id : string) : string := "himmelblau-orch-" +:+ sanitize session_id.

Definition sanitize_session_dir_name (session_id : string) : string :=
  let name := sanitize session_id in if String.eqb name "" then "session" else name.

(** ** [PodmanClient] *)

Definition BRIDGE_SOCKET_FILE_NAME : string := "bridge.sock".
Definition CONTAINER_SESSION_RUNTIME_DIR : string := "/run/himmelblau-orchestrator-session".
Definition CONTAINER_BRIDGE_SOCKET_PATH : string := "/run/himmelblau-orchestrator-session/bridge.sock".
Definition CONTAINER_STOP_TIMEOUT_SECS : string := "0".

Record PodmanClient := {
  pc_binary : string; pc_image : string; pc_network : option string; pc_runtime_dir : string;
  pc_action_timeout_secs : Z; pc_session_idle_timeout_secs : Z; pc_no_new_privileges : bool;
  pc_apparmor_profile : option string
}.

Definition host_certificate_mounts : list (string * string) := [
  ("/etc/ssl/certs", "/host-trust/etc-ssl-certs");
  ("/etc/pki/trust", "/host-trust/etc-pki-trust");
  ("/etc/pki/ca-trust", "/host-trust/etc-pki-ca-trust");
  ("/etc/pki/tls/certs", "/host-trust/etc-pki-tls-certs");
  ("/etc/ca-certificates", "/host-trust/etc-ca-certificates");
  ("/usr/local/share/ca-certificates", "/host-trust/usr-local-share-ca-certificates")].

Record SessionRuntimePaths := { sp_session_dir : string; sp_bridge_socket_path : string }.

Section podman.
Context {W : Type} {OE : OrchEnv W}.
Variable self : PodmanClient.
Notation PM := (OrcM W).

Definition image_exists : PM bool :=
  r ← host (run_command (pc_binary self) ["image"; "exists"; pc_image self]);
  match r with
  | Err _ => o_fail "failed to execute podman image exists"
  | Ok output =>
      if co_success output then mret true
      else if bool_decide (co_code output = Some 1) then mret false
      else o_fail ("podman image exists failed for '" +:+ pc_image self +:+ "': status=" +:+ co_status output +:+ "; stdout="
                   +:+ co_stdout output +:+ "; stderr=" +:+ co_stderr output)
  end.

Definition build_image_from_dir (build_dir : string) : PM unit :=
  is_dir ← o_get (path_is_dir build_dir);
  if is_dir : bool then
    let dockerfile := path_join build_dir "Dockerfile" in
    is_file ← o_get (path_is_file dockerfile);
    if is_file : bool then
      r ← host (run_command (pc_binary self) ["build"; "--layers"; "-t"; pc_image self; build_dir]);
      match r with
      | Err _ => o_fail "failed to execute podman build"
      | Ok output =>
          if co_success output then mret tt
          else o_fail ("podman build failed for image '" +:+ pc_image self +:+ "' from '" +:+ build_dir +:+ "': status="
                       +:+ co_status output +:+ NL +:+ "stdout:" +:+ NL +:+ co_stdout output +:+ NL +:+ "stderr:" +:+ NL
                       +:+ co_stderr output)
      end
    else o_fail ("orchestrator container Dockerfile does not exist: " +:+ dockerfile)
  else o_fail ("orchestrator container build directory does not exist: " +:+ build_dir).

(** One exchange on a fresh connection to the bridge. *)
Definition send_bridge_request (container : ContainerInstance) (request : BridgeRequest) (request_timeout : Z)
  (operation : string) : PM BridgeResponse :=
  match bridge_to_vec request with
  | None => o_fail ("failed serializing " +:+ operation +:+ " request")
  | Some payload =>
      io ← host (bridge_io (ci_bridge_socket_path container) payload request_timeout);
      match io with
      | BridgeIo_Timeout => o_fail ("timed out waiting for " +:+ operation)
      | BridgeIo_ConnectFailed => o_fail ("failed connecting to bridge socket " +:+ ci_bridge_socket_path container)
      | BridgeIo_WriteFailed => o_fail ("failed writing " +:+ operation +:+ " request")
      | BridgeIo_ShutdownFailed => o_fail ("failed closing write side for " +:+ operation +:+ " request")
      | BridgeIo_ReadFailed => o_fail ("failed reading " +:+ operation +:+ " response")
      | BridgeIo_Read [] => o_fail ("bridge returned empty response for " +:+ operation)
      | BridgeIo_Read response_bytes =>
          match bridge_from_slice response_bytes with
          | None => o_fail ("failed parsing bridge response for " +:+ operation)
          | Some response =>
              if bp_ok response then mret response
              else o_fail (operation +:+ ": " +:+ default "unknown bridge failure" (bp_error response))
          end
      end
  end.

Definition action_timeout : Z := Z.max 1 (pc_action_timeout_secs self).

Definition ping_container (container : ContainerInstance) : PM unit :=
  response ← send_bridge_request container BridgeRequest_Ping 1 "bridge ping failed";
  if default false (bp_pong response) then mret tt else o_fail "bridge ping response missing pong=true".

Definition bridge_action (container : ContainerInstance) (payload : BridgeAction) (operation : string) : PM unit :=
  _ ← send_bridge_request container (BridgeRequest_Action payload) action_timeout operation; mret tt.

Definition bridge_fill (container : ContainerInstance) (selector value : string) : PM unit :=
  bridge_action container (BridgeAction_Fill selector value) "bridge fill action failed".
Definition bridge_click (container : ContainerInstance) (selector : string) : PM unit :=
  bridge_action container (BridgeAction_Click selector) "bridge click action failed".
Definition bridge_navigate (container : ContainerInstance) (url : string) : PM unit :=
  bridge_action container (BridgeAction_Navigate url) "bridge navigate action failed".

Definition capture_artifact (container : ContainerInstance) (source : string) : PM (option string) :=
  response ← send_bridge_request container (BridgeRequest_Extract source) action_timeout "bridge artifact extraction failed";
  mret (match bp_value response with
        | None | Some BridgeValue_Null => None
        | Some (BridgeValue_String raw) => if String.eqb raw "" then None else Some raw
        | Some (BridgeValue_Other text) => Some text
        end).

Definition check_success_condition (container : ContainerInstance) (success : SuccessCondition) : PM bool :=
  response ← send_bridge_request container (BridgeRequest_Success success) action_timeout "bridge success probe failed";
  match bp_success response with
  | Some b => mret b
  | None => o_fail "bridge success probe response missing 'success'"
  end.

(** *** Directories *)

Definition fs_do (op : W → FsResult * W) (msg : string) : PM unit :=
  r ← host op;
  match r with Fs_Ok => mret tt | _ => o_fail msg end.

(** An operation for which it is fine that there is nothing. *)
Definition fs_remove (op : W → FsResult * W) (msg : string) : PM unit :=
  r ← host op;
  match r with Fs_Ok | Fs_NotFound => mret tt | Fs_Failed => o_fail msg end.

Definition ensure_dir_with_mode (path : string) (mode : Z) : PM unit :=
  _ ← fs_do (fs_create_dir_all path) ("failed creating directory " +:+ path);
  fs_do (fs_set_permissions path mode) ("failed setting permissions on " +:+ path).

Definition DIR_MODE : Z := 0x1c0.

Definition prepare_session_runtime (session_id : string) : PM SessionRuntimePaths :=
  let sessions_root := path_join (pc_runtime_dir self) "sessions" in
  _ ← ensure_dir_with_mode (pc_runtime_dir self) DIR_MODE;
  _ ← ensure_dir_with_mode sessions_root DIR_MODE;
  let session_dir := path_join sessions_root (sanitize_session_dir_name session_id) in
  r ← host (fs_metadata session_dir);
  _ ← (match r with
       | Fs_Ok => fs_do (fs_remove_dir_all session_dir)
                    ("failed removing stale session runtime directory " +:+ session_dir)
       | Fs_NotFound => mret tt
       | Fs_Failed => o_fail ("failed reading session runtime directory " +:+ session_dir)
       end);
  _ ← ensure_dir_with_mode session_dir DIR_MODE;
  let bridge_socket_path := path_join session_dir BRIDGE_SOCKET_FILE_NAME in
  _ ← fs_remove (fs_remove_file bridge_socket_path) ("failed removing stale bridge socket " +:+ bridge_socket_path);
  mret {| sp_session_dir := session_dir; sp_bridge_socket_path := bridge_socket_path |}.

Definition cleanup_session_runtime_paths (runtime : SessionRuntimePaths) : PM unit :=
  _ ← fs_remove (fs_remove_file (sp_bridge_socket_path runtime))
        ("failed removing bridge socket " +:+ sp_bridge_socket_path runtime);
  fs_remove (fs_remove_dir_all (sp_session_dir runtime))
    ("failed removing session runtime directory " +:+ sp_session_dir runtime).

(** *** Containers *)

(** What is tried is done whatever became of [podman rm]; its error comes first. *)
Definition destroy_session_container (container : ContainerInstance) : PM unit :=
  r ← host (run_command (pc_binary self) ["rm"; "-f"; "--time"; CONTAINER_STOP_TIMEOUT_SECS; ci_id container]);
  let container_error :=
    match r with
    | Ok output =>
        if co_success output || contains_str (co_stderr output) "no such container"
           || contains_str (co_stderr output) "no container with name"
        then None else Some ("podman rm failed: " +:+ co_stderr output)
    | Err error => Some ("failed to execute podman rm: " +:+ error)
    end in
  c ← o_attempt (cleanup_session_runtime_paths
        {| sp_session_dir := ci_session_dir container; sp_bridge_socket_path := ci_bridge_socket_path container |});
  match container_error, c with
  | Some error, _ => o_fail error
  | None, Err error => o_fail error
  | None, Ok _ => mret tt
  end.

(** The arguments of [podman run]; [mounts] are the certificate directories that exist. *)
Definition run_args (session_id name : string) (runtime_paths : SessionRuntimePaths) (mounts : list (string * string))
  : list string :=
  ["run"; "--detach"; "--rm"; "--replace"; "--stop-timeout"; CONTAINER_STOP_TIMEOUT_SECS; "--cap-drop"; "ALL";
   "--read-only"; "--tmpfs"; "/tmp:size=64m,mode=1777"; "--tmpfs"; "/run:size=32m,mode=755"; "--name"; name;
   "--volume"; sp_session_dir runtime_paths +:+ ":" +:+ CONTAINER_SESSION_RUNTIME_DIR +:+ ":rw,z";
   "--env"; "ORCHESTRATOR_BRIDGE_SOCKET=" +:+ CONTAINER_BRIDGE_SOCKET_PATH]
  ++ (if pc_no_new_privileges self then ["--security-opt"; "no-new-privileges"] else [])
  ++ (match pc_apparmor_profile self with Some profile => ["--security-opt"; "apparmor=" +:+ profile] | None => [] end)
  ++ (mounts ≫= λ '(host_path, container_path), ["--volume"; host_path +:+ ":" +:+ container_path +:+ ":ro"])
  ++ (match pc_network self with Some network => ["--network"; network] | None => [] end)
  ++ [pc_image self; "orchestrator-playwright-bridge"; "--session-id"; session_id;
      "--idle-seconds"; uint_to_string (Z.max 1 (pc_session_idle_timeout_secs self))].

(** [for _ in 0..attempts] *)
Fixpoint ping_until_ready (attempts : nat) (container : ContainerInstance) : PM bool :=
  match attempts with
  | O => mret false
  | S attempts =>
      r ← o_attempt (ping_container container);
      match r with
      | Ok _ => mret true
      | Err _ => _ ← o_modify (sleep_ms 200); ping_until_ready attempts container
      end
  end.

(** The product wraps around as a [u64]. *)
Definition bridge_attempts : Z := Z.min 300 ((Z.max 1 (pc_action_timeout_secs self) * 5) mod (u64_max + 1)).

Definition wait_for_bridge_socket (container : ContainerInstance) : PM unit :=
  ready ← ping_until_ready (Z.to_nat bridge_attempts) container;
  if ready : bool then mret tt
  else o_fail ("timed out waiting for orchestrator-playwright-bridge readiness on " +:+ ci_bridge_socket_path container).

Definition create_session_container (session_id : string) : PM ContainerInstance :=
  runtime_paths ← o_context ("failed preparing runtime for session '" +:+ session_id +:+ "'")
                    (prepare_session_runtime session_id);
  let name := sanitize_container_name session_id in
  mounts ← o_get (λ w, List.filter (λ m, path_exists m.1 w) host_certificate_mounts);
  r ← host (run_command (pc_binary self) (run_args session_id name runtime_paths mounts));
  match r with
  | Err _ => o_fail "failed to execute podman run"
  | Ok output =>
      if co_success output then
        let id := trim (co_stdout output) in
        if String.eqb id "" then
          _ ← o_attempt (cleanup_session_runtime_paths runtime_paths);
          o_fail "podman run returned empty container id"
        else
          let container := {| ci_id := id; ci_name := name; ci_session_dir := sp_session_dir runtime_paths;
                              ci_bridge_socket_path := sp_bridge_socket_path runtime_paths |} in
          w ← o_attempt (wait_for_bridge_socket container);
          match w with
          | Ok _ => mret container
          | Err _ =>
              _ ← o_attempt (destroy_session_container container);
              o_fail ("container '" +:+ name +:+ "' started but bridge socket never became ready")
          end
      else
        _ ← o_attempt (cleanup_session_runtime_paths runtime_paths);
        o_fail ("podman run failed: " +:+ co_stderr output)
  end.

End podman.
