(* ===== verification/OrchFlow.v ===== *)
(** * The browser orchestrator: sessions and the flow executor

    The data and the log of a session ([src/orchestrator/src/session.rs]) and
    [FlowExecutor] ([src/orchestrator/src/flow.rs]): the loop that runs the steps of a
    provider's flow in the browser until it needs an input, is complete or fails. The
    mutex of a session's runtime is modelled: a second lock of it waits for ever. *)
From stdpp Require Import base gmap strings list fin_maps.
From Stdlib Require Import ZArith Lia Ascii.
From S2P Require Import Prelude Config Pam OrchTypes OrchPodman.

Open Scope rust_scope.

(** ** Sessions *)

Definition MAX_SESSION_LOG_ENTRIES : nat := 64.
Definition MAX_SESSION_LOG_MESSAGE_BYTES : Z := 512.
Definition TRUNCATED_LOG_SUFFIX : string := "...<truncated>".

Record CollectedInput := { cv_value : string; cv_sensitive : bool }.

Definition collected_is_empty (i : CollectedInput) : bool := String.eqb (cv_value i) "".

Record SessionRuntime := {
  rt_state : SessionState; rt_current_step_index : nat; rt_last_activity : Z; rt_terminal_since : option Z;
  rt_detail : option string; rt_collected_inputs : gmap string CollectedInput; rt_tokens : TokenBundle;
  rt_metadata : gmap string string; rt_logs : list SessionLogEntry
}.

Definition runtime_default (now : Z) : SessionRuntime := {|
  rt_state := SessionState_InProgress; rt_current_step_index := 0; rt_last_activity := now; rt_terminal_since := None;
  rt_detail := None; rt_collected_inputs := ∅; rt_tokens := token_bundle_default; rt_metadata := ∅; rt_logs := []
|}.

Definition set_rt_state (v : SessionState) (r : SessionRuntime) : SessionRuntime :=
  Build_SessionRuntime v (rt_current_step_index r) (rt_last_activity r) (rt_terminal_since r) (rt_detail r)
    (rt_collected_inputs r) (rt_tokens r) (rt_metadata r) (rt_logs r).
Definition set_rt_index (v : nat) (r : SessionRuntime) : SessionRuntime :=
  Build_SessionRuntime (rt_state r) v (rt_last_activity r) (rt_terminal_since r) (rt_detail r)
    (rt_collected_inputs r) (rt_tokens r) (rt_metadata r) (rt_logs r).
Definition set_rt_activity (v : Z) (r : SessionRuntime) : SessionRuntime :=
  Build_SessionRuntime (rt_state r) (rt_current_step_index r) v (rt_terminal_since r) (rt_detail r)
    (rt_collected_inputs r) (rt_tokens r) (rt_metadata r) (rt_logs r).
Definition set_rt_terminal (v : option Z) (r : SessionRuntime) : SessionRuntime :=
  Build_SessionRuntime (rt_state r) (rt_current_step_index r) (rt_last_activity r) v (rt_detail r)
    (rt_collected_inputs r) (rt_tokens r) (rt_metadata r) (rt_logs r).
Definition set_rt_detail (v : option string) (r : SessionRuntime) : SessionRuntime :=
  Build_SessionRuntime (rt_state r) (rt_current_step_index r) (rt_last_activity r) (rt_terminal_since r) v
    (rt_collected_inputs r) (rt_tokens r) (rt_metadata r) (rt_logs r).
Definition set_rt_inputs (v : gmap string CollectedInput) (r : SessionRuntime) : SessionRuntime :=
  Build_SessionRuntime (rt_state r) (rt_current_step_index r) (rt_last_activity r) (rt_terminal_since r) (rt_detail r)
    v (rt_tokens r) (rt_metadata r) (rt_logs r).
Definition set_rt_tokens (v : TokenBundle) (r : SessionRuntime) : SessionRuntime :=
  Build_SessionRuntime (rt_state r) (rt_current_step_index r) (rt_last_activity r) (rt_terminal_since r) (rt_detail r)
    (rt_collected_inputs r) v (rt_metadata r) (rt_logs r).
Definition set_rt_metadata (v : gmap string string) (r : SessionRuntime) : SessionRuntime :=
  Build_SessionRuntime (rt_state r) (rt_current_step_index r) (rt_last_activity r) (rt_terminal_since r) (rt_detail r)
    (rt_collected_inputs r) (rt_tokens r) v (rt_logs r).
Definition set_rt_logs (v : list SessionLogEntry) (r : SessionRuntime) : SessionRuntime :=
  Build_SessionRuntime (rt_state r) (rt_current_step_index r) (rt_last_activity r) (rt_terminal_since r) (rt_detail r)
    (rt_collected_inputs r) (rt_tokens r) (rt_metadata r) v.

(** [se_locked]: somebody holds the mutex of the runtime. *)
Record Session := {
  se_session_id : string; se_provider : string; se_owner_uid : Z; se_container : ContainerInstance;
  se_definition : ProviderDefinition; se_runtime : SessionRuntime; se_locked : bool
}.

Definition set_se_runtime (v : SessionRuntime) (s : Session) : Session :=
  Build_Session (se_session_id s) (se_provider s) (se_owner_uid s) (se_container s) (se_definition s) v (se_locked s).
Definition set_se_locked (v : bool) (s : Session) : Session :=
  Build_Session (se_session_id s) (se_provider s) (se_owner_uid s) (se_container s) (se_definition s) (se_runtime s) v.

Definition owned_by (s : Session) (uid : Z) : bool := se_owner_uid s =? uid.

(** The characters of UTF-8 text. *)
Fixpoint utf8_chars (s : string) : list string :=
  match s with
  | EmptyString => []
  | String c s =>
      match utf8_chars s with
      | String d t :: l => if is_continuation d then String c (String d t) :: l else String c "" :: String d t :: l
      | l => String c "" :: l
      end
  end.

Fixpoint take_chars (used : Z) (l : list string) : string :=
  match l with
  | [] => ""
  | ch :: l =>
      if MAX_SESSION_LOG_MESSAGE_BYTES <? used + byte_len ch + byte_len TRUNCATED_LOG_SUFFIX then ""
      else ch +:+ take_chars (used + byte_len ch) l
  end.

Definition truncate_log_message (message : string) : string :=
  if byte_len message <=? MAX_SESSION_LOG_MESSAGE_BYTES then message
  else take_chars 0 (utf8_chars message) +:+ TRUNCATED_LOG_SUFFIX.

(** The oldest entry makes room. *)
Definition push_log (entry : SessionLogEntry) (r : SessionRuntime) : SessionRuntime :=
  let logs := if Nat.eqb (length (rt_logs r)) MAX_SESSION_LOG_ENTRIES then tail (rt_logs r) else rt_logs r in
  set_rt_logs (logs ++ [entry]) r.

Definition show_index (i : nat) : string := uint_to_string (Z.of_nat i).

Section flow.
Context {W : Type} {OE : OrchEnv W}.

(** A session and the host. *)
Record Flow := { fl_session : Session; fl_world : W }.

Notation FM := (OrcM Flow).

Definition fl_host {A} (m : OrcM W A) : FM A :=
  o_zoom fl_world (λ w s, {| fl_session := fl_session s; fl_world := w |}) m.

Definition fl_locked (b : bool) (s : Flow) : Flow :=
  {| fl_session := set_se_locked b (fl_session s); fl_world := fl_world s |}.

(** [let runtime = session.runtime.lock().await] up to the end of its scope. *)
Definition with_runtime {A} (m : FM A) : FM A := λ s,
  if se_locked (fl_session s) then (Hung, s)
  else
    let '(r, s) := m (fl_locked true s) in
    (r, match r with Done _ | Failed _ => fl_locked false s | Hung | OutOfFuel => s end).

(** The runtime while it is locked. *)
Definition runtime {A} (f : SessionRuntime → A) : FM A := o_get (λ s, f (se_runtime (fl_session s))).
Definition mod_runtime (f : SessionRuntime → SessionRuntime) : FM unit :=
  o_modify (λ s, {| fl_session := set_se_runtime (f (se_runtime (fl_session s))) (fl_session s); fl_world := fl_world s |}).
Definition the_session {A} (f : Session → A) : FM A := o_get (λ s, f (fl_session s)).

Definition touch : FM unit := now ← fl_host (host instant_now); mod_runtime (set_rt_activity now).

(** [Session::log] *)
Definition session_log (level : LogLevel) (message : string) : FM unit :=
  with_runtime (
    _ ← touch;
    t ← fl_host (host epoch_s_now);
    mod_runtime (push_log {| le_timestamp_epoch_s := t; le_level := level; le_message := truncate_log_message message |})).

(** [Session::status_response] *)
Definition status_response : FM FlowResponse :=
  r ← with_runtime (runtime id);
  s ← the_session id;
  mret (FlowResponse_SessionStatus (se_session_id s) (se_provider s) (rt_state r) (rt_detail r) (rt_logs r)).

(** [Session::is_stale]; [duration_since] is zero for an instant that is later. *)
Definition is_stale (idle_timeout terminal_retention now : Z) : FM bool :=
  r ← with_runtime (runtime id);
  mret ((idle_timeout <=? saturating_sub now (rt_last_activity r))
        || match rt_terminal_since r with
           | Some terminal_since => terminal_retention <=? saturating_sub now terminal_since
           | None => false
           end).

(** ** [FlowExecutor] *)

Variable podman : PodmanClient.

Definition extract_value (source : string) : FM (option string) :=
  match strip_prefix_str "input:" source with
  | Some input_name =>
      r ← with_runtime (runtime rt_collected_inputs);
      mret (cv_value <$> r !! input_name)
  | None =>
      match strip_prefix_str "static:" source with
      | Some value => mret (Some value)
      | None => c ← the_session se_container; fl_host (capture_artifact podman c source)
      end
  end.

Definition resolve_navigation_url (url : string) : FM (option string) :=
  if String.eqb url "$dag_auth_url" then
    metadata ← with_runtime (runtime rt_metadata);
    mret (metadata !! "dag_auth_url")
  else mret (Some url).

Definition initialize_session_navigation : FM unit :=
  provider_start_url ← the_session (λ s, pd_start_url (se_definition s));
  metadata ← with_runtime (runtime rt_metadata);
  target ← (match metadata !! "dag_auth_url" with
            | Some url => mret (Some ("dag_auth_url", url))
            | None =>
                match provider_start_url with
                | Some url =>
                    resolved ← resolve_navigation_url url;
                    match resolved with
                    | Some resolved => mret (Some ("provider_start_url", resolved))
                    | None =>
                        _ ← session_log LogLevel_Debug
                              ("Skipping initial navigation: provider_start_url '" +:+ url +:+ "' could not be resolved");
                        mret None
                    end
                | None =>
                    _ ← session_log LogLevel_Debug "No initial navigation URL available; relying on in-step navigation";
                    mret None
                end
            end);
  match target with
  | None => mret tt
  | Some (navigation_source, navigation_url) =>
      _ ← session_log LogLevel_Debug
            ("Initial navigation using " +:+ navigation_source +:+ "='" +:+ redact_url_parameters navigation_url +:+ "'");
      c ← the_session se_container;
      o_context ("initial navigation failed using " +:+ navigation_source +:+ "='" +:+ navigation_url +:+ "'")
        (fl_host (bridge_navigate podman c navigation_url))
  end.

(** *** The conditions of a step *)

Definition wait_condition_satisfied (step_name : string) (wait_for : WaitCondition) : FM bool :=
  let probe := {| sc_url_contains := wc_pattern wait_for; sc_dom_selector := wc_selector wait_for; sc_token_key := None |} in
  match wc_pattern wait_for, wc_selector wait_for with
  | None, None => mret true
  | _, _ =>
      c ← the_session se_container;
      matched ← o_context ("failed to evaluate wait_for condition before step '" +:+ step_name +:+ "'")
                  (fl_host (check_success_condition podman c probe));
      _ ← session_log LogLevel_Debug
            ("Step '" +:+ step_name +:+ "' wait_for probe result: matched=" +:+ show_bool matched +:+ " selector="
             +:+ debug_opt (wc_selector wait_for) +:+ " pattern=" +:+ debug_opt (wc_pattern wait_for));
      mret matched
  end.

Definition optional_step_wait_condition_satisfied (step : ProviderStep) : FM bool :=
  if ps_optional step then
    match ps_wait_for step with
    | None => mret true
    | Some wait_for => wait_condition_satisfied (ps_name step) wait_for
    end
  else mret true.

Definition has_token (tokens : TokenBundle) (token_key : string) : bool :=
  let is_some (o : option string) := match o with Some _ => true | None => false end in
  if String.eqb token_key "access_token" then is_some (tk_access_token tokens)
  else if String.eqb token_key "id_token" then is_some (tk_id_token tokens)
  else if String.eqb token_key "refresh_token" then is_some (tk_refresh_token tokens)
  else if String.eqb token_key "authorization_code" then is_some (tk_authorization_code tokens)
  else false.

(** The block for a token key logs while it holds the runtime. *)
Definition token_key_successful (step : ProviderStep) (token_key : string) : FM bool :=
  with_runtime (
    tokens ← runtime rt_tokens;
    if has_token tokens token_key then
      _ ← session_log LogLevel_Debug
            ("Step '" +:+ ps_name step +:+ "' success condition satisfied by token_key='" +:+ token_key +:+ "'");
      mret true
    else
      _ ← session_log LogLevel_Debug
            ("Step '" +:+ ps_name step +:+ "' success token_key='" +:+ token_key +:+ "' not yet available");
      mret false).

Definition page_successful (step : ProviderStep) (success : SuccessCondition) : FM bool :=
  match sc_dom_selector success, sc_url_contains success with
  | None, None => mret false
  | _, _ =>
      c ← the_session se_container;
      matched ← fl_host (check_success_condition podman c success);
      _ ← session_log LogLevel_Debug
            ("Step '" +:+ ps_name step +:+ "' success probe result via dom/url condition: " +:+ show_bool matched);
      mret matched
  end.

Definition step_successful (step : ProviderStep) : FM bool :=
  match ps_success step with
  | None => mret false
  | Some success =>
      t ← (match sc_token_key success with
           | Some token_key => token_key_successful step token_key
           | None => mret false
           end);
      if t : bool then mret true else page_successful step success
  end.

(** *** Branches *)

Definition branch_matches (inputs : gmap string CollectedInput) (branch : BranchRule) : bool :=
  match br_condition branch with
  | BranchCondition_Always => true
  | BranchCondition_InputPresent input =>
      match inputs !! input with Some value => negb (collected_is_empty value) | None => false end
  | BranchCondition_InputEquals input value =>
      match inputs !! input with Some current => String.eqb (cv_value current) value | None => false end
  end.

Definition matched_target (inputs : gmap string CollectedInput) (excluded : option string) (branches : list BranchRule)
  : option string :=
  br_goto_step <$> List.find (λ branch,
    branch_matches inputs branch
    && negb (match excluded with Some e => String.eqb (br_goto_step branch) e | None => false end)) branches.

Definition step_position (name : string) (definition : ProviderDefinition) : option nat :=
  fst <$> list_find (λ candidate, ps_name candidate = name) (pd_steps definition).

Definition evaluate_branch_excluding (step : ProviderStep) (excluded_target_step : option string) : FM (option nat) :=
  match ps_branches step with
  | [] => mret None
  | branches =>
      inputs ← with_runtime (runtime rt_collected_inputs);
      match matched_target inputs excluded_target_step branches with
      | None => mret None
      | Some goto_step =>
          definition ← the_session se_definition;
          match step_position goto_step definition with
          | Some next_index => mret (Some next_index)
          | None => o_fail ("step '" +:+ ps_name step +:+ "' branches to unknown step '" +:+ goto_step +:+ "'")
          end
      end
  end.

Definition evaluate_branch (step : ProviderStep) : FM (option nat) := evaluate_branch_excluding step None.

(** *** Inputs *)

Definition missing_inputs (inputs : gmap string CollectedInput) (step : ProviderStep) : list ProviderInput :=
  List.filter (λ required,
    negb (in_optional required)
    && match inputs !! in_name required with Some value => collected_is_empty value | None => true end)
    (ps_required_inputs step).

Definition input_presence (inputs : gmap string CollectedInput) (step : ProviderStep) : list string :=
  (λ required, in_name required +:+ ":" +:+
     match inputs !! in_name required with
     | Some value => if collected_is_empty value then "present-empty" else "present"
     | None => "missing"
     end) <$> ps_required_inputs step.

Definition BROWSER_URL_PLACEHOLDER : string := "{{browser:url}}".

Definition resolve_required_input_prompt (prompt : option string) : FM (option string) :=
  match prompt with
  | None => mret None
  | Some resolved =>
      if contains_str resolved BROWSER_URL_PLACEHOLDER then
        r ← o_attempt (extract_value "browser:url");
        match r with
        | Ok (Some browser_url) => mret (Some (replace_str BROWSER_URL_PLACEHOLDER browser_url resolved))
        | Ok None => mret (Some resolved)
        | Err error =>
            _ ← session_log LogLevel_Warn
                  ("Failed resolving required input prompt placeholder '{browser:url}': " +:+ error);
            mret (Some resolved)
        end
      else mret (Some resolved)
  end.

Fixpoint response_inputs (l : list ProviderInput) : FM (list RequiredInput) :=
  match l with
  | [] => mret []
  | input :: l =>
      prompt ← resolve_required_input_prompt (in_prompt input);
      rest ← response_inputs l;
      mret ({| rq_name := in_name input; rq_input_type := in_input_type input; rq_prompt := prompt;
               rq_optional := in_optional input |} :: rest)
  end.

Definition maybe_request_inputs (step : ProviderStep) : FM (option FlowResponse) :=
  inputs ← with_runtime (runtime rt_collected_inputs);
  let presence := input_presence inputs step in
  match missing_inputs inputs step with
  | [] =>
      _ ← session_log LogLevel_Debug
            ("Step '" +:+ ps_name step +:+ "' has all required inputs satisfied: " +:+ debug_strs presence);
      mret None
  | required_inputs =>
      _ ← session_log LogLevel_Debug
            ("Step '" +:+ ps_name step +:+ "' blocking for inputs. Presence: " +:+ debug_strs presence
             +:+ "; missing_required=" +:+ debug_strs (in_name <$> required_inputs));
      _ ← with_runtime (
            _ ← mod_runtime (set_rt_state SessionState_WaitingForInput);
            _ ← mod_runtime (set_rt_detail (Some ("Awaiting input for step '" +:+ ps_name step +:+ "'")));
            touch);
      session_id ← the_session se_session_id;
      inputs ← response_inputs required_inputs;
      mret (Some (FlowResponse_NextStep session_id inputs
              (Some ("Step '" +:+ ps_name step +:+ "' requires additional inputs"))))
  end.

(** *** Actions *)

Definition set_token (target : ExtractTarget) (value : string) (t : TokenBundle) : TokenBundle :=
  match target with
  | ExtractTarget_AccessToken =>
      Build_TokenBundle (Some value) (tk_id_token t) (tk_refresh_token t) (tk_authorization_code t)
  | ExtractTarget_IdToken =>
      Build_TokenBundle (tk_access_token t) (Some value) (tk_refresh_token t) (tk_authorization_code t)
  | ExtractTarget_RefreshToken =>
      Build_TokenBundle (tk_access_token t) (tk_id_token t) (Some value) (tk_authorization_code t)
  | ExtractTarget_AuthorizationCode =>
      Build_TokenBundle (tk_access_token t) (tk_id_token t) (tk_refresh_token t) (Some value)
  end.

(** The names of the inputs, in the order of the map. *)
Definition input_names (inputs : gmap string CollectedInput) : list string := (map_to_list inputs).*1.

Definition execute_action (action : FlowAction) : FM unit :=
  c ← the_session se_container;
  match action with
  | FlowAction_Fill selector input =>
      inputs ← with_runtime (runtime rt_collected_inputs);
      match inputs !! input with
      | None =>
          o_fail ("missing required input '" +:+ input +:+ "' (available inputs: " +:+ debug_strs (input_names inputs) +:+ ")")
      | Some value =>
          _ ← session_log LogLevel_Debug ("Fill '" +:+ selector +:+ "' with '" +:+ input +:+ "'");
          o_context ("bridge fill failed for selector '" +:+ selector +:+ "' and input '" +:+ input +:+ "'")
            (fl_host (bridge_fill podman c selector (cv_value value)))
      end
  | FlowAction_Click selector =>
      _ ← session_log LogLevel_Debug ("Click '" +:+ selector +:+ "'");
      o_context ("bridge click failed for selector '" +:+ selector +:+ "'") (fl_host (bridge_click podman c selector))
  | FlowAction_Wait millis =>
      _ ← session_log LogLevel_Debug ("Wait " +:+ uint_to_string millis +:+ "ms");
      fl_host (o_modify (sleep_ms millis))
  | FlowAction_Navigate url =>
      resolved ← resolve_navigation_url url;
      match resolved with
      | None => o_fail ("navigation URL '" +:+ url +:+ "' requires dag_auth_url metadata but none is available")
      | Some resolved_url =>
          _ ← session_log LogLevel_Debug ("Navigate to '" +:+ resolved_url +:+ "'");
          o_context ("bridge navigate failed for url '" +:+ resolved_url +:+ "'")
            (fl_host (bridge_navigate podman c resolved_url))
      end
  | FlowAction_Extract target source =>
      value ← o_context ("extract failed for source '" +:+ source +:+ "'") (extract_value source);
      match value with
      | Some value => with_runtime (_ ← mod_runtime (λ r, set_rt_tokens (set_token target value (rt_tokens r)) r); touch)
      | None => mret tt
      end
  | FlowAction_Log message => session_log LogLevel_Info message
  end.

Definition forget_sensitive_input_if_unreferenced (current_step_index current_action_index : nat) (input_name : string)
  : FM unit :=
  definition ← the_session se_definition;
  if bool_decide (input_name ∈ sensitive_input_names definition)
     && unreferenced_from definition current_step_index current_action_index input_name
  then
    with_runtime (
      inputs ← runtime rt_collected_inputs;
      match inputs !! input_name with
      | Some _ => _ ← mod_runtime (set_rt_inputs (delete input_name inputs)); touch
      | None => mret tt
      end)
  else mret tt.

Fixpoint execute_actions_from (current_step_index : nat) (step : ProviderStep) (idx : nat) (actions : list FlowAction)
  : FM unit :=
  match actions with
  | [] => mret tt
  | action :: actions =>
      let place := " '" +:+ ps_name step +:+ "' action " +:+ show_index (idx + 1) +:+ "/" +:+ show_index (length (ps_actions step)) in
      _ ← session_log LogLevel_Debug ("Step" +:+ place +:+ ": " +:+ summarize_action action);
      _ ← o_context ("step" +:+ place +:+ " failed (" +:+ summarize_action action +:+ ")") (execute_action action);
      _ ← (match action with
           | FlowAction_Fill _ input => forget_sensitive_input_if_unreferenced current_step_index idx input
           | _ => mret tt
           end);
      execute_actions_from current_step_index step (S idx) actions
  end.

Definition execute_step_actions (current_step_index : nat) (step : ProviderStep) : FM unit :=
  execute_actions_from current_step_index step 0 (ps_actions step).

(** *** The loop *)

Definition complete_session (detail : string) : FM FlowResponse :=
  _ ← with_runtime (
        _ ← mod_runtime (set_rt_state SessionState_Completed);
        _ ← mod_runtime (set_rt_detail (Some detail));
        _ ← touch;
        now ← fl_host (host instant_now);
        mod_runtime (set_rt_terminal (Some now)));
  _ ← session_log LogLevel_Info "Session completed";
  '(tokens, metadata) ← with_runtime (
        r ← runtime id;
        _ ← mod_runtime (set_rt_tokens token_bundle_default);
        _ ← mod_runtime (set_rt_metadata ∅);
        mret (rt_tokens r, rt_metadata r));
  session_id ← the_session se_session_id;
  mret (FlowResponse_SessionComplete session_id true tokens metadata).

Definition goto_index (i : nat) : FM unit := with_runtime (_ ← mod_runtime (set_rt_index i); touch).
Definition advance_index : FM unit :=
  with_runtime (_ ← mod_runtime (λ r, set_rt_index (S (rt_current_step_index r)) r); touch).

Definition step_name_at (definition : ProviderDefinition) (i : nat) : string :=
  match pd_steps definition !! i with Some candidate => ps_name candidate | None => "<unknown>" end.

(** Follow the branch that was found, or go on with the next step. *)
Definition follow (next_index : option nat) (branch_msg : nat → string → string) (sequential_msg : string) : FM unit :=
  match next_index with
  | Some i =>
      definition ← the_session se_definition;
      _ ← session_log LogLevel_Debug (branch_msg i (step_name_at definition i));
      goto_index i
  | None => _ ← session_log LogLevel_Debug sequential_msg; advance_index
  end.

(** The actions of a step have been tried. *)
Definition after_actions (step : ProviderStep) (r : result unit string) : FM (option FlowResponse) :=
  let name := ps_name step in
  match r with
  | Err error =>
      if ps_optional step then
        _ ← session_log LogLevel_Warn ("Optional step '" +:+ name +:+ "' failed and will be skipped: " +:+ error);
        next ← evaluate_branch step;
        _ ← follow next
              (λ i next_name, "Optional step '" +:+ name +:+ "' fallback branch: next_step_index=" +:+ show_index i
                              +:+ " next_step='" +:+ next_name +:+ "'")
              ("Optional step '" +:+ name +:+ "' has no fallback branch; advancing sequentially");
        mret None
      else o_fail error
  | Ok _ =>
      success ← step_successful step;
      if success : bool then
        response ← complete_session "Flow reported successful authentication"; mret (Some response)
      else
        next ← evaluate_branch step;
        _ ← follow next
              (λ i next_name, "Branch transition after step '" +:+ name +:+ "': next_step_index=" +:+ show_index i
                              +:+ " next_step='" +:+ next_name +:+ "'")
              ("No branch matched after step '" +:+ name +:+ "'; advancing sequentially");
        mret None
  end.

(** One step of the flow. *)
Definition run_step (current_step_index : nat) (step : ProviderStep) : FM (option FlowResponse) :=
  let name := ps_name step in
  satisfied ← optional_step_wait_condition_satisfied step;
  if satisfied : bool then
    request ← maybe_request_inputs step;
    match request with
    | Some response => mret (Some response)
    | None =>
        r ← o_attempt (o_context ("provider step '" +:+ name +:+ "' failed") (execute_step_actions current_step_index step));
        after_actions step r
    end
  else
    next ← evaluate_branch_excluding step (Some name);
    _ ← follow next
          (λ _ next_name, "Optional step '" +:+ name +:+ "' wait_for not satisfied; following fallback branch to '"
                          +:+ next_name +:+ "'")
          ("Optional step '" +:+ name +:+ "' wait_for not satisfied; advancing sequentially");
    mret None.

(** The body of the loop; [None] is [continue]. *)
Definition advance : FM (option FlowResponse) :=
  r ← with_runtime (runtime id);
  let current_step_index := rt_current_step_index r in
  definition ← the_session se_definition;
  match pd_steps definition !! current_step_index with
  | None =>
      _ ← session_log LogLevel_Debug
            ("No step at index " +:+ show_index current_step_index +:+ " (definition has "
             +:+ show_index (length (pd_steps definition)) +:+ " steps)");
      response ← complete_session "Flow reached terminal step"; mret (Some response)
  | Some step =>
      _ ← session_log LogLevel_Debug
            ("Step '" +:+ ps_name step +:+ "' context: step_index=" +:+ show_index current_step_index +:+ " collected_inputs="
             +:+ debug_strs (input_names (rt_collected_inputs r)) +:+ " required_inputs="
             +:+ debug_strs (in_name <$> ps_required_inputs step) +:+ " actions=" +:+ show_index (length (ps_actions step)));
      _ ← session_log LogLevel_Info ("Executing step '" +:+ ps_name step +:+ "'");
      run_step current_step_index step
  end.

Fixpoint advance_until_blocked_or_complete (fuel : nat) : FM FlowResponse :=
  match fuel with
  | O => λ s, (OutOfFuel, s)
  | S fuel =>
      r ← advance;
      match r with
      | Some response => mret response
      | None => advance_until_blocked_or_complete fuel
      end
  end.

Definition start_session (fuel : nat) : FM FlowResponse :=
  provider ← the_session se_provider;
  _ ← session_log LogLevel_Info ("Starting provider flow '" +:+ provider +:+ "'");
  _ ← o_context "failed to initialize browser navigation for session" initialize_session_navigation;
  advance_until_blocked_or_complete fuel.

Definition collect (sensitive_names : list string) (inputs : gmap string CollectedInput) (input : ProvidedInput)
  : gmap string CollectedInput :=
  <[pi_name input := {| cv_value := pi_value input; cv_sensitive := bool_decide (pi_name input ∈ sensitive_names) |}]> inputs.

Definition continue_session (fuel : nat) (provided_inputs : list ProvidedInput) : FM FlowResponse :=
  _ ← (match provided_inputs with
       | [] => mret tt
       | _ =>
           _ ← session_log LogLevel_Debug
                 ("Received next_step inputs for session continuation: "
                  +:+ debug_strs ((λ input, pi_name input +:+ "(len=" +:+ uint_to_string (byte_len (pi_value input)) +:+ ")")
                                    <$> provided_inputs));
           definition ← the_session se_definition;
           with_runtime (
             _ ← mod_runtime (λ r,
                   set_rt_inputs (foldl (collect (sensitive_input_names definition)) (rt_collected_inputs r) provided_inputs) r);
             _ ← mod_runtime (set_rt_state SessionState_InProgress);
             _ ← mod_runtime (set_rt_detail (Some "Continuing browser flow"));
             touch)
       end);
  advance_until_blocked_or_complete fuel.

End flow.

Arguments Flow W : clear implicits.
