(* ===== verification/OrchServer.v ===== *)
(** * The browser orchestrator: containers in stock, the sessions and their clients

    [ContainerPool] ([src/orchestrator/src/container_pool.rs]), [SessionManager]
    ([session.rs]), [FlowCodec] and [CommunicationServer] ([communication.rs]), and the
    helpers of [main.rs]. *)
From stdpp Require Import base gmap strings list fin_maps.
From Stdlib Require Import ZArith Lia Ascii.
From S2P Require Import Prelude Config Pam OrchTypes OrchPodman OrchFlow.

Open Scope rust_scope.

(** ** The container in stock

    Each function is what a method does while it holds the lock of the pool. *)

Record ContainerPoolState := {
  cp_spare : option ContainerInstance; cp_replenish_in_progress : bool; cp_next_warm_id : Z; cp_shutting_down : bool
}.

Definition pool_new : ContainerPoolState := Build_ContainerPoolState None false 0 false.

Definition take_spare (p : ContainerPoolState) : option ContainerInstance * ContainerPoolState :=
  (cp_spare p, Build_ContainerPoolState None (cp_replenish_in_progress p) (cp_next_warm_id p) (cp_shutting_down p)).

(** The spare is taken only if it is still the one that failed the check. *)
Definition take_stale (container : ContainerInstance) (p : ContainerPoolState)
  : option ContainerInstance * ContainerPoolState :=
  match cp_spare p with
  | Some spare => if String.eqb (ci_id spare) (ci_id container) then take_spare p else (None, p)
  | None => (None, p)
  end.

(** Whether a replenishment begins, and the number of its container. *)
Definition begin_replenish (p : ContainerPoolState) : option Z * ContainerPoolState :=
  if cp_shutting_down p || (match cp_spare p with Some _ => true | None => false end) || cp_replenish_in_progress p
  then (None, p)
  else
    let id := Z.min u64_max (cp_next_warm_id p + 1) in
    (Some id, Build_ContainerPoolState (cp_spare p) true id (cp_shutting_down p)).

(** A replenishment ends; the container is handed back if it is not wanted. *)
Definition end_replenish (r : option ContainerInstance) (p : ContainerPoolState)
  : option ContainerInstance * ContainerPoolState :=
  let p := Build_ContainerPoolState (cp_spare p) false (cp_next_warm_id p) (cp_shutting_down p) in
  match r with
  | None => (None, p)
  | Some container =>
      if cp_shutting_down p || (match cp_spare p with Some _ => true | None => false end) then (Some container, p)
      else (None, Build_ContainerPoolState (Some container) false (cp_next_warm_id p) (cp_shutting_down p))
  end.

Definition begin_shutdown (p : ContainerPoolState) : option ContainerInstance * ContainerPoolState :=
  (cp_spare p, Build_ContainerPoolState None (cp_replenish_in_progress p) (cp_next_warm_id p) true).

Definition warm_session_id (pid id : Z) : string := "warm-" +:+ uint_to_string pid +:+ "-" +:+ uint_to_string id.

(** [main.rs] *)
Definition warm_spare_keepalive_interval (idle_timeout_secs cleanup_interval_secs : Z) : Z :=
  let idle_half := Z.max (Z.max idle_timeout_secs 2 / 2) 1 in
  let cleanup := Z.max cleanup_interval_secs 1 in
  Z.min idle_half cleanup.

Definition parse_bool_flag (raw name : string) : result bool string :=
  let normalized := to_lowercase (trim raw) in
  if bool_decide (normalized ∈ ["1"; "true"; "yes"; "on"]) then Ok true
  else if bool_decide (normalized ∈ ["0"; "false"; "no"; "off"]) then Ok false
  else Err ("invalid boolean for " +:+ name +:+ ": '" +:+ raw +:+ "'; expected one of true/false/1/0/yes/no/on/off").

(** ** The process *)

(** What serde_json makes of a buffer: a command, too little, or no command. *)
Inductive Parsed := Parsed_Command (c : FlowCommand) | Parsed_Eof | Parsed_Invalid (err : string).

Class FlowCodecOps : Type := { command_from_slice : list Byte.byte → Parsed }.

Definition MAX_FLOW_FRAME_BYTES : Z := 384 * 1024.

Section server.
Context {W : Type} {OE : OrchEnv W} {DO : DefinitionOps} {I : IniFile} {FC : FlowCodecOps}.
Variable podman : PodmanClient.

Definition ensure_container_image (build_dir : string) : OrcM W unit :=
  r ← o_context "failed checking orchestrator container image" (image_exists podman);
  if r : bool then mret tt
  else o_context "failed building orchestrator container image" (build_image_from_dir podman build_dir).

(** [or_spawned] are the replenishments that have been started and not yet run. *)
Record Orch := {
  or_sessions : gmap string Session; or_pool : ContainerPoolState; or_spawned : list string; or_world : W
}.

Notation SM := (OrcM Orch).

Definition or_host {A} (m : OrcM W A) : SM A :=
  o_zoom or_world (λ w s, Build_Orch (or_sessions s) (or_pool s) (or_spawned s) w) m.
Definition or_pool_do {A} (f : ContainerPoolState → A * ContainerPoolState) : SM A := λ s,
  let '(a, p) := f (or_pool s) in (Done a, Build_Orch (or_sessions s) p (or_spawned s) (or_world s)).
Definition or_put_sessions (f : gmap string Session → gmap string Session) : SM unit :=
  o_modify (λ s, Build_Orch (f (or_sessions s)) (or_pool s) (or_spawned s) (or_world s)).

(** A call on a session the caller has a reference to, with what it leaves. *)
Definition on_session {A} (m : OrcM (Flow W) A) (session : Session) : OrcM Orch (A * Session) := λ s,
  let '(r, f) := m {| fl_session := session; fl_world := or_world s |} in
  let s := Build_Orch (or_sessions s) (or_pool s) (or_spawned s) (fl_world f) in
  match r with
  | Done a => (Done (a, fl_session f), s)
  | Failed e => (Failed e, s)
  | Hung => (Hung, s)
  | OutOfFuel => (OutOfFuel, s)
  end.

(** A call on the session of the table: the reference is shared, so whatever the call does
    to it stays, also when it fails or never ends. *)
Definition in_table {A} (session_id : string) (session : Session) (m : OrcM (Flow W) A) : SM A := λ s,
  let '(r, f) := m {| fl_session := session; fl_world := or_world s |} in
  (r, Build_Orch (<[session_id := fl_session f]> (or_sessions s)) (or_pool s) (or_spawned s) (fl_world f)).

(** *** [ContainerPool] *)

Definition ensure_spare : SM unit :=
  id ← or_pool_do begin_replenish;
  match id with
  | None => mret tt
  | Some id =>
      o_modify (λ s, Build_Orch (or_sessions s) (or_pool s) (or_spawned s ++ [warm_session_id process_id id]) (or_world s))
  end.

(** Remove a container; a failure is only logged. *)
Definition discard (container : ContainerInstance) : SM unit :=
  _ ← o_attempt (or_host (destroy_session_container podman container)); mret tt.

Definition acquire_container (session_id : string) : SM ContainerInstance :=
  spare ← or_pool_do take_spare;
  let create :=
    _ ← ensure_spare;
    r ← o_attempt (or_host (create_session_container podman session_id));
    match r with
    | Ok container => mret container
    | Err error => o_fail ("failed to create session container for '" +:+ session_id +:+ "': " +:+ error)
    end in
  match spare with
  | Some container =>
      r ← o_attempt (or_host (ping_container container));
      match r with
      | Ok _ => _ ← ensure_spare; mret container
      | Err _ => _ ← discard container; create
      end
  | None => create
  end.

Definition check_or_replenish_spare : SM unit :=
  spare ← o_get (λ s, cp_spare (or_pool s));
  match spare with
  | None => ensure_spare
  | Some container =>
      r ← o_attempt (or_host (ping_container container));
      match r with
      | Ok _ => mret tt
      | Err _ =>
          stale ← or_pool_do (take_stale container);
          _ ← (match stale with Some stale => discard stale | None => mret tt end);
          ensure_spare
      end
  end.

(** The task that was spawned. *)
Definition replenish_spare (warm_session_id : string) : SM unit :=
  r ← o_attempt (or_host (create_session_container podman warm_session_id));
  unwanted ← or_pool_do (end_replenish (result_ok r));
  match unwanted with Some container => discard container | None => mret tt end.

(** *** [SessionManager] *)

Definition insert_some {A} (k : string) (o : option string) (f : string → A) (m : gmap string A) : gmap string A :=
  match o with Some v => <[k := f v]> m | None => m end.

(** The runtime of a new session. *)
Definition initial_runtime (now : Z) (username issuer_url dag_auth_url dag_user_code : option string) : SessionRuntime :=
  set_rt_metadata
    (insert_some "dag_user_code" dag_user_code id
       (insert_some "dag_auth_url" dag_auth_url id (insert_some "issuer_url" issuer_url id ∅)))
    (set_rt_inputs
       (insert_some "dag_user_code" dag_user_code (λ v, {| cv_value := v; cv_sensitive := true |})
          (insert_some "username" username (λ v, {| cv_value := v; cv_sensitive := false |}) ∅))
       (runtime_default now)).

Definition already_exists (session_id : string) : string := "session '" +:+ session_id +:+ "' already exists".

Definition create_session (session_id provider : string) (owner_uid : Z)
  (username issuer_url dag_auth_url dag_user_code : option string) (definition : ProviderDefinition) : SM Session :=
  known ← o_get (λ s, bool_decide (is_Some (or_sessions s !! session_id)));
  if known : bool then o_fail (already_exists session_id)
  else
    container ← acquire_container session_id;
    now ← or_host (host instant_now);
    let session := {|
      se_session_id := session_id; se_provider := provider; se_owner_uid := owner_uid; se_container := container;
      se_definition := definition; se_runtime := initial_runtime now username issuer_url dag_auth_url dag_user_code;
      se_locked := false |} in
    known ← o_get (λ s, bool_decide (is_Some (or_sessions s !! session_id)));
    if known : bool then _ ← discard container; o_fail (already_exists session_id)
    else
      _ ← or_put_sessions (<[session_id := session]>);
      _ ← in_table session_id session
            (session_log LogLevel_Info ("Session created with container '" +:+ ci_name container +:+ "'"));
      o_get (λ s, default session (or_sessions s !! session_id)).

Definition get_session (session_id : string) : SM (option Session) := o_get (λ s, or_sessions s !! session_id).

(** The runtime of a session that is taken away. *)
Definition mark_cancelled (detail log : string) : OrcM (Flow W) unit :=
  _ ← with_runtime (
        _ ← mod_runtime (set_rt_state SessionState_Cancelled);
        _ ← mod_runtime (set_rt_detail (Some detail));
        _ ← touch;
        now ← fl_host (host instant_now);
        mod_runtime (set_rt_terminal (Some now)));
  session_log LogLevel_Info log.

Definition cancel_session (session_id : string) : SM bool :=
  session ← get_session session_id;
  match session with
  | None => mret false
  | Some session =>
      _ ← or_put_sessions (delete session_id);
      _ ← on_session (mark_cancelled "Session cancelled by request" "Cancelling session") session;
      _ ← or_host (destroy_session_container podman (se_container session));
      mret true
  end.

(** The ids of the sessions of [l] that are stale at [now]. *)
Fixpoint stale_ids (idle_timeout terminal_retention now : Z) (l : list Session) : SM (list string) :=
  match l with
  | [] => mret []
  | session :: l =>
      '(stale, _) ← on_session (is_stale idle_timeout terminal_retention now) session;
      rest ← stale_ids idle_timeout terminal_retention now l;
      mret (if stale : bool then se_session_id session :: rest else rest)
  end.

Fixpoint remove_sessions (ids : list string) : SM Z :=
  match ids with
  | [] => mret 0
  | session_id :: ids =>
      session ← get_session session_id;
      n ← (match session with
           | Some session => _ ← or_put_sessions (delete session_id); _ ← discard (se_container session); mret 1
           | None => mret 0
           end);
      rest ← remove_sessions ids;
      mret (n + rest)
  end.

Definition cleanup_stale_sessions (idle_timeout terminal_retention : Z) : SM Z :=
  sessions ← o_get (λ s, (map_to_list (or_sessions s)).*2);
  now ← or_host (host instant_now);
  ids ← stale_ids idle_timeout terminal_retention now sessions;
  remove_sessions ids.

Fixpoint shut_down (l : list Session) : SM Z :=
  match l with
  | [] => mret 0
  | session :: l =>
      _ ← on_session (mark_cancelled "Session cancelled by orchestrator shutdown"
                        "Cancelling session during orchestrator shutdown") session;
      r ← o_attempt (or_host (destroy_session_container podman (se_container session)));
      rest ← shut_down l;
      mret (match r with Ok _ => 1 + rest | Err _ => rest end)
  end.

Definition shutdown_sessions : SM Z :=
  sessions ← o_get (λ s, (map_to_list (or_sessions s)).*2);
  _ ← or_put_sessions (λ _, ∅);
  shut_down sessions.

(** *** [CommunicationServer] *)

Variables (registry : Registry) (cfg : HimmelblauConfig) (fuel : nat).

Definition handle_start_session (session_id : string) (provider : option string) (owner_uid : Z)
  (username issuer_url dag_auth_url dag_user_code : option string) : SM FlowResponse :=
  let provider_name := detect_provider registry cfg provider username issuer_url in
  match registry !! provider_name with
  | None => o_fail ("unknown provider '" +:+ provider_name +:+ "'")
  | Some definition =>
      session ← create_session session_id provider_name owner_uid username issuer_url dag_auth_url dag_user_code definition;
      in_table session_id session (start_session podman fuel)
  end.

Definition not_owned (session_id : string) (peer_uid : Z) : string :=
  "session '" +:+ session_id +:+ "' is not owned by caller uid " +:+ uint_to_string peer_uid.

Definition handle_next_step (session_id : string) (provided_inputs : list ProvidedInput) (peer_uid : Z) : SM FlowResponse :=
  session ← get_session session_id;
  match session with
  | None => o_fail ("unknown session '" +:+ session_id +:+ "'")
  | Some session =>
      if owned_by session peer_uid then in_table session_id session (continue_session podman fuel provided_inputs)
      else o_fail (not_owned session_id peer_uid)
  end.

Definition handle_cancel_session (session_id : string) (peer_uid : Z) : SM FlowResponse :=
  session ← get_session session_id;
  _ ← (match session with
       | Some session => if owned_by session peer_uid then mret tt else o_fail (not_owned session_id peer_uid)
       | None => mret tt
       end);
  cancelled ← cancel_session session_id;
  mret (if cancelled : bool then FlowResponse_Ack (Some session_id) "session cancelled"
        else FlowResponse_SessionError session_id "session not found").

Definition handle_get_status (session_id : string) (peer_uid : Z) : SM FlowResponse :=
  session ← get_session session_id;
  match session with
  | None => mret (FlowResponse_SessionError session_id "session not found")
  | Some session =>
      if owned_by session peer_uid then in_table session_id session status_response
      else o_fail (not_owned session_id peer_uid)
  end.

Definition process_command (command : FlowCommand) (peer_uid : Z) : SM FlowResponse :=
  match validate_command command with
  | Err reason => o_fail ("invalid flow command: " +:+ reason)
  | Ok _ =>
      match command with
      | FlowCommand_StartSession session_id provider username issuer_url dag_auth_url dag_user_code =>
          handle_start_session session_id provider peer_uid username issuer_url dag_auth_url dag_user_code
      | FlowCommand_NextStep session_id provided_inputs => handle_next_step session_id provided_inputs peer_uid
      | FlowCommand_CancelSession session_id => handle_cancel_session session_id peer_uid
      | FlowCommand_GetSessionStatus session_id => handle_get_status session_id peer_uid
      | FlowCommand_Ping => mret (FlowResponse_Pong ORCHESTRATOR_PROTOCOL_VERSION)
      end
  end.

(** [FlowCodec::decode]: a command, more bytes needed, or an error; the buffer that is left. *)
Definition flow_decode (src : list Byte.byte) : result (option FlowCommand) string * list Byte.byte :=
  let n := Z.of_nat (length src) in
  if MAX_FLOW_FRAME_BYTES <? n then
    (Err ("flow command exceeds " +:+ uint_to_string MAX_FLOW_FRAME_BYTES +:+ " bytes (got " +:+ uint_to_string n +:+ ")"), [])
  else
    match command_from_slice src with
    | Parsed_Command c => (Ok (Some c), [])
    | Parsed_Eof => (Ok None, src)
    | Parsed_Invalid err => (Err ("failed to decode flow command: " +:+ err), [])
    end.

(** [Framed::next]: [None] when the client closes without having sent anything more. *)
Fixpoint flow_next (chunks : list (list Byte.byte)) (buf : list Byte.byte) : option (result FlowCommand string) :=
  match chunks with
  | [] => match buf with [] => None | _ => Some (Err "bytes remaining on stream") end
  | chunk :: chunks =>
      match flow_decode (buf ++ chunk) with
      | (Ok (Some command), _) => Some (Ok command)
      | (Ok None, buf) => flow_next chunks buf
      | (Err e, _) => Some (Err e)
      end
  end.

(** [handle_client]: one command and the response sent for it, if any; [peer] is what the
    kernel says of the client. *)
Definition handle_client (peer : option Z) (authorized_uid : Z) (chunks : list (list Byte.byte)) : SM (option FlowResponse) :=
  match peer with
  | None => o_fail "failed to read peer credentials for orchestrator socket"
  | Some peer_uid =>
      if peer_uid =? authorized_uid then
        match flow_next chunks [] with
        | None => mret None
        | Some (Err _) => o_fail "failed to decode flow command"
        | Some (Ok request) =>
            response ← o_attempt (process_command request peer_uid);
            mret (Some (match response with Ok response => response | Err error => FlowResponse_Error error end))
        end
      else
        o_fail ("unauthorized orchestrator socket peer uid " +:+ uint_to_string peer_uid +:+ "; expected uid "
                +:+ uint_to_string authorized_uid)
  end.

End server.

Arguments Orch W : clear implicits.
