(* ===== verification/OrchFacts.v ===== *)
(** * Reasoning about the orchestrator

    What a call on a session leaves alone. [plain R m]: [m] comes to an end whether or not
    the runtime is locked, leaves the lock as it is and relates the states by [R];
    [settles R m]: so it does from a session that is not locked. [hangs_locked m]: if [m]
    waits for ever, the session stays locked. *)
From stdpp Require Import base gmap strings list fin_maps.
From Stdlib Require Import ZArith Lia Ascii.
From S2P Require Import Prelude Config Pam OrchTypes OrchPodman OrchFlow.

Open Scope rust_scope.

Section facts.
Context {W : Type} {OE : OrchEnv W}.
Notation FM := (OrcM (Flow W)).

(** ** Relations on the runtime *)

(** All of a session but its lock. *)
Definition core (s : Flow W) : Session := set_se_locked false (fl_session s).
Definition locked (s : Flow W) : bool := se_locked (fl_session s).

Implicit Types R : relation Session.

Definition ends {A} (r : Out A) : bool := match r with Done _ | Failed _ => true | _ => false end.

(** An operation of the host ends. *)
Definition answers_ {A} (m : OrcM W A) : Prop := ∀ w, ends (m w).1 = true.

Definition plain R {A} (m : FM A) : Prop :=
  ∀ s, ends (m s).1 = true ∧ locked (m s).2 = locked s ∧ R (core s) (core (m s).2).

Definition settles R {A} (m : FM A) : Prop :=
  ∀ s, locked s = false → ends (m s).1 = true ∧ locked (m s).2 = false ∧ R (core s) (core (m s).2).

Definition hangs_locked {A} (m : FM A) : Prop := ∀ s s', m s = (Hung, s') → locked s' = true.

Lemma plain_settles R {A} (m : FM A) : plain R m → settles R m.
Proof. intros H s Hs. destruct (H s) as (He & Hl & HR). by rewrite Hl. Qed.

Lemma plain_hangs R {A} (m : FM A) : plain R m → hangs_locked m.
Proof. intros H s s' Hm. destruct (H s) as (He & _). by rewrite Hm in He. Qed.

Section rules.
Context (R : relation Session) `{!PreOrder R}.

Lemma plain_ret {A} (a : A) : plain R (mret a).
Proof. by intros s. Qed.
Lemma plain_fail {A} e : plain R (o_fail (A := A) e).
Proof. by intros s. Qed.
Lemma plain_get {A} (f : Flow W → A) : plain R (o_get f).
Proof. by intros s. Qed.

Lemma plain_bind {A B} (m : FM A) (k : A → FM B) : plain R m → (∀ a, plain R (k a)) → plain R (m ≫= k).
Proof.
  intros Hm Hk s. unfold mbind, OrcM_bind. destruct (Hm s) as (He & Hl & HR).
  destruct (m s) as [[a|e| |] s1]; [|done..]. destruct (Hk a s1) as (He1 & Hl1 & HR1). simpl in *.
  split_and!; [done|congruence|by etrans].
Qed.

Lemma settles_bind {A B} (m : FM A) (k : A → FM B) : settles R m → (∀ a, settles R (k a)) → settles R (m ≫= k).
Proof.
  intros Hm Hk s Hs. unfold mbind, OrcM_bind. destruct (Hm s Hs) as (He & Hl & HR).
  destruct (m s) as [[a|e| |] s1]; [|done..]. destruct (Hk a s1 Hl) as (He1 & Hl1 & HR1). simpl in *.
  split_and!; [done..|by etrans].
Qed.

Lemma settles_ret {A} (a : A) : settles R (mret a).
Proof. apply plain_settles, plain_ret. Qed.
Lemma settles_fail {A} e : settles R (o_fail (A := A) e).
Proof. apply plain_settles, plain_fail. Qed.
Lemma settles_get {A} (f : Flow W → A) : settles R (o_get f).
Proof. apply plain_settles, plain_get. Qed.

Lemma settles_attempt {A} (m : FM A) : settles R m → settles R (o_attempt m).
Proof. intros Hm s Hs. unfold o_attempt. destruct (Hm s Hs) as (He & Hl & HR). by destruct (m s) as [[a|e| |] s1]. Qed.
Lemma settles_context {A} msg (m : FM A) : settles R m → settles R (o_context msg m).
Proof. intros Hm s Hs. unfold o_context. destruct (Hm s Hs) as (He & Hl & HR). by destruct (m s) as [[a|e| |] s1]. Qed.

Lemma settles_with_runtime {A} (m : FM A) : plain R m → settles R (with_runtime m).
Proof.
  intros Hm s Hs. unfold with_runtime. unfold locked in Hs. rewrite Hs.
  destruct (Hm (fl_locked true s)) as (He & _ & HR).
  assert (∀ b t, core (fl_locked b t) = core t) as Hcore by (intros b []; done).
  destruct (m (fl_locked true s)) as [[a|e| |] s1]; try done; simpl in *; rewrite Hcore in *; done.
Qed.

(** The host does not touch the session. *)
Lemma plain_host {A} (m : OrcM W A) : answers_ m → plain R (fl_host m).
Proof.
  intros Hm s. unfold fl_host, o_zoom. specialize (Hm (fl_world s)). destruct (m (fl_world s)) as [r w].
  by split_and!.
Qed.

Lemma plain_mod (f : SessionRuntime → SessionRuntime) :
  (∀ s : Session, R s (set_se_runtime (f (se_runtime s)) s)) → plain R (mod_runtime f).
Proof. intros Hf s. split_and!; [done..|]. unfold core. simpl. apply (Hf (set_se_locked false (fl_session s))). Qed.

End rules.

Lemma settles_weaken R R' {A} (m : FM A) : (∀ s s', R s s' → R' s s') → settles R m → settles R' m.
Proof. intros H Hm s Hs. destruct (Hm s Hs) as (? & ? & ?). split_and!; auto. Qed.

(** ** The host always answers *)

Lemma answering_bind {A B} (m : OrcM W A) (k : A → OrcM W B) : answers_ m → (∀ a, answers_ (k a)) → answers_ (m ≫= k).
Proof. intros Hm Hk w. unfold mbind, OrcM_bind. specialize (Hm w). destruct (m w) as [[a|e| |] w1]; try done. apply Hk. Qed.
Lemma answering_ret {A} (a : A) : answers_ (mret a).
Proof. by intros w. Qed.
Lemma answers_fail {A} e : answers_ (o_fail (A := A) e).
Proof. by intros w. Qed.
Lemma answers_host {A} (f : W → A * W) : answers_ (host f).
Proof. intros w. unfold host. by destruct (f w). Qed.
Lemma answers_modify (f : W → W) : answers_ (o_modify f).
Proof. by intros w. Qed.

Lemma send_answers c req t op : answers_ (send_bridge_request c req t op).
Proof.
  unfold send_bridge_request. destruct (bridge_to_vec req); [|apply answers_fail].
  apply answering_bind; [apply answers_host|]. intros [| | | | |[|b0 l0]]; try apply answers_fail.
  destruct (bridge_from_slice _) as [r|]; [|apply answers_fail]. destruct (bp_ok r); [apply answering_ret|apply answers_fail].
Qed.

Context (podman : PodmanClient).

Lemma action_answers c a op : answers_ (bridge_action podman c a op).
Proof. apply answering_bind; [apply send_answers|]. intros _. apply answering_ret. Qed.

Lemma capture_answers c source : answers_ (capture_artifact podman c source).
Proof. apply answering_bind; [apply send_answers|]. intros r. apply answering_ret. Qed.

Lemma check_answers c success : answers_ (check_success_condition podman c success).
Proof. apply answering_bind; [apply send_answers|]. intros r. destruct (bp_success r); [apply answering_ret|apply answers_fail]. Qed.

Lemma answers_attempt {A} (m : OrcM W A) : answers_ m → answers_ (o_attempt m).
Proof. intros Hm w. unfold o_attempt. specialize (Hm w). by destruct (m w) as [[a|e| |] w1]. Qed.

Lemma remove_answers op msg : answers_ (fs_remove op msg).
Proof. apply answering_bind; [apply answers_host|]. intros []; [apply answering_ret..|apply answers_fail]. Qed.

Lemma destroy_answers c : answers_ (destroy_session_container podman c).
Proof.
  apply answering_bind; [apply answers_host|]. intros r. apply answering_bind.
  - apply answers_attempt, answering_bind; [apply remove_answers|]. intros u. apply remove_answers.
  - intros x. destruct (match r with Ok _ => _ | Err _ => _ end), x; [apply answers_fail..|apply answering_ret|apply answers_fail].
Qed.

(** ** What the executor leaves alone *)

Definition log_ok (l : list SessionLogEntry) : Prop :=
  (length l ≤ MAX_SESSION_LOG_ENTRIES)%nat ∧ Forall (λ e, byte_len (le_message e) ≤ MAX_SESSION_LOG_MESSAGE_BYTES) l.

Definition same_session (s s' : Session) : Prop :=
  se_session_id s' = se_session_id s ∧ se_provider s' = se_provider s ∧ se_owner_uid s' = se_owner_uid s ∧
  se_container s' = se_container s ∧ se_definition s' = se_definition s.

(** The session stays who it is, its log within bounds, and nothing is added to its inputs. *)
Definition calm (s s' : Session) : Prop :=
  same_session s s' ∧ (log_ok (rt_logs (se_runtime s)) → log_ok (rt_logs (se_runtime s'))) ∧
  rt_collected_inputs (se_runtime s') ⊆ rt_collected_inputs (se_runtime s).

(** And the current step stays. *)
Definition quiet (s s' : Session) : Prop :=
  calm s s' ∧ rt_current_step_index (se_runtime s') = rt_current_step_index (se_runtime s).

#[export] Instance calm_preorder : PreOrder calm.
Proof.
  split; [by intros s|]. intros s1 s2 s3 ((? & ? & ? & ? & ?) & Hl1 & Hi1) ((? & ? & ? & ? & ?) & Hl2 & Hi2).
  split_and!; [split_and!; congruence|auto|by etrans].
Qed.

#[export] Instance quiet_preorder : PreOrder quiet.
Proof. split; [by intros s|]. intros s1 s2 s3 [Hc1 ?] [Hc2 ?]. split; [by etrans|congruence]. Qed.

Lemma quiet_calm s s' : quiet s s' → calm s s'.
Proof. by intros []. Qed.

Lemma plain_touch : plain quiet touch.
Proof.
  unfold touch. apply plain_bind; [apply _|apply plain_host, answers_host; apply _|]. intros now.
  by apply plain_mod.
Qed.

Lemma take_chars_len used l :
  byte_len (take_chars used l) + used + byte_len TRUNCATED_LOG_SUFFIX
    ≤ Z.max MAX_SESSION_LOG_MESSAGE_BYTES (used + byte_len TRUNCATED_LOG_SUFFIX).
Proof.
  revert used. induction l as [|ch l IH]; intros used; [change (byte_len (take_chars used [])) with 0; lia|].
  cbn [take_chars].
  destruct (Z.ltb_spec MAX_SESSION_LOG_MESSAGE_BYTES (used + byte_len ch + byte_len TRUNCATED_LOG_SUFFIX)) as [?|Hle].
  - change (byte_len "") with 0. lia.
  - rewrite byte_len_append. specialize (IH (used + byte_len ch)). lia.
Qed.

Lemma truncate_len message : byte_len (truncate_log_message message) ≤ MAX_SESSION_LOG_MESSAGE_BYTES.
Proof.
  unfold truncate_log_message. destruct (Z.leb_spec (byte_len message) MAX_SESSION_LOG_MESSAGE_BYTES) as [?|_]; [done|].
  rewrite byte_len_append. pose proof (take_chars_len 0 (utf8_chars message)) as H.
  change (byte_len TRUNCATED_LOG_SUFFIX) with 14 in *. unfold MAX_SESSION_LOG_MESSAGE_BYTES in *. lia.
Qed.

Lemma push_log_ok e r :
  byte_len (le_message e) ≤ MAX_SESSION_LOG_MESSAGE_BYTES → log_ok (rt_logs r) → log_ok (rt_logs (push_log e r)).
Proof.
  intros He [Hn Hf]. unfold push_log. simpl. destruct (Nat.eqb_spec (length (rt_logs r)) MAX_SESSION_LOG_ENTRIES) as [Hl|Hl].
  - destruct (rt_logs r) as [|x l]; [done|]. simpl in *. split; [rewrite length_app; simpl; lia|].
    inversion Hf; subst. apply Forall_app. by split; [|constructor].
  - split; [rewrite length_app; simpl; lia|]. apply Forall_app. by split; [|constructor].
Qed.

Lemma settles_log level message : settles quiet (session_log level message).
Proof.
  apply settles_with_runtime. apply plain_bind; [apply _|apply plain_touch|]. intros _.
  apply plain_bind; [apply _|apply plain_host, answers_host; apply _|]. intros t. apply plain_mod. intros s.
  split; [|done]. split; [by split_and!|]. split; [|done]. intros Hok. by apply push_log_ok; [apply truncate_len|].
Qed.

End facts.

Create HintDb settled.
#[export] Hint Resolve settles_log plain_touch answers_host answers_modify action_answers capture_answers check_answers : settled.
#[export] Hint Extern 1 (answers_ (bridge_fill _ _ _ _)) => apply action_answers : settled.
#[export] Hint Extern 1 (answers_ (bridge_click _ _ _)) => apply action_answers : settled.
#[export] Hint Extern 1 (answers_ (bridge_navigate _ _ _)) => apply action_answers : settled.

(** Walk over a computation. *)
Ltac plainly :=
  intros;
  lazymatch goal with
  | |- plain _ (mbind _ _) => apply plain_bind; [apply _|plainly|intros; plainly]
  | |- plain _ (mret _) => apply plain_ret; apply _
  | |- plain _ (o_fail _) => apply plain_fail; apply _
  | |- plain _ (o_get _) => apply plain_get; apply _
  | |- plain _ (runtime _) => apply plain_get; apply _
  | |- plain _ (the_session _) => apply plain_get; apply _
  | |- plain _ (fl_host _) => apply plain_host; [apply _|auto with settled]
  | |- plain _ (match ?x with _ => _ end) => destruct x; plainly
  | |- _ => auto with settled
  end.

Ltac settle :=
  intros;
  lazymatch goal with
  | |- settles _ (mbind _ _) => apply settles_bind; [apply _|settle|intros; settle]
  | |- settles _ (mret _) => apply settles_ret; apply _
  | |- settles _ (o_fail _) => apply settles_fail; apply _
  | |- settles _ (o_get _) => apply settles_get; apply _
  | |- settles _ (the_session _) => apply settles_get; apply _
  | |- settles _ (fl_host _) => apply plain_settles, plain_host; [apply _|auto with settled]
  | |- settles _ (o_context _ _) => apply settles_context; settle
  | |- settles _ (o_attempt _) => apply settles_attempt; settle
  | |- settles _ (with_runtime _) => apply settles_with_runtime; plainly
  | |- settles _ (match ?x with _ => _ end) => destruct x; settle
  | |- _ => auto with settled
  end.

Section executor.
Context {W : Type} {OE : OrchEnv W}.
Context (podman : PodmanClient).
Notation FM := (OrcM (Flow W)).

(** A change of the runtime that is quiet. *)
Lemma plain_mod_quiet (f : SessionRuntime → SessionRuntime) :
  (∀ r, rt_logs (f r) = rt_logs r ∧ rt_collected_inputs (f r) ⊆ rt_collected_inputs r ∧
        rt_current_step_index (f r) = rt_current_step_index r) →
  plain quiet (W := W) (mod_runtime f).
Proof.
  intros Hf. apply plain_mod. intros s. destruct (Hf (se_runtime s)) as (Hl & Hi & Hx).
  split; [|done]. split; [by split_and!|]. simpl. by rewrite Hl.
Qed.

Lemma extract_settles source : settles quiet (W := W) (extract_value podman source).
Proof. unfold extract_value. settle. Qed.

Lemma resolve_settles url : settles quiet (W := W) (resolve_navigation_url url).
Proof. unfold resolve_navigation_url. settle. Qed.

#[local] Hint Resolve extract_settles resolve_settles : settled.
#[local] Hint Extern 5 (plain quiet (mod_runtime _)) => (apply plain_mod_quiet; intros ?; by split_and!) : settled.

Lemma navigation_settles : settles quiet (W := W) (initialize_session_navigation podman).
Proof. unfold initialize_session_navigation. settle. Qed.

Lemma wait_settles step : settles quiet (W := W) (optional_step_wait_condition_satisfied podman step).
Proof. unfold optional_step_wait_condition_satisfied, wait_condition_satisfied. settle. Qed.

Lemma branch_settles step excluded : settles quiet (W := W) (evaluate_branch_excluding step excluded).
Proof. unfold evaluate_branch_excluding. settle. Qed.

Lemma prompt_settles prompt : settles quiet (W := W) (resolve_required_input_prompt podman prompt).
Proof. unfold resolve_required_input_prompt. settle. Qed.

Lemma inputs_settles l : settles quiet (W := W) (response_inputs podman l).
Proof. induction l as [|i l IH]; simpl; settle. apply prompt_settles. Qed.

#[local] Hint Resolve wait_settles branch_settles inputs_settles : settled.

Lemma request_settles step : settles quiet (W := W) (maybe_request_inputs podman step).
Proof. unfold maybe_request_inputs. settle. Qed.

Lemma action_settles action : settles quiet (W := W) (execute_action podman action).
Proof. unfold execute_action. settle. Qed.

Lemma forget_settles i j name : settles quiet (W := W) (forget_sensitive_input_if_unreferenced i j name).
Proof.
  unfold forget_sensitive_input_if_unreferenced. apply settles_bind; [apply _|settle|]. intros d.
  destruct (_ && _); [|settle]. apply settles_with_runtime. intros s. unfold runtime, mbind, OrcM_bind, o_get.
  destruct (rt_collected_inputs _ !! name); [|by split_and!].
  assert (plain quiet (_ ← mod_runtime (W := W) (λ r, set_rt_inputs (delete name (rt_collected_inputs r)) r); touch)) as H.
  { apply plain_bind; [apply _| |auto with settled]. apply plain_mod_quiet. intros r. split_and!; [done|apply delete_subseteq|done]. }
  apply (H s).
Qed.

Lemma complete_settles detail : settles quiet (W := W) (complete_session detail).
Proof. unfold complete_session. settle. Qed.

#[local] Hint Resolve request_settles action_settles forget_settles complete_settles navigation_settles : settled.

Lemma actions_settles i step idx actions : settles quiet (W := W) (execute_actions_from podman i step idx actions).
Proof. revert idx. induction actions as [|a l IH]; intros idx; simpl; settle. Qed.

(** No success condition on a token. *)
Definition tokenless_step (step : ProviderStep) : bool :=
  match ps_success step with
  | Some sc => match sc_token_key sc with Some _ => false | None => true end
  | None => true
  end.

Lemma success_settles step : tokenless_step step = true → settles quiet (W := W) (step_successful podman step).
Proof.
  unfold tokenless_step, step_successful. destruct (ps_success step) as [sc|]; [|settle].
  destruct (sc_token_key sc); [done|]. intros _. apply settles_bind; [apply _|settle|]. intros []; [settle|].
  unfold page_successful. settle.
Qed.

(** ** Walking over a computation that moves on *)

Lemma settles_then R {A B} (m : FM A) (k : A → FM B) (P : Out B * Flow W → Prop) s :
  settles R m → locked s = false →
  (∀ a s1, m s = (Done a, s1) → locked s1 = false → R (core s) (core s1) → P (k a s1)) →
  (∀ e s1, locked s1 = false → R (core s) (core s1) → P (Failed e, s1)) → P ((m ≫= k) s).
Proof.
  intros Hm Hs Hk He. destruct (Hm s Hs) as (H1 & H2 & H3). unfold mbind, OrcM_bind.
  destruct (m s) as [[a|e| |] s1] eqn:E; try done; simpl in *; [by apply Hk|by apply He].
Qed.

Definition index (s : Flow W) : nat := rt_current_step_index (se_runtime (core s)).
Definition definition (s : Flow W) : ProviderDefinition := se_definition (core s).

Lemma quiet_index (s s' : Flow W) : quiet (core s) (core s') → index s' = index s.
Proof. by intros [_ H]. Qed.
Lemma calm_definition (s s' : Flow W) : calm (core s) (core s') → definition s' = definition s.
Proof. by intros [(_ & _ & _ & _ & H) _]. Qed.
Lemma quiet_definition (s s' : Flow W) : quiet (core s) (core s') → definition s' = definition s.
Proof. by intros [H%calm_definition _]. Qed.

Lemma goto_moves (f : nat → nat) s : locked s = false →
  let '(r, s') := with_runtime (_ ← mod_runtime (λ r, set_rt_index (f (rt_current_step_index r)) r); touch) s in
  r = Done tt ∧ locked s' = false ∧ calm (core s) (core s') ∧ index s' = f (index s).
Proof.
  intros Hs. unfold with_runtime. unfold locked in Hs. rewrite Hs. unfold touch, fl_host, host, mod_runtime, mbind, OrcM_bind, o_zoom, o_modify.
  simpl. by destruct (instant_now (fl_world s)).
Qed.

(** What a branch leads to. *)
Definition next_of (s : Flow W) (next : option nat) : nat := default (S (index s)) next.

Lemma log_done level message s : locked s = false →
  ∃ s1, session_log (W := W) level message s = (Done tt, s1) ∧ locked s1 = false ∧ quiet (core s) (core s1).
Proof.
  intros Hs. destruct (settles_log level message s Hs) as (He & Hl & HR). unfold session_log, with_runtime in *.
  unfold locked in Hs. rewrite Hs in *.
  unfold touch, fl_host, host, mod_runtime, mbind, OrcM_bind, o_zoom, o_modify in *. simpl in *.
  destruct (instant_now (fl_world s)) as [t w]. simpl in *. destruct (epoch_s_now w). by eexists.
Qed.

Lemma follow_moves next bm sm s : locked s = false →
  let '(r, s') := follow next bm sm s in
  r = Done tt ∧ locked s' = false ∧ calm (core s) (core s') ∧ index s' = next_of s next.
Proof.
  intros Hs.
  unfold follow. destruct next as [j|].
  - unfold the_session at 1, mbind, OrcM_bind, o_get. destruct (log_done LogLevel_Debug (bm j (step_name_at (se_definition (fl_session s)) j)) s Hs) as (s1 & -> & Hs1 & Hq).
    pose proof (goto_moves (λ _, j) s1 Hs1) as Hg. unfold goto_index. unfold mbind, OrcM_bind in Hg.
    destruct (with_runtime _ s1) as [r s2]. destruct Hg as (-> & ? & ? & ?). split_and!; try done. etrans; [apply Hq|done].
  - unfold mbind, OrcM_bind. destruct (log_done LogLevel_Debug sm s Hs) as (s1 & -> & Hs1 & Hq).
    pose proof (goto_moves S s1 Hs1) as Hg. unfold advance_index. unfold mbind, OrcM_bind in Hg.
    destruct (with_runtime _ s1) as [r s2]. destruct Hg as (-> & ? & ? & Hi). split_and!; try done; [etrans; [apply Hq|done]|].
    simpl. by rewrite Hi, (quiet_index _ _ Hq).
Qed.

Lemma branch_target step excluded s j s' :
  evaluate_branch_excluding (W := W) step excluded s = (Done (Some j), s') →
  ∃ b, b ∈ ps_branches step ∧ step_position (br_goto_step b) (definition s) = Some j.
Proof.
  unfold evaluate_branch_excluding. destruct (ps_branches step) as [|b0 l] eqn:Hb; [done|].
  unfold mbind, OrcM_bind, with_runtime. destruct (se_locked _); [done|]. unfold runtime, o_get. simpl.
  unfold matched_target. destruct (List.find _ _) as [b|] eqn:Hf; [|done]. simpl.
  apply List.find_some in Hf as [Hin _]. unfold the_session, o_get. simpl.
  destruct (step_position _ _) as [j'|] eqn:Hp; [|done]. intros [= -> _]. exists b. split; [by apply list_elem_of_In|done].
Qed.

End executor.
