(* ===== verification/OrchTheorems.v ===== *)
(** * Properties of the orchestrator's flows

    A flow comes to an end or asks; what it asks is what is missing; secrets are forgotten
    once they have been entered; and where a flow waits for ever. *)
From stdpp Require Import base gmap strings list fin_maps.
From Stdlib Require Import ZArith Lia Ascii.
From S2P Require Import Prelude Config Pam OrchTypes OrchPodman OrchFlow OrchFacts.

Open Scope rust_scope.

Section returns.
Context {W : Type} {OE : OrchEnv W}.
Context (podman : PodmanClient).

(** ** Flows that come to an end *)

(** Every branch leads forward, to a step that exists. *)
Definition forward_step (d : ProviderDefinition) (i : nat) (step : ProviderStep) : bool :=
  forallb (λ b, match step_position (br_goto_step b) d with Some j => Nat.ltb i j | None => false end) (ps_branches step).

Definition forward_flow (d : ProviderDefinition) : bool := forallb id (imap (forward_step d) (pd_steps d)).

Definition tokenless (d : ProviderDefinition) : bool := forallb tokenless_step (pd_steps d).

Lemma forward_flow_step d i step :
  forward_flow d = true → pd_steps d !! i = Some step → forward_step d i step = true.
Proof.
  unfold forward_flow. rewrite forallb_forall. intros H Hi. apply (H (forward_step d i step)).
  apply list_elem_of_In, list_elem_of_lookup. exists i. by rewrite list_lookup_imap, Hi.
Qed.

Lemma tokenless_lookup d i step : tokenless d = true → pd_steps d !! i = Some step → tokenless_step step = true.
Proof. unfold tokenless. rewrite forallb_forall. intros H Hi. apply H, list_elem_of_In, list_elem_of_lookup. by exists i. Qed.

Lemma forward_branch d i step b j :
  forward_step d i step = true → b ∈ ps_branches step → step_position (br_goto_step b) d = Some j → (i < j)%nat.
Proof.
  unfold forward_step. rewrite forallb_forall. intros H Hb Hj. apply list_elem_of_In, H in Hb. rewrite Hj in Hb.
  by apply Nat.ltb_lt.
Qed.

(** What an executor may answer: a request for at least one input, or the end, reported as a
    success. *)
Definition flow_answer (r : FlowResponse) : Prop :=
  match r with
  | FlowResponse_NextStep _ inputs _ => inputs ≠ []
  | FlowResponse_SessionComplete _ success _ _ => success = true
  | _ => False
  end.

(** One turn of the loop from [s0]: it ends, the session is given back, and without an
    answer the flow is at a later step. *)
Definition turn (s0 : Flow W) (x : Out (option FlowResponse) * Flow W) : Prop :=
  ends x.1 = true ∧ locked x.2 = false ∧ calm (core s0) (core x.2) ∧
  (∀ r, x.1 = Done (Some r) → flow_answer r) ∧ (x.1 = Done None → (index s0 < length (pd_steps (definition s0)))%nat ∧ (index s0 < index x.2)%nat).

Lemma turn_failed s0 e s : locked s = false → calm (core s0) (core s) → turn s0 (Failed e, s).
Proof. by intros. Qed.

(** The first of two parts of a turn leaves the step as it is. *)
Lemma turn_bind {A} s0 (m : OrcM (Flow W) A) k s :
  settles quiet m → locked s = false → quiet (core s0) (core s) →
  (∀ a s1, m s = (Done a, s1) → locked s1 = false → quiet (core s0) (core s1) → turn s0 (k a s1)) → turn s0 ((m ≫= k) s).
Proof.
  intros Hm Hs Hq Hk. apply (settles_then quiet); [done..| |].
  - intros a s1 E Hs1 Hq1. apply Hk; [done..|by etrans].
  - intros e s1 Hs1 Hq1. apply turn_failed; [done|]. apply quiet_calm. by etrans.
Qed.

Lemma complete_answer detail s r s' : complete_session (W := W) detail s = (Done r, s') → flow_answer r.
Proof.
  unfold complete_session, mbind, OrcM_bind. destruct (with_runtime _ s) as [[u|e| |] s1]; try done.
  destruct (session_log _ _ s1) as [[v|e| |] s2]; try done. destruct (with_runtime _ s2) as [[[t m]|e| |] s3]; try done.
  unfold the_session, o_get, mret, OrcM_ret. by intros [= <- _].
Qed.

Lemma turn_complete s0 detail s : locked s = false → quiet (core s0) (core s) →
  turn s0 ((response ← complete_session detail; mret (Some response)) s).
Proof.
  intros Hs Hq. apply turn_bind; [apply complete_settles|done..|]. intros r s1 E Hs1 Hq1.
  split_and!; try done; [by apply quiet_calm|]. intros r' [= <-]. by eapply complete_answer.
Qed.

Lemma request_answer step s r s' : maybe_request_inputs podman step s = (Done (Some r), s') → flow_answer r.
Proof.
  unfold maybe_request_inputs, mbind, OrcM_bind. destruct (with_runtime _ s) as [[inputs|e| |] s1]; try done.
  destruct (missing_inputs inputs step) as [|i l].
  - by destruct (session_log _ _ s1) as [[v|e| |] s2].
  - destruct (session_log _ _ s1) as [[v|e| |] s2]; try done. destruct (with_runtime _ s2) as [[u|e| |] s3]; try done.
    unfold the_session, o_get. destruct (response_inputs podman (i :: l) s3) as [[ri|e| |] s4] eqn:E; try done.
    intros [= <- _]. simpl in E. unfold mbind, OrcM_bind in E.
    destruct (resolve_required_input_prompt podman (in_prompt i) s3) as [[p|e| |] s5]; try done.
    destruct (response_inputs podman l s5) as [[ri'|e| |] s6]; try done. by injection E as <- _.
Qed.

Lemma turn_follow s0 i step next bm sm s :
  forward_step (definition s0) i step = true → pd_steps (definition s0) !! i = Some step → index s0 = i → locked s = false → quiet (core s0) (core s) →
  (∀ j, next = Some j → ∃ b, b ∈ ps_branches step ∧ step_position (br_goto_step b) (definition s0) = Some j) →
  turn s0 ((_ ← follow next bm sm; mret None) s).
Proof.
  intros Hf Hst Hi Hs Hq Hn. pose proof (follow_moves next bm sm s Hs) as H. unfold mbind, OrcM_bind.
  destruct (follow next bm sm s) as [r s1]. destruct H as (-> & Hs1 & Hc & Hx). split_and!; try done.
  - etrans; [apply quiet_calm, Hq|done].
  - intros _. split; [apply lookup_lt_Some in Hst; by rewrite Hi|]. simpl. rewrite Hx. unfold next_of. destruct next as [j|]; simpl; [|by rewrite (quiet_index _ _ Hq); lia].
    destruct (Hn j eq_refl) as (b & Hb & Hj). rewrite Hi. by eapply forward_branch.
Qed.

Lemma turn_after_actions s0 i step r s :
  forward_step (definition s0) i step = true → pd_steps (definition s0) !! i = Some step → tokenless_step step = true →
  index s0 = i →
  locked s = false → quiet (core s0) (core s) → turn s0 (after_actions podman step r s).
Proof.
  intros Hf Hst Ht Hi Hs Hq. unfold after_actions.
  assert (∀ s1 bm sm, locked s1 = false → quiet (core s0) (core s1) →
            turn s0 ((next ← evaluate_branch step; _ ← follow next bm sm; mret None) s1)) as Hb.
  { intros s1 bm sm Hs1 Hq1. unfold evaluate_branch. apply turn_bind; [apply branch_settles|done..|]. intros next s2 E Hs2 Hq2.
    eapply turn_follow; try done. intros j ->. apply branch_target in E. by rewrite (quiet_definition _ _ Hq1) in E. }
  destruct r as [[]|e].
  - apply turn_bind; [by apply success_settles|done..|]. intros [] s1 _ Hs1 Hq1; [by apply turn_complete|by apply Hb].
  - destruct (ps_optional step); [|by apply turn_failed; [|apply quiet_calm]].
    apply turn_bind; [apply settles_log|done..|]. intros u s1 _ Hs1 Hq1. by apply Hb.
Qed.

Lemma turn_run s0 i step s :
  forward_step (definition s0) i step = true → pd_steps (definition s0) !! i = Some step → tokenless_step step = true →
  index s0 = i →
  locked s = false → quiet (core s0) (core s) → turn s0 (run_step podman i step s).
Proof.
  intros Hf Hst Ht Hi Hs Hq. unfold run_step. apply turn_bind; [apply wait_settles|done..|]. intros [] s1 _ Hs1 Hq1.
  - apply turn_bind; [apply request_settles|done..|]. intros [r|] s2 E Hs2 Hq2.
    + split_and!; try done; [by apply quiet_calm|]. intros r' [= <-]. by eapply request_answer.
    + apply turn_bind; [apply settles_attempt, settles_context, actions_settles|done..|].
      intros r s3 _ Hs3 Hq3. by eapply turn_after_actions.
  - apply turn_bind; [apply branch_settles|done..|]. intros next s2 E Hs2 Hq2.
    eapply turn_follow; try done. intros j ->. apply branch_target in E. by rewrite (quiet_definition _ _ Hq1) in E.
Qed.

Lemma turn_advance s :
  forward_flow (definition s) = true → tokenless (definition s) = true → locked s = false → turn s (advance podman s).
Proof.
  intros Hf Ht Hs. unfold advance.
  apply turn_bind; [apply settles_with_runtime, plain_get; apply _|done..|]. intros r s1 E Hs1 Hq1.
  assert (rt_current_step_index r = index s) as ->.
  { unfold with_runtime, runtime, o_get in E. destruct (se_locked (fl_session s)); [done|]. by injection E as <- _. }
  apply turn_bind; [settle|done..|]. intros d s2 Ed Hs2 Hq2. injection Ed as <- <-.
  change (se_definition (fl_session s1)) with (definition s1). rewrite (quiet_definition _ _ Hq1).
  destruct (pd_steps (definition s) !! index s) as [step|] eqn:Hst.
  - apply turn_bind; [apply settles_log|done..|]. intros u s3 _ Hs3 Hq3.
    apply turn_bind; [apply settles_log|done..|]. intros v s4 _ Hs4 Hq4.
    apply turn_run; [by apply forward_flow_step|done|by eapply tokenless_lookup|done..].
  - apply turn_bind; [apply settles_log|done..|]. intros u s3 _ Hs3 Hq3. by apply turn_complete.
Qed.

Definition finished (s0 : Flow W) (x : Out FlowResponse * Flow W) : Prop :=
  ends x.1 = true ∧ locked x.2 = false ∧ calm (core s0) (core x.2) ∧ (∀ r, x.1 = Done r → flow_answer r).

Lemma advance_finishes fuel s :
  forward_flow (definition s) = true → tokenless (definition s) = true → locked s = false →
  (length (pd_steps (definition s)) - index s < fuel)%nat → finished s (advance_until_blocked_or_complete podman fuel s).
Proof.
  revert s. induction fuel as [|fuel IH]; intros s Hf Ht Hs Hl; [lia|].
  destruct (turn_advance s Hf Ht Hs) as (He & Hs1 & Hc & Ha & Hn). simpl. unfold mbind, OrcM_bind.
  destruct (advance podman s) as [[[r|]|e| |] s1]; try done; simpl in *.
  - split_and!; try done. intros r' [= <-]. by apply Ha.
  - destruct (Hn eq_refl) as [Hlt Hgt]. pose proof (calm_definition _ _ Hc) as Hd.
    destruct (IH s1) as (? & ? & ? & ?); [by rewrite Hd|by rewrite Hd|done|rewrite Hd; lia|].
    split_and!; try done. by etrans.
Qed.

(** The definition of the session and whether its lock is free are all that matters. *)
Lemma start_finishes fuel s :
  forward_flow (definition s) = true → tokenless (definition s) = true → locked s = false →
  (length (pd_steps (definition s)) < fuel)%nat → finished s (start_session podman fuel s).
Proof.
  intros Hf Ht Hs Hl. unfold start_session.
  assert (∀ (B : Type) (m : OrcM (Flow W) B) k s1, settles quiet m → locked s1 = false → calm (core s) (core s1) →
    (∀ a s2, locked s2 = false → calm (core s) (core s2) → finished s (k a s2)) → finished s ((m ≫= k) s1)) as Hb.
  { intros B m k s1 Hm Hs1 Hc Hk. apply (settles_then quiet); [done..| |].
    - intros a s2 _ Hs2 Hq2. apply Hk; [done|]. etrans; [done|by apply quiet_calm].
    - intros e s2 Hs2 Hq2. split_and!; try done. etrans; [done|by apply quiet_calm]. }
  apply Hb; [settle|done..|]. intros p s1 Hs1 Hc1. apply Hb; [apply settles_log|done..|]. intros u s2 Hs2 Hc2.
  apply Hb; [apply settles_context, navigation_settles|done..|]. intros v s3 Hs3 Hc3.
  pose proof (calm_definition _ _ Hc3) as Hd.
  destruct (advance_finishes fuel s3) as (? & ? & ? & ?); [by rewrite Hd|by rewrite Hd|done|rewrite Hd; lia|].
  split_and!; try done. by etrans.
Qed.

(** A session stays who it is, and its log within bounds. *)
Definition kept (s s' : Session) : Prop :=
  same_session s s' ∧ (log_ok (rt_logs (se_runtime s)) → log_ok (rt_logs (se_runtime s'))).

#[export] Instance kept_preorder : PreOrder kept.
Proof.
  split; [by intros s|]. intros s1 s2 s3 [(? & ? & ? & ? & ?) Hl1] [(? & ? & ? & ? & ?) Hl2].
  split; [split_and!; congruence|auto].
Qed.

Lemma calm_kept s s' : calm s s' → kept s s'.
Proof. by intros (? & ? & _). Qed.

Definition comes_back (s : Flow W) (x : Out FlowResponse * Flow W) : Prop :=
  ((∃ r, x.1 = Done r ∧ flow_answer r) ∨ ∃ e, x.1 = Failed e) ∧ locked x.2 = false ∧ kept (core s) (core x.2).

Lemma finished_comes_back s0 s x : kept (core s0) (core s) → finished s x → comes_back s0 x.
Proof.
  intros Hk (He & Hs & Hc%calm_kept & Ha). split_and!; [|done|by etrans].
  destruct x as [[r|e| |] s1]; try done; [left; exists r; auto|right; by exists e].
Qed.

(** The inputs that were provided are taken over. *)
Lemma provide_done provided s : locked s = false →
  let '(r, s1) := with_runtime (W := W) (
    _ ← mod_runtime (λ r, set_rt_inputs (foldl (collect (sensitive_input_names (definition s))) (rt_collected_inputs r) provided) r);
    _ ← mod_runtime (set_rt_state SessionState_InProgress);
    _ ← mod_runtime (set_rt_detail (Some "Continuing browser flow"));
    touch) s in
  r = Done tt ∧ locked s1 = false ∧ kept (core s) (core s1).
Proof.
  intros Hs. unfold with_runtime. unfold locked in Hs. rewrite Hs.
  unfold touch, fl_host, host, mod_runtime, mbind, OrcM_bind, o_zoom, o_modify. simpl. by destruct (instant_now (fl_world s)).
Qed.

(** C24. A flow whose branches lead forward and whose steps do not wait for a token, as the
    built-in one for Keycloak, always answers: whatever the browser does, starting or
    continuing a session comes to an end after at most one turn per step, with a request
    for at least one input, with the end of the flow, or with an error; the session's lock is
    given back, the session stays the same, and its log within 64 entries of 512 bytes. *)
Theorem flow_returns fuel s :
  forward_flow (definition s) = true → tokenless (definition s) = true → locked s = false →
  (length (pd_steps (definition s)) < fuel)%nat →
  comes_back s (start_session podman fuel s) ∧
  ∀ provided, comes_back s (continue_session podman fuel provided s).
Proof.
  intros Hf Ht Hs Hl. split; [by eapply finished_comes_back, start_finishes|]. intros provided. unfold continue_session.
  assert (∀ s1, locked s1 = false → kept (core s) (core s1) → comes_back s (advance_until_blocked_or_complete podman fuel s1)) as Hadv.
  { intros s1 Hs1 Hk. assert (definition s1 = definition s) as Hd by apply Hk.
    apply (finished_comes_back s s1); [done|]. apply advance_finishes; rewrite ?Hd; try done. lia. }
  destruct provided as [|i l]; [by apply Hadv|].
  unfold mbind, OrcM_bind. match goal with |- context [session_log ?a ?b s] => destruct (log_done a b s Hs) as (s1 & -> & Hs1 & Hq) end.
  unfold the_session, o_get. pose proof (provide_done (i :: l) s1 Hs1) as Hp. unfold mbind, OrcM_bind in Hp.
  change (se_definition (fl_session s1)) with (definition s1). destruct (with_runtime _ s1) as [r s2]. destruct Hp as (-> & Hs2 & Hk).
  apply Hadv; [done|]. etrans; [by apply calm_kept, quiet_calm|done].
Qed.

(** ** Secrets *)

(** What a step says about an input: an action types it in, or hands it on as a token; a
    branch depends on it; the step asks for it. *)
Inductive uses (name : string) : FlowAction → Prop :=
| uses_fill selector : uses name (FlowAction_Fill selector name)
| uses_extract target : uses name (FlowAction_Extract target ("input:" +:+ name)).

Inductive depends (name : string) : BranchRule → Prop :=
| depends_present goto : depends name {| br_condition := BranchCondition_InputPresent name; br_goto_step := goto |}
| depends_equals value goto : depends name {| br_condition := BranchCondition_InputEquals name value; br_goto_step := goto |}.

(** What is left of a flow that has done action [k] of its step [i]: the step's later actions
    and its branches, and the steps after it. *)
Inductive still_needed (d : ProviderDefinition) (i k : nat) (name : string) : Prop :=
| needed_action step j a :
    pd_steps d !! i = Some step → (k < j)%nat → ps_actions step !! j = Some a → uses name a → still_needed d i k name
| needed_branch step b :
    pd_steps d !! i = Some step → b ∈ ps_branches step → depends name b → still_needed d i k name
| needed_later_input i' step r :
    (i < i')%nat → pd_steps d !! i' = Some step → r ∈ ps_required_inputs step → in_name r = name → still_needed d i k name
| needed_later_action i' step a :
    (i < i')%nat → pd_steps d !! i' = Some step → a ∈ ps_actions step → uses name a → still_needed d i k name
| needed_later_branch i' step b :
    (i < i')%nat → pd_steps d !! i' = Some step → b ∈ ps_branches step → depends name b → still_needed d i k name.

(** Somewhere the definition asks for the input as a password or a code. *)
Definition secret_input (d : ProviderDefinition) (name : string) : Prop :=
  ∃ step r, step ∈ pd_steps d ∧ r ∈ ps_required_inputs step ∧ in_name r = name ∧
    (in_input_type r = InputType_Password ∨ in_input_type r = InputType_Otp).

Lemma existsb_elem {A} (f : A → bool) l : existsb f l = true ↔ ∃ x, x ∈ l ∧ f x = true.
Proof. rewrite existsb_exists. by setoid_rewrite list_elem_of_In. Qed.

Lemma secret_input_named d name : secret_input d name → name ∈ sensitive_input_names d.
Proof.
  intros (step & r & Hs & Hr & <- & Ht). unfold sensitive_input_names. apply list_elem_of_fmap_2, list_elem_of_In, filter_In.
  split; [apply list_elem_of_In, list_elem_of_bind; by exists step|]. by destruct Ht as [-> | ->].
Qed.

Lemma substring_full s : String.substring 0 (String.length s) s = s.
Proof. induction s as [|c s IH]; [done|]. simpl. by rewrite IH. Qed.

Lemma strip_prefix_spec p s t : strip_prefix_str p s = Some t ↔ s = p +:+ t.
Proof.
  unfold strip_prefix_str. revert s. induction p as [|c p IH]; intros s.
  - simpl. rewrite Nat.sub_0_r. replace (String.prefix "" s) with true by by destruct s. rewrite substring_full. split; [by intros [= ->]|by intros ->].
  - destruct s as [|c' s]; [done|]. simpl. destruct (ascii_dec c c') as [->|Hc]; [|split; [done|by intros [= -> ->]]].
    rewrite IH. simpl. split; [by intros ->|by intros [= ->]].
Qed.

Lemma action_uses name a : action_references_input name a = true ↔ uses name a.
Proof.
  destruct a as [sel n| | | |t src|]; simpl; try by (split; [done|inversion 1]).
  - rewrite String.eqb_eq. split; [intros ->; constructor|by inversion 1].
  - destruct (strip_prefix_str "input:" src) eqn:E.
    + apply strip_prefix_spec in E as ->. rewrite String.eqb_eq. split; [intros ->; constructor|by inversion 1].
    + split; [done|]. inversion 1; subst. by rewrite (proj2 (strip_prefix_spec "input:" ("input:" +:+ name) name) eq_refl) in E.
Qed.

Lemma branch_depends name b : branch_references_input name b = true ↔ depends name b.
Proof.
  destruct b as [[|n|n v] goto]; unfold branch_references_input; simpl; rewrite ?String.eqb_eq;
    (split; [intros; subst; try done; constructor|by inversion 1]).
Qed.

Lemma branches_depend name step : branches_reference_input step name = true ↔ ∃ b, b ∈ ps_branches step ∧ depends name b.
Proof. unfold branches_reference_input. rewrite existsb_elem. by setoid_rewrite branch_depends. Qed.

Lemma existsb_imap {A} (f : nat → A → bool) l :
  existsb id (imap f l) = true ↔ ∃ i x, l !! i = Some x ∧ f i x = true.
Proof.
  rewrite existsb_elem. split.
  - intros (b & [i Hb]%list_elem_of_lookup & Hid). rewrite list_lookup_imap in Hb. apply fmap_Some in Hb as (x & Hx & ->). by exists i, x.
  - intros (i & x & Hx & Hf). exists (f i x). split; [|done]. apply list_elem_of_lookup. exists i. by rewrite list_lookup_imap, Hx.
Qed.

Lemma later_step_spec step name :
  step_references_input step name = true ↔
    (∃ r, r ∈ ps_required_inputs step ∧ in_name r = name) ∨ (∃ a, a ∈ ps_actions step ∧ uses name a) ∨
    (∃ b, b ∈ ps_branches step ∧ depends name b).
Proof.
  unfold step_references_input. rewrite !orb_true_iff, !existsb_elem, branches_depend.
  setoid_rewrite action_uses. setoid_rewrite String.eqb_eq. tauto.
Qed.

Lemma this_step_spec step k name :
  step_references_input_after_action step k name = true ↔
    (∃ j a, (k < j)%nat ∧ ps_actions step !! j = Some a ∧ uses name a) ∨ (∃ b, b ∈ ps_branches step ∧ depends name b).
Proof.
  unfold step_references_input_after_action. rewrite orb_true_iff, existsb_elem, branches_depend. setoid_rewrite action_uses.
  split; (intros [H|H]; [left|by right]).
  - destruct H as (a & [j Hj]%list_elem_of_lookup & Hu). rewrite lookup_drop in Hj. exists (k + 1 + j)%nat, a. split_and!; [lia|done..].
  - destruct H as (j & a & Hj & Ha & Hu). exists a. split; [|done]. apply list_elem_of_lookup. exists (j - (k + 1))%nat.
    rewrite lookup_drop. by replace (k + 1 + (j - (k + 1)))%nat with j by lia.
Qed.

(** The code's test, step by step, against what is left of the flow. *)
Lemma unreferenced_spec d i k name : unreferenced_from d i k name = true ↔ ¬ still_needed d i k name.
Proof.
  unfold unreferenced_from. rewrite negb_true_iff, <- not_true_iff_false. apply not_iff_compat. rewrite existsb_imap. split.
  - intros (i' & step & Hs & Hr). destruct (Nat.ltb_spec i' i); [done|]. destruct (Nat.eqb_spec i' i) as [->|].
    + apply this_step_spec in Hr as [(j & a & ? & ? & ?)|(b & ? & ?)]; [by eapply needed_action|by eapply needed_branch].
    + apply later_step_spec in Hr as [(r & ? & ?)|[(a & ? & ?)|(b & ? & ?)]];
        [eapply needed_later_input|eapply needed_later_action|eapply needed_later_branch]; try done; lia.
  - intros [step j a Hs Hj Ha Hu|step b Hs Hb Hu|i' step r Hi Hs Hr Hu|i' step a Hi Hs Ha Hu|i' step b Hi Hs Hb Hu].
    1,2: exists i, step; rewrite Nat.ltb_irrefl, Nat.eqb_refl, this_step_spec; split; [done|naive_solver].
    all: exists i', step; rewrite (proj2 (Nat.ltb_ge i' i)), (proj2 (Nat.eqb_neq i' i)), later_step_spec by lia; split; [done|naive_solver].
Qed.

Lemma forget_gone i j name s :
  locked s = false → name ∈ sensitive_input_names (definition s) → unreferenced_from (definition s) i j name = true →
  ∃ s', forget_sensitive_input_if_unreferenced i j name s = (Done tt, s') ∧
    rt_collected_inputs (se_runtime (core s')) !! name = None.
Proof.
  intros Hs Hn Hu. unfold forget_sensitive_input_if_unreferenced, the_session, o_get, mbind, OrcM_bind.
  change (se_definition (fl_session s)) with (definition s). rewrite bool_decide_true, Hu by done. simpl.
  unfold with_runtime, runtime, o_get. unfold locked in Hs. rewrite Hs. simpl.
  destruct (rt_collected_inputs (se_runtime (fl_session s)) !! name) eqn:E; [|by eexists].
  unfold touch, fl_host, host, mod_runtime, mbind, OrcM_bind, o_zoom, o_modify. simpl. destruct (instant_now (fl_world s)) as [t w].
  eexists. split; [done|]. simpl. apply lookup_delete_eq.
Qed.

Lemma actions_forget i step idx actions s s' k sel name :
  execute_actions_from podman i step idx actions s = (Done tt, s') → locked s = false →
  actions !! k = Some (FlowAction_Fill sel name) → name ∈ sensitive_input_names (definition s) →
  unreferenced_from (definition s) i (idx + k) name = true → rt_collected_inputs (se_runtime (core s')) !! name = None.
Proof.
  revert idx k s. induction actions as [|a l IH]; intros idx k s He Hs Hk Hn Hu; [done|]. simpl in He. revert He.
  set (m1 := session_log _ _). apply (settles_then quiet m1); [apply settles_log|done| |done]. intros u s1 _ Hs1 Hq1.
  set (m2 := o_context _ _). apply (settles_then quiet m2); [apply settles_context, action_settles|done| |done].
  intros v s2 _ Hs2 Hq2. assert (definition s2 = definition s) as Hd by (rewrite (quiet_definition _ _ Hq2); by apply quiet_definition).
  set (m3 := match a with FlowAction_Fill _ input => _ | _ => _ end).
  assert (settles quiet m3) as Hm3 by (unfold m3; destruct a; auto using forget_settles, settles_ret with typeclass_instances).
  apply (settles_then quiet m3); [done|done| |done]. intros x s3 E3 Hs3 Hq3.
  assert (definition s3 = definition s) as Hd3 by (rewrite (quiet_definition _ _ Hq3); done).
  intros He. destruct k as [|k].
  - injection Hk as ->. rewrite Nat.add_0_r in Hu. rewrite <- Hd in Hn, Hu.
    destruct (forget_gone i idx name s2 Hs2 Hn Hu) as (s4 & E4 & Hgone). assert (s3 = s4) as -> by (unfold m3 in E3; congruence).
    destruct (actions_settles podman i step (S idx) l s4 Hs3) as (_ & _ & [[_ [_ Hsub]] _]). rewrite He in Hsub. cbn [snd] in Hsub.
    destruct (rt_collected_inputs (se_runtime (core s')) !! name) eqn:E; [|done]. eapply lookup_weaken in E; [|done]. congruence.
  - eapply (IH (S idx) k s3); [done..| |]; rewrite Hd3; [done|]. by replace (S idx + k)%nat with (idx + S k)%nat by lia.
Qed.

(** C27. A secret does not outlive its use. When the actions of a step have been executed, a
    password or a code that one of them entered into a page is no longer kept by the
    session, unless the rest of the flow needs it: a later action of the step types it in or
    hands it on, a branch of the step depends on it, or a later step asks for it, types it
    in, hands it on or depends on it. What earlier steps or actions did with it does not
    count. *)
Theorem secret_forgotten i step s s' k selector name :
  execute_step_actions podman i step s = (Done tt, s') → locked s = false →
  ps_actions step !! k = Some (FlowAction_Fill selector name) → secret_input (definition s) name →
  ¬ still_needed (definition s) i k name → rt_collected_inputs (se_runtime (core s')) !! name = None.
Proof.
  intros He Hs Hk Hn Hu. eapply (actions_forget i step 0); [done..|by apply secret_input_named|by apply unreferenced_spec].
Qed.

(** ** A flow that never ends *)

(** A step without a condition, an input, an action or a sign of success, whose first
    branch leads back to it. *)
Definition spins (d : ProviderDefinition) (i : nat) (step : ProviderStep) : Prop :=
  pd_steps d !! i = Some step ∧ ps_optional step = false ∧ ps_required_inputs step = [] ∧ ps_actions step = [] ∧
  ps_success step = None ∧ step_position (ps_name step) d = Some i ∧
  ∃ rest, ps_branches step = {| br_condition := BranchCondition_Always; br_goto_step := ps_name step |} :: rest.

(** A definition that is accepted and goes round in circles. *)
Definition circle_step : ProviderStep := {|
  ps_name := "again"; ps_optional := false; ps_wait_for := None; ps_required_inputs := []; ps_actions := [];
  ps_branches := always "again"; ps_success := None
|}.

Definition circle : ProviderDefinition := {|
  pd_provider := "circle"; pd_display_name := "Circle"; pd_matchers := None; pd_start_url := None; pd_steps := [circle_step]
|}.

Ltac log_step Hs :=
  match goal with |- context [session_log ?a ?b ?s] =>
    let s1 := fresh "s" in let Hs1 := fresh "Hs" in let Hq := fresh "Hq" in
    destruct (log_done a b s Hs) as (s1 & -> & Hs1 & Hq) end.

Lemma read_done {A} (f : SessionRuntime → A) (s : Flow W) : locked s = false →
  with_runtime (runtime f) s = (Done (f (se_runtime (fl_session s))), s).
Proof.
  intros Hs. unfold with_runtime. unfold locked in Hs. rewrite Hs. unfold runtime, o_get. destruct s as [se w]. simpl in *.
  unfold fl_locked. simpl. destruct se. simpl in *. by subst.
Qed.

Lemma spin_branch step i (s : Flow W) : locked s = false → spins (definition s) i step →
  evaluate_branch step s = (Done (Some i), s).
Proof.
  intros Hs (_ & _ & _ & _ & _ & Hp & rest & Hb). unfold evaluate_branch, evaluate_branch_excluding. rewrite Hb.
  unfold mbind, OrcM_bind. rewrite read_done by done. unfold matched_target. simpl. unfold the_session, o_get.
  change (se_definition (fl_session s)) with (definition s). by rewrite Hp.
Qed.

Lemma spin_turn step (s : Flow W) : locked s = false → spins (definition s) (index s) step →
  ∃ s', advance podman s = (Done None, s') ∧ locked s' = false ∧ definition s' = definition s ∧ index s' = index s.
Proof.
  intros Hs Hsp. destruct Hsp as (Hst & Ho & Hin & Ha & Hsu & Hp & rest & Hb).
  unfold advance, mbind, OrcM_bind. rewrite read_done by done. unfold the_session, o_get.
  change (rt_current_step_index (id (se_runtime (fl_session s)))) with (index s).
  change (se_definition (fl_session s)) with (definition s). rewrite Hst.
  log_step Hs. log_step Hs0. assert (quiet (core s) (core s1)) as Hq1 by (by etrans). unfold run_step, mbind, OrcM_bind.
  unfold optional_step_wait_condition_satisfied. rewrite Ho. unfold mret, OrcM_ret. cbv beta iota.
  unfold maybe_request_inputs, mbind, OrcM_bind. rewrite read_done by done. unfold missing_inputs. rewrite Hin. cbn [List.filter].
  log_step Hs1. unfold o_attempt, o_context, execute_step_actions. rewrite Ha. cbn [execute_actions_from].
  unfold mret, OrcM_ret. cbv beta iota. unfold after_actions, step_successful. rewrite Hsu. unfold mbind, OrcM_bind, mret, OrcM_ret.
  assert (quiet (core s) (core s2)) as Hq3 by (by etrans).
  rewrite (spin_branch step (index s)); [|done|rewrite (quiet_definition _ _ Hq3); by split_and!; try done; exists rest].
  match goal with |- context [follow ?a ?b ?c s2] => pose proof (follow_moves a b c s2 Hs2) as Hf; destruct (follow a b c s2) as [r s3] end.
  destruct Hf as (-> & Hs3 & Hc & Hi). exists s3. split_and!; try done.
  rewrite (calm_definition _ _ Hc). by apply quiet_definition.
Qed.

(** Definitions are accepted whose flow never ends. At a step that always leads back to
    itself, and asks for nothing and shows no sign of success, the executor runs in circles
    and the request that got there is never answered, however long one waits; and there is a
    definition with such a step that passes the validation. *)
Theorem endless_flow :
  (validate_provider_definition circle = Ok tt ∧ spins circle 0 circle_step) ∧
  ∀ step (s : Flow W), spins (definition s) (index s) step → locked s = false →
    ∀ fuel, (advance_until_blocked_or_complete podman fuel s).1 = OutOfFuel.
Proof.
  split; [split; [done|repeat split; by exists []]|].
  intros step s Hsp Hs fuel. revert s Hsp Hs. induction fuel as [|fuel IH]; intros s Hsp Hs; [done|].
  destruct (spin_turn step s Hs Hsp) as (s' & E & Hs' & Hd & Hi). simpl. unfold mbind, OrcM_bind. rewrite E.
  apply IH; [by rewrite Hd, Hi|done].
Qed.

End returns.
