(* ===== verification/OrchServerTheorems.v ===== *)
(** * Properties of the orchestrator's sessions and clients

    Sessions belong to the user who began them, and what a session that never gives its
    lock back does to the rest. *)
From stdpp Require Import base gmap strings list fin_maps.
From Stdlib Require Import ZArith Lia Ascii.
From S2P Require Import Prelude Config Pam OrchTypes OrchPodman OrchFlow OrchServer OrchFacts.

Open Scope rust_scope.

Section server.
Context {W : Type} {OE : OrchEnv W} {DO : DefinitionOps} {I : IniFile} {FC : FlowCodecOps}.
Context (podman : PodmanClient) (registry : Registry) (cfg : HimmelblauConfig) (fuel : nat).
Notation SM := (OrcM (Orch W)).

(** ** Who may touch a session *)

(** The table is left alone, or all of it but one entry. *)
Definition table_kept (P : string → Prop) {A} (m : SM A) : Prop :=
  ∀ o id, P id → or_sessions (m o).2 !! id = or_sessions o !! id.

Lemma kept_bind P {A B} (m : SM A) (k : A → SM B) :
  table_kept P m → (∀ a, table_kept P (k a)) → table_kept P (m ≫= k).
Proof.
  intros Hm Hk o id Hid. unfold mbind, OrcM_bind. specialize (Hm o id Hid). destruct (m o) as [[a|e| |] o1]; try done.
  rewrite (Hk a o1 id Hid). done.
Qed.
Lemma kept_ret P {A} (a : A) : table_kept P (mret a).
Proof. done. Qed.
Lemma kept_fail P {A} e : table_kept P (o_fail (A := A) e).
Proof. done. Qed.
Lemma kept_get P {A} (f : Orch W → A) : table_kept P (o_get f).
Proof. done. Qed.
Lemma kept_attempt P {A} (m : SM A) : table_kept P m → table_kept P (o_attempt m).
Proof. intros Hm o id Hid. unfold o_attempt. specialize (Hm o id Hid). by destruct (m o) as [[a|e| |] o1]. Qed.
Lemma kept_host P {A} (m : OrcM W A) : table_kept P (or_host m).
Proof. intros o id _. unfold or_host, o_zoom. by destruct (m (or_world o)). Qed.
Lemma kept_pool P {A} (f : ContainerPoolState → A * ContainerPoolState) : table_kept P (or_pool_do (W := W) f).
Proof. intros o id _. unfold or_pool_do. by destruct (f (or_pool o)). Qed.
Lemma kept_on_session P {A} (m : OrcM (Flow W) A) session : table_kept P (on_session m session).
Proof. intros o id _. unfold on_session. by destruct (m _) as [[a|e| |] f]. Qed.
Lemma kept_in_table (P : string → Prop) {A} id session (m : OrcM (Flow W) A) : ¬ P id → table_kept P (in_table id session m).
Proof. intros Hn o id' Hid. unfold in_table. destruct (m _) as [r f]. simpl. apply lookup_insert_ne. by intros ->. Qed.
Lemma kept_put (P : string → Prop) f :
  (∀ (t : gmap string Session) id, P id → f t !! id = t !! id) → table_kept P (or_put_sessions (W := W) f).
Proof. intros Hf o id Hid. simpl. by apply Hf. Qed.

Lemma kept_spawn P : table_kept P (ensure_spare (W := W)).
Proof.
  apply kept_bind; [apply kept_pool|]. intros [i|]; [|apply kept_ret]. by intros o id _.
Qed.

Lemma kept_discard P c : table_kept P (discard (W := W) podman c).
Proof. apply kept_bind; [apply kept_attempt, kept_host|]. intros r. apply kept_ret. Qed.

Lemma kept_acquire P id : table_kept P (acquire_container (W := W) podman id).
Proof.
  apply kept_bind; [apply kept_pool|]. intros spare.
  set (create := (_ ← ensure_spare; _)).
  assert (table_kept P create) as Hc.
  { apply kept_bind; [apply kept_spawn|]. intros u. apply kept_bind; [apply kept_attempt, kept_host|].
    intros [c|e]; [apply kept_ret|apply kept_fail]. }
  destruct spare as [c|]; [|done]. apply kept_bind; [apply kept_attempt, kept_host|]. intros [u|e].
  - apply kept_bind; [apply kept_spawn|]. intros v. apply kept_ret.
  - apply kept_bind; [apply kept_discard|]. intros v. done.
Qed.

Lemma kept_create (P : string → Prop) id provider uid u i a c d : ¬ P id →
  table_kept P (create_session (W := W) podman id provider uid u i a c d).
Proof.
  intros Hn. apply kept_bind; [apply kept_get|]. intros []; [apply kept_fail|].
  apply kept_bind; [apply kept_acquire|]. intros ct. apply kept_bind; [apply kept_host|]. intros now.
  apply kept_bind; [apply kept_get|]. intros []; [apply kept_bind; [apply kept_discard|intros v; apply kept_fail]|].
  apply kept_bind; [apply kept_put; intros t id' Hid; apply lookup_insert_ne; by intros ->|]. intros v.
  apply kept_bind; [by apply kept_in_table|]. intros w. apply kept_get.
Qed.

(** The session a command is about. *)
Definition command_session (c : FlowCommand) : option string :=
  match c with
  | FlowCommand_StartSession id _ _ _ _ _ | FlowCommand_NextStep id _ | FlowCommand_CancelSession id
  | FlowCommand_GetSessionStatus id => Some id
  | FlowCommand_Ping => None
  end.

Lemma kept_process c uid (P : string → Prop) :
  (∀ id, command_session c = Some id → ¬ P id) → table_kept P (process_command podman registry cfg fuel c uid).
Proof.
  intros Hn. unfold process_command. destruct (validate_command c); [|apply kept_fail].
  destruct c as [id provider u i url d|id inputs|id|id|]; simpl in Hn; [| | | |apply kept_ret]; specialize (Hn id eq_refl).
  - unfold handle_start_session. destruct (registry !! _); [|apply kept_fail].
    apply kept_bind; [by apply kept_create|]. intros s. by apply kept_in_table.
  - apply kept_bind; [apply kept_get|]. intros [s|]; [|apply kept_fail].
    destruct (owned_by s uid); [by apply kept_in_table|apply kept_fail].
  - apply kept_bind; [apply kept_get|]. intros s. apply kept_bind.
    { destruct s as [s|]; [destruct (owned_by s uid)|]; [apply kept_ret|apply kept_fail|apply kept_ret]. }
    intros v. apply kept_bind; [|intros []; apply kept_ret]. apply kept_bind; [apply kept_get|]. intros [s'|]; [|apply kept_ret].
    apply kept_bind; [apply kept_put; intros t id' Hid; apply lookup_delete_ne; by intros ->|]. intros x.
    apply kept_bind; [apply kept_on_session|]. intros y. apply kept_bind; [apply kept_host|]. intros z. apply kept_ret.
  - apply kept_bind; [apply kept_get|]. intros [s|]; [|apply kept_ret].
    destruct (owned_by s uid); [by apply kept_in_table|apply kept_fail].
Qed.

(** A command about somebody else's session is refused, and nothing happens. *)
Lemma command_refused c uid o id se :
  or_sessions o !! id = Some se → se_owner_uid se ≠ uid → command_session c = Some id →
  ∃ e, process_command podman registry cfg fuel c uid o = (Failed e, o).
Proof.
  intros Hse Hu Hc. unfold process_command. destruct (validate_command c) as [u|e]; [|by eexists].
  assert (owned_by se uid = false) as Ho by (by apply Z.eqb_neq).
  destruct c; simpl in Hc; simplify_eq.
  - unfold handle_start_session. destruct (registry !! _); [|by eexists]. unfold create_session, o_get, mbind, OrcM_bind.
    rewrite bool_decide_true by (by rewrite Hse). by eexists.
  - unfold handle_next_step, get_session, o_get, mbind, OrcM_bind. rewrite Hse, Ho. by eexists.
  - unfold handle_cancel_session, get_session, o_get, mbind, OrcM_bind. rewrite Hse, Ho. by eexists.
  - unfold handle_get_status, get_session, o_get, mbind, OrcM_bind. rewrite Hse, Ho. by eexists.
Qed.

(** C25. Only its owner touches a session. Whatever another user sends, and whatever comes of
    it, a session stays in the table as it was, and a command about it is refused without
    any effect; and a peer that is not the daemon's user is refused before anything it
    sent is looked at. *)
Theorem session_owner_only c uid o id se :
  or_sessions o !! id = Some se → se_owner_uid se ≠ uid →
  or_sessions (process_command podman registry cfg fuel c uid o).2 !! id = Some se ∧
  (command_session c = Some id → ∃ e, process_command podman registry cfg fuel c uid o = (Failed e, o)) ∧
  (∀ authorized chunks, uid ≠ authorized →
     ∃ e, handle_client podman registry cfg fuel (Some uid) authorized chunks o = (Failed e, o)).
Proof.
  intros Hse Hu. split_and!.
  - destruct (decide (command_session c = Some id)) as [Hc|Hc].
    + destruct (command_refused c uid o id se Hse Hu Hc) as [e ->]. done.
    + rewrite (kept_process c uid (λ x, x = id)); [done| |done]. intros id' Hid ->. done.
  - intros Hc. by eapply command_refused.
  - intros authorized chunks Hne. unfold handle_client. rewrite (proj2 (Z.eqb_neq _ _)) by done. by eexists.
Qed.

(** ** A session that keeps its lock *)

Lemma lock_stuck {A} (m : OrcM (Flow W) A) s : se_locked (fl_session s) = true → with_runtime m s = (Hung, s).
Proof. intros Hs. unfold with_runtime. by rewrite Hs. Qed.

Lemma log_stuck level msg (s : Flow W) : se_locked (fl_session s) = true → session_log level msg s = (Hung, s).
Proof. apply lock_stuck. Qed.

Lemma token_key_stuck step key (s : Flow W) : locked s = false →
  token_key_successful step key s = (Hung, fl_locked true s).
Proof.
  intros Hs. unfold token_key_successful, with_runtime at 1. unfold locked in Hs. rewrite Hs. unfold runtime, o_get, mbind, OrcM_bind.
  by destruct (has_token _ key); rewrite log_stuck.
Qed.

Lemma advance_stuck n (s : Flow W) : se_locked (fl_session s) = true →
  (advance_until_blocked_or_complete podman (S n) s).1 = Hung.
Proof. intros Hs. simpl. unfold advance, mbind, OrcM_bind. by rewrite lock_stuck. Qed.

Lemma continue_stuck n provided (s : Flow W) : se_locked (fl_session s) = true →
  (continue_session podman (S n) provided s).1 = Hung.
Proof.
  intros Hs. unfold continue_session. destruct provided as [|p l]; [by apply advance_stuck|].
  unfold mbind, OrcM_bind. by rewrite log_stuck.
Qed.

Lemma stale_done a b now se (o : Orch W) :
  (∃ st se' o', on_session (is_stale a b now) se o = (Done (st, se'), o') ) ∨ (on_session (is_stale a b now) se o).1 = Hung.
Proof.
  unfold on_session, is_stale, mbind, OrcM_bind, with_runtime. destruct (se_locked _) eqn:E; simpl in E; [by right|]. left. by eauto.
Qed.

Lemma stale_stuck a b now l se (o : Orch W) : se ∈ l → se_locked se = true → (stale_ids a b now l o).1 = Hung.
Proof.
  intros Hin Hs. revert o. induction l as [|x l IH]; intros o; [by apply not_elem_of_nil in Hin|].
  simpl. unfold mbind, OrcM_bind. apply elem_of_cons in Hin as [->|Hin].
  - unfold on_session at 1, is_stale, mbind, OrcM_bind. by rewrite lock_stuck.
  - destruct (stale_done a b now x o) as [(st & se' & o' & ->)|Hh].
    + specialize (IH Hin o'). by destruct (stale_ids a b now l o') as [[ids|e| |] o2].
    + by destruct (on_session _ x o) as [[p|e| |] o1].
Qed.

Lemma mark_done d lg se (o : Orch W) :
  (∃ x o', on_session (mark_cancelled d lg) se o = (Done x, o')) ∨ (on_session (mark_cancelled d lg) se o).1 = Hung.
Proof.
  destruct (se_locked se) eqn:Hs.
  - right. unfold on_session, mark_cancelled, mbind, OrcM_bind. by rewrite lock_stuck.
  - left. unfold on_session, mark_cancelled. unfold mbind at 1, OrcM_bind at 1. unfold with_runtime at 1. cbn [fl_session]. rewrite Hs.
    unfold touch, fl_host, host, mod_runtime, mbind, OrcM_bind, o_zoom, o_modify. simpl.
    destruct (instant_now (or_world o)) as [t w]. simpl. destruct (instant_now w) as [t1 w1]. simpl.
    match goal with |- context [session_log ?a ?b ?s] => destruct (log_done a b s eq_refl) as (s1 & -> & _ & _) end. by eauto.
Qed.

Lemma shut_down_stuck l se (o : Orch W) : se ∈ l → se_locked se = true → (shut_down podman l o).1 = Hung.
Proof.
  intros Hin Hs. revert o. induction l as [|x l IH]; intros o; [by apply not_elem_of_nil in Hin|].
  simpl. unfold mbind at 1, OrcM_bind at 1. apply elem_of_cons in Hin as [->|Hin].
  - unfold on_session at 1, mark_cancelled at 1, mbind, OrcM_bind. by rewrite lock_stuck.
  - match goal with |- context [on_session (mark_cancelled ?d ?lg) x o] => destruct (mark_done d lg x o) as [(y & o' & ->)|Hh] end.
    + pose proof (destroy_answers podman (se_container x) (or_world o')) as Hd.
      unfold mbind, OrcM_bind, o_attempt, or_host, o_zoom.
      destruct (destroy_session_container podman (se_container x) (or_world o')) as [[z|e| |] w]; simpl in Hd; try done.
      all: match goal with |- context [shut_down _ ?ss ?o2] =>
             specialize (IH Hin o2); by destruct (shut_down _ ss o2) as [[n|e'| |] o3] end.
    + by destruct (on_session _ x o) as [[p|e| |] o1].
Qed.

(** C38. A success condition on a token stops the orchestrator. A step that has one waits for
    ever when its actions are done: it writes to the session's log, which locks the
    session, while it holds that lock to look for the token, whether the token is there or
    not. Its request is never answered. While the session is in the table, neither is any
    other request of its owner about it; the task that removes stale sessions stops for
    good, and so does the shutdown. Only a request to cancel the session takes it out of the
    table: that request is not answered either and leaves the session's container running,
    and from then on the session is not found. *)
Theorem token_key_wedges step sc key (s : Flow W) :
  ps_success step = Some sc → sc_token_key sc = Some key → locked s = false →
  ∃ s1, after_actions podman step (Ok tt) s = (Hung, s1) ∧
    ∀ id (o : Orch W) uid, or_sessions o !! id = Some (fl_session s1) → se_owner_uid (fl_session s) = uid →
      (handle_get_status id uid o).1 = Hung ∧
      (∀ n provided, (handle_next_step podman (S n) id provided uid o).1 = Hung) ∧
      (∀ idle retention, (cleanup_stale_sessions podman idle retention o).1 = Hung) ∧
      (shutdown_sessions podman o).1 = Hung ∧
      let o' := {| or_sessions := delete id (or_sessions o); or_pool := or_pool o; or_spawned := or_spawned o; or_world := or_world o |} in
      handle_cancel_session podman id uid o = (Hung, o') ∧
      handle_get_status id uid o' = (Done (FlowResponse_SessionError id "session not found"), o').
Proof.
  intros Hsc Hk Hs. exists (fl_locked true s). split.
  { unfold after_actions, step_successful. rewrite Hsc. unfold mbind, OrcM_bind. by rewrite Hk, token_key_stuck. }
  intros id o uid Hin Hu. set (se := fl_session (fl_locked true s)) in *.
  assert (owned_by se uid = true) as Ho by (unfold owned_by; by apply Z.eqb_eq).
  assert (se_locked se = true) as Hl by done.
  assert (se ∈ (map_to_list (or_sessions o)).*2) as Hm.
  { apply list_elem_of_fmap. exists (id, se). split; [done|]. by apply elem_of_map_to_list. }
  split_and!; [..|intros o'; split].
  - unfold handle_get_status, get_session, o_get, mbind, OrcM_bind. rewrite Hin, Ho.
    unfold in_table, status_response, mbind, OrcM_bind. by rewrite lock_stuck.
  - intros n provided. unfold handle_next_step, get_session, o_get, mbind, OrcM_bind. rewrite Hin, Ho. unfold in_table.
    pose proof (continue_stuck n provided {| fl_session := se; fl_world := or_world o |} Hl) as Hc.
    by destruct (continue_session _ _ _ _).
  - intros idle retention. unfold cleanup_stale_sessions, or_host, host, o_zoom, o_get, mbind, OrcM_bind.
    destruct (instant_now (or_world o)) as [t w].
    match goal with |- context [stale_ids ?a ?b ?c ?l ?o1] =>
      pose proof (stale_stuck a b c l se o1 Hm Hl) as Hst; by destruct (stale_ids a b c l o1) as [[ids|e| |] o2] end.
  - unfold shutdown_sessions, o_get, or_put_sessions, o_modify, mbind, OrcM_bind. by apply (shut_down_stuck _ se).
  - unfold handle_cancel_session, cancel_session, get_session, o_get, mret, OrcM_ret. unfold mbind, OrcM_bind. rewrite Hin, Ho.
    cbv beta iota zeta. rewrite Hin. unfold or_put_sessions, o_modify. cbv beta iota zeta.
    unfold on_session, mark_cancelled, mbind, OrcM_bind. by rewrite lock_stuck.
  - unfold handle_get_status, get_session, o_get, mbind, OrcM_bind. simpl. by rewrite lookup_delete_eq.
Qed.

End server.
