(* ===== verification/OrchPool.v ===== *)
(** * The orchestrator's containers under all interleavings

    The methods of [ContainerPool] and [SessionManager] that hold a container, as tasks that
    run side by side: each move is what a task does between two points where it waits, made
    of the functions of [OrchServer] that run under a lock. Sessions are created, cancelled
    and cleaned up, the spare is checked and replenished, and the pool is shut down, in any
    order. Podman is there as well: a container bears a name and its bridge listens at a
    socket, both of them made from the sanitised identifier it was created for, so that
    [podman run --replace] stops the container that bears the name, and preparing or
    removing a session directory takes away whatever socket is in it. *)
From stdpp Require Import base gmap strings list fin_maps.
From Stdlib Require Import ZArith Lia Ascii.
From S2P Require Import Prelude OrchTypes OrchPodman OrchFlow OrchServer.

(** Where a task is, with the container it holds. *)
Inductive Task :=
| Task_Acquire (session_id : string)
| Task_Ping (session_id : string) (c : ContainerInstance)
| Task_Replace (session_id : string) (c : ContainerInstance)
| Task_Create (session_id : string)
| Task_Insert (session_id : string) (c : ContainerInstance)
| Task_Check (c : ContainerInstance)
| Task_ReplaceStale (c : ContainerInstance)
| Task_Replenish (warm_id : string)
| Task_Unready (c : ContainerInstance)
| Task_Replenished (r : option ContainerInstance)
| Task_Discard (c : ContainerInstance)
| Task_Shutdown
| Task_ShutdownDiscard (c : ContainerInstance)
| Task_ShutdownWait.

(** ** Podman *)

(** The container that bears each name, and the one whose bridge listens at each socket. *)
Record Podman := { p_named : gmap string string; p_sockets : gmap string string }.

Definition unplug (id : string) (m : gmap string string) : gmap string string := filter (λ x, x.2 ≠ id) m.

(** A container ends. *)
Definition podman_rm (id : string) (p : Podman) : Podman :=
  {| p_named := unplug id (p_named p); p_sockets := unplug id (p_sockets p) |}.

(** [podman run --replace --name name]: the container that bears the name ends, and the bridge
    of the new one takes the socket. *)
Definition podman_run (name path id : string) (p : Podman) : Podman :=
  let p := match p_named p !! name with Some old => podman_rm old p | None => p end in
  {| p_named := <[name := id]> (p_named p); p_sockets := <[path := id]> (p_sockets p) |}.

(** The socket is removed, with its directory or by itself. *)
Definition socket_removed (path : string) (p : Podman) : Podman :=
  {| p_named := p_named p; p_sockets := delete path (p_sockets p) |}.

Section stock.
Context (runtime_dir : string) (process_id : Z).

Definition session_dir_of (session_id : string) : string :=
  path_join (path_join runtime_dir "sessions") (sanitize_session_dir_name session_id).

Definition socket_of (session_id : string) : string := path_join (session_dir_of session_id) BRIDGE_SOCKET_FILE_NAME.

(** The container with the id [id] made for an identifier. *)
Definition container_for (session_id id : string) : ContainerInstance :=
  {| ci_id := id; ci_name := sanitize_container_name session_id; ci_session_dir := session_dir_of session_id;
     ci_bridge_socket_path := socket_of session_id |}.

(** The pool, the container of each session, podman, the identifiers for which containers were
    started with the ids podman gave them, and whether the shutdown of the pool is over. *)
Record Stock := {
  k_pool : ContainerPoolState; k_sessions : gmap string ContainerInstance; k_podman : Podman;
  k_made : list (string * string); k_stopped : bool
}.

Definition with_pool (p : ContainerPoolState) (st : Stock) : Stock :=
  Build_Stock p (k_sessions st) (k_podman st) (k_made st) (k_stopped st).
Definition with_sessions (m : gmap string ContainerInstance) (st : Stock) : Stock :=
  Build_Stock (k_pool st) m (k_podman st) (k_made st) (k_stopped st).
Definition with_podman (p : Podman) (st : Stock) : Stock :=
  Build_Stock (k_pool st) (k_sessions st) p (k_made st) (k_stopped st).
Definition with_stopped (st : Stock) : Stock :=
  Build_Stock (k_pool st) (k_sessions st) (k_podman st) (k_made st) true.

(** Podman starts a container for an identifier. *)
Definition with_new (session_id id : string) (st : Stock) : Stock :=
  Build_Stock (k_pool st) (k_sessions st)
    (podman_run (sanitize_container_name session_id) (socket_of session_id) id (k_podman st))
    (k_made st ++ [(session_id, id)]) (k_stopped st).

(** [ensure_spare]: the task it spawns, if any. *)
Definition spawn (p : ContainerPoolState) : list Task * ContainerPoolState :=
  let '(id, p) := begin_replenish p in
  (match id with Some id => [Task_Replenish (warm_session_id process_id id)] | None => [] end, p).

Definition discard_task (o : option ContainerInstance) : list Task :=
  match o with Some c => [Task_Discard c] | None => [] end.

(** A move of a task: the tasks that are left of it and the new state. A container podman
    starts has an id it has not given out before; if its bridge does not get ready it is
    destroyed again. *)
Inductive move : Task → Stock → list Task → Stock → Prop :=
| move_spare sid st c p : take_spare (k_pool st) = (Some c, p) →
    move (Task_Acquire sid) st [Task_Ping sid c] (with_pool p st)
| move_no_spare sid st p ts p' : take_spare (k_pool st) = (None, p) → spawn p = (ts, p') →
    move (Task_Acquire sid) st (Task_Create sid :: ts) (with_pool p' st)
| move_ping_ok sid c st ts p : spawn (k_pool st) = (ts, p) →
    move (Task_Ping sid c) st (Task_Insert sid c :: ts) (with_pool p st)
| move_ping_failed sid c st : move (Task_Ping sid c) st [Task_Replace sid c] st
| move_replaced sid c st ts p : spawn (k_pool st) = (ts, p) →
    move (Task_Replace sid c) st (Task_Create sid :: ts) (with_pool p st)
| move_created sid id st : id ∉ (k_made st).*2 →
    move (Task_Create sid) st [Task_Insert sid (container_for sid id)] (with_new sid id st)
| move_unready sid id st : id ∉ (k_made st).*2 →
    move (Task_Create sid) st [Task_Discard (container_for sid id)] (with_new sid id st)
| move_not_created sid st : move (Task_Create sid) st [] st
| move_insert sid c st : k_sessions st !! sid = None →
    move (Task_Insert sid c) st [] (with_sessions (<[sid := c]> (k_sessions st)) st)
| move_exists sid c st : is_Some (k_sessions st !! sid) → move (Task_Insert sid c) st [Task_Discard c] st
| move_check_ok c st : move (Task_Check c) st [] st
| move_check_stale c st c' p : take_stale c (k_pool st) = (Some c', p) →
    move (Task_Check c) st [Task_ReplaceStale c'] (with_pool p st)
| move_check_gone c st p ts p' : take_stale c (k_pool st) = (None, p) → spawn p = (ts, p') →
    move (Task_Check c) st ts (with_pool p' st)
| move_stale_replaced c st ts p : spawn (k_pool st) = (ts, p) → move (Task_ReplaceStale c) st ts (with_pool p st)
| move_replenish wid id st : id ∉ (k_made st).*2 →
    move (Task_Replenish wid) st [Task_Replenished (Some (container_for wid id))] (with_new wid id st)
| move_replenish_unready wid id st : id ∉ (k_made st).*2 →
    move (Task_Replenish wid) st [Task_Unready (container_for wid id)] (with_new wid id st)
| move_unready_gone c st : move (Task_Unready c) st [Task_Replenished None] st
| move_not_replenished wid st : move (Task_Replenish wid) st [Task_Replenished None] st
| move_replenished r st o p : end_replenish r (k_pool st) = (o, p) →
    move (Task_Replenished r) st (discard_task o) (with_pool p st)
| move_discard c st : move (Task_Discard c) st [] st
| move_shutdown st o p : begin_shutdown (k_pool st) = (o, p) →
    move Task_Shutdown st [match o with Some c => Task_ShutdownDiscard c | None => Task_ShutdownWait end] (with_pool p st)
| move_shutdown_discard c st : move (Task_ShutdownDiscard c) st [Task_ShutdownWait] st
| move_shutdown_end st o p : cp_replenish_in_progress (k_pool st) = false → take_spare (k_pool st) = (o, p) →
    move Task_ShutdownWait st (discard_task o) (with_stopped (with_pool p st)).

(** The container a task destroys, and the identifier for which it makes one. *)
Definition destroys (t : Task) : option ContainerInstance :=
  match t with
  | Task_Replace _ c | Task_ReplaceStale c | Task_Unready c | Task_Discard c | Task_ShutdownDiscard c => Some c
  | _ => None
  end.

Definition makes (t : Task) : option string :=
  match t with Task_Create sid => Some sid | Task_Replenish wid => Some wid | _ => None end.

(** What happens in podman and in the directories, at any moment: while a task destroys a
    container, the container ends and its socket goes; while a task makes one, the socket of
    that identifier goes and the container of that name ends; and any container may end by
    itself. *)
Inductive podman_step (l : list Task) : Podman → Podman → Prop :=
| podman_ends id p : podman_step l p (podman_rm id p)
| podman_cleaned t c p : t ∈ l → destroys t = Some c → podman_step l p (socket_removed (ci_bridge_socket_path c) p)
| podman_prepared t sid p : t ∈ l → makes t = Some sid → podman_step l p (socket_removed (socket_of sid) p).

(** The process: a task moves, a session is asked for or taken away, the maintenance looks
    at the spare, the pool is to be shut down, or something happens in podman. *)
Inductive stock_step : list Task * Stock → list Task * Stock → Prop :=
| step_move t l1 l2 st ts st' : move t st ts st' → stock_step (l1 ++ t :: l2, st) (ts ++ l1 ++ l2, st')
| step_request sid l st : k_sessions st !! sid = None → stock_step (l, st) (Task_Acquire sid :: l, st)
| step_remove sid c l st : k_sessions st !! sid = Some c →
    stock_step (l, st) (Task_Discard c :: l, with_sessions (delete sid (k_sessions st)) st)
| step_tick_empty l st ts p : cp_spare (k_pool st) = None → spawn (k_pool st) = (ts, p) →
    stock_step (l, st) (ts ++ l, with_pool p st)
| step_tick c l st : cp_spare (k_pool st) = Some c → stock_step (l, st) (Task_Check c :: l, st)
| step_shutdown l st : stock_step (l, st) (Task_Shutdown :: l, st)
| step_podman l st p : podman_step l (k_podman st) p → stock_step (l, st) (l, with_podman p st).

Definition stock_new : Stock := Build_Stock pool_new ∅ {| p_named := ∅; p_sockets := ∅ |} [] false.

(** ** Who holds which container *)

Definition opt_id (o : option ContainerInstance) : list string := match o with Some c => [ci_id c] | None => [] end.

Definition task_ids (t : Task) : list string :=
  match t with
  | Task_Ping _ c | Task_Replace _ c | Task_Insert _ c | Task_ReplaceStale c | Task_Unready c | Task_Discard c
  | Task_ShutdownDiscard c => [ci_id c]
  | Task_Replenished r => opt_id r
  | _ => []
  end.

Fixpoint tasks_ids (l : list Task) : list string :=
  match l with [] => [] | t :: l => task_ids t ++ tasks_ids l end.

Definition session_ids (m : gmap string ContainerInstance) : list string := (λ x, ci_id x.2) <$> map_to_list m.

Definition kept_ids (st : Stock) : list string := opt_id (cp_spare (k_pool st)) ++ session_ids (k_sessions st).

Definition owned (l : list Task) (st : Stock) : list string := tasks_ids l ++ kept_ids st.

Definition is_replenisher (t : Task) : bool :=
  match t with Task_Replenish _ | Task_Unready _ | Task_Replenished _ => true | _ => false end.

Definition is_stopper (t : Task) : bool :=
  match t with Task_ShutdownDiscard _ | Task_ShutdownWait => true | _ => false end.

Definition replenishers (l : list Task) : nat := length (List.filter is_replenisher l).

Definition b2n (b : bool) : nat := if b then 1%nat else 0%nat.

Record stock_inv (l : list Task) (st : Stock) : Prop := {
  si_nodup : NoDup (owned l st);
  si_known : ∀ id, id ∈ owned l st → id ∈ (k_made st).*2;
  si_one : replenishers l = b2n (cp_replenish_in_progress (k_pool st));
  si_closing : cp_shutting_down (k_pool st) = true → cp_spare (k_pool st) = None;
  si_stopper : ∀ t, t ∈ l → is_stopper t = true → cp_shutting_down (k_pool st) = true;
  si_stopped : k_stopped st = true → cp_shutting_down (k_pool st) = true ∧ cp_replenish_in_progress (k_pool st) = false
}.

Lemma spawn_spec p ts p' : spawn p = (ts, p') →
  cp_spare p' = cp_spare p ∧ cp_shutting_down p' = cp_shutting_down p ∧ tasks_ids ts = [] ∧
  (replenishers ts + b2n (cp_replenish_in_progress p) = b2n (cp_replenish_in_progress p'))%nat ∧
  (∀ t, t ∈ ts → is_stopper t = false) ∧
  (cp_shutting_down p = true → cp_replenish_in_progress p' = cp_replenish_in_progress p).
Proof.
  unfold spawn, begin_replenish. destruct (_ || _ || _) eqn:E.
  - intros [= <- <-]. split_and!; try done. by intros t ?%not_elem_of_nil.
  - apply orb_false_iff in E as [[E1 E2]%orb_false_iff E3]. intros [= <- <-]. simpl. rewrite E1, E3. split_and!; try done.
    by intros t ->%list_elem_of_singleton.
Qed.

(** What a move does to the containers: some are let go, or one is new. *)
Definition moves_ids (t : Task) (st : Stock) (ts : list Task) (st' : Stock) : Prop :=
  (k_made st' = k_made st ∧ tasks_ids ts ++ kept_ids st' ⊆+ task_ids t ++ kept_ids st) ∨
  (∃ sid id, (id ∉ (k_made st).*2) ∧ k_made st' = k_made st ++ [(sid, id)] ∧
     tasks_ids ts ++ kept_ids st' ≡ₚ id :: task_ids t ++ kept_ids st).

Lemma session_ids_insert m sid c : m !! sid = None → session_ids (<[sid := c]> m) ≡ₚ ci_id c :: session_ids m.
Proof. intros Hm. unfold session_ids. by rewrite map_to_list_insert. Qed.

Lemma session_ids_delete m sid c : m !! sid = Some c → session_ids m ≡ₚ ci_id c :: session_ids (delete sid m).
Proof. intros Hm. unfold session_ids. by rewrite <- (map_to_list_delete m sid c Hm). Qed.


Lemma take_spare_spec p o p' : take_spare p = (o, p') →
  cp_spare p = o ∧ cp_spare p' = None ∧ cp_shutting_down p' = cp_shutting_down p ∧
  cp_replenish_in_progress p' = cp_replenish_in_progress p.
Proof. by intros [= <- <-]. Qed.

Lemma take_stale_spec c p o p' : take_stale c p = (o, p') →
  (∃ c', o = Some c' ∧ take_spare p = (o, p')) ∨ (o = None ∧ p' = p).
Proof.
  unfold take_stale. destruct (cp_spare p) as [s|] eqn:E; [|intros [= <- <-]; by right].
  destruct (String.eqb _ _); [|intros [= <- <-]; by right]. intros H. left. exists s.
  unfold take_spare in *. rewrite E in H. injection H as <- <-. by rewrite E.
Qed.

Ltac same_ids :=
  left; split; [done|];
  repeat match goal with
  | H : cp_spare _ = _ |- _ => rewrite H; clear H
  | H : tasks_ids _ = _ |- _ => rewrite H; clear H
  end; simpl; solve_submseteq.

(** The containers a move lets go or gets. *)
Lemma move_ids t st ts st' : move t st ts st' → moves_ids t st ts st'.
Proof.
  unfold moves_ids, kept_ids. destruct 1; simpl;
    repeat match goal with
    | H : spawn _ = _ |- _ => apply spawn_spec in H as (? & _ & ? & _ & _ & _)
    | H : take_spare _ = _ |- _ => apply take_spare_spec in H as (? & ? & _ & _)
    | H : take_stale _ _ = (Some _, _) |- _ =>
        apply take_stale_spec in H as [(? & [= ->] & (? & ? & _ & _)%take_spare_spec)|[? _]]; [|done]
    | H : take_stale _ _ = (None, _) |- _ => apply take_stale_spec in H as [(? & ? & _)|[_ ->]]; [done|]
    end; try (right; eexists _, _; by split_and!); try same_ids.
  - left. split; [done|]. rewrite session_ids_insert by done. solve_submseteq.
  - left. split; [done|]. unfold end_replenish in H. destruct r as [c|]; [|injection H as <- <-; simpl; solve_submseteq].
    simpl in H. destruct (cp_spare (k_pool st)) as [s|]; [|destruct (cp_shutting_down (k_pool st))];
      rewrite ?orb_true_r in H; simpl in H; injection H as <- <-; simpl; solve_submseteq.
  - left. split; [done|]. unfold begin_shutdown in H. injection H as <- <-.
    destruct (cp_spare (k_pool st)); simpl; solve_submseteq.
  - destruct o; same_ids.
Qed.

Lemma take_stale_flags c p o p' : take_stale c p = (o, p') →
  (cp_spare p = None → cp_spare p' = None) ∧ cp_shutting_down p' = cp_shutting_down p ∧
  cp_replenish_in_progress p' = cp_replenish_in_progress p.
Proof. intros [(c' & _ & (? & ? & ? & ?)%take_spare_spec)|[_ ->]]%take_stale_spec; by split_and!. Qed.

Lemma end_replenish_flags r p o p' : end_replenish r p = (o, p') →
  cp_shutting_down p' = cp_shutting_down p ∧ cp_replenish_in_progress p' = false ∧
  (cp_shutting_down p = true → cp_spare p' = cp_spare p).
Proof.
  unfold end_replenish. destruct r as [c|]; [|by intros [= <- <-]]. simpl.
  destruct (cp_shutting_down p) eqn:E; simpl; [by intros [= <- <-]|]. by destruct (cp_spare p); intros [= <- <-].
Qed.

Lemma begin_shutdown_flags p o p' : begin_shutdown p = (o, p') →
  cp_spare p' = None ∧ cp_shutting_down p' = true ∧ cp_replenish_in_progress p' = cp_replenish_in_progress p.
Proof. by intros [= <- <-]. Qed.

(** What a move does to the flags of the pool. *)
Record moves_flags (t : Task) (st : Stock) (ts : list Task) (st' : Stock) : Prop := {
  mf_count : (is_replenisher t = true → cp_replenish_in_progress (k_pool st) = true) →
    (replenishers ts + b2n (cp_replenish_in_progress (k_pool st))
       = b2n (is_replenisher t) + b2n (cp_replenish_in_progress (k_pool st')))%nat;
  mf_closing : (cp_shutting_down (k_pool st) = true → cp_spare (k_pool st) = None) →
    cp_shutting_down (k_pool st') = true → cp_spare (k_pool st') = None;
  mf_shutting : cp_shutting_down (k_pool st) = true → cp_shutting_down (k_pool st') = true;
  mf_stopper : (is_stopper t = true → cp_shutting_down (k_pool st) = true) →
    ∀ t', t' ∈ ts → is_stopper t' = true → cp_shutting_down (k_pool st') = true;
  mf_stopped : (is_stopper t = true → cp_shutting_down (k_pool st) = true) →
    (k_stopped st = true → cp_shutting_down (k_pool st) = true ∧ cp_replenish_in_progress (k_pool st) = false) →
    k_stopped st' = true → cp_shutting_down (k_pool st') = true ∧ cp_replenish_in_progress (k_pool st') = false
}.

Ltac flags :=
  repeat match goal with
  | H : spawn _ = _ |- _ =>
      let Hst := fresh "Hst" in apply spawn_spec in H as (? & ? & _ & ? & Hst & ?)
  | H : take_spare _ = _ |- _ => apply take_spare_spec in H as (_ & ? & ? & ?)
  | H : take_stale _ _ = _ |- _ => apply take_stale_flags in H as (? & ? & ?)
  | H : end_replenish _ _ = _ |- _ => apply end_replenish_flags in H as (? & ? & ?)
  | H : begin_shutdown _ = _ |- _ => apply begin_shutdown_flags in H as (? & ? & ?)
  end.

Lemma replenishers_cons t l : replenishers (t :: l) = (b2n (is_replenisher t) + replenishers l)%nat.
Proof. unfold replenishers. simpl. by destruct (is_replenisher t). Qed.

Lemma replenishers_app l1 l2 : replenishers (l1 ++ l2) = (replenishers l1 + replenishers l2)%nat.
Proof. unfold replenishers. by rewrite List.filter_app, length_app. Qed.

Ltac orient :=
  repeat match goal with
  | H : cp_spare ?p = cp_spare _ |- _ => rewrite H in *; clear H
  | H : cp_shutting_down ?p = cp_shutting_down _ |- _ => rewrite H in *; clear H
  | H : cp_replenish_in_progress ?p = cp_replenish_in_progress _ |- _ => rewrite H in *; clear H
  | H : cp_replenish_in_progress ?p = false |- _ => rewrite H in *; clear H
  end.

Lemma move_flags t st ts st' : move t st ts st' → moves_flags t st ts st'.
Proof.
  destruct 1; try destruct o as [oc|]; flags; split; simpl in *; orient; try done.
  all: try (intros Hr; rewrite ?(Hr eq_refl), ?replenishers_cons; change (replenishers []) with 0%nat; simpl; lia).
  all: try (intros Hk t' [->|Hin]%elem_of_cons; [done|]; by rewrite (Hst t' Hin)).
  all: try (intros Hk t' Hin; by rewrite (Hst t' Hin)).
  all: try (intros Hk t' Hin; by apply not_elem_of_nil in Hin).
  all: try (by intros Hk t' ->%list_elem_of_singleton).
  all: try (intuition congruence).
Qed.

(** ** The invariant *)

Lemma tasks_ids_app l1 l2 : tasks_ids (l1 ++ l2) = tasks_ids l1 ++ tasks_ids l2.
Proof. induction l1 as [|t l IH]; [done|]. simpl. by rewrite IH, (assoc_L (++)). Qed.

Lemma owned_split l1 t l2 st : owned (l1 ++ t :: l2) st ≡ₚ tasks_ids (l1 ++ l2) ++ task_ids t ++ kept_ids st.
Proof. unfold owned. rewrite !tasks_ids_app. simpl. solve_Permutation. Qed.

Lemma owned_app ts l st : owned (ts ++ l) st ≡ₚ tasks_ids l ++ tasks_ids ts ++ kept_ids st.
Proof. unfold owned. rewrite tasks_ids_app. solve_Permutation. Qed.

(** Containers are let go, or one that podman has not given out before comes in. *)
Definition fair (ids : list string) (made : list (string * string)) (ids' : list string) (made' : list (string * string)) : Prop :=
  (made' = made ∧ ids' ⊆+ ids) ∨ (∃ sid i, (i ∉ made.*2) ∧ made' = made ++ [(sid, i)] ∧ ids' ≡ₚ i :: ids).

Lemma fair_keeps ids made ids' made' :
  fair ids made ids' made' → NoDup ids ∧ (∀ i, i ∈ ids → i ∈ made.*2) → NoDup ids' ∧ (∀ i, i ∈ ids' → i ∈ made'.*2).
Proof.
  intros [[-> Hs]|(sid & i & Hi & -> & Hp)] [Hn Hk].
  - split; [apply submseteq_Permutation in Hs as [m Hm]; rewrite Hm in Hn; by apply NoDup_app in Hn as [? _]|]. intros i Hi. apply Hk. by eapply elem_of_submseteq.
  - rewrite Hp. split; [constructor; [|done]; by intros ?%Hk|]. intros j. rewrite Hp, elem_of_cons, fmap_app, elem_of_app.
    intros [->|Hj]; [right; by left|left; by apply Hk].
Qed.

Lemma step_fair x y : stock_step x y → fair (owned x.1 x.2) (k_made x.2) (owned y.1 y.2) (k_made y.2).
Proof.
  destruct 1 as [t l1 l2 st ts st' Hm|sid l st Hs|sid c l st Hs|l st ts p Hn Hsp|c l st Hs|l st|l st p Hp]; simpl.
  - apply move_ids in Hm as [[Hk Hs]|(sid & id & Hc & Hk & Hp)].
    + left. split; [done|]. rewrite owned_split, owned_app. by apply submseteq_skips_l.
    + right. exists sid, id. split_and!; [done..|]. rewrite owned_split, owned_app, Hp. solve_Permutation.
  - by left.
  - left. split; [done|]. unfold owned, kept_ids. simpl. rewrite (session_ids_delete _ _ _ Hs). solve_submseteq.
  - left. split; [done|]. apply spawn_spec in Hsp as (Hsp & _ & Ht & _). unfold owned, kept_ids. simpl.
    rewrite tasks_ids_app, Ht, Hsp. done.
  - by left.
  - by left.
  - by left.
Qed.

(** A replenisher among the tasks is the one the flag stands for. *)
Lemma replenisher_in l t b : replenishers l = b2n b → t ∈ l → is_replenisher t = true → b = true.
Proof.
  intros Hc Hin Ht. destruct b; [done|]. apply list_elem_of_split in Hin as (l1 & l2 & ->).
  rewrite replenishers_app, replenishers_cons, Ht in Hc. simpl in Hc. lia.
Qed.

Lemma stock_inv_step x y : stock_step x y → stock_inv x.1 x.2 → stock_inv y.1 y.2.
Proof.
  intros Hstep [Hnd Hkn Hone Hcl Hst Hsp]. pose proof (fair_keeps _ _ _ _ (step_fair _ _ Hstep) (conj Hnd Hkn)) as [Hnd' Hkn'].
  destruct Hstep as [t l1 l2 st ts st' Hm|sid l st Hs|sid c l st Hs|l st ts p Hn Hs|c l st Hs|l st|l st p Hp]; simpl in *.
  - apply move_flags in Hm as [Hc1 Hc2 Hc3 Hc4 Hc5].
    assert (t ∈ l1 ++ t :: l2) as Hin by set_solver.
    specialize (Hc1 (replenisher_in _ _ _ Hone Hin)). specialize (Hc4 (Hst t Hin)). specialize (Hc5 (Hst t Hin) Hsp).
    split; try done; [|auto|].
    + rewrite !replenishers_app in *. rewrite replenishers_cons in Hone. lia.
    + intros t' [Hin'|Hin']%elem_of_app Ht'; [by eapply Hc4|]. apply Hc3, (Hst t'); [set_solver|done].
  - split; try done. intros t [->|Hin]%elem_of_cons; [done|]. by apply Hst.
  - split; try done. intros t [->|Hin]%elem_of_cons; [done|]. by apply Hst.
  - apply spawn_spec in Hs as (H1 & H2 & _ & H3 & H4 & H5). split; try done; simpl.
    + rewrite replenishers_app. lia.
    + rewrite H1, H2. done.
    + intros t [Hin|Hin]%elem_of_app Ht; [by rewrite (H4 t Hin) in Ht|]. rewrite H2. by apply (Hst t).
    + intros [Ha Hb]%Hsp. rewrite H2, H5 by done. done.
  - split; try done. intros t [->|Hin]%elem_of_cons; [done|]. by apply Hst.
  - split; try done. intros t [->|Hin]%elem_of_cons; [done|]. by apply Hst.
  - by split.
Qed.

Lemma stock_inv_steps x y : rtc stock_step x y → stock_inv x.1 x.2 → stock_inv y.1 y.2.
Proof. induction 1 as [x|x y z Hs _ IH]; [done|]. intros Hx. by eapply IH, stock_inv_step. Qed.

Lemma stock_reach x : rtc stock_step ([], stock_new) x → stock_inv x.1 x.2.
Proof.
  intros H%stock_inv_steps. apply H.
  split; try done; try apply NoDup_nil_2; by intros t ?%not_elem_of_nil.
Qed.

(** ** Sockets *)

(** The containers somebody has. *)
Definition opt_held (o : option ContainerInstance) : list ContainerInstance :=
  match o with Some c => [c] | None => [] end.

Definition task_held (t : Task) : list ContainerInstance :=
  match t with
  | Task_Ping _ c | Task_Replace _ c | Task_Insert _ c | Task_Check c | Task_ReplaceStale c | Task_Unready c
  | Task_Discard c | Task_ShutdownDiscard c => [c]
  | Task_Replenished r => opt_held r
  | _ => []
  end.

Definition held (l : list Task) (st : Stock) (c : ContainerInstance) : Prop :=
  (∃ t, t ∈ l ∧ c ∈ task_held t) ∨ cp_spare (k_pool st) = Some c ∨ ∃ sid, k_sessions st !! sid = Some c.

(** Whoever listens at a socket was started for an identifier with that socket, and so was
    each container somebody has; podman gives no id out twice. *)
Record plugged (l : list Task) (st : Stock) : Prop := {
  pl_sockets path id : p_sockets (k_podman st) !! path = Some id → ∃ sid, (sid, id) ∈ k_made st ∧ path = socket_of sid;
  pl_held c : held l st c → ∃ sid id, (sid, id) ∈ k_made st ∧ c = container_for sid id;
  pl_ids : NoDup (k_made st).*2
}.

Lemma unplug_lookup id m k x : unplug id m !! k = Some x → m !! k = Some x.
Proof. unfold unplug. by intros [? _]%map_lookup_filter_Some. Qed.

Lemma run_sockets name path id p k x :
  p_sockets (podman_run name path id p) !! k = Some x → (k = path ∧ x = id) ∨ p_sockets p !! k = Some x.
Proof.
  unfold podman_run. simpl. intros [[<- <-]|[_ Hk]]%lookup_insert_Some; [by left|right].
  revert Hk. destruct (p_named p !! name); simpl; [apply unplug_lookup|done].
Qed.

Lemma podman_step_sockets l p p' k x : podman_step l p p' → p_sockets p' !! k = Some x → p_sockets p !! k = Some x.
Proof. destruct 1; simpl; [apply unplug_lookup|by intros [_ ?]%lookup_delete_Some..]. Qed.

(** What a move does to the containers somebody has, and to the sockets. *)
Lemma spawn_held p ts p' : spawn p = (ts, p') → cp_spare p' = cp_spare p ∧ ∀ t c, t ∈ ts → c ∉ task_held t.
Proof.
  unfold spawn, begin_replenish. destruct (_ || _ || _); intros [= <- <-]; (split; [done|]).
  - by intros t c ?%not_elem_of_nil.
  - intros t c ->%list_elem_of_singleton. apply not_elem_of_nil.
Qed.

Definition kept_held (st : Stock) (c : ContainerInstance) : Prop :=
  cp_spare (k_pool st) = Some c ∨ ∃ sid, k_sessions st !! sid = Some c.

Lemma stock_ids_insert (m : gmap string ContainerInstance) sid c c' :
  (∃ sid', <[sid := c]> m !! sid' = Some c') → c' = c ∨ ∃ sid', m !! sid' = Some c'.
Proof. intros [sid' [[_ <-]|[_ H]]%lookup_insert_Some]; [by left|right; eauto]. Qed.

Lemma discard_held o t c : t ∈ discard_task o → c ∈ task_held t → o = Some c.
Proof. destruct o as [c'|]; [|by intros ?%not_elem_of_nil]. by intros ->%list_elem_of_singleton ->%list_elem_of_singleton. Qed.

Lemma end_replenish_held r p o p' : end_replenish r p = (o, p') →
  (∀ c, o = Some c → r = Some c) ∧ (∀ c, cp_spare p' = Some c → r = Some c ∨ cp_spare p = Some c).
Proof.
  unfold end_replenish. destruct r as [c|]; [|intros [= <- <-]; naive_solver]. simpl.
  destruct (cp_shutting_down p); simpl; [intros [= <- <-]; naive_solver|].
  destruct (cp_spare p); intros [= <- <-]; naive_solver.
Qed.

Lemma begin_shutdown_held p o p' : begin_shutdown p = (o, p') → cp_spare p = o ∧ cp_spare p' = None.
Proof. by intros [= <- <-]. Qed.

Ltac held_tac :=
  repeat match goal with
  | H : spawn _ = _ |- _ => let Hs := fresh "Hs" in let Ht := fresh "Ht" in apply spawn_held in H as [Hs Ht]
  | H : take_spare _ = _ |- _ => let Hs := fresh "Hs" in let Hn := fresh "Hn" in apply take_spare_spec in H as (Hs & Hn & _ & _)
  | H : take_stale _ _ = (Some _, _) |- _ =>
      let Hs := fresh "Hs" in let Hn := fresh "Hn" in
      apply take_stale_spec in H as [(? & [= ->] & (Hs & Hn & _ & _)%take_spare_spec)|[? _]]; [|done]
  | H : take_stale _ _ = (None, _) |- _ => apply take_stale_spec in H as [(? & ? & _)|[_ ->]]; [done|]
  | H : end_replenish _ _ = _ |- _ => let Ho := fresh "Ho" in let Hp := fresh "Hp" in apply end_replenish_held in H as [Ho Hp]
  | H : begin_shutdown _ = _ |- _ => let Ho := fresh "Ho" in let Hp := fresh "Hp" in apply begin_shutdown_held in H as [Ho Hp]
  end.

Lemma move_held t st ts st' c : move t st ts st' →
  (∃ t', t' ∈ ts ∧ c ∈ task_held t') ∨ kept_held st' c →
  (c ∈ task_held t ∨ kept_held st c) ∨ ∃ sid id, k_made st' = k_made st ++ [(sid, id)] ∧ c = container_for sid id.
Proof.
  intros Hm. unfold kept_held. destruct Hm; held_tac; simpl; intros Hc.
  all: repeat match goal with
    | Hc : _ ∨ _ |- _ => destruct Hc as [Hc|Hc]
    | Hc : ∃ t', t' ∈ _ :: _ ∧ _ |- _ => destruct Hc as (t' & [->|Ht']%elem_of_cons & Hc)
    | Ht' : _ ∈ [] |- _ => by apply not_elem_of_nil in Ht'
    | Hc : ∃ t', _ ∧ _ |- _ => destruct Hc as (t' & Ht' & Hc)
    | Hc : _ ∈ task_held _ |- _ => progress simpl in Hc
    | Hc : _ ∈ [_] |- _ => apply list_elem_of_singleton in Hc as ->
    end.
  all: try (left; right; by eauto).
  all: try (left; left; by apply list_elem_of_singleton).
  all: try (right; eexists _, _; by split).
  all: try congruence.
  all: try (exfalso; by eapply Ht).
  all: try (left; right; left; congruence).
  - apply stock_ids_insert in Hc as [->|Hc]; left; [left; by apply list_elem_of_singleton|right; by right].
  - left. left. rewrite (Ho c (discard_held _ _ _ Ht' Hc)). by apply list_elem_of_singleton.
  - destruct (Hp c Hc) as [->|?]; left; [left; by apply list_elem_of_singleton|right; by left].
  - destruct o as [c0|]; simpl in Hc; [apply list_elem_of_singleton in Hc as ->; left; right; by left|by apply not_elem_of_nil in Hc].
  - left. right. left. by rewrite Hs, (discard_held _ _ _ Ht' Hc).
Qed.

Lemma move_sockets t st ts st' path id : move t st ts st' → p_sockets (k_podman st') !! path = Some id →
  p_sockets (k_podman st) !! path = Some id ∨ ∃ sid, k_made st' = k_made st ++ [(sid, id)] ∧ path = socket_of sid.
Proof.
  intros Hm. destruct Hm; simpl; try by left.
  all: intros [[-> ->]|?]%run_sockets; [right; by eexists|by left].
Qed.

Lemma plugged_made l st l' st' :
  plugged l st → k_made st' = k_made st ∨ (∃ sid id, (id ∉ (k_made st).*2) ∧ k_made st' = k_made st ++ [(sid, id)]) →
  (∀ path id, p_sockets (k_podman st') !! path = Some id → p_sockets (k_podman st) !! path = Some id ∨
     ∃ sid, k_made st' = k_made st ++ [(sid, id)] ∧ path = socket_of sid) →
  (∀ c, held l' st' c → held l st c ∨ ∃ sid id, k_made st' = k_made st ++ [(sid, id)] ∧ c = container_for sid id) →
  plugged l' st'.
Proof.
  intros [Hs Hh Hn] Hm Hs' Hh'. assert (∀ x, x ∈ k_made st → x ∈ k_made st') as Hsub.
  { destruct Hm as [->|(sid & id & _ & ->)]; [done|]. intros x Hx. apply elem_of_app. by left. }
  assert (∀ sid id, k_made st' = k_made st ++ [(sid, id)] → (sid, id) ∈ k_made st') as Hnew.
  { intros sid id ->. apply elem_of_app. right. by apply list_elem_of_singleton. }
  split.
  - intros path id [(sid & Hin & ->)%Hs|(sid & Hk & ->)]%Hs'; exists sid; auto.
  - intros c [(sid & id & Hin & ->)%Hh|(sid & id & Hk & ->)]%Hh'; exists sid, id; auto.
  - destruct Hm as [->|(sid & id & Hf & ->)]; [done|]. rewrite fmap_app. apply NoDup_app. split; [done|].
    split; [|apply NoDup_singleton]. by intros i Hi ->%list_elem_of_singleton.
Qed.

Lemma plugged_step x y : stock_step x y → plugged x.1 x.2 → plugged y.1 y.2.
Proof.
  destruct 1 as [t l1 l2 st ts st' Hm|sid l st Hs|sid c l st Hs|l st ts p Hn Hsp|c l st Hs|l st|l st p Hp]; simpl; intros Hpl;
    apply (plugged_made _ _ _ _ Hpl); try (by left); simpl; try (intros path id ?; by left).
  - apply move_ids in Hm as [[Hk _]|(sid & id & Hc & Hk & _)]; [by left|right; eauto].
  - intros path id. by eapply move_sockets.
  - intros c Hc. assert (((∃ t', t' ∈ ts ∧ c ∈ task_held t') ∨ kept_held st' c) ∨ ∃ t', t' ∈ l1 ++ l2 ∧ c ∈ task_held t') as [Hc'|(t' & Hin & Hc')].
    { destruct Hc as [(t' & [Hin|Hin]%elem_of_app & Hc)|Hc]; unfold kept_held; eauto 8. }
    + destruct (move_held _ _ _ _ _ Hm Hc') as [[Ht|Hk]|Hnew]; [left; left; exists t; set_solver|by left; right|by right].
    + left. left. exists t'. set_solver.
  - intros c [(t' & [->|Hin]%elem_of_cons & Hc)|Hc]; [by apply not_elem_of_nil in Hc|left; left; eauto|by left; right].
  - intros c' [(t' & [->|Hin]%elem_of_cons & Hc)|[Hc|[sid' Hc]]].
    + apply list_elem_of_singleton in Hc as ->. left. right. right. eauto.
    + left. left. eauto.
    + left. right. by left.
    + simpl in Hc. apply lookup_delete_Some in Hc as [_ Hc]. left. right. right. eauto.
  - apply spawn_held in Hsp as [Hsp Ht]. intros c [(t' & [Hin|Hin]%elem_of_app & Hc)|[Hc|Hc]].
    + by destruct (Ht t' c).
    + left. left. eauto.
    + left. right. left. simpl in Hc. congruence.
    + left. right. by right.
  - intros c' [(t' & [->|Hin]%elem_of_cons & Hc)|Hc]; [|left; left; eauto|by left; right].
    apply list_elem_of_singleton in Hc as ->. left. right. by left.
  - intros c' [(t' & [->|Hin]%elem_of_cons & Hc)|Hc]; [by apply not_elem_of_nil in Hc|left; left; eauto|by left; right].
  - intros path id Hk. left. by eapply podman_step_sockets.
Qed.

Lemma plugged_reach x : rtc stock_step ([], stock_new) x → plugged x.1 x.2.
Proof.
  assert (∀ x y, rtc stock_step x y → plugged x.1 x.2 → plugged y.1 y.2) as Hr.
  { induction 1 as [z|z y z' Hs _ IH]; [done|]. intros Hx. by eapply IH, plugged_step. }
  intros H%Hr. apply H. split.
  - intros path id. simpl. by rewrite lookup_empty.
  - intros c [(t & Hin & _)|[Hc|[sid Hc]]]; [by apply not_elem_of_nil in Hin|done|simpl in Hc; by rewrite lookup_empty in Hc].
  - apply NoDup_nil_2.
Qed.

(** Of identifiers with different sockets, each has one container. *)
Lemma made_unique (made : list (string * string)) sid1 sid2 id1 id2 :
  NoDup ((λ m, socket_of m.1) <$> made) → (sid1, id1) ∈ made → (sid2, id2) ∈ made → socket_of sid1 = socket_of sid2 → id1 = id2.
Proof.
  intros Hn [i Hi]%list_elem_of_lookup [j Hj]%list_elem_of_lookup He.
  assert (i = j) as -> by (eapply (NoDup_lookup _ i j (socket_of sid1) Hn); rewrite list_lookup_fmap, ?Hi, ?Hj; simpl; congruence).
  congruence.
Qed.

(** C23. Two sessions never share a browser, unless their sanitised identifiers collide. However
    the creation, the cancellation and the cleaning up of sessions, the checks and the
    replenishment of the spare, the shutdown and what podman does are interleaved, every
    container has at most one holder: the containers of two sessions are different, and the
    spare and a container somebody is about to use or remove belong to no session. At most one
    replenishment runs at a time, and once the pool has been shut down there is no spare and
    none is being made. And as long as no two containers were started for identifiers with the
    same socket, whoever listens at the socket of a session is the session's own container, and
    two sessions have different sockets. *)
Theorem container_single_owner l st :
  rtc stock_step ([], stock_new) (l, st) →
  (∀ sid1 sid2 c1 c2, k_sessions st !! sid1 = Some c1 → k_sessions st !! sid2 = Some c2 → ci_id c1 = ci_id c2 → sid1 = sid2) ∧
  (∀ sid c, k_sessions st !! sid = Some c → ci_id c ∉ opt_id (cp_spare (k_pool st)) ++ tasks_ids l) ∧
  (replenishers l ≤ 1)%nat ∧
  (k_stopped st = true → cp_spare (k_pool st) = None ∧ replenishers l = 0%nat ∧ (spawn (k_pool st)).1 = []) ∧
  (NoDup ((λ m, socket_of m.1) <$> k_made st) →
     (∀ sid c id, k_sessions st !! sid = Some c → p_sockets (k_podman st) !! ci_bridge_socket_path c = Some id → id = ci_id c) ∧
     (∀ sid1 sid2 c1 c2, k_sessions st !! sid1 = Some c1 → k_sessions st !! sid2 = Some c2 →
        ci_bridge_socket_path c1 = ci_bridge_socket_path c2 → sid1 = sid2)).
Proof.
  intros Hr. pose proof (plugged_reach _ Hr) as [Hsk Hh _]. apply stock_reach in Hr as [Hnd Hkn Hone Hcl Hst Hsp]. simpl in *.
  assert (∀ sid1 sid2 c1 c2, k_sessions st !! sid1 = Some c1 → k_sessions st !! sid2 = Some c2 → ci_id c1 = ci_id c2 → sid1 = sid2)
    as Hids.
  { intros sid1 sid2 c1 c2 H1 H2 Hid. destruct (decide (sid1 = sid2)) as [|Hne]; [done|]. exfalso.
    unfold owned, kept_ids in Hnd. apply NoDup_app in Hnd as (_ & _ & (_ & _ & Hnd)%NoDup_app).
    rewrite (session_ids_delete _ _ _ H1) in Hnd. apply NoDup_cons in Hnd as [Hn _]. apply Hn. rewrite Hid.
    rewrite (session_ids_delete _ sid2 c2); [by left|]. by rewrite lookup_delete_ne. }
  split_and!; [done|..].
  - intros sid c Hs Hin. unfold owned, kept_ids in Hnd. rewrite (session_ids_delete _ _ _ Hs) in Hnd.
    apply NoDup_Permutation_proper with (y := ci_id c :: (opt_id (cp_spare (k_pool st)) ++ tasks_ids l) ++ session_ids (delete sid (k_sessions st))) in Hnd;
      [|solve_Permutation]. apply NoDup_cons in Hnd as [Hn _]. apply Hn, elem_of_app. by left.
  - rewrite Hone. destruct (cp_replenish_in_progress _); simpl; lia.
  - intros [Hsd Hrp]%Hsp. split_and!; [by apply Hcl|by rewrite Hone, Hrp|]. unfold spawn, begin_replenish. by rewrite Hsd.
  - intros Hun. assert (∀ sid c, k_sessions st !! sid = Some c → held l st c) as Hheld by (intros; right; right; eauto).
    split.
    + intros sid c id Hs Hp. destruct (Hh c (Hheld _ _ Hs)) as (m & i & Hm & ->). destruct (Hsk _ _ Hp) as (m' & Hm' & He).
      by eapply (made_unique _ m' m).
    + intros sid1 sid2 c1 c2 H1 H2 He. apply (Hids _ _ _ _ H1 H2).
      destruct (Hh _ (Hheld _ _ H1)) as (m1 & i1 & Hm1 & ->), (Hh _ (Hheld _ _ H2)) as (m2 & i2 & Hm2 & ->).
      by eapply (made_unique _ m1 m2).
Qed.

End stock.
