(* ===== verification/OrchDialogue.v ===== *)
(** * The daemon and the orchestrator together

    The OIDC provider of the daemon ([openidconnect.rs]) asks the user for what the
    orchestrator ([flow.rs]) says it needs, and sends the answers back. Both sides declare
    the messages on their own; serde gives the same JSON for both. *)
From stdpp Require Import base gmap strings list fin_maps.
From Stdlib Require Import ZArith Lia Ascii.
From S2P Require Import Prelude Proto Interface Config Pam Oidc OidcTheorems OrchTypes OrchPodman OrchFlow OrchServer OrchFacts OrchTheorems.

Open Scope rust_scope.

(** ** The messages on the wire *)

Definition wire_type (t : InputType) : OrchestratorInputType :=
  match t with
  | InputType_Text => OrchText | InputType_Password => OrchPassword
  | InputType_Otp => OrchOtp | InputType_Confirmation => OrchConfirmation
  end.

Definition wire_required (i : RequiredInput) : OrchestratorRequiredInput :=
  {| ri_name := rq_name i; ri_input_type := wire_type (rq_input_type i); ri_prompt := rq_prompt i; ri_optional := rq_optional i |}.

Definition wire_provided (i : OrchestratorProvidedInput) : ProvidedInput :=
  {| pi_name := oi_name i; pi_value := oi_value i |}.

(** ** An answer for every request *)

Lemma is_input_one kinds input : is_input kinds input = true ↔ ri_input_type input ∈ kinds.
Proof. unfold is_input. by rewrite bool_decide_eq_true. Qed.

(** What is sent for an answer is not nothing, and goes to inputs that are required. *)
Lemma answer_provides inputs secs req kinds cred :
  inputs ≠ [] → answers (auth_request_from_orchestrator_inputs inputs secs) req kinds cred →
  ∃ p provided, orchestrator_inputs_from_pam_request req inputs = Ok (p :: provided) ∧
    (length (p :: provided) ≤ length inputs)%nat ∧
    ∀ q, q ∈ p :: provided → oi_value q = cred ∧ oi_name q ∈ ri_name <$> inputs.
Proof.
  intros Hne Ha.
  assert (∀ input, List.find (is_input kinds) inputs = Some input → provide kinds inputs cred = orchestrator_inputs_from_pam_request req inputs →
    ∃ p provided, orchestrator_inputs_from_pam_request req inputs = Ok (p :: provided) ∧
    (length (p :: provided) ≤ length inputs)%nat ∧
    ∀ q, q ∈ p :: provided → oi_value q = cred ∧ oi_name q ∈ ri_name <$> inputs) as Hone.
  { intros input Hf He. rewrite <- He, (provide_found _ _ _ _ Hf). apply find_input in Hf as [Hin _].
    eexists _, []. split; [done|]. split; [destruct inputs; [done|simpl; lia]|]. intros q ->%list_elem_of_singleton. split; [done|]. simpl. by apply list_elem_of_fmap_2. }
  unfold auth_request_from_orchestrator_inputs in Ha. destruct (existsb (is_input [OrchPassword]) inputs) eqn:Hp.
  { inversion Ha; subst. apply existsb_find in Hp as [input Hf]. by eapply Hone. }
  destruct (List.find (is_input [OrchOtp; OrchText]) inputs) as [i|] eqn:Hc.
  { inversion Ha; subst. by eapply Hone. }
  assert (kinds = [OrchConfirmation] ∧ cred = "true" ∧ ∃ n, req = PamAuthRequest_MFAPoll n) as (-> & -> & n & ->).
  { destruct (List.find (is_input [OrchConfirmation]) inputs); inversion Ha; subst; eauto. }
  assert (∀ i, i ∈ inputs → is_input [OrchConfirmation] i = true) as Hall.
  { intros i Hi. apply is_input_one, list_elem_of_singleton. destruct (ri_input_type i) eqn:Ht; [| | |done].
    - eapply find_none in Hc; [|by apply list_elem_of_In]. exfalso. apply not_true_iff_false in Hc. apply Hc, is_input_one. rewrite Ht. set_solver.
    - exfalso. apply not_true_iff_false in Hp. apply Hp, existsb_exists. exists i. split; [by apply list_elem_of_In|].
      apply is_input_one. rewrite Ht. set_solver.
    - eapply find_none in Hc; [|by apply list_elem_of_In]. exfalso. apply not_true_iff_false in Hc. apply Hc, is_input_one. rewrite Ht. set_solver. }
  simpl. rewrite filter_all by done. set (f := λ input, {| oi_name := ri_name input; oi_value := "true" |}).
  assert (∀ q, q ∈ f <$> inputs → oi_value q = "true" ∧ oi_name q ∈ ri_name <$> inputs) as Hf.
  { intros q (j & -> & Hj)%list_elem_of_fmap_1. split; [done|]. by apply (list_elem_of_fmap_2 ri_name). }
  destruct inputs as [|i l]; [done|]. eexists _, _. split; [done|]. split; [change (length (f <$> i :: l) ≤ length (i :: l))%nat; by rewrite length_fmap|exact Hf].
Qed.

(** ** What is missing *)

Lemma missing_insert inputs step n v : collected_is_empty v = false →
  missing_inputs (<[n := v]> inputs) step = List.filter (λ r, negb (String.eqb (in_name r) n)) (missing_inputs inputs step).
Proof.
  intros Hv. unfold missing_inputs. rewrite filter_filter. apply List.filter_ext. intros r.
  destruct (String.eqb_spec (in_name r) n) as [->|Hne]; simpl.
  - rewrite lookup_insert_eq, Hv. by rewrite !andb_false_r.
  - rewrite lookup_insert_ne by done. by rewrite andb_true_r.
Qed.

Lemma missing_length inputs step : (length (missing_inputs inputs step) ≤ length (ps_required_inputs step))%nat.
Proof. apply List.filter_length_le. Qed.

Lemma filter_length_lt {A} (f : A → bool) l x : x ∈ l → f x = false → (length (List.filter f l) < length l)%nat.
Proof.
  intros Hin Hf. induction l as [|y l IH]; [by apply not_elem_of_nil in Hin|]. simpl.
  pose proof (List.filter_length_le f l). apply elem_of_cons in Hin as [->|Hin]; [rewrite Hf; lia|].
  specialize (IH Hin). destruct (f y); simpl; lia.
Qed.

Lemma missing_collect_le names inputs step provided :
  Forall (λ p, pi_value p ≠ "") provided →
  (length (missing_inputs (foldl (collect names) inputs provided) step) ≤ length (missing_inputs inputs step))%nat.
Proof.
  revert inputs. induction provided as [|p l IH]; intros inputs Hf; [done|]. inversion Hf as [|? ? Hp Hl]; subst. simpl.
  etrans; [by apply IH|]. unfold collect. rewrite missing_insert by (by apply String.eqb_neq). apply List.filter_length_le.
Qed.

Lemma missing_collect_lt names inputs step p provided :
  Forall (λ p, pi_value p ≠ "") (p :: provided) → pi_name p ∈ in_name <$> missing_inputs inputs step →
  (length (missing_inputs (foldl (collect names) inputs (p :: provided)) step) < length (missing_inputs inputs step))%nat.
Proof.
  intros Hf (r & Hr & Hin)%list_elem_of_fmap. inversion Hf as [|? ? Hp Hl]; subst. simpl.
  eapply Nat.le_lt_trans; [by apply missing_collect_le|]. unfold collect.
  rewrite missing_insert by (by apply String.eqb_neq). eapply filter_length_lt; [done|]. by rewrite Hr, String.eqb_refl.
Qed.

Section dialogue.
Context {W : Type} {OE : OrchEnv W} {DO : DefinitionOps} {I : IniFile} {FC : FlowCodecOps}.
Context (podman : PodmanClient) (registry : Registry) (cfg : HimmelblauConfig).

(** The names in the response are those that are missing. *)
Lemma response_names l (s : Flow W) ri s' : response_inputs podman l s = (Done ri, s') → rq_name <$> ri = in_name <$> l.
Proof.
  revert s ri s'. induction l as [|i l IH]; intros s ri s'; simpl; [by intros [= <- _]|]. unfold mbind, OrcM_bind.
  destruct (resolve_required_input_prompt podman (in_prompt i) s) as [[p|e| |] s1]; try done.
  destruct (response_inputs podman l s1) as [[ri'|e| |] s2] eqn:E; try done. intros [= <- _]. rewrite !fmap_cons. by rewrite (IH _ _ _ E).
Qed.

Lemma request_names step (s : Flow W) id ri msg s' : locked s = false →
  maybe_request_inputs podman step s = (Done (Some (FlowResponse_NextStep id ri msg)), s') →
  rq_name <$> ri = in_name <$> missing_inputs (rt_collected_inputs (se_runtime (fl_session s))) step ∧ ri ≠ [].
Proof.
  intros Hs Hm. split; [|by apply (request_answer podman) in Hm]. revert Hm.
  unfold maybe_request_inputs, mbind, OrcM_bind. rewrite read_done by done.
  destruct (missing_inputs _ step) as [|i l]; [by destruct (session_log _ _ s) as [[v|e| |] s2]|].
  destruct (session_log _ _ s) as [[v|e| |] s2]; try done. destruct (with_runtime _ s2) as [[u|e| |] s3]; try done.
  unfold the_session, o_get. destruct (response_inputs podman (i :: l) s3) as [[ri'|e| |] s4] eqn:E; try done.
  intros [= _ <- _ _]. by eapply response_names.
Qed.

(** Text that the orchestrator takes: not too long and without control characters; and a name
    must not be blank. *)
Definition plain_text (max_len : Z) (value : string) : Prop := byte_len value ≤ max_len ∧ has_control value = false.
Definition plain_name (max_len : Z) (name : string) : Prop := trim name ≠ "" ∧ plain_text max_len name.

Lemma plain_text_valid field value max_len : plain_text max_len value → validate_text_max field value max_len = Ok tt.
Proof. intros [Hl Hc]. unfold validate_text_max. destruct (Z.ltb_spec max_len (byte_len value)); [lia|]. by rewrite Hc. Qed.

Lemma plain_name_valid field name max_len : plain_name max_len name → validate_required_text field name max_len = Ok tt.
Proof.
  intros [Hn Ht]. unfold validate_required_text. destruct (String.eqb_spec (trim name) ""); [done|]. by apply plain_text_valid.
Qed.

Lemma provided_valid l :
  Forall (λ p, plain_name MAX_INPUT_NAME_LEN (pi_name p) ∧ plain_text MAX_INPUT_VALUE_LEN (pi_value p)) l →
  each_ok validate_provided l = Ok tt.
Proof.
  induction 1 as [|p l [Hn Hv] _ IH]; [done|]. simpl. unfold validate_provided at 1.
  by rewrite plain_name_valid, plain_text_valid.
Qed.


End dialogue.
