(* ===== verification/OrchModels.v ===== *)
(** * A host with a browser, and the orchestrator's theorems on it

    A browser that does what it is told and whose pages show what [w_shows] says, a registry
    with the built-in flow, and concrete runs: the hypotheses of the theorems hold on them. *)
From stdpp Require Import base gmap strings list fin_maps.
From Stdlib Require Import ZArith Lia Ascii.
From S2P Require Import Prelude Proto Interface Config ConfigTheorems Pam Oidc OidcTheorems OrchTypes OrchPodman OrchFlow OrchServer OrchFacts OrchTheorems OrchServerTheorems OrchPool OrchDialogue.

Open Scope rust_scope.

(** ** The host *)

(** The selectors the page shows, and the time. *)
Record Browser := { w_shows : list string; w_now : Z }.

(** The bridge's messages: one byte says what kind of request it is, a second one whether
    the page has what is asked_for for. *)
Definition model_to_vec (r : BridgeRequest) : option (list Byte.byte) :=
  Some match r with
       | BridgeRequest_Action _ => [Byte.x01]
       | BridgeRequest_Extract _ => [Byte.x02]
       | BridgeRequest_Success sc =>
           match sc_dom_selector sc with
           | Some selector => Byte.x03 :: String.list_byte_of_string selector
           | None => [Byte.x03]
           end
       | BridgeRequest_Ping => [Byte.x04]
       end.

Definition model_reply (payload : list Byte.byte) (w : Browser) : list Byte.byte :=
  match payload with
  | Byte.x03 :: selector =>
      if bool_decide (String.string_of_list_byte selector ∈ w_shows w) then [Byte.x05] else [Byte.x03]
  | _ => payload
  end.

Definition model_from_slice (bytes : list Byte.byte) : option BridgeResponse :=
  let response pong success value :=
    Some {| bp_ok := true; bp_error := None; bp_pong := pong; bp_success := success; bp_value := value |} in
  match bytes with
  | [Byte.x01] => response None None None
  | [Byte.x02] => response None None (Some (BridgeValue_String "https://sso.example.com/totp"))
  | [Byte.x03] => response None (Some false) None
  | [Byte.x04] => response (Some true) None None
  | [Byte.x05] => response None (Some true) None
  | _ => None
  end.

#[export] Instance model_browser : OrchEnv Browser := {|
  bridge_to_vec := model_to_vec;
  bridge_from_slice := model_from_slice;
  bridge_io _ payload _ w := (BridgeIo_Read (model_reply payload w), w);
  run_command _ _ w :=
    (Ok {| co_success := true; co_code := Some 0; co_stdout := "c0ffee"; co_stderr := ""; co_status := "exit status: 0" |}, w);
  path_exists _ _ := false;
  path_is_dir _ _ := true;
  path_is_file _ _ := true;
  fs_create_dir_all _ w := (Fs_Ok, w);
  fs_set_permissions _ _ w := (Fs_Ok, w);
  fs_metadata _ w := (Fs_NotFound, w);
  fs_remove_dir_all _ w := (Fs_Ok, w);
  fs_remove_file _ w := (Fs_NotFound, w);
  sleep_ms n w := {| w_shows := w_shows w; w_now := w_now w + n |};
  instant_now w := (w_now w, w);
  epoch_s_now w := (1700000000 + w_now w / 1000, w);
  process_id := 4711
|}.

#[export] Instance model_definitions : DefinitionOps := {|
  definition_from_str _ := None; definitions_from_str _ := None; wrapper_from_str _ := None;
  url_host_str _ := Some "sso.example.com"
|}.

#[export] Instance model_commands : FlowCodecOps := {| command_from_slice _ := Parsed_Command FlowCommand_Ping |}.

Definition sample_podman : PodmanClient := {|
  pc_binary := "podman"; pc_image := "orchestrator"; pc_network := None; pc_runtime_dir := "/run/orch";
  pc_action_timeout_secs := 30; pc_session_idle_timeout_secs := 300; pc_no_new_privileges := true; pc_apparmor_profile := None
|}.

Definition sample_container (id : string) : ContainerInstance :=
  {| ci_id := id; ci_name := "himmelblau-orch-s1"; ci_session_dir := "/run/orch/sessions/s1";
     ci_bridge_socket_path := "/run/orch/sessions/s1/bridge.sock" |}.

Definition sample_session (d : ProviderDefinition) (r : SessionRuntime) : Session := {|
  se_session_id := "s1"; se_provider := pd_provider d; se_owner_uid := 0; se_container := sample_container "c1";
  se_definition := d; se_runtime := r; se_locked := false
|}.

(** A session of alice's, as [create_session] makes it. *)
Definition alice_runtime : SessionRuntime :=
  initial_runtime 0 (Some "alice") (Some "https://sso.example.com/realms/r") (Some "https://sso.example.com/device?user_code=AB") None.

Definition alice_flow (shows : list string) : Flow Browser :=
  {| fl_session := sample_session keycloak alice_runtime; fl_world := {| w_shows := shows; w_now := 0 |} |}.

(** ** Flows *)

Example builtin_valid : validate_provider_definition keycloak = Ok tt.
Proof. reflexivity. Qed.

(** The built-in flow asks for alice's password. *)
Lemma flow_returns_witness :
  comes_back (alice_flow []) (start_session sample_podman 6 (alice_flow [])) ∧
  comes_back (alice_flow []) (continue_session sample_podman 6 [{| pi_name := "password"; pi_value := "hunter2" |}] (alice_flow [])).
Proof.
  destruct (flow_returns sample_podman 6 (alice_flow [])) as [Hs Hc].
  - reflexivity.
  - reflexivity.
  - reflexivity.
  - simpl. lia.
  - split; [exact Hs|apply Hc].
Defined.

Definition asked_for {A} (x : Out FlowResponse * A) : option (list string) :=
  match x.1 with Done (FlowResponse_NextStep _ inputs _) => Some (rq_name <$> inputs) | _ => None end.

Definition completed {A} (x : Out FlowResponse * A) : option bool :=
  match x.1 with Done (FlowResponse_SessionComplete _ success _ _) => Some success | _ => None end.

Notation alice_started := (start_session sample_podman 6 (alice_flow [])).
Notation continued shows password :=
  (continue_session sample_podman 6 [{| pi_name := "password"; pi_value := password |}] (alice_flow shows)).

Example asks_password : asked_for alice_started = Some ["password"].
Proof. reflexivity. Qed.

(** With a wrong password no later page comes up: the flow runs off its end, and that is
    reported as a success. *)
Example wrong_password_success : completed (continued [] "wrong") = Some true.
Proof. reflexivity. Qed.

(** A session that is complete can be continued: it is in progress again, and ends at once. *)
Example completed_continues :
  let s := (continued [] "hunter2").2 in
  rt_state (se_runtime (fl_session s)) = SessionState_Completed ∧
  completed (continue_session sample_podman 6 [{| pi_name := "password"; pi_value := "x" |}] s) = Some true.
Proof. split; reflexivity. Qed.

Example asks_code : asked_for (continued [otp_field] "hunter2") = Some ["otp"].
Proof. reflexivity. Qed.

Definition password_step : ProviderStep := default
  {| ps_name := ""; ps_optional := false; ps_wait_for := None; ps_required_inputs := []; ps_actions := []; ps_branches := [];
     ps_success := None |} (keycloak_steps !! 0%nat).

(** Alice's password is there, and gone when it has been typed in. *)
Definition with_password : Flow Browser :=
  {| fl_session := sample_session keycloak
       (set_rt_inputs (<["password" := {| cv_value := "hunter2"; cv_sensitive := true |}]> (rt_collected_inputs alice_runtime)) alice_runtime);
     fl_world := {| w_shows := []; w_now := 0 |} |}.

Notation typed_in := (execute_step_actions sample_podman 0 password_step with_password).

Lemma typed_in_done : typed_in.1 = Done tt.
Proof. reflexivity. Qed.

Lemma secret_forgotten_witness :
  rt_collected_inputs (se_runtime (fl_session with_password)) !! "password" = Some {| cv_value := "hunter2"; cv_sensitive := true |} ∧
  rt_collected_inputs (se_runtime (core typed_in.2)) !! "password" = None.
Proof.
  split; [reflexivity|].
  apply (secret_forgotten sample_podman 0 password_step with_password typed_in.2 1 "input#password" "password").
  - rewrite <- typed_in_done. apply surjective_pairing.
  - reflexivity.
  - reflexivity.
  - exists password_step. eexists. split_and!; [by left|by right; left|reflexivity|by left].
  - apply unreferenced_spec. reflexivity.
Defined.

Definition circle_flow : Flow Browser :=
  {| fl_session := sample_session circle alice_runtime; fl_world := {| w_shows := []; w_now := 0 |} |}.

Lemma endless_flow_witness :
  spins circle 0 circle_step ∧ (advance_until_blocked_or_complete sample_podman 1000 circle_flow).1 = OutOfFuel.
Proof.
  split; [exact (proj2 (proj1 (endless_flow sample_podman)))|].
  apply (proj2 (endless_flow sample_podman) circle_step circle_flow).
  - exact (proj2 (proj1 (endless_flow sample_podman))).
  - reflexivity.
Defined.

(** A flow that begins with a page the daemon named: its parameters are in the log, though
    the first navigation of every session leaves them out. *)
Example navigation_logged :
  le_message <$> rt_logs (se_runtime (fl_session
    (execute_action sample_podman (FlowAction_Navigate "$dag_auth_url") (alice_flow [])).2)) =
    ["Navigate to 'https://sso.example.com/device?user_code=AB'"] ∧
  le_message <$> rt_logs (se_runtime (fl_session (initialize_session_navigation sample_podman (alice_flow [])).2)) =
    ["Initial navigation using dag_auth_url='https://sso.example.com/device?<redacted>'"].
Proof. split; reflexivity. Qed.

(** ** The server *)

Definition sample_registry : Registry := {[ "keycloak" := keycloak ]}.
Definition sample_cfg : HimmelblauConfig := {| config := []; filename := "/etc/himmelblau/himmelblau.conf" |}.

Definition alice_orch : Orch Browser := {|
  or_sessions := {[ "s1" := sample_session keycloak alice_runtime ]}; or_pool := pool_new; or_spawned := [];
  or_world := {| w_shows := []; w_now := 0 |}
|}.

(** Somebody else tries to cancel alice's session. *)
Lemma session_owner_only_witness :
  or_sessions (process_command sample_podman sample_registry sample_cfg 6 (FlowCommand_CancelSession "s1") 1000 alice_orch).2
    !! "s1" = Some (sample_session keycloak alice_runtime) ∧
  ∃ e, process_command sample_podman sample_registry sample_cfg 6 (FlowCommand_CancelSession "s1") 1000 alice_orch = (Failed e, alice_orch).
Proof.
  destruct (session_owner_only sample_podman sample_registry sample_cfg 6 (FlowCommand_CancelSession "s1") 1000 alice_orch "s1"
              (sample_session keycloak alice_runtime)) as (Hk & Hr & _).
  - reflexivity.
  - discriminate.
  - split; [exact Hk|]. apply Hr. reflexivity.
Defined.

(** Her own cancellation is carried out. *)
Notation own_cancel := (process_command sample_podman sample_registry sample_cfg 6 (FlowCommand_CancelSession "s1") 0 alice_orch).

Example owner_cancels :
  own_cancel.1 = Done (FlowResponse_Ack (Some "s1") "session cancelled") ∧ or_sessions own_cancel.2 !! "s1" = None.
Proof. split; reflexivity. Qed.

(** A step that waits for an access token. *)
Definition token_condition : SuccessCondition :=
  {| sc_url_contains := None; sc_dom_selector := None; sc_token_key := Some "access_token" |}.
Definition token_step : ProviderStep := {|
  ps_name := "token"; ps_optional := false; ps_wait_for := None; ps_required_inputs := [];
  ps_actions := [FlowAction_Extract ExtractTarget_AccessToken "browser:token"]; ps_branches := [];
  ps_success := Some token_condition
|}.
Definition token_flow : ProviderDefinition := {|
  pd_provider := "token"; pd_display_name := "Token"; pd_matchers := None; pd_start_url := None; pd_steps := [token_step]
|}.

Example token_flow_valid : validate_provider_definition token_flow = Ok tt.
Proof. reflexivity. Qed.

Lemma token_key_wedges_witness :
  ∃ s1, after_actions sample_podman token_step (Ok tt) (alice_flow []) = (Hung, s1) ∧
    (shutdown_sessions sample_podman
       {| or_sessions := {[ "s1" := fl_session s1 ]}; or_pool := pool_new; or_spawned := []; or_world := fl_world s1 |}).1 = Hung.
Proof.
  destruct (token_key_wedges sample_podman token_step token_condition "access_token" (alice_flow [])) as (s1 & Hs & Hall).
  - reflexivity.
  - reflexivity.
  - reflexivity.
  - exists s1. split; [exact Hs|].
    destruct (Hall "s1" {| or_sessions := {[ "s1" := fl_session s1 ]}; or_pool := pool_new; or_spawned := []; or_world := fl_world s1 |} 0)
      as (_ & _ & _ & Hd & _); [apply lookup_singleton_eq|reflexivity|exact Hd].
Defined.

(** ** The containers *)

Notation orch_step := (stock_step "/run/orch" 7).
Notation made_for := (container_for "/run/orch").

(** Two sessions begin while the spare is made, and the second one gets it. *)
Definition two_sessions : Stock := {|
  k_pool := {| cp_spare := None; cp_replenish_in_progress := true; cp_next_warm_id := 2; cp_shutting_down := false |};
  k_sessions := <["s2" := made_for "warm-7-1" "c1"]> {["s1" := made_for "s1" "c2"]};
  k_podman := {|
    p_named := <["himmelblau-orch-s1" := "c2"]> {["himmelblau-orch-warm-7-1" := "c1"]};
    p_sockets := <[socket_of "/run/orch" "s1" := "c2"]> {[socket_of "/run/orch" "warm-7-1" := "c1"]} |};
  k_made := [("warm-7-1", "c1"); ("s1", "c2")]; k_stopped := false
|}.

Lemma two_sessions_reached : rtc orch_step ([], stock_new) ([Task_Replenish "warm-7-2"], two_sessions).
Proof.
  eapply rtc_l; [by apply (step_request _ _ "s1")|]. simpl.
  eapply rtc_l; [eapply (step_move _ _ (Task_Acquire "s1") [] []); by eapply move_no_spare|]. simpl.
  eapply rtc_l; [eapply (step_move _ _ (Task_Replenish "warm-7-1") [Task_Create "s1"] []); apply (move_replenish _ _ "warm-7-1" "c1");
                 apply not_elem_of_nil|]. simpl.
  eapply rtc_l; [eapply (step_move _ _ (Task_Replenished _) [] [Task_Create "s1"]); by eapply move_replenished|]. simpl.
  eapply rtc_l; [by apply (step_request _ _ "s2")|]. simpl.
  eapply rtc_l; [eapply (step_move _ _ (Task_Acquire "s2") [] [Task_Create "s1"]); by eapply move_spare|]. simpl.
  eapply rtc_l; [eapply (step_move _ _ (Task_Ping "s2" _) [] [Task_Create "s1"]); by eapply move_ping_ok|]. simpl.
  eapply rtc_l; [eapply (step_move _ _ (Task_Create "s1") [Task_Insert "s2" _; Task_Replenish "warm-7-2"] []);
                 apply (move_created _ _ "s1" "c2"); by apply (bool_decide_unpack _)|]. simpl.
  eapply rtc_l; [eapply (step_move _ _ (Task_Insert "s1" _) [] _); by apply move_insert|]. simpl.
  eapply rtc_l; [eapply (step_move _ _ (Task_Insert "s2" _) [] _); by apply move_insert|]. simpl.
  apply rtc_refl.
Qed.

Lemma container_single_owner_witness :
  ci_id <$> (k_sessions two_sessions !! "s1") = Some "c2" ∧ ci_id <$> (k_sessions two_sessions !! "s2") = Some "c1" ∧
  "c1" ∉ opt_id (cp_spare (k_pool two_sessions)) ++ tasks_ids [Task_Replenish "warm-7-2"] ∧
  (∀ id, p_sockets (k_podman two_sessions) !! socket_of "/run/orch" "s1" = Some id → id = "c2").
Proof.
  split; [reflexivity|]. split; [reflexivity|].
  destruct (container_single_owner "/run/orch" 7 [Task_Replenish "warm-7-2"] two_sessions two_sessions_reached)
    as (_ & Hs & _ & _ & Hp).
  split; [apply (Hs "s2" (made_for "warm-7-1" "c1")); reflexivity|].
  destruct Hp as [Hp _]; [apply (bool_decide_unpack _); reflexivity|].
  intros id. apply (Hp "s1" (made_for "s1" "c2") id). reflexivity.
Defined.

(** Sessions whose identifiers differ in a character that is replaced have the same container
    name and the same socket: the later one takes the socket of the earlier one, whose
    requests then go to the browser of the other. *)
Example names_collide :
  ∃ l st c id, rtc orch_step ([], stock_new) (l, st) ∧ k_sessions st !! "s.1" = Some c ∧
    p_sockets (k_podman st) !! ci_bridge_socket_path c = Some id ∧ id ≠ ci_id c.
Proof.
  eexists _, _, (made_for "s.1" "c1"), "c2". split.
  - eapply rtc_l; [by apply (step_request _ _ "s.1")|]. simpl.
    eapply rtc_l; [eapply (step_move _ _ (Task_Acquire "s.1") [] []); by eapply move_no_spare|]. simpl.
    eapply rtc_l; [eapply (step_move _ _ (Task_Create "s.1") [] _); apply (move_created _ _ "s.1" "c1"); apply not_elem_of_nil|]. simpl.
    eapply rtc_l; [eapply (step_move _ _ (Task_Insert "s.1" _) [] _); by apply move_insert|]. simpl.
    eapply rtc_l; [by apply (step_request _ _ "s/1")|]. simpl.
    eapply rtc_l; [eapply (step_move _ _ (Task_Acquire "s/1") [] _); by eapply move_no_spare|]. simpl.
    eapply rtc_l; [eapply (step_move _ _ (Task_Create "s/1") [] _); apply (move_created _ _ "s/1" "c2");
                   by apply (bool_decide_unpack _)|]. simpl.
    apply rtc_refl.
  - split_and!; [reflexivity|reflexivity|discriminate].
Qed.

(** ** The dialogue *)

Notation alice_asked := (maybe_request_inputs sample_podman password_step (alice_flow [])).

Lemma asks_alice :
  match alice_asked.1 with
  | Done (Some (FlowResponse_NextStep id ri _)) => Some (id, auth_request_from_orchestrator_inputs (wire_required <$> ri) 5)
  | _ => None
  end = Some ("s1", AuthRequest_Password).
Proof. reflexivity. Qed.

