(* ===== verification/TaskHost.v ===== *)
(** * The tasks daemon: the host it works on

    What the tasks daemon ([src/daemon/src/tasks_daemon.rs]) and the policies
    ([src/policies]) do to the host, as root: every call that changes something is recorded
    with the user the process acts as. Paths as [std::path::Path] reads them. *)
From stdpp Require Import base gmap strings list fin_maps.
From Stdlib Require Import ZArith Lia Ascii.
From S2P Require Import Prelude Proto Caches Config Pam.

Open Scope rust_scope.

(** ** Text *)

Definition SLASH : ascii := "/"%char.
Definition BACKSLASH : ascii := "\"%char.
Definition DOT : ascii := "."%char.
Definition COLON : ascii := ":"%char.

(** [s.trim_start_matches(c)] *)
Fixpoint trim_start_char (c : ascii) (s : string) : string :=
  match s with
  | EmptyString => ""
  | String d s' => if Ascii.eqb d c then trim_start_char c s' else s
  end.

(** [s.replace(chars, "")] for a set of characters. *)
Fixpoint remove_chars (drop : ascii → bool) (s : string) : string :=
  match s with
  | EmptyString => ""
  | String d s => if drop d then remove_chars drop s else String d (remove_chars drop s)
  end.

Fixpoint every_char (p : ascii → bool) (s : string) : bool :=
  match s with
  | EmptyString => true
  | String c s => p c && every_char p s
  end.

(** ** Paths *)

(** [Path::components]: whether the path begins at the root, and its names. Empty names are
    skipped, and so is a dot, unless a relative path begins with it. *)
Definition names_of (relative : bool) (l : list string) : list string :=
  match l with
  | [] => []
  | x :: l =>
      (if String.eqb x "" then [] else if String.eqb x "." then if relative then [x] else [] else [x])
      ++ List.filter (λ y, negb (String.eqb y "") && negb (String.eqb y ".")) l
  end.

Definition is_absolute (p : string) : bool := match p with String c _ => Ascii.eqb c SLASH | EmptyString => false end.

Definition components (p : string) : bool * list string :=
  (is_absolute p, names_of (negb (is_absolute p)) (split_char SLASH p)).

(** [Path::parent], by its components; paths are equal when their components are. *)
Definition parent (p : string) : option (bool * list string) :=
  let '(root, l) := components p in
  match l with [] => None | _ => Some (root, removelast l) end.

(** [a.join(b)] for a [b] that is relative. *)
Definition join (a b : string) : string :=
  match last_char a with
  | None => b
  | Some c => if Ascii.eqb c SLASH then a +:+ b else a +:+ "/" +:+ b
  end.

(** ** Data of the crate libhimmelblau: what Intune asks for and is told *)

Record PolicyDetails := {
  pd_setting_definition_item_id : string; pd_rule_id : string; pd_csp_path : string; pd_expected_value : string;
  pd_actual_value : string; pd_new_compliance_state : string; pd_old_compliance_state : string
}.

Record PolicyStatus := { ps_policy_id : string; ps_details : list PolicyDetails }.

Record IntuneStatus := { is_device_id : string; is_policy_statuses : list PolicyStatus }.

Inductive ComplianceState := ComplianceState_Unknown | ComplianceState_Error.

(** ** Calls *)

(** An [io::Error], or one of another crate, as [{:?}] and as [{}]. *)
Record HostError := { he_debug : string; he_display : string }.

(** [Output]: the exit code, [None] after a signal; standard output if it is UTF-8; both
    outputs with what is not UTF-8 replaced. *)
Record Output := {
  ou_success : bool; ou_code : option Z; ou_stdout : option string; ou_stdout_lossy : string; ou_stderr_lossy : string
}.

Section host.
Context {X : Ext}.

Inductive CcacheCall :=
| Ccache_Resolve
| Ccache_Init (principal : string)
| Ccache_Store (tgt : KerberosCredentials).

Inductive SysCall :=
| Sys_Umask (mask : Z)
| Sys_CreateDirAll (path : string)
| Sys_Lchown (path : string) (uid gid : Z)
| Sys_Copy (from to : string)
| Sys_RemoveFile (path : string)
| Sys_Symlink (target link : string)
| Sys_OpenAppend (path : string)
| Sys_OpenTruncate (path : string) (mode : option Z) (nofollow : bool)
| Sys_Write (path text : string)
| Sys_Run (program : string) (args : list string) (env : list (string * string))
| Sys_Switch (uid gid : Z)
| Sys_Restore
| Sys_Ccache (name : string) (call : CcacheCall)
| Sys_FetchPhoto (path : string)
| Sys_Report (statuses : IntuneStatus)
| Sys_Send (response : TaskResponse).

(** The host; [W] is its state. A script of a policy is written to a temporary file of mode
    [0o500] that the host names. *)
Class TaskEnv (W : Type) : Type := {
  te_sys : SysCall → W → result unit HostError * W;
  te_run : string → list string → list (string * string) → W → result Output HostError * W;
  te_exists : string → W → bool;
  te_is_dir : string → W → bool;
  te_try_exists : string → W → result bool HostError;
  te_is_symlink : string → W → result bool HostError;
  te_read_to_string : string → W → option string;
  te_read_dir : string → W → list string;
  te_skel : W → list (string * bool);
  te_temp_file : string → W → result string string * W;
  te_mapped_names : W → MappingFile;
  te_cred_name : KerberosCredentials → string;
  te_uuid_try_parse : string → result unit string
}.

(** [t_user]: the user the process acts as, root if [None]; [t_policies]: the cache of
    policies ([POLICY_CACHE]), which nobody else writes; [t_calls]: the calls so far. *)
Record TState (W : Type) := {
  t_world : W; t_umask : Z; t_user : option (Z * Z); t_policies : DbFile (list PolicyRow);
  t_calls : list (option (Z * Z) * SysCall)
}.

End host.

Arguments t_world {X W} _.
Arguments t_umask {X W} _.
Arguments t_user {X W} _.
Arguments t_policies {X W} _.
Arguments t_calls {X W} _.
Arguments Build_TState {X W} _ _ _ _ _.

(** ** The monad *)

Section monad.
Context {X : Ext} {W : Type} {TE : TaskEnv W}.

Definition TM (A : Type) : Type := TState W → A * TState W.

#[export] Instance TM_ret : MRet TM := λ A a s, (a, s).
#[export] Instance TM_bind : MBind TM := λ A B k m s, let '(a, s) := m s in k a s.

(** [?] *)
Definition t_try {A B E} (m : TM (result A E)) (k : A → TM (result B E)) : TM (result B E) :=
  m ≫= λ r, match r with Ok a => k a | Err e => mret (Err e) end.

Definition ask {A} (f : W → A) : TM A := λ s, (f (t_world s), s).

Definition log_call (c : SysCall) (w : W) (s : TState W) : TState W :=
  Build_TState w (t_umask s) (t_user s) (t_policies s) (t_calls s ++ [(t_user s, c)]).

Definition syscall (c : SysCall) : TM (result unit HostError) := λ s,
  let '(r, w) := te_sys c (t_world s) in (r, log_call c w s).

Definition command (program : string) (args : list string) (env : list (string * string)) : TM (result Output HostError) := λ s,
  let '(r, w) := te_run program args env (t_world s) in (r, log_call (Sys_Run program args env) w s).

(** [umask(mask)]: the mask before. *)
Definition umask (mask : Z) : TM Z := λ s,
  let '(_, w) := te_sys (Sys_Umask mask) (t_world s) in
  (t_umask s, Build_TState w mask (t_user s) (t_policies s) (t_calls s ++ [(t_user s, Sys_Umask mask)])).

(** [uzers::switch::switch_user_group]: the process acts as the user until the guard is
    dropped; a failure leaves it as it was. *)
Definition switch_user_group (uid gid : Z) : TM (result (option (Z * Z)) HostError) := λ s,
  let '(r, w) := te_sys (Sys_Switch uid gid) (t_world s) in
  let s' := log_call (Sys_Switch uid gid) w s in
  match r with
  | Ok _ => (Ok (t_user s), Build_TState w (t_umask s') (Some (uid, gid)) (t_policies s') (t_calls s'))
  | Err e => (Err e, s')
  end.

Definition drop_guard (before : option (Z * Z)) : TM unit := λ s,
  let '(_, w) := te_sys Sys_Restore (t_world s) in
  let s' := log_call Sys_Restore w s in
  (tt, Build_TState w (t_umask s') before (t_policies s') (t_calls s')).

End monad.

Arguments TM {X} W A.

Notation "x ←! m ; k" := (t_try m (λ x, k)) (at level 20, m at level 100, k at level 200, only parsing) : rust_scope.
