(* ===== verification/Policies.v ===== *)
(** * Intune policies: [src/policies]

    [apply_intune_policy] ([policies.rs]) and the client-side extensions it runs:
    [scripts_ext.rs] (scripts installed as cron jobs), [compliance_ext.rs] (distribution,
    disk encryption and password rules) and [custom_compliance_ext.rs] (discovery scripts).
    [chromium_ext.rs] is not part of the crate ([lib.rs] does not name it). *)
From stdpp Require Import base gmap strings list fin_maps.
From Stdlib Require Import ZArith Lia Ascii.
From S2P Require Import Prelude Proto Caches Config Pam TaskHost.

Open Scope rust_scope.

(** ** Text *)

(** Whether bytes are UTF-8. *)
Definition in_byte (lo hi : nat) (c : ascii) : bool := Nat.leb lo (nat_of_ascii c) && Nat.leb (nat_of_ascii c) hi.
Definition is_tail (c : ascii) : bool := in_byte 128 191 c.

Fixpoint utf8_valid (s : string) : bool :=
  match s with
  | EmptyString => true
  | String a s1 =>
      if in_byte 0 127 a then utf8_valid s1
      else
        match s1 with
        | EmptyString => false
        | String b s2 =>
            if in_byte 194 223 a then is_tail b && utf8_valid s2
            else
              match s2 with
              | EmptyString => false
              | String c s3 =>
                  if in_byte 224 239 a then
                    (if in_byte 224 224 a then in_byte 160 191 b
                     else if in_byte 237 237 a then in_byte 128 159 b else is_tail b) && is_tail c && utf8_valid s3
                  else
                    match s3 with
                    | EmptyString => false
                    | String d s4 =>
                        in_byte 240 244 a
                        && (if in_byte 240 240 a then in_byte 144 191 b
                            else if in_byte 244 244 a then in_byte 128 143 b else is_tail b)
                        && is_tail c && is_tail d && utf8_valid s4
                    end
              end
        end
  end.

(** [text.replace("\r\n", "\n")] *)
Fixpoint normalize_newlines (s : string) : string :=
  match s with
  | EmptyString => ""
  | String c s' =>
      if Ascii.eqb c CR && match s' with String d _ => Ascii.eqb d LF | EmptyString => false end
      then normalize_newlines s' else String c (normalize_newlines s')
  end.

(** ** The details of a policy *)

Definition set_state (actual state : string) (d : PolicyDetails) : PolicyDetails :=
  Build_PolicyDetails (pd_setting_definition_item_id d) (pd_rule_id d) (pd_csp_path d) (pd_expected_value d) actual state
    (pd_old_compliance_state d).
Definition set_actual (actual : string) (d : PolicyDetails) : PolicyDetails :=
  set_state actual (pd_new_compliance_state d) d.
Definition not_applicable (d : PolicyDetails) : PolicyDetails :=
  Build_PolicyDetails (pd_setting_definition_item_id d) (pd_rule_id d) (pd_csp_path d) (pd_expected_value d) "" "Compliant"
    "Compliant".
Definition compliant (d : PolicyDetails) : PolicyDetails := set_state (pd_expected_value d) "Compliant" d.
Definition with_details (l : list PolicyDetails) (p : PolicyStatus) : PolicyStatus := Build_PolicyStatus (ps_policy_id p) l.

Definition has_setting (test : string → bool) (p : PolicyStatus) : bool :=
  existsb (λ d, test (pd_setting_definition_item_id d)) (ps_details p).

(** ** The crates below *)

(** base64, serde_json, semver, os_release, anyhow and libhimmelblau with the network behind
    it. [pe_set_status] is [PolicyDetails::set_status]. *)
Class PolicyEnv {X : Ext} (W : Type) : Type := {
  Version : Type;
  version_parse : string → result Version string;
  version_le : Version → Version → bool;
  version_to_string : Version → string;
  os_release : W → result (string * string) string;
  b64_decode : string → result string string;
  utf8_error : string → string;
  is_json_object : string → result unit string;
  user_policies_from_str : string → result (gmap string (gset string)) string;
  user_policies_to_string : gmap string (gset string) → result string string;
  pe_set_status : option string → option string → ComplianceState → PolicyDetails → PolicyDetails;
  pe_debug_errors : list string → string;
  pe_sql_error : string;
  pe_open_faults : W → OpenFaults;
  pe_set_fault : W → bool * W;
  Graph : Type;
  Endpoints : Type;
  Intune : Type;
  pe_graph_new : string → string → option string → option string → option string → Z → list IpVersion → W → result Graph string * W;
  pe_endpoints : Graph → string → W → result Endpoints string * W;
  pe_portal_versions : W → option (list string) * W;
  pe_intune_new : Endpoints → string → Z → list IpVersion → result Intune string;
  pe_enroll_attrs : string → result unit string;
  pe_details : Intune → string → string → string → W → result unit string * W;
  pe_policies : Intune → string → string → W → result (list PolicyStatus) string * W;
  pe_sleep : Z → W → W;
  pe_noncompliant_rules : Intune → string → string → W → result (list NoncompliantRule) string * W
}.

Section policies.
Context {X : Ext} {I : IniFile} {G : GeneratedConfig} {PCf : PamConfig} {W : Type} {TE : TaskEnv W} {PE : PolicyEnv W}.
Notation TM := (TM W).

(** A call whose failure is [anyhow!("msg: {}", e)]. *)
Definition sys_or (msg : string) (c : SysCall) : TM (result unit string) :=
  r ← syscall c;
  mret (match r with Ok _ => Ok tt | Err e => Err (msg +:+ he_display e) end).

Definition outside {A} (f : W → A * W) : TM A := λ s,
  let '(a, w) := f (t_world s) in
  (a, Build_TState w (t_umask s) (t_user s) (t_policies s) (t_calls s)).

Definition on_policies {A} (f : W → DbFile (list PolicyRow) → A * DbFile (list PolicyRow)) : TM A := λ s,
  let '(a, file) := f (t_world s) (t_policies s) in
  (a, Build_TState (t_world s) (t_umask s) (t_user s) file (t_calls s)).

(** [fs::File::create] and [write_all]. *)
Definition create_file (path text create_msg write_msg : string) : TM (result unit string) :=
  _ ←! sys_or create_msg (Sys_OpenTruncate path None false);
  sys_or write_msg (Sys_Write path text).

(** The exit status of [chmod] is not looked at. *)
Definition chmod (mode path msg : string) : TM (result unit string) :=
  r ← command "chmod" [mode; path] [];
  mret (match r with Ok _ => Ok tt | Err e => Err (msg +:+ he_display e) end).

(** ** [scripts_ext.rs] *)

Definition script_path (cfg : HimmelblauConfig) : TM (result string string) :=
  let script_path := join (get_policies_db_path cfg) "bin" in
  _ ←! sys_or ("Failed to create script path " +:+ script_path +:+ ": ") (Sys_CreateDirAll script_path);
  mret (Ok script_path).

Definition scripts_cache_path (cfg : HimmelblauConfig) (username : string) : string :=
  join (get_policies_db_path cfg) ("cache_" +:+ username +:+ "_scripts.json").

(** [PolicyCache::load]: a file that cannot be read is an empty cache. *)
Definition scripts_cache_load (path : string) : TM (result (gmap string (gset string)) string) :=
  data ← ask (te_read_to_string path);
  mret (match data with Some data => user_policies_from_str data | None => Ok ∅ end).

Definition scripts_cache_save (cache : gmap string (gset string)) (path : string) : TM (result unit string) :=
  match user_policies_to_string cache with
  | Ok data => create_file path data "" ""
  | Err e => mret (Err e)
  end.

Definition get_for_user (cache : gmap string (gset string)) (username : string) : gset string :=
  default ∅ (cache !! username).

Definition update_for_user (cache : gmap string (gset string)) (username : string) (ids : gset string)
  : gmap string (gset string) := <[username := ids]> cache.

(** What the settings of a script policy amount to. *)
Record ScriptSettings := {
  sg_execution_context : string; sg_frequency : string; sg_retries : Z; sg_script_b64 : option string
}.

Definition default_settings : ScriptSettings :=
  {| sg_execution_context := "root"; sg_frequency := "1hour"; sg_retries := 0; sg_script_b64 := None |}.

(** One setting: the settings so far and the detail as it is reported. *)
Definition script_detail (username : string) (d : PolicyDetails) (g : ScriptSettings)
  : result ScriptSettings string * PolicyDetails :=
  let v := pd_expected_value d in
  let id := pd_setting_definition_item_id d in
  if String.eqb id "linux_customconfig_executioncontext" then
    if String.eqb v "root" then (Ok (Build_ScriptSettings v (sg_frequency g) (sg_retries g) (sg_script_b64 g)), compliant d)
    else if String.eqb v "user" then
      (Ok (Build_ScriptSettings username (sg_frequency g) (sg_retries g) (sg_script_b64 g)), compliant d)
    else (Err ("Unrecognized execution context '" +:+ v +:+ "'"), d)
  else if String.eqb id "linux_customconfig_executionfrequency" then
    (Ok (Build_ScriptSettings (sg_execution_context g) v (sg_retries g) (sg_script_b64 g)), compliant d)
  else if String.eqb id "linux_customconfig_executionretries" then
    match parse_uint u32_max v with
    | Some val => (Ok (Build_ScriptSettings (sg_execution_context g) (sg_frequency g) val (sg_script_b64 g)), compliant d)
    | None => (Err "Failed to parse script execution retries", d)
    end
  else if String.eqb id "linux_customconfig_script" then
    (Ok (Build_ScriptSettings (sg_execution_context g) (sg_frequency g) (sg_retries g) (Some v)), compliant d)
  else (Ok g, d).

Fixpoint script_details (username : string) (l : list PolicyDetails) (g : ScriptSettings)
  : result ScriptSettings string * list PolicyDetails :=
  match l with
  | [] => (Ok g, [])
  | d :: l =>
      match script_detail username d g with
      | (Ok g, d) => let '(r, l) := script_details username l g in (r, d :: l)
      | (Err e, d) => (Err e, d :: l)
      end
  end.

Definition wrapper_script (retries : Z) (script_file_path : string) : string :=
  "#!/bin/bash" +:+ NL +:+ "# Wrapper script for policy execution with retry logic." +:+ NL +:+
  "retries=" +:+ uint_to_string retries +:+ NL +:+ "attempts=0" +:+ NL +:+
  "while [ $attempts -le $retries ]; do" +:+ NL +:+ "    " +:+ script_file_path +:+ NL +:+
  "    exit_code=$?" +:+ NL +:+ "    if [ $exit_code -eq 0 ]; then" +:+ NL +:+ "        exit 0" +:+ NL +:+
  "    fi" +:+ NL +:+ "    attempts=$((attempts+1))" +:+ NL +:+ "done" +:+ NL +:+ "exit $exit_code" +:+ NL.

Definition cron_schedules : list (string * string) := [
  ("15", "*/15 * * * *"); ("30", "*/30 * * * *"); ("60", "0 * * * *"); ("120", "0 */2 * * *"); ("180", "0 */3 * * *");
  ("360", "0 */6 * * *"); ("720", "0 */12 * * *"); ("1440", "0 0 * * *"); ("10080", "0 0 * * 0")].

Definition cron_schedule (frequency : string) : option string :=
  snd <$> List.find (λ p, String.eqb p.1 frequency) cron_schedules.

Definition script_file (dir policy_id : string) : string := dir +:+ "/policy_" +:+ policy_id +:+ "_script.sh".
Definition wrapper_file (dir policy_id : string) : string := dir +:+ "/policy_" +:+ policy_id +:+ "_wrapper.sh".
Definition cron_file (policy_id : string) : string := "/etc/cron.d/policy_" +:+ policy_id.

(** The second half of [apply_policy]. *)
Definition install_script (dir policy_id : string) (g : ScriptSettings) (script_b64 : string) : TM (result unit string) :=
  match b64_decode script_b64 with
  | Err e => mret (Err ("Failed to decode script: " +:+ e))
  | Ok script_content =>
      if utf8_valid script_content then
        let script_file_path := script_file dir policy_id in
        _ ←! create_file script_file_path script_content "Failed to create script file: " "Failed to write script to file: ";
        _ ←! chmod "+x" script_file_path "Failed to set script permissions: ";
        let wrapper_script_path := wrapper_file dir policy_id in
        _ ←! create_file wrapper_script_path (wrapper_script (sg_retries g) script_file_path)
               ("Failed to create wrapper file " +:+ wrapper_script_path +:+ ": ") "Failed to write wrapper script to file: ";
        _ ←! chmod "+x" wrapper_script_path "Failed to set wrapper script permissions: ";
        match cron_schedule (sg_frequency g) with
        | None =>
            mret (Err ("Unknown script application frequency '" +:+ sg_frequency g +:+ "' for policy " +:+ policy_id +:+ "."))
        | Some schedule =>
            let cron_file_path := cron_file policy_id in
            _ ←! create_file cron_file_path
                   (schedule +:+ " " +:+ sg_execution_context g +:+ " " +:+ wrapper_script_path +:+ NL)
                   "Failed to create cron file: " "Failed to write cron job to file: ";
            chmod "644" cron_file_path "Failed to set cron file permissions: "
        end
      else mret (Err ("Failed to convert script to utf8 string: " +:+ utf8_error script_content))
  end.

(** [apply_policy]; what has been entered into the policy stays when it fails. *)
Definition apply_script_policy (cfg : HimmelblauConfig) (username : string) (p : PolicyStatus)
  : TM (result unit string * PolicyStatus) :=
  let '(r, l) := script_details username (ps_details p) default_settings in
  let p := with_details l p in
  match r with
  | Err e => mret (Err e, p)
  | Ok g =>
      dir ← script_path cfg;
      match dir with
      | Err e => mret (Err ("Failed to determine script path: " +:+ e), p)
      | Ok dir =>
          match sg_script_b64 g with
          | None => mret (Ok tt, p)
          | Some script_b64 => r ← install_script dir (ps_policy_id p) g script_b64; mret (r, p)
          end
      end
  end.

Definition is_script_policy (p : PolicyStatus) : bool := has_setting (String.eqb "linux_customconfig_script") p.

(** The first failure ends the loop. *)
Fixpoint apply_script_policies (cfg : HimmelblauConfig) (username : string) (l : list PolicyStatus)
  : TM (result unit string * list PolicyStatus) :=
  match l with
  | [] => mret (Ok tt, [])
  | p :: l =>
      if is_script_policy p then
        '(r, p) ← apply_script_policy cfg username p;
        match r with
        | Ok _ => '(r, l) ← apply_script_policies cfg username l; mret (r, p :: l)
        | Err e => mret (Err e, p :: l)
        end
      else '(r, l) ← apply_script_policies cfg username l; mret (r, p :: l)
  end.

Fixpoint remove_old_policies (cfg : HimmelblauConfig) (ids : list string) : TM (result unit string) :=
  match ids with
  | [] => mret (Ok tt)
  | id :: ids =>
      dir ← script_path cfg;
      match dir with
      | Err e => mret (Err ("Failed to determine script path: " +:+ e))
      | Ok dir =>
          _ ← syscall (Sys_RemoveFile (cron_file id));
          _ ← syscall (Sys_RemoveFile (script_file dir id));
          _ ← syscall (Sys_RemoveFile (wrapper_file dir id));
          remove_old_policies cfg ids
      end
  end.

Definition scripts_cse (cfg : HimmelblauConfig) (username : string) (l : list PolicyStatus)
  : TM (result unit string * list PolicyStatus) :=
  let cache_path := scripts_cache_path cfg username in
  cache ← scripts_cache_load cache_path;
  match cache with
  | Err e => mret (Err ("Failed to load policy cache: " +:+ e), l)
  | Ok cache =>
      let new_policy_ids : gset string := list_to_set (ps_policy_id <$> l) in
      r ← remove_old_policies cfg (elements (get_for_user cache username ∖ new_policy_ids));
      match r with
      | Err e => mret (Err e, l)
      | Ok _ =>
          '(r, l) ← apply_script_policies cfg username l;
          match r with
          | Err e => mret (Err e, l)
          | Ok _ =>
              r ← scripts_cache_save (update_for_user cache username new_policy_ids) cache_path;
              mret (match r with Ok _ => Ok tt | Err e => Err ("Failed to save policy cache: " +:+ e) end, l)
          end
      end
  end.

(** ** [compliance_ext.rs] *)

Definition output_contains (r : result Output HostError) (what : string) : bool :=
  match r with
  | Ok o => match ou_stdout o with Some text => contains_str text what | None => false end
  | Err _ => false
  end.

Definition is_disk_encrypted : TM bool :=
  o ← command "lsblk" ["-o"; "NAME,FSTYPE"] [];
  if output_contains o "crypt" then mret true
  else
    crypttab ← ask (te_read_to_string "/etc/crypttab");
    if match crypttab with Some text => negb (String.eqb (trim text) "") | None => false end then mret true
    else
      entries ← ask (te_read_dir "/dev/mapper");
      if existsb (λ name, contains_str name "crypt") entries then mret true
      else
        o ← command "lsblk" ["-o"; "NAME,TYPE,MOUNTPOINT"] [];
        mret (output_contains o "dm-crypt").

Definition normalize_part (p : string) : string :=
  let stripped := trim_start_char "0"%char p in
  if String.eqb stripped "" then "0" else stripped.

Definition normalize_version (version : string) : string :=
  match normalize_part <$> split_char DOT version with
  | [] => "0.0.0"
  | [a] => a +:+ ".0.0"
  | [a; b] => a +:+ "." +:+ b +:+ ".0"
  | a :: b :: c :: _ => a +:+ "." +:+ b +:+ "." +:+ c
  end.

Definition extract_distro_index (csp_path : string) : option string :=
  match split_char SLASH csp_path with
  | _ :: a :: b :: index :: _ :: _ =>
      if String.eqb a "Distribution" && String.eqb b "AllowedDistros" then Some index else None
  | _ => None
  end.

Definition DISTRO_TYPE : string := "linux_distribution_alloweddistros_item_$type".
Definition DISTRO_MIN : string := "linux_distribution_alloweddistros_item_minimumversion".
Definition DISTRO_MAX : string := "linux_distribution_alloweddistros_item_maximumversion".

(** A bound on the version: [ok] says whether a version is within it. *)
Definition check_version (ok : Version → bool) (version_id : string) (system_version : Version) (d : PolicyDetails)
  : PolicyDetails :=
  let d := set_actual version_id d in
  if String.eqb (pd_expected_value d) "" then set_state version_id "Compliant" d
  else
    match version_parse (normalize_version (pd_expected_value d)) with
    | Ok v =>
        if ok v then set_state version_id "Compliant" d
        else set_state (version_to_string system_version) "NonCompliant" d
    | Err _ => set_state version_id "Error" d
    end.

Definition evaluate_distro_detail (system_distro version_id : string) (system_version : Version) (d : PolicyDetails)
  : PolicyDetails :=
  let id := pd_setting_definition_item_id d in
  if String.eqb id DISTRO_TYPE then
    set_state system_distro (if same_name (pd_expected_value d) system_distro then "Compliant" else "NonCompliant") d
  else if String.eqb id DISTRO_MIN then check_version (λ v, version_le v system_version) version_id system_version d
  else if String.eqb id DISTRO_MAX then check_version (λ v, version_le system_version v) version_id system_version d
  else d.

Definition is_distro_setting (id : string) : bool := String.prefix "linux_distribution_" id.

(** The positions of the settings of each distribution the policy names. *)
Definition add_to_group (m : gmap string (list nat)) (p : nat * PolicyDetails) : gmap string (list nat) :=
  if is_distro_setting (pd_setting_definition_item_id p.2) then
    match extract_distro_index (pd_csp_path p.2) with
    | Some index => <[index := default [] (m !! index) ++ [p.1]]> m
    | None => m
    end
  else m.

Definition distro_groups (details : list PolicyDetails) : gmap string (list nat) :=
  foldl add_to_group ∅ (imap (λ i d, (i, d)) details).

Definition names_system (system_distro : string) (d : PolicyDetails) : bool :=
  String.eqb (pd_setting_definition_item_id d) DISTRO_TYPE && same_name (pd_expected_value d) system_distro.

Definition group_matches (system_distro : string) (details : list PolicyDetails) (indices : list nat) : bool :=
  existsb (λ i, match details !! i with Some d => names_system system_distro d | None => false end) indices.

(** What becomes of a setting of a group. *)
Definition distro_outcome (system_distro version_id : string) (system_version : Version) (matches_ has_match : bool)
  (d : PolicyDetails) : PolicyDetails :=
  if matches_ then evaluate_distro_detail system_distro version_id system_version d
  else if has_match then not_applicable d
  else if String.eqb (pd_setting_definition_item_id d) DISTRO_TYPE then set_actual system_distro d
  else not_applicable d.

Definition process_distro_group (system_distro version_id : string) (system_version : Version) (has_match : bool)
  (details : list PolicyDetails) (indices : list nat) : list PolicyDetails :=
  let matches_ := group_matches system_distro details indices in
  foldl (λ details i, alter (distro_outcome system_distro version_id system_version matches_ has_match) i details)
    details indices.

Definition apply_distribution_compliance (system_distro version_id : string) (system_version : Version)
  (details : list PolicyDetails) : list PolicyDetails :=
  let groups := (map_to_list (distro_groups details)).*2 in
  let has_match := existsb (group_matches system_distro details) groups in
  foldl (process_distro_group system_distro version_id system_version has_match) details groups.

(** The rules for passwords, with the word the messages use. *)
Definition password_rules : list (string * string) := [
  ("linux_passwordpolicy_minimumlength", "length"); ("linux_passwordpolicy_minimumdigits", "digits");
  ("linux_passwordpolicy_minimumlowercase", "lowercase"); ("linux_passwordpolicy_minimumsymbols", "symbols");
  ("linux_passwordpolicy_minimumuppercase", "uppercase")].

Definition policy_cache_set (conn : Opened) (key : string) (value : PolicyValue) : TM bool :=
  fault ← outside pe_set_fault;
  on_policies (λ _ file, let '(c, ok) := policy_set fault (Build_PolicyCache conn file) key value in (ok, pc_file c)).

(** A setting that is not about the distribution: the errors it adds. *)
Definition apply_setting (conn : Opened) (d : PolicyDetails) : TM (list string * PolicyDetails) :=
  let id := pd_setting_definition_item_id d in
  if is_distro_setting id then mret ([], d)
  else if String.eqb id "linux_deviceencryption_required" then
    encrypted ← is_disk_encrypted;
    let actual := if encrypted : bool then "true" else "false" in
    mret ([], if negb (String.eqb (to_lowercase (pd_expected_value d)) "true") || encrypted
              then set_state actual "Compliant" d else set_actual actual d)
  else
    match List.find (λ p, String.eqb p.1 id) password_rules with
    | None => mret ([], d)
    | Some (_, word) =>
        match parse_uint u32_max (pd_expected_value d) with
        | None => mret (["Failed to read minimum password " +:+ word +:+ " policy"], d)
        | Some n =>
            ok ← policy_cache_set conn id (PolicyValue_Int n);
            mret (if ok : bool then ([], compliant d)
                  else (["Failed to set minimum password " +:+ word +:+ " policy: " +:+ pe_sql_error], d))
        end
    end.

Fixpoint apply_settings (conn : Opened) (l : list PolicyDetails) : TM (list string * list PolicyDetails) :=
  match l with
  | [] => mret ([], [])
  | d :: l =>
      '(e, d) ← apply_setting conn d;
      '(es, l) ← apply_settings conn l;
      mret (e ++ es, d :: l)
  end.

(** [PolicyCache::new(POLICY_CACHE, true)], as root. *)
Definition open_policy_cache : TM (option Opened) :=
  on_policies (λ w file, let '(file, c) := PolicyCache_new true true (pe_open_faults w) file in (pc_conn <$> c, file)).

Definition apply_compliance (p : PolicyStatus) : TM (result unit string * PolicyStatus) :=
  os ← ask os_release;
  match os with
  | Err e => mret (Err ("Failed to read /etc/os-release: " +:+ e), p)
  | Ok (system_distro, version_id) =>
      let system_version_str := normalize_version version_id in
      match version_parse system_version_str with
      | Err e => mret (Err ("Failed to parse system version '" +:+ system_version_str +:+ "' as semver: " +:+ e), p)
      | Ok system_version =>
          conn ← open_policy_cache;
          match conn with
          | None => mret (Err pe_sql_error, p)
          | Some conn =>
              let details := apply_distribution_compliance system_distro version_id system_version (ps_details p) in
              '(errors, details) ← apply_settings conn details;
              mret (match errors with
                    | [] => Ok tt
                    | _ => Err ("Compliance check failures: " +:+ String.concat "; " errors)
                    end, with_details details p)
          end
      end
  end.

Definition is_compliance_setting (id : string) : bool :=
  String.prefix "linux_distribution_" id || String.prefix "linux_deviceencryption_" id
  || String.prefix "linux_passwordpolicy_" id.

(** A failure is kept and the loop goes on. *)
Fixpoint apply_compliance_policies (l : list PolicyStatus) : TM (list string * list PolicyStatus) :=
  match l with
  | [] => mret ([], [])
  | p :: l =>
      '(e, p) ← (if has_setting is_compliance_setting p then
                   '(r, p') ← apply_compliance p;
                   mret (match r with
                         | Ok _ => []
                         | Err e => ["Policy " +:+ ps_policy_id p +:+ ": " +:+ e]
                         end, p')
                 else mret ([], p));
      '(es, l) ← apply_compliance_policies l;
      mret (e ++ es, p :: l)
  end.

Definition compliance_cse (l : list PolicyStatus) : TM (result unit string * list PolicyStatus) :=
  '(errors, l) ← apply_compliance_policies l;
  mret (match errors with
        | [] => Ok tt
        | _ => Err ("Compliance processing errors: " +:+ String.concat "; " errors)
        end, l).

(** ** [custom_compliance_ext.rs] *)

(** The output of a discovery script, which runs directly if it begins with a shebang. *)
Definition execute_script (script : string) : TM (result string string) :=
  let '(contents, has_shebang) :=
    if utf8_valid script then
      let normalized := normalize_newlines script in (normalized, String.prefix "#!" normalized)
    else (script, false) in
  temp_path ←! outside (te_temp_file contents);
  output ← (if has_shebang : bool then command temp_path [] [] else command "/bin/sh" [temp_path] []);
  match output with
  | Err e =>
      mret (Err ((if has_shebang then "Failed to execute script directly: " else "Failed to execute script via /bin/sh: ")
                 +:+ he_display e))
  | Ok output =>
      let stdout := ou_stdout_lossy output in
      let stderr := ou_stderr_lossy output in
      mret (if String.eqb stdout "" then
              if String.eqb stderr "" then Err "No output returned from script"
              else Err ("Script returned no stdout: " +:+ stderr)
            else
              match is_json_object stdout with
              | Ok _ => Ok stdout
              | Err e => Err ("Output is not well-formed json: " +:+ e)
              end)
  end.

Definition DISCOVERY_SCRIPT : string := "linux_customcompliance_discoveryscript".

Definition run_discovery (d : PolicyDetails) : TM PolicyDetails :=
  r ← (match b64_decode (pd_expected_value d) with
       | Err e => mret (Err ("Failed to decode CSE: " +:+ e))
       | Ok decoded => execute_script decoded
       end);
  mret (match r with
        | Ok output => pe_set_status (Some "Unknown") (Some output) ComplianceState_Unknown d
        | Err e => pe_set_status (Some "Error") (Some e) ComplianceState_Error d
        end).

(** The first discovery script of a policy is the one that runs. *)
Fixpoint discover_first (l : list PolicyDetails) : TM (list PolicyDetails) :=
  match l with
  | [] => mret []
  | d :: l =>
      if String.eqb (pd_setting_definition_item_id d) DISCOVERY_SCRIPT then d ← run_discovery d; mret (d :: l)
      else l ← discover_first l; mret (d :: l)
  end.

Fixpoint custom_compliance_cse (l : list PolicyStatus) : TM (list PolicyStatus) :=
  match l with
  | [] => mret []
  | p :: l =>
      p ← (if has_setting (String.eqb DISCOVERY_SCRIPT) p
           then details ← discover_first (ps_details p); mret (with_details details p)
           else mret p);
      l ← custom_compliance_cse l;
      mret (p :: l)
  end.

(** ** [policies.rs] *)

Definition DEFAULT_PORTAL_VERSION : string := "1.2511.11".

Definition policy_portal_version (vers : option (list string)) : string :=
  match vers with
  | None | Some [] => DEFAULT_PORTAL_VERSION
  | Some vers => default DEFAULT_PORTAL_VERSION (last vers)
  end.

Definition failure_of (r : result unit string) : list string := match r with Ok _ => [] | Err e => [e] end.

(** The extensions, in order, each on what the one before it has left. *)
Definition run_extensions (cfg : HimmelblauConfig) (account_id : string) (l : list PolicyStatus)
  : TM (list string * list PolicyStatus) :=
  '(r1, l) ← scripts_cse cfg account_id l;
  '(r2, l) ← compliance_cse l;
  l ← custom_compliance_cse l;
  mret (failure_of r1 ++ failure_of r2, l).

Definition apply_intune_policy (cfg : HimmelblauConfig)
  (intune_device_id account_id graph_token intune_token iwservice_token : string)
  : TM (result (list NoncompliantRule) string) :=
  match split_username account_id with
  | None => mret (Err "Failed to parse domain name from account id")
  | Some (_, domain) =>
      let ip_versions := get_ip_versions cfg in
      let request_timeout := get_request_timeout (config cfg) in
      graph ←! outside (pe_graph_new (get_odc_provider cfg domain) domain None None None request_timeout ip_versions);
      endpoints ←! outside (pe_endpoints graph graph_token);
      vers ← outside pe_portal_versions;
      intune ←! mret (pe_intune_new endpoints (policy_portal_version vers) request_timeout ip_versions);
      _ ←! mret (pe_enroll_attrs domain);
      _ ←! outside (pe_details intune intune_token domain intune_device_id);
      policies ←! outside (pe_policies intune intune_token intune_device_id);
      '(errors, statuses) ← run_extensions cfg account_id policies;
      r ← syscall (Sys_Report {| is_device_id := intune_device_id; is_policy_statuses := statuses |});
      match r with
      | Err e => mret (Err (he_display e))
      | Ok _ =>
          _ ← outside (λ w, (tt, pe_sleep 3 w));
          rules ←! outside (pe_noncompliant_rules intune iwservice_token intune_device_id);
          mret (match errors with
                | [] => Ok rules
                | _ => Err ("Policy enforcement failed: " +:+ pe_debug_errors errors)
                end)
      end
  end.

End policies.
