(* ===== verification/Tasks.v ===== *)
(** * The tasks daemon: [src/daemon/src/tasks_daemon.rs]

    The process that does as root what the daemon asks it to: home directories, local
    groups, the logon script, Kerberos files and tickets, the profile photo, Intune policies
    and subordinate ids. The crate has no feature [selinux], so that the parts of the code
    that depend on it are not compiled. The start-up, the reconnection and the signals of
    [main] are not modelled. *)
From stdpp Require Import base gmap strings list fin_maps.
From Stdlib Require Import ZArith Lia Ascii.
From S2P Require Import Prelude Proto Caches Config Pam TaskHost Policies.

Open Scope rust_scope.

Definition NUL : ascii := "000"%char.
Definition TAB : string := String "009"%char "".
Definition SKEL_DIR : string := "/etc/skel/".
Definition HOME_UMASK : Z := 0x17.
Definition ICONS_DIR : string := "/var/lib/AccountsService/icons/".
Definition USERS_DIR : string := "/var/lib/AccountsService/users/".
Definition DEFAULT_KERBEROS_CONF_DIR : string := "/etc/krb5.conf.d/".
Definition REALM : string := "KERBEROS.MICROSOFTONLINE.COM".

(** More getters the build generates. *)
Class TaskConfig `{I : IniFile} : Type := {
  get_use_etc_skel : Ini → bool;
  get_local_groups : Ini → list string;
  get_local_sudo_group : Ini → string
}.

(** serde_json on the socket to the daemon, and [{:?}] of text. *)
Class TaskCodecOps {X : Ext} : Type := {
  task_from_slice : list Byte.byte → option TaskRequest;
  debug_text : string → string
}.

(** ** Home directories *)

(** A name without leading dots and without slashes. *)
Definition safe_name (name : string) : string :=
  remove_chars (λ c, Ascii.eqb c SLASH || Ascii.eqb c BACKSLASH) (trim_start_char DOT name).

(** Whether a path lies directly in the directory [home_prefix]. *)
Definition check_parent (what home_prefix path : string) : result unit string :=
  match parent path with
  | Some pp =>
      if bool_decide (pp = components home_prefix) then Ok tt
      else Err ("Invalid home directory " +:+ what +:+ " - not within home_prefix")
  | None =>
      Err (if String.eqb what "name" then "Invalid/Corrupt home directory path - no prefix found"
           else "Invalid/Corrupt alias directory path - no prefix found")
  end.

Section tasks.
Context {X : Ext} {I : IniFile} {G : GeneratedConfig} {H : Config.Host} {PCf : PamConfig} {TC : TaskConfig} {TK : TaskCodecOps}.
Context {W : Type} {TE : TaskEnv W} {PE : PolicyEnv W}.
Variable cfg : HimmelblauConfig.
Notation TM := (TM W).

(** A call whose failure is reported as [{:?}], or as [{}]. *)
Definition sys_debug (c : SysCall) : TM (result unit string) :=
  r ← syscall c; mret (result_map_err he_debug r).
Definition sys_display (c : SysCall) : TM (result unit string) :=
  r ← syscall c; mret (result_map_err he_display r).

Definition chown (path : string) (uid gid : Z) : TM (result unit string) :=
  if contains_char NUL path then mret (Err "Unable to create c-string")
  else
    r ← syscall (Sys_Lchown path uid gid);
    mret (match r with Ok _ => Ok tt | Err _ => Err "Unable to set ownership" end).

(** The entries of [/etc/skel], as [WalkDir] gives them: the path below it and whether it is
    a directory. *)
Fixpoint copy_skel (hd_path : string) (uid gid : Z) (entries : list (string * bool)) : TM (result unit string) :=
  match entries with
  | [] => mret (Ok tt)
  | (rel, is_dir) :: entries =>
      let dest := join hd_path rel in
      _ ←! (if is_dir : bool then sys_display (Sys_CreateDirAll dest) else sys_display (Sys_Copy (join SKEL_DIR rel) dest));
      _ ←! chown dest uid gid;
      copy_skel hd_path uid gid entries
  end.

(** The home directory, if there is none. *)
Definition make_home (info : HomeDirectoryInfo) (hd_path : string) (use_etc_skel : bool) : TM (result unit string) :=
  before ← umask HOME_UMASK;
  r ← syscall (Sys_CreateDirAll hd_path);
  _ ← umask before;
  match r with
  | Err e => mret (Err (he_debug e))
  | Ok _ =>
      _ ←! chown hd_path (hd_uid info) (hd_gid info);
      skel ← ask (te_exists SKEL_DIR);
      if use_etc_skel && skel then
        entries ← ask te_skel;
        copy_skel hd_path (hd_uid info) (hd_gid info) entries
      else mret (Ok tt)
  end.

(** The symbolic link [alias] to [name]. *)
Definition make_alias (home_prefix name alias_ : string) : TM (result unit string) :=
  let alias_path := home_prefix +:+ safe_name alias_ in
  _ ←! mret (check_parent "alias" home_prefix alias_path);
  exists_ ← ask (te_exists alias_path);
  if exists_ : bool then
    attr ← ask (te_is_symlink alias_path);
    match attr with
    | Err e => mret (Err (he_debug e))
    | Ok true => _ ←! sys_debug (Sys_RemoveFile alias_path); sys_debug (Sys_Symlink name alias_path)
    | Ok false => mret (Ok tt)
    end
  else sys_debug (Sys_Symlink name alias_path).

Fixpoint make_aliases (home_prefix name : string) (aliases : list string) : TM (result unit string) :=
  match aliases with
  | [] => mret (Ok tt)
  | alias_ :: aliases => _ ←! make_alias home_prefix name alias_; make_aliases home_prefix name aliases
  end.

Definition create_home_directory (info : HomeDirectoryInfo) (home_prefix : string) (use_etc_skel : bool)
  : TM (result unit string) :=
  let name := safe_name (hd_name info) in
  prefix_ok ← ask (λ w, te_exists home_prefix w && te_is_dir home_prefix w);
  if negb prefix_ok then mret (Err "Invalid home_prefix from configuration")
  else
    let hd_path := home_prefix +:+ name in
    _ ←! mret (check_parent "name" home_prefix hd_path);
    exists_ ← ask (te_exists hd_path);
    _ ←! (if exists_ : bool then mret (Ok tt) else make_home info hd_path use_etc_skel);
    make_aliases home_prefix name (hd_aliases info).

(** ** Local groups *)

Definition add_user_to_group (account_id local_group : string) : TM unit :=
  _ ← command "gpasswd" ["-a"; account_id; local_group] []; mret tt.

Definition user_in_group (account_id local_group : string) : TM bool :=
  r ← command "getent" ["group"; local_group] [];
  mret (match r with
        | Ok out =>
            if ou_success out then
              match split_char COLON (ou_stdout_lossy out) !! 3%nat with
              | Some users => existsb (λ u, String.eqb u account_id) (split_char COMMA users)
              | None => false
              end
            else false
        | Err _ => false
        end).

Definition remove_user_from_group (account_id local_group : string) : TM unit :=
  member ← user_in_group account_id local_group;
  if member : bool then _ ← command "gpasswd" ["-d"; account_id; local_group] []; mret tt
  else mret tt.

Fixpoint add_user_to_groups (account_id : string) (groups : list string) : TM unit :=
  match groups with
  | [] => mret tt
  | g :: groups => _ ← add_user_to_group account_id g; add_user_to_groups account_id groups
  end.

(** The arm of [handle_tasks] for [LocalGroups]. *)
Definition set_local_groups (account_id : string) (is_sudoer : bool) : TM unit :=
  names ← ask te_mapped_names;
  let account_id := map_upn_to_name cfg account_id names in
  let local_groups := get_local_groups (config cfg) in
  _ ← add_user_to_groups account_id local_groups;
  let local_sudo_group := get_local_sudo_group (config cfg) in
  if bool_decide (local_sudo_group ∈ local_groups) then mret tt
  else if is_sudoer then add_user_to_group account_id local_sudo_group
  else remove_user_from_group account_id local_sudo_group.

(** ** The logon script *)

Definition execute_user_script (account_id script access_token : string) : TM Z :=
  r ← command "sh" ["-c"; script] [("USERNAME", account_id); ("ACCESS_TOKEN", access_token)];
  mret (match r with
        | Ok res => default (if ou_success res then 0 else 2) (ou_code res)
        | Err _ => 2
        end).

(** ** Subordinate ids *)

Definition SUBUID_FILE : string := "/etc/subuid".
Definition SUBGID_FILE : string := "/etc/subgid".

Definition user_has_subid_entry (username subid_file : string) : TM bool :=
  contents ← ask (te_read_to_string subid_file);
  mret (match contents with
        | Some contents => existsb (String.prefix (username +:+ ":")) (lines contents)
        | None => false
        end).

Definition subid_entry (username : string) (start count : Z) : string :=
  username +:+ ":" +:+ uint_to_string start +:+ ":" +:+ uint_to_string count +:+ NL.

Definition add_subid_entry (username : string) (start count : Z) (subid_file : string) : TM (result unit string) :=
  has ← user_has_subid_entry username subid_file;
  if has : bool then mret (Ok tt)
  else
    r ← syscall (Sys_OpenAppend subid_file);
    match r with
    | Err e => mret (Err ("Failed to open " +:+ subid_file +:+ ": " +:+ he_debug e))
    | Ok _ =>
        r ← syscall (Sys_Write subid_file (subid_entry username start count));
        mret (match r with
              | Ok _ => Ok tt
              | Err e => Err ("Failed to write to " +:+ subid_file +:+ ": " +:+ he_debug e)
              end)
    end.

Definition setup_subordinate_ids (username : string) (start count : Z) : TM (result unit string) :=
  _ ←! add_subid_entry username start count SUBUID_FILE;
  add_subid_entry username start count SUBGID_FILE.

(** ** Kerberos *)

Definition store_tgt (tgt : KerberosCredentials) (uid gid : Z) : TM (result unit string) :=
  let ccname := "KEYRING:persistent:" +:+ uint_to_string uid in
  let shown := "Some(" +:+ debug_text ccname +:+ ")" in
  guard ← switch_user_group uid gid;
  match guard with
  | Err e => mret (Err ("Failed to switch user/group: " +:+ he_display e))
  | Ok guard =>
      r ← syscall (Sys_Ccache ccname Ccache_Resolve);
      match r with
      | Err e => _ ← drop_guard guard; mret (Err ("Failed to resolve credential cache " +:+ shown +:+ ": " +:+ he_debug e))
      | Ok _ =>
          r ← syscall (Sys_Ccache ccname (Ccache_Init (te_cred_name tgt)));
          match r with
          | Err e => _ ← drop_guard guard; mret (Err ("Failed to init credential cache " +:+ shown +:+ ": " +:+ he_debug e))
          | Ok _ =>
              r ← syscall (Sys_Ccache ccname (Ccache_Store tgt));
              match r with
              | Err e => _ ← drop_guard guard; mret (Err ("Failed to store TGT in credential cache: " +:+ he_debug e))
              | Ok _ => _ ← drop_guard guard; mret (Ok tt)
              end
          end
      end
  end.

Definition store_opt_tgt (tgt : option KerberosCredentials) (uid gid : Z) : TM (result unit string) :=
  match tgt with Some tgt => store_tgt tgt uid gid | None => mret (Ok tt) end.

Definition krb_libdefaults : string := "[libdefaults]" +:+ NL +:+ TAB +:+ "dns_canonicalize_hostname = false" +:+ NL.

Definition krb_realms (tenant_id : string) : string :=
  "[realms]" +:+ NL +:+ TAB +:+ REALM +:+ " = {" +:+ NL +:+ TAB +:+ TAB +:+ "kdc = https://login.microsoftonline.com/"
  +:+ tenant_id +:+ "/kerberos" +:+ NL +:+ TAB +:+ "}" +:+ NL.

Definition krb_domain_realms (top_level_names : option string) : string :=
  let names :=
    match top_level_names with
    | Some s => List.filter (λ e, negb (contains_char COLON e)) (trim <$> split_char COMMA s)
    | None => []
    end in
  "[domain_realm]" +:+ NL +:+ String.concat NL ((λ x, TAB +:+ x +:+ " = " +:+ REALM) <$> names) +:+ NL.

Definition krb_snippet (tenant_id : string) : string :=
  join DEFAULT_KERBEROS_CONF_DIR ("himmelblau_" +:+ tenant_id +:+ ".conf").

Definition KRB_MODE : Z := 0x1a4.

Definition write_kerberos_config_snippet (top_level_names : option string) (tenant_id : string) : TM (result unit string) :=
  if String.eqb tenant_id "" then mret (Err "Failed to write Kerberos config snippet, empty tenant_id")
  else
    match te_uuid_try_parse tenant_id with
    | Err x => mret (Err ("Failed to validate tenant ID: " +:+ x))
    | Ok _ =>
        let dir := debug_text DEFAULT_KERBEROS_CONF_DIR in
        e ← ask (te_try_exists DEFAULT_KERBEROS_CONF_DIR);
        is_dir ← ask (te_is_dir DEFAULT_KERBEROS_CONF_DIR);
        match e with
        | Err e => mret (Err ("Failed to check if " +:+ dir +:+ " exists: " +:+ he_display e))
        | Ok false => mret (Err ("Path " +:+ dir +:+ " does not exist"))
        | Ok true =>
            if is_dir : bool then
              let snippet := krb_snippet tenant_id in
              let failed (what : string) (r : result unit HostError) : result unit string :=
                match r with Ok _ => Ok tt | Err e => Err (what +:+ debug_text snippet +:+ ": " +:+ he_display e) end in
              _ ←! (r ← syscall (Sys_OpenTruncate snippet (Some KRB_MODE) false); mret (failed "Failed to open " r));
              _ ←! (r ← syscall (Sys_Write snippet krb_libdefaults); mret (failed "Failed to write to " r));
              _ ←! (r ← syscall (Sys_Write snippet (krb_realms tenant_id)); mret (failed "Failed to write to " r));
              r ← syscall (Sys_Write snippet (krb_domain_realms top_level_names)); mret (failed "Failed to write to " r)
            else mret (Err ("Path " +:+ dir +:+ " is not a directory"))
        end
    end.

(** ** The profile photo *)

Definition photo_char (c : ascii) : bool :=
  let n := nat_of_ascii c in
  (Nat.leb 48 n && Nat.leb n 57) || (Nat.leb 65 n && Nat.leb n 90) || (Nat.leb 97 n && Nat.leb n 122)
  || bool_decide (c ∈ ["@"%char; "."%char; "_"%char; "-"%char]).

Definition valid_photo_id (account_id : string) : bool := negb (String.eqb account_id "") && every_char photo_char account_id.

(** Fetch the photo into the file, if a client can be made. *)
Definition fetch_photo (domain access_token filename : string) : TM unit :=
  graph ← outside (pe_graph_new (get_odc_provider cfg domain) domain (Some (get_authority_host cfg domain))
                     (get_tenant_id cfg domain) (get_graph_url cfg domain) (get_request_timeout (config cfg))
                     (get_ip_versions cfg));
  match graph with
  | Ok _ => _ ← syscall (Sys_FetchPhoto filename); mret tt
  | Err _ => mret tt
  end.

Definition load_profile_photo (upn access_token : string) : TM unit :=
  dir ← ask (te_exists ICONS_DIR);
  if dir : bool then
    names ← ask te_mapped_names;
    let account_id := map_upn_to_name cfg upn names in
    if valid_photo_id account_id then
      match split_username upn with
      | Some (_, domain) =>
          let filename := ICONS_DIR +:+ account_id in
          r ← syscall (Sys_OpenTruncate filename None true);
          _ ← (match r with Ok _ => fetch_photo domain access_token filename | Err _ => mret tt end);
          let user_file := USERS_DIR +:+ account_id in
          r ← syscall (Sys_OpenTruncate user_file None true);
          match r with
          | Ok _ =>
              _ ← syscall (Sys_Write user_file ("[User]" +:+ NL +:+ "Icon=" +:+ filename +:+ NL +:+ "SystemAccount=false" +:+ NL));
              mret tt
          | Err _ => mret tt
          end
      | None => mret tt
      end
    else mret tt
  else mret tt.

(** ** The loop *)

Definition respond (r : result unit string) : TaskResponse :=
  match r with Ok _ => TaskResponse_Success 0 | Err msg => TaskResponse_Error msg end.

(** The response to a request. *)
Definition handle_task (req : TaskRequest) : TM TaskResponse :=
  match req with
  | TaskRequest_HomeDirectory info =>
      r ← create_home_directory info (get_home_prefix cfg (snd <$> split_username (hd_name info))) (get_use_etc_skel (config cfg));
      mret (respond r)
  | TaskRequest_LocalGroups account_id is_sudoer => _ ← set_local_groups account_id is_sudoer; mret (TaskResponse_Success 0)
  | TaskRequest_LogonScript account_id access_token =>
      match get_logon_script (config cfg) with
      | Some script => status ← execute_user_script account_id script access_token; mret (TaskResponse_Success status)
      | None => mret (TaskResponse_Success 0)
      end
  | TaskRequest_KerberosConfig top_level_names tenant_id =>
      match tenant_id with
      | Some t => r ← write_kerberos_config_snippet top_level_names t; mret (respond r)
      | None => mret (TaskResponse_Error "Failed to write Kerberos config snippet, no tenant_id")
      end
  | TaskRequest_KerberosTGTs uid gid tgt_cloud tgt_ad =>
      cloud_ret ← store_opt_tgt tgt_cloud uid gid;
      ad_ret ← store_opt_tgt tgt_ad uid gid;
      mret (respond (match cloud_ret with Ok _ => ad_ret | Err e => Err e end))
  | TaskRequest_LoadProfilePhoto account_id access_token =>
      _ ← load_profile_photo account_id access_token; mret (TaskResponse_Success 0)
  | TaskRequest_ApplyPolicy intune_device_id account_id graph_token intune_token iwservice_token =>
      match intune_device_id with
      | None => mret (TaskResponse_Success 0)
      | Some intune_device_id =>
          r ← apply_intune_policy cfg intune_device_id account_id graph_token intune_token iwservice_token;
          mret (match r with
                | Err e => TaskResponse_Error ("Failed to apply Intune policies: " +:+ e)
                | Ok [] => TaskResponse_Success 0
                | Ok rules => TaskResponse_NonCompliant rules
                end)
      end
  | TaskRequest_SubordinateIds username start count => r ← setup_subordinate_ids username start count; mret (respond r)
  end.

(** [handle_tasks]: [TaskCodec::decode] takes whatever is no request for the beginning of
    one. The loop ends with the stream or when a response cannot be sent. *)
Fixpoint handle_tasks (chunks : list (list Byte.byte)) (buf : list Byte.byte) : TM unit :=
  match chunks with
  | [] => mret tt
  | chunk :: chunks =>
      match task_from_slice (buf ++ chunk) with
      | None => handle_tasks chunks (buf ++ chunk)
      | Some req =>
          resp ← handle_task req;
          r ← syscall (Sys_Send resp);
          match r with
          | Ok _ => handle_tasks chunks []
          | Err _ => mret tt
          end
      end
  end.

End tasks.
