(* ===== verification/TasksFacts.v ===== *)
(** * Reasoning about the tasks daemon

    [acts P m]: whatever the host does, [m] leaves the process with the user and the umask it
    had, and every call it makes satisfies [P], which may depend on that user. The
    components of paths that are put together. *)
From stdpp Require Import base gmap strings list fin_maps.
From Stdlib Require Import ZArith Lia Ascii.
From S2P Require Import Prelude Proto Caches Config ConfigTheorems Pam TaskHost Policies Tasks.

Open Scope rust_scope.

Lemma append_cons c (a b : string) : String c a +:+ b = String c (a +:+ b).
Proof. done. Qed.

(** ** Strings and paths *)

Lemma contains_char_append c (a b : string) : contains_char c (a +:+ b) = contains_char c a || contains_char c b.
Proof. induction a as [|x a IH]; [done|]. rewrite append_cons. simpl. rewrite IH. by destruct (Ascii.eqb x c). Qed.

Lemma remove_chars_none drop c s : drop c = true → contains_char c (remove_chars drop s) = false.
Proof.
  intros Hd. induction s as [|x s IH]; [done|]. simpl. destruct (drop x) eqn:E; [done|]. simpl. rewrite IH.
  destruct (Ascii.eqb_spec x c) as [->|]; [congruence|done].
Qed.

Lemma safe_name_slash n : contains_char SLASH (safe_name n) = false.
Proof. apply remove_chars_none. by rewrite Ascii.eqb_refl. Qed.

(** A path that ends with a slash, or not, taken apart. *)
Lemma ends_in_slash p : last_char p = Some SLASH → ∃ q, p = q +:+ String SLASH "".
Proof.
  induction p as [|c p IH]; [done|]. destruct p as [|d p]; [intros [= ->]; by exists ""|].
  intros Hp. destruct (IH Hp) as [q Hq]. exists (String c q). by rewrite append_cons, <- Hq.
Qed.

Lemma last_char_none p : last_char p = None → p = "".
Proof. induction p as [|c [|d p] IH]; [done..|]. intros Hp. by apply IH in Hp. Qed.

Definition keeps (y : string) : bool := negb (String.eqb y "") && negb (String.eqb y ".").

Lemma names_app rel a b : a ≠ [] → names_of rel (a ++ b) = names_of rel a ++ List.filter keeps b.
Proof. destruct a as [|x a]; [done|]. intros _. simpl. by rewrite List.filter_app, (assoc_L (++)). Qed.

Lemma is_absolute_app a b : a ≠ "" → is_absolute (a +:+ b) = is_absolute a.
Proof. by destruct a. Qed.

(** [a/b] *)
Lemma components_slash a b : a ≠ "" →
  components (a +:+ String SLASH b) = ((components a).1, (components a).2 ++ List.filter keeps (split_char SLASH b)).
Proof.
  intros Ha. unfold components. rewrite is_absolute_app by done. rewrite split_app, names_app by apply split_char_nonempty. done.
Qed.

(** ** Where a path lies *)

(** [p] is an entry of the directory [d], and not the one that leads out of it. *)
Definition directly_in (d p : string) : Prop :=
  ∃ x, components p = ((components d).1, (components d).2 ++ [x]) ∧ x ≠ "..".

(** [p] is [d] or lies below it. *)
Definition within (d p : string) : Prop :=
  ∃ l, components p = ((components d).1, (components d).2 ++ l) ∧ ".." ∉ l.

Lemma within_refl d : within d d.
Proof. exists []. rewrite app_nil_r. destruct (components d). split; [done|apply not_elem_of_nil]. Qed.

Lemma parent_entry d p : parent p = Some (components d) → ∃ x, components p = ((components d).1, (components d).2 ++ [x]).
Proof.
  unfold parent. destruct (components p) as [r l], (components d) as [rd ld]. destruct l as [|y l]; [done|].
  destruct (exists_last (l := y :: l)) as (l' & x & E); [done|]. rewrite E, removelast_last. intros [= <- <-].
  by exists x.
Qed.

Lemma check_parent_entry what d p : check_parent what d p = Ok tt → ∃ x, components p = ((components d).1, (components d).2 ++ [x]).
Proof.
  unfold check_parent. destruct (parent p) as [pp|] eqn:E; [|done]. case_bool_decide as Hp; [|done]. intros _.
  apply parent_entry. by rewrite E, Hp.
Qed.

Lemma dotdot_kept l : ".." ∉ l → ".." ∉ List.filter keeps l.
Proof. intros Hl Hin. apply elem_of_bfilter in Hin as [? _]. done. Qed.

Lemma within_join d rel : d ≠ "" → ".." ∉ split_char SLASH rel → within d (join d rel).
Proof.
  intros Hd Hrel. exists (List.filter keeps (split_char SLASH rel)). split; [|by apply dotdot_kept]. unfold join.
  destruct (last_char d) as [c|] eqn:El; [|by apply last_char_none in El].
  destruct (Ascii.eqb_spec c SLASH) as [->|Hc]; [|by apply components_slash].
  apply ends_in_slash in El as [q ->]. rewrite append_assoc. change (String SLASH "" +:+ rel) with (String SLASH rel).
  destruct (decide (q = "")) as [->|Hq].
  - unfold components. simpl. done.
  - rewrite !components_slash by done. simpl. by rewrite app_nil_r.
Qed.

(** A plain name in a directory that is not the root. *)
Lemma entry_directly_in d f : d ≠ "" → contains_char SLASH f = false → f ∉ [""; "."; ".."] → directly_in d (d +:+ String SLASH f).
Proof.
  intros Hd Hf Hn. exists f. rewrite components_slash, split_no by done. simpl. unfold keeps.
  destruct (String.eqb_spec f ""), (String.eqb_spec f "."); set_solver.
Qed.

(** ** Calls *)

Section acts.
Context {X : Ext} {W : Type} {TE : TaskEnv W}.
Notation TM := (TM W).

Definition made (P : option (Z * Z) * SysCall → Prop) (s s' : TState W) : Prop :=
  ∃ l, t_calls s' = t_calls s ++ l ∧ Forall P l.

Lemma made_refl P s s' : t_calls s' = t_calls s → made P s s'.
Proof. intros H. exists []. by rewrite app_nil_r. Qed.

Lemma made_trans P s1 s2 s3 : made P s1 s2 → made P s2 s3 → made P s1 s3.
Proof. intros (l1 & H1 & F1) (l2 & H2 & F2). exists (l1 ++ l2). rewrite H2, H1, (assoc_L (++)). split; [done|by apply Forall_app]. Qed.

Lemma made_weaken (P Q : option (Z * Z) * SysCall → Prop) s s' : (∀ c, P c → Q c) → made P s s' → made Q s s'.
Proof. intros HPQ (l & Hl & Hf). exists l. split; [done|]. by eapply Forall_impl. Qed.

(** What stays as it was, and what was called, from [s] to [s']. *)
Definition acted (Inv : W → Prop) (P : option (Z * Z) * SysCall → Prop) (s s' : TState W) : Prop :=
  t_umask s' = t_umask s ∧ t_user s' = t_user s ∧ Inv (t_world s') ∧ made P s s'.

Definition acts (Inv : W → Prop) (P : option (Z * Z) * SysCall → Prop) {A} (m : TM A) : Prop :=
  ∀ s, t_user s = None → Inv (t_world s) → acted Inv P s (m s).2.

Context (Inv : W → Prop) (P : option (Z * Z) * SysCall → Prop).

Lemma acts_ret {A} (a : A) : acts Inv P (mret a).
Proof. intros s ??. unfold acted. split_and!; [done..|by apply made_refl]. Qed.

Lemma acts_ask {A} (f : W → A) : acts Inv P (ask f).
Proof. intros s ??. unfold acted. split_and!; [done..|by apply made_refl]. Qed.

(** What is known of the value. *)
Lemma acts_bind_value {A B} (Q : A → Prop) (m : TM A) (k : A → TM B) :
  acts Inv P m → (∀ s, Q (m s).1) → (∀ a, Q a → acts Inv P (k a)) → acts Inv P (m ≫= k).
Proof.
  intros Hm HQ Hk s Hs Hi. unfold mbind, TM_bind. destruct (Hm s Hs Hi) as (Hu & Hr & Hw & Hd). specialize (HQ s).
  destruct (m s) as [a s1]. simpl in *. destruct (Hk a HQ s1) as (Hu1 & Hr1 & Hw1 & Hd1); [congruence|done|].
  unfold acted. split_and!; [congruence..|done|by eapply made_trans].
Qed.

Lemma acts_bind {A B} (m : TM A) (k : A → TM B) : acts Inv P m → (∀ a, acts Inv P (k a)) → acts Inv P (m ≫= k).
Proof. intros Hm Hk. by apply acts_bind_value with (λ _, True). Qed.

(** Only the calls that the answer to a query allows. *)
Lemma acts_ask_bind {A B} (f : W → A) (k : A → TM B) : (∀ w, Inv w → acts Inv P (k (f w))) → acts Inv P (ask f ≫= k).
Proof. intros Hk s Hs Hi. by apply (Hk (t_world s) Hi s). Qed.

Lemma acts_try {A B E} (m : TM (result A E)) (k : A → TM (result B E)) :
  acts Inv P m → (∀ a, acts Inv P (k a)) → acts Inv P (t_try m k).
Proof. intros Hm Hk. apply acts_bind; [done|]. intros [a|e]; [done|apply acts_ret]. Qed.

(** After a check that was passed. *)
Lemma acts_check {A B E} (r : result A E) (k : A → TM (result B E)) :
  (∀ a, r = Ok a → acts Inv P (k a)) → acts Inv P (t_try (mret r) k).
Proof. intros Hk. destruct r as [a|e]; [by apply Hk|apply acts_ret]. Qed.

Definition keeps_inv (c : SysCall) : Prop := ∀ w, Inv w → Inv (te_sys c w).2.

Lemma acts_syscall c : P (None, c) → keeps_inv c → acts Inv P (syscall c).
Proof.
  intros Hc Hk s Hs Hi. specialize (Hk _ Hi). unfold syscall. destruct (te_sys c (t_world s)) as [r w].
  unfold acted. split_and!; [done..|]. exists [(None, c)]. simpl. by rewrite Hs, Forall_singleton.
Qed.

Lemma acts_command p a e : P (None, Sys_Run p a e) → (∀ w, Inv w → Inv (te_run p a e w).2) → acts Inv P (command p a e).
Proof.
  intros Hc Hk s Hs Hi. specialize (Hk _ Hi). unfold command. destruct (te_run p a e (t_world s)) as [r w].
  unfold acted. split_and!; [done..|]. exists [(None, Sys_Run p a e)]. simpl. by rewrite Hs, Forall_singleton.
Qed.

(** A call between two changes of the umask. *)
Lemma acts_masked {A} mask c (k : result unit HostError → TM A) :
  (∀ m, P (None, Sys_Umask m) ∧ keeps_inv (Sys_Umask m)) → P (None, c) → keeps_inv c → (∀ r, acts Inv P (k r)) →
  acts Inv P (before ← umask mask; r ← syscall c; _ ← umask before; k r).
Proof.
  intros Hm Hc Hkc Hk s Hs Hi. unfold mbind, TM_bind, umask, syscall, log_call.
  pose proof (proj2 (Hm mask) _ Hi) as H0. destruct (te_sys (Sys_Umask mask) _) as [r0 w0]. simpl in *.
  apply Hkc in H0 as H1. destruct (te_sys c w0) as [r w1]. simpl in *.
  pose proof (proj2 (Hm (t_umask s)) _ H1) as H2. destruct (te_sys (Sys_Umask (t_umask s)) w1) as [r2 w2]. simpl in *.
  match goal with |- context [k r ?s1] => destruct (Hk r s1) as (Hu1 & Hr1 & Hw1 & Hd1); [done..|] end.
  unfold acted. split_and!; [done..|]. eapply made_trans; [|done]. exists [(None, Sys_Umask mask); (None, c); (None, Sys_Umask (t_umask s))].
  simpl. rewrite Hs, <- !(assoc_L (++)). split; [done|]. repeat constructor; try done; apply Hm.
Qed.

Lemma acts_weaken (Q : option (Z * Z) * SysCall → Prop) {A} (m : TM A) : acts Inv P m → (∀ c, P c → Q c) → acts Inv Q m.
Proof.
  intros Hm HPQ s Hs Hi. destruct (Hm s Hs Hi) as (Hu & Hr & Hw & Hl). unfold acted. split_and!; [done..|by eapply made_weaken].
Qed.

End acts.

Create HintDb acts.
