(* ===== verification/TasksTheorems.v ===== *)
(** * The tasks daemon keeps to its tasks

    The daemon asks, over a socket, a process of root to act for a user. Whatever it asks,
    and whatever the host answers, the calls that process makes are those of the task: they
    touch the home directory, the files and the groups of that task and nothing else, tickets
    are stored as the user, and afterwards the process is root again with the umask it had.
    Who is taken out of the group of sudoers. *)
From stdpp Require Import base gmap strings list fin_maps.
From Stdlib Require Import ZArith Lia Ascii.
From S2P Require Import Prelude Proto Caches Config ConfigTheorems Pam TaskHost Policies Tasks TasksFacts.

Open Scope rust_scope.

(** What is relied on of the host: a directory has an entry [..], which is no symbolic link;
    of the calls for a home directory none removes a directory; what [WalkDir] finds below
    [/etc/skel] lies below it; and text that is a UUID has no slash. *)
Class TaskEnvLaws {X : Ext} {W : Type} (TE : TaskEnv W) : Prop := {
  tl_dotdot d p w : te_exists d w = true → te_is_dir d w = true →
    components p = ((components d).1, (components d).2 ++ [".."]) → te_exists p w = true ∧ te_is_symlink p w ≠ Ok true;
  tl_keeps_dir d c w : te_exists d w = true → te_is_dir d w = true →
    match c with
    | Sys_Umask _ | Sys_CreateDirAll _ | Sys_Lchown _ _ _ | Sys_Copy _ _ | Sys_RemoveFile _ | Sys_Symlink _ _ => True
    | _ => False
    end →
    te_exists d (te_sys c w).2 = true ∧ te_is_dir d (te_sys c w).2 = true;
  tl_skel w rel is_dir : (rel, is_dir) ∈ te_skel w → ".." ∉ split_char SLASH rel;
  tl_uuid t : te_uuid_try_parse t = Ok tt → contains_char SLASH t = false
}.

(** ** What each task may do *)

Section permitted.
Context {X : Ext} {I : IniFile} {G : GeneratedConfig} {H : Config.Host} {PCf : PamConfig} {TC : TaskConfig} {TK : TaskCodecOps}.
Context {W : Type} {TE : TaskEnv W} {PE : PolicyEnv W}.
Variable cfg : HimmelblauConfig.

Fixpoint drop_dots (l : list ascii) : list ascii :=
  match l with c :: l' => if decide (c = DOT) then drop_dots l' else l | [] => [] end.

(** The entry of the prefix that belongs to a name: the leading dots are taken off the name,
    and the slashes and backslashes out of it. *)
Definition own_entry (name : string) : string :=
  String.string_of_list_ascii (filter (λ c, c ≠ SLASH ∧ c ≠ BACKSLASH) (drop_dots (String.list_ascii_of_string name))).

Definition home_of (prefix : string) (info : HomeDirectoryInfo) : string := prefix +:+ own_entry (hd_name info).

(** An alias that the request names, as an entry of the prefix. *)
Definition alias_of (prefix : string) (info : HomeDirectoryInfo) (a : string) : Prop :=
  directly_in prefix a ∧ ∃ alias, alias ∈ hd_aliases info ∧ a = prefix +:+ own_entry alias.

(** The directories and files made are those of the user the request names, and are given to
    the numbers it names. *)
Inductive home_call (prefix : string) (info : HomeDirectoryInfo) : SysCall → Prop :=
| home_umask m : home_call prefix info (Sys_Umask m)
| home_dir p : directly_in prefix (home_of prefix info) → within (home_of prefix info) p →
    home_call prefix info (Sys_CreateDirAll p)
| home_own p : directly_in prefix (home_of prefix info) → within (home_of prefix info) p →
    home_call prefix info (Sys_Lchown p (hd_uid info) (hd_gid info))
| home_copy f p : directly_in prefix (home_of prefix info) → within (home_of prefix info) p → within SKEL_DIR f →
    home_call prefix info (Sys_Copy f p)
| home_unlink a : alias_of prefix info a → home_call prefix info (Sys_RemoveFile a)
| home_link a : alias_of prefix info a → home_call prefix info (Sys_Symlink (own_entry (hd_name info)) a).

Inductive group_call (name : string) : SysCall → Prop :=
| group_add g : g ∈ get_local_sudo_group (config cfg) :: get_local_groups (config cfg) →
    group_call name (Sys_Run "gpasswd" ["-a"; name; g] [])
| group_ask : group_call name (Sys_Run "getent" ["group"; get_local_sudo_group (config cfg)] [])
| group_remove : group_call name (Sys_Run "gpasswd" ["-d"; name; get_local_sudo_group (config cfg)] []).

Inductive krb_call (tenant : string) : SysCall → Prop :=
| krb_open f : directly_in DEFAULT_KERBEROS_CONF_DIR f →
    f = DEFAULT_KERBEROS_CONF_DIR +:+ "himmelblau_" +:+ tenant +:+ ".conf" →
    krb_call tenant (Sys_OpenTruncate f (Some KRB_MODE) false)
| krb_write f text : directly_in DEFAULT_KERBEROS_CONF_DIR f →
    f = DEFAULT_KERBEROS_CONF_DIR +:+ "himmelblau_" +:+ tenant +:+ ".conf" →
    krb_call tenant (Sys_Write f text).

(** The calls for the tickets of a request: the cache is touched as the user only, it is the
    user's, and only these tickets go into it. *)
Inductive tgt_call (uid gid : Z) (tgts : list KerberosCredentials) : option (Z * Z) * SysCall → Prop :=
| tgt_switch : tgt_call uid gid tgts (None, Sys_Switch uid gid)
| tgt_resolve : tgt_call uid gid tgts (Some (uid, gid), Sys_Ccache ("KEYRING:persistent:" +:+ uint_to_string uid) Ccache_Resolve)
| tgt_init tgt : tgt ∈ tgts → tgt_call uid gid tgts
    (Some (uid, gid), Sys_Ccache ("KEYRING:persistent:" +:+ uint_to_string uid) (Ccache_Init (te_cred_name tgt)))
| tgt_store tgt : tgt ∈ tgts → tgt_call uid gid tgts
    (Some (uid, gid), Sys_Ccache ("KEYRING:persistent:" +:+ uint_to_string uid) (Ccache_Store tgt))
| tgt_restore : tgt_call uid gid tgts (Some (uid, gid), Sys_Restore).

(** The local name of an account, by a mapping the host has at some moment. *)
Definition mapped (account name : string) : Prop :=
  ∃ w, name = map_upn_to_name cfg account (te_mapped_names w).

(** The name of a file in a directory: it is not empty and has no slash. *)
Definition file_name (name : string) : Prop := name ≠ "" ∧ SLASH ∉ String.list_ascii_of_string name.

(** The files of the account, whose local name is [name]. *)
Inductive photo_call (name : string) : SysCall → Prop :=
| photo_open d : d ∈ [ICONS_DIR; USERS_DIR] → file_name name → photo_call name (Sys_OpenTruncate (d +:+ name) None true)
| photo_fetch : file_name name → photo_call name (Sys_FetchPhoto (ICONS_DIR +:+ name))
| photo_user text : file_name name → photo_call name (Sys_Write (USERS_DIR +:+ name) text).

Definition policy_dir : string := join (get_policies_db_path cfg) "bin".

Inductive policy_file (account : string) : string → Prop :=
| policy_script id : policy_file account (script_file policy_dir id)
| policy_wrapper id : policy_file account (wrapper_file policy_dir id)
| policy_cron id : policy_file account (cron_file id)
| policy_cache : policy_file account (scripts_cache_path cfg account).

(** A discovery script runs from a temporary file. *)
Definition temp_file (t : string) : Prop := ∃ contents w, (te_temp_file contents w).1 = Ok t.

Inductive policy_call (device account : string) : SysCall → Prop :=
| policy_mkdir : policy_call device account (Sys_CreateDirAll policy_dir)
| policy_open f : policy_file account f → policy_call device account (Sys_OpenTruncate f None false)
| policy_write f text : policy_file account f → policy_call device account (Sys_Write f text)
| policy_remove f : policy_file account f → policy_call device account (Sys_RemoveFile f)
| policy_chmod mode f : policy_file account f → policy_call device account (Sys_Run "chmod" [mode; f] [])
| policy_lsblk l : policy_call device account (Sys_Run "lsblk" l [])
| policy_run t : temp_file t → policy_call device account (Sys_Run t [] [])
| policy_sh t : temp_file t → policy_call device account (Sys_Run "/bin/sh" [t] [])
| policy_report st : policy_call device account (Sys_Report {| is_device_id := device; is_policy_statuses := st |}).

Inductive subid_call (user : string) (start count : Z) : SysCall → Prop :=
| subid_open f : f ∈ [SUBUID_FILE; SUBGID_FILE] → subid_call user start count (Sys_OpenAppend f)
| subid_write f : f ∈ [SUBUID_FILE; SUBGID_FILE] → subid_call user start count (Sys_Write f (subid_entry user start count)).

Definition home_prefix_of (info : HomeDirectoryInfo) : string := get_home_prefix cfg (snd <$> split_username (hd_name info)).

(** The calls, with the user they are made as, that a request permits. *)
Inductive permitted : TaskRequest → option (Z * Z) * SysCall → Prop :=
| permitted_home info c : home_call (home_prefix_of info) info c → permitted (TaskRequest_HomeDirectory info) (None, c)
| permitted_groups account is_sudoer name c : mapped account name → group_call name c →
    permitted (TaskRequest_LocalGroups account is_sudoer) (None, c)
| permitted_script account token script : get_logon_script (config cfg) = Some script →
    permitted (TaskRequest_LogonScript account token)
      (None, Sys_Run "sh" ["-c"; script] [("USERNAME", account); ("ACCESS_TOKEN", token)])
| permitted_krb names tenant c : krb_call tenant c → permitted (TaskRequest_KerberosConfig names (Some tenant)) (None, c)
| permitted_tgts uid gid cloud ad c : tgt_call uid gid (option_list cloud ++ option_list ad) c →
    permitted (TaskRequest_KerberosTGTs uid gid cloud ad) c
| permitted_photo account token name c : mapped account name → photo_call name c →
    permitted (TaskRequest_LoadProfilePhoto account token) (None, c)
| permitted_policy device account t1 t2 t3 c : policy_call device account c →
    permitted (TaskRequest_ApplyPolicy (Some device) account t1 t2 t3) (None, c)
| permitted_subids user start count c : subid_call user start count c →
    permitted (TaskRequest_SubordinateIds user start count) (None, c).

End permitted.

Create HintDb calls.
#[export] Hint Constructors home_call group_call krb_call tgt_call photo_call policy_file policy_call subid_call permitted : calls.

(** One step through a task. *)
Ltac acts_step :=
  lazymatch goal with
  | |- acts _ _ (mret _) => apply acts_ret
  | |- acts _ _ (ask _) => apply acts_ask
  | |- acts _ _ (syscall _) => apply acts_syscall
  | |- acts _ _ (command _ _ _) => apply acts_command
  | |- acts _ _ (t_try (mret _) _) => apply acts_check; intros ??
  | |- acts _ _ (t_try _ _) => apply acts_try; [|intros ?]
  | |- acts _ _ (ask _ ≫= _) => apply acts_ask_bind; intros ??
  | |- acts _ _ (mbind _ _) => apply acts_bind; [|intros ?]
  | |- acts _ _ (match ?x with _ => _ end) => destruct x eqn:?
  end.

Section confined.
Context {X : Ext} {I : IniFile} {G : GeneratedConfig} {H : Config.Host} {PCf : PamConfig} {TC : TaskConfig} {TK : TaskCodecOps}.
Context {W : Type} {TE : TaskEnv W} {PE : PolicyEnv W} {TL : TaskEnvLaws TE}.
Variable cfg : HimmelblauConfig.
Notation TM := (TM W).

(** ** Home directories *)

Lemma remove_chars_filter f s :
  remove_chars f s = String.string_of_list_ascii (filter (λ c, f c = false) (String.list_ascii_of_string s)).
Proof.
  induction s as [|c s IH]; [done|]. simpl. rewrite filter_cons, IH. destruct (f c); by case_decide.
Qed.

Lemma trim_start_drop s :
  String.list_ascii_of_string (trim_start_char DOT s) = drop_dots (String.list_ascii_of_string s).
Proof. induction s as [|c s IH]; [done|]. simpl. destruct (Ascii.eqb_spec c DOT); by case_decide. Qed.

Lemma safe_name_entry name : safe_name name = own_entry name.
Proof.
  unfold safe_name, own_entry. rewrite remove_chars_filter, trim_start_drop. f_equal.
  apply list_filter_iff. intros c. rewrite orb_false_iff, !Ascii.eqb_neq. done.
Qed.

Section home.
Variables (prefix : string) (info : HomeDirectoryInfo).
Notation home := (home_of prefix info).

(** The prefix is a directory. *)
Definition prefix_dir (w : W) : Prop := te_exists prefix w = true ∧ te_is_dir prefix w = true.
Definition at_home (c : option (Z * Z) * SysCall) : Prop := c.1 = None ∧ home_call prefix info c.2.

Lemma home_syscall c : home_call prefix info c → acts prefix_dir at_home (syscall c).
Proof. intros Hc. apply acts_syscall; [done|]. intros w [H1 H2]. by apply tl_keeps_dir; [..|destruct Hc]. Qed.

Lemma home_sys_display c : home_call prefix info c → acts prefix_dir at_home (sys_display c).
Proof. intros Hc. apply acts_bind; [by apply home_syscall|]. intros r. acts_step. Qed.

Lemma home_sys_debug c : home_call prefix info c → acts prefix_dir at_home (sys_debug c).
Proof. intros Hc. apply acts_bind; [by apply home_syscall|]. intros r. acts_step. Qed.

Lemma home_chown p : directly_in prefix home → within home p → acts prefix_dir at_home (chown p (hd_uid info) (hd_gid info)).
Proof. intros Hh Hp. unfold chown. acts_step; [acts_step|]. acts_step; [apply home_syscall; eauto with calls|acts_step]. Qed.

Lemma directly_in_nonempty h : directly_in prefix h → h ≠ "".
Proof. intros (x & Hx & _) ->. unfold components in Hx. simpl in Hx. injection Hx as _ Hx. by destruct (names_of _ _). Qed.

Lemma home_copy_skel entries : directly_in prefix home → (∀ rel d, (rel, d) ∈ entries → ".." ∉ split_char SLASH rel) →
  acts prefix_dir at_home (copy_skel home (hd_uid info) (hd_gid info) entries).
Proof.
  intros Hh. induction entries as [|[rel is_dir] entries IH]; intros He; simpl; [acts_step|].
  assert (".." ∉ split_char SLASH rel) as Hrel by (eapply He, elem_of_cons; by left).
  pose proof (within_join home rel (directly_in_nonempty home Hh) Hrel) as Hw.
  assert (within SKEL_DIR (join SKEL_DIR rel)) by by apply within_join.
  acts_step; [acts_step; apply home_sys_display; eauto with calls|]. acts_step; [by apply home_chown|].
  apply IH. intros r d Hin. eapply He, elem_of_cons. by right.
Qed.

Lemma home_make skel : directly_in prefix home → acts prefix_dir at_home (make_home info home skel).
Proof.
  intros Hh. pose proof (within_refl home). unfold make_home. apply acts_masked; [|by split; eauto with calls| |].
  - intros m. split; [split; [done|constructor]|]. intros w [H1 H2]. by apply tl_keeps_dir.
  - intros w [H1 H2]. by apply tl_keeps_dir.
  - intros r. acts_step; [|acts_step]. acts_step; [by apply home_chown|]. acts_step. acts_step; [|acts_step]. acts_step.
    apply home_copy_skel; [done|]. apply tl_skel.
Qed.

(** A path that passed the check is an entry of the prefix; it is [..] only if it exists and
    is no symbolic link. *)
Lemma home_entry what p w : check_parent what prefix p = Ok tt → prefix_dir w →
  directly_in prefix p ∨ (te_exists p w = true ∧ te_is_symlink p w ≠ Ok true).
Proof.
  intros [x Hx]%check_parent_entry [H1 H2]. destruct (decide (x = "..")) as [->|Hne]; [right; by eapply tl_dotdot|left; by exists x].
Qed.

Lemma home_make_alias alias : alias ∈ hd_aliases info →
  acts prefix_dir at_home (make_alias prefix (safe_name (hd_name info)) alias).
Proof.
  intros Ha. unfold make_alias. rewrite !safe_name_entry. apply acts_check. intros [] Hc.
  assert (directly_in prefix (prefix +:+ own_entry alias) → alias_of prefix info (prefix +:+ own_entry alias)) as Hof.
  { intros Hd. split; [done|]. by exists alias. }
  apply acts_ask_bind. intros w Hw. destruct (te_exists _ w) eqn:Ee.
  - apply acts_ask_bind. intros w' Hw'. destruct (te_is_symlink _ w') as [[]|] eqn:El; [|acts_step..].
    destruct (home_entry _ _ _ Hc Hw') as [Hd|[_ Hn]]; [|by rewrite El in Hn].
    acts_step; intros; apply home_sys_debug; eauto with calls.
  - destruct (home_entry _ _ _ Hc Hw) as [Hd|[Hn _]]; [|by rewrite Ee in Hn]. apply home_sys_debug; eauto with calls.
Qed.

Lemma home_make_aliases l : l ⊆ hd_aliases info →
  acts prefix_dir at_home (make_aliases prefix (safe_name (hd_name info)) l).
Proof.
  induction l as [|a l IH]; intros Hl; simpl; [acts_step|].
  acts_step; [apply home_make_alias; set_solver|apply IH; set_solver].
Qed.

End home.

Lemma home_confined info prefix skel : acts (λ _, True) (at_home prefix info) (create_home_directory info prefix skel).
Proof.
  intros s Hs _. unfold create_home_directory, mbind at 1, TM_bind at 1, ask at 1.
  destruct (te_exists prefix (t_world s) && te_is_dir prefix (t_world s)) eqn:Ep; simpl negb; [|by apply acts_ret].
  cbv iota. apply andb_true_iff in Ep as Hp.
  match goal with |- acted _ _ _ (?m s).2 => assert (acts (prefix_dir prefix) (at_home prefix info) m) as Hm end.
  { apply acts_check. intros [] Hc. apply acts_ask_bind. intros w Hw. apply acts_try; [|intros _; by apply home_make_aliases].
    rewrite safe_name_entry in *. destruct (te_exists _ w) eqn:Ee; [acts_step|].
    destruct (home_entry _ _ _ _ Hc Hw) as [Hd|[Hn _]]; [|by rewrite Ee in Hn]. by apply home_make. }
  destruct (Hm s Hs Hp) as (H1 & H2 & _ & H4). done.
Qed.

(** ** The other tasks *)

Notation anywhere := (λ _ : W, True).

(** Of root, and one of the calls of [C]. *)
Definition as_root (C : SysCall → Prop) (c : option (Z * Z) * SysCall) : Prop := c.1 = None ∧ C c.2.

Lemma any_syscall (C : SysCall → Prop) c : C c → acts anywhere (as_root C) (syscall c).
Proof. intros Hc. by apply acts_syscall. Qed.

Lemma any_command (C : SysCall → Prop) p a e : C (Sys_Run p a e) → acts anywhere (as_root C) (command p a e).
Proof. intros Hc. by apply acts_command. Qed.

Lemma any_outside (P : option (Z * Z) * SysCall → Prop) {A} (f : W → A * W) : acts anywhere P (outside f).
Proof. intros s. unfold outside. destruct (f _). unfold acted. intros. split_and!; [done..|by apply made_refl]. Qed.

Lemma any_outside_bind (P : option (Z * Z) * SysCall → Prop) {A B} (f : W → A * W) (k : A → TM B) :
  (∀ w, acts anywhere P (k (f w).1)) → acts anywhere P (outside f ≫= k).
Proof.
  intros Hk s Hs _. specialize (Hk (t_world s)). unfold mbind, TM_bind, outside in *. destruct (f (t_world s)) as [a w].
  by apply (Hk (Build_TState w (t_umask s) (t_user s) (t_policies s) (t_calls s))).
Qed.

Lemma any_on_policies (P : option (Z * Z) * SysCall → Prop) {A} (f : W → _ → A * _) : acts anywhere P (on_policies f).
Proof. intros s. unfold on_policies. destruct (f _ _). unfold acted. intros. split_and!; [done..|by apply made_refl]. Qed.

Ltac any_step :=
  lazymatch goal with
  | |- acts _ _ (syscall _) => apply any_syscall; eauto with calls
  | |- acts _ _ (command _ _ _) => apply any_command; eauto with calls
  | |- acts _ _ (outside _) => apply any_outside
  | |- acts _ _ (on_policies _) => apply any_on_policies
  | |- _ => acts_step
  end.

Lemma groups_confined account is_sudoer :
  acts anywhere (permitted cfg (TaskRequest_LocalGroups account is_sudoer)) (set_local_groups cfg account is_sudoer).
Proof.
  unfold set_local_groups. apply acts_ask_bind. intros w _. set (name := map_upn_to_name _ _ _).
  assert (mapped cfg account name) by (by exists w).
  apply acts_weaken with (as_root (group_call cfg name)); [|intros [[]] [? ?]; by eauto with calls].
  assert (∀ g, g ∈ get_local_sudo_group (config cfg) :: get_local_groups (config cfg) →
    acts anywhere (as_root (group_call cfg name)) (add_user_to_group name g)) as Hadd.
  { intros g Hg. unfold add_user_to_group. repeat any_step. }
  acts_step.
  - assert (∀ l, l ⊆ get_local_groups (config cfg) → acts anywhere (as_root (group_call cfg name)) (add_user_to_groups name l)) as Hl.
    { induction l as [|g l IH]; intros Hl; simpl; [acts_step|]. acts_step; [apply Hadd; set_solver|apply IH; set_solver]. }
    by apply Hl.
  - acts_step; [acts_step|]. acts_step; [apply Hadd; set_solver|]. unfold remove_user_from_group, user_in_group. repeat any_step.
Qed.

Lemma krb_confined names tenant : acts anywhere (as_root (krb_call tenant)) (write_kerberos_config_snippet names tenant).
Proof.
  unfold write_kerberos_config_snippet. acts_step; [acts_step|].
  destruct (te_uuid_try_parse tenant) as [[]|] eqn:Eu; [|acts_step].
  assert (directly_in DEFAULT_KERBEROS_CONF_DIR (krb_snippet tenant)).
  { apply tl_uuid in Eu. apply (entry_directly_in "/etc/krb5.conf.d"); [done|..].
    - by rewrite !contains_char_append, Eu.
    - intros [?|[?|[?|[]%elem_of_nil]%elem_of_cons]%elem_of_cons]%elem_of_cons; by rewrite !append_cons in *. }
  assert (krb_snippet tenant = DEFAULT_KERBEROS_CONF_DIR +:+ "himmelblau_" +:+ tenant +:+ ".conf") by done.
  repeat any_step.
Qed.

(** A ticket is stored as the user it is for, and the process is root again in every case. *)
Lemma tgt_confined tgt uid gid tgts : tgt ∈ tgts → acts anywhere (tgt_call uid gid tgts) (store_tgt tgt uid gid).
Proof.
  intros Hin s Hs _. unfold store_tgt, mbind, TM_bind, switch_user_group, syscall, drop_guard, log_call, mret, TM_ret.
  repeat (match goal with |- context [te_sys ?c ?w] => destruct (te_sys c w) as [[] ?] end; simpl);
    (split_and!; [done..|]); unfold made; simpl; rewrite <- ?(assoc_L (++)), Hs; eexists; (split; [done|]); by repeat constructor.
Qed.

Lemma opt_tgt_confined tgt uid gid tgts : option_list tgt ⊆ tgts →
  acts anywhere (tgt_call uid gid tgts) (store_opt_tgt tgt uid gid).
Proof. intros Hin. destruct tgt; [apply tgt_confined; set_solver|apply acts_ret]. Qed.

Lemma every_char_elem q s c : every_char q s = true → c ∈ String.list_ascii_of_string s → q c = true.
Proof.
  induction s as [|c' s IH]; simpl; [by rewrite elem_of_nil|]. intros [Hc Hs]%andb_true_iff [->|Hin]%elem_of_cons; [done|by apply IH].
Qed.

Lemma valid_photo_file name : valid_photo_id name = true → file_name name.
Proof.
  unfold valid_photo_id. intros [Hn Hc]%andb_true_iff. split; [by intros ->|]. intros Hin.
  by pose proof (every_char_elem _ _ _ Hc Hin).
Qed.

Lemma photo_confined upn token :
  acts anywhere (permitted cfg (TaskRequest_LoadProfilePhoto upn token)) (load_profile_photo cfg upn token).
Proof.
  unfold load_profile_photo. acts_step. acts_step; [|acts_step]. apply acts_ask_bind. intros w0 _.
  set (name := map_upn_to_name _ _ _). assert (mapped cfg upn name) by (by exists w0).
  apply acts_weaken with (as_root (photo_call name)); [|intros [[]] [? ?]; by eauto with calls].
  acts_step; [|acts_step]. assert (file_name name) by by apply valid_photo_file. acts_step; [|acts_step]. acts_step. unfold fetch_photo.
  assert (ICONS_DIR ∈ [ICONS_DIR; USERS_DIR] ∧ USERS_DIR ∈ [ICONS_DIR; USERS_DIR]) as [? ?] by set_solver.
  repeat any_step.
Qed.

Lemma subids_confined user start count : acts anywhere (as_root (subid_call user start count)) (setup_subordinate_ids user start count).
Proof.
  assert (SUBUID_FILE ∈ [SUBUID_FILE; SUBGID_FILE] ∧ SUBGID_FILE ∈ [SUBUID_FILE; SUBGID_FILE]) as [? ?] by set_solver.
  unfold setup_subordinate_ids, add_subid_entry, user_has_subid_entry. repeat any_step.
Qed.

(** ** Policies *)

Section policy.
Variables (device account : string).
Notation quiet := (acts anywhere (as_root (policy_call cfg device account))).

Lemma policy_dir_bind {A} (k : result string string → TM A) :
  quiet (k (Ok (policy_dir cfg))) → (∀ e, quiet (k (Err e))) → quiet (script_path cfg ≫= k).
Proof.
  intros Ho He. apply acts_bind_value with (λ r, r = Ok (policy_dir cfg) ∨ ∃ e, r = Err e).
  - unfold script_path, sys_or. repeat any_step.
  - intros s. unfold script_path, sys_or, t_try, mbind, TM_bind, syscall. destruct (te_sys _ _) as [[]]; simpl; eauto.
  - by intros a [->|[e ->]].
Qed.

Lemma policy_create f text m1 m2 : policy_file cfg account f → quiet (create_file f text m1 m2).
Proof. intros Hf. unfold create_file, sys_or. repeat any_step. Qed.

Lemma policy_chmod_quiet mode f msg : policy_file cfg account f → quiet (chmod mode f msg).
Proof. intros Hf. unfold chmod. repeat any_step. Qed.

Ltac policy_step :=
  lazymatch goal with
  | |- acts _ _ (script_path _ ≫= _) => apply policy_dir_bind; [|intros ?]
  | |- acts _ _ (create_file _ _ _ _) => apply policy_create; eauto with calls
  | |- acts _ _ (chmod _ _ _) => apply policy_chmod_quiet; eauto with calls
  | |- _ => any_step
  end.

Lemma policy_install id g b64 : quiet (install_script (policy_dir cfg) id g b64).
Proof. unfold install_script. repeat policy_step. Qed.

Lemma policy_apply_script name p : quiet (apply_script_policy cfg name p).
Proof. unfold apply_script_policy. acts_step. acts_step; [|acts_step]. policy_step; repeat (apply policy_install || policy_step). Qed.

Lemma policy_apply_scripts name l : quiet (apply_script_policies cfg name l).
Proof. induction l as [|p l IH]; simpl; repeat (apply IH || apply policy_apply_script || policy_step). Qed.

Lemma policy_remove_old l : quiet (remove_old_policies cfg l).
Proof. induction l as [|id l IH]; simpl; repeat (apply IH || policy_step). Qed.

Lemma policy_scripts l : quiet (scripts_cse cfg account l).
Proof.
  unfold scripts_cse, scripts_cache_load, scripts_cache_save.
  repeat (apply policy_remove_old || apply policy_apply_scripts || policy_step).
Qed.

Lemma policy_apply_settings conn l : quiet (apply_settings conn l).
Proof.
  induction l as [|d l IH]; simpl; [acts_step|]. acts_step; [|repeat (apply IH || acts_step)].
  unfold apply_setting, is_disk_encrypted, policy_cache_set. repeat any_step.
Qed.

Lemma policy_compliance l : quiet (compliance_cse l).
Proof.
  unfold compliance_cse. acts_step; [|repeat acts_step]. induction l as [|p l IH]; simpl; [acts_step|].
  unfold apply_compliance, open_policy_cache. repeat (apply IH || apply policy_apply_settings || any_step).
Qed.

Lemma policy_execute script : quiet (execute_script script).
Proof.
  unfold execute_script. acts_step. apply any_outside_bind. intros w.
  destruct (te_temp_file _ w) as [[t|e] w'] eqn:Et; simpl; [|acts_step].
  assert (temp_file t) by (eexists _, w; by rewrite Et). repeat any_step.
Qed.

Lemma policy_custom l : quiet (custom_compliance_cse l).
Proof.
  assert (∀ l, quiet (discover_first l)) as Hd.
  { clear l. induction l as [|d l IH]; simpl; unfold run_discovery; repeat (apply IH || apply policy_execute || any_step). }
  induction l as [|p l IH]; simpl; repeat (apply IH || apply Hd || any_step).
Qed.

Lemma policy_confined t1 t2 t3 : quiet (apply_intune_policy cfg device account t1 t2 t3).
Proof.
  unfold apply_intune_policy, run_extensions.
  repeat (apply policy_scripts || apply policy_compliance || apply policy_custom || any_step).
Qed.

End policy.

(** ** The loop *)

Lemma task_confined req : acts anywhere (permitted cfg req) (handle_task cfg req).
Proof.
  destruct req; simpl.
  - apply acts_bind; [|intros; apply acts_ret]. eapply acts_weaken; [apply home_confined|].
    intros [u c] [Hu Hc]. simpl in *. subst. by constructor.
  - apply acts_bind; [apply groups_confined|intros; apply acts_ret].
  - acts_step; [|acts_step]. acts_step; [|acts_step]. unfold execute_user_script. acts_step; [|acts_step].
    apply acts_command; [by constructor|done].
  - acts_step; [|acts_step]. acts_step; [|acts_step]. eapply acts_weaken; [apply krb_confined|].
    intros [u c] [Hu Hc]. simpl in *. subst. by constructor.
  - apply acts_weaken with (tgt_call uid gid (option_list cloud ++ option_list ad)); [|by constructor].
    acts_step; [apply opt_tgt_confined; set_solver|]. acts_step; [apply opt_tgt_confined; set_solver|acts_step].
  - apply acts_bind; [apply photo_confined|intros; apply acts_ret].
  - acts_step; [|acts_step]. acts_step; [|acts_step]. eapply acts_weaken; [apply policy_confined|].
    intros [u c] [Hu Hc]. simpl in *. subst. by constructor.
  - apply acts_bind; [|intros; apply acts_ret]. eapply acts_weaken; [apply subids_confined|].
    intros [u c] [Hu Hc]. simpl in *. subst. by constructor.
Qed.

(** The requests the stream holds: what is no request is kept for what follows. *)
Fixpoint requests_of (chunks : list (list Byte.byte)) (buf : list Byte.byte) : list TaskRequest :=
  match chunks with
  | [] => []
  | chunk :: chunks =>
      match task_from_slice (buf ++ chunk) with
      | Some req => req :: requests_of chunks []
      | None => requests_of chunks (buf ++ chunk)
      end
  end.

(** A call of a request of the stream, or the answer to one. *)
Definition allowed (reqs : list TaskRequest) (c : option (Z * Z) * SysCall) : Prop :=
  (∃ req, req ∈ reqs ∧ permitted cfg req c) ∨ ∃ resp, c = (None, Sys_Send resp).

Lemma loop_confined chunks buf : acts anywhere (allowed (requests_of chunks buf)) (handle_tasks cfg chunks buf).
Proof.
  revert buf. induction chunks as [|chunk chunks IH]; intros buf; simpl; [acts_step|].
  destruct (task_from_slice (buf ++ chunk)) as [req|]; [|apply IH]. acts_step.
  - eapply acts_weaken; [apply task_confined|]. intros c Hc. left. exists req. split; [apply elem_of_cons; by left|done].
  - acts_step; [apply acts_syscall; [right; by eexists|done]|]. acts_step; [|acts_step].
    eapply acts_weaken; [apply IH|]. intros c [(r & Hr & Hc)|Hc]; [left|by right]. exists r. split; [apply elem_of_cons; by right|done].
Qed.


End confined.

(** ** Members of a group *)

Lemma split_joined l : l ≠ [] → Forall (λ x, contains_char COMMA x = false) l → split_char COMMA (join_commas l) = l.
Proof.
  induction l as [|x l IH]; [done|]. intros _ [Hx Hl]%Forall_cons. destruct l as [|y l]; [by apply split_no|].
  change (join_commas (x :: y :: l)) with (x +:+ String COMMA (join_commas (y :: l))).
  by rewrite split_app, (split_no _ x), IH.
Qed.

Lemma joined_snoc l a b : join_commas (l ++ [a]) +:+ b = join_commas (l ++ [a +:+ b]).
Proof. unfold join_commas. rewrite !concat_snoc. destruct l; [done|]. by rewrite !append_assoc. Qed.

(** What [getent group] prints for a group. *)
Definition getent_line (name pass gid : string) (members : list string) : string :=
  name +:+ String COLON (pass +:+ String COLON (gid +:+ String COLON (join_commas members +:+ NL))).

Definition plain (s : string) : Prop := contains_char COLON s = false ∧ contains_char COMMA s = false ∧ contains_char LF s = false.

Section groups.
Context {X : Ext} {W : Type} {TE : TaskEnv W}.

Lemma contains_joined c l : contains_char c "," = false → Forall (λ x, contains_char c x = false) l → contains_char c (join_commas l) = false.
Proof.
  intros Hc. induction l as [|x l IH]; [done|]. intros [Hx Hl]%Forall_cons. destruct l as [|y l]; [done|].
  change (join_commas (x :: y :: l)) with (x +:+ ("," +:+ join_commas (y :: l))).
  by rewrite !contains_char_append, Hx, Hc, IH.
Qed.

(** The members found are those before the last. *)
Lemma getent_members name pass gid ms m a : plain name → plain pass → plain gid → Forall plain (ms ++ [m]) → plain a →
  match split_char COLON (getent_line name pass gid (ms ++ [m])) !! 3%nat with
  | Some users => existsb (λ u, String.eqb u a) (split_char COMMA users)
  | None => false
  end = bool_decide (a ∈ ms).
Proof.
  intros (Hn & _) (Hp & _) (Hg & _) Hms (Hac & _ & Hal). unfold getent_line. rewrite joined_snoc, !split_app.
  rewrite (split_no _ name), (split_no _ pass), (split_no _ gid) by done.
  apply Forall_app in Hms as [Hms (Hmc & Hmm & _)%Forall_singleton].
  assert (∀ c, contains_char c NL = Ascii.eqb LF c) as HNL by (intros c; simpl; by rewrite orb_false_r).
  rewrite split_no; simpl.
  - rewrite split_joined; [|by destruct ms|].
    + apply eq_true_iff_eq. rewrite bool_decide_eq_true, existsb_exists. split.
      * intros (u & Hu%list_elem_of_In & <-%String.eqb_eq). apply elem_of_app in Hu as [?|Hu%list_elem_of_singleton]; [done|].
        subst. by rewrite contains_char_append, HNL, orb_true_r in Hal.
      * intros Hin. exists a. rewrite <- list_elem_of_In, elem_of_app, String.eqb_eq. auto.
    + apply Forall_app. split; [by eapply Forall_impl; [done|intros ? (_ & ? & _)]|]. apply Forall_singleton.
      by rewrite contains_char_append, Hmm, HNL.
  - apply contains_joined; [done|]. apply Forall_app. split; [by eapply Forall_impl; [done|intros ? (? & _)]|].
    apply Forall_singleton. by rewrite contains_char_append, Hmc, HNL.
Qed.

(** C39. Taking a user out of the group of sudoers: the line that [getent] prints for the group
    ends with a newline, which is taken for a part of the last name, so that the last member
    of the group is never found to be one. A user is asked to be removed exactly if they are a
    member other than the last; whoever is last keeps the rights that were withdrawn. *)
Theorem last_sudoer_kept a g out w' s name pass gid ms m :
  te_run "getent" ["group"; g] [] (t_world s) = (Ok out, w') → ou_success out = true →
  ou_stdout_lossy out = getent_line name pass gid (ms ++ [m]) →
  plain name → plain pass → plain gid → Forall plain (ms ++ [m]) → plain a →
  t_calls (remove_user_from_group a g s).2 =
    t_calls s ++ (t_user s, Sys_Run "getent" ["group"; g] [])
      :: (if bool_decide (a ∈ ms) then [(t_user s, Sys_Run "gpasswd" ["-d"; a; g] [])] else []).
Proof.
  intros Hr Hs Ho Hn Hp Hg Hms Ha. unfold remove_user_from_group, user_in_group, command, mbind, TM_bind, mret, TM_ret.
  rewrite Hr, Hs, Ho, getent_members by done. simpl. destruct (bool_decide (a ∈ ms)); [|done].
  destruct (te_run "gpasswd" _ _ _). simpl. by rewrite <- (assoc_L (++)).
Qed.

End groups.
