(* ===== verification/PoliciesTheorems.v ===== *)
(** * Intune policies: what is reported and what is enforced

    The settings about the distribution, position by position; a password rule that is
    reported to be met is what a PIN is checked against; a script without a frequency. *)
From stdpp Require Import base gmap strings list fin_maps.
From Stdlib Require Import ZArith Lia Ascii.
From S2P Require Import Prelude Proto Caches Config Pam HelloPin TaskHost Policies Tasks TasksFacts TasksTheorems.

Open Scope rust_scope.

(** ** The distribution *)

(** The entry of the list of allowed distributions a setting belongs to. *)
Definition group_key (d : PolicyDetails) : option string :=
  if is_distro_setting (pd_setting_definition_item_id d) then extract_distro_index (pd_csp_path d) else None.

Section groups.

Lemma groups_snoc l d :
  distro_groups (l ++ [d]) =
  match group_key d with
  | Some k => <[k := default [] (distro_groups l !! k) ++ [length l]]> (distro_groups l)
  | None => distro_groups l
  end.
Proof.
  unfold distro_groups, group_key. rewrite imap_app, foldl_app. simpl. unfold add_to_group at 1. simpl. rewrite Nat.add_0_r.
  by destruct (is_distro_setting (pd_setting_definition_item_id d)), (extract_distro_index (pd_csp_path d)).
Qed.

(** A group holds the positions of the settings of its key, each once. *)
Lemma groups_spec l k : let g := default [] (distro_groups l !! k) in
  NoDup g ∧ ∀ i, i ∈ g ↔ ∃ d, l !! i = Some d ∧ group_key d = Some k.
Proof.
  induction l as [|d l [IHn IH]] using rev_ind; simpl.
  { split; [constructor|]. intros i. unfold distro_groups. simpl. rewrite lookup_empty. simpl. set_solver. }
  assert (∀ i, (∃ d', (l ++ [d]) !! i = Some d' ∧ group_key d' = Some k) ↔
    (∃ d', l !! i = Some d' ∧ group_key d' = Some k) ∨ (i = length l ∧ group_key d = Some k)) as Hs.
  { intros i. setoid_rewrite lookup_snoc_Some. split; [naive_solver|]. intros [(d' & Hd & Hk)|[-> Hk]]; [|by eauto].
    exists d'. split; [left; split; [by eapply lookup_lt_Some|done]|done]. }
  setoid_rewrite Hs. rewrite groups_snoc. destruct (group_key d) as [k'|]; [|split; [done|naive_solver]].
  destruct (decide (k' = k)) as [->|Hne].
  - rewrite lookup_insert_eq. simpl. split.
    + apply NoDup_app. split; [done|]. split; [|by apply NoDup_singleton]. intros i (d' & Hd & _)%IH ->%list_elem_of_singleton.
      apply lookup_lt_Some in Hd. lia.
    + intros i. rewrite elem_of_app, IH, list_elem_of_singleton. naive_solver.
  - rewrite lookup_insert_ne by done. split; [done|]. naive_solver.
Qed.

End groups.

(** Changing positions one after the other. *)
Lemma alter_each {A} (f : A → A) (g : list nat) (l : list A) j : NoDup g →
  foldl (λ l i, alter f i l) l g !! j = if bool_decide (j ∈ g) then f <$> l !! j else l !! j.
Proof.
  revert l. induction g as [|i g IH]; intros l; simpl; [done|]. intros [Hi Hg]%NoDup_cons. rewrite IH by done.
  destruct (decide (j = i)) as [->|Hne].
  - rewrite bool_decide_false by done. rewrite bool_decide_true by (apply elem_of_cons; by left). apply list_lookup_alter_eq.
  - rewrite list_lookup_alter_ne by done. assert (j ∈ i :: g ↔ j ∈ g) as Hiff by (rewrite elem_of_cons; naive_solver).
    by rewrite (bool_decide_ext _ _ Hiff).
Qed.

Lemma alter_each_length {A} (f : A → A) (g : list nat) (l : list A) : length (foldl (λ l i, alter f i l) l g) = length l.
Proof. revert l. induction g as [|i g IH]; intros l; simpl; [done|]. by rewrite IH, length_alter. Qed.

Section distribution.
Context {X : Ext} {W : Type} {PE : PolicyEnv W}.
Variables (system_distro version_id : string) (system_version : Version).
Notation outcome := (distro_outcome system_distro version_id system_version).
Notation process := (process_distro_group system_distro version_id system_version).
Notation names := (names_system system_distro).

Lemma outcome_rule matches_ has_match d :
  pd_setting_definition_item_id (outcome matches_ has_match d) = pd_setting_definition_item_id d ∧
  pd_expected_value (outcome matches_ has_match d) = pd_expected_value d.
Proof. unfold distro_outcome, evaluate_distro_detail, check_version. by repeat case_match. Qed.

Lemma outcome_names matches_ has_match d : names (outcome matches_ has_match d) = names d.
Proof. unfold names_system. by destruct (outcome_rule matches_ has_match d) as [-> ->]. Qed.

(** The settings name the same distributions. *)
Definition same_names (l l' : list PolicyDetails) : Prop := ∀ i, names <$> l !! i = names <$> l' !! i.

Lemma matches_same l l' g : same_names l l' → group_matches system_distro l g = group_matches system_distro l' g.
Proof.
  intros Hl. unfold group_matches. induction g as [|i g IH]; simpl; [done|]. rewrite IH. f_equal. specialize (Hl i).
  destruct (l !! i), (l' !! i); simpl in Hl; congruence.
Qed.

Lemma process_lookup has_match l g j : NoDup g →
  process has_match l g !! j =
  if bool_decide (j ∈ g) then outcome (group_matches system_distro l g) has_match <$> l !! j else l !! j.
Proof. intros Hg. unfold process_distro_group. by rewrite alter_each. Qed.

Lemma process_same has_match l g : NoDup g → same_names (process has_match l g) l.
Proof.
  intros Hg i. rewrite process_lookup by done. destruct (bool_decide (i ∈ g)); [|done]. rewrite <- option_fmap_compose.
  apply option_fmap_ext. intros d. apply outcome_names.
Qed.

Definition key_at (details : list PolicyDetails) (i : nat) : option string := d ← details !! i; group_key d.

(** Groups, by their keys: positions of settings with that key. *)
Definition keyed (details : list PolicyDetails) (gs : list (string * list nat)) : Prop :=
  NoDup gs.*1 ∧ ∀ k g, (k, g) ∈ gs → NoDup g ∧ ∀ i, i ∈ g → key_at details i = Some k.

Lemma keyed_cons details k g gs : keyed details ((k, g) :: gs) →
  (k ∉ gs.*1) ∧ NoDup g ∧ (∀ i, i ∈ g → key_at details i = Some k) ∧ keyed details gs.
Proof.
  intros [Hn Hg]. simpl in Hn. apply NoDup_cons in Hn as [Hk Hn]. destruct (Hg k g) as [Hng Hi]; [apply elem_of_cons; by left|].
  split_and!; [done..|]. split; [done|]. intros k' g' Hin. apply Hg, elem_of_cons. by right.
Qed.

(** A position is changed by the group it is in, once, and by no other. *)
Lemma process_groups details has_match gs l j : keyed details gs → same_names l details →
  foldl (process has_match) l gs.*2 !! j =
  match list_find (λ kg, j ∈ kg.2) gs with
  | Some (_, (_, g)) => outcome (group_matches system_distro details g) has_match <$> l !! j
  | None => l !! j
  end.
Proof.
  revert l. induction gs as [|[k g] gs IH]; intros l Hgs Hl; simpl; [done|].
  apply keyed_cons in Hgs as (Hk & Hg & Hi & Hgs).
  assert (same_names (process has_match l g) details) as Hs by (intros i; by rewrite process_same).
  rewrite IH by done. rewrite process_lookup, (matches_same l details) by done.
  destruct (decide (j ∈ g)) as [Hj|Hj].
  - rewrite bool_decide_true by done. destruct (list_find _ gs) as [[n [k' g']]|] eqn:E; [|done].
    apply list_find_Some in E as (Hin & Hj' & _). simpl in Hj'. apply list_elem_of_lookup_2 in Hin as Hin'.
    destruct Hgs as [_ Hgs]. destruct (Hgs _ _ Hin') as [_ Hkey]. pose proof (Hi _ Hj) as H1. rewrite (Hkey _ Hj') in H1.
    injection H1 as ->. destruct Hk. apply (list_elem_of_fmap_2 fst _ _ Hin').
  - rewrite bool_decide_false by done. by destruct (list_find _ gs) as [[n [k' g']]|].
Qed.

(** The policy names the system in its entry [k], or in one of its entries. *)
Definition names_in (details : list PolicyDetails) (k : string) : bool :=
  existsb (λ d, bool_decide (group_key d = Some k) && names d) details.
Definition named (details : list PolicyDetails) : bool :=
  existsb (λ d, bool_decide (is_Some (group_key d)) && names d) details.

(** What becomes of one setting. *)
Definition distro_reference (details : list PolicyDetails) (d : PolicyDetails) : PolicyDetails :=
  match group_key d with
  | None => d
  | Some k =>
      if names_in details k then evaluate_distro_detail system_distro version_id system_version d
      else if negb (named details) && String.eqb (pd_setting_definition_item_id d) DISTRO_TYPE then set_actual system_distro d
      else not_applicable d
  end.

Lemma groups_keyed details : keyed details (map_to_list (distro_groups details)).
Proof.
  split; [apply NoDup_fst_map_to_list|]. intros k g Hg%elem_of_map_to_list. destruct (groups_spec details k) as [Hn Hs].
  rewrite Hg in Hn, Hs. split; [done|]. intros i (d & Hd & Hk)%Hs. unfold key_at. by rewrite Hd.
Qed.

Lemma group_named details k g : distro_groups details !! k = Some g → group_matches system_distro details g = names_in details k.
Proof.
  intros Hg. destruct (groups_spec details k) as [_ Hs]. rewrite Hg in Hs. simpl in Hs.
  apply eq_true_iff_eq. unfold group_matches, names_in. rewrite !existsb_exists. setoid_rewrite <- list_elem_of_In. split.
  - intros (i & Hi & Hm). apply Hs in Hi as (d & Hd & Hk). rewrite Hd in Hm. exists d. split; [by eapply list_elem_of_lookup_2|].
    by rewrite bool_decide_true.
  - intros (d & [i Hd]%list_elem_of_lookup & [Hk%bool_decide_eq_true Hm]%andb_true_iff). exists i. rewrite Hd. split; [|done].
    apply Hs. eauto.
Qed.

Lemma groups_has_match details :
  existsb (group_matches system_distro details) (map_to_list (distro_groups details)).*2 = named details.
Proof.
  apply eq_true_iff_eq. unfold named. rewrite !existsb_exists. setoid_rewrite <- list_elem_of_In. split.
  - intros (g & ([k g'] & -> & Hg%elem_of_map_to_list)%list_elem_of_fmap & Hm). simpl in Hm. rewrite (group_named _ k) in Hm by done.
    apply existsb_exists in Hm as (d & Hd%list_elem_of_In & [Hk%bool_decide_eq_true Hn]%andb_true_iff). exists d. split; [done|].
    by rewrite Hk, bool_decide_true by eauto.
  - intros (d & Hd & [[k Hk]%bool_decide_eq_true Hn]%andb_true_iff). apply list_elem_of_lookup in Hd as [i Hi].
    destruct (groups_spec details k) as [_ Hs]. destruct (distro_groups details !! k) as [g|] eqn:Eg; simpl in Hs.
    + exists g. split; [apply list_elem_of_fmap; exists (k, g); by rewrite elem_of_map_to_list|].
      rewrite (group_named _ k) by done. apply existsb_exists. exists d. rewrite <- list_elem_of_In.
      split; [by eapply list_elem_of_lookup_2|]. by rewrite bool_decide_true.
    + assert (i ∈ []) as []%not_elem_of_nil. apply Hs. eauto.
Qed.

Lemma groups_any_order details groups : groups ≡ₚ map_to_list (distro_groups details) →
  keyed details groups ∧ existsb (group_matches system_distro details) groups.*2 = named details ∧
  ∀ k g, (k, g) ∈ groups ↔ distro_groups details !! k = Some g.
Proof.
  intros Hp. assert (∀ k g, (k, g) ∈ groups ↔ distro_groups details !! k = Some g) as Hin
    by (intros k g; by rewrite Hp, elem_of_map_to_list).
  split_and!; [|rewrite <- groups_has_match|done].
  - split; [rewrite Hp; apply NoDup_fst_map_to_list|]. intros k g Hg%Hin. by apply groups_keyed, elem_of_map_to_list.
  - apply eq_true_iff_eq. rewrite !existsb_exists. setoid_rewrite <- list_elem_of_In. by setoid_rewrite Hp.
Qed.

Lemma groups_judged details groups : groups ≡ₚ map_to_list (distro_groups details) →
  foldl (process (existsb (group_matches system_distro details) groups.*2)) details groups.*2 =
  distro_reference details <$> details.
Proof.
  intros (Hkeyed & -> & Hgs)%groups_any_order. apply list_eq. intros j.
  rewrite (process_groups details _ _ details) by done. rewrite list_lookup_fmap.
  destruct (details !! j) as [d|] eqn:Ej; simpl.
  2: { by destruct (list_find _ _) as [[? [? ?]]|]. }
  destruct (list_find _ _) as [[n [k g]]|] eqn:E.
  - apply list_find_Some in E as (Hin%list_elem_of_lookup_2 & Hj & _). simpl in Hj.
    destruct Hkeyed as [_ Hk]. destruct (Hk _ _ Hin) as [_ Hkey]. specialize (Hkey _ Hj). unfold key_at in Hkey.
    rewrite Ej in Hkey. simpl in Hkey. apply Hgs in Hin. rewrite (group_named _ k) by done.
    unfold distro_reference, distro_outcome. rewrite Hkey. by destruct (names_in details k), (named details).
  - unfold distro_reference. destruct (group_key d) as [k|] eqn:Ek; [|done]. destruct (groups_spec details k) as [_ Hs].
    assert (j ∈ default [] (distro_groups details !! k)) as Hj by (apply Hs; eauto).
    destruct (distro_groups details !! k) as [g|] eqn:Eg; [|by apply not_elem_of_nil in Hj].
    apply list_find_None in E. rewrite Forall_forall in E. destruct (E (k, g)); [by apply Hgs|done].
Qed.

Lemma settings_judged details :
  apply_distribution_compliance system_distro version_id system_version details = distro_reference details <$> details.
Proof. by apply groups_judged. Qed.

(** C34. The settings of a policy about the distribution are judged as each of them should be,
    whatever the order of the settings and of the groups in the hash map, and however the
    entries are interleaved: the settings of an entry that names the system are evaluated
    against it; those of the other entries do not apply if some entry names the system; if
    none does, the system is entered as the actual type of each entry and its other settings
    do not apply; and a setting that belongs to no entry is left as it was. *)
Theorem distribution_exact details :
  apply_distribution_compliance system_distro version_id system_version details = distro_reference details <$> details ∧
  ∀ groups, groups ≡ₚ map_to_list (distro_groups details) →
    foldl (process (existsb (group_matches system_distro details) groups.*2)) details groups.*2 =
    apply_distribution_compliance system_distro version_id system_version details.
Proof.
  split; [apply settings_judged|]. intros groups Hg. by rewrite groups_judged, settings_judged.
Qed.

End distribution.

(** ** Passwords *)

Section passwords.
Context {X : Ext} {W : Type} {TE : TaskEnv W} {PE : PolicyEnv W}.
Notation TM := (TM W).

(** What the file of the policy cache holds for a key. *)
Definition stored (file : DbFile (list PolicyRow)) (key : string) : option PolicyValue :=
  policy_get (Build_PolicyCache {| has_conn := true; writable := true |} file) key.

Definition password_key (key : string) : bool := existsb (λ p, String.eqb p.1 key) password_rules.

(** The last value the settings have for a key. *)
Definition last_value (key : string) (l : list PolicyDetails) : option string :=
  pd_expected_value <$> last (List.filter (λ d, String.eqb (pd_setting_definition_item_id d) key) l).

(** The value, if there is one, is a number and the file holds it; else the file holds what it
    held. *)
Definition bound_to (before after : DbFile (list PolicyRow)) (key : string) (value : option string) : Prop :=
  match value with
  | Some v => ∃ n, parse_uint u32_max v = Some n ∧ stored after key = Some (PolicyValue_Int n)
  | None => stored after key = stored before key
  end.

Lemma disk_keeps_policies s : t_policies (is_disk_encrypted s).2 = t_policies s.
Proof.
  unfold is_disk_encrypted, mbind, TM_bind, command, ask, mret, TM_ret, log_call.
  repeat (match goal with |- context [te_run ?p ?a ?e ?w] => destruct (te_run p a e w) as [? ?] end; simpl; try done;
    repeat case_match; simplify_eq/=; try done).
Qed.

(** Setting a value, as far as it succeeds. *)
Lemma cache_set_stored conn key n s : has_conn conn = true → writable conn = true → in_u32 n →
  let r := policy_cache_set conn key (PolicyValue_Int n) s in
  (r.1 = true → stored (t_policies r.2) key = Some (PolicyValue_Int n)) ∧
  ∀ key', key' ≠ key → stored (t_policies r.2) key' = stored (t_policies s) key'.
Proof.
  intros Hc Hw Hn. unfold policy_cache_set, on_policies, outside, mbind, TM_bind.
  destruct (pe_set_fault (t_world s)) as [fault w]. unfold policy_set. simpl. rewrite Hw. simpl. rewrite Hc. simpl.
  destruct (t_policies s) as [[rows|]|]; [|done..]. destruct fault; [done|]. simpl.
  pose proof (policy_roundtrip {| has_conn := true; writable := true |} rows key (PolicyValue_Int n)) as Hr. split.
  - intros _. by apply (Hr key).
  - intros key' Hne. by apply Hr.
Qed.

(** A password rule without an error is in the file, and no other key of it has changed. *)
Lemma setting_stored conn d s key : has_conn conn = true → writable conn = true → password_key key = true →
  (apply_setting conn d s).1.1 = [] →
  bound_to (t_policies s) (t_policies (apply_setting conn d s).2) key (last_value key [d]).
Proof.
  intros Hc Hw Hk. unfold last_value. simpl. unfold apply_setting.
  destruct (is_distro_setting (pd_setting_definition_item_id d)) eqn:Ed.
  { destruct (String.eqb_spec (pd_setting_definition_item_id d) key) as [<-|]; [|done].
    unfold password_key in Hk. apply existsb_exists in Hk as (p & Hp & He%String.eqb_eq). exfalso.
    repeat (destruct Hp as [<-|Hp]; [simpl in He; by rewrite <- He in Ed|]). done. }
  destruct (String.eqb_spec (pd_setting_definition_item_id d) "linux_deviceencryption_required") as [He|He].
  { destruct (String.eqb_spec (pd_setting_definition_item_id d) key) as [Hkey|]; [subst key; by rewrite He in Hk|].
    intros _. pose proof (disk_keeps_policies s) as Hd. unfold mbind, TM_bind. destruct (is_disk_encrypted s) as [e s'].
    simpl in *. by rewrite Hd. }
  destruct (List.find _ password_rules) as [[k word]|] eqn:Ef.
  - apply find_some in Ef as [Hin Hkk%String.eqb_eq]. simpl in Hkk. subst k.
    destruct (parse_uint u32_max (pd_expected_value d)) as [n|] eqn:En; [|done].
    pose proof (cache_set_stored conn (pd_setting_definition_item_id d) n s Hc Hw (parse_uint_bounds _ _ _ En)) as [H1 H2].
    unfold mbind, TM_bind. destruct (policy_cache_set _ _ _ s) as [ok s']. simpl in *.
    destruct ok; simpl; [|done]. intros _. destruct (String.eqb_spec (pd_setting_definition_item_id d) key) as [<-|Hne]; simpl; eauto.
  - intros _. destruct (String.eqb_spec (pd_setting_definition_item_id d) key) as [<-|Hne]; simpl; [|done].
    unfold password_key in Hk. apply existsb_exists in Hk as (p & Hp & He').
    by rewrite (List.find_none _ _ Ef p Hp) in He'.
Qed.

Lemma last_value_app key l1 l2 :
  last_value key (l1 ++ l2) = match last_value key l2 with Some v => Some v | None => last_value key l1 end.
Proof.
  unfold last_value. rewrite List.filter_app, last_app. by destruct (last (List.filter _ l2)).
Qed.

Lemma last_value_cons key d l : last_value key (d :: l) = match last_value key l with Some v => Some v | None => last_value key [d] end.
Proof. apply (last_value_app key [d] l). Qed.

(** A change that is not of the rule itself. *)
Lemma last_value_map key f l :
  (∀ d, pd_setting_definition_item_id (f d) = pd_setting_definition_item_id d ∧ pd_expected_value (f d) = pd_expected_value d) →
  last_value key (f <$> l) = last_value key l.
Proof.
  intros Hf. induction l as [|d l IH]; [done|]. rewrite fmap_cons, (last_value_cons _ (f d)), (last_value_cons _ d), IH.
  destruct (last_value key l); [done|]. unfold last_value. simpl. destruct (Hf d) as [-> He].
  destruct (String.eqb _ key); simpl; [by rewrite He|done].
Qed.

Lemma bound_trans f1 f2 f3 key v1 v2 : bound_to f1 f2 key v1 → bound_to f2 f3 key v2 →
  bound_to f1 f3 key (match v2 with Some v => Some v | None => v1 end).
Proof. intros H1 H2. destruct v2; [done|]. unfold bound_to in *. by destruct v1; rewrite H2. Qed.

Lemma settings_stored conn l s key : has_conn conn = true → writable conn = true → password_key key = true →
  (apply_settings conn l s).1.1 = [] →
  bound_to (t_policies s) (t_policies (apply_settings conn l s).2) key (last_value key l).
Proof.
  intros Hc Hw Hk. revert s. induction l as [|d l IH]; intros s; [done|]. simpl. unfold mbind, TM_bind.
  pose proof (setting_stored conn d s key Hc Hw Hk) as Hd. destruct (apply_setting conn d s) as [[e d'] s1]. simpl in *.
  specialize (IH s1). destruct (apply_settings conn l s1) as [[es l'] s2]. simpl in *. intros [-> ->]%app_eq_nil.
  specialize (Hd eq_refl). specialize (IH eq_refl).
  rewrite last_value_cons. by eapply bound_trans.
Qed.

Lemma reference_rule sd vid sv details d :
  pd_setting_definition_item_id (distro_reference sd vid sv details d) = pd_setting_definition_item_id d ∧
  pd_expected_value (distro_reference sd vid sv details d) = pd_expected_value d.
Proof. unfold distro_reference, evaluate_distro_detail, check_version. by repeat case_match. Qed.

Lemma open_bound s key :
  let r := open_policy_cache s in
  stored (t_policies r.2) key = stored (t_policies s) key ∧
  ∀ conn, r.1 = Some conn → has_conn conn = true ∧ writable conn = true.
Proof.
  unfold open_policy_cache, on_policies, PolicyCache_new, open_cache. simpl.
  destruct (t_policies s) as [f|]; simpl; repeat case_match; simplify_eq/=; (split; [done|]); intros conn; by intros [= <-].
Qed.

Lemma compliance_stored p s key : password_key key = true → (apply_compliance p s).1.1 = Ok tt →
  bound_to (t_policies s) (t_policies (apply_compliance p s).2) key (last_value key (ps_details p)).
Proof.
  intros Hk. unfold apply_compliance, mbind, TM_bind, ask, mret, TM_ret.
  destruct (os_release (t_world s)) as [[distro vid]|]; [|done].
  destruct (version_parse (normalize_version vid)) as [sv|]; [|done]. pose proof (open_bound s key) as [Ho Hconn].
  destruct (open_policy_cache s) as [[conn|] s1]; [|done]. destruct (Hconn conn eq_refl) as [Hc Hw]. simpl in *.
  rewrite settings_judged. set (l := _ <$> _).
  pose proof (settings_stored conn l s1 key Hc Hw Hk) as Hs. destruct (apply_settings conn l s1) as [[es l'] s2]. simpl in *.
  destruct es; [|done]. intros _. specialize (Hs eq_refl). unfold l in Hs. rewrite last_value_map in Hs by apply reference_rule.
  unfold bound_to in *. by destruct (last_value key (ps_details p)); rewrite <- ?Ho.
Qed.

(** A policy that is left out has no password rule. *)
Lemma no_compliance_no_rule p key : password_key key = true → has_setting is_compliance_setting p = false →
  last_value key (ps_details p) = None.
Proof.
  intros Hk Hp. unfold last_value. destruct (List.filter _ (ps_details p)) as [|d l] eqn:E; [done|]. exfalso.
  assert (In d (ps_details p) ∧ String.eqb (pd_setting_definition_item_id d) key = true) as [Hd He%String.eqb_eq]
    by (apply (filter_In (λ d, String.eqb (pd_setting_definition_item_id d) key)); rewrite E; by left).
  assert (is_compliance_setting (pd_setting_definition_item_id d) = true) as Hset.
  { rewrite He. unfold password_key in Hk. apply existsb_exists in Hk as (r & Hr & <-%String.eqb_eq).
    by repeat (destruct Hr as [<-|Hr]; [done|]). }
  assert (has_setting is_compliance_setting p = true) as Ht by (apply existsb_exists; eauto). congruence.
Qed.

Lemma policies_stored l s key : password_key key = true → (apply_compliance_policies l s).1.1 = [] →
  bound_to (t_policies s) (t_policies (apply_compliance_policies l s).2) key (last_value key (l ≫= ps_details)).
Proof.
  intros Hk. revert s. induction l as [|p l IH]; intros s; [done|]. rewrite bind_cons, last_value_app. revert IH.
  generalize (last_value key (l ≫= ps_details)). intros v IH. simpl. unfold mbind, TM_bind, mret, TM_ret.
  destruct (has_setting is_compliance_setting p) eqn:Ep.
  - pose proof (compliance_stored p s key Hk) as Hp. destruct (apply_compliance p s) as [[r p'] s1]. simpl in *.
    specialize (IH s1). destruct (apply_compliance_policies l s1) as [[es l'] s2]. simpl in *.
    destruct r as [[]|]; [|done]. simpl. intros ->. eapply bound_trans; [by apply Hp|by apply IH].
  - rewrite (no_compliance_no_rule p key) by done. simpl. specialize (IH s).
    destruct (apply_compliance_policies l s) as [[es l'] s2]. simpl in *. intros ->. specialize (IH eq_refl). by destruct v.
Qed.

(** The counts that are held against the rules. *)
Definition pin_counts (pin : pin_chars) : list (string * Z) :=
  [("linux_passwordpolicy_minimumlength", wrap32 (Z.of_nat (length pin)));
   ("linux_passwordpolicy_minimumdigits", count_chars is_ascii_digit pin);
   ("linux_passwordpolicy_minimumlowercase", count_chars is_ascii_lowercase pin);
   ("linux_passwordpolicy_minimumuppercase", count_chars is_ascii_uppercase pin);
   ("linux_passwordpolicy_minimumsymbols", count_chars (λ c, negb (is_ascii_alphanumeric c)) pin)].

(** When the tasks daemon reports no error for the compliance policies, the value of each
    password rule among them (the last, if there are several) is a number, and with the file
    it leaves behind the check refuses a PIN that has fewer characters of that kind. *)
Lemma rule_checked l s key v :
  (compliance_cse l s).1.1 = Ok tt → last_value key (l ≫= ps_details) = Some v → password_key key = true →
  ∃ n, parse_uint u32_max v = Some n ∧
    ∀ is_root ft pin count, (key, count) ∈ pin_counts pin →
      meets_intune_pin_policy is_root ft (t_policies (compliance_cse l s).2) pin = Ok tt → n ≤ count.
Proof.
  intros Hr Hv Hk.
  pose proof (policies_stored l s key Hk) as Hs. rewrite Hv in Hs. clear Hv. unfold compliance_cse, mbind, TM_bind, mret, TM_ret in *.
  destruct (apply_compliance_policies l s) as [[es l'] s']. simpl in *. destruct es; [|done].
  specialize (Hs eq_refl). destruct Hs as (n & Hn & Hst). exists n. split; [done|].
  intros is_root ft pin count Hin Hmeets. apply pin_policy_exact in Hmeets as (cache & Hcache & Hall).
  specialize (Hall key count Hin n). unfold PolicyCache_new, open_cache in Hcache.
  destruct (t_policies s') as [f|]; [|done]. destruct (open_fault ft); [done|]. simplify_eq/=. by apply Hall in Hst.
Qed.

End passwords.

(** ** Scripts *)

Section scripts.
Context {X : Ext} {I : IniFile} {G : GeneratedConfig} {PCf : PamConfig} {W : Type} {TE : TaskEnv W} {PE : PolicyEnv W}.
Notation TM := (TM W).

Definition never_ok {A E} (m : TM (result A E)) : Prop := ∀ s a, (m s).1 ≠ Ok a.

Lemma never_err {A E} (e : E) : never_ok (mret (Err e) : TM (result A E)).
Proof. done. Qed.

Lemma never_try {A B E} (m : TM (result A E)) (k : A → TM (result B E)) : (∀ a, never_ok (k a)) → never_ok (t_try m k).
Proof. intros Hk s b. unfold t_try, mbind, TM_bind. destruct (m s) as [[a|e] s']; [apply Hk|done]. Qed.

Lemma install_needs_schedule dir id g b64 : cron_schedule (sg_frequency g) = None → never_ok (install_script dir id g b64).
Proof.
  intros Hf. unfold install_script. rewrite Hf. destruct (b64_decode b64); [|apply never_err].
  destruct (utf8_valid _); [|apply never_err]. repeat (apply never_try; intros ?). apply never_err.
Qed.

Lemma detail_frequency username d g g' d' : script_detail username d g = (Ok g', d') →
  pd_setting_definition_item_id d ≠ "linux_customconfig_executionfrequency" →
  sg_frequency g' = sg_frequency g ∧
  (is_Some (sg_script_b64 g) ∨ pd_setting_definition_item_id d = "linux_customconfig_script" → is_Some (sg_script_b64 g')) ∧
  pd_setting_definition_item_id d' = pd_setting_definition_item_id d ∧
  (pd_setting_definition_item_id d = "linux_customconfig_script" → pd_new_compliance_state d' = "Compliant").
Proof.
  intros Hd Hne. unfold script_detail in Hd.
  repeat match type of Hd with context [String.eqb ?a ?b] => destruct (String.eqb_spec a b) end;
    repeat case_match; simplify_eq/=; (split_and!; [done|intros [?|?]|done|intros ?]; (done || congruence)).
Qed.

Lemma details_frequency username l g g' l' : script_details username l g = (Ok g', l') →
  Forall (λ d, pd_setting_definition_item_id d ≠ "linux_customconfig_executionfrequency") l →
  sg_frequency g' = sg_frequency g ∧
  (is_Some (sg_script_b64 g) ∨ existsb (λ d, String.eqb "linux_customconfig_script" (pd_setting_definition_item_id d)) l = true →
   is_Some (sg_script_b64 g')) ∧
  Forall (λ d, pd_setting_definition_item_id d = "linux_customconfig_script" → pd_new_compliance_state d = "Compliant") l'.
Proof.
  revert g l'. induction l as [|d l IH]; intros g l'; simpl; [intros [= <- <-] _; naive_solver|].
  destruct (script_detail username d g) as [[g1|] d1] eqn:Ed; [|done].
  destruct (script_details username l g1) as [r l1] eqn:El. intros [= -> <-] [Hd Hl]%Forall_cons.
  destruct (detail_frequency _ _ _ _ _ Ed Hd) as (Hf & Hs & Hid & Hc). destruct (IH _ _ El Hl) as (Hf' & Hs' & Hc').
  split_and!; [congruence| |].
  - intros [H|[H|H]%orb_true_iff]; apply Hs'; [auto| |by right]. left. apply Hs. right. symmetry. by apply String.eqb_eq.
  - constructor; [|done]. rewrite Hid. done.
Qed.

(** The calls that prepare a script: its directory is made, and the script and its wrapper are
    written there and made executable. No job is among them. *)
Inductive prepares (cfg : HimmelblauConfig) (id : string) : option (Z * Z) * SysCall → Prop :=
| prepares_dir : prepares cfg id (None, Sys_CreateDirAll (policy_dir cfg))
| prepares_open f : f ∈ [script_file (policy_dir cfg) id; wrapper_file (policy_dir cfg) id] →
    prepares cfg id (None, Sys_OpenTruncate f None false)
| prepares_write f text : f ∈ [script_file (policy_dir cfg) id; wrapper_file (policy_dir cfg) id] →
    prepares cfg id (None, Sys_Write f text)
| prepares_chmod f : f ∈ [script_file (policy_dir cfg) id; wrapper_file (policy_dir cfg) id] →
    prepares cfg id (None, Sys_Run "chmod" ["+x"; f] []).

(** The file of the job is neither of them. *)
Lemma cron_file_apart cfg id f :
  f ∈ [script_file (policy_dir cfg) id; wrapper_file (policy_dir cfg) id] → f ≠ cron_file id.
Proof.
  assert (3 ≤ String.length (policy_dir cfg))%nat as Hd.
  { unfold policy_dir, join. destruct (last_char _) as [c|]; [|done].
    destruct (Ascii.eqb c SLASH); rewrite !length_append; simpl; lia. }
  intros Hf ->. unfold script_file, wrapper_file, cron_file in Hf.
  apply elem_of_cons in Hf as [Hf|[Hf|Hf%not_elem_of_nil]%elem_of_cons]; [..|done];
    apply (f_equal String.length) in Hf; rewrite !length_append in Hf; simpl in Hf; lia.
Qed.

Notation anywhere := (λ _ : W, True).

Lemma create_prepares cfg id f text m1 m2 :
  f ∈ [script_file (policy_dir cfg) id; wrapper_file (policy_dir cfg) id] →
  acts anywhere (prepares cfg id) (create_file f text m1 m2).
Proof.
  intros Hf. unfold create_file, sys_or. repeat acts_step; try done; by constructor.
Qed.

Lemma chmod_prepares cfg id f msg :
  f ∈ [script_file (policy_dir cfg) id; wrapper_file (policy_dir cfg) id] →
  acts anywhere (prepares cfg id) (chmod "+x" f msg).
Proof. intros Hf. unfold chmod. repeat acts_step; try done; by constructor. Qed.

(** Without a schedule, the installation stops before the job. *)
Lemma install_prepares cfg id g b64 : cron_schedule (sg_frequency g) = None →
  acts anywhere (prepares cfg id) (install_script (policy_dir cfg) id g b64).
Proof.
  intros Hf. unfold install_script. rewrite Hf.
  assert (script_file (policy_dir cfg) id ∈ [script_file (policy_dir cfg) id; wrapper_file (policy_dir cfg) id] ∧
    wrapper_file (policy_dir cfg) id ∈ [script_file (policy_dir cfg) id; wrapper_file (policy_dir cfg) id]) as [? ?] by set_solver.
  repeat (apply create_prepares || apply chmod_prepares || acts_step); done.
Qed.

Lemma script_path_prepares cfg id : acts anywhere (prepares cfg id) (script_path cfg).
Proof. unfold script_path, sys_or. repeat acts_step; try done; by constructor. Qed.

Lemma script_path_dir cfg s dir : (script_path cfg s).1 = Ok dir → dir = policy_dir cfg.
Proof.
  unfold script_path, sys_or, t_try, mbind, TM_bind, syscall, mret, TM_ret.
  destruct (te_sys _ _) as [[]]; simpl; [by intros [= <-]|done].
Qed.

(** C40. A script that Intune assigns without a frequency is never installed: the default the
    code takes for it, [1hour], is none of the frequencies it knows, so that applying the
    policy always fails; all it does is to write the script and its wrapper into the directory
    of the policies, and no call touches the file of the job under [/etc/cron.d]. If no other
    setting is at fault, the script is none the less reported as compliant. *)
Theorem script_without_frequency cfg username p s :
  t_user s = None → is_script_policy p = true →
  Forall (λ d, pd_setting_definition_item_id d ≠ "linux_customconfig_executionfrequency") (ps_details p) →
  let '(r, s') := apply_script_policy cfg username p s in
  (∃ e, r.1 = Err e) ∧
  (∃ calls, t_calls s' = t_calls s ++ calls ∧ Forall (prepares cfg (ps_policy_id p)) calls ∧
     ∀ u c text mode nofollow, (u, c) ∈ calls →
       c ≠ Sys_OpenTruncate (cron_file (ps_policy_id p)) mode nofollow ∧ c ≠ Sys_Write (cron_file (ps_policy_id p)) text) ∧
  ∀ g, (script_details username (ps_details p) default_settings).1 = Ok g →
    Forall (λ d, pd_setting_definition_item_id d = "linux_customconfig_script" → pd_new_compliance_state d = "Compliant")
      (ps_details r.2).
Proof.
  intros Hu Hs Hl. assert (∀ calls, Forall (prepares cfg (ps_policy_id p)) calls → ∀ u c text mode nofollow, (u, c) ∈ calls →
    c ≠ Sys_OpenTruncate (cron_file (ps_policy_id p)) mode nofollow ∧ c ≠ Sys_Write (cron_file (ps_policy_id p)) text) as Hcron.
  { intros calls Hc u c text mode nofollow Hin. rewrite Forall_forall in Hc. specialize (Hc _ Hin).
    split; intros ->; inversion Hc as [|f Hf|f text' Hf|]; subst; by destruct (cron_file_apart _ _ _ Hf). }
  unfold apply_script_policy. destruct (script_details username (ps_details p) default_settings) as [[g|e] l] eqn:E.
  2: { simpl. split; [by eexists|]. split; [|done]. exists []. split; [by rewrite app_nil_r|]. split; [done|by apply Hcron]. }
  destruct (details_frequency _ _ _ _ _ E Hl) as (Hf & Hb & Hc). destruct Hb as [b64 Hb]; [by right|]. rewrite Hb.
  unfold mbind, TM_bind, mret, TM_ret. destruct (script_path_prepares cfg (ps_policy_id p) s Hu Logic.I) as (_ & U1 & _ & c1 & D1 & F1).
  pose proof (script_path_dir cfg s) as Hdir. destruct (script_path cfg s) as [[dir|e] s1]; simpl in *.
  2: { split; [by eexists|]. split; [exists c1; split_and!; [done..|by apply Hcron]|done]. }
  rewrite (Hdir dir eq_refl). rewrite Hu in U1.
  destruct (install_prepares cfg (ps_policy_id p) g b64) with (s := s1) as (_ & _ & _ & c2 & D2 & F2); [by rewrite Hf|done|done|].
  pose proof (install_needs_schedule (policy_dir cfg) (ps_policy_id p) g b64) as Hn. rewrite Hf in Hn. specialize (Hn eq_refl s1).
  destruct (install_script (policy_dir cfg) _ g b64 s1) as [[[]|e] s2]; [by destruct (Hn tt)|]. simpl in *. split; [by eexists|].
  split; [|done]. exists (c1 ++ c2). rewrite D2, D1, (assoc_L (++)). assert (Forall (prepares cfg (ps_policy_id p)) (c1 ++ c2))
    by by apply Forall_app. split_and!; [done..|by apply Hcron].
Qed.

End scripts.
