(* ===== verification/TasksModels.v ===== *)
(** * A host, and the theorems on the tasks daemon and the policies on it

    The directories of a file system, a group of sudoers, a version of the system: the
    hypotheses of the theorems hold on concrete runs. *)
From stdpp Require Import base gmap strings list fin_maps.
From Stdlib Require Import ZArith Lia Ascii.
From S2P Require Import Prelude Proto Caches Config ConfigTheorems Pam HelloPin Models PamModels TaskHost Policies Tasks TasksFacts TasksTheorems PoliciesTheorems.

Open Scope rust_scope.

(** ** The host *)

(** The directories there are; the members of the group of sudoers. *)
Record Machine := { m_dirs : list (bool * list string); m_sudoers : list string }.

Definition is_dotdot (p : string) : bool := bool_decide (last (components p).2 = Some "..").

Definition machine_has (p : string) (w : Machine) : bool := bool_decide (components p ∈ m_dirs w) || is_dotdot p.

Definition machine_call {X : Ext} (c : SysCall) (w : Machine) : Machine :=
  match c with
  | Sys_CreateDirAll p => {| m_dirs := components p :: m_dirs w; m_sudoers := m_sudoers w |}
  | _ => w
  end.

Definition machine_output (text : string) : Output :=
  {| ou_success := true; ou_code := Some 0; ou_stdout := Some text; ou_stdout_lossy := text; ou_stderr_lossy := "" |}.

#[export] Instance machine_env : TaskEnv Machine := {|
  te_sys c w := (Ok tt, machine_call c w);
  te_run program _ _ w :=
    (Ok (machine_output (if String.eqb program "getent" then getent_line "sudo" "x" "27" (m_sudoers w) else "")), w);
  te_exists := machine_has;
  te_is_dir := machine_has;
  te_try_exists p w := Ok (machine_has p w);
  te_is_symlink _ _ := Ok false;
  te_read_to_string _ _ := None;
  te_read_dir _ _ := [];
  te_skel _ := [("", true); (".profile", false)];
  te_temp_file _ w := (Ok "/tmp/.tmpA", w);
  te_mapped_names _ := None;
  te_cred_name _ := "alice@KERBEROS.MICROSOFTONLINE.COM";
  te_uuid_try_parse t := if contains_char SLASH t then Err "invalid character" else Ok tt
|}.

Lemma machine_keeps d c w : machine_has d w = true → machine_has d (machine_call c w) = true.
Proof.
  destruct c; try done. unfold machine_has. simpl. rewrite !orb_true_iff, !bool_decide_eq_true, elem_of_cons. tauto.
Qed.

#[export] Instance machine_laws : TaskEnvLaws machine_env.
Proof.
  split; simpl.
  - intros d p w _ _ Hp. split; [|done]. unfold machine_has, is_dotdot. rewrite Hp. simpl. rewrite last_app. simpl.
    apply orb_true_r.
  - intros d c w H1 H2 _. split; by apply machine_keeps.
  - intros w rel b Hin. apply elem_of_cons in Hin as [[= -> _]|Hin]; [set_solver|].
    apply list_elem_of_singleton in Hin as [= -> _]. set_solver.
  - intros t. by destruct (contains_char SLASH t).
Qed.

#[export] Instance machine_policies : PolicyEnv Machine := {|
  Version := string;
  version_parse v := Ok v;
  version_le := String.leb;
  version_to_string v := v;
  os_release _ := Ok ("debian", "12");
  b64_decode s := Ok s;
  utf8_error _ := "invalid utf-8";
  is_json_object _ := Ok tt;
  user_policies_from_str _ := Ok ∅;
  user_policies_to_string _ := Ok "{}";
  pe_set_status _ _ _ d := d;
  pe_debug_errors l := String.concat ", " l;
  pe_sql_error := "database is locked";
  pe_open_faults _ := Build_OpenFaults false false false false;
  pe_set_fault w := (false, w);
  Graph := unit;
  Endpoints := unit;
  Intune := unit;
  pe_graph_new _ _ _ _ _ _ _ w := (Ok tt, w);
  pe_endpoints _ _ w := (Ok tt, w);
  pe_portal_versions w := (None, w);
  pe_intune_new _ _ _ _ := Ok tt;
  pe_enroll_attrs _ := Ok tt;
  pe_details _ _ _ _ w := (Ok tt, w);
  pe_policies _ _ _ w := (Ok [], w);
  pe_sleep _ w := w;
  pe_noncompliant_rules _ _ _ w := (Ok [], w)
|}.

#[export] Instance machine_config : TaskConfig := {|
  get_use_etc_skel _ := true;
  get_local_groups _ := ["users"];
  get_local_sudo_group _ := "sudo"
|}.

Definition alice_home : HomeDirectoryInfo :=
  {| hd_uid := 1000; hd_gid := 1000; hd_name := "alice@example.com"; hd_aliases := ["../alice"] |}.

(** Two requests: one byte each. *)
#[export] Instance machine_codec : TaskCodecOps := {|
  task_from_slice bytes :=
    match bytes with
    | [Byte.x01; Byte.x01] => Some (TaskRequest_HomeDirectory alice_home)
    | [Byte.x02] => Some (TaskRequest_KerberosTGTs 1000 1000 (Some tt) None)
    | _ => None
    end;
  debug_text s := s
|}.

Definition machine (sudoers : list string) : TState Machine := {|
  t_world := {| m_dirs := [components "/home/"; components SKEL_DIR]; m_sudoers := sudoers |};
  t_umask := 18; t_user := None; t_policies := None; t_calls := []
|}.

(** ** Witnesses *)


(** Of two sudoers, the first can be removed and the second cannot. *)
Lemma last_sudoer_kept_witness :
  t_calls (remove_user_from_group "alice" "sudo" (machine ["alice"; "bob"])).2 =
    [(None, Sys_Run "getent" ["group"; "sudo"] []); (None, Sys_Run "gpasswd" ["-d"; "alice"; "sudo"] [])] ∧
  t_calls (remove_user_from_group "bob" "sudo" (machine ["alice"; "bob"])).2 =
    [(None, Sys_Run "getent" ["group"; "sudo"] [])].
Proof.
  assert (Forall plain (["alice"] ++ ["bob"])) by (repeat constructor).
  split; rewrite (last_sudoer_kept _ "sudo" (machine_output (getent_line "sudo" "x" "27" ["alice"; "bob"]))
    (t_world (machine ["alice"; "bob"])) (machine ["alice"; "bob"]) "sudo" "x" "27" ["alice"] "bob"); done.
Defined.

(** A setting of a policy. *)
Definition setting (id path value : string) : PolicyDetails :=
  {| pd_setting_definition_item_id := id; pd_rule_id := "rule"; pd_csp_path := path; pd_expected_value := value;
     pd_actual_value := ""; pd_new_compliance_state := "NonCompliant"; pd_old_compliance_state := "NonCompliant" |}.

(** Two distributions, whose settings are mixed. *)
Definition mixed_settings : list PolicyDetails :=
  [setting DISTRO_TYPE "./Distribution/AllowedDistros/0/$type" "ubuntu";
   setting DISTRO_MIN "./Distribution/AllowedDistros/1/MinimumVersion" "13";
   setting DISTRO_TYPE "./Distribution/AllowedDistros/1/$type" "Debian";
   setting "linux_passwordpolicy_minimumlength" "./Password/MinimumLength" "8"].

Definition two_groups : list (string * list nat) := [("0", [0%nat]); ("1", [1%nat; 2%nat])].

Lemma distribution_exact_witness :
  foldl (process_distro_group "debian" "12" "12.0.0" (existsb (group_matches "debian" mixed_settings) two_groups.*2))
    mixed_settings two_groups.*2 =
  distro_reference "debian" "12" "12.0.0" mixed_settings <$> mixed_settings ∧
  pd_new_compliance_state <$> (distro_reference "debian" "12" "12.0.0" mixed_settings <$> mixed_settings) =
    ["Compliant"; "NonCompliant"; "Compliant"; "NonCompliant"].
Proof.
  split; [|reflexivity].
  destruct (distribution_exact (PE := machine_policies) "debian" "12" "12.0.0" mixed_settings) as [<- H]. apply H.
  apply NoDup_Permutation_bis; [apply NoDup_ListNoDup; repeat constructor; set_solver|reflexivity|].
  intros kg [<-|[<-|[]]]; by apply list_elem_of_In, elem_of_map_to_list.
Defined.

(** A policy that asks for eight characters. *)
Definition eight : list PolicyStatus :=
  [{| ps_policy_id := "p"; ps_details := mixed_settings |}].

Example eight_stored :
  t_policies (compliance_cse eight (machine [])).2 = Some (Some [Build_PolicyRow "linux_passwordpolicy_minimumlength" "8" 1]).
Proof. reflexivity. Qed.

Definition hourless : PolicyStatus :=
  {| ps_policy_id := "p"; ps_details := [setting "linux_customconfig_script" "./Script" "true"] |}.

Lemma script_without_frequency_witness :
  let '(r, s') := apply_script_policy sample_config "alice" hourless (machine []) in
  (∃ e, r.1 = Err e) ∧
  last (t_calls s') =
    Some (None, Sys_Run "chmod" ["+x"; "/var/cache/himmelblau-policies/bin/policy_p_wrapper.sh"] []) ∧
  pd_new_compliance_state <$> ps_details r.2 = ["Compliant"].
Proof.
  pose proof (script_without_frequency sample_config "alice" hourless (machine []) eq_refl eq_refl) as H.
  split; [|split; reflexivity]. apply H. by repeat constructor.
Defined.
