(* ===== verification/PolicyPin.v ===== *)
(** * From the policy of the administrator to the PIN of the user

    The tasks daemon stores the password rules of the Intune policies in a file
    ([PoliciesTheorems]); the PAM client reads the file when a login asks for a new Linux
    Hello PIN ([PamAuth]). What the two give together. The PIN change of [pam_sm_chauthtok]
    does not read the file, and the daemon does not either. *)
From stdpp Require Import base gmap strings list fin_maps.
From Stdlib Require Import ZArith Lia Ascii.
From S2P Require Import Prelude Proto Caches Config ConfigTheorems HelloPin Models Pam PamAuth PamFacts PamModels PamTheorems TaskHost Policies PoliciesTheorems TasksModels.

Open Scope rust_scope.

Section enrolment.
Context {X : Ext} {I : IniFile} {G : GeneratedConfig} {PC : PamConfig} {T : TextOps}.
Context {U V : Type} {DL : DaemonLink V} {PE : PamEnv U} {FE : FidoEnv U}.
Context {W : Type} {TE : TaskEnv W} {PLE : PolicyEnv W}.
Context (fuel : nat) (mp : MessagePrinter U V) {QP : QuietPrinter mp}.

(** A PIN goes to the daemon for enrolment only after it was found acceptable. *)
Lemma conversation_setup s req tr code pin r :
  conversation s req tr code → req ≠ ClientRequest_PamAuthenticateStep (PamAuthRequest_SetupPin pin) →
  (ClientRequest_PamAuthenticateStep (PamAuthRequest_SetupPin pin), r) ∈ tr →
  ∃ min, pin_acceptable (U := U) min pin.
Proof.
  intros Hc Hreq Hin.
  assert (req = ClientRequest_PamAuthenticateStep (PamAuthRequest_SetupPin pin) ∨ ∃ min, pin_acceptable (U := U) min pin)
    as [?|?]; [|done..]. clear Hreq. revert Hin.
  induction Hc as [s req r' p code s' Hp Ha|s req r' Hp|s req r' p next s' tr code Hp Ha Hc IH].
  - intros [= -> _]%list_elem_of_singleton. by left.
  - intros [= -> _]%list_elem_of_singleton. by left.
  - intros [[= -> _]|Hin]%elem_of_cons; [by left|]. right. destruct (IH Hin) as [->|?]; [|done].
    inversion Ha; subst; eauto.
Qed.


End enrolment.

(** ** A login on a host with a policy of eight characters *)

Definition eight_file : DbFile (list PolicyRow) := t_policies (compliance_cse eight (machine [])).2.

#[local] Instance policed_user : PamEnv Script := {|
  conv_send := conv_send;
  println := println;
  eprintln := eprintln;
  prompt_password := prompt_password;
  sleep_secs := sleep_secs;
  bluez_objects := bluez_objects;
  policy_root := false;
  policy_faults := {| parent_fault := false; open_fault := false; create_fault := false; chmod_fault := false |};
  policy_file _ := eight_file
|}.

Definition eight_world : PamWorld Script (list ClientResponse) :=
  scripted ["5829147"; "58291473"; "58291473"] None [PamAuthResponse_SetupPin "Choose a PIN"; PamAuthResponse_Success].

Notation eight_login :=
  (authenticate 20 (SimpleMessagePrinter (PE := policed_user)) None sample_config "alice@example.com" "gdm-password" model_options
     eight_world).

(** The PIN of seven characters is refused, the one of eight is taken. *)
Lemma eight_login_runs :
  (λ r, (r.1, pw_calls r.2)) <$> eight_login
  = Some (PAM_SUCCESS,
      [(ClientRequest_PamAuthenticateInit "alice@example.com" "gdm-password" false false,
        Ok (ClientResponse_PamAuthenticateStepResponse (PamAuthResponse_SetupPin "Choose a PIN")));
       (ClientRequest_PamAuthenticateStep (PamAuthRequest_SetupPin "58291473"),
        Ok (ClientResponse_PamAuthenticateStepResponse PamAuthResponse_Success))]).
Proof. reflexivity. Qed.

